(* ===== verification/_CoqProject ===== *)
-Q . S2P
Prelude.v
Text.v
Json.v
WriteSegments.v
Fips180.v
Sha256.v
Paths.v
Domain.v
PackIngress.v
RawIngress.v
Tar.v
PackVolume.v
PackRender.v
RawVolume.v
CollectionPlan.v
ArchivePlan.v
IncrementalPlan.v
Crypto.v
Base64.v
Age.v
AgeUnits.v
AgeRange.v
StreamingAge.v
SessionCache.v
ArchiveContracts.v
ArchiveDocuments.v
RawVerification.v
ArchiveAuthority.v
RawCheckpoint.v
RawUpload.v
MemoryStore.v
UploadLayout.v
UploadStore.v
UploadSafety.v
UploadSystem.v
UploadProgress.v
RawRetrieval.v
RetrievalSystem.v
PackRetrieval.v
PackCheckpoint.v
PackUpload.v
PackLayout.v
PackSafety.v
PackSystem.v
PackProgress.v
