(* ===== verification/Prelude.v ===== *)
(** * Riverhog archive construction: a verification development

    Riverhog turns collections of files into encrypted archive objects.  This
    development models the part of the server and of its shared packages that
    decides what those objects contain, and proves that nothing is lost,
    duplicated or altered between a registered file and the stored bytes, and
    back.  All sources are under [src/]; the Python packages are
    [riverhog_core] ([riverhog/server]), [riverhog_protocol], [riverhog_age]
    and [riverhog_archive_contracts] ([packages]).

    ** How the program works, and where each part is modelled

    A client registers files (a normalised path, a size, a SHA-256 digest).
    The planner groups small files into pack volumes (tar archives cut into
    upload units at age chunk boundaries) and cuts large files into raw
    volumes; it runs either over a whole collection or incrementally, batch by
    batch, with a persisted checkpoint.  Units arrive as request bodies, are
    checked against their declared sources, rendered into tar bytes, encrypted
    as standard age v1 files by a resumable session, and written to an object
    store in segments; a durable checkpoint in a database row records what has
    been acknowledged, so that an upload survives restarts and several callers.
    Sealed raw files are read back and verified, and the receipts of all volumes
    become the documents of the archive.  A stored file can be
    decrypted as a whole, as a stream, or only in the chunks that cover a
    plaintext range.

    - [Prelude]: sequences, exceptions and the error monad, sorting, the
      tactics ([inv_ok], [bool_prop], [len_lia], [walk_exceptions]) and the hint
      databases [rh], [rhlen] and [exceptions].
    - [Text], [Json]: the parts of Python the code relies on: UTF-8, decimal,
      hexadecimal, [int()], [split], [strip]; [json.dumps] and [json.loads]; the
      class [JsonDocument] with the persistence law that every stored document
      instantiates.
    - [Fips180]: SHA-256 as FIPS 180-4 defines it, written from the standard with
      the constants computed from roots of primes.
    - [Sha256]: [checkpoint_sha256.py], a SHA-256 whose state is exported and
      restored, and the proof that it is the function of [Fips180].
    - [Paths]: [riverhog_protocol/paths.py], path and collection identity
      normalisation.
    - [Domain]: the records of [domain/archive.py] and shared constants.
    - [PackIngress], [RawIngress]: [pack_ingress.py] and [raw_ingress.py], the
      wire contracts of uploads: source descriptors, the reader of unit bodies,
      part digests and their ordered commitment.
    - [Tar], [PackVolume], [PackRender]: [pack_volume.py]: tar headers with pax
      extensions, the layout planner, the persisted plan, the streaming renderer.
    - [RawVolume]: [raw_volume.py].
    - [CollectionPlan], [IncrementalPlan]: [collection_plan.py] and
      [incremental_plan.py], with the content identity of [manifest.py].
    - [ArchivePlan]: [validate_collection_archive_plan] of the server's
      [archive_manifest.py], the check of a plan before publication.
    - [WriteSegments]: [write_segments.py], how archive parts become the segments
      of a multipart write.
    - [Crypto], [Base64]: HMAC, PBKDF2 and scrypt of the standard library; the
      AEAD interface; unpadded base64.
    - [Age], [AgeUnits]: [riverhog_age/resumable_age.py]: persisted state, the
      scrypt header and its parser, sessions, chunk encryption, the two decoders;
      the unit plans and [encrypt_part].
    - [AgeRange]: [age_range.py], exact plaintext ranges.
    - [StreamingAge], [SessionCache]: [streaming_age.py]: preparing a part from a
      stream, rechunking, and the shared session cache with its threads.
    - [ArchiveContracts]: [riverhog_archive_contracts/archive_manifest.py], the
      documents that describe a sealed archive (volumes, the terminal document,
      the root manifest) and the commitment to their sequence.
    - [ArchiveDocuments]: what a well-formed document is, said of its fields alone,
      and that the parsers accept exactly the canonical encodings of these.
    - [RawVerification]: [raw_verification.py], the commitment to the volumes of a
      raw file and the pass that reads it back.
    - [ArchiveAuthority]: the rest of the server's [archive_manifest.py], which
      builds the documents and the root manifest from receipts.
    - [RawCheckpoint]: the checkpoint of [raw_upload.py], its JSON form and merge,
      and its row in [stores/sqlalchemy_archive_upload_checkpoints.py].
    - [RawUpload]: [RawVolumeUploader] of [raw_upload.py] as calls on a world (the
      object store and the row).  The store is the class [ObjectStore] of the
      port in [ports/archive_objects.py]; what an adapter promises is the class
      [StoreContract], and [MemoryStore] is an instance.
    - [UploadLayout], [UploadStore]: what the proofs about raw and pack uploads
      share: which bytes and receipts a plaintext, its units and a session
      determine; the invariant of the store for one upload, Hoare triples and
      their rules, and the triple of each store operation.
    - [UploadSafety], [UploadSystem], [UploadProgress]: raw uploads: triples of
      every operation, the transition system of callers, store and row with its
      invariant, and progress.
    - [RawRetrieval], [RetrievalSystem]: [raw_retrieval.py], range reads of raw
      volumes and files with their worker pool, read-ahead and byte budget; and
      the composition of uploads with retrieval.
    - [PackRetrieval]: [pack_retrieval.py], the coalesced range requests for
      selected members of a pack, the batch reader and the member reader.
    - [PackCheckpoint], [PackUpload]: [pack_upload.py]: the checkpoint with its
      JSON form, merge and row, and [PackVolumeUploader] over the world of
      [RawUpload].  The definitions have the names of the source, which
      [RawCheckpoint] and [RawUpload] use too; a later file qualifies the raw ones.
    - [PackLayout], [PackSafety], [PackSystem], [PackProgress]: pack uploads: the
      units of a plan as consecutive ranges of the age file of the tar archive,
      triples, the transition system with its invariant, the composition with
      retrieval, and progress.

    ** How the code is translated

    A Python integer is a [Z]; widths are written out where the code has them
    (SHA-256 words, tar fields, nonce counters, C longs).  [str] and [bytes] are
    lists of code points and byte values.  A dataclass is a record and its
    [__post_init__] a [new_...] function; a function that may raise returns
    [result], whose errors carry the exception's class and message (messages
    that quote a value are abbreviated).  Loops are folds in the error monad, or
    recursions with the fuel named at each definition: always a length that the
    loop consumes, so fuel never runs out, and the theorems state that a result
    exists.  A generator is the list of what it yields together with how it
    ends.  Lock blocks of the session cache are atomic steps of a relation that
    interleaves threads.

    What is not source code is a parameter: the interpreter's Unicode tables
    ([UnicodeData]), the text of floats and containers ([PyEnv]), and the
    ChaCha20-Poly1305 cipher ([Aead], whose laws are that decryption inverts
    encryption and that a tag has 16 bytes).  Each has an instance with which
    the witnesses run.  Random bytes are arguments; clocks are left out.  The
    interpreter's limits on the length of decimal conversions and on recursion
    depth are not modelled.

    ** What the theorems show

    - Planning: plans partition the registered files (packs, raw volumes, both
      planners), every offset of a pack layout is pinned and units end on chunk
      boundaries, batching with persisted checkpoints in between does not change
      an incremental plan, and persisted plans and checkpoints round trip; internal consistency checks never fire.  The check of a plan
      accepts only volumes that place every byte of every file once, and it
      accepts what the planner makes.
    - Rendering: the renderer produces the planned bytes for every chunking of a
      payload and rejects every other payload; the units of a pack form a tar
      archive that an independent reader of the format reads back.
    - Hashing: the digest is that of FIPS 180-4; streaming, checkpointing and
      resuming do not change a digest, a part commitment or a content identity.
    - Encryption: age files round trip, streaming and whole-file decryption
      agree on all inputs, units encrypted one by one are the file, ranges
      decrypt exactly, a session is rebuilt from its persisted state, and the
      session cache is bounded, single-flight and free of deadlock.
    - Writing: the segments of a multipart write tile the parts within the
      store's limits, and a subdivision is found whenever one exists.
    - Documents: the parsers accept exactly the canonical encodings of well-formed
      documents, whose parts tile the plaintext of a volume; the commitment exists exactly for
      volumes 0, 1, ... with one terminal document and binds their texts.  The
      builders describe exactly the sealed receipts, and a root needs
      exactly one verification receipt, for exactly the sealed volumes, per raw
      file.
    - Reading back: the verification pass accepts exactly the volumes whose stored
      bytes match their parts, decrypt and form the file, in every chunking.
    - Uploading: concurrent acknowledgements merge to one checkpoint in every
      order and the row follows it; in every reachable state a completed
      checkpoint stands for an object that decrypts to the plaintext of the
      volume and passes verification (with registered unit digests, whatever is
      streamed but a collision; without them, when no two bodies of a unit's
      length differ); a unit with wrong bytes changes nothing;
      with a store that serves its calls an upload finishes.  The same holds for
      packs, whose plaintext is the tar archive of the planned files: [as_raw]
      carries the merge theorems over, [UploadStore] the store invariant.
    - Retrieval: the pool, the read-ahead, the answers of the budget and an early
      close do not change what a range reader yields, and everything reserved is
      returned; only bytes of contents with the recorded digests are delivered,
      whatever the store sends; any range of a sealed upload, and of a file of
      such volumes in any order, reads back exactly.  Coalesced requests are
      bounded, exact and sufficient; the files of an uploaded pack read back in
      every order of completion, and nothing unverified is returned.
    - Where the code does not do what it means to, a theorem shows the input:
      unstable path normalisation and its effect on persisted plans, a key error
      for some byte sizes, an unresumable pending file, work factors that no
      memory limit allows, a floating-point chunk count, a budget that a failed
      read-ahead does not return, an empty range of a packed file that is refused,
      the directory dot as the path of a file.

    ** Not modelled

    A call of the uploader runs to its end before the next one starts: stale
    checkpoints, repeated calls and calls that raise half-way are modelled, two
    calls that alternate between their requests are not.  Gates, budgets (but for
    the amounts they refuse) and timings are left out.  The catalog and workflow
    services are database transactions and HTTP orchestration over an ORM that is
    not in the sources; the HTTP API, the client, the companion application, the
    reference mechanisms and the scripts are separate programs. *)

From Stdlib Require Export ZifyNat Wf_nat.
From stdpp Require Export prelude strings sorting.

Open Scope Z_scope.

(** ** Python text and bytes

    A [str] is its list of code points and a [bytes] object its list of byte
    values; both are lists of integers, as Python's indexing shows them. *)

Abbreviation pystr := (list Z).
Abbreviation pybytes := (list Z).

(** The code points of an ASCII literal. *)
Fixpoint str (s : string) : pystr :=
  match s with
  | EmptyString => []
  | String a s' => Z.of_N (Ascii.N_of_ascii a) :: str s'
  end.

(** [len(x)] of a Python sequence. *)
Definition len {A} (l : list A) : Z := Z.of_nat (length l).

(** ** Exceptions *)

Inductive exn_kind : Set :=
| ValueError | PathNormalizationError | ArchiveManifestError
| AgeFormatError | AgeDecryptError
| UnicodeEncodeError | UnicodeDecodeError | JSONDecodeError
| RuntimeError | LookupError | KeyError | IndexError | TypeError | AttributeError | OverflowError.

#[export] Instance exn_kind_eq_dec : EqDecision exn_kind.
Proof. solve_decision. Defined.

Record exn := Exn { exn_class : exn_kind; exn_message : pystr }.

#[export] Instance exn_eq_dec : EqDecision exn.
Proof. solve_decision. Defined.

(** The subclasses of [ValueError] among the exceptions the code raises. *)
Definition is_value_error (k : exn_kind) : bool :=
  match k with
  | ValueError | PathNormalizationError | ArchiveManifestError | AgeFormatError
  | AgeDecryptError | UnicodeEncodeError | UnicodeDecodeError | JSONDecodeError => true
  | _ => false
  end.

(** ** The error monad *)

Inductive result (A : Type) :=
| Ok (a : A)
| Err (e : exn).
Arguments Ok {A} a.
Arguments Err {A} e.

#[export] Instance result_ret : MRet result := @Ok.
#[export] Instance result_bind : MBind result := λ A B f m,
  match m with Ok a => f a | Err e => Err e end.
#[export] Instance result_fmap : FMap result := λ A B f m,
  match m with Ok a => Ok (f a) | Err e => Err e end.

#[export] Instance result_eq_dec `{EqDecision A} : EqDecision (result A).
Proof. solve_decision. Defined.

Definition is_ok {A} (m : result A) : bool :=
  match m with Ok _ => true | Err _ => false end.

(** The class of the exception a computation raises, if it raises one. *)
Definition raised {A} (m : result A) : option exn_kind :=
  match m with Ok _ => None | Err e => Some (exn_class e) end.

Declare Scope riverhog_scope.
Delimit Scope riverhog_scope with rh.
Open Scope riverhog_scope.

(** [if b: raise k(msg)], followed by the rest of the body. *)
Notation "'when' b 'raise' k msg ; rest" :=
  (if b then Err (Exn k (str msg)) else rest)
  (at level 100, b at level 99, k at level 9, msg at level 9, rest at level 200,
   right associativity) : riverhog_scope.

(** The same with a message built at run time. *)
Notation "'when' b 'raises' e ; rest" :=
  (if b then Err e else rest)
  (at level 100, b at level 99, e at level 99, rest at level 200,
   right associativity) : riverhog_scope.

(** [try: m except E (in P) as exc: h] *)
Definition try_except {A} (m : result A) (P : exn_kind → bool) (h : exn → result A) : result A :=
  match m with
  | Ok a => Ok a
  | Err e => if P (exn_class e) then h e else Err e
  end.

(** A [for] loop that threads a state and may raise. *)
Fixpoint foldM {A S} (f : S → A → result S) (s : S) (l : list A) : result S :=
  match l with
  | [] => Ok s
  | x :: l' => s' ← f s x; foldM f s' l'
  end.

(** A list comprehension whose element expression may raise. *)
Fixpoint mapM_result {A B} (f : A → result B) (l : list A) : result (list B) :=
  match l with
  | [] => Ok []
  | x :: l' => y ← f x; ys ← mapM_result f l'; Ok (y :: ys)
  end.

(** ** Sequences *)

(** [sum(f(x) for x in l)] *)
Definition sumZ {A} (f : A → Z) (l : list A) : Z := foldr (λ x acc, f x + acc) 0 l.

(** [l[a:b]] for non-negative bounds; like Python it clamps at the end. *)
Definition slice {A} (a b : Z) (l : list A) : list A :=
  take (Z.to_nat b - Z.to_nat a) (drop (Z.to_nat a) l).

(** [b"\0" * n] and the like; a negative count gives the empty sequence. *)
Definition repeatZ {A} (n : Z) (x : A) : list A := replicate (Z.to_nat n) x.

(** [range(a, b)] *)
Definition rangeZ (a b : Z) : list Z := seqZ a (b - a).

(** Code-point order of Python strings. *)
Fixpoint str_leb (a b : pystr) : bool :=
  match a, b with
  | [], _ => true
  | _ :: _, [] => false
  | x :: a', y :: b' => if x <? y then true else if y <? x then false else str_leb a' b'
  end.

(** [sorted(l, key=key)]: a stable insertion sort on string keys. *)
Fixpoint insert_by {A} (key : A → pystr) (x : A) (l : list A) : list A :=
  match l with
  | [] => [x]
  | y :: l' => if str_leb (key x) (key y) then x :: y :: l' else y :: insert_by key x l'
  end.

Fixpoint sorted_by {A} (key : A → pystr) (l : list A) : list A :=
  match l with
  | [] => []
  | x :: l' => insert_by key x (sorted_by key l')
  end.

(** [sorted(l, key=key)] on integer keys, stable as well. *)
Fixpoint insert_byZ {A} (key : A → Z) (x : A) (l : list A) : list A :=
  match l with
  | [] => [x]
  | y :: l' => if key x <=? key y then x :: y :: l' else y :: insert_byZ key x l'
  end.

Definition sorted_byZ {A} (key : A → Z) (l : list A) : list A := foldr (insert_byZ key) [] l.

(** Order of keys: the relation [sorted] establishes. *)
Definition key_le {A} (key : A → pystr) : relation A := λ x y, str_leb (key x) (key y) = true.

#[global] Arguments str : simpl never.
#[global] Arguments slice : simpl never.
#[global] Arguments repeatZ : simpl never.
#[global] Arguments rangeZ : simpl never.

(** ** Automation *)

(** [lia] decides goals with constant division and remainder. *)
Ltac Zify.zify_post_hook ::= Z.to_euclidean_division_equations.

Create HintDb rh.
Create Rewrite HintDb rhlen.

Lemma try_except_Ok {A} (m : result A) P e a :
  try_except m P (λ _, Err e) = Ok a → m = Ok a.
Proof. destruct m as [x|e']; simpl; [done|]. by destruct (P _). Qed.

(** Split a successful computation into its successful steps. *)
Ltac inv_step H :=
  lazymatch type of H with
  | (if ?b then Err _ else _) = Ok _ =>
      let E := fresh "E" in destruct b eqn:E; [discriminate H|]
  | (if ?b then _ else Err _) = Ok _ =>
      let E := fresh "E" in destruct b eqn:E; [|discriminate H]
  | mbind _ ?m = Ok _ =>
      let E := fresh "E" in destruct m eqn:E; simpl in H; [repeat inv_step E|discriminate H]
  | fmap _ ?m = Ok _ =>
      let E := fresh "E" in destruct m eqn:E; simpl in H; [repeat inv_step E|discriminate H]
  | (match ?m with Ok _ => _ | Err _ => Err _ end) = Ok _ =>
      let E := fresh "E" in destruct m eqn:E; [|discriminate H]
  | try_except _ _ (λ _, Err _) = Ok _ => apply try_except_Ok in H
  | Ok _ = Ok _ => injection H as H
  | Err _ = Ok _ => discriminate H
  end.
Ltac inv_ok H := repeat inv_step H.

(** Turn boolean tests of the code into the propositions they decide. *)
Ltac bool_prop :=
  repeat match goal with
  | H : _ || _ = false |- _ => apply orb_false_iff in H; destruct H
  | H : _ && _ = true |- _ => apply andb_true_iff in H; destruct H
  | H : negb _ = true |- _ => apply negb_true_iff in H
  | H : negb _ = false |- _ => apply negb_false_iff in H
  | H : bool_decide _ = true |- _ => apply bool_decide_eq_true in H
  | H : bool_decide _ = false |- _ => apply bool_decide_eq_false in H
  end.

(** ** Lemmas on the error monad *)

Lemma ok_bind {A B} (x : A) (f : A → result B) : Ok x ≫= f = f x.
Proof. done. Qed.

Lemma bind_Ok {A B} (m : result A) (f : A → result B) y :
  m ≫= f = Ok y ↔ ∃ x, m = Ok x ∧ f x = Ok y.
Proof. destruct m; naive_solver. Qed.

Lemma is_ok_true {A} (m : result A) : is_ok m = true ↔ ∃ a, m = Ok a.
Proof. destruct m; naive_solver. Qed.

Lemma foldM_app {A S} (f : S → A → result S) s l1 l2 :
  foldM f s (l1 ++ l2) = (s' ← foldM f s l1; foldM f s' l2).
Proof.
  revert s. induction l1 as [|x l1 IH]; intros s; simpl; [done|].
  destruct (f s x); simpl; [apply IH|done].
Qed.

(** A loop invariant holds after the loop. *)
Lemma foldM_fmap {A B S} (f : S → B → result S) (g : A → B) s l :
  foldM f s (g <$> l) = foldM (λ s x, f s (g x)) s l.
Proof. revert s. induction l as [|x l IH]; intros s; [done|]. cbn. destruct (f s (g x)); cbn; [apply IH|done]. Qed.

Lemma foldM_inv {A S} (f : S → A → result S) (P : S → Prop) l s s' :
  foldM f s l = Ok s' → P s →
  (∀ s x s', x ∈ l → P s → f s x = Ok s' → P s') → P s'.
Proof.
  revert s. induction l as [|x l IH]; intros s H HP Hstep; simpl in H.
  - by inv_ok H; subst.
  - inv_ok H. eapply IH; [done| |].
    + eapply Hstep; [|done|done]. set_solver.
    + intros. eapply Hstep; [|done|done]. set_solver.
Qed.

Lemma mapM_result_length {A B} (f : A → result B) l l' :
  mapM_result f l = Ok l' → length l' = length l.
Proof.
  revert l'. induction l as [|x l IH]; intros l' H; simpl in H; inv_ok H; subst; [done|].
  simpl. by rewrite (IH _ eq_refl).
Qed.

Lemma mapM_result_Forall2 {A B} (f : A → result B) l l' :
  mapM_result f l = Ok l' ↔ Forall2 (λ x y, f x = Ok y) l l'.
Proof.
  revert l'. induction l as [|x l IH]; intros l'; simpl.
  - split; [intros H; inv_ok H; subst; constructor | by inversion 1].
  - split.
    + intros H. inv_ok H. subst. constructor; [done|by apply IH].
    + inversion 1 as [|?? ?? Hx Hl]; subst. rewrite Hx. simpl.
      apply IH in Hl. by rewrite Hl.
Qed.

Lemma mapM_result_Ok {A B} (f : A → result B) (g : A → B) l :
  (∀ x, x ∈ l → f x = Ok (g x)) → mapM_result f l = Ok (g <$> l).
Proof.
  intros Hf. apply mapM_result_Forall2.
  induction l as [|x l IH]; simpl; constructor; [apply Hf; set_solver|].
  apply IH. intros y Hy. apply Hf. set_solver.
Qed.

(** *** Which exceptions a computation may raise *)

Definition raises_only {A} (P : exn_kind → bool) (m : result A) : Prop :=
  match m with Ok _ => True | Err e => P (exn_class e) = true end.

Lemma raises_only_bind {A B} P (m : result A) (f : A → result B) :
  raises_only P m → (∀ a, m = Ok a → raises_only P (f a)) → raises_only P (m ≫= f).
Proof. destruct m; simpl; auto. Qed.

Lemma raises_only_when {A} P (b : bool) e (m : result A) :
  P (exn_class e) = true → (b = false → raises_only P m) → raises_only P (if b then Err e else m).
Proof. destruct b; simpl; auto. Qed.

Lemma raises_only_foldM {A S} P (f : S → A → result S) s l :
  (∀ s x, x ∈ l → raises_only P (f s x)) → raises_only P (foldM f s l).
Proof.
  revert s. induction l as [|x l IH]; intros s Hf; simpl; [done|].
  apply raises_only_bind; [apply Hf; set_solver|]. intros s' _. apply IH. set_solver.
Qed.

Lemma raises_only_mapM {A B} P (f : A → result B) l :
  (∀ x, x ∈ l → raises_only P (f x)) → raises_only P (mapM_result f l).
Proof.
  induction l as [|x l IH]; intros Hf; simpl; [done|].
  apply raises_only_bind; [apply Hf; set_solver|]. intros y _.
  apply raises_only_bind; [apply IH; set_solver|done].
Qed.

(** The handler raises only what [P] allows, whatever the body raises in [Q]. *)
Lemma raises_only_try {A} P Q (m : result A) h :
  raises_only Q m → (∀ e, raises_only P (h e)) → raises_only P (try_except m Q h).
Proof. destruct m as [a|e]; simpl; [done|]. intros ->. auto. Qed.

Create HintDb exceptions.
#[export] Hint Resolve raises_only_mapM raises_only_foldM : exceptions.

(** Walk through a computation; what remains are its calls. *)
Ltac walk_exceptions :=
  repeat (cbv zeta; lazymatch goal with
    | |- raises_only _ (Ok _) => exact I
    | |- raises_only _ (Err _) => reflexivity
    | |- raises_only _ (mbind _ _) => apply raises_only_bind; [|intros ? ?]
    | |- raises_only _ (if _ then Err _ else _) => apply raises_only_when; [reflexivity|intros ?]
    | |- raises_only _ (match ?x with _ => _ end) => destruct x eqn:?
    | |- raises_only _ _ => solve [eauto with exceptions]
    end).

(** ** Lemmas on sequences *)

Lemma len_nil {A} : len (@nil A) = 0.
Proof. done. Qed.
Lemma len_cons {A} (x : A) l : len (x :: l) = 1 + len l.
Proof. unfold len. simpl. lia. Qed.
Lemma len_app {A} (l k : list A) : len (l ++ k) = len l + len k.
Proof. unfold len. rewrite length_app. lia. Qed.
Lemma len_nonneg {A} (l : list A) : 0 ≤ len l.
Proof. unfold len. lia. Qed.
Lemma len_fmap {A B} (f : A → B) l : len (f <$> l) = len l.
Proof. unfold len. by rewrite length_fmap. Qed.
Lemma len_repeatZ {A} n (x : A) : 0 ≤ n → len (repeatZ n x) = n.
Proof. unfold len, repeatZ. rewrite length_replicate. lia. Qed.
Lemma len_0_nil {A} (l : list A) : len l = 0 → l = [].
Proof. destruct l; [done|]. rewrite len_cons. pose proof (len_nonneg l). lia. Qed.
Lemma len_slice {A} a b (l : list A) :
  0 ≤ a → a ≤ b → b ≤ len l → len (slice a b l) = b - a.
Proof. unfold len, slice. rewrite length_take, length_drop. lia. Qed.
Lemma len_take {A} n (l : list A) : len (take n l) = Z.min (Z.of_nat n) (len l).
Proof. unfold len. rewrite length_take. lia. Qed.
Lemma len_drop {A} n (l : list A) : len (drop n l) = Z.max 0 (len l - Z.of_nat n).
Proof. unfold len. rewrite length_drop. lia. Qed.

#[export] Hint Rewrite @len_nil @len_cons @len_app @len_fmap @len_take @len_drop : rhlen.
#[export] Hint Resolve len_nonneg : rh.

(** Normalise lengths, then linear arithmetic. *)
Ltac len_lia :=
  autorewrite with rhlen in *; cbn beta in *;
  repeat match goal with
  | |- context [len ?l] => lazymatch goal with
      | _ : 0 ≤ len l |- _ => fail | _ => pose proof (len_nonneg l) end
  | _ : context [len ?l] |- _ => lazymatch goal with
      | _ : 0 ≤ len l |- _ => fail | _ => pose proof (len_nonneg l) end
  end; lia.

Lemma sumZ_app {A} (f : A → Z) l k : sumZ f (l ++ k) = sumZ f l + sumZ f k.
Proof. induction l; simpl; lia. Qed.
Lemma sumZ_cons {A} (f : A → Z) x l : sumZ f (x :: l) = f x + sumZ f l.
Proof. done. Qed.
Lemma sumZ_nonneg {A} (f : A → Z) l : Forall (λ x, 0 ≤ f x) l → 0 ≤ sumZ f l.
Proof. induction 1; simpl; lia. Qed.
Lemma sumZ_Permutation {A} (f : A → Z) l k : Permutation l k → sumZ f l = sumZ f k.
Proof. induction 1; simpl; lia. Qed.
Lemma sumZ_fmap {A B} (f : B → Z) (g : A → B) l : sumZ f (g <$> l) = sumZ (λ x, f (g x)) l.
Proof. induction l as [|x l IH]; [done|]. by rewrite fmap_cons, !sumZ_cons, IH. Qed.
Lemma sumZ_ext {A} (f g : A → Z) l : Forall (λ x, f x = g x) l → sumZ f l = sumZ g l.
Proof. induction 1; simpl; lia. Qed.
Lemma sumZ_upper {A} (f : A → Z) c l : Forall (λ x, f x ≤ c) l → sumZ f l ≤ c * len l.
Proof. unfold len. induction 1; simpl length; [simpl; lia|]. rewrite sumZ_cons. lia. Qed.
Lemma sumZ_lower {A} (f : A → Z) c l : Forall (λ x, c ≤ f x) l → c * len l ≤ sumZ f l.
Proof. unfold len. induction 1; simpl length; [simpl; lia|]. rewrite sumZ_cons. lia. Qed.
Lemma len_concat {A} (l : list (list A)) : len (concat l) = sumZ len l.
Proof. induction l; simpl; [done|]. rewrite len_app. lia. Qed.

#[export] Hint Rewrite @sumZ_app @sumZ_cons @len_concat : rhlen.

Lemma slice_full {A} (l : list A) : slice 0 (len l) l = l.
Proof. unfold slice, len. rewrite drop_0. apply take_ge. lia. Qed.
Lemma slice_nil {A} a b : slice a b (@nil A) = [].
Proof. unfold slice. by rewrite drop_nil, take_nil. Qed.
Lemma slice_empty {A} a (l : list A) : slice a a l = [].
Proof. unfold slice. by rewrite Nat.sub_diag. Qed.

Lemma slice_none {A} a b (l : list A) : b ≤ a → slice a b l = [].
Proof. intros. unfold slice. by replace (Z.to_nat b - Z.to_nat a)%nat with 0%nat by lia. Qed.

(** Adjacent slices concatenate. *)
Lemma slice_app {A} a b c (l : list A) :
  0 ≤ a → a ≤ b → b ≤ c → slice a b l ++ slice b c l = slice a c l.
Proof.
  intros. unfold slice.
  replace (Z.to_nat b) with (Z.to_nat a + (Z.to_nat b - Z.to_nat a))%nat at 3 by lia.
  rewrite <- drop_drop, take_take_drop. f_equal. lia.
Qed.
Lemma slice_app_l {A} a b (l k : list A) : b ≤ len l → slice a b (l ++ k) = slice a b l.
Proof.
  unfold slice, len. intros.
  destruct (decide (Z.to_nat a ≤ length l)%nat).
  - rewrite drop_app_le by lia. apply take_app_le. rewrite length_drop. lia.
  - replace (Z.to_nat b - Z.to_nat a)%nat with 0%nat by lia. done.
Qed.
Lemma slice_app_r {A} a b (l k : list A) :
  len l ≤ a → slice a b (l ++ k) = slice (a - len l) (b - len l) k.
Proof.
  unfold slice, len. intros. rewrite drop_app_ge by lia. f_equal; [lia|]. f_equal. lia.
Qed.
Lemma slice_slice {A} a b c d (l : list A) :
  0 ≤ a → 0 ≤ c → 0 ≤ d → a + d ≤ b →
  slice c d (slice a b l) = slice (a + c) (a + d) l.
Proof.
  intros. unfold slice. rewrite skipn_firstn_comm, take_take, drop_drop.
  f_equal; [lia|]. f_equal. lia.
Qed.

(** The division that rounds up. *)
Lemma ceil_div_bounds n d : 0 < d → n ≤ (n + d - 1) / d * d < n + d.
Proof.
  intros Hd. pose proof (Z.div_mod (n + d - 1) d ltac:(lia)) as Hdm.
  pose proof (Z.mod_pos_bound (n + d - 1) d Hd) as Hm.
  set (q := (n + d - 1) / d) in *. set (r := (n + d - 1) mod d) in *. clearbody q r. lia.
Qed.

Lemma seqZ_app a n m : 0 ≤ n → 0 ≤ m → seqZ a (n + m) = seqZ a n ++ seqZ (a + n) m.
Proof. intros. by rewrite seqZ_app. Qed.

Lemma rangeZ_app a b c : a ≤ b → b ≤ c → rangeZ a c = rangeZ a b ++ rangeZ b c.
Proof.
  intros. unfold rangeZ. replace (c - a) with ((b - a) + (c - b)) by lia.
  rewrite seqZ_app by lia. f_equal. f_equal. lia.
Qed.

Lemma rangeZ_cons a b : a < b → rangeZ a b = a :: rangeZ (a + 1) b.
Proof. intros Hab. unfold rangeZ. rewrite seqZ_cons by lia. do 2 f_equal; lia. Qed.

Lemma rangeZ_empty a : rangeZ a a = [].
Proof. unfold rangeZ. by rewrite Z.sub_diag. Qed.

Lemma rangeZ_sorted a b : StronglySorted Z.le (rangeZ a b).
Proof.
  unfold rangeZ. generalize (b - a). intros n. destruct (Z.le_gt_cases n 0) as [Hn|Hn].
  - rewrite seqZ_nil by lia. constructor.
  - assert (∃ k, n = Z.of_nat k) as [k ->] by (exists (Z.to_nat n); lia). clear Hn. revert a.
    induction k as [|k IH]; intros a; [constructor|]. rewrite seqZ_cons by lia.
    replace (Z.pred (Z.of_nat (S k))) with (Z.of_nat k) by lia. constructor; [apply IH|].
    apply Forall_forall. intros x Hx%elem_of_seqZ. lia.
Qed.

Lemma filter_all {A} (P : A → Prop) `{!∀ x, Decision (P x)} l : Forall P l → filter P l = l.
Proof. induction 1 as [|x l Hx Hl IH]; [done|]. by rewrite filter_cons, decide_True, IH. Qed.

Lemma filter_none {A} (P : A → Prop) `{!∀ x, Decision (P x)} l : Forall (λ x, ¬ P x) l → filter P l = [].
Proof. induction 1 as [|x l Hx Hl IH]; [done|]. by rewrite filter_cons, decide_False. Qed.

Lemma cons_eq {A} (x y : A) l k : x :: l = y :: k → x = y ∧ l = k.
Proof. by intros [= -> ->]. Qed.

(** ** String order and sorting *)

Lemma str_leb_refl a : str_leb a a = true.
Proof. induction a; simpl; [done|]. by rewrite Z.ltb_irrefl. Qed.

Lemma str_leb_total a b : str_leb a b = true ∨ str_leb b a = true.
Proof.
  revert b. induction a as [|x a IH]; intros [|y b]; simpl; try auto.
  destruct (Z.ltb_spec x y), (Z.ltb_spec y x); auto.
Qed.

Lemma str_leb_trans a b c : str_leb a b = true → str_leb b c = true → str_leb a c = true.
Proof.
  revert b c. induction a as [|x a IH]; intros [|y b] [|z c]; simpl; try done.
  destruct (Z.ltb_spec x y), (Z.ltb_spec y x), (Z.ltb_spec y z), (Z.ltb_spec z y),
    (Z.ltb_spec x z), (Z.ltb_spec z x); try done; try lia. apply IH.
Qed.

Lemma str_leb_antisym a b : str_leb a b = true → str_leb b a = true → a = b.
Proof.
  revert b. induction a as [|x a IH]; intros [|y b]; simpl; try done.
  destruct (Z.ltb_spec x y), (Z.ltb_spec y x); try done; try lia.
  intros. f_equal; [lia|auto].
Qed.

Lemma insert_by_perm {A} (key : A → pystr) x l : insert_by key x l ≡ₚ x :: l.
Proof.
  induction l as [|y l IH]; simpl; [done|].
  destruct (str_leb _ _); [done|]. rewrite IH. apply Permutation_swap.
Qed.

Lemma sorted_by_perm {A} (key : A → pystr) l : sorted_by key l ≡ₚ l.
Proof. induction l as [|x l IH]; simpl; [done|]. by rewrite insert_by_perm, IH. Qed.

Lemma insert_by_sorted {A} (key : A → pystr) x l :
  StronglySorted (key_le key) l → StronglySorted (key_le key) (insert_by key x l).
Proof.
  induction 1 as [|y l Hs IH Hy]; simpl; [repeat constructor|].
  destruct (str_leb (key x) (key y)) eqn:E.
  - repeat constructor; try done. eapply Forall_impl; [exact Hy|].
    intros z Hz. eapply str_leb_trans; [exact E|exact Hz].
  - constructor; [done|]. rewrite insert_by_perm. constructor; [|done].
    destruct (str_leb_total (key x) (key y)); [congruence|done].
Qed.

Lemma sorted_by_sorted {A} (key : A → pystr) l : StronglySorted (key_le key) (sorted_by key l).
Proof. induction l; simpl; [constructor|]. by apply insert_by_sorted. Qed.

(** Sorting a sorted list changes nothing. *)
Lemma sorted_by_id {A} (key : A → pystr) l :
  StronglySorted (key_le key) l → sorted_by key l = l.
Proof.
  induction 1 as [|x l Hs IH Hx]; simpl; [done|]. rewrite IH.
  destruct Hx as [|y l' Hxy Hl']; simpl; [done|]. by rewrite Hxy.
Qed.

Lemma sorted_by_idemp {A} (key : A → pystr) l :
  sorted_by key (sorted_by key l) = sorted_by key l.
Proof. apply sorted_by_id, sorted_by_sorted. Qed.

#[export] Hint Resolve sorted_by_sorted sorted_by_perm : rh.

(** *** Integer keys *)

Lemma insert_byZ_perm {A} (key : A → Z) x l : insert_byZ key x l ≡ₚ x :: l.
Proof.
  induction l as [|y l IH]; simpl; [done|]. destruct (key x <=? key y); [done|]. rewrite IH. apply Permutation_swap.
Qed.

Lemma sorted_byZ_perm {A} (key : A → Z) l : sorted_byZ key l ≡ₚ l.
Proof. induction l as [|x l IH]; simpl; [done|]. by rewrite insert_byZ_perm, IH. Qed.

(** Strictly increasing keys. *)
Definition increasing {A} (key : A → Z) (l : list A) : Prop := StronglySorted Z.lt (key <$> l).

Lemma increasing_cons {A} (key : A → Z) x l :
  increasing key (x :: l) ↔ Forall (λ y, key x < key y) l ∧ increasing key l.
Proof.
  unfold increasing. rewrite fmap_cons. split.
  - intros Hs. apply StronglySorted_inv in Hs as [Hs Hx]. split; [by apply (proj1 (Forall_fmap _ _ _)) in Hx|done].
  - intros [Hx Hs]. constructor; [done|]. by apply Forall_fmap.
Qed.

Lemma increasing_nodup {A} (key : A → Z) l : increasing key l → NoDup (key <$> l).
Proof.
  unfold increasing. generalize (key <$> l). induction 1 as [|k ks _ IH Hk]; constructor; [|done].
  intros Hin. rewrite Forall_forall in Hk. specialize (Hk k Hin). lia.
Qed.

Lemma sorted_byZ_id {A} (key : A → Z) l : increasing key l → sorted_byZ key l = l.
Proof.
  induction l as [|x l IH]; intros Hl; [done|]. apply increasing_cons in Hl as [Hx Hl]. cbn. fold (sorted_byZ key l).
  rewrite (IH Hl). destruct l as [|y l]; [done|]. cbn. apply Forall_cons in Hx as [Hxy _].
  by rewrite (proj2 (Z.leb_le _ _)) by lia.
Qed.

Lemma sorted_byZ_increasing {A} (key : A → Z) l : NoDup (key <$> l) → increasing key (sorted_byZ key l).
Proof.
  induction l as [|x l IH]; intros Hnd; [constructor|]. rewrite fmap_cons in Hnd. apply NoDup_cons in Hnd as [Hx Hnd].
  cbn. fold (sorted_byZ key l). specialize (IH Hnd). rewrite <- (sorted_byZ_perm key l) in Hx. revert IH Hx.
  generalize (sorted_byZ key l). clear. intros l. induction l as [|y l IH]; intros Hs Hx; cbn [insert_byZ].
  - apply increasing_cons. split; [constructor|constructor].
  - rewrite fmap_cons, not_elem_of_cons in Hx. destruct Hx as [Hxy Hx]. pose proof Hs as Hs'.
    apply increasing_cons in Hs as [Hy Hs]. destruct (Z.leb_spec (key x) (key y)) as [Hle|Hlt].
    + apply increasing_cons. split; [|done]. constructor; [lia|]. eapply Forall_impl; [exact Hy|]. cbn. lia.
    + apply increasing_cons. split; [|by apply IH]. rewrite insert_byZ_perm. by constructor.
Qed.

(** Lists with increasing keys and the same elements are equal. *)
Lemma increasing_unique {A} (key : A → Z) l k : increasing key l → increasing key k → l ≡ₚ k → l = k.
Proof.
  revert k. induction l as [|x l IH]; intros k Hl Hk Hp.
  - symmetry in Hp. by apply Permutation_nil_r in Hp.
  - destruct k as [|y k]; [by apply Permutation_nil_r in Hp|].
    apply increasing_cons in Hl as [Hx Hl], Hk as [Hy Hk].
    assert (x = y) as ->.
    { assert (x ∈ y :: k) as Hin by (rewrite <- Hp; by left). assert (y ∈ x :: l) as Hin' by (rewrite Hp; by left).
      apply elem_of_cons in Hin as [|Hin]; [done|]. apply elem_of_cons in Hin' as [|Hin']; [done|].
      rewrite Forall_forall in Hx, Hy. specialize (Hx _ Hin'). specialize (Hy _ Hin). lia. }
    f_equal. apply IH; [done|done|]. by eapply Permutation_cons_inv.
Qed.
