(* ===== verification/Text.v ===== *)
(** * Python text, bytes and integers

    The parts of the language and its standard library that the archive code
    uses: UTF-8, decimal, hexadecimal and octal formatting, [int()], big-endian
    integers, [bytes.hex]/[bytes.fromhex], [strip], [split], [join] and the
    SHA-256 digest pattern.  Python integers are unbounded, so they are [Z];
    the interpreter's limit on the length of decimal conversions is not
    modelled. *)

From S2P Require Import Prelude.

(** ** The Unicode database

    Canonical composition and the decimal value of non-ASCII digits come from
    the interpreter's Unicode tables; everything that depends on them takes
    them as a parameter. *)
Class UnicodeData := {
  nfc : pystr → pystr;
  unicode_digit : Z → option Z;
}.

(** Text without characters outside ASCII needs no table. *)
Definition ascii_data : UnicodeData := {| nfc := λ s, s; unicode_digit := λ _, None |}.

(** ** Characters *)

Definition chr (s : string) : Z := match str s with c :: _ => c | [] => 0 end.

Definition is_byte (b : Z) : Prop := 0 ≤ b < 256.
Definition bytes_ok (bs : pybytes) : Prop := Forall is_byte bs.
Definition is_code_point (c : Z) : Prop := 0 ≤ c < 0x110000.
Definition is_surrogate (c : Z) : bool := (0xD800 <=? c) && (c <=? 0xDFFF).
(** Unicode scalar values: the code points UTF-8 can encode. *)
Definition is_scalar (c : Z) : Prop := is_code_point c ∧ is_surrogate c = false.
Definition text_ok (s : pystr) : Prop := Forall is_scalar s.

(** [str.isspace] on one character. *)
Definition is_space (c : Z) : bool :=
  ((0x9 <=? c) && (c <=? 0xD)) || ((0x1C <=? c) && (c <=? 0x20)) || (c =? 0x85) || (c =? 0xA0)
  || (c =? 0x1680) || ((0x2000 <=? c) && (c <=? 0x200A)) || (c =? 0x2028) || (c =? 0x2029)
  || (c =? 0x202F) || (c =? 0x205F) || (c =? 0x3000).

Fixpoint lstrip (s : pystr) : pystr :=
  match s with
  | c :: s' => if is_space c then lstrip s' else s
  | [] => []
  end.
Definition strip (s : pystr) : pystr := reverse (lstrip (reverse (lstrip s))).

Fixpoint startswith (prefix s : pystr) : bool :=
  match prefix, s with
  | [], _ => true
  | p :: prefix', c :: s' => (p =? c) && startswith prefix' s'
  | _ :: _, [] => false
  end.

(** [s.split(sep)] and [sep.join(parts)] for a one-character separator. *)
Fixpoint split_on (sep : Z) (s : pystr) : list pystr :=
  match s with
  | [] => [[]]
  | c :: s' =>
      if c =? sep then [] :: split_on sep s'
      else match split_on sep s' with
           | [] => [[c]]
           | w :: ws => (c :: w) :: ws
           end
  end.

Fixpoint join_on (sep : Z) (parts : list pystr) : pystr :=
  match parts with
  | [] => []
  | [w] => w
  | w :: ws => w ++ sep :: join_on sep ws
  end.

(** [s.replace(a, b)] on single characters. *)
Definition replace_char (a b : Z) (s : pystr) : pystr :=
  (λ c, if c =? a then b else c) <$> s.

(** ** UTF-8 *)

Definition utf8_char (c : Z) : result pybytes :=
  if c <? 0x80 then Ok [c]
  else if c <? 0x800 then Ok [0xC0 + c / 64; 0x80 + c mod 64]
  else if is_surrogate c then Err (Exn UnicodeEncodeError (str "surrogates not allowed"))
  else if c <? 0x10000 then Ok [0xE0 + c / 4096; 0x80 + c / 64 mod 64; 0x80 + c mod 64]
  else Ok [0xF0 + c / 262144; 0x80 + c / 4096 mod 64; 0x80 + c / 64 mod 64; 0x80 + c mod 64].

(** [s.encode("utf-8")] *)
Definition utf8_encode (s : pystr) : result pybytes :=
  bs ← mapM_result utf8_char s; Ok (concat bs).

Definition is_cont (b : Z) : bool := (0x80 <=? b) && (b <=? 0xBF).

(** [b.decode("utf-8")], strict. *)
Fixpoint utf8_decode (bs : pybytes) : result pystr :=
  match bs with
  | [] => Ok []
  | b0 :: r0 =>
      if b0 <? 0x80 then s ← utf8_decode r0; Ok (b0 :: s)
      else if (0xC2 <=? b0) && (b0 <=? 0xDF) then
        match r0 with
        | b1 :: r1 =>
            if is_cont b1
            then s ← utf8_decode r1; Ok ((b0 - 0xC0) * 64 + (b1 - 0x80) :: s)
            else Err (Exn UnicodeDecodeError (str "invalid continuation byte"))
        | _ => Err (Exn UnicodeDecodeError (str "unexpected end of data"))
        end
      else if (0xE0 <=? b0) && (b0 <=? 0xEF) then
        match r0 with
        | b1 :: b2 :: r2 =>
            let c := (b0 - 0xE0) * 4096 + (b1 - 0x80) * 64 + (b2 - 0x80) in
            if is_cont b1 && is_cont b2 && (0x800 <=? c) && negb (is_surrogate c)
            then s ← utf8_decode r2; Ok (c :: s)
            else Err (Exn UnicodeDecodeError (str "invalid continuation byte"))
        | _ => Err (Exn UnicodeDecodeError (str "unexpected end of data"))
        end
      else if (0xF0 <=? b0) && (b0 <=? 0xF4) then
        match r0 with
        | b1 :: b2 :: b3 :: r3 =>
            let c := (b0 - 0xF0) * 262144 + (b1 - 0x80) * 4096 + (b2 - 0x80) * 64 + (b3 - 0x80) in
            if is_cont b1 && is_cont b2 && is_cont b3 && (0x10000 <=? c) && (c <? 0x110000)
            then s ← utf8_decode r3; Ok (c :: s)
            else Err (Exn UnicodeDecodeError (str "invalid continuation byte"))
        | _ => Err (Exn UnicodeDecodeError (str "unexpected end of data"))
        end
      else Err (Exn UnicodeDecodeError (str "invalid start byte"))
  end.

(** ** Positional notation *)

(** Digits of a non-negative integer, most significant first; the fuel is the
    number of bits, which bounds the number of digits in any base. *)
Fixpoint digits_aux (fuel : nat) (base n : Z) : list Z :=
  match fuel with
  | O => []
  | S fuel => if n =? 0 then [] else digits_aux fuel base (n / base) ++ [n mod base]
  end.
Definition digits (base n : Z) : list Z :=
  if n =? 0 then [0] else digits_aux (S (Z.to_nat (Z.log2 n))) base n.

Definition of_digits (base : Z) (ds : list Z) : Z := foldl (λ acc d, acc * base + d) 0 ds.

Definition digit_char (d : Z) : Z := if d <? 10 then 48 + d else 87 + d.

(** [str(z)] of an integer. *)
Definition str_of_Z (z : Z) : pystr :=
  if z <? 0 then chr "-" :: (digit_char <$> digits 10 (- z)) else digit_char <$> digits 10 z.

(** [f"{z:0{width}...}"] for a non-negative [z] in the given base. *)
Definition format_padded (base width z : Z) : pystr :=
  let s := digit_char <$> digits base z in repeatZ (width - len s) (chr "0") ++ s.

(** [z.to_bytes(n, "big")] and [int.from_bytes(bs, "big")] *)
Fixpoint be_bytes (n : nat) (z : Z) : pybytes :=
  match n with
  | O => []
  | S n => be_bytes n (z / 256) ++ [z mod 256]
  end.
Definition to_bytes_big (n : nat) (z : Z) : result pybytes :=
  when (z <? 0) || (256 ^ Z.of_nat n <=? z) raise OverflowError "int too big to convert";
  Ok (be_bytes n z).
Definition from_bytes_big (bs : pybytes) : Z := of_digits 256 bs.

(** ** [int(s)] *)

Section with_unicode.
Context `{UnicodeData}.

Definition decimal_digit (c : Z) : option Z :=
  if (48 <=? c) && (c <=? 57) then Some (c - 48)
  else if c <? 128 then None else unicode_digit c.

(** Digits with single underscores between them. *)
Fixpoint int_digits (acc : Z) (after_digit : bool) (s : pystr) : option Z :=
  match s with
  | [] => if after_digit then Some acc else None
  | c :: s' =>
      if c =? chr "_" then if after_digit then int_digits acc false s' else None
      else match decimal_digit c with
           | Some d => int_digits (acc * 10 + d) true s'
           | None => None
           end
  end.

Definition py_int (s : pystr) : result Z :=
  let v := match strip s with
           | c :: s' =>
               if c =? chr "-" then Z.opp <$> int_digits 0 false s'
               else if c =? chr "+" then int_digits 0 false s'
               else int_digits 0 false (c :: s')
           | [] => None
           end in
  match v with
  | Some z => Ok z
  | None => Err (Exn ValueError (str "invalid literal for int()"))
  end.

End with_unicode.

(** ** Hexadecimal *)

Definition hex_byte (b : Z) : pystr := [digit_char (b / 16); digit_char (b mod 16)].

(** [bs.hex()] *)
Definition bytes_hex (bs : pybytes) : pystr := concat (hex_byte <$> bs).

Definition hex_value (c : Z) : option Z :=
  if (48 <=? c) && (c <=? 57) then Some (c - 48)
  else if (97 <=? c) && (c <=? 102) then Some (c - 87)
  else if (65 <=? c) && (c <=? 70) then Some (c - 55)
  else None.

(** [bytes.fromhex(s)]: ASCII white space between byte pairs is skipped. *)
Fixpoint bytes_fromhex (s : pystr) : result pybytes :=
  match s with
  | [] => Ok []
  | c :: s' =>
      if ((9 <=? c) && (c <=? 13)) || (c =? 32) then bytes_fromhex s'
      else match s' with
           | d :: s'' =>
               match hex_value c, hex_value d with
               | Some hi, Some lo => bs ← bytes_fromhex s''; Ok (hi * 16 + lo :: bs)
               | _, _ => Err (Exn ValueError (str "non-hexadecimal number found in fromhex() arg"))
               end
           | [] => Err (Exn ValueError (str "non-hexadecimal number found in fromhex() arg"))
           end
  end.

Definition is_lower_hex (c : Z) : bool :=
  ((48 <=? c) && (c <=? 57)) || ((97 <=? c) && (c <=? 102)).

(** [re.compile(r"[0-9a-f]{64}").fullmatch(s) is not None] *)
Definition sha256_fullmatch (s : pystr) : bool := (len s =? 64) && forallb is_lower_hex s.

#[global] Arguments utf8_char : simpl never.
#[global] Arguments is_space : simpl never.
#[global] Arguments digit_char : simpl never.
#[global] Arguments digits : simpl never.
#[global] Arguments chr : simpl never.

(** Replace character literals by their code points. *)
Ltac norm_chr :=
  repeat match goal with
  | |- context [chr ?s] => let v := eval vm_compute in (chr s) in change (chr s) with v
  | H : context [chr ?s] |- _ => let v := eval vm_compute in (chr s) in change (chr s) with v in H
  end.

(** ** UTF-8 round trip *)

Lemma utf8_char_decode c bs rest :
  is_code_point c → utf8_char c = Ok bs →
  utf8_decode (bs ++ rest) = (s ← utf8_decode rest; Ok (c :: s)).
Proof.
  unfold is_code_point, utf8_char, is_surrogate. intros Hc H.
  destruct (Z.ltb_spec c 0x80).
  { inv_ok H. subst bs. simpl. rewrite (proj2 (Z.ltb_lt c 128)) by lia. done. }
  destruct (Z.ltb_spec c 0x800).
  { inv_ok H. subst bs. cbn [app utf8_decode].
    rewrite (proj2 (Z.ltb_ge _ _)) by lia.
    replace ((_ <=? _) && (_ <=? _)) with true by lia.
    replace (is_cont _) with true by (unfold is_cont; lia).
    replace ((192 + c / 64 - 192) * 64 + (128 + c mod 64 - 128)) with c by lia. done. }
  destruct ((0xD800 <=? c) && (c <=? 0xDFFF)) eqn:Hs; [done|].
  destruct (Z.ltb_spec c 0x10000).
  { inv_ok H. subst bs. cbn [app utf8_decode].
    rewrite (proj2 (Z.ltb_ge _ _)) by lia.
    replace ((194 <=? _) && (_ <=? _)) with false by lia.
    replace ((224 <=? _) && (_ <=? _)) with true by lia. cbv zeta.
    replace ((224 + c / 4096 - 224) * 4096 + (128 + c / 64 mod 64 - 128) * 64
      + (128 + c mod 64 - 128)) with c by lia.
    replace (is_cont (128 + c / 64 mod 64)) with true by (unfold is_cont; lia).
    replace (is_cont (128 + c mod 64)) with true by (unfold is_cont; lia).
    unfold is_surrogate. rewrite Hs. replace (2048 <=? c) with true by lia. done. }
  inv_ok H. subst bs. cbn [app utf8_decode].
  rewrite (proj2 (Z.ltb_ge _ _)) by lia.
  replace ((194 <=? _) && (_ <=? _)) with false by lia.
  replace ((224 <=? _) && (_ <=? _)) with false by lia.
  replace ((240 <=? _) && (_ <=? _)) with true by lia. cbv zeta.
  replace ((240 + c / 262144 - 240) * 262144 + (128 + c / 4096 mod 64 - 128) * 4096
    + (128 + c / 64 mod 64 - 128) * 64 + (128 + c mod 64 - 128)) with c by lia.
  replace (is_cont (128 + c / 4096 mod 64)) with true by (unfold is_cont; lia).
  replace (is_cont (128 + c / 64 mod 64)) with true by (unfold is_cont; lia).
  replace (is_cont (128 + c mod 64)) with true by (unfold is_cont; lia).
  replace (65536 <=? c) with true by lia. replace (c <? 1114112) with true by lia. done.
Qed.

Lemma utf8_roundtrip s bs : Forall is_code_point s → utf8_encode s = Ok bs → utf8_decode bs = Ok s.
Proof.
  unfold utf8_encode. intros Hs. revert bs.
  induction Hs as [|c s Hc Hs IH]; intros bs H; simpl in H; [by inv_ok H; subst|].
  inv_ok H. subst. cbn [concat]. rewrite (utf8_char_decode c) by done.
  simpl in IH. by rewrite (IH _ eq_refl).
Qed.

Lemma utf8_char_ok c : is_scalar c → ∃ bs, utf8_char c = Ok bs.
Proof.
  intros [Hc Hs]. unfold utf8_char. rewrite Hs. repeat case_match; eauto.
Qed.

Lemma utf8_encode_ok s : text_ok s → ∃ bs, utf8_encode s = Ok bs.
Proof.
  unfold utf8_encode. induction 1 as [|c s Hc Hs [bs IH]]; simpl; [eauto|].
  destruct (utf8_char_ok c Hc) as [b ->]. simpl. simpl in IH.
  destruct (mapM_result utf8_char s); simpl in *; [eauto|done].
Qed.

Lemma utf8_char_bytes c bs : 0 ≤ c → utf8_char c = Ok bs → c < 0x110000 → bytes_ok bs.
Proof.
  unfold utf8_char, bytes_ok, is_byte. intros H0 H Hc.
  repeat case_match; simplify_eq; repeat constructor; lia.
Qed.

Lemma utf8_encode_bytes s bs : Forall is_code_point s → utf8_encode s = Ok bs → bytes_ok bs.
Proof.
  unfold utf8_encode. intros Hs. revert bs. induction Hs as [|c s Hc Hs IH]; intros bs H; simpl in H.
  - inv_ok H. subst. constructor.
  - inv_ok H. subst. simpl. apply Forall_app. split; [|by apply IH].
    destruct Hc. by eapply utf8_char_bytes.
Qed.

(** ASCII text encodes to itself. *)
Lemma utf8_encode_ascii s : Forall (λ c, 0 ≤ c < 128) s → utf8_encode s = Ok s.
Proof.
  unfold utf8_encode. induction 1 as [|c s Hc Hs IH]; simpl; [done|].
  assert (utf8_char c = Ok [c]) as ->.
  { unfold utf8_char. by rewrite (proj2 (Z.ltb_lt c 128)) by lia. }
  simpl. simpl in IH.
  destruct (mapM_result utf8_char s) as [l|]; simpl in *; [|done]. injection IH as IH.
  by rewrite <- IH.
Qed.

Lemma mapM_result_app {A B} (f : A → result B) l k :
  mapM_result f (l ++ k) = (xs ← mapM_result f l; ys ← mapM_result f k; Ok (xs ++ ys)).
Proof.
  induction l as [|x l IH]; simpl; [by destruct (mapM_result f k)|].
  destruct (f x); simpl; [|done]. rewrite IH.
  destruct (mapM_result f l); simpl; [|done]. by destruct (mapM_result f k).
Qed.

Lemma utf8_encode_app s t :
  utf8_encode (s ++ t) = (bs ← utf8_encode s; cs ← utf8_encode t; Ok (bs ++ cs)).
Proof.
  unfold utf8_encode. rewrite mapM_result_app.
  destruct (mapM_result utf8_char s); simpl; [|done].
  destruct (mapM_result utf8_char t); simpl; [|done]. by rewrite concat_app.
Qed.

Lemma utf8_char_nonempty c : utf8_char c ≠ Ok [].
Proof. unfold utf8_char. by repeat case_match. Qed.

(** Decoding is strict: what it accepts is the encoding of what it returns. *)

Lemma utf8_char_of_decoded c bs : utf8_char c = Ok bs → ∀ s rest,
  utf8_encode s = Ok rest → utf8_encode (c :: s) = Ok (bs ++ rest).
Proof.
  intros Hc s rest Hs. unfold utf8_encode in *. cbn [mapM_result]. rewrite Hc, ok_bind.
  destruct (mapM_result utf8_char s) as [bss|]; [|done]. cbn in *. by injection Hs as <-.
Qed.

Lemma utf8_decode_encode bs s : bytes_ok bs → utf8_decode bs = Ok s → utf8_encode s = Ok bs.
Proof.
  remember (length bs) as n eqn:Hn. revert bs s Hn. induction n as [n IH] using lt_wf_ind.
  intros bs s -> Hb Hd. destruct bs as [|b0 r0]; [by injection Hd as <-|].
  unfold bytes_ok in Hb. apply Forall_cons in Hb as [Hb0 Hr]. unfold is_byte in Hb0. cbn [utf8_decode] in Hd.
  assert (∀ c s rest, utf8_decode rest = Ok s → (length rest < length (b0 :: r0))%nat → bytes_ok rest →
    ∀ pre, utf8_char c = Ok pre → utf8_encode (c :: s) = Ok (pre ++ rest)) as Hstep.
  { intros c s' rest Hdec Hlen Hrest pre Hpre. eapply utf8_char_of_decoded; [done|].
    by eapply (IH (length rest)). }
  destruct (Z.ltb_spec b0 128).
  { apply bind_Ok in Hd as (s' & Hs' & Hd). injection Hd as <-.
    apply (Hstep b0 s' r0 Hs' ltac:(cbn; lia) Hr [b0]). unfold utf8_char. by rewrite (proj2 (Z.ltb_lt _ _)). }
  destruct ((194 <=? b0) && (b0 <=? 223)) eqn:E2.
  { destruct r0 as [|b1 r1]; [done|]. apply Forall_cons in Hr as [Hb1 Hr]. unfold is_byte in Hb1.
    destruct (is_cont b1) eqn:Hc1; [|done]. unfold is_cont in Hc1.
    apply bind_Ok in Hd as (s' & Hs' & Hd). injection Hd as <-.
    apply (Hstep _ s' r1 Hs' ltac:(cbn; lia) Hr [b0; b1]). unfold utf8_char.
    rewrite (proj2 (Z.ltb_ge _ 128)), (proj2 (Z.ltb_lt _ 2048)) by lia. do 2 f_equal; [lia|]. f_equal. lia. }
  destruct ((224 <=? b0) && (b0 <=? 239)) eqn:E3.
  { destruct r0 as [|b1 [|b2 r2]]; [done|done|]. apply Forall_cons in Hr as [Hb1 Hr]. apply Forall_cons in Hr as [Hb2 Hr].
    unfold is_byte in *. cbv zeta in Hd.
    set (c := (b0 - 224) * 4096 + (b1 - 128) * 64 + (b2 - 128)) in *.
    destruct (is_cont b1) eqn:Hc1; [|done]. destruct (is_cont b2) eqn:Hc2; [|done]. unfold is_cont in Hc1, Hc2.
    destruct (2048 <=? c) eqn:Hlow; [|done]. destruct (is_surrogate c) eqn:Hsur; [done|]. cbn [andb negb] in Hd.
    apply bind_Ok in Hd as (s' & Hs' & Hd). injection Hd as <-.
    apply (Hstep c s' r2 Hs' ltac:(cbn; lia) Hr [b0; b1; b2]). unfold utf8_char. rewrite Hsur.
    rewrite (proj2 (Z.ltb_ge _ 128)), (proj2 (Z.ltb_ge _ 2048)), (proj2 (Z.ltb_lt _ 65536)) by (unfold c; lia).
    unfold c. do 2 f_equal; [lia|]. f_equal; [lia|]. f_equal. lia. }
  destruct ((240 <=? b0) && (b0 <=? 244)) eqn:E4; [|done].
  destruct r0 as [|b1 [|b2 [|b3 r3]]]; try done.
  apply Forall_cons in Hr as [Hb1 Hr]. apply Forall_cons in Hr as [Hb2 Hr]. apply Forall_cons in Hr as [Hb3 Hr].
  unfold is_byte in *. cbv zeta in Hd.
  set (c := (b0 - 240) * 262144 + (b1 - 128) * 4096 + (b2 - 128) * 64 + (b3 - 128)) in *.
  destruct (is_cont b1) eqn:Hc1; [|done]. destruct (is_cont b2) eqn:Hc2; [|done]. destruct (is_cont b3) eqn:Hc3; [|done].
  unfold is_cont in Hc1, Hc2, Hc3.
  destruct (65536 <=? c) eqn:Hlow; [|done]. destruct (c <? 1114112) eqn:Hhigh; [|done]. cbn [andb] in Hd.
  apply bind_Ok in Hd as (s' & Hs' & Hd). injection Hd as <-.
  apply (Hstep c s' r3 Hs' ltac:(cbn; lia) Hr [b0; b1; b2; b3]). unfold utf8_char, is_surrogate.
  rewrite (proj2 (Z.ltb_ge _ 128)), (proj2 (Z.ltb_ge _ 2048)), (proj2 (Z.ltb_ge _ 65536)) by (unfold c; lia).
  rewrite (proj2 (Z.leb_gt c 57343)) by (unfold c; lia). rewrite andb_false_r.
  unfold c. do 2 f_equal; [lia|]. f_equal; [lia|]. f_equal; [lia|]. f_equal. lia.
Qed.

Lemma startswith_app m s : startswith m (m ++ s) = true.
Proof. induction m; cbn; [done|]. by rewrite Z.eqb_refl. Qed.

Lemma utf8_encode_nil_inv s : utf8_encode s = Ok [] → s = [].
Proof.
  destruct s as [|c s]; [done|]. unfold utf8_encode. cbn [mapM_result]. intros Hs. exfalso.
  destruct (utf8_char c) as [b|] eqn:Hc; [|done]. rewrite ok_bind in Hs.
  destruct (mapM_result utf8_char s) as [bs|]; [|done]. simpl in Hs. injection Hs as Hs.
  apply app_nil in Hs as [-> _]. by apply utf8_char_nonempty in Hc.
Qed.

Lemma join_on_app sep l k : l ≠ [] → k ≠ [] →
  join_on sep (l ++ k) = join_on sep l ++ sep :: join_on sep k.
Proof.
  intros Hl Hk. induction l as [|w [|w' l] IH]; [done| |].
  - destruct k as [|v k]; [done|]. reflexivity.
  - change (join_on sep ((w :: w' :: l) ++ k)) with (w ++ sep :: join_on sep ((w' :: l) ++ k)).
    rewrite IH by done. change (join_on sep (w :: w' :: l)) with (w ++ sep :: join_on sep (w' :: l)).
    by rewrite <- app_assoc.
Qed.

(** ** Positional notation *)

Lemma of_digits_app base l k :
  of_digits base (l ++ k) = of_digits base l * base ^ len k + of_digits base k.
Proof.
  unfold of_digits. rewrite foldl_app. generalize (foldl (λ acc d, acc * base + d) 0 l).
  induction k as [|d k IH] using rev_ind; intros a; simpl.
  - unfold len. simpl. lia.
  - rewrite !foldl_app. simpl. rewrite IH.
    rewrite len_app, len_cons. replace (len k + (1 + len [])) with (1 + len k) by (unfold len; simpl; lia).
    rewrite Z.pow_add_r by len_lia. lia.
Qed.

Lemma digits_aux_of_digits fuel base n :
  2 ≤ base → 0 ≤ n < 2 ^ Z.of_nat fuel → of_digits base (digits_aux fuel base n) = n.
Proof.
  intros Hb. revert n. induction fuel as [|fuel IH]; intros n Hn; simpl.
  - simpl in Hn. unfold of_digits. simpl. lia.
  - destruct (Z.eqb_spec n 0) as [->|Hne]; [done|].
    rewrite of_digits_app, IH.
    + unfold of_digits, len. simpl. rewrite Z.pow_1_r.
      pose proof (Z.div_mod n base ltac:(lia)). lia.
    + rewrite Nat2Z.inj_succ, Z.pow_succ_r in Hn by lia. split; [apply Z.div_pos; lia|].
      apply Z.div_lt_upper_bound; nia.
Qed.

Lemma digits_of_digits base n : 2 ≤ base → 0 ≤ n → of_digits base (digits base n) = n.
Proof.
  intros. unfold digits. destruct (Z.eqb_spec n 0) as [->|]; [done|].
  apply digits_aux_of_digits; [done|]. split; [done|].
  rewrite Nat2Z.inj_succ, Z2Nat.id by apply Z.log2_nonneg.
  apply Z.log2_spec. lia.
Qed.

Lemma digits_aux_bound fuel base n : 2 ≤ base → 0 ≤ n →
  Forall (λ d, 0 ≤ d < base) (digits_aux fuel base n).
Proof.
  intros Hb. revert n. induction fuel as [|fuel IH]; intros n Hn; simpl; [constructor|].
  destruct (n =? 0); [constructor|]. apply Forall_app. split.
  - apply IH. apply Z.div_pos; lia.
  - repeat constructor; pose proof (Z.mod_pos_bound n base ltac:(lia)); lia.
Qed.

Lemma digits_bound base n : 2 ≤ base → 0 ≤ n → Forall (λ d, 0 ≤ d < base) (digits base n).
Proof.
  intros. unfold digits. destruct (n =? 0); [repeat constructor; lia|].
  by apply digits_aux_bound.
Qed.

Lemma digits_nonempty base n : digits base n ≠ [].
Proof.
  unfold digits. destruct (Z.eqb_spec n 0); [done|]. simpl.
  rewrite (proj2 (Z.eqb_neq n 0)) by done. by destruct (digits_aux _ _ _).
Qed.

Lemma digits_aux_len fuel base n k : 2 ≤ base → 0 ≤ n → 0 ≤ k → n < base ^ k →
  len (digits_aux fuel base n) ≤ k.
Proof.
  intros Hb. revert n k. induction fuel as [|fuel IH]; intros n k Hn Hk Hlt; simpl.
  - unfold len. simpl. lia.
  - destruct (Z.eqb_spec n 0); [unfold len; simpl; lia|].
    assert (1 ≤ k). { destruct (decide (k = 0)) as [->|]; [|lia]. rewrite Z.pow_0_r in Hlt. lia. }
    rewrite len_app. cut (len (digits_aux fuel base (n / base)) ≤ k - 1); [len_lia|].
    apply IH; [apply Z.div_pos; lia|lia|]. apply Z.div_lt_upper_bound; [lia|].
    rewrite <- Z.pow_succ_r by lia. by replace (Z.succ (k - 1)) with k by lia.
Qed.

Lemma digits_len base n k : 2 ≤ base → 0 ≤ n → 1 ≤ k → n < base ^ k → len (digits base n) ≤ k.
Proof.
  intros. unfold digits. destruct (n =? 0); [unfold len; simpl; lia|].
  apply digits_aux_len; lia.
Qed.

(** No leading zeros. *)
Lemma digits_aux_head fuel base n d ds :
  2 ≤ base → 0 ≤ n < 2 ^ Z.of_nat fuel → digits_aux fuel base n = d :: ds → d ≠ 0.
Proof.
  intros Hb. revert n d ds. induction fuel as [|fuel IH]; intros n d ds Hn Heq; simpl in Heq; [done|].
  destruct (Z.eqb_spec n 0); [done|].
  assert (0 ≤ n / base < 2 ^ Z.of_nat fuel) as Hq.
  { rewrite Nat2Z.inj_succ, Z.pow_succ_r in Hn by lia. split; [apply Z.div_pos; lia|].
    apply Z.div_lt_upper_bound; nia. }
  pose proof (digits_aux_of_digits fuel base (n / base) Hb Hq) as Hv.
  destruct (digits_aux fuel base (n / base)) as [|e es] eqn:E; simpl in Heq.
  - injection Heq as <- _. pose proof (Z.div_mod n base ltac:(lia)). unfold of_digits in Hv.
    simpl in Hv. rewrite <- Hv in *. lia.
  - injection Heq as <- _. by eapply IH.
Qed.

Lemma digits_head base n d ds : 2 ≤ base → 0 < n → digits base n = d :: ds → d ≠ 0.
Proof.
  intros Hb Hn. unfold digits. rewrite (proj2 (Z.eqb_neq n 0)) by lia.
  apply digits_aux_head; [done|]. split; [lia|].
  rewrite Nat2Z.inj_succ, Z2Nat.id by apply Z.log2_nonneg. apply Z.log2_spec. lia.
Qed.

Lemma digits_inj base n m : 2 ≤ base → 0 ≤ n → 0 ≤ m → digits base n = digits base m → n = m.
Proof.
  intros Hb Hn Hm Heq. by rewrite <- (digits_of_digits base n), <- (digits_of_digits base m), Heq.
Qed.

Lemma of_digits_lt base ds : 2 ≤ base → Forall (λ d, 0 ≤ d < base) ds →
  0 ≤ of_digits base ds < base ^ len ds.
Proof.
  intros Hb Hds. induction ds as [|d ds IH] using rev_ind; [by unfold of_digits, len|].
  apply Forall_app in Hds as [Hds Hd]. apply Forall_cons in Hd as [Hd _]. specialize (IH Hds).
  rewrite of_digits_app, len_app. change (len [d]) with 1. change (of_digits base [d]) with d.
  rewrite Z.pow_add_r by len_lia. rewrite Z.pow_1_r. nia.
Qed.

(** The number of decimal digits of [n]. *)
Lemma len_str_of_Z n : 0 ≤ n → len (str_of_Z n) = len (digits 10 n).
Proof. intros Hn. unfold str_of_Z. rewrite (proj2 (Z.ltb_ge n 0)) by lia. by rewrite len_fmap. Qed.

Lemma len_str_lt n : 0 ≤ n → n < 10 ^ len (str_of_Z n).
Proof.
  intros Hn. rewrite len_str_of_Z by done. rewrite <- (digits_of_digits 10 n) at 1 by lia.
  apply of_digits_lt; [lia|]. by apply digits_bound.
Qed.

Lemma len_str_le n k : 0 ≤ n → 1 ≤ k → n < 10 ^ k → len (str_of_Z n) ≤ k.
Proof. intros Hn Hk Hlt. rewrite len_str_of_Z by done. by apply digits_len. Qed.

Lemma len_str_pos n : 0 ≤ n → 1 ≤ len (str_of_Z n).
Proof.
  intros Hn. rewrite len_str_of_Z by done. pose proof (digits_nonempty 10 n) as Hne.
  destruct (digits 10 n); [done|]. len_lia.
Qed.

Lemma len_str_mono n m : 0 ≤ n ≤ m → len (str_of_Z n) ≤ len (str_of_Z m).
Proof.
  intros Hn. apply len_str_le; [lia|apply len_str_pos; lia|].
  pose proof (len_str_lt m ltac:(lia)). lia.
Qed.

(** ** Decimal text *)

Lemma decimal_char_facts d : 0 ≤ d < 10 →
  digit_char d = 48 + d ∧ is_space (digit_char d) = false.
Proof.
  intros. unfold digit_char. rewrite (proj2 (Z.ltb_lt d 10)) by lia. split; [done|].
  unfold is_space. lia.
Qed.

Lemma lstrip_fix s : (∀ c s', s = c :: s' → is_space c = false) → lstrip s = s.
Proof. destruct s as [|c s]; simpl; [done|]. intros H. by rewrite (H c s). Qed.

Lemma strip_fix s : Forall (λ c, is_space c = false) s → strip s = s.
Proof.
  intros Hs. assert (∀ s, Forall (λ c, is_space c = false) s → lstrip s = s) as Hl.
  { intros s' Hs'. apply lstrip_fix. intros c s'' ->. by apply Forall_cons in Hs' as [? _]. }
  unfold strip. rewrite (Hl s), (Hl (reverse s)) by (done || by apply Forall_reverse).
  apply reverse_involutive.
Qed.

Lemma digit_chars_no_space n : 0 ≤ n →
  Forall (λ c, is_space c = false) (digit_char <$> digits 10 n).
Proof.
  intros Hn. rewrite Forall_fmap. eapply Forall_impl; [apply (digits_bound 10 n); lia|].
  intros d Hd. apply (decimal_char_facts d). done.
Qed.

Lemma str_of_Z_ascii z : Forall (λ c, 0 ≤ c < 128) (str_of_Z z).
Proof.
  assert (∀ n, 0 ≤ n → Forall (λ c, 0 ≤ c < 128) (digit_char <$> digits 10 n)) as Hd.
  { intros n Hn. rewrite Forall_fmap. eapply Forall_impl; [apply (digits_bound 10 n); lia|].
    intros d Hd. simpl in *. rewrite (proj1 (decimal_char_facts d Hd)). lia. }
  unfold str_of_Z. destruct (Z.ltb_spec z 0); [constructor; [done|]|]; apply Hd; lia.
Qed.

Section decimal.
Context `{UnicodeData}.

Lemma int_digits_chars acc b ds :
  Forall (λ d, 0 ≤ d < 10) ds → ds ≠ [] ∨ b = true →
  int_digits acc b (digit_char <$> ds) = Some (foldl (λ acc d, acc * 10 + d) acc ds).
Proof.
  intros Hds. revert acc b. induction Hds as [|d ds Hd Hds IH]; intros acc b Hb; simpl.
  - by destruct Hb as [? | ->].
  - rewrite (proj1 (decimal_char_facts d Hd)). unfold decimal_digit.
    rewrite (proj2 (Z.eqb_neq _ _)) by (unfold chr, str; simpl; lia).
    replace ((48 <=? 48 + d) && (48 + d <=? 57)) with true by lia.
    replace (48 + d - 48) with d by lia. rewrite IH by auto. done.
Qed.

(** [int(str(z)) = z] *)
Lemma py_int_str_of_Z z : py_int (str_of_Z z) = Ok z.
Proof.
  assert (∀ n, 0 ≤ n → int_digits 0 false (digit_char <$> digits 10 n) = Some n) as Hint.
  { intros n Hn. rewrite int_digits_chars.
    - by rewrite <- (digits_of_digits 10 n) at 2 by lia.
    - apply digits_bound; lia.
    - left. apply digits_nonempty. }
  unfold py_int, str_of_Z. destruct (Z.ltb_spec z 0).
  - rewrite strip_fix by (constructor; [done|apply digit_chars_no_space; lia]).
    rewrite Z.eqb_refl, Hint by lia. simpl. f_equal. lia.
  - rewrite strip_fix by (apply digit_chars_no_space; lia).
    pose proof (Hint z ltac:(lia)) as Hz. destruct (digits 10 z) as [|d ds] eqn:E; [done|].
    pose proof (digits_bound 10 z ltac:(lia) ltac:(lia)) as Hb. rewrite E in Hb.
    apply Forall_cons in Hb as [Hd _]. rewrite fmap_cons in *.
    rewrite (proj1 (decimal_char_facts d Hd)) in *.
    rewrite (proj2 (Z.eqb_neq (48 + d) (chr "-"))) by (unfold chr, str; simpl; lia).
    rewrite (proj2 (Z.eqb_neq (48 + d) (chr "+"))) by (unfold chr, str; simpl; lia).
    by rewrite Hz.
Qed.

End decimal.

Lemma str_of_Z_inj z w : str_of_Z z = str_of_Z w → z = w.
Proof.
  intros Heq. pose proof (@py_int_str_of_Z ascii_data z) as Hz.
  rewrite Heq, py_int_str_of_Z in Hz. congruence.
Qed.

(** ** Fixed-width numbers *)

Lemma digit_char_inj d e : 0 ≤ d < 16 → 0 ≤ e < 16 → digit_char d = digit_char e → d = e.
Proof. unfold digit_char. intros. destruct (Z.ltb_spec d 10), (Z.ltb_spec e 10); lia. Qed.

Lemma len_format_padded base width z :
  2 ≤ base → 0 ≤ z → 1 ≤ width → z < base ^ width → len (format_padded base width z) = width.
Proof.
  intros. unfold format_padded. rewrite len_app, len_fmap.
  pose proof (digits_len base z width). rewrite len_repeatZ by lia. lia.
Qed.

Lemma length_be_bytes n z : length (be_bytes n z) = n.
Proof. revert z. induction n; intros; simpl; [done|]. rewrite length_app, IHn. simpl. lia. Qed.

Lemma be_bytes_ok n z : bytes_ok (be_bytes n z).
Proof.
  revert z. induction n as [|n IH]; intros; simpl; [constructor|].
  apply Forall_app. split; [apply IH|]. repeat constructor; lia.
Qed.

Lemma from_be_bytes n z : 0 ≤ z < 256 ^ Z.of_nat n → from_bytes_big (be_bytes n z) = z.
Proof.
  unfold from_bytes_big. revert z. induction n as [|n IH]; intros z Hz; [unfold of_digits; simpl in *; lia|].
  cbn [be_bytes]. rewrite of_digits_app, IH.
  - unfold of_digits, len. simpl. lia.
  - rewrite Nat2Z.inj_succ, Z.pow_succ_r in Hz by lia. lia.
Qed.

(** ** Hexadecimal text *)

Lemma hex_value_digit d : 0 ≤ d < 16 → hex_value (digit_char d) = Some d.
Proof.
  intros. unfold hex_value, digit_char. destruct (Z.ltb_spec d 10).
  - replace ((48 <=? 48 + d) && (48 + d <=? 57)) with true by lia. f_equal. lia.
  - replace ((48 <=? 87 + d) && (87 + d <=? 57)) with false by lia.
    replace ((97 <=? 87 + d) && (87 + d <=? 102)) with true by lia. f_equal. lia.
Qed.

Lemma hex_digit_facts d : 0 ≤ d < 16 →
  is_lower_hex (digit_char d) = true ∧ 48 ≤ digit_char d < 128.
Proof.
  intros. unfold is_lower_hex, digit_char. destruct (Z.ltb_spec d 10); lia.
Qed.

(** [bytes.fromhex(bs.hex()) = bs] *)
Lemma bytes_hex_roundtrip bs : bytes_ok bs → bytes_fromhex (bytes_hex bs) = Ok bs.
Proof.
  unfold bytes_hex. induction 1 as [|b bs Hb Hbs IH]; [done|].
  rewrite fmap_cons. cbn [concat hex_byte app bytes_fromhex]. unfold is_byte in Hb.
  destruct (hex_digit_facts (b / 16) ltac:(lia)) as [_ Hr].
  replace (((9 <=? digit_char (b / 16)) && (digit_char (b / 16) <=? 13))
    || (digit_char (b / 16) =? 32)) with false by lia.
  rewrite !hex_value_digit, IH by lia. simpl. do 2 f_equal. lia.
Qed.

Lemma bytes_hex_lower bs : bytes_ok bs → Forall (λ c, is_lower_hex c = true) (bytes_hex bs).
Proof.
  unfold bytes_hex. induction 1 as [|b bs Hb Hbs IH]; [constructor|].
  rewrite fmap_cons. cbn [concat hex_byte app]. unfold is_byte in Hb.
  repeat constructor; try (apply hex_digit_facts; lia). done.
Qed.

Lemma len_bytes_hex bs : len (bytes_hex bs) = 2 * len bs.
Proof.
  unfold bytes_hex. rewrite len_concat, sumZ_fmap. unfold len at 2.
  induction bs as [|b bs IH]; [done|]. rewrite sumZ_cons, IH. unfold len. simpl length. lia.
Qed.

Lemma is_lower_hex_ascii c : is_lower_hex c = true → 48 ≤ c < 128.
Proof. unfold is_lower_hex. lia. Qed.

(** The hexadecimal form of a 32-byte digest matches the digest pattern. *)
Lemma sha256_fullmatch_hex bs : bytes_ok bs → len bs = 32 → sha256_fullmatch (bytes_hex bs) = true.
Proof.
  intros Hbs Hlen. unfold sha256_fullmatch. rewrite len_bytes_hex, Hlen. simpl.
  apply forallb_forall. intros c Hc. apply list_elem_of_In in Hc.
  eapply Forall_forall in Hc; [|by apply bytes_hex_lower]. done.
Qed.

Lemma bytes_hex_inj b1 b2 : bytes_ok b1 → bytes_ok b2 → bytes_hex b1 = bytes_hex b2 → b1 = b2.
Proof.
  intros H1 H2 Heq. apply bytes_hex_roundtrip in H1, H2. rewrite Heq in H1. congruence.
Qed.

(** ** Splitting and joining *)

Lemma split_on_nonempty sep s : split_on sep s ≠ [].
Proof. destruct s as [|c s]; simpl; [done|]. by repeat case_match. Qed.

Lemma split_on_no_sep sep s : Forall (λ w, sep ∉ w) (split_on sep s).
Proof.
  induction s as [|c s IH]; simpl; [repeat constructor; set_solver|].
  destruct (Z.eqb_spec c sep); [constructor; [set_solver|done]|].
  destruct (split_on sep s); repeat constructor; inversion IH; set_solver.
Qed.

Lemma join_split sep s : join_on sep (split_on sep s) = s.
Proof.
  induction s as [|c s IH]; simpl; [done|].
  pose proof (split_on_nonempty sep s).
  destruct (Z.eqb_spec c sep) as [->|]; destruct (split_on sep s) as [|w ws]; try done.
  - by rewrite <- IH.
  - destruct ws; simpl in *; by rewrite <- IH.
Qed.

Lemma split_on_word sep w : sep ∉ w → split_on sep w = [w].
Proof.
  induction w as [|c w IH]; simpl; [done|]. intros Hin.
  rewrite (proj2 (Z.eqb_neq c sep)) by set_solver. by rewrite IH by set_solver.
Qed.

Lemma split_on_app sep w s : sep ∉ w → split_on sep (w ++ sep :: s) = w :: split_on sep s.
Proof.
  induction w as [|c w IH]; simpl; [by rewrite Z.eqb_refl|]. intros Hin.
  rewrite (proj2 (Z.eqb_neq c sep)) by set_solver. by rewrite IH by set_solver.
Qed.

Lemma split_join sep ws : ws ≠ [] → Forall (λ w, sep ∉ w) ws → split_on sep (join_on sep ws) = ws.
Proof.
  induction ws as [|w ws IH]; [done|]. intros _ Hw. apply Forall_cons in Hw as [Hw Hws].
  destruct ws as [|w' ws]; [by apply split_on_word|].
  change (join_on sep (w :: w' :: ws)) with (w ++ sep :: join_on sep (w' :: ws)).
  by rewrite split_on_app, IH.
Qed.

#[export] Hint Resolve digits_nonempty be_bytes_ok str_of_Z_ascii : rh.

(** ** Exceptions *)

Lemma utf8_encode_raises s : raises_only is_value_error (utf8_encode s).
Proof.
  unfold utf8_encode. apply raises_only_bind; [|done]. apply raises_only_mapM. intros c _.
  unfold utf8_char. by repeat case_match.
Qed.

Lemma py_int_raises `{UnicodeData} s : raises_only is_value_error (py_int s).
Proof. unfold py_int. by repeat case_match. Qed.

#[export] Hint Resolve utf8_encode_raises py_int_raises : exceptions.
