(* ===== verification/Json.v ===== *)
(** * Python's [json] module

    The values [json.loads] produces, the compact sorted-key form of
    [json.dumps] that every Riverhog document uses (with and without
    [ensure_ascii]), and the [json.loads] scanner.  [loads_dumps] is the round
    trip between them; [JsonDocument] is the interface the document parsers of
    the other files rely on.

    A float is kept as its literal: the code never computes with one, it only
    rejects it or prints it back, and its [repr] is a parameter, as is [str()]
    of a list or a dict. *)

From S2P Require Import Prelude Text.

Inductive json :=
| JNull
| JBool (b : bool)
| JInt (z : Z)
| JFloat (literal : pystr)
| JStr (s : pystr)
| JList (l : list json)
| JObj (o : list (pystr * json)).

(** What the interpreter knows besides the Unicode tables. *)
Class PyEnv := {
  env_unicode :: UnicodeData;
  float_repr : pystr → pystr;
  container_str : json → pystr;
}.

(** An environment for ASCII documents without floats; used by examples. *)
Definition ascii_env : PyEnv :=
  {| env_unicode := ascii_data; float_repr := λ s, s; container_str := λ _, [] |}.

(** ** [json.dumps(value, sort_keys=True, separators=(",", ":"))] *)

Definition u_escape (c : Z) : pystr := str "\u" ++ format_padded 16 4 c.

Definition escape_char (ensure_ascii : bool) (c : Z) : pystr :=
  if c =? 34 then [92; 34]
  else if c =? 92 then [92; 92]
  else if c =? 10 then str "\n"
  else if c =? 13 then str "\r"
  else if c =? 9 then str "\t"
  else if c =? 12 then str "\f"
  else if c =? 8 then str "\b"
  else if c <? 32 then u_escape c
  else if negb ensure_ascii || (c <? 127) then [c]
  else if c <? 0x10000 then u_escape c
  else u_escape (0xD800 + (c - 0x10000) / 1024) ++ u_escape (0xDC00 + (c - 0x10000) mod 1024).

Definition dump_string (ensure_ascii : bool) (s : pystr) : pystr :=
  34 :: concat (escape_char ensure_ascii <$> s) ++ [34].

Section with_env.
Context `{PyEnv}.

Fixpoint dumps (ensure_ascii : bool) (v : json) : pystr :=
  match v with
  | JNull => str "null"
  | JBool b => if b then str "true" else str "false"
  | JInt z => str_of_Z z
  | JFloat lit => float_repr lit
  | JStr s => dump_string ensure_ascii s
  | JList l => chr "[" :: join_on (chr ",") (map (dumps ensure_ascii) l) ++ [chr "]"]
  | JObj o =>
      let items := sorted_by fst (map (λ kv, (kv.1, dumps ensure_ascii kv.2)) o) in
      chr "{" :: join_on (chr ",")
        (map (λ kv, dump_string ensure_ascii kv.1 ++ chr ":" :: kv.2) items) ++ [chr "}"]
  end.

End with_env.

(** ** [json.loads] *)

Definition is_json_ws (c : Z) : bool := (c =? 32) || (c =? 9) || (c =? 10) || (c =? 13).

Fixpoint skip_ws (s : pystr) : pystr :=
  match s with
  | c :: s' => if is_json_ws c then skip_ws s' else s
  | [] => []
  end.

Definition hex4 (a b c d : Z) : option Z :=
  match hex_value a, hex_value b, hex_value c, hex_value d with
  | Some w, Some x, Some y, Some z => Some (((w * 16 + x) * 16 + y) * 16 + z)
  | _, _, _, _ => None
  end.

Definition simple_escape (c : Z) : option Z :=
  if c =? 34 then Some 34
  else if c =? 92 then Some 92
  else if c =? 47 then Some 47
  else if c =? chr "b" then Some 8
  else if c =? chr "f" then Some 12
  else if c =? chr "n" then Some 10
  else if c =? chr "r" then Some 13
  else if c =? chr "t" then Some 9
  else None.

Definition cons_scan (c : Z) (r : option (pystr * pystr)) : option (pystr * pystr) :=
  match r with Some (s, rest) => Some (c :: s, rest) | None => None end.

(** The characters after an opening quote: the decoded string and what follows
    the closing quote. *)
Fixpoint scan_string (s : pystr) : option (pystr * pystr) :=
  match s with
  | [] => None
  | c :: r =>
      if c =? 34 then Some ([], r)
      else if c =? 92 then
        match r with
        | e :: r1 =>
            if e =? chr "u" then
              match r1 with
              | a1 :: a2 :: a3 :: a4 :: r2 =>
                  match hex4 a1 a2 a3 a4 with
                  | Some u =>
                      if (0xD800 <=? u) && (u <=? 0xDBFF) then
                        match r2 with
                        | x :: y :: b1 :: b2 :: b3 :: b4 :: r3 =>
                            if (x =? 92) && (y =? chr "u") then
                              match hex4 b1 b2 b3 b4 with
                              | Some w =>
                                  if (0xDC00 <=? w) && (w <=? 0xDFFF)
                                  then cons_scan
                                         (0x10000 + (u - 0xD800) * 1024 + (w - 0xDC00))
                                         (scan_string r3)
                                  else cons_scan u (scan_string r2)
                              | None => cons_scan u (scan_string r2)
                              end
                            else cons_scan u (scan_string r2)
                        | _ => cons_scan u (scan_string r2)
                        end
                      else cons_scan u (scan_string r2)
                  | None => None
                  end
              | _ => None
              end
            else match simple_escape e with
                 | Some x => cons_scan x (scan_string r1)
                 | None => None
                 end
        | [] => None
        end
      else if c <? 32 then None
      else cons_scan c (scan_string r)
  end.

Definition is_digit (c : Z) : bool := (48 <=? c) && (c <=? 57).

Fixpoint span_digits (s : pystr) : pystr * pystr :=
  match s with
  | c :: s' =>
      if is_digit c then let '(ds, r) := span_digits s' in (c :: ds, r) else ([], s)
  | [] => ([], [])
  end.

Definition span_fraction (s : pystr) : pystr * pystr :=
  match s with
  | c :: s' =>
      if c =? chr "." then
        match span_digits s' with
        | ([], _) => ([], s)
        | (ds, r) => (c :: ds, r)
        end
      else ([], s)
  | [] => ([], [])
  end.

Definition span_exponent (s : pystr) : pystr * pystr :=
  match s with
  | c :: s' =>
      if (c =? chr "e") || (c =? chr "E") then
        let '(sign, s'') := match s' with
          | x :: t => if (x =? chr "+") || (x =? chr "-") then ([x], t) else ([], s')
          | [] => ([], [])
          end in
        match span_digits s'' with
        | ([], _) => ([], s)
        | (ds, r) => (c :: sign ++ ds, r)
        end
      else ([], s)
  | [] => ([], [])
  end.

(** The number after its sign. *)
Definition scan_unsigned (sign : pystr) (s : pystr) : option (json * pystr) :=
  let finish ds r :=
    let '(frac, r1) := span_fraction r in
    let '(exp, r2) := span_exponent r1 in
    match frac, exp with
    | [], [] =>
        let n := of_digits 10 ((λ c, c - 48) <$> ds) in
        Some (JInt (match sign with [] => n | _ => - n end), r2)
    | _, _ => Some (JFloat (sign ++ ds ++ frac ++ exp), r2)
    end in
  match s with
  | c :: r =>
      if c =? 48 then finish [48] r
      else if is_digit c then let '(ds, r') := span_digits s in finish ds r'
      else None
  | [] => None
  end.

Definition scan_literal (word : string) (v : json) (s : pystr) : option (json * pystr) :=
  if startswith (str word) s then Some (v, drop (length (str word)) s) else None.

Definition scan_atom (s : pystr) : option (json * pystr) :=
  match s with
  | c :: r =>
      if c =? 34 then
        match scan_string r with Some (t, r') => Some (JStr t, r') | None => None end
      else if c =? chr "n" then scan_literal "null" JNull s
      else if c =? chr "t" then scan_literal "true" (JBool true) s
      else if c =? chr "f" then scan_literal "false" (JBool false) s
      else if c =? chr "N" then scan_literal "NaN" (JFloat (str "NaN")) s
      else if c =? chr "I" then scan_literal "Infinity" (JFloat (str "Infinity")) s
      else if c =? chr "-" then
        match scan_literal "-Infinity" (JFloat (str "-Infinity")) s with
        | Some x => Some x
        | None => scan_unsigned [c] r
        end
      else scan_unsigned [] s
  | [] => None
  end.

(** [d[k] = v]: a repeated key keeps its place and takes the new value. *)
Fixpoint dict_set (k : pystr) (v : json) (o : list (pystr * json)) : list (pystr * json) :=
  match o with
  | [] => [(k, v)]
  | (k', v') :: o' => if decide (k = k') then (k, v) :: o' else (k', v') :: dict_set k v o'
  end.

(** The recursive scanner.  Each call spends one unit of fuel; twice the length
    of the text is enough, because only every other call may leave the input
    where it is. *)
Fixpoint scan_value (fuel : nat) (s : pystr) : option (json * pystr) :=
  match fuel with
  | O => None
  | S fuel =>
      match s with
      | c :: r =>
          if c =? chr "[" then
            match skip_ws r with
            | d :: r' =>
                if d =? chr "]" then Some (JList [], r') else scan_elements fuel [] (d :: r')
            | [] => None
            end
          else if c =? chr "{" then
            match skip_ws r with
            | d :: r' =>
                if d =? chr "}" then Some (JObj [], r') else scan_members fuel [] (d :: r')
            | [] => None
            end
          else scan_atom s
      | [] => None
      end
  end
with scan_elements (fuel : nat) (acc : list json) (s : pystr) : option (json * pystr) :=
  match fuel with
  | O => None
  | S fuel =>
      match scan_value fuel s with
      | Some (v, r) =>
          match skip_ws r with
          | d :: r' =>
              if d =? chr "]" then Some (JList (acc ++ [v]), r')
              else if d =? chr "," then scan_elements fuel (acc ++ [v]) (skip_ws r')
              else None
          | [] => None
          end
      | None => None
      end
  end
with scan_members (fuel : nat) (acc : list (pystr * json)) (s : pystr) :
    option (json * pystr) :=
  match fuel with
  | O => None
  | S fuel =>
      match s with
      | q :: r =>
          if q =? 34 then
            match scan_string r with
            | Some (k, r1) =>
                match skip_ws r1 with
                | colon :: r2 =>
                    if colon =? chr ":" then
                      match scan_value fuel (skip_ws r2) with
                      | Some (v, r3) =>
                          match skip_ws r3 with
                          | d :: r4 =>
                              if d =? chr "}" then Some (JObj (dict_set k v acc), r4)
                              else if d =? chr ","
                                   then scan_members fuel (dict_set k v acc) (skip_ws r4)
                              else None
                          | [] => None
                          end
                      | None => None
                      end
                    else None
                | [] => None
                end
            | None => None
            end
          else None
      | [] => None
      end
  end.

Definition loads (s : pystr) : result json :=
  match scan_value (S (2 * length s)) (skip_ws s) with
  | Some (v, rest) =>
      match skip_ws rest with
      | [] => Ok v
      | _ => Err (Exn JSONDecodeError (str "Extra data"))
      end
  | None => Err (Exn JSONDecodeError (str "Expecting value"))
  end.

(** ** Access to decoded values *)

Fixpoint dict_get (k : pystr) (o : list (pystr * json)) : option json :=
  match o with
  | [] => None
  | (k', v) :: o' => if decide (k = k') then Some v else dict_get k o'
  end.

Definition keys (o : list (pystr * json)) : list pystr := fst <$> o.

(** [payload.get(key)]: [None] for a missing key. *)
Definition get_or_null (k : string) (o : list (pystr * json)) : json :=
  default JNull (dict_get (str k) o).

(** [set(payload) == expected] *)
Definition keys_are (o : list (pystr * json)) (expected : list string) : bool :=
  forallb (λ k, bool_decide (k ∈ (str <$> expected))) (keys o)
  && forallb (λ k, bool_decide (k ∈ keys o)) (str <$> expected).

(** [isinstance(v, int)], which Python's booleans satisfy, and its value. *)
Definition as_int (v : json) : option Z :=
  match v with JInt z => Some z | JBool b => Some (Z.b2z b) | _ => None end.

(** [v == s] for a string [s]. *)
Definition is_str (v : json) (s : pystr) : bool :=
  match v with JStr t => bool_decide (t = s) | _ => false end.

Definition is_bool (v : json) : bool := match v with JBool _ => true | _ => false end.

Section py_str.
Context `{PyEnv}.

(** [str(v)] of a decoded value. *)
Definition py_str (v : json) : pystr :=
  match v with
  | JNull => str "None"
  | JBool b => if b then str "True" else str "False"
  | JInt z => str_of_Z z
  | JFloat lit => float_repr lit
  | JStr s => s
  | JList _ | JObj _ => container_str v
  end.

(** The reading of integer fields that the document parsers share: a boolean is
    refused, and the text of the value must be the canonical decimal form of a
    non-negative integer. *)
Definition canonical_nonnegative_int (v : json) (label : pystr) : result Z :=
  when is_bool v raises Exn ValueError (label ++ str " must be a non-negative integer");
  parsed ← try_except (py_int (py_str v)) is_value_error
             (λ _, Err (Exn ValueError (label ++ str " must be a non-negative integer")));
  when (parsed <? 0) || negb (bool_decide (str_of_Z parsed = py_str v))
    raises Exn ValueError (label ++ str " must be a canonical non-negative integer");
  Ok parsed.

End py_str.

(** ** Round trip *)

(** Documents whose text determines them: no floats, encodable strings and
    distinct keys. *)
Fixpoint json_wf (v : json) : Prop :=
  match v with
  | JNull | JBool _ | JInt _ => True
  | JFloat _ => False
  | JStr s => text_ok s
  | JList l => foldr (λ x P, json_wf x ∧ P) True l
  | JObj o => NoDup (keys o) ∧ foldr (λ kv P, (text_ok kv.1 ∧ json_wf kv.2) ∧ P) True o
  end.

(** The value with the keys of every object in order: what comes back from the
    text of a document. *)
Fixpoint canon (v : json) : json :=
  match v with
  | JList l => JList (map canon l)
  | JObj o => JObj (sorted_by fst (map (λ kv, (kv.1, canon kv.2)) o))
  | _ => v
  end.

Lemma json_rect_nested (P : json → Prop) :
  P JNull → (∀ b, P (JBool b)) → (∀ z, P (JInt z)) → (∀ l, P (JFloat l)) → (∀ s, P (JStr s)) →
  (∀ l, Forall P l → P (JList l)) →
  (∀ o, Forall (λ kv, P kv.2) o → P (JObj o)) →
  ∀ v, P v.
Proof.
  intros Hnull Hbool Hint Hfloat Hstr Hlist Hobj.
  fix go 1. intros [| | | | |l|o]; [apply Hnull|apply Hbool|apply Hint|apply Hfloat|apply Hstr| |].
  - apply Hlist. induction l as [|x l IH]; constructor; [apply go|exact IH].
  - apply Hobj. induction o as [|[k x] o IH]; constructor; [apply go|exact IH].
Qed.

Lemma foldr_and_Forall {A} (P : A → Prop) l : foldr (λ x Q, P x ∧ Q) True l ↔ Forall P l.
Proof. induction l; simpl; [by split|]. rewrite Forall_cons. naive_solver. Qed.

Lemma json_wf_list l : json_wf (JList l) ↔ Forall json_wf l.
Proof. apply foldr_and_Forall. Qed.

Lemma json_wf_obj o :
  json_wf (JObj o) ↔ NoDup (keys o) ∧ Forall (λ kv, text_ok kv.1 ∧ json_wf kv.2) o.
Proof.
  simpl. apply and_iff_compat_l. apply (foldr_and_Forall (λ kv, text_ok kv.1 ∧ json_wf kv.2)).
Qed.

(** *** Strings *)

Lemma digits_16_bounds c : 0 ≤ c < 0x10000 →
  ∃ a1 a2 a3 a4, format_padded 16 4 c = [digit_char a1; digit_char a2; digit_char a3; digit_char a4]
    ∧ (0 ≤ a1 < 16 ∧ 0 ≤ a2 < 16 ∧ 0 ≤ a3 < 16 ∧ 0 ≤ a4 < 16)
    ∧ ((a1 * 16 + a2) * 16 + a3) * 16 + a4 = c.
Proof.
  intros Hc. unfold format_padded. rewrite len_fmap.
  pose proof (digits_of_digits 16 c ltac:(lia) ltac:(lia)) as Hv.
  pose proof (digits_bound 16 c ltac:(lia) ltac:(lia)) as Hb.
  pose proof (digits_len 16 c 4 ltac:(lia) ltac:(lia) ltac:(lia) ltac:(lia)) as Hl.
  pose proof (digits_nonempty 16 c) as Hne. unfold len, of_digits in *.
  destruct (digits 16 c) as [|d1 [|d2 [|d3 [|d4 [|]]]]]; simpl in Hl; try lia; [done|..];
    repeat match goal with H : Forall _ (_ :: _) |- _ => apply Forall_cons in H as [? H] end;
    simpl in *; change (chr "0") with (digit_char 0).
  - exists 0, 0, 0, d1. repeat split; lia.
  - exists 0, 0, d1, d2. repeat split; lia.
  - exists 0, d1, d2, d3. repeat split; lia.
  - exists d1, d2, d3, d4. repeat split; lia.
Qed.

Lemma hex4_digits a1 a2 a3 a4 :
  0 ≤ a1 < 16 ∧ 0 ≤ a2 < 16 ∧ 0 ≤ a3 < 16 ∧ 0 ≤ a4 < 16 →
  hex4 (digit_char a1) (digit_char a2) (digit_char a3) (digit_char a4) =
  Some (((a1 * 16 + a2) * 16 + a3) * 16 + a4).
Proof. intros (?&?&?&?). unfold hex4. by rewrite !hex_value_digit. Qed.

Lemma scan_u_escape c rest : 0 ≤ c < 0x10000 → is_surrogate c = false →
  scan_string (u_escape c ++ rest) = cons_scan c (scan_string rest).
Proof.
  intros Hc Hs. unfold u_escape.
  destruct (digits_16_bounds c Hc) as (a1 & a2 & a3 & a4 & -> & Hb & Hv).
  change (str "\u") with [92; chr "u"]. cbn [app scan_string].
  rewrite (hex4_digits _ _ _ _ Hb), Hv. simpl.
  unfold is_surrogate in Hs. replace ((55296 <=? c) && (c <=? 56319)) with false by lia. done.
Qed.

Lemma scan_u_escape_pair c rest : 0x10000 ≤ c < 0x110000 →
  scan_string ((u_escape (0xD800 + (c - 0x10000) / 1024)
    ++ u_escape (0xDC00 + (c - 0x10000) mod 1024)) ++ rest) = cons_scan c (scan_string rest).
Proof.
  intros Hc. pose proof (Z.div_mod (c - 0x10000) 1024 ltac:(lia)) as Hdiv.
  pose proof (Z.mod_pos_bound (c - 0x10000) 1024 ltac:(lia)) as Hmod.
  set (hi := 0xD800 + (c - 0x10000) / 1024) in *.
  set (lo := 0xDC00 + (c - 0x10000) mod 1024) in *.
  assert (0xD800 ≤ hi ≤ 0xDBFF) as Hhi by lia. assert (0xDC00 ≤ lo ≤ 0xDFFF) as Hlo by lia.
  unfold u_escape.
  destruct (digits_16_bounds hi ltac:(lia)) as (a1 & a2 & a3 & a4 & -> & Hb & Hv).
  destruct (digits_16_bounds lo ltac:(lia)) as (b1 & b2 & b3 & b4 & -> & Hb' & Hv').
  change (str "\u") with [92; chr "u"]. cbn [app scan_string].
  rewrite (hex4_digits _ _ _ _ Hb), (hex4_digits _ _ _ _ Hb'), Hv, Hv'. simpl.
  replace ((55296 <=? hi) && (hi <=? 56319)) with true by lia.
  replace ((56320 <=? lo) && (lo <=? 57343)) with true by lia.
  replace (65536 + (hi - 55296) * 1024 + (lo - 56320)) with c by lia. done.
Qed.

Lemma scan_escape_char ea c rest : is_scalar c →
  scan_string (escape_char ea c ++ rest) = cons_scan c (scan_string rest).
Proof.
  intros [Hc Hs]. unfold is_code_point in Hc. unfold escape_char.
  destruct (Z.eqb_spec c 34) as [->|]; [done|]. destruct (Z.eqb_spec c 92) as [->|]; [done|].
  destruct (Z.eqb_spec c 10) as [->|]; [done|]. destruct (Z.eqb_spec c 13) as [->|]; [done|].
  destruct (Z.eqb_spec c 9) as [->|]; [done|]. destruct (Z.eqb_spec c 12) as [->|]; [done|].
  destruct (Z.eqb_spec c 8) as [->|]; [done|].
  destruct (Z.ltb_spec c 32); [apply scan_u_escape; [lia|done]|].
  destruct (negb ea || (c <? 127)).
  { cbn [app scan_string]. rewrite !(proj2 (Z.eqb_neq _ _)) by done.
    by rewrite (proj2 (Z.ltb_ge c 32)). }
  destruct (Z.ltb_spec c 0x10000); [apply scan_u_escape; [lia|done]|].
  apply scan_u_escape_pair. lia.
Qed.

Lemma scan_dump_string ea s rest : text_ok s →
  scan_string (concat (escape_char ea <$> s) ++ 34 :: rest) = Some (s, rest).
Proof.
  induction 1 as [|c s Hc Hs IH]; [done|]. rewrite fmap_cons. cbn [concat].
  rewrite <- app_assoc, scan_escape_char, IH by done. done.
Qed.

(** *** Numbers *)

(** What may follow a number in the text of a document. *)
Definition number_end (rest : pystr) : Prop :=
  match rest with
  | [] => True
  | c :: _ => is_digit c = false ∧ c ≠ chr "." ∧ c ≠ chr "e" ∧ c ≠ chr "E"
  end.

Lemma span_digits_app ds rest :
  Forall (λ c, is_digit c = true) ds → number_end rest → span_digits (ds ++ rest) = (ds, rest).
Proof.
  intros Hds Hend. induction Hds as [|c ds Hc Hds IH]; simpl.
  - destruct rest as [|c rest]; [done|]. simpl. by rewrite (proj1 Hend).
  - by rewrite Hc, IH.
Qed.

Lemma span_end rest : number_end rest →
  span_fraction rest = ([], rest) ∧ span_exponent rest = ([], rest).
Proof.
  destruct rest as [|c rest]; [done|]. intros (_ & ? & ? & ?). simpl.
  by rewrite !(proj2 (Z.eqb_neq _ _)).
Qed.

Lemma decimal_chars n : 0 ≤ n →
  Forall (λ c, is_digit c = true) (digit_char <$> digits 10 n).
Proof.
  intros Hn. rewrite Forall_fmap. eapply Forall_impl; [apply (digits_bound 10 n); lia|].
  intros d Hd. simpl in *. rewrite (proj1 (decimal_char_facts d Hd)). unfold is_digit. lia.
Qed.

Lemma decimal_value n : 0 ≤ n →
  of_digits 10 ((λ c, c - 48) <$> (digit_char <$> digits 10 n)) = n.
Proof.
  intros Hn. rewrite <- (digits_of_digits 10 n) at 2 by lia. f_equal.
  pose proof (digits_bound 10 n ltac:(lia) Hn) as Hb.
  induction Hb as [|d ds Hd Hds IH]; [done|]. rewrite !fmap_cons, IH.
  rewrite (proj1 (decimal_char_facts d Hd)). f_equal. lia.
Qed.

Lemma scan_unsigned_digits sign n rest : 0 ≤ n → number_end rest →
  scan_unsigned sign ((digit_char <$> digits 10 n) ++ rest) =
  Some (JInt (match sign with [] => n | _ => - n end), rest).
Proof.
  intros Hn Hend. pose proof (span_end rest Hend) as [Hf He].
  pose proof (decimal_value n Hn) as Hv. pose proof (decimal_chars n Hn) as Hc.
  destruct (decide (n = 0)) as [->|Hne].
  { change (digit_char <$> digits 10 0) with [48]. cbn. rewrite Hf, He. by destruct sign. }
  unfold scan_unsigned. destruct (digits 10 n) as [|d ds] eqn:E; [by destruct (digits_nonempty 10 n)|].
  pose proof (digits_head 10 n d ds ltac:(lia) ltac:(lia) E) as Hd.
  pose proof (digits_bound 10 n ltac:(lia) Hn) as Hb. rewrite E in Hb.
  apply Forall_cons in Hb as [Hd10 _]. rewrite fmap_cons in *.
  rewrite (span_digits_app _ rest Hc Hend). cbn [app].
  pose proof (proj1 (decimal_char_facts d Hd10)) as Hchar.
  rewrite (proj2 (Z.eqb_neq _ _)) by lia.
  apply Forall_cons in Hc as [-> _]. rewrite Hf, He. by rewrite Hv.
Qed.

Lemma scan_str_of_Z z rest : number_end rest →
  scan_atom (str_of_Z z ++ rest) = Some (JInt z, rest).
Proof.
  intros Hend. unfold str_of_Z. destruct (Z.ltb_spec z 0).
  - pose proof (scan_unsigned_digits [chr "-"] (- z) rest ltac:(lia) Hend) as Hscan.
    cbn [app scan_atom]. norm_chr. cbn [Z.eqb Pos.eqb].
    replace (scan_literal _ _ _) with (@None (json * pystr)).
    { rewrite Hscan. do 3 f_equal. lia. }
    unfold scan_literal. pose proof (decimal_chars (- z) ltac:(lia)) as Hc.
    pose proof (digits_nonempty 10 (- z)). destruct (digits 10 (- z)) as [|d ds]; [done|].
    rewrite fmap_cons in *. apply Forall_cons in Hc as [Hc _]. unfold is_digit in Hc.
    change (startswith (str "-Infinity") (45 :: (digit_char d :: ?x) ++ ?y))
      with ((73 =? digit_char d) && startswith (str "nfinity") (x ++ y)).
    by rewrite (proj2 (Z.eqb_neq 73 _)) by lia.
  - pose proof (scan_unsigned_digits [] z rest ltac:(lia) Hend) as Hscan.
    pose proof (decimal_chars z ltac:(lia)) as Hc.
    pose proof (digits_nonempty 10 z). destruct (digits 10 z) as [|d ds]; [done|].
    rewrite fmap_cons in *. apply Forall_cons in Hc as [Hc _]. unfold is_digit in Hc.
    cbn [app scan_atom]. norm_chr.
    rewrite !(proj2 (Z.eqb_neq _ _)) by lia. exact Hscan.
Qed.

(** *** Containers *)

Lemma insert_by_map {A B} (ka : A → pystr) (kb : B → pystr) (g : A → B) x l :
  (∀ x, kb (g x) = ka x) → insert_by kb (g x) (map g l) = map g (insert_by ka x l).
Proof.
  intros Hk. induction l as [|y l IH]; simpl; [done|]. rewrite !Hk, IH.
  by destruct (str_leb _ _).
Qed.

Lemma sorted_by_map {A B} (ka : A → pystr) (kb : B → pystr) (g : A → B) l :
  (∀ x, kb (g x) = ka x) → sorted_by kb (map g l) = map g (sorted_by ka l).
Proof.
  intros Hk. induction l as [|x l IH]; simpl; [done|]. by rewrite IH, (insert_by_map ka).
Qed.

Lemma dict_set_fresh k v o : k ∉ keys o → dict_set k v o = o ++ [(k, v)].
Proof.
  unfold keys. induction o as [|[k' v'] o IH]; simpl; [done|]. intros Hk.
  rewrite decide_False by set_solver. by rewrite IH by set_solver.
Qed.

(** The fuel a value needs. *)
Fixpoint need (v : json) : nat :=
  match v with
  | JList l => S (foldr (λ x n, S (need x + n)) 0 l)
  | JObj o => S (foldr (λ kv n, S (need kv.2 + n)) 0 o)
  | _ => 1
  end%nat.

Lemma need_items_perm (o o' : list (pystr * json)) :
  o ≡ₚ o' → foldr (λ kv n, S (need kv.2 + n)) 0%nat o = foldr (λ kv n, S (need kv.2 + n)) 0%nat o'.
Proof. induction 1; simpl; lia. Qed.

Section roundtrip.
Context `{PyEnv} (ea : bool).

Definition dump_member (kv : pystr * json) : pystr :=
  dump_string ea kv.1 ++ chr ":" :: dumps ea kv.2.

Lemma dumps_obj o :
  dumps ea (JObj o) =
  chr "{" :: join_on (chr ",") (map dump_member (sorted_by fst o)) ++ [chr "}"].
Proof.
  simpl. rewrite (sorted_by_map fst fst (λ kv, (kv.1, dumps ea kv.2))) by done.
  by rewrite map_map.
Qed.

Lemma canon_obj o : canon (JObj o) = JObj (map (λ kv, (kv.1, canon kv.2)) (sorted_by fst o)).
Proof. simpl. by rewrite (sorted_by_map fst fst (λ kv, (kv.1, canon kv.2))). Qed.

(** The canonical form prints the same. *)
Lemma dumps_canon v : dumps ea (canon v) = dumps ea v.
Proof.
  induction v as [| | | | |l IH|o IH] using json_rect_nested; try done.
  - cbn [canon dumps]. f_equal. f_equal. f_equal. rewrite map_map. apply map_ext_in.
    intros x Hx%list_elem_of_In. rewrite Forall_forall in IH. by apply IH.
  - rewrite canon_obj, !dumps_obj. f_equal. f_equal. f_equal.
    rewrite (sorted_by_map fst fst (λ kv, (kv.1, canon kv.2))), map_map, sorted_by_idemp by done.
    apply map_ext_in. intros [k x] Hx%list_elem_of_In. unfold dump_member. cbn [fst snd].
    rewrite sorted_by_perm in Hx. rewrite Forall_forall in IH. pose proof (IH _ Hx) as Hv. cbn in Hv. by rewrite Hv.
Qed.

(** The text of a value starts with a character that ends no container and is
    not white space. *)
Definition value_start (s : pystr) : Prop :=
  match s with
  | c :: _ => is_json_ws c = false ∧ c ≠ chr "]" ∧ c ≠ chr "}"
  | [] => False
  end.

Lemma dumps_start v : json_wf v → value_start (dumps ea v).
Proof.
  destruct v as [|[]|z|l|s|l|o]; try done; intros _. simpl. unfold str_of_Z.
  destruct (Z.ltb_spec z 0); [done|].
  pose proof (decimal_chars z ltac:(lia)) as Hc. pose proof (digits_nonempty 10 z).
  destruct (digits 10 z) as [|d ds]; [done|]. rewrite fmap_cons in *.
  apply Forall_cons in Hc as [Hc _]. unfold is_digit in Hc. simpl. unfold is_json_ws.
  norm_chr. split_and!; lia.
Qed.

Lemma skip_ws_start s rest : value_start s → skip_ws (s ++ rest) = s ++ rest.
Proof. destruct s as [|c s]; [done|]. intros [Hc _]. simpl. by rewrite Hc. Qed.

Lemma join_start sep w ws : value_start w → value_start (join_on sep (w :: ws)).
Proof. destruct w as [|c w]; [done|]. by destruct ws. Qed.

Lemma join_on_cons sep w ws rest :
  join_on sep (w :: ws) ++ rest = w ++ match ws with [] => rest | _ => sep :: join_on sep ws ++ rest end.
Proof. destruct ws; simpl; [done|]. by rewrite <- app_assoc. Qed.

(** The induction hypothesis of the round trip. *)
Definition scans (v : json) : Prop := ∀ fuel rest,
  (need v ≤ fuel)%nat → number_end rest →
  scan_value fuel (dumps ea v ++ rest) = Some (canon v, rest).

Lemma scan_elements_dumps l : Forall json_wf l → Forall scans l → l ≠ [] →
  ∀ fuel acc rest, (foldr (λ x n, S (need x + n)) 0 l ≤ fuel)%nat →
  scan_elements fuel acc (join_on (chr ",") (map (dumps ea) l) ++ chr "]" :: rest) =
  Some (JList (acc ++ map canon l), rest).
Proof.
  induction l as [|x l IH]; [done|]. intros Hwf Hscans _ fuel acc rest Hfuel.
  apply Forall_cons in Hwf as [Hx Hwf]. apply Forall_cons in Hscans as [Hsx Hscans].
  destruct fuel as [|fuel]; simpl in Hfuel; [lia|].
  cbn [map scan_elements]. rewrite join_on_cons. destruct l as [|y l].
  - cbn [map]. rewrite Hsx by (lia || done). done.
  - cbn [map]. rewrite Hsx by (lia || done). cbn [skip_ws]. norm_chr. cbn.
    apply Forall_cons in Hwf as [Hy Hwf].
    change (dumps ea y :: map (dumps ea) l) with (map (dumps ea) (y :: l)).
    rewrite skip_ws_start.
    + rewrite IH; [| |done|done|simpl in *; lia]; [|by constructor].
      simpl. by rewrite <- app_assoc.
    + by apply join_start, dumps_start.
Qed.

Lemma scan_members_dumps o : Forall (λ kv, text_ok kv.1 ∧ json_wf kv.2) o →
  Forall (λ kv, scans kv.2) o → o ≠ [] →
  ∀ fuel acc rest, NoDup (keys acc ++ keys o) →
  (foldr (λ kv n, S (need kv.2 + n)) 0 o ≤ fuel)%nat →
  scan_members fuel acc (join_on (chr ",") (map dump_member o) ++ chr "}" :: rest) =
  Some (JObj (acc ++ map (λ kv, (kv.1, canon kv.2)) o), rest).
Proof.
  induction o as [|[k x] o IH]; [done|]. intros Hwf Hscans _ fuel acc rest Hnd Hfuel.
  apply Forall_cons in Hwf as [[Hk Hx] Hwf]. apply Forall_cons in Hscans as [Hsx Hscans].
  simpl in Hk, Hx, Hsx. destruct fuel as [|fuel]; simpl in Hfuel; [lia|].
  assert (k ∉ keys acc) as Hfresh.
  { apply NoDup_app in Hnd as (_ & Hdisj & _). intros Hin. apply (Hdisj k Hin).
    unfold keys. simpl. set_solver. }
  cbn [map]. rewrite join_on_cons. unfold dump_member at 1, dump_string. cbn [fst snd app].
  rewrite <- !app_assoc. cbn [app scan_members]. cbn [Z.eqb Pos.eqb].
  rewrite scan_dump_string by done. cbn [skip_ws]. norm_chr. cbn [is_json_ws Z.eqb Pos.eqb orb].
  rewrite skip_ws_start by (by apply dumps_start).
  destruct o as [|[k' y] o].
  - cbn [map]. rewrite Hsx by (lia || done). cbn. rewrite dict_set_fresh by done. done.
  - cbn [map]. rewrite Hsx by (lia || done). cbn [skip_ws is_json_ws Z.eqb Pos.eqb orb].
    change (dump_member (k', y) :: map dump_member o) with (map dump_member ((k', y) :: o)).
    rewrite skip_ws_start by (by destruct o).
    rewrite IH; [| |done|done| |simpl in *; lia].
    + rewrite dict_set_fresh by done. by rewrite <- app_assoc.
    + done.
    + rewrite dict_set_fresh by done. unfold keys in *. rewrite fmap_app, <- app_assoc. done.
Qed.

Lemma str_of_Z_start z : ∃ c r, str_of_Z z = c :: r ∧ (is_digit c = true ∨ c = 45).
Proof.
  unfold str_of_Z. destruct (Z.ltb_spec z 0); [eauto|].
  pose proof (decimal_chars z ltac:(lia)) as Hc. pose proof (digits_nonempty 10 z).
  destruct (digits 10 z) as [|d ds]; [done|]. rewrite fmap_cons in *.
  apply Forall_cons in Hc as [Hc _]. eauto.
Qed.

Lemma scan_dumps v : json_wf v → scans v.
Proof.
  induction v as [| | | | |l IH|o IH] using json_rect_nested; intros Hwf fuel rest Hfuel Hend;
    (destruct fuel as [|fuel]; [simpl in Hfuel; lia|]).
  - done.
  - by destruct b.
  - cbn [dumps scan_value]. pose proof (scan_str_of_Z z rest Hend) as Hz.
    destruct (str_of_Z_start z) as (c & r & Heq & Hc). rewrite Heq in *. cbn [app] in *.
    rewrite !(proj2 (Z.eqb_neq _ _)); [done| |]; unfold is_digit in *; norm_chr; lia.
  - done.
  - cbn. rewrite <- app_assoc. cbn. by rewrite scan_dump_string.
  - apply json_wf_list in Hwf. cbn [dumps scan_value]. norm_chr. cbn [app Z.eqb Pos.eqb].
    destruct l as [|x l]; [done|].
    pose proof (dumps_start x (Forall_inv Hwf)) as Hs.
    rewrite <- app_assoc. cbn [app].
    rewrite skip_ws_start by (by apply join_start).
    assert (∃ c r, join_on 44 (map (dumps ea) (x :: l)) ++ 93 :: rest = c :: r ∧ c ≠ chr "]")
      as (c & r & Heq & Hc).
    { pose proof (join_start 44 _ (map (dumps ea) l) Hs) as Hj. cbn [map].
      destruct (join_on 44 _) as [|c r]; [done|]. destruct Hj as (_ & ? & _). eauto. }
    rewrite Heq. norm_chr. rewrite (proj2 (Z.eqb_neq c 93)) by done. rewrite <- Heq.
    rewrite (scan_elements_dumps (x :: l)); [done|done| |done|simpl in *; lia].
    apply Forall_forall. intros y Hy. eapply Forall_forall in IH; [|done].
    apply IH. by eapply Forall_forall in Hwf.
  - apply json_wf_obj in Hwf as [Hnd Hwf]. rewrite dumps_obj, canon_obj.
    pose proof (sorted_by_perm fst o) as Hperm.
    assert (foldr (λ kv n, S (need kv.2 + n)) 0 (sorted_by fst o) ≤ fuel)%nat as Hneed.
    { rewrite (need_items_perm _ _ Hperm). simpl in Hfuel. lia. }
    assert (NoDup (keys (sorted_by fst o))) as Hnd'. { unfold keys in *. by rewrite Hperm. }
    rewrite <- Hperm in IH, Hwf. clear Hfuel Hnd Hperm.
    generalize dependent (sorted_by (fst : pystr * json → pystr) o). clear o.
    intros o IH Hwf Hneed Hnd.
    cbn [scan_value app]. norm_chr. cbn [app Z.eqb Pos.eqb].
    destruct o as [|kv o]; [done|].
    rewrite <- app_assoc. cbn [app].
    rewrite skip_ws_start by (by destruct o).
    assert (∃ r, join_on 44 (map dump_member (kv :: o)) ++ 125 :: rest = 34 :: r) as (r & Heq).
    { destruct o; simpl; eauto. }
    rewrite Heq. cbn [Z.eqb Pos.eqb]. rewrite <- Heq.
    rewrite (scan_members_dumps (kv :: o)); [done|done| |done|done|done].
    apply Forall_forall. intros y Hy. eapply Forall_forall in IH; [|done].
    apply IH. by eapply Forall_forall in Hwf as [_ ?].
Qed.

Lemma need_dumps v : json_wf v → (need v ≤ 2 * length (dumps ea v))%nat.
Proof.
  assert (∀ (ws : list pystr) sep, (length (join_on sep ws) + 1 ≥
    foldr (λ w n, S (length w + n)) 0 ws)%nat) as Hjoin.
  { intros ws sep. induction ws as [|w [|w' ws] IH]; simpl in *; [lia|lia|].
    rewrite length_app. simpl. lia. }
  induction v as [| | | | |l IH|o IH] using json_rect_nested; intros Hwf; try (simpl; lia).
  - destruct b; vm_compute; lia.
  - simpl. destruct (str_of_Z_start z) as (c & r & -> & _). simpl. lia.
  - done.
  - apply json_wf_list in Hwf. cbn [dumps need length]. rewrite length_app. simpl length.
    pose proof (Hjoin (map (dumps ea) l) (chr ",")) as Hj.
    cut (foldr (λ x n, S (need x + n)) 0 l ≤ 2 * foldr (λ w n, S (length w + n)) 0
      (map (dumps ea) l))%nat; [lia|]. clear Hj.
    induction Hwf as [|x l Hx Hwf IHl]; simpl; [lia|].
    apply Forall_cons in IH as [Hneed IH]. specialize (Hneed Hx). specialize (IHl IH). lia.
  - apply json_wf_obj in Hwf as [_ Hwf]. rewrite dumps_obj.
    cbn [need]. rewrite <- (need_items_perm _ _ (sorted_by_perm fst o)).
    rewrite <- (sorted_by_perm fst o) in IH, Hwf.
    generalize dependent (sorted_by (fst : pystr * json → pystr) o). clear o. intros o IH Hwf.
    cbn [length]. rewrite length_app. simpl length.
    pose proof (Hjoin (map dump_member o) (chr ",")) as Hj.
    cut (foldr (λ kv n, S (need kv.2 + n)) 0 o ≤ 2 * foldr (λ w n, S (length w + n)) 0
      (map dump_member o))%nat; [lia|]. clear Hj.
    induction Hwf as [|kv o [_ Hkv] Hwf IHo]; [simpl; lia|]. cbn [map foldr].
    apply Forall_cons in IH as [Hneed IH]. specialize (Hneed Hkv). specialize (IHo IH).
    assert (length (dumps ea kv.2) ≤ length (dump_member kv))%nat
      by (unfold dump_member; rewrite length_app; simpl; lia).
    lia.
Qed.

(** [json.loads(json.dumps(v))] is [v] with its keys in order. *)
Lemma loads_dumps v : json_wf v → loads (dumps ea v) = Ok (canon v).
Proof.
  intros Hwf. unfold loads.
  pose proof (need_dumps v Hwf) as Hneed. pose proof (dumps_start v Hwf) as Hstart.
  pose proof (skip_ws_start _ [] Hstart) as Hskip. rewrite app_nil_r in Hskip. rewrite Hskip.
  pose proof (scan_dumps v Hwf (S (2 * length (dumps ea v))) [] ltac:(lia) I) as Hs.
  rewrite app_nil_r in Hs. by rewrite Hs.
Qed.
End roundtrip.

(** ** The text of a document *)

Lemma ascii_text s : Forall (λ c, 0 ≤ c < 128) s → text_ok s.
Proof.
  intros Hs. eapply Forall_impl; [exact Hs|]. intros c Hc. simpl in Hc.
  unfold is_scalar, is_code_point, is_surrogate. lia.
Qed.

Lemma str_ascii s : Forall (λ c, 0 ≤ c < 256) (str s).
Proof.
  induction s as [|a s IH]; [constructor|]. change (str (String a s)) with
    (Z.of_N (Ascii.N_of_ascii a) :: str s). constructor; [|done].
  pose proof (Ascii.N_ascii_bounded a). lia.
Qed.

Lemma str_text s : text_ok (str s).
Proof.
  eapply Forall_impl; [apply str_ascii|]. intros c Hc. simpl in Hc.
  unfold is_scalar, is_code_point, is_surrogate. lia.
Qed.

Lemma format_padded_ascii base width n : 2 ≤ base ≤ 16 → 0 ≤ n →
  Forall (λ c, 0 ≤ c < 128) (format_padded base width n).
Proof.
  intros Hb Hn. unfold format_padded. apply Forall_app. split.
  - unfold repeatZ. apply Forall_replicate. done.
  - rewrite Forall_fmap. eapply Forall_impl; [apply digits_bound; lia|].
    intros d Hd. simpl in Hd. pose proof (hex_digit_facts d ltac:(lia)). simpl. lia.
Qed.

Lemma escape_char_text ea c : is_scalar c → text_ok (escape_char ea c).
Proof.
  intros Hc. pose proof Hc as [Hcp Hs]. unfold is_code_point in Hcp. unfold escape_char.
  assert (∀ n, 0 ≤ n → text_ok (u_escape n)) as Hu.
  { intros n Hn. unfold u_escape. apply Forall_app. split; [apply str_text|].
    apply ascii_text, format_padded_ascii; lia. }
  repeat match goal with |- text_ok (if ?b then _ else _) => destruct b eqn:?; try apply str_text end;
    first [apply Hu; lia | by repeat constructor | by apply Forall_singleton | idtac].
  apply Forall_app. split; apply Hu; lia.
Qed.

Lemma dump_string_text ea s : text_ok s → text_ok (dump_string ea s).
Proof.
  intros Hs. unfold dump_string. constructor; [done|]. apply Forall_app. split; [|by repeat constructor].
  induction Hs as [|c s Hc Hs IH]; [constructor|]. rewrite fmap_cons. cbn [concat].
  apply Forall_app. split; [by apply escape_char_text|done].
Qed.

Lemma join_on_text sep ws : is_scalar sep → Forall text_ok ws → text_ok (join_on sep ws).
Proof.
  intros Hsep. induction 1 as [|w ws Hw Hws IH]; [constructor|].
  destruct ws as [|w' ws]; [done|]. change (join_on sep (w :: w' :: ws)) with
    (w ++ sep :: join_on sep (w' :: ws)). apply Forall_app. split; [done|]. by constructor.
Qed.

Lemma dumps_text `{PyEnv} ea v : json_wf v → text_ok (dumps ea v).
Proof.
  induction v as [| | | | |l IH|o IH] using json_rect_nested; intros Hwf.
  - apply str_text.
  - destruct b; apply str_text.
  - apply ascii_text, str_of_Z_ascii.
  - done.
  - by apply dump_string_text.
  - apply json_wf_list in Hwf. cbn [dumps]. constructor; [done|]. apply Forall_app.
    split; [|by repeat constructor]. apply join_on_text; [done|]. apply Forall_map.
    rewrite Forall_forall in *. intros x Hx. apply IH; [done|by apply Hwf].
  - apply json_wf_obj in Hwf as [_ Hwf]. rewrite dumps_obj. constructor; [done|].
    apply Forall_app. split; [|by repeat constructor]. apply join_on_text; [done|].
    rewrite <- (sorted_by_perm fst o) in IH, Hwf. apply Forall_map.
    rewrite Forall_forall in *. intros kv Hkv. apply Forall_app. split.
    + by apply dump_string_text, Hwf.
    + constructor; [done|]. by apply IH; [|apply Hwf].
Qed.

(** ** Looking up keys of a canonical document *)

Lemma dict_get_elem k v o : NoDup (keys o) → dict_get k o = Some v ↔ (k, v) ∈ o.
Proof.
  unfold keys. induction o as [|[k' v'] o IH]; simpl; intros Hnd.
  - split; [done|]. by intros ?%elem_of_nil.
  - apply NoDup_cons in Hnd as [Hk' Hnd]. rewrite elem_of_cons. destruct (decide (k = k')) as [->|Hne].
    + split; [intros [= ->]; by left|]. intros [[= ->]|Hin]; [done|].
      exfalso. apply Hk'. apply list_elem_of_fmap. by exists (k', v).
    + rewrite IH by done. split; [by right|]. intros [[= -> ->]|]; done.
Qed.

Lemma dict_get_canon k o : NoDup (keys o) →
  dict_get k (map (λ kv, (kv.1, canon kv.2)) (sorted_by fst o)) = canon <$> dict_get k o.
Proof.
  intros Hnd. pose proof (sorted_by_perm fst o) as Hp.
  assert (∀ o, dict_get k (map (λ kv, (kv.1, canon kv.2)) o) = canon <$> dict_get k o) as Hmap.
  { clear. induction o as [|[k' v] o IH]; simpl; [done|]. by destruct (decide (k = k')). }
  rewrite Hmap. f_equal. apply option_eq. intros v.
  rewrite !dict_get_elem; [by rewrite Hp|done|]. unfold keys. by rewrite Hp.
Qed.

Lemma keys_canon o : keys (map (λ kv, (kv.1, canon kv.2)) (sorted_by fst o)) ≡ₚ keys o.
Proof.
  unfold keys. rewrite <- (sorted_by_perm fst o) at 2. generalize (sorted_by fst o).
  induction l as [|kv l IH]; simpl; [done|]. by rewrite IH.
Qed.

Lemma keys_are_perm o o' expected : keys o ≡ₚ keys o' → keys_are o expected = keys_are o' expected.
Proof.
  intros Hp. unfold keys_are. f_equal.
  - apply eq_bool_prop_intro. rewrite !Is_true_true, !forallb_forall.
    setoid_rewrite <- list_elem_of_In. by setoid_rewrite Hp.
  - induction (str <$> expected) as [|k l IH]; simpl; [done|]. rewrite IH. f_equal.
    apply bool_decide_ext. by rewrite Hp.
Qed.

Lemma keys_are_intro o expected : keys o = str <$> expected → keys_are o expected = true.
Proof.
  intros Heq. unfold keys_are. rewrite Heq. apply andb_true_iff.
  split; apply forallb_forall; intros k Hk%list_elem_of_In; by apply bool_decide_eq_true.
Qed.

Lemma dict_get_here k v o : dict_get k ((k, v) :: o) = Some v.
Proof. simpl. by rewrite decide_True. Qed.

Lemma dict_get_there k k' v o : k ≠ k' → dict_get k ((k', v) :: o) = dict_get k o.
Proof. intros Hk. simpl. by rewrite decide_False. Qed.

Lemma map_canon_fix {A} (f : A → json) l :
  (∀ x, canon (f x) = f x) → map canon (f <$> l) = f <$> l.
Proof. intros Hf. induction l as [|x l IH]; [done|]. rewrite fmap_cons. cbn [map]. by rewrite Hf, IH. Qed.

(** Look up a literal key in a literal object. *)
Ltac dict_simpl :=
  repeat first
    [ rewrite dict_get_here
    | rewrite dict_get_there
        by (let Hk := fresh in intros Hk; vm_compute in Hk; discriminate Hk) ].

(** Distinctness of literal keys. *)
Ltac solve_keys := apply (bool_decide_unpack _); vm_compute; exact I.

(** Well-formedness of a literal object, one goal per value. *)
Ltac wf_obj :=
  apply json_wf_obj; split; [solve_keys|];
  repeat (apply Forall_cons_2; [split; [apply str_text|cbn [snd]]|]); try apply Forall_nil_2;
  try exact I; try apply str_text.

(** ** Integer fields *)

Lemma canonical_int_ok `{PyEnv} z label : 0 ≤ z →
  canonical_nonnegative_int (JInt z) label = Ok z.
Proof.
  intros Hz. unfold canonical_nonnegative_int. simpl. rewrite py_int_str_of_Z. simpl.
  rewrite (proj2 (Z.ltb_ge z 0)) by lia. by rewrite bool_decide_true.
Qed.

Lemma canonical_int_inv `{PyEnv} v label z : canonical_nonnegative_int v label = Ok z →
  0 ≤ z ∧ py_str v = str_of_Z z.
Proof.
  unfold canonical_nonnegative_int. intros Hv. inv_ok Hv. subst. bool_prop. split; [lia|done].
Qed.

Lemma canonical_int_raises `{PyEnv} v label :
  raises_only is_value_error (canonical_nonnegative_int v label).
Proof.
  unfold canonical_nonnegative_int. walk_exceptions.
  by apply raises_only_try; [apply py_int_raises|].
Qed.

#[export] Hint Resolve canonical_int_raises : exceptions.

(** ** Documents

    A document type is printed as a payload and rebuilt from a decoded payload;
    its law says that a valid value survives the trip.  The byte and text round
    trips follow from the law alone. *)
Class JsonDocument `{PyEnv} (T : Type) := {
  doc_payload : T → json;
  doc_of_payload : json → result T;
  doc_valid : T → Prop;
  doc_payload_wf x : doc_valid x → json_wf (doc_payload x);
  doc_law x : doc_valid x → doc_of_payload (canon (doc_payload x)) = Ok x;
}.

Section documents.
Context `{PyEnv} {T : Type} `{!JsonDocument T}.

Lemma document_text_roundtrip ea x : doc_valid x →
  (v ← loads (dumps ea (doc_payload x)); doc_of_payload v) = Ok x.
Proof.
  intros Hx. rewrite loads_dumps by by apply doc_payload_wf. by apply doc_law.
Qed.

Lemma document_bytes_roundtrip ea x : doc_valid x →
  ∃ bs, utf8_encode (dumps ea (doc_payload x)) = Ok bs ∧
    (s ← utf8_decode bs; v ← loads s; doc_of_payload v) = Ok x.
Proof.
  intros Hx. pose proof (dumps_text ea _ (doc_payload_wf x Hx)) as Ht.
  destruct (utf8_encode_ok _ Ht) as [bs Hbs]. exists bs. split; [done|].
  rewrite (utf8_roundtrip _ _ (Forall_impl _ _ _ Ht (λ c Hc, proj1 Hc)) Hbs).
  by apply document_text_roundtrip.
Qed.
End documents.
