(* ===== verification/WriteSegments.v ===== *)
(** * Write-segment planning

    [riverhog_core/write_segments.py]: the mapping of immutable archive parts
    to the write segments a storage adapter accepts, with the constraints
    record of [riverhog_core/ports/archive_objects.py].  The specification
    [segmentation] says what a legal subdivision of one part is;
    [segment_sizes_complete] shows that the planner finds one exactly when one
    exists, and with as few segments as possible. *)

From S2P Require Import Prelude.

Record ResumableWriteConstraints := {
  minimum_nonfinal_segment_bytes : Z;
  maximum_segment_bytes : option Z;
  maximum_segment_count : option Z;
}.

Record WriteSegmentPlan := {
  ws_number : Z;
  ws_archive_part_number : Z;
  ws_archive_part_offset : Z;
  ws_stored_bytes : Z;
}.

(** The loop that grows [sizes] in place: each segment accepts what it can of
    the remaining bytes. *)
Fixpoint grow_sizes (maximum : Z) (sizes : list Z) (remaining : Z) : list Z * Z :=
  match sizes with
  | [] => ([], remaining)
  | size :: rest =>
      let accepted := Z.min (maximum - size) remaining in
      let '(rest', remaining') := grow_sizes maximum rest (remaining - accepted) in
      ((size + accepted) :: rest', remaining')
  end.

Definition _segment_sizes (total minimum : Z) (maximum : option Z) (object_final : bool) :
    result (list Z) :=
  match maximum with
  | None =>
      when negb object_final && (total <? minimum)
        raise ValueError "authoritative object cannot satisfy adapter write-segment constraints";
      Ok [total]
  | Some maximum =>
      if total <=? maximum then
        when negb object_final && (total <? minimum)
          raise ValueError "authoritative object cannot satisfy adapter write-segment constraints";
        Ok [total]
      else
        let count := (total + maximum - 1) / maximum in
        let final_minimum := if object_final then 1 else minimum in
        let required := (count - 1) * minimum + final_minimum in
        when total <? required
          raise ValueError "authoritative object cannot satisfy adapter write-segment constraints";
        let sizes := repeatZ (count - 1) minimum ++ [final_minimum] in
        let remaining := total - required in
        let '(sizes, remaining) := grow_sizes maximum sizes remaining in
        when negb (remaining =? 0)
          raise ValueError "authoritative object cannot satisfy adapter write-segment constraints";
        Ok sizes
  end.

(** The inner loop over the sizes of one archive part. *)
Fixpoint append_segments (plans : list WriteSegmentPlan) (archive_index offset : Z)
    (sizes : list Z) : list WriteSegmentPlan :=
  match sizes with
  | [] => plans
  | size :: rest =>
      append_segments
        (plans ++ [{| ws_number := len plans + 1;
                      ws_archive_part_number := archive_index;
                      ws_archive_part_offset := offset;
                      ws_stored_bytes := size |}])
        archive_index (offset + size) rest
  end.

(** The loop over the archive parts, [archive_index] counting from 1. *)
Fixpoint plan_parts (minimum : Z) (maximum : option Z) (part_count : Z)
    (plans : list WriteSegmentPlan) (archive_index : Z) (parts : list Z) :
    result (list WriteSegmentPlan) :=
  match parts with
  | [] => Ok plans
  | total :: rest =>
      let object_final := archive_index =? part_count in
      sizes ← _segment_sizes total minimum maximum object_final;
      plan_parts minimum maximum part_count
        (append_segments plans archive_index 0 sizes) (archive_index + 1) rest
  end.

Definition plan_write_segments (archive_part_bytes : list Z)
    (constraints : ResumableWriteConstraints) : result (list WriteSegmentPlan) :=
  when match archive_part_bytes with [] => true | _ => false end
       || existsb (λ size, size <? 1) archive_part_bytes
    raise ValueError "archive parts must contain positive byte counts";
  let minimum := minimum_nonfinal_segment_bytes constraints in
  let maximum := maximum_segment_bytes constraints in
  when (minimum <? 1) || match maximum with Some m => m <? minimum | None => false end
    raise ValueError "adapter write constraints are invalid";
  plans ← plan_parts minimum maximum (len archive_part_bytes) [] 1 archive_part_bytes;
  when match maximum_segment_count constraints with
       | Some count => count <? len plans
       | None => false
       end
    raise ValueError "authoritative object exceeds the adapter write-segment count";
  Ok plans.

(** ** Specification *)

Definition within (maximum : option Z) (size : Z) : Prop :=
  match maximum with Some m => size ≤ m | None => True end.

(** A legal subdivision of [total] bytes: every segment fits the maximum, every
    segment but the last reaches the minimum, and the last one reaches it too
    unless it ends the object. *)
Definition segmentation (total minimum : Z) (maximum : option Z) (object_final : bool)
    (sizes : list Z) : Prop :=
  sumZ (λ s, s) sizes = total ∧ Forall (within maximum) sizes ∧
  ∃ init last, sizes = init ++ [last] ∧ Forall (λ s, minimum ≤ s) init ∧
    (if object_final then 1 else minimum) ≤ last.

(** The constraints [plan_write_segments] accepts. *)
Definition constraints_ok (minimum : Z) (maximum : option Z) : Prop :=
  1 ≤ minimum ∧ match maximum with Some m => minimum ≤ m | None => True end.

(** What a legal plan for an object is: segments numbered from 1 that tile each
    archive part in order. *)
Definition segments_of_part (plans : list WriteSegmentPlan) (part : Z) : list WriteSegmentPlan :=
  filter (λ p, ws_archive_part_number p = part) plans.

(** ** Growing the sizes *)

Lemma grow_sizes_spec maximum sizes remaining sizes' remaining' :
  grow_sizes maximum sizes remaining = (sizes', remaining') →
  Forall (λ s, s ≤ maximum) sizes → 0 ≤ remaining →
  sumZ (λ s, s) sizes' + remaining' = sumZ (λ s, s) sizes + remaining ∧
  Forall2 Z.le sizes sizes' ∧ Forall (λ s, s ≤ maximum) sizes' ∧
  remaining' = Z.max 0 (remaining - (maximum * len sizes - sumZ (λ s, s) sizes)).
Proof.
  revert remaining sizes' remaining'.
  induction sizes as [|size sizes IH]; intros remaining sizes' remaining' H Hmax Hr; simpl in H.
  - simplify_eq. unfold len. simpl. split_and!; try constructor; lia.
  - apply Forall_cons in Hmax as [Hsize Hmax].
    destruct (grow_sizes maximum sizes _) as [rest' r'] eqn:E. simplify_eq.
    apply IH in E as (Hsum & Hle & Hmax' & Hrem); [|done|lia].
    rewrite !sumZ_cons, len_cons. cbn beta.
    split_and!; [lia|constructor; [lia|done]|constructor; [lia|done]|].
    pose proof (sumZ_upper (λ s, s) maximum sizes Hmax). lia.
Qed.

Lemma Forall2_le_repeat (n m : Z) k l :
  Forall2 Z.le (repeatZ n m ++ [k]) l →
  ∃ init last, l = init ++ [last] ∧ Forall (λ s, m ≤ s) init ∧ k ≤ last.
Proof.
  intros H. apply Forall2_app_inv_l in H as (init & l2 & Hinit & Hl2 & ->).
  apply Forall2_cons_inv_l in Hl2 as (last & ? & Hk & Hnil & ->).
  apply Forall2_nil_inv_l in Hnil as ->. exists init, last. split_and!; try done.
  clear -Hinit. unfold repeatZ in Hinit. revert init Hinit.
  induction (Z.to_nat n); intros init H; simpl in H; inversion H; subst; constructor; auto.
Qed.

Lemma segmentation_lower total minimum maximum object_final sizes :
  segmentation total minimum maximum object_final sizes →
  (len sizes - 1) * minimum + (if object_final then 1 else minimum) ≤ total.
Proof.
  intros (<- & _ & init & last & -> & Hinit & Hlast).
  rewrite sumZ_app, len_app, len_cons, len_nil, sumZ_cons. simpl.
  pose proof (sumZ_lower (λ s, s) minimum init Hinit). lia.
Qed.

Lemma segmentation_upper total minimum maximum object_final sizes :
  segmentation total minimum (Some maximum) object_final sizes → total ≤ len sizes * maximum.
Proof.
  intros (<- & Hmax & _). pose proof (sumZ_upper (λ s, s) maximum sizes Hmax). lia.
Qed.

Lemma segmentation_nonempty total minimum maximum object_final sizes :
  segmentation total minimum maximum object_final sizes → 1 ≤ len sizes.
Proof. intros (_ & _ & init & last & -> & _). len_lia. Qed.

Lemma segmentation_singleton total minimum maximum (object_final : bool) :
  within maximum total → (if object_final then 1 else minimum) ≤ total →
  segmentation total minimum maximum object_final [total].
Proof.
  intros. split_and!; [unfold sumZ; simpl; lia|by repeat constructor|].
  exists (@nil Z), total. split_and!; [done|constructor|done].
Qed.

Lemma ceil_div_spec total m : 0 < m →
  let c := (total + m - 1) / m in total ≤ c * m ∧ ∀ n, total ≤ n * m → c ≤ n.
Proof.
  intros Hm c. subst c. split.
  - pose proof (Z.div_mod (total + m - 1) m ltac:(lia)).
    pose proof (Z.mod_pos_bound (total + m - 1) m Hm). lia.
  - intros n Hn. apply Z.lt_succ_r, Z.div_lt_upper_bound; lia.
Qed.

(** The branch that subdivides a part larger than the maximum. *)
Lemma segment_sizes_large total minimum m object_final :
  1 ≤ total → constraints_ok minimum (Some m) → m < total →
  match _segment_sizes total minimum (Some m) object_final with
  | Ok sizes => segmentation total minimum (Some m) object_final sizes ∧
      len sizes = (total + m - 1) / m
  | Err e => exn_class e = ValueError ∧
      total < ((total + m - 1) / m - 1) * minimum + (if object_final then 1 else minimum)
  end.
Proof.
  intros Ht [Hmin Hmax] Hlarge. unfold _segment_sizes.
  destruct (Z.leb_spec total m) as [|_]; [lia|].
  destruct (ceil_div_spec total m ltac:(lia)) as [Hup _].
  set (count := (total + m - 1) / m) in *.
  set (fm := if object_final then 1 else minimum).
  assert (1 ≤ fm ≤ m) as Hfm by (subst fm; destruct object_final; lia).
  assert (2 ≤ count) as Hcount by nia.
  destruct (Z.ltb_spec total ((count - 1) * minimum + fm)); [by split|].
  destruct (grow_sizes _ _ _) as [sizes r] eqn:E.
  assert (sumZ (λ s, s) (repeatZ (count - 1) minimum ++ [fm]) = (count - 1) * minimum + fm) as Hsum.
  { rewrite sumZ_app. unfold repeatZ. replace (count - 1) with (Z.of_nat (Z.to_nat (count - 1))) at 2
      by lia. induction (Z.to_nat (count - 1));  simpl in *; lia. }
  assert (len (repeatZ (count - 1) minimum ++ [fm]) = count) as Hlen.
  { rewrite len_app, len_repeatZ by lia. len_lia. }
  apply grow_sizes_spec in E as (Hs & Hle & Hm & Hr); [| |lia].
  2: { apply Forall_app. split; [|by repeat constructor; lia].
       apply Forall_replicate. lia. }
  rewrite Hsum, Hlen in *. assert (r = 0) as -> by nia. simpl. split.
  - split_and!; [lia|done|]. by eapply Forall2_le_repeat.
  - apply Forall2_length in Hle. unfold len in *. lia.
Qed.

Lemma segment_sizes_best total minimum maximum object_final :
  1 ≤ total → constraints_ok minimum maximum →
  match _segment_sizes total minimum maximum object_final with
  | Ok sizes => segmentation total minimum maximum object_final sizes ∧
      ∀ sizes', segmentation total minimum maximum object_final sizes' → len sizes ≤ len sizes'
  | Err e => exn_class e = ValueError ∧
      ∀ sizes, ¬ segmentation total minimum maximum object_final sizes
  end.
Proof.
  intros Ht Hc.
  assert (within maximum total →
    match (when negb object_final && (total <? minimum)
      raise ValueError "authoritative object cannot satisfy adapter write-segment constraints";
      Ok [total]) with
    | Ok sizes => segmentation total minimum maximum object_final sizes ∧
        ∀ sizes', segmentation total minimum maximum object_final sizes' → len sizes ≤ len sizes'
    | Err e => exn_class e = ValueError ∧
        ∀ sizes, ¬ segmentation total minimum maximum object_final sizes
    end) as Hsmall.
  { intros Hw. destruct (negb object_final && (total <? minimum)) eqn:E.
    - split; [done|]. intros sizes H. destruct object_final; [done|]. simpl in E.
      pose proof (segmentation_lower _ _ _ _ _ H). pose proof (segmentation_nonempty _ _ _ _ _ H).
      destruct Hc. simpl in *. nia.
    - split; [apply segmentation_singleton; [done|destruct object_final; simpl in E; lia]|].
      intros sizes' H. apply segmentation_nonempty in H. len_lia. }
  destruct maximum as [m|]; [|by apply Hsmall].
  destruct (Z.le_gt_cases total m) as [Hle|Hgt].
  { unfold _segment_sizes. destruct (Z.leb_spec total m); [by apply Hsmall|lia]. }
  pose proof (segment_sizes_large total minimum m object_final Ht Hc Hgt) as H.
  destruct (ceil_div_spec total m ltac:(destruct Hc; lia)) as [_ Hleast].
  destruct (_segment_sizes _ _ _ _) as [sizes|e].
  - destruct H as [Hseg ->]. split; [done|]. intros sizes' H'.
    eapply Hleast, segmentation_upper, H'.
  - destruct H as [He Hlt]. split; [done|]. intros sizes H'.
    pose proof (segmentation_lower _ _ _ _ _ H').
    pose proof (Hleast _ (segmentation_upper _ _ _ _ _ H')).
    destruct Hc. destruct object_final; nia.
Qed.

(** C33. [_segment_sizes] is sound, complete and frugal: on a positive part under
    valid adapter constraints it returns a legal segmentation of exactly the
    part's bytes, no legal segmentation has fewer segments, and it raises
    [ValueError] only when no legal segmentation exists at all. *)
Theorem segment_sizes_complete total minimum maximum object_final :
  1 ≤ total → constraints_ok minimum maximum →
  match _segment_sizes total minimum maximum object_final with
  | Ok sizes => segmentation total minimum maximum object_final sizes ∧
      ∀ sizes', segmentation total minimum maximum object_final sizes' → len sizes ≤ len sizes'
  | Err e => exn_class e = ValueError ∧
      ∀ sizes, ¬ segmentation total minimum maximum object_final sizes
  end.
Proof. apply segment_sizes_best. Qed.

Lemma segment_sizes_complete_witness :
  _segment_sizes 10 3 (Some 4) false = Ok [4; 3; 3] ∧
  match _segment_sizes 10 3 (Some 4) false with
  | Ok sizes => segmentation 10 3 (Some 4) false sizes ∧
      ∀ sizes', segmentation 10 3 (Some 4) false sizes' → len sizes ≤ len sizes'
  | Err e => exn_class e = ValueError ∧ ∀ sizes, ¬ segmentation 10 3 (Some 4) false sizes
  end.
Proof.
  split; [reflexivity|]. apply (segment_sizes_complete 10 3 (Some 4) false); [lia|].
  split; simpl; lia.
Defined.

(** ** Whole-object plans *)

(** The bytes a planned segment carries, given the contents of the archive parts. *)
Definition segment_bytes (contents : list pybytes) (p : WriteSegmentPlan) : pybytes :=
  slice (ws_archive_part_offset p) (ws_archive_part_offset p + ws_stored_bytes p)
    (nth (Z.to_nat (ws_archive_part_number p - 1)) contents []).

(** Every segment but the last reaches the adapter's minimum. *)
Definition nonfinal_reach (minimum : Z) (plans : list WriteSegmentPlan) : Prop :=
  ∀ init last, plans = init ++ [last] → Forall (λ p, minimum ≤ ws_stored_bytes p) init.

(** The segments of one part, as a list built front to back. *)
Fixpoint part_segments (number archive_index offset : Z) (sizes : list Z) :
    list WriteSegmentPlan :=
  match sizes with
  | [] => []
  | size :: rest =>
      {| ws_number := number + 1; ws_archive_part_number := archive_index;
         ws_archive_part_offset := offset; ws_stored_bytes := size |}
      :: part_segments (number + 1) archive_index (offset + size) rest
  end.

Lemma append_segments_eq plans archive_index offset sizes :
  append_segments plans archive_index offset sizes =
  plans ++ part_segments (len plans) archive_index offset sizes.
Proof.
  revert plans offset. induction sizes as [|size sizes IH]; intros plans offset; simpl.
  - by rewrite app_nil_r.
  - rewrite IH, <- app_assoc. simpl. repeat f_equal. len_lia.
Qed.

Lemma part_segments_stored number archive_index offset sizes :
  ws_stored_bytes <$> part_segments number archive_index offset sizes = sizes.
Proof. revert number offset. induction sizes; intros; simpl; f_equal; auto. Qed.

Lemma part_segments_Forall (P : Z → Prop) number archive_index offset sizes :
  Forall P sizes →
  Forall (λ p, P (ws_stored_bytes p)) (part_segments number archive_index offset sizes).
Proof.
  intros H. rewrite <- (part_segments_stored number archive_index offset sizes) in H.
  rewrite Forall_fmap in H. exact H.
Qed.

Lemma part_segments_number number archive_index offset sizes :
  ws_number <$> part_segments number archive_index offset sizes =
  seqZ (number + 1) (len sizes).
Proof.
  revert number offset. induction sizes as [|size sizes IH]; intros; simpl; [done|].
  rewrite len_cons, seqZ_cons by len_lia. simpl. f_equal.
  rewrite IH. f_equal; lia.
Qed.

Lemma len_part_segments number archive_index offset sizes :
  len (part_segments number archive_index offset sizes) = len sizes.
Proof.
  rewrite <- (part_segments_stored number archive_index offset sizes) at 2. by rewrite len_fmap.
Qed.

Lemma part_segments_bytes contents number archive_index offset sizes :
  Forall (λ s, 0 ≤ s) sizes → 0 ≤ offset →
  concat (segment_bytes contents <$> part_segments number archive_index offset sizes) =
  slice offset (offset + sumZ (λ s, s) sizes)
    (nth (Z.to_nat (archive_index - 1)) contents []).
Proof.
  revert number offset. induction sizes as [|size sizes IH]; intros number offset Hs Ho.
  - simpl. by rewrite Z.add_0_r, slice_empty.
  - apply Forall_cons in Hs as [Hsize Hs]. cbn [part_segments fmap list_fmap concat].
    rewrite IH by (done || lia). unfold segment_bytes. cbn.
    pose proof (sumZ_nonneg (λ s, s) sizes Hs). unfold sumZ in *.
    rewrite slice_app by lia. f_equal. lia.
Qed.

Lemma segment_sizes_positive total minimum maximum object_final sizes :
  1 ≤ minimum → segmentation total minimum maximum object_final sizes → Forall (λ s, 0 ≤ s) sizes.
Proof.
  intros Hmin (_ & _ & init & last & -> & Hinit & Hlast). apply Forall_app. split.
  - eapply Forall_impl; [exact Hinit|]. simpl. lia.
  - repeat constructor. destruct object_final; lia.
Qed.

Lemma nonfinal_reach_app minimum l k :
  k ≠ [] → Forall (λ p, minimum ≤ ws_stored_bytes p) l → nonfinal_reach minimum k →
  nonfinal_reach minimum (l ++ k).
Proof.
  intros Hk Hl Hreach init last Heq. destruct k as [|x k _] using rev_ind; [done|].
  rewrite app_assoc in Heq. apply app_inj_tail in Heq as [<- <-].
  apply Forall_app. split; [done|]. by eapply Hreach.
Qed.

Lemma segmentation_all_reach total minimum maximum sizes :
  segmentation total minimum maximum false sizes → Forall (λ s, minimum ≤ s) sizes.
Proof.
  intros (_ & _ & init & last & -> & Hinit & Hlast). apply Forall_app. auto.
Qed.

Lemma segmentation_reach total minimum maximum number archive_index offset sizes :
  segmentation total minimum maximum true sizes →
  nonfinal_reach minimum (part_segments number archive_index offset sizes).
Proof.
  intros (_ & _ & init & last & Heq & Hinit & Hlast) init' last' Heq'.
  apply (f_equal (fmap ws_stored_bytes)) in Heq'.
  rewrite part_segments_stored, fmap_app, Heq in Heq'.
  apply app_inj_tail in Heq' as [-> _]. rewrite Forall_fmap in Hinit. exact Hinit.
Qed.

(** The invariant of the loop over the archive parts. *)
Lemma plan_parts_spec minimum maximum plans archive_index parts plans' pre post :
  constraints_ok minimum maximum → Forall (λ s, 1 ≤ s) parts →
  plan_parts minimum maximum (archive_index - 1 + len parts) plans archive_index parts = Ok plans' →
  len pre = archive_index - 1 → len <$> post = parts →
  ∃ new, plans' = plans ++ new ∧
    concat (segment_bytes (pre ++ post) <$> new) = concat post ∧
    ws_number <$> new = seqZ (len plans + 1) (len new) ∧
    Forall (λ p, within maximum (ws_stored_bytes p)) new ∧
    nonfinal_reach minimum new ∧ (parts = [] ↔ new = []).
Proof.
  intros Hc. revert plans archive_index pre post.
  induction parts as [|total parts IH]; intros plans archive_index pre post Hpos H Hpre Hpost;
    simpl in H.
  - inv_ok H. subst. apply fmap_nil_inv in Hpost as ->. exists []. rewrite app_nil_r.
    split_and!; try done. by intros [] ?.
  - apply Forall_cons in Hpos as [Htotal Hpos].
    destruct post as [|c post]; [done|]. injection Hpost as Hc' Hpost. subst total.
    inv_ok H. rename a into sizes. rename E into Hsizes.
    pose proof (segment_sizes_best (len c) minimum maximum
      (archive_index =? archive_index - 1 + len (len c :: parts)) Htotal Hc) as Hseg.
    rewrite Hsizes in Hseg. destruct Hseg as [Hseg _].
    rewrite append_segments_eq in H.
    replace (archive_index - 1 + len (len c :: parts))
      with ((archive_index + 1) - 1 + len parts) in * by len_lia.
    apply (IH _ _ (pre ++ [c]) post) in H as (new & -> & Hbytes & Hnum & Hmax & Hreach & Hne);
      [|done|len_lia|done].
    exists (part_segments (len plans) archive_index 0 sizes ++ new).
    pose proof (segment_sizes_positive _ _ _ _ _ (proj1 Hc) Hseg) as Hnn.
    rewrite <- app_assoc in Hbytes. simpl in Hbytes.
    assert (nth (Z.to_nat (archive_index - 1)) (pre ++ c :: post) [] = c) as Hnth.
    { rewrite app_nth2 by (unfold len in *; lia).
      replace (Z.to_nat (archive_index - 1) - length pre)%nat with 0%nat
        by (unfold len in *; lia). done. }
    split_and!.
    + by rewrite app_assoc.
    + rewrite fmap_app, concat_app, Hbytes, part_segments_bytes, Hnth by (done || lia).
      simpl. f_equal. destruct Hseg as (-> & _). simpl. apply slice_full.
    + rewrite fmap_app, part_segments_number, Hnum, len_app, !len_app, !len_part_segments.
      rewrite seqZ_app by len_lia. do 2 f_equal. lia.
    + apply Forall_app. split; [|done]. apply part_segments_Forall. by destruct Hseg as (_ & ? & _).
    + destruct parts as [|p parts].
      * rewrite (proj1 Hne eq_refl), app_nil_r.
        eapply segmentation_reach.
        rewrite (proj2 (Z.eqb_eq _ _)) in Hseg; [exact Hseg|]. unfold len. cbn [length]. lia.
      * apply nonfinal_reach_app; [by intros ->; destruct Hne as [_ Hne]; discriminate Hne| |done].
        apply part_segments_Forall. eapply segmentation_all_reach.
        replace (archive_index =? _) with false in Hseg by len_lia. done.
    + split; [done|]. intros Hnil. apply app_nil in Hnil as [Hnil _].
      apply (f_equal len) in Hnil. rewrite len_part_segments in Hnil.
      apply segmentation_nonempty in Hseg. unfold len in *. simpl in Hnil. lia.
Qed.

Lemma plan_write_segments_spec parts constraints plans contents :
  plan_write_segments parts constraints = Ok plans →
  len <$> contents = parts →
  concat (segment_bytes contents <$> plans) = concat contents ∧
  ws_number <$> plans = seqZ 1 (len plans) ∧
  Forall (λ p, within (maximum_segment_bytes constraints) (ws_stored_bytes p)) plans ∧
  nonfinal_reach (minimum_nonfinal_segment_bytes constraints) plans ∧
  match maximum_segment_count constraints with Some n => len plans ≤ n | None => True end.
Proof.
  intros H Hcontents. unfold plan_write_segments in H. inv_ok H. subst a. bool_prop.
  rename H2 into Hpos, H into Hmin, H0 into Hmax.
  replace (len parts) with (1 - 1 + len parts) in E1 by lia.
  apply (plan_parts_spec _ _ _ _ _ _ [] contents) in E1
    as (new & Hnew & Hbytes & Hnum & Hwithin & Hreach & _); [| | |done|done].
  - simpl in *. subst new. split_and!; try done.
    destruct (maximum_segment_count constraints); [lia|done].
  - split; [lia|]. destruct (maximum_segment_bytes constraints); [lia|done].
  - apply Forall_forall. intros s Hs. apply not_true_iff_false in Hpos.
    destruct (Z.ltb_spec s 1); [|done]. exfalso. apply Hpos, existsb_exists.
    exists s. split; [by apply list_elem_of_In|lia].
Qed.

(** *** Segments lie inside their parts *)

Lemma segment_sizes_one total minimum maximum object_final sizes :
  1 ≤ minimum → segmentation total minimum maximum object_final sizes → Forall (λ s, 1 ≤ s) sizes.
Proof.
  intros Hmin (_ & _ & init & last & -> & Hinit & Hlast). apply Forall_app. split.
  - eapply Forall_impl; [exact Hinit|]. simpl. lia.
  - repeat constructor. destruct object_final; lia.
Qed.

Lemma part_segments_inside number archive_index offset sizes total :
  Forall (λ s, 1 ≤ s) sizes → 0 ≤ offset → offset + sumZ (λ s, s) sizes ≤ total →
  Forall (λ p, ws_archive_part_number p = archive_index ∧ 1 ≤ ws_stored_bytes p ∧ 0 ≤ ws_archive_part_offset p ∧
               ws_archive_part_offset p + ws_stored_bytes p ≤ total)
    (part_segments number archive_index offset sizes).
Proof.
  revert number offset. induction sizes as [|size sizes IH]; intros number offset Hs Ho Ht; [constructor|].
  apply Forall_cons in Hs as [Hsize Hs]. rewrite sumZ_cons in Ht. cbn [part_segments].
  assert (0 ≤ sumZ (λ s, s) sizes) as Hn by (apply sumZ_nonneg; eapply Forall_impl; [exact Hs|]; cbn; lia).
  constructor; [cbn; lia|]. apply IH; [done|lia|lia].
Qed.

Lemma plan_parts_inside minimum maximum count plans archive_index parts plans' :
  constraints_ok minimum maximum → Forall (λ s, 1 ≤ s) parts →
  plan_parts minimum maximum count plans archive_index parts = Ok plans' →
  ∃ new, plans' = plans ++ new ∧
    Forall (λ p, ∃ i total, parts !! i = Some total ∧ ws_archive_part_number p = archive_index + Z.of_nat i ∧
                 1 ≤ ws_stored_bytes p ∧ 0 ≤ ws_archive_part_offset p ∧
                 ws_archive_part_offset p + ws_stored_bytes p ≤ total) new.
Proof.
  intros Hc. revert plans archive_index. induction parts as [|total parts IH]; intros plans archive_index Hpos Hp.
  - injection Hp as <-. exists []. by rewrite app_nil_r.
  - apply Forall_cons in Hpos as [Htotal Hpos]. cbn [plan_parts] in Hp. apply bind_Ok in Hp as (sizes & Hsizes & Hp).
    pose proof (segment_sizes_best total minimum maximum (archive_index =? count) Htotal Hc) as Hseg.
    rewrite Hsizes in Hseg. destruct Hseg as [Hseg _]. rewrite append_segments_eq in Hp.
    apply IH in Hp as (new & -> & Hnew); [|done]. eexists. rewrite <- app_assoc. split; [done|]. apply Forall_app. split.
    + eapply Forall_impl; [apply (part_segments_inside _ _ 0 sizes total)|].
      * by eapply segment_sizes_one; [apply Hc|].
      * done.
      * destruct Hseg as (-> & _). lia.
      * intros p (Hn & Hs & Ho & Ht). exists 0%nat, total. split_and!; [done|lia|done|done|done].
    + eapply Forall_impl; [exact Hnew|]. intros p (i & t & Hi & Hn & Hs & Ho & Ht). exists (S i), t.
      split_and!; [done|lia|done|done|done].
Qed.

(** The arguments a successful call was given. *)
Lemma plan_write_segments_accepts parts constraints plans :
  plan_write_segments parts constraints = Ok plans →
  Forall (λ s, 1 ≤ s) parts ∧
  constraints_ok (minimum_nonfinal_segment_bytes constraints) (maximum_segment_bytes constraints).
Proof.
  unfold plan_write_segments. intros H. inv_ok H. bool_prop. split.
  - apply Forall_forall. intros s Hs. destruct (Z.ltb_spec s 1) as [Hlt|]; [|done]. exfalso.
    match goal with Hx : existsb _ _ = false |- _ => apply not_true_iff_false in Hx; apply Hx, existsb_exists end.
    exists s. split; [by apply list_elem_of_In|lia].
  - split; [lia|]. destruct (maximum_segment_bytes constraints); [lia|done].
Qed.

Lemma plan_segments_inside parts constraints plans :
  plan_write_segments parts constraints = Ok plans →
  Forall (λ p, ∃ i total, parts !! i = Some total ∧ ws_archive_part_number p = 1 + Z.of_nat i ∧
               1 ≤ ws_stored_bytes p ∧ 0 ≤ ws_archive_part_offset p ∧
               ws_archive_part_offset p + ws_stored_bytes p ≤ total) plans.
Proof.
  intros H. pose proof (plan_write_segments_accepts _ _ _ H) as (Hpos & Hc).
  unfold plan_write_segments in H. inv_ok H. subst.
  by apply plan_parts_inside in E1 as (new & -> & Hnew).
Qed.

(** *** Segments follow each other *)

(** The position of a segment in the object: the parts before its own, then its
    offset. *)
Definition segment_start (parts : list Z) (p : WriteSegmentPlan) : Z :=
  sumZ (λ s, s) (take (Z.to_nat (ws_archive_part_number p - 1)) parts) + ws_archive_part_offset p.

(** Each segment starts where the one before it ends, from [position] to the end
    of the object. *)
Fixpoint contiguous (parts : list Z) (position : Z) (plans : list WriteSegmentPlan) : Prop :=
  match plans with
  | [] => position = sumZ (λ s, s) parts
  | p :: rest => segment_start parts p = position ∧ contiguous parts (position + ws_stored_bytes p) rest
  end.

Lemma part_segments_contiguous parts number archive_index offset sizes rest :
  let before := sumZ (λ s, s) (take (Z.to_nat (archive_index - 1)) parts) in
  contiguous parts (before + offset + sumZ (λ s, s) sizes) rest →
  contiguous parts (before + offset) (part_segments number archive_index offset sizes ++ rest).
Proof.
  intros before. revert number offset. induction sizes as [|size sizes IH]; intros number offset H;
    [by rewrite Z.add_0_r in H|].
  rewrite sumZ_cons in H. cbn [part_segments app contiguous]. split; [done|].
  cbn [ws_stored_bytes]. rewrite <- Z.add_assoc. apply IH.
  replace (before + (offset + size) + sumZ (λ s, s) sizes)
    with (before + offset + (size + sumZ (λ s, s) sizes)) by lia. exact H.
Qed.

Lemma plan_parts_contiguous minimum maximum count plans archive_index pre parts plans' :
  constraints_ok minimum maximum → Forall (λ s, 1 ≤ s) parts → len pre = archive_index - 1 →
  plan_parts minimum maximum count plans archive_index parts = Ok plans' →
  ∃ new, plans' = plans ++ new ∧ contiguous (pre ++ parts) (sumZ (λ s, s) pre) new.
Proof.
  intros Hc. revert plans archive_index pre.
  induction parts as [|total parts IH]; intros plans archive_index pre Hpos Hpre Hp.
  - injection Hp as <-. exists []. rewrite !app_nil_r. done.
  - apply Forall_cons in Hpos as [Htotal Hpos]. cbn [plan_parts] in Hp. apply bind_Ok in Hp as (sizes & Hsizes & Hp).
    pose proof (segment_sizes_best total minimum maximum (archive_index =? count) Htotal Hc) as Hseg.
    rewrite Hsizes in Hseg. destruct Hseg as [(Hsum & _) _]. rewrite append_segments_eq in Hp.
    apply (IH _ _ (pre ++ [total])) in Hp as (new & -> & Hnew); [|done|len_lia].
    eexists. rewrite <- app_assoc. split; [done|]. rewrite <- app_assoc in Hnew. cbn [app] in Hnew.
    pose proof (part_segments_contiguous (pre ++ total :: parts) (len plans) archive_index 0 sizes new) as H. cbv zeta in H.
    rewrite take_app_length' in H by (unfold len in Hpre; lia). rewrite !Z.add_0_r, Hsum in H. apply H.
    rewrite sumZ_app in Hnew. unfold sumZ at 2 in Hnew. cbn [foldr] in Hnew. by rewrite Z.add_0_r in Hnew.
Qed.

Lemma plan_write_segments_contiguous parts constraints plans :
  plan_write_segments parts constraints = Ok plans → contiguous parts 0 plans.
Proof.
  intros H. pose proof (plan_write_segments_accepts _ _ _ H) as (Hpos & Hc).
  unfold plan_write_segments in H. inv_ok H. subst.
  by apply (plan_parts_contiguous _ _ _ _ _ []) in E1 as (new & -> & Hnew).
Qed.

Lemma plan_write_segments_contents parts constraints plans :
  plan_write_segments parts constraints = Ok plans →
  ∃ contents : list pybytes, len <$> contents = parts.
Proof.
  intros [Hpos _]%plan_write_segments_accepts. exists ((λ n, repeatZ n 0) <$> parts).
  rewrite <- list_fmap_compose. induction Hpos as [|n parts Hn Hpos IH]; [done|].
  rewrite fmap_cons, IH. unfold compose. by rewrite len_repeatZ by lia.
Qed.

(** C38. A successful plan tiles the object exactly and fits the adapter: the
    segments are numbered consecutively from 1; each lies inside the archive part
    it names, with at least one byte; each starts where the one before it ends,
    the first at byte 0 and the last ending with the object, so together they
    carry exactly the concatenated bytes of the archive parts; none exceeds the
    adapter's maximum; every one but the last reaches its minimum; and there are
    at most as many as the adapter allows. *)
Theorem plan_write_segments_exact parts constraints plans :
  plan_write_segments parts constraints = Ok plans →
  ws_number <$> plans = seqZ 1 (len plans) ∧
  Forall (λ p, ∃ i total, parts !! i = Some total ∧ ws_archive_part_number p = 1 + Z.of_nat i ∧
               1 ≤ ws_stored_bytes p ∧ 0 ≤ ws_archive_part_offset p ∧
               ws_archive_part_offset p + ws_stored_bytes p ≤ total) plans ∧
  contiguous parts 0 plans ∧
  (∀ contents, len <$> contents = parts →
     concat (segment_bytes contents <$> plans) = concat contents) ∧
  Forall (λ p, within (maximum_segment_bytes constraints) (ws_stored_bytes p)) plans ∧
  nonfinal_reach (minimum_nonfinal_segment_bytes constraints) plans ∧
  match maximum_segment_count constraints with Some n => len plans ≤ n | None => True end.
Proof.
  intros H. pose proof (plan_segments_inside _ _ _ H) as Hinside.
  pose proof (plan_write_segments_contiguous _ _ _ H) as Hcontiguous.
  destruct (plan_write_segments_contents _ _ _ H) as [example Hexample].
  destruct (plan_write_segments_spec _ _ _ _ H Hexample) as (_ & Hnum & Hmax & Hreach & Hcount).
  split_and!; try done. intros contents Hcontents.
  apply (plan_write_segments_spec _ _ _ _ H Hcontents).
Qed.

Definition example_constraints : ResumableWriteConstraints :=
  {| minimum_nonfinal_segment_bytes := 2; maximum_segment_bytes := Some 3;
     maximum_segment_count := Some 4 |}.

Lemma plan_write_segments_exact_witness :
  ∃ plans, plan_write_segments [5; 4] example_constraints = Ok plans ∧
  len plans = 4 ∧ contiguous [5; 4] 0 plans ∧
  concat (segment_bytes [[10; 11; 12; 13; 14]; [20; 21; 22; 23]] <$> plans) =
    [10; 11; 12; 13; 14; 20; 21; 22; 23].
Proof.
  eexists. split; [vm_compute; reflexivity|]. split; [reflexivity|].
  refine (match plan_write_segments_exact [5; 4] example_constraints _ _ with
          | conj _ (conj _ (conj Hc (conj Hb _))) => conj Hc (Hb [[10; 11; 12; 13; 14]; [20; 21; 22; 23]] _)
          end); vm_compute; reflexivity.
Defined.
