(* ===== verification/Fips180.v ===== *)
(** * SHA-256 as FIPS 180-4 defines it

    The standard's own definition, written from the standard and not from
    [riverhog_core/checkpoint_sha256.py]: word operations as arithmetic modulo
    2^32 on integers, the round constants and the initial hash value computed
    from the fractional parts of the cube and square roots of the first primes,
    the message schedule as a growing prefix, the padding by its congruence.
    [Sha256] proves the program equal to it. *)

From S2P Require Import Prelude Text.

Definition is_word (w : Z) : Prop := 0 ≤ w < 2 ^ 32.

(** ** Functions on 32-bit words (2.2.2, 4.1.2) *)

Definition ROTR (n x : Z) : Z := x / 2 ^ n + x mod 2 ^ n * 2 ^ (32 - n).
Definition SHR (n x : Z) : Z := x / 2 ^ n.
Definition Ch (x y z : Z) : Z := Z.lxor (Z.land x y) (Z.land (2 ^ 32 - 1 - x) z).
Definition Maj (x y z : Z) : Z := Z.lxor (Z.lxor (Z.land x y) (Z.land x z)) (Z.land y z).
Definition Sigma0 (x : Z) : Z := Z.lxor (Z.lxor (ROTR 2 x) (ROTR 13 x)) (ROTR 22 x).
Definition Sigma1 (x : Z) : Z := Z.lxor (Z.lxor (ROTR 6 x) (ROTR 11 x)) (ROTR 25 x).
Definition sigma0 (x : Z) : Z := Z.lxor (Z.lxor (ROTR 7 x) (ROTR 18 x)) (SHR 3 x).
Definition sigma1 (x : Z) : Z := Z.lxor (Z.lxor (ROTR 17 x) (ROTR 19 x)) (SHR 10 x).

(** ** Constants (4.2.2, 5.3.3) *)

Definition is_prime (p : nat) : bool :=
  (2 <=? p)%nat && forallb (λ d, negb (p mod d =? 0)%nat) (seq 2 (p - 2)).

(** The first 64 primes: those below 312. *)
Definition first_primes : list Z :=
  Z.of_nat <$> List.filter is_prime (seq 0 312).

(** The integer cube root, from the highest of [bits] binary digits down. *)
Fixpoint cube_root (bits : nat) (root n : Z) : Z :=
  match bits with
  | O => root
  | S b =>
      let next := root + 2 ^ Z.of_nat b in
      cube_root b (if next ^ 3 <=? n then next else root) n
  end.

(** The first 32 bits of the fractional part of the cube root of [p]. *)
Definition cube_fraction (p : Z) : Z := cube_root 40 0 (p * 2 ^ 96) mod 2 ^ 32.

(** The first 32 bits of the fractional part of the square root of [p]. *)
Definition square_fraction (p : Z) : Z := Z.sqrt (p * 2 ^ 64) mod 2 ^ 32.

Definition round_constants : list Z := cube_fraction <$> first_primes.
Definition initial_hash_value : list Z := square_fraction <$> take 8 first_primes.

(** ** Hash computation (6.2) *)

(** The [t]-th word of a block, most significant byte first. *)
Definition block_word (block : pybytes) (t : nat) : Z :=
  nth (4 * t) block 0 * 2 ^ 24 + nth (4 * t + 1) block 0 * 2 ^ 16
  + nth (4 * t + 2) block 0 * 2 ^ 8 + nth (4 * t + 3) block 0.

(** W_0 ... W_(n-1). *)
Fixpoint schedule_prefix (block : pybytes) (n : nat) : list Z :=
  match n with
  | O => []
  | S t =>
      let W := schedule_prefix block t in
      W ++ [if (t <? 16)%nat then block_word block t
            else (sigma1 (nth (t - 2) W 0) + nth (t - 7) W 0
                  + sigma0 (nth (t - 15) W 0) + nth (t - 16) W 0) mod 2 ^ 32]
  end.

Record variables := Vars { va : Z; vb : Z; vc : Z; vd : Z; ve : Z; vf : Z; vg : Z; vh : Z }.

Definition round (W : list Z) (v : variables) (t : nat) : variables :=
  let T1 := (vh v + Sigma1 (ve v) + Ch (ve v) (vf v) (vg v)
             + nth t round_constants 0 + nth t W 0) mod 2 ^ 32 in
  let T2 := (Sigma0 (va v) + Maj (va v) (vb v) (vc v)) mod 2 ^ 32 in
  {| va := (T1 + T2) mod 2 ^ 32; vb := va v; vc := vb v; vd := vc v;
     ve := (vd v + T1) mod 2 ^ 32; vf := ve v; vg := vf v; vh := vg v |}.

Definition load_variables (H : list Z) : variables :=
  Vars (nth 0 H 0) (nth 1 H 0) (nth 2 H 0) (nth 3 H 0)
       (nth 4 H 0) (nth 5 H 0) (nth 6 H 0) (nth 7 H 0).

Definition words_of (v : variables) : list Z :=
  [va v; vb v; vc v; vd v; ve v; vf v; vg v; vh v].

(** The intermediate hash value after one more block. *)
Definition hash_block (H : list Z) (block : pybytes) : list Z :=
  zip_with (λ x y, (x + y) mod 2 ^ 32)
    H (words_of (foldl (round (schedule_prefix block 64)) (load_variables H) (seq 0 64))).

(** ** Preprocessing (5.1.1, 5.2.1) *)

(** [l + 1 + k = 448 mod 512] in bits, with the one bit and the first seven zero
    bits in the byte 0x80. *)
Definition padding_zeros (m : pybytes) : Z := (448 - (8 * len m + 8)) mod 512 / 8.

Definition padded (m : pybytes) : pybytes :=
  m ++ [0x80] ++ repeatZ (padding_zeros m) 0 ++ be_bytes 8 (8 * len m).

Definition blocks (m : pybytes) : list pybytes :=
  (λ i, take 64 (drop (64 * i) m)) <$> seq 0 (length m / 64).

(** The digest of a message of bytes. *)
Definition fips_sha256 (m : pybytes) : pybytes :=
  concat (be_bytes 4 <$> foldl hash_block initial_hash_value (blocks (padded m))).

(** ** Adequacy of the constants *)

(** [cube_root] is the integer cube root. *)
Lemma cube_root_spec bits root n : 0 ≤ root → root ^ 3 ≤ n < (root + 2 ^ Z.of_nat bits) ^ 3 →
  let r := cube_root bits root n in 0 ≤ r ∧ r ^ 3 ≤ n < (r + 1) ^ 3.
Proof.
  revert root. induction bits as [|b IH]; intros root H0 Hn; cbn [cube_root]; [done|].
  rewrite Nat2Z.inj_succ, Z.pow_succ_r in Hn by lia.
  assert (0 < 2 ^ Z.of_nat b) as Hb by (apply Z.pow_pos_nonneg; lia).
  case (Z.leb_spec ((root + 2 ^ Z.of_nat b) ^ 3) n) as [Hle|Hgt]; apply IH; try lia.
Qed.

Lemma first_primes_length : length first_primes = 64%nat.
Proof. vm_compute. reflexivity. Qed.

(** The test vector of the standard for the message "abc". *)
Example fips_abc :
  bytes_hex (fips_sha256 (str "abc")) =
    str "ba7816bf8f01cfea414140de5dae2223b00361a396177a9cb410ff61f20015ad".
Proof. vm_compute. reflexivity. Qed.

#[global] Arguments hash_block : simpl never.
#[global] Opaque first_primes.
