(* ===== verification/Sha256.v ===== *)
(** * Checkpointed SHA-256

    [riverhog_core/checkpoint_sha256.py]: the pure-Python SHA-256 whose state
    the server persists between bounded work steps.  The function
    [sha256] pads the whole message and folds the compression function over its
    blocks; it also stands for [hashlib.sha256].  The theorems show that it is
    the function FIPS 180-4 defines ([Fips180]), that the incremental object
    computes it however the input is cut into chunks, and that an exported state
    restores exactly. *)

From S2P Require Import Prelude Text Json Fips180.

Definition _MASK : Z := 0xFFFFFFFF.

Definition _K : list Z :=
  [0x428A2F98; 0x71374491; 0xB5C0FBCF; 0xE9B5DBA5; 0x3956C25B; 0x59F111F1; 0x923F82A4; 0xAB1C5ED5;
   0xD807AA98; 0x12835B01; 0x243185BE; 0x550C7DC3; 0x72BE5D74; 0x80DEB1FE; 0x9BDC06A7; 0xC19BF174;
   0xE49B69C1; 0xEFBE4786; 0x0FC19DC6; 0x240CA1CC; 0x2DE92C6F; 0x4A7484AA; 0x5CB0A9DC; 0x76F988DA;
   0x983E5152; 0xA831C66D; 0xB00327C8; 0xBF597FC7; 0xC6E00BF3; 0xD5A79147; 0x06CA6351; 0x14292967;
   0x27B70A85; 0x2E1B2138; 0x4D2C6DFC; 0x53380D13; 0x650A7354; 0x766A0ABB; 0x81C2C92E; 0x92722C85;
   0xA2BFE8A1; 0xA81A664B; 0xC24B8B70; 0xC76C51A3; 0xD192E819; 0xD6990624; 0xF40E3585; 0x106AA070;
   0x19A4C116; 0x1E376C08; 0x2748774C; 0x34B0BCB5; 0x391C0CB3; 0x4ED8AA4A; 0x5B9CCA4F; 0x682E6FF3;
   0x748F82EE; 0x78A5636F; 0x84C87814; 0x8CC70208; 0x90BEFFFA; 0xA4506CEB; 0xBEF9A3F7; 0xC67178F2].

Definition _INITIAL : list Z :=
  [0x6A09E667; 0xBB67AE85; 0x3C6EF372; 0xA54FF53A; 0x510E527F; 0x9B05688C; 0x1F83D9AB; 0x5BE0CD19].

Definition _rotr (value count : Z) : Z :=
  Z.land (Z.lor (Z.shiftr value count) (Z.shiftl value (32 - count))) _MASK.

Record CheckpointSHA256 := {
  _h : list Z;
  _buffer : pybytes;
  _total_bytes : Z;
}.

(** ** Compression *)

(** [schedule[0:16]]: the big-endian words of the block. *)
Definition schedule_load (block : pybytes) (schedule : list Z) (index : nat) : list Z :=
  let start := Z.of_nat index * 4 in
  <[index := from_bytes_big (slice start (start + 4) block)]> schedule.

(** [schedule[16:64]]: each word from four earlier ones. *)
Definition schedule_extend (schedule : list Z) (index : nat) : list Z :=
  let x := nth (index - 15) schedule 0 in
  let y := nth (index - 2) schedule 0 in
  let s0 := Z.lxor (Z.lxor (_rotr x 7) (_rotr x 18)) (Z.shiftr x 3) in
  let s1 := Z.lxor (Z.lxor (_rotr y 17) (_rotr y 19)) (Z.shiftr y 10) in
  <[index := Z.land (nth (index - 16) schedule 0 + s0 + nth (index - 7) schedule 0 + s1) _MASK]>
    schedule.

Definition message_schedule (block : pybytes) : list Z :=
  foldl schedule_extend (foldl (schedule_load block) (repeatZ 64 0) (seq 0 16)) (seq 16 48).

Definition working_variables : Type := Z * Z * Z * Z * Z * Z * Z * Z.

Definition compress_round (schedule : list Z) (v : working_variables) (index : nat) :
    working_variables :=
  let '(a, b, c, d, e, f, g, h) := v in
  let s1 := Z.lxor (Z.lxor (_rotr e 6) (_rotr e 11)) (_rotr e 25) in
  let choice := Z.lxor (Z.land e f) (Z.land (Z.lnot e) g) in
  let temp1 := Z.land (h + s1 + choice + nth index _K 0 + nth index schedule 0) _MASK in
  let s0 := Z.lxor (Z.lxor (_rotr a 2) (_rotr a 13)) (_rotr a 22) in
  let majority := Z.lxor (Z.lxor (Z.land a b) (Z.land a c)) (Z.land b c) in
  let temp2 := Z.land (s0 + majority) _MASK in
  (Z.land (temp1 + temp2) _MASK, a, b, c, Z.land (d + temp1) _MASK, e, f, g).

Definition compress_words (hs : list Z) (block : pybytes) : list Z :=
  let v0 := (nth 0 hs 0, nth 1 hs 0, nth 2 hs 0, nth 3 hs 0,
             nth 4 hs 0, nth 5 hs 0, nth 6 hs 0, nth 7 hs 0) in
  let '(a, b, c, d, e, f, g, h) :=
    foldl (compress_round (message_schedule block)) v0 (seq 0 64) in
  [Z.land (nth 0 hs 0 + a) _MASK; Z.land (nth 1 hs 0 + b) _MASK;
   Z.land (nth 2 hs 0 + c) _MASK; Z.land (nth 3 hs 0 + d) _MASK;
   Z.land (nth 4 hs 0 + e) _MASK; Z.land (nth 5 hs 0 + f) _MASK;
   Z.land (nth 6 hs 0 + g) _MASK; Z.land (nth 7 hs 0 + h) _MASK].

Definition _compress (hs : list Z) (block : pybytes) : result (list Z) :=
  when negb (len block =? 64) raise ValueError "SHA-256 compression block must be 64 bytes";
  when negb (len hs =? 8) raise ValueError "wrong number of values to unpack";
  Ok (compress_words hs block).

(** ** The hash object *)

(** [while len(self._buffer) >= 64]: the length of the buffer bounds the
    iterations. *)
Fixpoint absorb (fuel : nat) (hs : list Z) (buffer : pybytes) : result (list Z * pybytes) :=
  match fuel with
  | O => Ok (hs, buffer)
  | S fuel =>
      if 64 <=? len buffer then
        hs' ← _compress hs (take 64 buffer);
        absorb fuel hs' (drop 64 buffer)
      else Ok (hs, buffer)
  end.

Definition update (self : CheckpointSHA256) (data : pybytes) : result CheckpointSHA256 :=
  let total := _total_bytes self + len data in
  let buffer := _buffer self ++ data in
  '(hs, rest) ← absorb (length buffer) (_h self) buffer;
  Ok {| _h := hs; _buffer := rest; _total_bytes := total |}.

Definition initial_state : CheckpointSHA256 :=
  {| _h := _INITIAL; _buffer := []; _total_bytes := 0 |}.

(** [CheckpointSHA256(data)] *)
Definition new_sha256 (data : pybytes) : result CheckpointSHA256 := update initial_state data.

Definition copy (self : CheckpointSHA256) : CheckpointSHA256 :=
  {| _h := _h self; _buffer := _buffer self; _total_bytes := _total_bytes self |}.

(** [while len(clone._buffer) % 64 != 56: clone._buffer.append(0)] *)
Fixpoint pad_buffer (fuel : nat) (buffer : pybytes) : pybytes :=
  match fuel with
  | O => buffer
  | S fuel => if len buffer mod 64 =? 56 then buffer else pad_buffer fuel (buffer ++ [0])
  end.

(** [while clone._buffer: ...] *)
Fixpoint drain (fuel : nat) (hs : list Z) (buffer : pybytes) : result (list Z) :=
  match fuel, buffer with
  | _, [] => Ok hs
  | O, _ => Ok hs
  | S fuel, _ => hs' ← _compress hs (take 64 buffer); drain fuel hs' (drop 64 buffer)
  end.

Definition digest (self : CheckpointSHA256) : result pybytes :=
  let clone := copy self in
  let bit_length := _total_bytes clone * 8 in
  let buffer := pad_buffer 64 (_buffer clone ++ [0x80]) in
  length_field ← to_bytes_big 8 bit_length;
  let buffer := buffer ++ length_field in
  hs ← drain (length buffer) (_h clone) buffer;
  words ← mapM_result (to_bytes_big 4) hs;
  Ok (concat words).

Definition hexdigest (self : CheckpointSHA256) : result pystr :=
  d ← digest self; Ok (bytes_hex d).

(** ** Persisted state *)

Definition checkpoint_format : pystr := str "riverhog-private-sha256-checkpoint/v1".

Definition state_payload (self : CheckpointSHA256) : json :=
  JObj [(str "format", JStr checkpoint_format);
        (str "h", JList (JInt <$> _h self));
        (str "buffer_hex", JStr (bytes_hex (_buffer self)));
        (str "total_bytes", JInt (_total_bytes self))].

Definition export_state `{PyEnv} (self : CheckpointSHA256) : pystr :=
  dumps true (state_payload self).

Definition require_key (k : string) (o : list (pystr * json)) : result json :=
  match dict_get (str k) o with
  | Some v => Ok v
  | None => Err (Exn KeyError (str k))
  end.

(** The body of the [try] block, after [json.loads]. *)
Definition state_fields (payload : json) : result (json * pybytes * json) :=
  match payload with
  | JObj o =>
      when match dict_get (str "format") o with
           | Some (JStr s) => negb (bool_decide (s = checkpoint_format))
           | _ => true
           end
        raise ValueError "unsupported SHA-256 checkpoint format";
      h ← require_key "h" o;
      hex ← require_key "buffer_hex" o;
      buffer ← match hex with
               | JStr s => bytes_fromhex s
               | _ => Err (Exn TypeError (str "fromhex() argument must be str"))
               end;
      total_bytes ← require_key "total_bytes" o;
      Ok (h, buffer, total_bytes)
  | _ => Err (Exn AttributeError (str "object has no attribute 'get'"))
  end.

(** [except (KeyError, TypeError, ValueError, json.JSONDecodeError)] *)
Definition state_error (k : exn_kind) : bool :=
  match k with KeyError | TypeError => true | _ => is_value_error k end.

Definition word_value (v : json) : option Z :=
  match as_int v with
  | Some z => if (0 <=? z) && (z <=? _MASK) then Some z else None
  | None => None
  end.

Definition restore_fields (fields : json * pybytes * json) : result CheckpointSHA256 :=
  let '(h, buffer, total_bytes) := fields in
  match h, as_int total_bytes with
  | JList words, Some total =>
      match mapM word_value words with
      | Some hs =>
          when negb (len words =? 8) || (total <? 0) || (64 <=? len buffer)
               || negb (total mod 64 =? len buffer)
            raise ValueError "invalid SHA-256 checkpoint";
          Ok {| _h := hs; _buffer := buffer; _total_bytes := total |}
      | None => Err (Exn ValueError (str "invalid SHA-256 checkpoint"))
      end
  | _, _ => Err (Exn ValueError (str "invalid SHA-256 checkpoint"))
  end.

Definition restore_payload (payload : json) : result CheckpointSHA256 :=
  fields ← try_except (state_fields payload) state_error
             (λ _, Err (Exn ValueError (str "invalid SHA-256 checkpoint")));
  restore_fields fields.

Definition from_state (state : pystr) : result CheckpointSHA256 :=
  payload ← try_except (loads state) state_error
              (λ _, Err (Exn ValueError (str "invalid SHA-256 checkpoint")));
  restore_payload payload.

(** ** Reference function (FIPS 180-4) *)

Fixpoint hash_blocks (n : nat) (hs : list Z) (m : pybytes) : list Z :=
  match n with
  | O => hs
  | S n => hash_blocks n (compress_words hs (take 64 m)) (drop 64 m)
  end.

Definition pad_message (m : pybytes) : pybytes :=
  m ++ [0x80] ++ repeatZ ((55 - len m) mod 64) 0 ++ be_bytes 8 (len m * 8).

(** [hashlib.sha256(m).digest()] *)
Definition sha256 (m : pybytes) : pybytes :=
  concat (be_bytes 4 <$>
    hash_blocks (length (pad_message m) / 64) _INITIAL (pad_message m)).

(** [hashlib.sha256(m).hexdigest()] *)
Definition sha256_hex (m : pybytes) : pystr := bytes_hex (sha256 m).

(** The state of an object that has absorbed exactly [m]. *)
Definition state_of (m : pybytes) : CheckpointSHA256 :=
  {| _h := hash_blocks (length m / 64) _INITIAL m;
     _buffer := drop (64 * (length m / 64)) m;
     _total_bytes := len m |}.

(** Feeding a sequence of chunks. *)
Definition update_all (self : CheckpointSHA256) (chunks : list pybytes) :
    result CheckpointSHA256 := foldM update self chunks.

(** States the class accepts. *)
Definition state_wf (self : CheckpointSHA256) : Prop :=
  len (_h self) = 8 ∧ Forall (λ w, 0 ≤ w ≤ _MASK) (_h self) ∧
  bytes_ok (_buffer self) ∧ len (_buffer self) < 64 ∧
  0 ≤ _total_bytes self ∧ _total_bytes self mod 64 = len (_buffer self).

#[global] Arguments compress_words : simpl never.
#[global] Arguments hash_blocks : simpl nomatch.

Lemma land_mask_range x : 0 ≤ Z.land x _MASK ≤ _MASK.
Proof.
  change _MASK with (Z.ones 32). rewrite Z.land_ones by lia.
  change (Z.ones 32) with (2 ^ 32 - 1). pose proof (Z.mod_pos_bound x (2 ^ 32)). lia.
Qed.

Lemma compress_words_shape hs block :
  len (compress_words hs block) = 8 ∧ Forall (λ w, 0 ≤ w ≤ _MASK) (compress_words hs block).
Proof.
  unfold compress_words.
  destruct (foldl _ _ _) as [[[[[[[a b] c] d] e] f] g] h].
  split; [done|]. repeat constructor; apply land_mask_range.
Qed.

(** ** The compression function is the standard's *)

Lemma land_mask x : Z.land x _MASK = x mod 2 ^ 32.
Proof. change _MASK with (Z.ones 32). by rewrite Z.land_ones by lia. Qed.

Lemma lor_disjoint_add k a b : 0 ≤ k → 0 ≤ a < 2 ^ k → Z.lor a (Z.shiftl b k) = a + Z.shiftl b k.
Proof.
  intros Hk Ha. assert (Z.land a (Z.shiftl b k) = 0) as Hand.
  { apply Z.bits_inj'. intros i Hi. rewrite Z.land_spec, Z.bits_0.
    destruct (Z.ltb_spec i k).
    - by rewrite Z.shiftl_spec_low, andb_false_r.
    - rewrite <- (Z.mod_small a (2 ^ k)), Z.mod_pow2_bits_high by lia. done. }
  by rewrite <- Z.lxor_lor, <- Z.add_nocarry_lxor.
Qed.

Lemma rotr_ROTR x n : is_word x → 0 < n < 32 → _rotr x n = ROTR n x.
Proof.
  unfold is_word. intros Hx Hn. unfold _rotr, ROTR.
  assert (0 < 2 ^ n) by (apply Z.pow_pos_nonneg; lia).
  assert (0 < 2 ^ (32 - n)) by (apply Z.pow_pos_nonneg; lia).
  assert (2 ^ 32 = 2 ^ n * 2 ^ (32 - n)) as Hpow by (rewrite <- Z.pow_add_r by lia; f_equal; lia).
  assert (0 ≤ x / 2 ^ n < 2 ^ (32 - n)) as Hhigh.
  { split; [by apply Z.div_pos; lia|]. apply Z.div_lt_upper_bound; lia. }
  rewrite Z.shiftr_div_pow2, lor_disjoint_add, land_mask, Z.shiftl_mul_pow2 by lia.
  rewrite (Z.div_mod x (2 ^ n)) at 2 by lia.
  rewrite Z.mul_add_distr_r.
  replace (x / 2 ^ n + (2 ^ n * (x / 2 ^ n) * 2 ^ (32 - n) + x mod 2 ^ n * 2 ^ (32 - n)))
    with (x / 2 ^ n + x mod 2 ^ n * 2 ^ (32 - n) + x / 2 ^ n * 2 ^ 32) by (rewrite Hpow; ring).
  rewrite Z.mod_add by lia. apply Z.mod_small.
  pose proof (Z.mod_pos_bound x (2 ^ n)). nia.
Qed.

Lemma lnot_land_word e g : is_word e → is_word g →
  Z.land (Z.lnot e) g = Z.land (2 ^ 32 - 1 - e) g.
Proof.
  unfold is_word. intros He Hg. rewrite <- (Z.mod_small g (2 ^ 32)) by lia.
  rewrite <- (Z.land_ones g) by lia. rewrite (Z.land_comm g), !Z.land_assoc. f_equal.
  rewrite !Z.land_ones by lia. unfold Z.lnot.
  rewrite (Z.mod_small (_ - _)) by lia. replace (Z.pred (- e)) with (2 ^ 32 - 1 - e + -1 * 2 ^ 32) by lia.
  rewrite Z.mod_add by lia. apply Z.mod_small. lia.
Qed.

Lemma K_round_constants : _K = round_constants.
Proof. vm_compute. reflexivity. Qed.

Lemma INITIAL_initial_hash_value : _INITIAL = initial_hash_value.
Proof. vm_compute. reflexivity. Qed.

Lemma length_schedule_prefix block n : length (schedule_prefix block n) = n.
Proof. induction n as [|n IH]; [done|]. cbn [schedule_prefix]. rewrite length_app, IH. simpl. lia. Qed.

Lemma nth_is_word W t : Forall is_word W → is_word (nth t W 0).
Proof.
  intros HW. destruct (decide (t < length W)%nat) as [Ht|Ht].
  - eapply Forall_forall; [exact HW|]. apply list_elem_of_In. by apply nth_In.
  - rewrite nth_overflow by lia. unfold is_word. lia.
Qed.

Lemma block_word_is_word block t : bytes_ok block → is_word (block_word block t).
Proof.
  intros Hb. assert (∀ i, is_byte (nth i block 0)) as Hn.
  { intros i. destruct (decide (i < length block)%nat).
    - eapply Forall_forall; [exact Hb|]. apply list_elem_of_In. by apply nth_In.
    - rewrite nth_overflow by lia. unfold is_byte. lia. }
  unfold block_word, is_word. unfold is_byte in Hn.
  pose proof (Hn (4 * t)%nat). pose proof (Hn (4 * t + 1)%nat).
  pose proof (Hn (4 * t + 2)%nat). pose proof (Hn (4 * t + 3)%nat). lia.
Qed.

Lemma schedule_prefix_words block n : bytes_ok block → Forall is_word (schedule_prefix block n).
Proof.
  intros Hb. induction n as [|n IH]; cbn [schedule_prefix]; [constructor|].
  apply Forall_app_2; [exact IH|]. apply Forall_singleton.
  destruct (n <? 16)%nat; [by apply block_word_is_word|]. apply Z.mod_pos_bound. lia.
Qed.

Lemma slice_block_word block t : (4 * t + 4 ≤ length block)%nat →
  from_bytes_big (slice (Z.of_nat t * 4) (Z.of_nat t * 4 + 4) block) = block_word block t.
Proof.
  intros Ht. unfold slice, block_word.
  replace (Z.to_nat (Z.of_nat t * 4)) with (4 * t)%nat by lia.
  replace (Z.to_nat (Z.of_nat t * 4 + 4) - 4 * t)%nat with 4%nat by lia.
  assert (∀ i, nth (4 * t + i) block 0 = nth i (drop (4 * t) block) 0) as Hnth.
  { intros i. by rewrite !nth_lookup, lookup_drop. }
  pose proof (Hnth 0%nat) as Hnth0. rewrite Nat.add_0_r in Hnth0. rewrite Hnth0, !Hnth.
  assert (4 ≤ length (drop (4 * t) block))%nat as Hl by (rewrite length_drop; lia).
  destruct (drop (4 * t) block) as [|a [|b [|c [|d rest]]]]; simpl in Hl; try lia.
  cbn [take nth]. rewrite take_0. unfold from_bytes_big, of_digits. cbn [foldl]. lia.
Qed.

(** The array [schedule] after the first [n] words have been assigned. *)
Definition schedule_array (block : pybytes) (n : nat) : list Z :=
  schedule_prefix block n ++ replicate (64 - n) 0.

Lemma schedule_array_insert block n v : (n < 64)%nat →
  <[n := v]> (schedule_array block n) = (schedule_prefix block n ++ [v]) ++ replicate (64 - S n) 0.
Proof.
  intros Hn. unfold schedule_array. replace (64 - n)%nat with (S (64 - S n)) by lia.
  rewrite insert_app_r_alt by (rewrite length_schedule_prefix; lia).
  rewrite length_schedule_prefix, Nat.sub_diag. cbn [replicate]. by rewrite <- app_assoc.
Qed.

Lemma schedule_array_nth block n i : (i < n)%nat →
  nth i (schedule_array block n) 0 = nth i (schedule_prefix block n) 0.
Proof. intros Hi. unfold schedule_array. apply app_nth1. by rewrite length_schedule_prefix. Qed.

Lemma schedule_load_step block n : length block = 64%nat → (n < 16)%nat →
  schedule_load block (schedule_array block n) n = schedule_array block (S n).
Proof.
  intros Hb Hn. unfold schedule_load. rewrite slice_block_word, schedule_array_insert by lia.
  unfold schedule_array. cbn [schedule_prefix].
  by replace (n <? 16)%nat with true by (symmetry; apply Nat.ltb_lt; lia).
Qed.

Lemma schedule_extend_step block n : bytes_ok block → (16 ≤ n < 64)%nat →
  schedule_extend (schedule_array block n) n = schedule_array block (S n).
Proof.
  intros Hb Hn. unfold schedule_extend. rewrite !schedule_array_nth by lia.
  pose proof (schedule_prefix_words block n Hb) as HW.
  rewrite !rotr_ROTR by (lia || by apply nth_is_word).
  rewrite schedule_array_insert by lia. unfold schedule_array. cbn [schedule_prefix].
  replace (n <? 16)%nat with false by (symmetry; apply Nat.ltb_ge; lia).
  unfold sigma0, sigma1, SHR. rewrite land_mask, !Z.shiftr_div_pow2 by lia.
  do 4 f_equal. lia.
Qed.

Lemma foldl_steps {A} (step : A → nat → A) (state : nat → A) start n :
  (∀ i, (start ≤ i < start + n)%nat → step (state i) i = state (S i)) →
  foldl step (state start) (seq start n) = state (start + n)%nat.
Proof.
  revert start. induction n as [|n IH]; intros start Hstep; cbn [seq foldl]; [by rewrite Nat.add_0_r|].
  rewrite Hstep by lia. rewrite IH by (intros; apply Hstep; lia). f_equal. lia.
Qed.

(** [schedule] is the standard's message schedule. *)
Lemma message_schedule_fips block : bytes_ok block → length block = 64%nat →
  message_schedule block = schedule_prefix block 64.
Proof.
  intros Hb Hl. unfold message_schedule.
  change (repeatZ 64 0) with (schedule_array block 0).
  rewrite (foldl_steps _ (schedule_array block)) by (intros; apply schedule_load_step; lia).
  change (0 + 16)%nat with 16%nat.
  rewrite (foldl_steps _ (schedule_array block)) by (intros; apply schedule_extend_step; (done || lia)).
  unfold schedule_array. change (64 - (16 + 48))%nat with 0%nat. by rewrite app_nil_r.
Qed.

Definition variables_of (v : working_variables) : variables :=
  let '(a, b, c, d, e, f, g, h) := v in Vars a b c d e f g h.

Lemma round_words W v t : Forall is_word (words_of v) → Forall is_word (words_of (round W v t)).
Proof.
  unfold words_of. intros H. apply Forall_cons in H as [Ha H]. apply Forall_cons in H as [Hb H].
  apply Forall_cons in H as [Hc H]. apply Forall_cons in H as [Hd H].
  apply Forall_cons in H as [He H]. apply Forall_cons in H as [Hf H]. apply Forall_cons in H as [Hg _].
  cbn [round va vb vc vd ve vf vg vh].
  repeat apply Forall_cons_2; try done; apply Z.mod_pos_bound; lia.
Qed.

Lemma compress_round_fips W v t : Forall is_word (words_of (variables_of v)) →
  variables_of (compress_round W v t) = round W (variables_of v) t.
Proof.
  destruct v as [[[[[[[a b] c] d] e] f] g] h]. unfold words_of, variables_of.
  intros H. cbn [va vb vc vd ve vf vg vh] in H.
  apply Forall_cons in H as [Ha H]. apply Forall_cons in H as [Hb H].
  apply Forall_cons in H as [Hc H]. apply Forall_cons in H as [Hd H].
  apply Forall_cons in H as [He H]. apply Forall_cons in H as [Hf H]. apply Forall_cons in H as [Hg _].
  unfold compress_round, round. cbn [va vb vc vd ve vf vg vh].
  rewrite !rotr_ROTR, lnot_land_word, !land_mask, K_round_constants by (done || lia).
  reflexivity.
Qed.

Lemma compress_rounds_fips W v ts : Forall is_word (words_of (variables_of v)) →
  variables_of (foldl (compress_round W) v ts) = foldl (round W) (variables_of v) ts.
Proof.
  revert v. induction ts as [|t ts IH]; intros v Hv; cbn [foldl]; [done|].
  rewrite IH; rewrite compress_round_fips by done; [done|]. by apply round_words.
Qed.

(** [_compress] computes the standard's next intermediate hash value. *)
Lemma compress_words_fips hs block : len hs = 8 → Forall is_word hs → bytes_ok block →
  length block = 64%nat → compress_words hs block = hash_block hs block.
Proof.
  intros Hlen Hhs Hb Hl. unfold len in Hlen.
  destruct hs as [|h0 [|h1 [|h2 [|h3 [|h4 [|h5 [|h6 [|h7 [|]]]]]]]]]; simpl in Hlen; try lia.
  unfold compress_words, hash_block. rewrite message_schedule_fips by done.
  set (v := foldl (compress_round _) _ _).
  assert (foldl (round (schedule_prefix block 64)) (load_variables [h0; h1; h2; h3; h4; h5; h6; h7])
    (seq 0 64) = variables_of v) as ->.
  { unfold v. by rewrite compress_rounds_fips. }
  destruct v as [[[[[[[a b] c] d] e] f] g] h]. rewrite !land_mask. reflexivity.
Qed.

#[global] Opaque compress_words.

Lemma initial_shape : len _INITIAL = 8 ∧ Forall (λ w, 0 ≤ w ≤ _MASK) _INITIAL.
Proof. split; [done|]. by repeat constructor. Qed.

Lemma hash_blocks_shape n hs m :
  len hs = 8 ∧ Forall (λ w, 0 ≤ w ≤ _MASK) hs →
  len (hash_blocks n hs m) = 8 ∧ Forall (λ w, 0 ≤ w ≤ _MASK) (hash_blocks n hs m).
Proof.
  revert hs m. induction n as [|n IH]; intros hs m Hhs; simpl; [done|].
  apply IH, compress_words_shape.
Qed.

Lemma sha256_shape m : len (sha256 m) = 32 ∧ bytes_ok (sha256 m).
Proof.
  unfold sha256. set (hs := hash_blocks _ _ _).
  assert (len hs = 8) as Hlen by (apply hash_blocks_shape; apply initial_shape).
  clearbody hs. split.
  - rewrite len_concat, sumZ_fmap. rewrite (sumZ_ext _ (λ _, 4)).
    + pose proof (sumZ_upper (λ _ : Z, 4) 4 hs) as Hu. pose proof (sumZ_lower (λ _ : Z, 4) 4 hs) as Hl.
      rewrite Hlen in *. assert (Forall (λ _ : Z, 4 ≤ 4) hs) by (apply Forall_forall; lia).
      specialize (Hu ltac:(done)). specialize (Hl ltac:(done)). lia.
    + apply Forall_forall. intros w _. unfold len. by rewrite length_be_bytes.
  - apply Forall_concat. rewrite Forall_fmap. apply Forall_forall. intros w _. apply be_bytes_ok.
Qed.

Lemma sha256_hex_fullmatch m : sha256_fullmatch (sha256_hex m) = true.
Proof. apply sha256_fullmatch_hex; apply sha256_shape. Qed.

Lemma sha256_hex_roundtrip m : bytes_fromhex (sha256_hex m) = Ok (sha256 m).
Proof. apply bytes_hex_roundtrip, sha256_shape. Qed.

Lemma sha256_fullmatch_text s : sha256_fullmatch s = true → text_ok s.
Proof.
  unfold sha256_fullmatch. intros [_ Hs]%andb_true_iff. apply ascii_text, Forall_forall.
  intros c Hc%list_elem_of_In. rewrite forallb_forall in Hs. apply Hs, is_lower_hex_ascii in Hc. lia.
Qed.

Lemma sha256_hex_text m : text_ok (sha256_hex m).
Proof. apply sha256_fullmatch_text, sha256_hex_fullmatch. Qed.

#[export] Hint Resolve sha256_hex_fullmatch sha256_hex_text : rh.

Lemma hash_blocks_add n k hs m :
  hash_blocks (n + k) hs m = hash_blocks k (hash_blocks n hs m) (drop (64 * n) m).
Proof.
  revert hs m. induction n as [|n IH]; intros hs m; [done|].
  cbn [Nat.add hash_blocks]. rewrite IH, drop_drop. do 2 f_equal. lia.
Qed.

Lemma hash_blocks_prefix n hs m m' :
  (64 * n ≤ length m)%nat → hash_blocks n hs (m ++ m') = hash_blocks n hs m.
Proof.
  revert hs m. induction n as [|n IH]; intros hs m Hlen; [done|].
  cbn [hash_blocks]. rewrite take_app_le, drop_app_le by lia.
  apply IH. rewrite length_drop. lia.
Qed.

Lemma compress_ok hs block : len hs = 8 → length block = 64%nat →
  _compress hs block = Ok (compress_words hs block).
Proof. intros Hh Hb. unfold _compress. rewrite Hh. unfold len. by rewrite Hb. Qed.

Lemma absorb_spec fuel hs buffer : len hs = 8 → (length buffer ≤ fuel)%nat →
  absorb fuel hs buffer = Ok (hash_blocks (length buffer / 64) hs buffer,
                              drop (64 * (length buffer / 64)) buffer).
Proof.
  revert hs buffer. induction fuel as [|fuel IH]; intros hs buffer Hh Hfuel.
  - destruct buffer; [done|simpl in Hfuel; lia].
  - cbn [absorb]. destruct (Z.leb_spec 64 (len buffer)) as [Hge|Hlt]; unfold len in Hge || unfold len in Hlt.
    + rewrite compress_ok by (done || rewrite length_take; lia). cbn [mbind result_bind].
      rewrite IH; [|apply (proj1 (compress_words_shape _ _))|rewrite length_drop; lia].
      rewrite length_drop.
      replace (length buffer / 64)%nat with (1 + (length buffer - 64) / 64)%nat by lia.
      cbn [Nat.add hash_blocks]. rewrite drop_drop. do 3 f_equal. lia.
    + replace (length buffer / 64)%nat with 0%nat by lia. done.
Qed.

Lemma length_state_buffer m : length (_buffer (state_of m)) = (length m mod 64)%nat.
Proof. cbn [_buffer state_of]. rewrite length_drop. lia. Qed.

(** [update] moves from the state of [m] to the state of [m ++ data]. *)
Lemma update_state_of m data : update (state_of m) data = Ok (state_of (m ++ data)).
Proof.
  unfold update. cbn [_h _buffer _total_bytes state_of].
  pose proof (hash_blocks_shape (length m / 64) _INITIAL m initial_shape) as [Hlen _].
  set (q := (length m / 64)%nat) in *.
  rewrite absorb_spec by done. cbn [mbind result_bind].
  assert (drop (64 * q) m ++ data = drop (64 * q) (m ++ data)) as Hbuf.
  { rewrite drop_app_le; [done|]. lia. }
  rewrite Hbuf, length_drop, length_app.
  rewrite <- (hash_blocks_prefix q _INITIAL m data) by lia.
  rewrite <- hash_blocks_add, drop_drop. unfold state_of. rewrite length_app.
  replace (q + (length m + length data - 64 * q) / 64)%nat
    with ((length m + length data) / 64)%nat by lia.
  replace (64 * q + 64 * ((length m + length data - 64 * q) / 64))%nat
    with (64 * ((length m + length data) / 64))%nat by lia.
  do 2 f_equal. by rewrite len_app.
Qed.

Lemma update_all_state_of m chunks : update_all (state_of m) chunks = Ok (state_of (m ++ concat chunks)).
Proof.
  unfold update_all. revert m. induction chunks as [|c chunks IH]; intros m; cbn [foldM concat].
  - by rewrite app_nil_r.
  - rewrite update_state_of. cbn [mbind result_bind]. by rewrite IH, app_assoc.
Qed.

Lemma state_of_nil : state_of [] = initial_state.
Proof. done. Qed.

(** ** The digest *)

Lemma pad_buffer_spec fuel (buffer : pybytes) : ((56 - len buffer) mod 64 ≤ Z.of_nat fuel) →
  pad_buffer fuel buffer = buffer ++ repeatZ ((56 - len buffer) mod 64) 0.
Proof.
  revert buffer. induction fuel as [|fuel IH]; intros buffer Hfuel; cbn [pad_buffer].
  - replace ((56 - len buffer) mod 64) with 0 by lia. by rewrite app_nil_r.
  - destruct (Z.eqb_spec (len buffer mod 64) 56) as [Heq|Hne].
    + replace ((56 - len buffer) mod 64) with 0 by lia. by rewrite app_nil_r.
    + rewrite IH by len_lia. rewrite <- app_assoc. f_equal.
      replace (len (buffer ++ [0])) with (1 + len buffer) by len_lia.
      replace ((56 - len buffer) mod 64) with (1 + (56 - (1 + len buffer)) mod 64) by lia.
      unfold repeatZ. rewrite Z2Nat.inj_add by lia. done.
Qed.

Lemma drain_spec fuel hs buffer n : len hs = 8 → length buffer = (64 * n)%nat → (n ≤ fuel)%nat →
  drain fuel hs buffer = Ok (hash_blocks n hs buffer).
Proof.
  revert hs buffer n. induction fuel as [|fuel IH]; intros hs buffer n Hh Hlen Hfuel.
  - replace n with 0%nat in * by lia. destruct buffer; [done|simpl in Hlen; lia].
  - destruct n as [|n]; [by destruct buffer|]. destruct buffer as [|b buffer]; [simpl in Hlen; lia|].
    cbn [drain]. rewrite compress_ok by (done || rewrite length_take; lia). cbn [mbind result_bind].
    rewrite (IH _ _ n); [done|apply (proj1 (compress_words_shape _ _))|rewrite length_drop; lia|lia].
Qed.

Lemma to_bytes_words hs : Forall (λ w, 0 ≤ w ≤ _MASK) hs →
  mapM_result (to_bytes_big 4) hs = Ok (be_bytes 4 <$> hs).
Proof.
  intros Hw. apply mapM_result_Ok. intros w Hin. eapply Forall_forall in Hin; [|done].
  simpl in Hin. unfold to_bytes_big. unfold _MASK in Hin.
  change (256 ^ Z.of_nat 4) with 4294967296.
  by replace ((w <? 0) || (4294967296 <=? w)) with false by lia.
Qed.

Lemma length_pad_message m : (length (pad_message m) mod 64 = 0)%nat.
Proof.
  unfold pad_message. rewrite !length_app, length_be_bytes. simpl length.
  unfold repeatZ. rewrite length_replicate. unfold len. lia.
Qed.

(** The digest of the state of [m] is the SHA-256 digest of [m]. *)
Lemma digest_state_of m : len m * 8 < 2 ^ 64 → digest (state_of m) = Ok (sha256 m).
Proof.
  intros Hsize. unfold digest. cbn [copy _h _buffer _total_bytes state_of].
  pose proof (hash_blocks_shape (length m / 64) _INITIAL m initial_shape) as Hshape.
  set (q := (length m / 64)%nat) in *. set (rest := drop (64 * q) m).
  assert (length rest = (length m mod 64)%nat) as Hrest by (subst rest q; rewrite length_drop; lia).
  rewrite pad_buffer_spec by (len_lia || lia).
  assert (to_bytes_big 8 (len m * 8) = Ok (be_bytes 8 (len m * 8))) as ->.
  { unfold to_bytes_big. pose proof (len_nonneg m). change (256 ^ Z.of_nat 8) with (2 ^ 64).
    by replace ((len m * 8 <? 0) || (2 ^ 64 <=? len m * 8)) with false by lia. }
  cbn [mbind result_bind].
  replace ((56 - len (rest ++ [128])) mod 64) with ((55 - len m) mod 64)
    by (rewrite len_app; unfold len in *; simpl length; lia).
  pose proof (length_pad_message m) as Hmod.
  assert (pad_message m = take (64 * q) m ++
    (rest ++ [0x80]) ++ repeatZ ((55 - len m) mod 64) 0 ++ be_bytes 8 (len m * 8)) as Hpad.
  { unfold pad_message. rewrite <- (take_drop (64 * q) m) at 1. by rewrite <- !app_assoc. }
  set (tail := (rest ++ [0x80]) ++ repeatZ ((55 - len m) mod 64) 0 ++ be_bytes 8 (len m * 8)) in *.
  rewrite <- (app_assoc (rest ++ [128])). fold tail.
  assert (length (take (64 * q) m) = (64 * q)%nat) as Htake by (rewrite length_take; lia).
  assert (length (pad_message m) = 64 * q + length tail)%nat as Hlen by
    (rewrite Hpad, length_app; lia).
  rewrite (drain_spec _ _ _ (length tail / 64)); [|by apply Hshape|lia|lia].
  cbn [mbind result_bind].
  rewrite <- (take_drop (64 * q) m) at 1.
  rewrite (hash_blocks_prefix q _INITIAL (take (64 * q) m)) by lia.
  rewrite <- (hash_blocks_prefix q _INITIAL (take (64 * q) m) tail) by lia.
  rewrite <- Hpad. replace tail with (drop (64 * q) (pad_message m)).
  2: { rewrite Hpad, drop_app_length'; done. }
  rewrite <- hash_blocks_add.
  replace (q + length (drop (64 * q) (pad_message m)) / 64)%nat
    with (length (pad_message m) / 64)%nat by (rewrite length_drop; lia).
  rewrite to_bytes_words by (apply hash_blocks_shape, initial_shape). done.
Qed.

(** ** The reference is FIPS 180-4 *)

Lemma padded_pad_message m : padded m = pad_message m.
Proof.
  unfold padded, pad_message, padding_zeros. rewrite (Z.mul_comm 8 (len m)).
  do 3 f_equal. pose proof (len_nonneg m). f_equal. lia.
Qed.

Lemma pad_message_bytes m : bytes_ok m → bytes_ok (pad_message m).
Proof.
  intros Hm. unfold pad_message. apply Forall_app_2; [exact Hm|].
  apply Forall_cons_2; [unfold is_byte; lia|]. apply Forall_app_2; [|apply be_bytes_ok].
  apply Forall_replicate. unfold is_byte. lia.
Qed.

Lemma hash_blocks_fips n hs m : len hs = 8 → Forall is_word hs → bytes_ok m →
  (64 * n ≤ length m)%nat →
  hash_blocks n hs m = foldl hash_block hs ((λ i, take 64 (drop (64 * i) m)) <$> seq 0 n).
Proof.
  revert hs m. induction n as [|n IH]; intros hs m Hl Hhs Hm Hlen; [done|].
  assert (hash_block hs (take 64 m) = compress_words hs (take 64 m)) as Hstep.
  { symmetry. apply compress_words_fips; [done|done|by apply Forall_take|]. rewrite length_take. lia. }
  destruct (compress_words_shape hs (take 64 m)) as [Hl' Hw'].
  cbn [hash_blocks seq]. rewrite IH; [|done| |by apply Forall_drop|rewrite length_drop; lia].
  - rewrite <- (fmap_S_seq 0), fmap_cons, <- list_fmap_compose. cbn [foldl].
    rewrite Nat.mul_0_r, drop_0, Hstep. f_equal. apply list_fmap_ext. intros k i _.
    unfold compose. rewrite drop_drop. do 2 f_equal. lia.
  - eapply Forall_impl; [exact Hw'|]. cbn beta. unfold _MASK, is_word. lia.
Qed.

(** [hashlib.sha256] is the function of the standard. *)
Lemma sha256_fips m : bytes_ok m → sha256 m = fips_sha256 m.
Proof.
  intros Hm. unfold sha256, fips_sha256, blocks. rewrite padded_pad_message, <- INITIAL_initial_hash_value.
  rewrite hash_blocks_fips; [done|apply initial_shape| |by apply pad_message_bytes|].
  - eapply Forall_impl; [apply initial_shape|]. cbn beta. unfold _MASK, is_word. lia.
  - pose proof (length_pad_message m). lia.
Qed.

(** C31. Streaming is SHA-256: however a message of bytes is cut into chunks,
    feeding the chunks to a fresh [CheckpointSHA256] and taking its digest gives
    the digest FIPS 180-4 defines for their concatenation ([fips_sha256], written
    from the standard with its own word arithmetic, schedule, padding and
    constants computed from roots of primes), for every message whose bit length
    fits the 64-bit length field. *)
Theorem sha256_streaming chunks :
  Forall bytes_ok chunks → len (concat chunks) * 8 < 2 ^ 64 →
  (st ← update_all initial_state chunks; digest st) = Ok (fips_sha256 (concat chunks)).
Proof.
  intros Hbytes Hsize. rewrite <- state_of_nil, update_all_state_of, app_nil_l, ok_bind.
  rewrite digest_state_of by done. by rewrite sha256_fips by by apply Forall_concat.
Qed.

Lemma sha256_streaming_witness :
  (st ← update_all initial_state [str "a"; []; str "bc"]; hexdigest st) =
    Ok (str "ba7816bf8f01cfea414140de5dae2223b00361a396177a9cb410ff61f20015ad") ∧
  (st ← update_all initial_state [str "a"; []; str "bc"]; digest st) = Ok (fips_sha256 (str "abc")).
Proof.
  split; [vm_compute; reflexivity|].
  apply (sha256_streaming [str "a"; []; str "bc"]).
  - apply (bool_decide_unpack _). vm_compute. exact I.
  - vm_compute. reflexivity.
Defined.

(** ** Persisted state round trip *)

Lemma state_of_wf m : bytes_ok m → state_wf (state_of m).
Proof.
  intros Hm. pose proof (hash_blocks_shape (length m / 64) _INITIAL m initial_shape) as [? ?].
  pose proof (length_state_buffer m) as Hb. unfold state_wf. cbn [state_of _h _total_bytes].
  split_and!; try done.
  - by apply Forall_drop.
  - unfold len. rewrite Hb. lia.
  - apply len_nonneg.
  - unfold len. rewrite Hb. lia.
Qed.

(** [update] keeps the class invariant. *)
Lemma update_wf st data : state_wf st → bytes_ok data →
  ∃ st', update st data = Ok st' ∧ state_wf st' ∧ _total_bytes st' = _total_bytes st + len data.
Proof.
  intros (Hl & Hw & Hb & Hlt & Ht & Hm) Hd. unfold update. rewrite absorb_spec by done. rewrite ok_bind.
  eexists. split; [done|]. split; [|done].
  set (buffer := _buffer st ++ data). assert (bytes_ok buffer) as Hbuf by by apply Forall_app.
  destruct (hash_blocks_shape (length buffer / 64) (_h st) buffer (conj Hl Hw)).
  unfold state_wf. cbn [_h _buffer _total_bytes]. pose proof (len_nonneg data).
  assert (len (drop (64 * (length buffer / 64)) buffer) = (len (_buffer st) + len data) mod 64) as Hlen.
  { rewrite len_drop. unfold buffer, len. rewrite length_app. lia. }
  rewrite Hlen. split_and!; try done; [by apply Forall_drop|lia|lia|].
  rewrite <- Hm. clear -Hm. generalize (_total_bytes st) (len data). intros t n. lia.
Qed.

Lemma state_payload_wf st : state_wf st → json_wf (state_payload st).
Proof.
  intros (_ & _ & Hb & _). wf_obj.
  - apply json_wf_list, Forall_fmap. by apply Forall_true.
  - apply ascii_text. eapply Forall_impl; [by apply bytes_hex_lower|].
    intros c Hc%is_lower_hex_ascii. lia.
Qed.

Lemma mapM_word_value hs : Forall (λ w, 0 ≤ w ≤ _MASK) hs → mapM word_value (JInt <$> hs) = Some hs.
Proof.
  intros Hhs. apply mapM_Some_2. induction Hhs as [|w hs Hw Hhs IH]; constructor; [|done].
  unfold word_value. simpl. by replace ((0 <=? w) && (w <=? _MASK)) with true by lia.
Qed.

Lemma restore_state_payload st : state_wf st → restore_payload (canon (state_payload st)) = Ok st.
Proof.
  intros (Hlen & Hwords & Hbytes & Hbuf & Htot & Hmod).
  unfold restore_payload, state_payload. rewrite canon_obj. unfold state_fields, require_key.
  rewrite !dict_get_canon by solve_keys. dict_simpl. cbn [fmap option_fmap option_map canon].
  rewrite bool_decide_true by done. cbn [negb]. cbn [mbind result_bind].
  rewrite bytes_hex_roundtrip by done. cbn [mbind result_bind try_except].
  unfold restore_fields. cbn [as_int]. rewrite map_canon_fix by done.
  rewrite mapM_word_value by done. rewrite len_fmap, Hlen. cbn [Z.eqb Pos.eqb negb orb].
  replace ((_total_bytes st <? 0) || (64 <=? len (_buffer st))
    || negb (_total_bytes st mod 64 =? len (_buffer st))) with false by lia.
  by destruct st.
Qed.

#[export] Instance sha256_document `{PyEnv} : JsonDocument CheckpointSHA256 := {|
  doc_payload := state_payload;
  doc_of_payload := restore_payload;
  doc_valid := state_wf;
  doc_payload_wf := state_payload_wf;
  doc_law := restore_state_payload;
|}.

(** Restoring an exported well-formed state gives it back. *)
Lemma from_state_export `{PyEnv} st : state_wf st → from_state (export_state st) = Ok st.
Proof.
  intros Hst. pose proof (document_text_roundtrip (T := CheckpointSHA256) true st Hst) as Hdoc.
  unfold from_state, export_state. cbn [doc_payload sha256_document doc_of_payload] in Hdoc.
  destruct (loads _); [|done]. exact Hdoc.
Qed.

(** A checkpoint loses nothing: after any chunks, exporting the state,
    restoring it from the text and feeding further chunks gives the digest of
    the whole stream, so a restarted worker and an uninterrupted one publish the
    same identity. *)
Theorem checkpoint_resume `{PyEnv} before after :
  Forall bytes_ok before → len (concat before ++ concat after) * 8 < 2 ^ 64 →
  (st ← update_all initial_state before;
   restored ← from_state (export_state st);
   final ← update_all restored after;
   hexdigest final) = Ok (sha256_hex (concat before ++ concat after)).
Proof.
  intros Hbytes Hsize. rewrite <- state_of_nil, update_all_state_of, app_nil_l, ok_bind.
  rewrite from_state_export by (apply state_of_wf; by apply Forall_concat).
  rewrite ok_bind, update_all_state_of, ok_bind.
  unfold hexdigest. by rewrite digest_state_of.
Qed.

Lemma checkpoint_resume_witness :
  (st ← update_all initial_state [str "ab"];
   restored ← from_state (@export_state ascii_env st);
   final ← update_all restored [str "c"];
   hexdigest final) = Ok (sha256_hex (str "abc")).
Proof.
  apply (@checkpoint_resume ascii_env [str "ab"] [str "c"]).
  - apply (bool_decide_unpack _). vm_compute. exact I.
  - vm_compute. reflexivity.
Defined.

Lemma bytes_fromhex_ok s : ∀ bs, bytes_fromhex s = Ok bs → bytes_ok bs.
Proof.
  assert (∀ c z, hex_value c = Some z → 0 ≤ z < 16) as Hhex.
  { intros c z. unfold hex_value. repeat case_match; intros; simplify_eq; lia. }
  induction s as [s IH] using (induction_ltof1 _ (@length _)). unfold ltof in IH.
  intros bs Hbs. destruct s as [|c s]; cbn [bytes_fromhex] in Hbs; [inv_ok Hbs; subst; constructor|].
  destruct (_ || _); [eapply IH; [|exact Hbs]; simpl; lia|].
  destruct s as [|d s]; [done|].
  destruct (hex_value c) as [hi|] eqn:Hc; [|done]. destruct (hex_value d) as [lo|] eqn:Hd; [|done].
  inv_ok Hbs. subst. apply Hhex in Hc, Hd. constructor; [unfold is_byte; lia|].
  eapply IH; [|exact E]. simpl. lia.
Qed.

Lemma from_state_wf state st : from_state state = Ok st → state_wf st.
Proof.
  unfold from_state, restore_payload. intros H. inv_ok H. destruct a0 as [[h buffer] total].
  assert (bytes_ok buffer) as Hbytes.
  { unfold state_fields, require_key in E0. destruct a as [| | | | | |o]; try done.
    inv_ok E0. destruct (dict_get (str "buffer_hex") o) as [[| | | |s| |]|]; simplify_eq; try done.
    by eapply bytes_fromhex_ok. }
  unfold restore_fields in H. destruct h as [| | | | |words|]; try done.
  destruct (as_int total) as [t|]; [|done]. destruct (mapM word_value words) as [hs|] eqn:Hm; [|done].
  inv_ok H. subst st. bool_prop. unfold state_wf. cbn [_h _buffer _total_bytes].
  apply mapM_Some in Hm. split_and!; try done; try lia.
  - apply Forall2_length in Hm. unfold len in *. lia.
  - clear -Hm. induction Hm as [|w z ws zs Hw _ IH]; constructor; [|done].
    unfold word_value in Hw. repeat case_match; simplify_eq. lia.
Qed.

(** [from_state] admits only well-formed states: whatever text it accepts,
    the restored object has eight 32-bit words, fewer than 64 buffered bytes and
    a byte count that agrees with the buffer, so every later operation is
    defined on it. *)
Lemma from_state_sound state st : from_state state = Ok st → state_wf st.
Proof. apply from_state_wf. Qed.

