(* ===== verification/Paths.v ===== *)
(** * Collection paths and identities

    [riverhog_protocol/paths.py]: normalisation of relative paths, their sort
    and search keys, and collection identities.  Canonical composition is the
    [nfc] of the Unicode tables. *)

From S2P Require Import Prelude Text.

Section paths.
Context `{UnicodeData}.

(** [PurePosixPath(s).parts] of a relative path. *)
Definition posix_parts (s : pystr) : list pystr :=
  List.filter (λ w, negb (bool_decide (w = [])) && negb (bool_decide (w = str ".")))
    (split_on (chr "/") s).

(** One iteration of the loop over the parts. *)
Definition collect_step (acc : list pystr) (part : pystr) : result (list pystr) :=
  if bool_decide (part = []) || bool_decide (part = str ".") then Ok acc
  else when bool_decide (part = str "..")
         raise PathNormalizationError "path must not escape its root";
       Ok (acc ++ [part]).

Definition collect_parts (parts : list pystr) : result (list pystr) := foldM collect_step [] parts.

Definition normalize_relpath (raw : pystr) : result pystr :=
  let candidate := replace_char (chr "\") (chr "/") (nfc (strip raw)) in
  when bool_decide (candidate = []) || bool_decide (candidate = str ".")
       || bool_decide (candidate = str "/")
    raise PathNormalizationError "path must not be empty";
  when startswith (str "/") candidate
    raise PathNormalizationError "path must be relative";
  parts ← collect_parts (posix_parts candidate);
  when match parts with [] => true | _ => false end
    raise PathNormalizationError "path must not be empty";
  Ok (join_on (chr "/") parts).

Definition validate_canonical_relpath (value : pystr) : result pystr :=
  normalized ← normalize_relpath value;
  when negb (bool_decide (normalized = value))
    raise PathNormalizationError "path must be canonical";
  Ok normalized.

Definition relpath_sort_key (value : pystr) : result pybytes :=
  v ← validate_canonical_relpath value; utf8_encode v.

Definition ascii_lower (c : Z) : Z := if (65 <=? c) && (c <=? 90) then c + 32 else c.

Definition text_search_key (value : pystr) : pystr := ascii_lower <$> nfc value.

Definition relpath_search_key (value : pystr) : result pystr :=
  v ← validate_canonical_relpath value; Ok (text_search_key v).

(** ** Collection identities *)

(** The Python values a caller may pass. *)
Inductive py_id :=
| IdStr (s : pystr)
| IdInt (z : Z)
| IdBool (b : bool)
| IdOther.

Definition is_ascii_decimal (s : pystr) : bool :=
  negb (bool_decide (s = [])) && forallb (λ c, (48 <=? c) && (c <=? 57)) s.

Definition collection_id_of_text (text : pystr) : result Z :=
  when negb (is_ascii_decimal text)
    raise PathNormalizationError "collection id must be a positive integer";
  value ← py_int text;
  when (value <? 1) || negb (bool_decide (text = str_of_Z value))
    raise PathNormalizationError "collection id must be a canonical positive integer";
  Ok value.

Definition normalize_collection_id (raw : py_id) : result Z :=
  match raw with
  | IdStr s => collection_id_of_text s
  | IdInt z => collection_id_of_text (str_of_Z z)
  | _ => Err (Exn PathNormalizationError (str "collection id must be a positive integer"))
  end.

Definition validate_collection_id (value : py_id) : result Z :=
  match value with
  | IdInt z =>
      when z <? 1 raise PathNormalizationError "collection id must be a positive integer"; Ok z
  | _ => Err (Exn PathNormalizationError (str "collection id must be a positive integer"))
  end.

Definition parse_collection_id_parameter (value : py_id) : result Z :=
  match value with
  | IdStr _ | IdInt _ => normalize_collection_id value
  | _ => Err (Exn PathNormalizationError (str "collection id must be a positive integer"))
  end.

(** ** Canonical paths *)

Definition component_ok (w : pystr) : Prop :=
  w ≠ [] ∧ w ≠ str "." ∧ w ≠ str ".." ∧ chr "/" ∉ w ∧ chr "\" ∉ w.

Definition canonical_relpath (p : pystr) : Prop :=
  ∃ parts, parts ≠ [] ∧ p = join_on (chr "/") parts ∧ Forall component_ok parts.

(** The parts the loop keeps, when none of them is [".."]. *)
Lemma collect_parts_app acc parts :
  Forall (λ w, w ≠ [] ∧ w ≠ str ".") parts →
  foldM collect_step acc parts =
  if bool_decide (str ".." ∈ parts)
  then Err (Exn PathNormalizationError (str "path must not escape its root"))
  else Ok (acc ++ parts).
Proof.
  intros Hparts. revert acc. induction Hparts as [|w parts [Hne Hdot] Hparts IH]; intros acc.
  - rewrite bool_decide_false by set_solver. by rewrite app_nil_r.
  - cbn [foldM].
    assert (collect_step acc w = when bool_decide (w = str "..")
      raise PathNormalizationError "path must not escape its root"; Ok (acc ++ [w])) as ->.
    { unfold collect_step.
      by rewrite (bool_decide_false (w = [])), (bool_decide_false (w = str ".")) by done. }
    destruct (decide (w = str "..")) as [->|Hdd].
    + rewrite !bool_decide_true by set_solver. done.
    + rewrite (bool_decide_false (w = str "..")) by done. rewrite ok_bind, IH, <- app_assoc. simpl.
      by rewrite (bool_decide_ext (str ".." ∈ w :: parts) (str ".." ∈ parts)) by set_solver.
Qed.

Lemma posix_parts_ok s : Forall (λ w, w ≠ [] ∧ w ≠ str ".") (posix_parts s).
Proof.
  apply Forall_forall. intros w Hw. unfold posix_parts in Hw.
  apply list_elem_of_In, filter_In in Hw as [_ Hw]. bool_prop. done.
Qed.

Lemma posix_parts_subset s : posix_parts s ⊆ split_on (chr "/") s.
Proof.
  intros w Hw. apply list_elem_of_In, filter_In in Hw as [Hw _]. by apply list_elem_of_In.
Qed.

Lemma split_on_elem sep s w c : w ∈ split_on sep s → c ∈ w → c ∈ s.
Proof.
  revert w. induction s as [|x s IH]; simpl; intros w Hw Hc.
  { apply list_elem_of_singleton in Hw as ->. done. }
  destruct (x =? sep).
  - apply elem_of_cons in Hw as [->|Hw]; [by apply elem_of_nil in Hc|]. right. by eapply IH.
  - destruct (split_on sep s) as [|w' ws].
    { apply list_elem_of_singleton in Hw as ->. apply list_elem_of_singleton in Hc as ->. left. }
    apply elem_of_cons in Hw as [->|Hw].
    + apply elem_of_cons in Hc as [->|Hc]; [left|right]. eapply IH; [left|done].
    + right. eapply IH; [by right|done].
Qed.

Lemma replace_char_gone a b s : a ≠ b → a ∉ replace_char a b s.
Proof.
  intros Hab [c [Hc _]]%list_elem_of_fmap. destruct (Z.eqb_spec c a); congruence.
Qed.

(** What [normalize_relpath] returns, without the error cases. *)
Lemma normalize_relpath_inv raw p : normalize_relpath raw = Ok p →
  ∃ parts, parts = posix_parts (replace_char (chr "\") (chr "/") (nfc (strip raw))) ∧
    parts ≠ [] ∧ str ".." ∉ parts ∧ p = join_on (chr "/") parts.
Proof.
  unfold normalize_relpath, collect_parts. intros Hn.
  rewrite collect_parts_app in Hn by apply posix_parts_ok. inv_ok Hn. subst. bool_prop.
  eexists. split_and!; [done| |done|done]. intros Hnil. by rewrite Hnil in *.
Qed.

(** [normalize_relpath] returns only canonical relative paths: at least one
    component, joined by single slashes, and no component is empty, ["."],
    [".."] or contains a slash or a backslash.  In particular no accepted path
    is absolute or climbs out of the collection. *)
Theorem normalize_relpath_canonical raw p : normalize_relpath raw = Ok p → canonical_relpath p.
Proof.
  intros (parts & -> & Hne & Hdd & ->)%normalize_relpath_inv. eexists. split_and!; [done..|].
  apply Forall_forall. intros w Hw. pose proof (posix_parts_subset _ _ Hw) as Hsplit.
  pose proof (posix_parts_ok (replace_char (chr "\") (chr "/") (nfc (strip raw)))) as Hok.
  rewrite Forall_forall in Hok. destruct (Hok w Hw) as [Hnil Hdot]. split_and!; try done.
  - by intros ->.
  - pose proof (split_on_no_sep (chr "/") (replace_char (chr "\") (chr "/") (nfc (strip raw)))) as Hs.
    rewrite Forall_forall in Hs. by apply Hs.
  - intros Hin. eapply replace_char_gone; [|by eapply split_on_elem]. done.
Qed.

Lemma posix_parts_join parts : Forall component_ok parts → parts ≠ [] →
  posix_parts (join_on (chr "/") parts) = parts.
Proof.
  intros Hparts Hne. unfold posix_parts. rewrite split_join; [|done|].
  - clear Hne. induction Hparts as [|w parts (Hnil & Hdot & _) Hparts IH]; [done|]. simpl.
    rewrite !bool_decide_false by done. simpl. by rewrite IH.
  - eapply Forall_impl; [exact Hparts|]. by intros w (_ & _ & _ & ? & _).
Qed.

Lemma replace_char_fix a b s : a ∉ s → replace_char a b s = s.
Proof.
  induction s as [|c s IH]; [done|]. intros Hin. unfold replace_char in *. rewrite fmap_cons.
  rewrite (proj2 (Z.eqb_neq c a)) by set_solver. by rewrite IH by set_solver.
Qed.

Lemma join_on_elem sep ws c : c ∈ join_on sep ws → c = sep ∨ ∃ w, w ∈ ws ∧ c ∈ w.
Proof.
  induction ws as [|w [|w' ws] IH]; [set_solver|set_solver|].
  change (join_on sep (w :: w' :: ws)) with (w ++ sep :: join_on sep (w' :: ws)).
  rewrite elem_of_app, elem_of_cons. intros [?|[->|[->|(v & ? & ?)]%IH]]; set_solver.
Qed.

(** Canonical paths are fixed points: a canonical path that carries no
    surrounding white space and is already composed normalises to itself, so
    [validate_canonical_relpath] accepts exactly such values unchanged. *)
Lemma normalize_relpath_fixpoint p :
  canonical_relpath p → strip p = p → nfc p = p → normalize_relpath p = Ok p.
Proof.
  intros (parts & Hne & -> & Hparts) Hstrip Hnfc. unfold normalize_relpath, collect_parts.
  rewrite Hstrip, Hnfc. rewrite replace_char_fix.
  2: { intros [Hc|(w & Hw & Hc)]%join_on_elem; [done|].
       eapply Forall_forall in Hw; [|done]. destruct Hw as (_ & _ & _ & _ & Hb). done. }
  assert (∀ w, w ∈ parts → component_ok w) as Hcomp by by apply Forall_forall.
  destruct parts as [|w parts]; [done|].
  assert (∃ c s, join_on (chr "/") (w :: parts) = c :: s ∧ c ∈ w) as (c & s & Heq & Hc).
  { destruct (Hcomp w ltac:(left)) as (Hnil & _). destruct w as [|c w]; [done|].
    destruct parts; simpl; eexists _, _; (split; [done|left]). }
  destruct (Hcomp w ltac:(left)) as (Hnil & Hdot & Hdd & Hslash & _).
  rewrite (bool_decide_false (_ = [])) by (by rewrite Heq).
  rewrite (bool_decide_false (_ = str ".")).
  2: { destruct parts; [done|]. intros Hbad. apply (f_equal (split_on (chr "/"))) in Hbad.
       rewrite split_join in Hbad; [by vm_compute in Hbad|done|].
       eapply Forall_impl; [exact Hparts|]. by intros ? (_ & _ & _ & ? & _). }
  rewrite (bool_decide_false (_ = str "/")).
  2: { rewrite Heq. intros [= -> ->]. by apply Hslash. }
  cbn [orb]. replace (startswith (str "/") _) with false.
  2: { rewrite Heq. symmetry. change (str "/") with [chr "/"]. cbn [startswith].
       rewrite (proj2 (Z.eqb_neq (chr "/") c)); [done|]. intros <-. by apply Hslash. }
  rewrite posix_parts_join by done. rewrite collect_parts_app.
  - rewrite bool_decide_false; [done|]. intros Hin. by destruct (Hcomp _ Hin) as (_ & _ & ? & _).
  - apply Forall_forall. intros v Hv. by destruct (Hcomp v Hv) as (? & ? & _).
Qed.

Lemma validate_canonical_relpath_inv value p :
  validate_canonical_relpath value = Ok p → p = value ∧ normalize_relpath value = Ok value.
Proof. unfold validate_canonical_relpath. intros Hv. inv_ok Hv. subst. by bool_prop; subst. Qed.

Lemma collection_id_of_text_iff text n :
  collection_id_of_text text = Ok n ↔ 1 ≤ n ∧ text = str_of_Z n.
Proof.
  unfold collection_id_of_text. split.
  - intros Hid. inv_ok Hid. subst. bool_prop. split; [lia|done].
  - intros [Hn ->]. replace (is_ascii_decimal (str_of_Z n)) with true.
    + cbn [negb]. rewrite py_int_str_of_Z, ok_bind, (proj2 (Z.ltb_ge n 1)) by lia.
      by rewrite bool_decide_true.
    + unfold is_ascii_decimal, str_of_Z. rewrite (proj2 (Z.ltb_ge n 0)) by lia. symmetry.
      apply andb_true_iff. split.
      * apply negb_true_iff, bool_decide_eq_false. intros Hnil%fmap_nil_inv.
        by apply digits_nonempty in Hnil.
      * apply forallb_forall. intros c Hc%list_elem_of_In.
        apply list_elem_of_fmap in Hc as (d & -> & Hd).
        pose proof (digits_bound 10 n ltac:(lia) ltac:(lia)) as Hb.
        rewrite Forall_forall in Hb. rewrite (proj1 (decimal_char_facts d (Hb d Hd))).
        specialize (Hb d Hd). simpl in Hb. lia.
Qed.

Lemma normalize_relpath_raises raw : raises_only is_value_error (normalize_relpath raw).
Proof.
  unfold normalize_relpath, collect_parts. walk_exceptions.
  apply raises_only_foldM. intros acc part _. unfold collect_step. walk_exceptions.
Qed.

(** Collection identities have one spelling: [normalize_collection_id]
    accepts a text exactly when it is the canonical decimal form of a positive
    integer, and returns that integer. *)
Lemma normalize_collection_id_canonical text n :
  normalize_collection_id (IdStr text) = Ok n ↔ 1 ≤ n ∧ text = str_of_Z n.
Proof. apply collection_id_of_text_iff. Qed.

End paths.

#[export] Hint Resolve normalize_relpath_raises : exceptions.

Lemma normalize_relpath_canonical_witness :
  @normalize_relpath ascii_data (str "  photos\2024//./a.jpg ") = Ok (str "photos/2024/a.jpg") ∧
  canonical_relpath (str "photos/2024/a.jpg").
Proof.
  split; [vm_compute; reflexivity|].
  apply (@normalize_relpath_canonical ascii_data (str "  photos\2024//./a.jpg ")).
  vm_compute. reflexivity.
Defined.


(** White space makes normalisation unstable: it strips the whole text before
    it drops leading ["."] components, so ["./ a"] becomes [" a"], which is not
    a fixed point and normalises further to ["a"]. *)
Theorem normalize_relpath_not_idempotent :
  @normalize_relpath ascii_data (str "./ a") = Ok (str " a") ∧
  @normalize_relpath ascii_data (str " a") = Ok (str "a") ∧
  raised (@validate_canonical_relpath ascii_data (str " a")) = Some PathNormalizationError.
Proof. split_and!; vm_compute; reflexivity. Qed.
