(* ===== verification/Domain.v ===== *)
(** * Archive domain records

    [riverhog_core/domain/archive.py]: the frozen data classes that the planners
    produce and that the upload and retrieval services consume.  Field names
    carry a prefix per record; the derived properties are functions. *)

From S2P Require Import Prelude.

(** ** Format limits *)

(** Plaintext bytes of one age chunk. *)
Definition CHUNK_SIZE : Z := 65536.
Definition ARCHIVE_PACK_FILES_MAX : Z := 50000.
Definition ARCHIVE_VOLUME_PARTS_MAX : Z := 1024.
Definition COLLECTION_UPLOAD_UNIT_SOURCE_MAX : Z := 1000.

(** ** Records *)

Record ArchiveFile := {
  af_path : pystr;
  af_bytes : Z;
  af_sha256 : pystr;
}.

Record PackMemberPlan := {
  pm_path : pystr;
  pm_bytes : Z;
  pm_sha256 : pystr;
  pm_unit : Z;
  pm_header_offset : Z;
  pm_data_offset : Z;
  pm_end_offset : Z;
}.

Record PackPaddingPlan := {
  pp_path : pystr;
  pp_header_offset : Z;
  pp_payload_bytes : Z;
  pp_end_offset : Z;
}.

Record PackUploadUnitPlan := {
  pu_unit : Z;
  pu_plaintext_start : Z;
  pu_plaintext_end : Z;
  pu_sources : list ArchiveFile;
  pu_padding : option PackPaddingPlan;
  pu_includes_index : bool;
  pu_includes_end_markers : bool;
}.

Definition pu_plaintext_bytes (u : PackUploadUnitPlan) : Z :=
  pu_plaintext_end u - pu_plaintext_start u.
Definition pu_payload_bytes (u : PackUploadUnitPlan) : Z := sumZ af_bytes (pu_sources u).
Definition pu_final (u : PackUploadUnitPlan) : bool := pu_includes_end_markers u.

Record PackVolumePlan := {
  pv_volume_id : pystr;
  pv_sequence : Z;
  pv_max_member_bytes : Z;
  pv_part_plaintext_bytes : Z;
  pv_members : list PackMemberPlan;
  pv_units : list PackUploadUnitPlan;
  pv_index_bytes : pybytes;
  pv_index_sha256 : pystr;
  pv_plaintext_bytes : Z;
  pv_plan_sha256 : pystr;
}.

Record RawVolumePlan := {
  rv_volume_id : pystr;
  rv_sequence : Z;
  rv_source_path : pystr;
  rv_file_offset : Z;
  rv_plaintext_bytes : Z;
  rv_file_bytes : Z;
  rv_file_sha256 : pystr;
}.

(** ** Receipts of sealed objects *)

Record StoredArchivePart := {
  sap_number : Z;
  sap_plaintext_start : Z;
  sap_plaintext_bytes : Z;
  sap_plaintext_sha256 : pystr;
  sap_stored_bytes : Z;
  sap_stored_sha256 : pystr;
}.

(** [domain/retrieval_cache.py] *)
Record RetrievalCacheReceipt := {
  rcr_cache_store : pystr;
  rcr_object_path : pystr;
  rcr_revision : option pystr;
  rcr_stored_bytes : Z;
  rcr_stored_sha256 : option pystr;
  rcr_cached_at : pystr;
  rcr_verified_at : pystr;
}.

Record SealedPackVolume := {
  spv_volume_id : pystr;
  spv_sequence : Z;
  spv_relative_path : pystr;
  spv_files : Z;
  spv_source_bytes : Z;
  spv_plaintext_bytes : Z;
  spv_age_state_json : pystr;
  spv_index_sha256 : pystr;
  spv_plan_sha256 : pystr;
  spv_parts : list StoredArchivePart;
  spv_revision : option pystr;
  spv_completed_at : pystr;
  spv_retrieval_cache : option RetrievalCacheReceipt;
}.

Definition spv_stored_bytes (v : SealedPackVolume) : Z := sumZ sap_stored_bytes (spv_parts v).

Record SealedProvenanceObject := {
  spo_object_id : pystr;
  spo_kind : pystr;
  spo_relative_path : pystr;
  spo_plaintext_bytes : Z;
  spo_plaintext_sha256 : pystr;
  spo_stored_bytes : Z;
  spo_stored_sha256 : pystr;
  spo_revision : option pystr;
  spo_completed_at : pystr;
}.

Record VerifiedRawFile := {
  vrf_path : pystr;
  vrf_bytes : Z;
  vrf_sha256 : pystr;
  vrf_ordered_volume_sha256 : pystr;
  vrf_verified_at : pystr;
}.

Record SealedRawVolume := {
  srv_volume_id : pystr;
  srv_sequence : Z;
  srv_relative_path : pystr;
  srv_source_path : pystr;
  srv_file_offset : Z;
  srv_plaintext_bytes : Z;
  srv_file_bytes : Z;
  srv_file_sha256 : pystr;
  srv_age_state_json : pystr;
  srv_parts : list StoredArchivePart;
  srv_revision : option pystr;
  srv_completed_at : pystr;
  srv_retrieval_cache : option RetrievalCacheReceipt;
}.

Definition srv_stored_bytes (v : SealedRawVolume) : Z := sumZ sap_stored_bytes (srv_parts v).

#[export] Instance ArchiveFile_eq_dec : EqDecision ArchiveFile.
Proof. solve_decision. Defined.
#[export] Instance PackMemberPlan_eq_dec : EqDecision PackMemberPlan.
Proof. solve_decision. Defined.
#[export] Instance PackPaddingPlan_eq_dec : EqDecision PackPaddingPlan.
Proof. solve_decision. Defined.
#[export] Instance PackUploadUnitPlan_eq_dec : EqDecision PackUploadUnitPlan.
Proof. solve_decision. Defined.
#[export] Instance PackVolumePlan_eq_dec : EqDecision PackVolumePlan.
Proof. solve_decision. Defined.
#[export] Instance RawVolumePlan_eq_dec : EqDecision RawVolumePlan.
Proof. solve_decision. Defined.
