(* ===== verification/PackIngress.v ===== *)
(** * Pack upload units

    [riverhog_protocol/pack_ingress.py]: the descriptor of one upload unit, the
    digest that commits to all units of a pack, and the reader that splits the
    body of a unit into the byte streams of its sources. *)

From S2P Require Import Prelude Text Json Sha256 Paths.

Definition PACK_UPLOAD_PLAN_SCHEMA : pystr := str "pack-upload-plan/v1".
Definition RESERVED_ARCHIVE_PREFIX : pystr := str ".riverhog/".

(** [_PACK_VOLUME_ID_RE.fullmatch(s) is not None] *)
Definition pack_volume_id_fullmatch (s : pystr) : bool :=
  startswith (str "pack-") s && sha256_fullmatch (drop 5 s).

Record PackUnitSource := {
  us_path : pystr;
  us_bytes : Z;
  us_sha256 : pystr;
}.

#[export] Instance PackUnitSource_eq_dec : EqDecision PackUnitSource.
Proof. solve_decision. Defined.

Record PackUnitDescriptor := {
  ud_volume_id : pystr;
  ud_unit : Z;
  ud_payload_bytes : Z;
  ud_plaintext_start : Z;
  ud_plaintext_bytes : Z;
  ud_final : bool;
  ud_sources : list PackUnitSource;
  ud_plan_sha256 : pystr;
}.

Definition ud_plaintext_end (d : PackUnitDescriptor) : Z :=
  ud_plaintext_start d + ud_plaintext_bytes d.

Section ingress.
Context `{PyEnv}.

(** [PackUnitSource(path=..., bytes=..., sha256=...)] with its [__post_init__]. *)
Definition new_PackUnitSource (path : pystr) (bytes : Z) (sha256 : pystr) :
    result PackUnitSource :=
  normalized ← normalize_relpath path;
  when startswith RESERVED_ARCHIVE_PREFIX normalized
    raises Exn ValueError (str "collection path uses reserved archive namespace: " ++ normalized);
  when bytes <? 0 raise ValueError "pack unit source bytes must be non-negative";
  when negb (sha256_fullmatch sha256) raise ValueError "pack unit source sha256 is invalid";
  Ok {| us_path := normalized; us_bytes := bytes; us_sha256 := sha256 |}.

(** [PackUnitDescriptor(...)] with its [__post_init__]. *)
Definition new_PackUnitDescriptor (d : PackUnitDescriptor) : result PackUnitDescriptor :=
  when negb (pack_volume_id_fullmatch (ud_volume_id d)) raise ValueError "pack volume id is invalid";
  when ud_unit d <? 0 raise ValueError "pack unit number must be non-negative";
  when ud_payload_bytes d <? 0 raise ValueError "pack unit payload bytes must be non-negative";
  when (ud_plaintext_start d <? 0) || (ud_plaintext_bytes d <? 0)
    raise ValueError "pack unit plaintext range is invalid";
  when negb (sumZ us_bytes (ud_sources d) =? ud_payload_bytes d)
    raise ValueError "pack unit source bytes do not match payload bytes";
  when negb (sha256_fullmatch (ud_plan_sha256 d)) raise ValueError "pack unit plan sha256 is invalid";
  when negb (bool_decide (NoDup (us_path <$> ud_sources d)))
    raise ValueError "pack unit repeats a source path";
  Ok d.

(** [json.dumps(..., ensure_ascii=False, sort_keys=True, ...).encode("utf-8")] *)
Definition canonical_json_bytes (value : json) : result pybytes := utf8_encode (dumps false value).

Definition _required_nonnegative_int (value : list (pystr * json)) (key : string) : result Z :=
  canonical_nonnegative_int (get_or_null key value) (str key).

Definition source_row (path : pystr) (bytes : Z) (sha256 : pystr) : json :=
  JObj [(str "path", JStr path); (str "bytes", JInt bytes); (str "sha256", JStr sha256)].

(** One iteration of the loop over the source mappings; the state is [seen] and
    the rows built so far. *)
Definition source_rows_step (st : list pystr * list (Z * json)) (current : json) :
    result (list pystr * list (Z * json)) :=
  let '(seen, out) := st in
  match current with
  | JObj fields =>
      when negb (keys_are fields ["path"; "bytes"; "sha256"])
        raise ValueError "pack upload unit source must be a canonical mapping";
      path ← normalize_relpath (py_str (get_or_null "path" fields));
      when startswith RESERVED_ARCHIVE_PREFIX path
        raises Exn ValueError (str "collection path uses reserved archive namespace: " ++ path);
      when bool_decide (path ∈ seen)
        raises Exn ValueError (str "pack upload unit repeats source path: " ++ path);
      byte_count ← _required_nonnegative_int fields "bytes";
      let sha256 := py_str (get_or_null "sha256" fields) in
      when negb (sha256_fullmatch sha256) raise ValueError "pack upload unit source sha256 is invalid";
      Ok (path :: seen, out ++ [(byte_count, source_row path byte_count sha256)])
  | _ => Err (Exn ValueError (str "pack upload unit source must be a canonical mapping"))
  end.

(** The rows, each with the byte count its ["bytes"] field holds. *)
Definition _source_rows (value : json) : result (list (Z * json)) :=
  match value with
  | JList rows => '(_, out) ← foldM source_rows_step ([], []) rows; Ok out
  | _ => Err (Exn ValueError (str "pack upload unit sources must be a list"))
  end.

Definition unit_row (unit payload_bytes plaintext_start plaintext_bytes : Z) (final : bool)
    (sources : list json) : json :=
  JObj [(str "unit", JInt unit); (str "payload_bytes", JInt payload_bytes);
        (str "plaintext_start", JInt plaintext_start);
        (str "plaintext_bytes", JInt plaintext_bytes);
        (str "final", JBool final); (str "sources", JList sources)].

Definition _normalized_unit_row (value : json) (expected_unit : Z) : result json :=
  match value with
  | JObj fields =>
      when negb (keys_are fields ["unit"; "payload_bytes"; "plaintext_start"; "plaintext_bytes";
                                  "final"; "sources"])
        raise ValueError "pack upload unit must be a canonical mapping";
      unit ← _required_nonnegative_int fields "unit";
      when negb (unit =? expected_unit) raise ValueError "pack upload unit order is invalid";
      payload_bytes ← _required_nonnegative_int fields "payload_bytes";
      plaintext_start ← _required_nonnegative_int fields "plaintext_start";
      plaintext_bytes ← _required_nonnegative_int fields "plaintext_bytes";
      match get_or_null "final" fields with
      | JBool final =>
          sources ← _source_rows (get_or_null "sources" fields);
          when negb (sumZ fst sources =? payload_bytes)
            raise ValueError "pack upload unit payload bytes mismatch";
          Ok (unit_row unit payload_bytes plaintext_start plaintext_bytes final (snd <$> sources))
      | _ => Err (Exn ValueError (str "pack upload unit final must be boolean"))
      end
  | _ => Err (Exn ValueError (str "pack upload unit must be a canonical mapping"))
  end.

(** A unit is passed as a descriptor or as a mapping. *)
Inductive plan_unit :=
| UnitDescriptor (d : PackUnitDescriptor)
| UnitMapping (row : json).

Definition plan_unit_row (current : plan_unit) : json :=
  match current with
  | UnitDescriptor d =>
      unit_row (ud_unit d) (ud_payload_bytes d) (ud_plaintext_start d) (ud_plaintext_bytes d)
        (ud_final d) ((λ s, source_row (us_path s) (us_bytes s) (us_sha256 s)) <$> ud_sources d)
  | UnitMapping row => row
  end.

(** [for index, current in enumerate(units)] *)
Fixpoint normalized_rows (index : Z) (units : list plan_unit) : result (list json) :=
  match units with
  | [] => Ok []
  | current :: units' =>
      row ← _normalized_unit_row (plan_unit_row current) index;
      rows ← normalized_rows (index + 1) units';
      Ok (row :: rows)
  end.

Definition upload_plan_payload (volume_id : pystr) (plaintext_bytes : Z) (rows : list json) : json :=
  JObj [(str "schema", JStr PACK_UPLOAD_PLAN_SCHEMA); (str "volume_id", JStr volume_id);
        (str "plaintext_bytes", JInt plaintext_bytes); (str "units", JList rows)].

Definition pack_upload_plan_sha256 (volume_id : pystr) (plaintext_bytes : Z)
    (units : list plan_unit) : result pystr :=
  when negb (pack_volume_id_fullmatch volume_id) raise ValueError "pack volume id is invalid";
  when plaintext_bytes <=? 0 raise ValueError "pack upload plaintext bytes must be positive";
  when match units with [] => true | _ => false end
    raise ValueError "pack upload plan unit count is invalid";
  rows ← normalized_rows 0 units;
  content ← canonical_json_bytes (upload_plan_payload volume_id plaintext_bytes rows);
  Ok (sha256_hex content).

End ingress.

(** ** The payload reader *)

Record PackUnitPayloadReader := {
  rd_descriptor : PackUnitDescriptor;
  rd_source : list pybytes;
  rd_buffer : pybytes;
  rd_buffer_offset : Z;
  rd_consumed : Z;
  rd_next_source : Z;
}.

Definition new_reader (descriptor : PackUnitDescriptor) (chunks : list pybytes) :
    PackUnitPayloadReader :=
  {| rd_descriptor := descriptor; rd_source := chunks; rd_buffer := []; rd_buffer_offset := 0;
     rd_consumed := 0; rd_next_source := 0 |}.

Definition rd_available (rd : PackUnitPayloadReader) : Z := len (rd_buffer rd) - rd_buffer_offset rd.

(** The empty buffer is cleared before the next chunk of the body is taken. *)
Definition rd_refill (rd : PackUnitPayloadReader) (chunk : pybytes) (rest : list pybytes) :
    PackUnitPayloadReader :=
  {| rd_descriptor := rd_descriptor rd; rd_source := rest; rd_buffer := chunk;
     rd_buffer_offset := 0; rd_consumed := rd_consumed rd; rd_next_source := rd_next_source rd |}.

(** [take] bytes of the buffer: the chunk yielded and the reader after it. *)
Definition rd_take (rd : PackUnitPayloadReader) (n : Z) : pybytes * PackUnitPayloadReader :=
  let stop := rd_buffer_offset rd + n in
  (slice (rd_buffer_offset rd) stop (rd_buffer rd),
   {| rd_descriptor := rd_descriptor rd; rd_source := rd_source rd; rd_buffer := rd_buffer rd;
      rd_buffer_offset := stop; rd_consumed := rd_consumed rd + n;
      rd_next_source := rd_next_source rd |}).

Definition rd_advance (rd : PackUnitPayloadReader) : PackUnitPayloadReader :=
  {| rd_descriptor := rd_descriptor rd; rd_source := rd_source rd; rd_buffer := rd_buffer rd;
     rd_buffer_offset := rd_buffer_offset rd; rd_consumed := rd_consumed rd;
     rd_next_source := rd_next_source rd + 1 |}.

(** What a generator gives its consumer: the chunks it yields, the state it
    leaves behind, and how it ends. *)
Definition generated (S A : Type) : Type := list pybytes * S * result A.

(** [while remaining: ...].  The data fed to the digest is returned at the end.
    An iteration takes all of the buffer, or all that remains, or moves to the
    next chunk, so [length source + 2] iterations are enough. *)
Fixpoint iter_loop (fuel : nat) (rd : PackUnitPayloadReader) (remaining : Z) (fed : pybytes) :
    generated PackUnitPayloadReader pybytes :=
  match fuel with
  | O => ([], rd, Err (Exn RuntimeError (str "loop bound exceeded")))
  | S fuel =>
      if remaining =? 0 then ([], rd, Ok fed)
      else
        let proceed (rd : PackUnitPayloadReader) :=
          let n := Z.min remaining (rd_available rd) in
          let '(chunk, rd') := rd_take rd n in
          let '(chunks, rd'', r) := iter_loop fuel rd' (remaining - n) (fed ++ chunk) in
          (chunk :: chunks, rd'', r) in
        if rd_available rd =? 0 then
          match rd_source rd with
          | [] => ([], rd_refill rd [] [],
                   Err (Exn ValueError (str "pack unit payload ended before its declared length")))
          | chunk :: rest =>
              let rd' := rd_refill rd chunk rest in
              if rd_available rd' =? 0 then iter_loop fuel rd' remaining fed else proceed rd'
          end
        else proceed rd
  end.

Definition iter_source (rd : PackUnitPayloadReader) (source : PackUnitSource) :
    generated PackUnitPayloadReader unit :=
  let expected := ud_sources (rd_descriptor rd) in
  if negb (bool_decide (expected !! Z.to_nat (rd_next_source rd) = Some source)) then
    ([], rd, Err (Exn RuntimeError
       (str "pack unit sources must be read exactly once in descriptor order")))
  else
    let '(chunks, rd', r) := iter_loop (length (rd_source rd) + 2) rd (us_bytes source) [] in
    match r with
    | Ok fed =>
        if negb (bool_decide (sha256_hex fed = us_sha256 source)) then
          (chunks, rd', Err (Exn ValueError
             (str "pack unit source sha256 mismatch: " ++ us_path source)))
        else (chunks, rd_advance rd', Ok tt)
    | Err e => (chunks, rd', Err e)
    end.

Definition finish (rd : PackUnitPayloadReader) : result unit :=
  when negb (rd_next_source rd =? len (ud_sources (rd_descriptor rd)))
    raise ValueError "pack unit payload sources were not completely consumed";
  when negb (rd_consumed rd =? ud_payload_bytes (rd_descriptor rd))
    raise ValueError "pack unit payload was not completely consumed";
  when negb (rd_available rd =? 0) raise ValueError "pack unit payload is longer than declared";
  when negb (forallb (λ chunk, bool_decide (chunk = [])) (rd_source rd))
    raise ValueError "pack unit payload is longer than declared";
  Ok tt.

(** Read every source of the descriptor in order, then finish: the protocol the
    renderer follows. *)
Fixpoint read_sources (rd : PackUnitPayloadReader) (sources : list PackUnitSource) :
    result (list pybytes * PackUnitPayloadReader) :=
  match sources with
  | [] => Ok ([], rd)
  | source :: sources' =>
      let '(chunks, rd', r) := iter_source rd source in
      _ ← r; '(payloads, rd'') ← read_sources rd' sources'; Ok (concat chunks :: payloads, rd'')
  end.

Definition read_unit (d : PackUnitDescriptor) (chunks : list pybytes) : result (list pybytes) :=
  '(payloads, rd) ← read_sources (new_reader d chunks) (ud_sources d); _ ← finish rd; Ok payloads.

(** ** The reader against its specification *)

(** The bytes of the body that are still to be read. *)
Definition rd_pending (rd : PackUnitPayloadReader) : pybytes :=
  drop (Z.to_nat (rd_buffer_offset rd)) (rd_buffer rd) ++ concat (rd_source rd).

Definition rd_wf (rd : PackUnitPayloadReader) : Prop :=
  0 ≤ rd_buffer_offset rd ≤ len (rd_buffer rd).

(** The parts of a reader that reading a source body does not touch. *)
Definition rd_same (rd rd' : PackUnitPayloadReader) : Prop :=
  rd_descriptor rd' = rd_descriptor rd ∧ rd_next_source rd' = rd_next_source rd.

(** [rd'] is [rd] after [n] more bytes of the body. *)
Definition rd_moved (rd rd' : PackUnitPayloadReader) (n : Z) : Prop :=
  rd_wf rd' ∧ rd_same rd rd' ∧ rd_pending rd' = drop (Z.to_nat n) (rd_pending rd) ∧
  rd_consumed rd' = rd_consumed rd + n.

Lemma rd_take_spec rd n : rd_wf rd → 0 ≤ n ≤ rd_available rd →
  (rd_take rd n).1 = take (Z.to_nat n) (rd_pending rd) ∧ rd_moved rd (rd_take rd n).2 n ∧
  rd_available (rd_take rd n).2 = rd_available rd - n ∧
  rd_source (rd_take rd n).2 = rd_source rd.
Proof.
  unfold rd_moved, rd_wf, rd_available, rd_take, rd_pending, rd_same. intros Hwf Hn. cbn.
  split_and!; try done; try lia.
  - unfold slice. rewrite take_app_le by (rewrite length_drop; unfold len in *; lia).
    f_equal. lia.
  - rewrite drop_app_le by (rewrite length_drop; unfold len in *; lia).
    rewrite drop_drop. do 2 f_equal. lia.
Qed.

Lemma rd_refill_spec rd chunk rest :
  rd_wf rd → rd_available rd = 0 → rd_source rd = chunk :: rest →
  rd_moved rd (rd_refill rd chunk rest) 0.
Proof.
  unfold rd_moved, rd_wf, rd_available, rd_pending, rd_same, rd_refill. intros Hwf Ha Hs. cbn.
  rewrite Hs, !drop_0, (drop_ge (rd_buffer rd)) by (unfold len in *; lia).
  split_and!; try done; len_lia.
Qed.

Lemma rd_moved_trans rd rd' rd'' n m : 0 ≤ n → 0 ≤ m →
  rd_moved rd rd' n → rd_moved rd' rd'' m → rd_moved rd rd'' (n + m).
Proof.
  unfold rd_moved, rd_same. intros ?? (? & [Hd Hn] & Hp & Hc) (? & [Hd' Hn'] & Hp' & Hc').
  rewrite Hp', Hp, drop_drop, Hc', Hc, Hd', Hd, Hn', Hn.
  split_and!; try done; [f_equal; lia | lia].
Qed.

Lemma rd_available_pending rd : rd_wf rd → rd_available rd ≤ len (rd_pending rd).
Proof.
  unfold rd_wf, rd_available, rd_pending. rewrite len_app, len_drop.
  pose proof (len_nonneg (concat (rd_source rd))). lia.
Qed.

(** What the loop does with a body that still holds [pending]. *)
Definition loop_post (rd : PackUnitPayloadReader) (remaining : Z) (fed : pybytes)
    (out : generated PackUnitPayloadReader pybytes) : Prop :=
  let '(chunks, rd', r) := out in
  if remaining <=? len (rd_pending rd) then
    r = Ok (fed ++ concat chunks) ∧
    concat chunks = take (Z.to_nat remaining) (rd_pending rd) ∧ rd_moved rd rd' remaining
  else r = Err (Exn ValueError (str "pack unit payload ended before its declared length")).

Lemma loop_post_step rd rd1 n chunk remaining fed out :
  0 ≤ n ≤ remaining → n ≤ len (rd_pending rd) →
  chunk = take (Z.to_nat n) (rd_pending rd) → rd_moved rd rd1 n →
  loop_post rd1 (remaining - n) (fed ++ chunk) out →
  loop_post rd remaining fed (let '(chunks, rd', r) := out in (chunk :: chunks, rd', r)).
Proof.
  destruct out as [[chunks rd'] r]. unfold loop_post. intros Hn Hle -> Hm Hpost.
  pose proof (proj1 (proj2 (proj2 Hm))) as Hp. rewrite Hp, len_drop in Hpost.
  destruct (Z.leb_spec remaining (len (rd_pending rd))).
  - rewrite (proj2 (Z.leb_le _ _)) in Hpost by lia. destruct Hpost as (-> & Hc & Hm').
    cbn [concat]. rewrite <- app_assoc. split_and!; [done| |].
    + rewrite Hc, take_take_drop. f_equal. lia.
    + replace remaining with (n + (remaining - n)) by lia. eapply rd_moved_trans; eauto; lia.
  - by rewrite (proj2 (Z.leb_gt _ _)) in Hpost by lia.
Qed.

Lemma loop_post_skip rd rd1 remaining fed out :
  rd_moved rd rd1 0 → 0 ≤ remaining → loop_post rd1 remaining fed out → loop_post rd remaining fed out.
Proof.
  intros Hm Hr Hpost. pose proof (proj1 (proj2 (proj2 Hm))) as Hp. rewrite drop_0 in Hp.
  destruct out as [[chunks rd'] r]. unfold loop_post in *. rewrite Hp in Hpost.
  destruct (_ <=? _); [|done]. destruct Hpost as (? & ? & Hm'). split_and!; [done..|].
  rewrite <- (Z.add_0_l remaining). by eapply rd_moved_trans.
Qed.

(** The loop body once the buffer holds data. *)
Lemma iter_loop_proceed fuel rd remaining fed :
  rd_wf rd → 0 < remaining → 0 < rd_available rd →
  (∀ rd' remaining' fed', rd_wf rd' → 0 ≤ remaining' →
     remaining' = 0 ∨ rd_available rd' = 0 → rd_source rd' = rd_source rd →
     loop_post rd' remaining' fed' (iter_loop fuel rd' remaining' fed')) →
  loop_post rd remaining fed
    (let n := Z.min remaining (rd_available rd) in
     let '(chunk, rd') := rd_take rd n in
     let '(chunks, rd'', r) := iter_loop fuel rd' (remaining - n) (fed ++ chunk) in
     (chunk :: chunks, rd'', r)).
Proof.
  intros Hwf Hr Ha IH. cbv zeta. set (n := Z.min remaining (rd_available rd)).
  destruct (rd_take_spec rd n Hwf ltac:(lia)) as (Hc & Hm & Hav & Hsrc).
  destruct (rd_take rd n) as [chunk rd1]. cbn [fst snd] in *.
  pose proof (rd_available_pending rd Hwf).
  eapply (loop_post_step rd rd1 n chunk remaining fed); [lia|lia|done|done|].
  apply IH; [apply Hm|lia|lia|done].
Qed.

Lemma iter_loop_spec fuel rd remaining fed :
  rd_wf rd → 0 ≤ remaining →
  (length (rd_source rd) + (if bool_decide (remaining = 0 ∨ rd_available rd = 0)%Z then 1 else 2)
     ≤ fuel)%nat →
  loop_post rd remaining fed (iter_loop fuel rd remaining fed).
Proof.
  revert rd remaining fed. induction fuel as [|fuel IH]; intros rd remaining fed Hwf Hr Hfuel.
  { destruct (bool_decide _); lia. }
  cbn [iter_loop]. destruct (Z.eqb_spec remaining 0) as [->|Hrem].
  { unfold loop_post. rewrite (proj2 (Z.leb_le _ _)) by apply len_nonneg.
    rewrite app_nil_r, take_0. split_and!; [done..|]. unfold rd_moved, rd_same.
    rewrite drop_0. split_and!; try done. lia. }
  destruct (Z.eqb_spec (rd_available rd) 0) as [Ha|Ha].
  - destruct (rd_source rd) as [|chunk rest] eqn:Hs.
    { unfold loop_post. rewrite (proj2 (Z.leb_gt _ _)); [done|].
      unfold rd_pending. rewrite Hs, app_nil_r, len_drop. unfold rd_available in Ha. lia. }
    pose proof (rd_refill_spec rd chunk rest Hwf Ha Hs) as Hm.
    rewrite bool_decide_true in Hfuel by auto. cbn [length] in Hfuel.
    destruct (Z.eqb_spec (rd_available (rd_refill rd chunk rest)) 0) as [Ha'|Ha'].
    + eapply loop_post_skip; [done|done|]. apply IH; [apply Hm|done|].
      rewrite bool_decide_true by auto. cbn. lia.
    + eapply loop_post_skip; [done|done|]. apply iter_loop_proceed; [apply Hm|lia| |].
      * unfold rd_available in *. cbn in *. len_lia.
      * intros rd' r' f' Hwf' Hr' Hor Hsrc. apply IH; [done..|].
        rewrite bool_decide_true by done. rewrite Hsrc. cbn. lia.
  - apply iter_loop_proceed; [done|lia|unfold rd_wf, rd_available in *; lia|].
    intros rd' r' f' Hwf' Hr' Hor Hsrc. apply IH; [done..|].
    rewrite bool_decide_true by done. rewrite bool_decide_false in Hfuel by tauto.
    rewrite Hsrc. lia.
Qed.

(** A payload a source accepts: its length and its digest are as declared. *)
Definition payload_of (source : PackUnitSource) (payload : pybytes) : Prop :=
  len payload = us_bytes source ∧ sha256_hex payload = us_sha256 source.

(** The reader after the next source of the descriptor was read. *)
Definition rd_read (rd rd' : PackUnitPayloadReader) (n count : Z) : Prop :=
  rd_wf rd' ∧ rd_descriptor rd' = rd_descriptor rd ∧
  rd_next_source rd' = rd_next_source rd + count ∧ rd_consumed rd' = rd_consumed rd + n.

Definition expects (rd : PackUnitPayloadReader) (sources : list PackUnitSource) : Prop :=
  0 ≤ rd_next_source rd ∧
  drop (Z.to_nat (rd_next_source rd)) (ud_sources (rd_descriptor rd)) = sources.

Lemma expects_next rd rd' source sources n :
  expects rd (source :: sources) → rd_read rd rd' n 1 → expects rd' sources.
Proof.
  unfold expects, rd_read. intros [H0 Hd] (_ & -> & -> & _). split; [lia|].
  replace (Z.to_nat (rd_next_source rd + 1)) with (Z.to_nat (rd_next_source rd) + 1)%nat by lia.
  by rewrite <- drop_drop, Hd.
Qed.

Lemma expects_lookup rd source sources : expects rd (source :: sources) →
  ud_sources (rd_descriptor rd) !! Z.to_nat (rd_next_source rd) = Some source.
Proof.
  intros [_ Hd]. apply (f_equal head) in Hd. by rewrite head_lookup, lookup_drop, Nat.add_0_r in Hd.
Qed.

Lemma iter_source_spec rd source sources :
  rd_wf rd → 0 ≤ us_bytes source → expects rd (source :: sources) →
  let '(chunks, rd', r) := iter_source rd source in
  (r = Ok tt ↔ ∃ p rest, rd_pending rd = p ++ rest ∧ payload_of source p) ∧
  (r = Ok tt → rd_read rd rd' (us_bytes source) 1 ∧ payload_of source (concat chunks) ∧
     rd_pending rd = concat chunks ++ rd_pending rd').
Proof.
  intros Hwf Hb Hexp. unfold iter_source. rewrite bool_decide_true by by eapply expects_lookup.
  cbn [negb].
  pose proof (iter_loop_spec (length (rd_source rd) + 2) rd (us_bytes source) [] Hwf Hb
    ltac:(destruct (bool_decide _); lia)) as Hpost.
  destruct (iter_loop _ _ _ _) as [[chunks rd'] r]. unfold loop_post in Hpost.
  destruct (Z.leb_spec (us_bytes source) (len (rd_pending rd))) as [Hle|Hgt].
  - destruct Hpost as (-> & Hc & Hwf' & [Hd Hn] & Hp & Hcon). cbn [app].
    assert (len (concat chunks) = us_bytes source) as Hlen.
    { rewrite Hc. unfold len in *. rewrite length_take. lia. }
    destruct (decide (sha256_hex (concat chunks) = us_sha256 source)) as [Hsha|Hsha].
    + rewrite bool_decide_true by done. cbn [negb].
      assert (rd_pending rd = concat chunks ++ rd_pending rd') as Hsplit.
      { by rewrite Hp, Hc, take_drop. }
      split; [split; [intros _; by exists (concat chunks), (rd_pending rd')|done]|].
      intros _. split_and!; [|done|done]. unfold rd_read, rd_advance. cbn. split_and!; done || lia.
    + rewrite bool_decide_false by done. cbn [negb]. split; [|done]. split; [done|].
      intros (p & rest & Heq & Hpl & Hps). exfalso. apply Hsha. rewrite Hc, Heq.
      rewrite <- Hpl. unfold len. rewrite Nat2Z.id, take_app_length. done.
  - rewrite Hpost. split; [|done]. split; [done|].
    intros (p & rest & Heq & Hpl & _). rewrite Heq, len_app in Hgt. pose proof (len_nonneg rest). lia.
Qed.

Lemma iter_source_raises rd source sources :
  rd_wf rd → 0 ≤ us_bytes source → expects rd (source :: sources) →
  raises_only is_value_error (iter_source rd source).2.
Proof.
  intros Hwf Hb Hexp. unfold iter_source. rewrite bool_decide_true by by eapply expects_lookup.
  cbn [negb].
  pose proof (iter_loop_spec (length (rd_source rd) + 2) rd (us_bytes source) [] Hwf Hb
    ltac:(destruct (bool_decide _); lia)) as Hpost.
  destruct (iter_loop _ _ _ _) as [[chunks rd'] r]. unfold loop_post in Hpost.
  destruct (_ <=? _).
  - destruct Hpost as (-> & _). by destruct (negb _).
  - by rewrite Hpost.
Qed.

Lemma read_sources_sound rd sources payloads rd' :
  rd_wf rd → expects rd sources → Forall (λ s, 0 ≤ us_bytes s) sources →
  read_sources rd sources = Ok (payloads, rd') →
  Forall2 payload_of sources payloads ∧ rd_pending rd = concat payloads ++ rd_pending rd' ∧
  rd_read rd rd' (sumZ us_bytes sources) (len sources).
Proof.
  revert rd payloads. induction sources as [|source sources IH]; intros rd payloads Hwf Hexp Hb Hr;
    cbn [read_sources] in Hr.
  { inv_ok Hr. subst. unfold rd_read. rewrite len_nil, Z.add_0_r.
    split_and!; try done. cbn. lia. }
  apply Forall_cons in Hb as [Hb Hbs].
  pose proof (iter_source_spec rd source sources Hwf Hb Hexp) as Hspec.
  destruct (iter_source rd source) as [[chunks rd1] r]. destruct Hspec as [_ Hspec].
  inv_ok Hr. destruct a, a0 as [ps rd2]. inv_ok Hr. subst.
  destruct (Hspec eq_refl) as (Hread & Hpay & Hpend).
  destruct (IH rd1 ps) as (Hf & Hp & Hread'); [apply Hread|by eapply expects_next|done|done|].
  split_and!; [by constructor| |].
  - cbn [concat]. by rewrite Hpend, Hp, app_assoc.
  - unfold rd_read in *. rewrite len_cons, sumZ_cons.
    destruct Hread as (_ & Hd & Hn & Hc), Hread' as (? & Hd' & Hn' & Hc').
    split_and!; [done|congruence|lia|lia].
Qed.

Lemma read_sources_complete rd sources payloads rest :
  rd_wf rd → expects rd sources → Forall (λ s, 0 ≤ us_bytes s) sources →
  Forall2 payload_of sources payloads → rd_pending rd = concat payloads ++ rest →
  ∃ rd', read_sources rd sources = Ok (payloads, rd').
Proof.
  intros Hwf Hexp Hb Hf. revert rd Hwf Hexp. induction Hf as [|source p sources ps Hp Hf IH];
    intros rd Hwf Hexp Hpend; cbn [read_sources]; [eauto|].
  apply Forall_cons in Hb as [Hb Hbs].
  pose proof (iter_source_spec rd source sources Hwf Hb Hexp) as Hspec.
  destruct (iter_source rd source) as [[chunks rd1] r]. destruct Hspec as [Hiff Hspec].
  cbn [concat] in Hpend. rewrite <- app_assoc in Hpend.
  assert (r = Ok tt) as -> by (apply Hiff; eauto). rewrite ok_bind.
  destruct (Hspec eq_refl) as (Hread & [Hlen _] & Hpend1).
  rewrite Hpend in Hpend1. apply app_inj_1 in Hpend1 as [<- Hpend1].
  2: { destruct Hp as [Hl _]. unfold len in *. lia. }
  destruct (IH Hbs rd1) as [rd' Hr]; [apply Hread|by eapply expects_next|by rewrite <- Hpend1|].
  exists rd'. by rewrite Hr.
Qed.

Lemma finish_spec rd : rd_wf rd →
  finish rd = Ok tt ↔ rd_next_source rd = len (ud_sources (rd_descriptor rd)) ∧
    rd_consumed rd = ud_payload_bytes (rd_descriptor rd) ∧ rd_pending rd = [].
Proof.
  intros Hwf. assert (rd_pending rd = [] ↔ rd_available rd = 0 ∧ Forall (λ c, c = []) (rd_source rd)) as ->.
  { unfold rd_pending, rd_available, rd_wf in *. rewrite app_nil, concat_nil_Forall.
    split; intros [Hd ?]; (split; [|done]).
    - apply (f_equal length) in Hd. rewrite length_drop in Hd. unfold len in *. cbn in Hd. lia.
    - apply drop_ge. unfold len in *. lia. }
  unfold finish. destruct (Z.eqb_spec (rd_next_source rd) (len (ud_sources (rd_descriptor rd)))),
    (Z.eqb_spec (rd_consumed rd) (ud_payload_bytes (rd_descriptor rd))),
    (Z.eqb_spec (rd_available rd) 0); cbn [negb]; try naive_solver.
  destruct (forallb _ _) eqn:Hall; cbn [negb].
  - split; [|done]. intros _. split_and!; try done. apply Forall_forall. intros c Hc.
    rewrite forallb_forall in Hall. by apply list_elem_of_In, Hall, bool_decide_eq_true in Hc.
  - split; [done|]. intros (_ & _ & _ & Hf). exfalso. apply not_true_iff_false in Hall. apply Hall.
    apply forallb_forall. intros c Hc%list_elem_of_In. apply bool_decide_eq_true.
    by apply (proj1 (Forall_forall _ _) Hf).
Qed.

Lemma read_unit_spec d chunks payloads :
  Forall (λ s, 0 ≤ us_bytes s) (ud_sources d) → new_PackUnitDescriptor d = Ok d →
  read_unit d chunks = Ok payloads ↔
    concat chunks = concat payloads ∧ Forall2 payload_of (ud_sources d) payloads.
Proof.
  intros Hb Hd. unfold new_PackUnitDescriptor in Hd. inv_ok Hd. clear Hd. bool_prop.
  assert (rd_wf (new_reader d chunks)) as Hwf by (unfold rd_wf, len; cbn; lia).
  assert (expects (new_reader d chunks) (ud_sources d)) as Hexp by (split; cbn; [lia|done]).
  unfold read_unit. split.
  - intros ([ps rd] & Hrs & Hr)%bind_Ok. apply bind_Ok in Hr as ([] & Hfin & Hr). injection Hr as ->.
    destruct (read_sources_sound _ _ _ _ Hwf Hexp Hb Hrs) as (Hf & Hp & Hread).
    apply finish_spec in Hfin as (_ & _ & Hnil); [|apply Hread].
    rewrite Hnil, app_nil_r in Hp. split; [exact Hp|done].
  - intros [Hc Hf]. assert (rd_pending (new_reader d chunks) = concat payloads ++ []) as Hp.
    { by rewrite app_nil_r. }
    destruct (read_sources_complete _ _ _ _ Hwf Hexp Hb Hf Hp) as [rd Hr]. rewrite Hr, ok_bind.
    destruct (read_sources_sound _ _ _ _ Hwf Hexp Hb Hr) as (_ & Hp' & Hwf' & Hrd & Hn & Hcon).
    cbn in Hrd, Hn, Hcon. rewrite (proj2 (finish_spec rd Hwf')); [done|].
    rewrite Hrd. split_and!; [done|lia|]. rewrite Hp in Hp'. by apply app_inv_head in Hp'.
Qed.

Lemma finish_raises rd : raises_only is_value_error (finish rd).
Proof. unfold finish. walk_exceptions. Qed.

(** The payload reader accepts exactly the bodies that are the concatenation of
    the declared payloads, whatever the transport's chunking: it returns
    [payloads] if and only if the chunks concatenate to them and each has the
    declared length and digest.  Short bodies, long bodies and corrupted
    sources are therefore all refused, and an accepted split is unique. *)
Theorem read_unit_exact d chunks payloads :
  Forall (λ s, 0 ≤ us_bytes s) (ud_sources d) → new_PackUnitDescriptor d = Ok d →
  read_unit d chunks = Ok payloads ↔
    concat chunks = concat payloads ∧ Forall2 payload_of (ud_sources d) payloads.
Proof. apply read_unit_spec. Qed.

(** A unit with two small sources. *)
Definition sample_source (path : string) (payload : pybytes) : PackUnitSource :=
  {| us_path := str path; us_bytes := len payload; us_sha256 := sha256_hex payload |}.

Definition sample_descriptor : PackUnitDescriptor :=
  {| ud_volume_id := str "pack-" ++ repeatZ 64 (chr "0"); ud_unit := 0; ud_payload_bytes := 5;
     ud_plaintext_start := 0; ud_plaintext_bytes := 4096; ud_final := true;
     ud_sources := [sample_source "a" [1; 2; 3]; sample_source "b" [4; 5]];
     ud_plan_sha256 := repeatZ 64 (chr "0") |}.

Lemma read_unit_exact_witness :
  read_unit sample_descriptor [[1]; []; [2; 3; 4]; [5]] = Ok [[1; 2; 3]; [4; 5]].
Proof.
  apply (read_unit_exact sample_descriptor).
  - repeat constructor; vm_compute; discriminate.
  - vm_compute. reflexivity.
  - split; [reflexivity|]. repeat constructor.
Defined.

(** ** Exceptions *)

Section exceptions.
Context `{PyEnv}.

Lemma canonical_json_bytes_raises v : raises_only is_value_error (canonical_json_bytes v).
Proof. apply utf8_encode_raises. Qed.

Lemma source_rows_raises v : raises_only is_value_error (_source_rows v).
Proof.
  unfold _source_rows. destruct v; try done. apply raises_only_bind; [|by intros [] _].
  apply raises_only_foldM. intros [seen out] row _. unfold source_rows_step, _required_nonnegative_int.
  walk_exceptions.
Qed.

Lemma normalized_unit_row_raises v i : raises_only is_value_error (_normalized_unit_row v i).
Proof.
  unfold _normalized_unit_row, _required_nonnegative_int. walk_exceptions. apply source_rows_raises.
Qed.

Lemma normalized_rows_raises i units : raises_only is_value_error (normalized_rows i units).
Proof.
  revert i. induction units as [|u units IH]; intros i; [done|]. cbn [normalized_rows].
  apply raises_only_bind; [apply normalized_unit_row_raises|]. intros row _.
  apply raises_only_bind; [apply IH|done].
Qed.

Lemma plan_sha256_digest volume_id n units d : pack_upload_plan_sha256 volume_id n units = Ok d →
  1 ≤ n ∧ sha256_fullmatch d = true.
Proof.
  unfold pack_upload_plan_sha256. intros Hd.
  destruct (negb _); [done|]. destruct (Z.leb_spec n 0); [done|]. destruct (match units with [] => _ | _ => _ end); [done|].
  apply bind_Ok in Hd as (rows & _ & Hd). apply bind_Ok in Hd as (content & _ & Hd).
  injection Hd as <-. split; [lia|apply sha256_hex_fullmatch].
Qed.

Lemma plan_sha256_raises volume_id n units :
  raises_only is_value_error (pack_upload_plan_sha256 volume_id n units).
Proof.
  unfold pack_upload_plan_sha256. walk_exceptions. apply normalized_rows_raises.
Qed.
End exceptions.

#[export] Hint Resolve canonical_json_bytes_raises plan_sha256_raises : exceptions.
