(* ===== verification/RawIngress.v ===== *)
(** * Raw source digests

    [riverhog_protocol/raw_ingress.py]: the commitment to the ordered part
    digests of a raw file, built in one pass or in durable batches, the summary
    record, and the span of part digests one raw volume covers. *)

From S2P Require Import Prelude Text Json Sha256 Paths.

Definition RAW_SOURCE_DIGEST_SUMMARY_SCHEMA : pystr := str "raw-source-digest-summary/v1".
Definition _COMMITMENT_SEED : pybytes := sha256 (str "riverhog-ordered-raw-parts/v1" ++ [0]).

Definition _part_count (byte_count part_plaintext_bytes : Z) : result Z :=
  when (byte_count <? 0) || (part_plaintext_bytes <? 65536)
       || negb (part_plaintext_bytes mod 65536 =? 0)
    raise ValueError "raw source digest byte values are invalid";
  Ok (Z.max 1 ((byte_count + part_plaintext_bytes - 1) / part_plaintext_bytes)).

Definition _advance_part_commitment (state : pybytes) (number : Z) (value : pystr) :
    result pybytes :=
  when negb (sha256_fullmatch value) raise ValueError "raw source part SHA-256 is invalid";
  n ← to_bytes_big 8 number; v ← bytes_fromhex value;
  Ok (sha256 (state ++ n ++ v)).

(** The loop over [enumerate(part_sha256s)]; the state carries the next part
    number. *)
Definition commitment_step (st : Z * pybytes) (value : pystr) : result (Z * pybytes) :=
  let '(number, state) := st in
  state' ← _advance_part_commitment state number value; Ok (number + 1, state').

Definition ordered_raw_part_commitment (part_sha256s : list pystr) : result (Z * pystr) :=
  '(count, state) ← foldM commitment_step (0, _COMMITMENT_SEED) part_sha256s;
  when count <? 1 raise ValueError "raw source digest sequence must not be empty";
  Ok (count, bytes_hex state).

Definition initial_commitment (prior_sha256 : option pystr) (first_part : Z) : result pybytes :=
  if first_part =? 0 then
    match prior_sha256 with
    | Some _ => Err (Exn ValueError (str "initial raw source commitment must not have prior state"))
    | None => Ok _COMMITMENT_SEED
    end
  else
    match prior_sha256 with
    | Some prior =>
        when negb (sha256_fullmatch prior) raise ValueError "raw source commitment state is invalid";
        bytes_fromhex prior
    | None => Err (Exn ValueError (str "raw source commitment state is invalid"))
    end.

Definition advance_raw_part_commitment (prior_sha256 : option pystr) (first_part : Z)
    (part_sha256s : list pystr) : result (Z * pystr) :=
  when first_part <? 0 raise ValueError "raw source first part must be non-negative";
  state ← initial_commitment prior_sha256 first_part;
  '(next, state') ← foldM commitment_step (first_part, state) part_sha256s;
  when next - first_part <? 1 raise ValueError "raw source digest batch must not be empty";
  Ok (next, bytes_hex state').

Record RawSourceDigestSummary := {
  rs_path : pystr;
  rs_bytes : Z;
  rs_sha256 : pystr;
  rs_part_plaintext_bytes : Z;
  rs_part_count : Z;
  rs_ordered_part_sha256 : pystr;
  rs_schema : pystr;
}.

(** [RawSourceDigestSummary(...)] with its [__post_init__]. *)
Definition new_RawSourceDigestSummary `{UnicodeData} (s : RawSourceDigestSummary) :
    result RawSourceDigestSummary :=
  normalized ← normalize_relpath (rs_path s);
  when negb (bool_decide (normalized = rs_path s))
    raise ValueError "raw source digest path is not canonical";
  expected_parts ← _part_count (rs_bytes s) (rs_part_plaintext_bytes s);
  when negb (rs_part_count s =? expected_parts)
    raise ValueError "raw source digest part count is invalid";
  when negb (sha256_fullmatch (rs_sha256 s)) || negb (sha256_fullmatch (rs_ordered_part_sha256 s))
    raise ValueError "raw source digest SHA-256 is invalid";
  when negb (bool_decide (rs_schema s = RAW_SOURCE_DIGEST_SUMMARY_SCHEMA))
    raise ValueError "raw source digest summary schema mismatch";
  Ok s.

Definition raw_volume_part_span (summary : RawSourceDigestSummary)
    (file_offset plaintext_bytes : Z) : result (Z * Z) :=
  when (file_offset <? 0) || (plaintext_bytes <? 0)
    raise ValueError "raw volume digest range is invalid";
  when rs_bytes summary <? file_offset + plaintext_bytes
    raise ValueError "raw volume digest range exceeds the source";
  let part_bytes := rs_part_plaintext_bytes summary in
  when negb (file_offset mod part_bytes =? 0)
    raise ValueError "raw volume offset must align to the digest part size";
  let final := file_offset + plaintext_bytes =? rs_bytes summary in
  when negb final && negb (plaintext_bytes mod part_bytes =? 0)
    raise ValueError "non-final raw volume must end on a digest part boundary";
  let first := file_offset / part_bytes in
  let count := Z.max 1 ((plaintext_bytes + part_bytes - 1) / part_bytes) in
  when rs_part_count summary <? first + count
    raise ValueError "raw source digest sequence does not cover the volume";
  Ok (first, count).

(** ** Batches build the one-pass commitment *)

(** Durable batches: each resumes from the number and the digest before it. *)
Definition advance_all (batches : list (list pystr)) : result (Z * option pystr) :=
  foldM (λ st batch, '(n, s) ← advance_raw_part_commitment st.2 st.1 batch; Ok (n, Some s))
    (0, None) batches.

Definition is_digest (s : pybytes) : Prop := len s = 32 ∧ bytes_ok s.

Lemma seed_digest : is_digest _COMMITMENT_SEED.
Proof. apply sha256_shape. Qed.

Lemma commitment_steps_shape n s parts n' s' :
  foldM commitment_step (n, s) parts = Ok (n', s') →
  n' = n + len parts ∧ (is_digest s → is_digest s').
Proof.
  revert n s. induction parts as [|p parts IH]; intros n s Hf; cbn [foldM] in Hf.
  { inv_ok Hf. subst. unfold len. simpl. split; [lia|done]. }
  apply bind_Ok in Hf as ([n1 s1] & Hstep & Hf). apply IH in Hf as [-> Hd].
  unfold commitment_step, _advance_part_commitment in Hstep. inv_ok Hstep. subst.
  rewrite len_cons. split; [lia|]. intros _. apply Hd, sha256_shape.
Qed.

Lemma digest_hex_resumes s : is_digest s →
  sha256_fullmatch (bytes_hex s) = true ∧ bytes_fromhex (bytes_hex s) = Ok s.
Proof. intros [Hl Hb]. split; [by apply sha256_fullmatch_hex|by apply bytes_hex_roundtrip]. Qed.

(** One batch from a state that [n > 0] parts produced. *)
Lemma advance_from_state n s batch : 0 < n → is_digest s → batch ≠ [] →
  advance_raw_part_commitment (Some (bytes_hex s)) n batch =
  ('(n', s') ← foldM commitment_step (n, s) batch; Ok (n', bytes_hex s')).
Proof.
  intros Hn Hs Hb. unfold advance_raw_part_commitment, initial_commitment.
  destruct (digest_hex_resumes s Hs) as [Hm Hr].
  rewrite (proj2 (Z.ltb_ge n 0)), (proj2 (Z.eqb_neq n 0)), Hm, Hr by lia. cbn [negb].
  rewrite ok_bind. destruct (foldM _ _ _) as [[n' s']|] eqn:E; [|done]. rewrite !ok_bind.
  apply commitment_steps_shape in E as [-> _]. destruct batch; [done|].
  rewrite (proj2 (Z.ltb_ge _ _)) by len_lia. done.
Qed.

Lemma advance_initial batch : batch ≠ [] →
  advance_raw_part_commitment None 0 batch =
  ('(n', s') ← foldM commitment_step (0, _COMMITMENT_SEED) batch; Ok (n', bytes_hex s')).
Proof.
  intros Hb. unfold advance_raw_part_commitment, initial_commitment.
  change (0 <? 0) with false. change (0 =? 0) with true. cbv iota. rewrite ok_bind.
  destruct (foldM _ _ _) as [[n' s']|] eqn:E; [|done]. rewrite !ok_bind.
  apply commitment_steps_shape in E as [-> _]. destruct batch; [done|].
  rewrite (proj2 (Z.ltb_ge _ _)) by len_lia. done.
Qed.

Lemma advance_batches n s batches : 0 < n → is_digest s → Forall (λ b, b ≠ []) batches →
  foldM (λ st batch, '(n, s) ← advance_raw_part_commitment st.2 st.1 batch; Ok (n, Some s))
    (n, Some (bytes_hex s)) batches =
  ('(n', s') ← foldM commitment_step (n, s) (concat batches); Ok (n', Some (bytes_hex s'))).
Proof.
  intros Hn Hs Hb. revert n s Hn Hs. induction Hb as [|b batches Hb Hbs IH]; intros n s Hn Hs; [done|].
  cbn [foldM concat fst snd]. rewrite advance_from_state by done. rewrite foldM_app.
  destruct (foldM commitment_step (n, s) b) as [[n' s']|] eqn:E; [|done]. rewrite !ok_bind.
  apply commitment_steps_shape in E as [-> Hd]. apply IH; [len_lia|auto].
Qed.

(** Appending part digests in durable batches gives the commitment of the whole
    sequence: for any non-empty batches, resuming [advance_raw_part_commitment]
    from the stored digest after each one ends in the same count and digest (or
    the same error) as [ordered_raw_part_commitment] in one pass. *)
Theorem commitment_batches batches : batches ≠ [] → Forall (λ b, b ≠ []) batches →
  advance_all batches =
  ('(n, s) ← ordered_raw_part_commitment (concat batches); Ok (n, Some s)).
Proof.
  intros Hne Hb. destruct batches as [|b batches]; [done|]. apply Forall_cons in Hb as [Hb Hbs].
  unfold advance_all, ordered_raw_part_commitment. cbn [foldM concat fst snd].
  rewrite advance_initial, foldM_app by done.
  destruct (foldM commitment_step (0, _COMMITMENT_SEED) b) as [[n s]|] eqn:E; [|done].
  apply commitment_steps_shape in E as [Hn Hd]. rewrite !ok_bind.
  destruct b as [|p b]; [done|].
  rewrite advance_batches; [|len_lia|apply Hd, seed_digest|done].
  destruct (foldM commitment_step (n, s) (concat batches)) as [[n' s']|] eqn:E'; [|done].
  apply commitment_steps_shape in E' as [-> _]. rewrite !ok_bind.
  rewrite len_cons in Hn. pose proof (len_nonneg b). pose proof (len_nonneg (concat batches)).
  by rewrite (proj2 (Z.ltb_ge (n + len (concat batches)) 1)) by lia.
Qed.

Lemma commitment_batches_witness :
  let part x := sha256_hex [x] in
  advance_all [[part 1; part 2]; [part 3]] =
  ('(n, s) ← ordered_raw_part_commitment [part 1; part 2; part 3]; Ok (n, Some s)).
Proof.
  apply (commitment_batches [[sha256_hex [1]; sha256_hex [2]]; [sha256_hex [3]]]); [done|].
  by repeat constructor.
Defined.

(** ** Part spans of raw volumes *)

Lemma valid_summary_parts `{UnicodeData} s s' : new_RawSourceDigestSummary s = Ok s' →
  0 ≤ rs_bytes s ∧ 65536 ≤ rs_part_plaintext_bytes s ∧
  rs_part_count s =
    Z.max 1 ((rs_bytes s + rs_part_plaintext_bytes s - 1) / rs_part_plaintext_bytes s).
Proof.
  unfold new_RawSourceDigestSummary, _part_count. intros Hs. inv_ok Hs. bool_prop. subst. lia.
Qed.

(** The span of part digests of a raw volume is exact: it starts at the part the
    volume starts with, every part in it lies inside the file, and it ends where
    the volume ends, at a part boundary or at the last part of the file.  The
    volume must not be empty, unless the file is. *)
Theorem raw_volume_part_span_exact `{UnicodeData} s file_offset plaintext_bytes first count :
  new_RawSourceDigestSummary s = Ok s →
  0 < plaintext_bytes ∨ rs_bytes s = 0 →
  raw_volume_part_span s file_offset plaintext_bytes = Ok (first, count) →
  let part_bytes := rs_part_plaintext_bytes s in
  first * part_bytes = file_offset ∧ 1 ≤ count ∧ first + count ≤ rs_part_count s ∧
  file_offset + plaintext_bytes ≤ (first + count) * part_bytes ∧
  (if file_offset + plaintext_bytes =? rs_bytes s then first + count = rs_part_count s
   else (first + count) * part_bytes = file_offset + plaintext_bytes).
Proof.
  intros Hs Hpos Hspan. pose proof (valid_summary_parts _ _ Hs) as (Hb & Hpb & Hcount).
  unfold raw_volume_part_span in Hspan. inv_ok Hspan. bool_prop. subst. cbv zeta.
  rewrite Hcount in *. set (pb := rs_part_plaintext_bytes s) in *. clearbody pb.
  assert (file_offset = pb * (file_offset / pb)) as Hoff.
  { apply Z.div_exact; [lia|]. lia. }
  set (k := file_offset / pb) in *. clearbody k. subst file_offset.
  assert (0 ≤ pb * k) as Hk by by apply Z.ltb_ge.
  assert (0 ≤ plaintext_bytes) as Hp0 by by apply Z.ltb_ge.
  assert (pb * k + plaintext_bytes ≤ rs_bytes s) as Hle by by apply Z.ltb_ge.
  assert (plaintext_bytes ≤ Z.max 1 ((plaintext_bytes + pb - 1) / pb) * pb) as Hcov.
  { pose proof (ceil_div_bounds plaintext_bytes pb ltac:(lia)) as Hc. clear -Hc Hpb.
    set (c := (plaintext_bytes + pb - 1) / pb) in *. clearbody c. nia. }
  split_and!; [lia|apply Z.le_max_l|by apply Z.ltb_ge|clear -Hcov; nia|].
  destruct (Z.eqb_spec (pb * k + plaintext_bytes) (rs_bytes s)) as [Heq|Hne].
  - rewrite <- Heq. replace (pb * k + plaintext_bytes + pb - 1) with
      (plaintext_bytes + pb - 1 + k * pb) by lia. rewrite Z.div_add by lia.
    assert (0 ≤ k) as Hk0 by (clear -Hk Hpb; nia). destruct Hpos as [Hpos|Hz].
    + assert (1 ≤ (plaintext_bytes + pb - 1) / pb) as Hc.
      { clear -Hpos Hpb. apply Z.div_le_lower_bound; lia. }
      clear -Hc Hk0. set (c := _ / _) in *. clearbody c. lia.
    + assert (k = 0 ∧ plaintext_bytes = 0) as [-> ->] by (clear -Hz Heq Hk Hp0 Hpb; nia). by rewrite Z.add_0_r.
  - cbn [negb andb] in *. bool_prop.
    assert (plaintext_bytes = pb * (plaintext_bytes / pb)) as Hp by (apply Z.div_exact; lia).
    set (j := plaintext_bytes / pb) in *. clearbody j. subst plaintext_bytes.
    replace ((pb * j + pb - 1) / pb) with j; [|apply Z.div_unique with (pb - 1); lia].
    destruct Hpos as [Hpos|Hz].
    + assert (1 ≤ j) by (clear -Hpos Hpb; nia). rewrite Z.max_r by lia. ring.
    + exfalso. clear -Hz Hne Hk Hp0 Hle. lia.
Qed.

Definition sample_summary : RawSourceDigestSummary :=
  {| rs_path := str "a"; rs_bytes := 200000; rs_sha256 := repeatZ 64 (chr "0");
     rs_part_plaintext_bytes := 65536; rs_part_count := 4;
     rs_ordered_part_sha256 := repeatZ 64 (chr "0");
     rs_schema := RAW_SOURCE_DIGEST_SUMMARY_SCHEMA |}.

Lemma raw_volume_part_span_exact_witness :
  raw_volume_part_span sample_summary 131072 68928 = Ok (2, 2) ∧
  2 + 2 = rs_part_count sample_summary.
Proof.
  split; [reflexivity|].
  apply (@raw_volume_part_span_exact ascii_data sample_summary 131072 68928 2 2);
    [vm_compute; reflexivity | left; lia | reflexivity].
Defined.
