(* ===== verification/Tar.v ===== *)
(** * Tar headers of pack members

    The tar part of [riverhog_core/pack_volume.py]: ustar headers, the pax
    extension for long paths and large sizes, and the padding to 512-byte
    blocks.  The specification is an independent reader of the POSIX format
    ([tar_read_entry]): it checks the magic and the checksum, reads the numeric
    fields, applies pax records, and is shown to recover path and size from
    every header the code writes. *)

From S2P Require Import Prelude Text Sha256.

Definition _TAR_BLOCK_SIZE : Z := 512.
(** [int("7" * 11, 8)] *)
Definition _TAR_USTAR_SIZE_MAX : Z := of_digits 8 (repeatZ 11 7).

Definition _tar_padding (size : Z) : Z := (- size) mod _TAR_BLOCK_SIZE.

(** [header[offset : offset + len(value)] = value] *)
Definition splice (offset : Z) (value header : pybytes) : pybytes :=
  take (Z.to_nat offset) header ++ value ++ drop (Z.to_nat offset + length value) header.

Definition _write_tar_field (header : pybytes) (offset length : Z) (value : pybytes) :
    result pybytes :=
  when length <? len value raise ValueError "tar header field is too long";
  Ok (splice offset value header).

(** [f"{value:0{width}o}"]: the zeros go after the sign. *)
Definition format_octal (width value : Z) : pystr :=
  if value <? 0 then chr "-" :: format_padded 8 (width - 1) (- value)
  else format_padded 8 width value.

(** [bs.rjust(width, b"0")] *)
Definition rjust0 (width : Z) (bs : pybytes) : pybytes := repeatZ (width - len bs) (chr "0") ++ bs.

Definition _write_tar_octal (header : pybytes) (offset length value : Z) : result pybytes :=
  let encoded := format_octal (length - 1) value ++ [0] in
  when length <? len encoded raise ValueError "tar header numeric field is too large";
  Ok (splice offset (rjust0 length encoded) header).

(** [for index in range(1, len(parts))] *)
Fixpoint ustar_split (path : pystr) (parts : list pystr) (indices : list nat) :
    result (pybytes * pybytes) :=
  match indices with
  | [] => Err (Exn ValueError (str "collection archive path is too long for ustar: " ++ path))
  | index :: indices' =>
      prefix ← utf8_encode (join_on (chr "/") (take index parts));
      name ← utf8_encode (join_on (chr "/") (drop index parts));
      if (len prefix <=? 155) && (len name <=? 100) then Ok (name, prefix)
      else ustar_split path parts indices'
  end.

Definition _ustar_name (path : pystr) : result (pybytes * pybytes) :=
  encoded ← utf8_encode path;
  if len encoded <=? 100 then Ok (encoded, [])
  else
    let parts := split_on (chr "/") path in
    ustar_split path parts (seq 1 (length parts - 1)).

Definition _tar_ustar_header (path : pystr) (size : Z) (typeflag : pybytes) : result pybytes :=
  '(name, prefix) ← _ustar_name path;
  let header := repeatZ _TAR_BLOCK_SIZE 0 in
  header ← _write_tar_field header 0 100 name;
  header ← _write_tar_octal header 100 8 (of_digits 8 [6; 4; 4]);
  header ← _write_tar_octal header 108 8 0;
  header ← _write_tar_octal header 116 8 0;
  header ← _write_tar_octal header 124 12 size;
  header ← _write_tar_octal header 136 12 0;
  let header := splice 148 (str "        ") header in
  when negb (len typeflag =? 1) raise ValueError "tar header typeflag must be one byte";
  let header := splice 156 typeflag header in
  header ← _write_tar_field header 257 6 (str "ustar" ++ [0]);
  header ← _write_tar_field header 263 2 (str "00");
  header ← _write_tar_field header 345 155 prefix;
  _write_tar_octal header 148 8 (sumZ id header).

Definition hashed_path (prefix : string) (path : pystr) : result pystr :=
  encoded ← utf8_encode path; Ok (str prefix ++ take 32 (sha256_hex encoded)).

Definition _pax_header_path (path : pystr) : result pystr := hashed_path "PaxHeaders/" path.
Definition _pax_placeholder_path (path : pystr) : result pystr := hashed_path "riverhog-pax/" path.

(** [dict[str, str]] in insertion order. *)
Abbreviation pax_dict := (list (pystr * pystr)).

Definition _tar_file_header_values (path : pystr) (size : Z) : result (pax_dict * pystr * Z) :=
  '(attrs, file_header_path) ←
    match _ustar_name path with
    | Ok _ => Ok ([], path)
    | Err e =>
        if is_value_error (exn_class e) then
          placeholder ← _pax_placeholder_path path; Ok ([(str "path", path)], placeholder)
        else Err e
    end;
  if _TAR_USTAR_SIZE_MAX <? size
  then Ok (attrs ++ [(str "size", str_of_Z size)], file_header_path, 0)
  else Ok (attrs, file_header_path, size).

(** [while True: ...]: the size settles within three iterations
    ([pax_size_settles]). *)
Fixpoint pax_size (fuel : nat) (suffix_len size : Z) : result Z :=
  match fuel with
  | O => Err (Exn RuntimeError (str "loop bound exceeded"))
  | S fuel =>
      let next_size := suffix_len + len (str_of_Z size) in
      if next_size =? size then Ok size else pax_size fuel suffix_len next_size
  end.

Definition _pax_record (key value : pystr) : result pybytes :=
  suffix ← utf8_encode (str " " ++ key ++ str "=" ++ value ++ [10]);
  size ← pax_size 3 (len suffix) (len suffix + len (str_of_Z (len suffix)));
  Ok (str_of_Z size ++ suffix).

Definition _pax_payload (attrs : pax_dict) : result pybytes :=
  records ← mapM_result (λ kv, _pax_record kv.1 kv.2) attrs; Ok (concat records).

Definition _tar_header (path : pystr) (size : Z) : result pybytes :=
  '(pax_attrs, file_header_path, file_header_size) ← _tar_file_header_values path size;
  file_header ← _tar_ustar_header file_header_path file_header_size (str "0");
  match pax_attrs with
  | [] => Ok file_header
  | _ =>
      pax_payload ← _pax_payload pax_attrs;
      pax_path ← _pax_header_path path;
      pax_header ← _tar_ustar_header pax_path (len pax_payload) (str "x");
      Ok (pax_header ++ pax_payload ++ repeatZ (_tar_padding (len pax_payload)) 0 ++ file_header)
  end.

(** ** A reader of the format *)

(** The bytes of a field up to its terminating NUL, if it has one. *)
Fixpoint until_nul (bs : pybytes) : pybytes :=
  match bs with
  | [] => []
  | b :: bs' => if b =? 0 then [] else b :: until_nul bs'
  end.

Definition octal_digit (b : Z) : option Z :=
  if (48 <=? b) && (b <=? 55) then Some (b - 48) else None.

Definition read_octal (field : pybytes) : option Z :=
  of_digits 8 <$> mapM octal_digit (until_nul field).

(** Name, size and type of one header block; [None] if the magic, a number or
    the checksum is wrong. *)
Definition read_ustar (block : pybytes) : option (pybytes * Z * Z) :=
  let name := until_nul (slice 0 100 block) in
  let prefix := until_nul (slice 345 500 block) in
  size ← read_octal (slice 124 136 block);
  checksum ← read_octal (slice 148 156 block);
  typeflag ← head (slice 156 157 block);
  let blanked := splice 148 (str "        ") block in
  if (len block =? 512) && bool_decide (slice 257 265 block = str "ustar" ++ [0] ++ str "00")
     && (checksum =? sumZ id blanked)
  then Some (match prefix with [] => name | _ => prefix ++ str "/" ++ name end, size, typeflag)
  else None.

(** Decimal digits up to the first byte that is none. *)
Fixpoint read_decimal (acc : Z) (bs : pybytes) : Z * pybytes :=
  match bs with
  | b :: bs' => if (48 <=? b) && (b <=? 57) then read_decimal (acc * 10 + (b - 48)) bs' else (acc, bs)
  | [] => (acc, [])
  end.

Fixpoint break_at (c : Z) (bs : pybytes) : pybytes * pybytes :=
  match bs with
  | [] => ([], [])
  | b :: bs' => if b =? c then ([], bs') else let '(l, r) := break_at c bs' in (b :: l, r)
  end.

(** Pax records: a decimal length of the whole record, a blank, [key=value] and
    a line feed. *)
Fixpoint read_pax (fuel : nat) (bs : pybytes) : option (list (pybytes * pybytes)) :=
  match bs with
  | [] => Some []
  | _ =>
      match fuel with
      | O => None
      | S fuel =>
          let '(n, after) := read_decimal 0 bs in
          let used := len bs - len after in
          let body := slice used n bs in
          if (used <? n) && (n <=? len bs) && bool_decide (head body = Some (chr " "))
             && bool_decide (last body = Some 10)
          then
            rest ← read_pax fuel (drop (Z.to_nat n) bs);
            Some (break_at (chr "=") (slice 1 (len body - 1) body) :: rest)
          else None
      end
  end.

Fixpoint pax_lookup (key : pystr) (attrs : list (pybytes * pybytes)) : option pybytes :=
  match attrs with
  | [] => None
  | (k, v) :: attrs' => if decide (k = key) then Some v else pax_lookup key attrs'
  end.

(** The next entry of an archive: its path, the size of its data, and what
    follows the header. *)
Definition tar_read_entry (bs : pybytes) : option (pybytes * Z * pybytes) :=
  '(name, size, typeflag) ← read_ustar (take 512 bs);
  let after := drop 512 bs in
  if typeflag =? chr "x" then
    attrs ← read_pax (Z.to_nat size) (slice 0 size after);
    let next := drop (Z.to_nat (size + _tar_padding size)) after in
    '(name', size', typeflag') ← read_ustar (take 512 next);
    if typeflag' =? chr "0" then
      Some (default name' (pax_lookup (str "path") attrs),
            match pax_lookup (str "size") attrs with
            | Some v => (read_decimal 0 v).1
            | None => size'
            end,
            drop 512 next)
    else None
  else if typeflag =? chr "0" then Some (name, size, after)
  else None.

(** The entries of an archive, up to the two zero blocks that end it. *)
Fixpoint tar_read_all (fuel : nat) (bs : pybytes) : option (list (pybytes * pybytes)) :=
  match fuel with
  | O => None
  | S fuel =>
      if bool_decide (take 1024 bs = repeatZ 1024 0) then Some []
      else
        '(path, size, after) ← tar_read_entry bs;
        if size <=? len after then
          rest ← tar_read_all fuel (drop (Z.to_nat (size + _tar_padding size)) after);
          Some ((path, take (Z.to_nat size) after) :: rest)
        else None
  end.

Definition tar_read_archive (bs : pybytes) : option (list (pybytes * pybytes)) :=
  tar_read_all (length bs) bs.

#[global] Arguments splice : simpl never.
#[global] Arguments _tar_padding : simpl never.

(** ** Padding *)

Lemma tar_padding_bounds size : 0 ≤ _tar_padding size < 512.
Proof. unfold _tar_padding, _TAR_BLOCK_SIZE. lia. Qed.

Lemma tar_padding_aligns size : (size + _tar_padding size) mod 512 = 0.
Proof. unfold _tar_padding, _TAR_BLOCK_SIZE. lia. Qed.

Lemma tar_padding_aligned size : size mod 512 = 0 → _tar_padding size = 0.
Proof. unfold _tar_padding, _TAR_BLOCK_SIZE. lia. Qed.

(** ** Writing into a header

    A header is a sequence of fields; writing at the start of a field replaces
    a prefix of that field. *)

Lemma splice_field fs i f v off :
  fs !! i = Some f → off = sumZ len (take i fs) → (length v ≤ length f)%nat →
  splice off v (concat fs) = concat (<[i := v ++ drop (length v) f]> fs).
Proof.
  intros Hi -> Hv. rewrite <- len_concat. unfold splice, len. rewrite Nat2Z.id.
  rewrite <- (take_drop_middle fs i f Hi) at 2 4. rewrite concat_app. cbn [concat].
  rewrite take_app_length, <- drop_drop, drop_app_length, drop_app_le by done.
  rewrite insert_take_drop by (by eapply lookup_lt_Some). rewrite concat_app. cbn [concat].
  by rewrite <- app_assoc.
Qed.

Lemma slice_field (fs : list pybytes) i f a b :
  fs !! i = Some f → a = sumZ len (take i fs) → b = a + len f → slice a b (concat fs) = f.
Proof.
  intros Hi -> ->. rewrite <- len_concat. rewrite <- (take_drop_middle fs i f Hi) at 3.
  rewrite concat_app. cbn [concat]. rewrite slice_app_r by lia.
  rewrite Z.sub_diag, Z.add_simpl_l, slice_app_l by lia. apply slice_full.
Qed.

(** ** Numeric fields *)

Definition octal_field (length value : Z) : pybytes := format_padded 8 (length - 1) value ++ [0].

Lemma format_padded_digits base width v :
  format_padded base width v =
  digit_char <$> (repeatZ (width - len (digits base v)) 0 ++ digits base v).
Proof.
  unfold format_padded. rewrite fmap_app, len_fmap. f_equal. unfold repeatZ.
  by rewrite fmap_replicate.
Qed.

Lemma len_octal_field length v : 2 ≤ length → 0 ≤ v < 8 ^ (length - 1) →
  len (octal_field length v) = length.
Proof.
  intros Hl Hv. unfold octal_field. rewrite format_padded_digits, len_app, len_fmap, len_app.
  pose proof (digits_len 8 v (length - 1) ltac:(lia) ltac:(lia) ltac:(lia) ltac:(lia)).
  rewrite len_repeatZ by lia. unfold len at 3. simpl. lia.
Qed.

Lemma of_digits_zeros base n ds : of_digits base (replicate n 0 ++ ds) = of_digits base ds.
Proof. induction n as [|n IH]; [done|]. unfold of_digits in *. simpl. by rewrite Z.add_0_r. Qed.

(** A padded hexadecimal number is read back, and so is injective. *)
Lemma read_padded n : 0 ≤ n → of_digits 16 ((λ c, default 0 (hex_value c)) <$> format_padded 16 64 n) = n.
Proof.
  intros Hn. rewrite format_padded_digits, <- list_fmap_compose.
  pose proof (digits_bound 16 n ltac:(lia) Hn) as Hb.
  assert ((λ c, default 0 (hex_value c)) ∘ digit_char <$> repeatZ (64 - len (digits 16 n)) 0 ++ digits 16 n =
          repeatZ (64 - len (digits 16 n)) 0 ++ digits 16 n) as ->.
  { rewrite <- list_fmap_id. apply list_fmap_ext. intros i d Hd. cbn. rewrite hex_value_digit; [done|].
    apply list_elem_of_lookup_2, elem_of_app in Hd as [Hd|Hd];
      [apply elem_of_replicate in Hd as [-> _]; lia|]. rewrite Forall_forall in Hb. by apply Hb. }
  unfold repeatZ. rewrite of_digits_zeros. by apply digits_of_digits.
Qed.

Lemma padded_inj n m : 0 ≤ n → 0 ≤ m → format_padded 16 64 n = format_padded 16 64 m → n = m.
Proof. intros Hn Hm He. rewrite <- (read_padded n Hn), <- (read_padded m Hm). by rewrite He. Qed.

Lemma until_nul_app bs rest : Forall (λ b, b ≠ 0) bs →
  until_nul (bs ++ 0 :: rest) = bs.
Proof.
  induction 1 as [|b bs Hb Hbs IH]; [done|]. simpl.
  rewrite (proj2 (Z.eqb_neq b 0)) by done. by rewrite IH.
Qed.

Lemma until_nul_all bs : Forall (λ b, b ≠ 0) bs → until_nul bs = bs.
Proof.
  induction 1 as [|b bs Hb Hbs IH]; [done|]. simpl.
  rewrite (proj2 (Z.eqb_neq b 0)) by done. by rewrite IH.
Qed.

Lemma octal_digits ds : Forall (λ d, 0 ≤ d < 8) ds →
  mapM octal_digit (digit_char <$> ds) = Some ds ∧ Forall (λ b, b ≠ 0) (digit_char <$> ds).
Proof.
  induction 1 as [|d ds Hd Hds [IH IH']]; [done|]. rewrite fmap_cons. cbn [mapM].
  assert (digit_char d = 48 + d) as -> by (unfold digit_char; case_match; lia).
  assert (octal_digit (48 + d) = Some d) as Ho.
  { unfold octal_digit. replace (_ && _) with true by lia. f_equal. lia. }
  split; [|constructor; [lia|done]]. by rewrite Ho, IH.
Qed.

Lemma read_octal_field length v : 0 ≤ v → read_octal (octal_field length v) = Some v.
Proof.
  intros Hv. unfold read_octal, octal_field. rewrite format_padded_digits.
  destruct (octal_digits (repeatZ (length - 1 - len (digits 8 v)) 0 ++ digits 8 v)) as [Hm Hn].
  { apply Forall_app. split; [|apply digits_bound; lia]. by apply Forall_replicate. }
  rewrite (until_nul_app _ [] Hn), Hm. simpl. unfold repeatZ. rewrite of_digits_zeros.
  by rewrite digits_of_digits by lia.
Qed.

Lemma octal_field_ok length v : 0 ≤ v → bytes_ok (octal_field length v).
Proof.
  intros Hv. apply Forall_app. split; [|by repeat constructor]. rewrite format_padded_digits, Forall_fmap.
  eapply (Forall_impl (λ d, 0 ≤ d < 8)).
  - apply Forall_app. split; [by apply Forall_replicate|apply digits_bound; lia].
  - intros d Hd. cbn. unfold digit_char, is_byte. case_match; lia.
Qed.

Lemma write_octal_field fs i f off length v :
  fs !! i = Some f → off = sumZ len (take i fs) → len f = length → 2 ≤ length →
  0 ≤ v < 8 ^ (length - 1) →
  _write_tar_octal (concat fs) off length v = Ok (concat (<[i := octal_field length v]> fs)).
Proof.
  intros Hi Hoff Hf Hl Hv. unfold _write_tar_octal, format_octal.
  rewrite (proj2 (Z.ltb_ge v 0)) by lia. fold (octal_field length v).
  pose proof (len_octal_field length v Hl Hv) as Hlen. rewrite Hlen, Z.ltb_irrefl.
  unfold rjust0. rewrite Hlen, Z.sub_diag. change (repeatZ 0 (chr "0")) with (@nil Z). cbn [app].
  rewrite (splice_field fs i f) by (done || (unfold len in *; lia)).
  rewrite drop_ge by (unfold len in *; lia). by rewrite app_nil_r.
Qed.

Lemma write_text_field fs i f off length v :
  fs !! i = Some f → off = sumZ len (take i fs) → len f = length → len v ≤ length →
  _write_tar_field (concat fs) off length v = Ok (concat (<[i := v ++ drop (List.length v) f]> fs)).
Proof.
  intros Hi Hoff Hf Hv. unfold _write_tar_field. rewrite (proj2 (Z.ltb_ge _ _)) by lia.
  by rewrite (splice_field fs i f) by (done || (unfold len in *; lia)).
Qed.

(** ** The layout of a header block *)

Definition zeros (n : Z) : pybytes := repeatZ n 0.

(** [bs] padded with NULs to a field of [n] bytes. *)
Definition nul_padded (n : Z) (bs : pybytes) : pybytes := bs ++ zeros (n - len bs).

Definition ustar_fields (name prefix : pybytes) (size typeflag : Z) (checksum : pybytes) :
    list pybytes :=
  [nul_padded 100 name; octal_field 8 420; octal_field 8 0; octal_field 8 0;
   octal_field 12 size; octal_field 12 0; checksum; [typeflag]; zeros 100;
   str "ustar" ++ [0]; str "00"; zeros 80; nul_padded 155 prefix; zeros 12].

Definition ustar_block (name prefix : pybytes) (size typeflag : Z) : pybytes :=
  let blank := concat (ustar_fields name prefix size typeflag (str "        ")) in
  concat (ustar_fields name prefix size typeflag (octal_field 8 (sumZ id blank))).

Lemma len_nul_padded n bs : len bs ≤ n → len (nul_padded n bs) = n.
Proof. intros Hn. unfold nul_padded, zeros. rewrite len_app, len_repeatZ by lia. lia. Qed.

Lemma drop_zeros n bs : len bs ≤ n → bs ++ drop (length bs) (zeros n) = nul_padded n bs.
Proof.
  intros Hn. unfold nul_padded, zeros, repeatZ. f_equal. rewrite drop_replicate.
  f_equal. unfold len in *. lia.
Qed.

Lemma len_ustar_fields name prefix size typeflag checksum :
  len name ≤ 100 → len prefix ≤ 155 → 0 ≤ size < 8 ^ 11 → len checksum = 8 →
  len <$> ustar_fields name prefix size typeflag checksum =
  [100; 8; 8; 8; 12; 12; 8; 1; 100; 6; 2; 80; 155; 12].
Proof.
  intros Hn Hp Hs Hc. unfold ustar_fields. cbn [fmap list_fmap].
  rewrite !len_nul_padded, !(len_octal_field 12), Hc by (done || lia). reflexivity.
Qed.

Lemma ustar_name_bounds path name prefix : _ustar_name path = Ok (name, prefix) →
  len name ≤ 100 ∧ len prefix ≤ 155.
Proof.
  unfold _ustar_name. intros Hn. apply bind_Ok in Hn as (encoded & _ & Hn).
  destruct (Z.leb_spec (len encoded) 100).
  { inv_ok Hn. subst. rewrite len_nil. lia. }
  revert Hn. generalize (seq 1 (length (split_on (chr "/") path) - 1)) as indices.
  induction indices as [|i indices IH]; intros Hn; [done|]. cbn [ustar_split] in Hn.
  apply bind_Ok in Hn as (pre & _ & Hn). apply bind_Ok in Hn as (nam & _ & Hn).
  destruct (_ && _) eqn:E; [|by apply IH]. inv_ok Hn. subst. bool_prop. lia.
Qed.

Lemma ustar_fields_bytes name prefix size typeflag checksum :
  bytes_ok name → bytes_ok prefix → 0 ≤ size → is_byte typeflag → bytes_ok checksum →
  bytes_ok (concat (ustar_fields name prefix size typeflag checksum)).
Proof.
  intros Hn Hp Hs Ht Hc. apply Forall_concat. unfold ustar_fields, nul_padded.
  assert (∀ n, bytes_ok (zeros n)) as Hz by (intros n; by apply Forall_replicate).
  assert (∀ s : string, bytes_ok (str s)) as Hstr.
  { intros s. induction s as [|a s IH]; [constructor|]. constructor; [|exact IH].
    unfold is_byte. pose proof (Ascii.N_ascii_bounded a). lia. }
  repeat (apply Forall_cons; split); try apply Forall_nil_2;
    rewrite ?Forall_app; repeat split; auto using octal_field_ok with lia.
  all: try (by apply octal_field_ok); try (by apply Hz); try (unfold is_byte in Ht; lia).
  all: by repeat constructor.
Qed.

Lemma checksum_bound bs : bytes_ok bs → len bs = 512 → 0 ≤ sumZ id bs < 8 ^ 7.
Proof.
  intros Hb Hl. pose proof (sumZ_upper id 255 bs) as Hu. pose proof (sumZ_nonneg id bs) as Hn.
  rewrite Hl in Hu. split.
  - apply Hn. eapply Forall_impl; [exact Hb|]. intros b Hx. unfold is_byte, id in *. lia.
  - eapply Z.le_lt_trans; [apply Hu|lia]. eapply Forall_impl; [exact Hb|].
    intros b Hx. unfold is_byte, id in *. lia.
Qed.

Section layout.
Variables (name prefix : pybytes) (size typeflag : Z).
Hypothesis name_len : len name ≤ 100.
Hypothesis prefix_len : len prefix ≤ 155.
Hypothesis name_bytes : bytes_ok name.
Hypothesis prefix_bytes : bytes_ok prefix.
Hypothesis size_range : 0 ≤ size < 8 ^ 11.
Hypothesis typeflag_byte : is_byte typeflag.

Let fields := ustar_fields name prefix size typeflag.

Lemma len_concat_fields checksum : len checksum = 8 → len (concat (fields checksum)) = 512.
Proof.
  intros Hc. rewrite len_concat. transitivity (sumZ id (len <$> fields checksum)).
  - by rewrite sumZ_fmap.
  - unfold fields. by rewrite len_ustar_fields by done.
Qed.

Definition ustar_checksum : Z := sumZ id (concat (fields (str "        "))).

Lemma ustar_checksum_range : 0 ≤ ustar_checksum < 8 ^ 7.
Proof.
  apply checksum_bound; [|by apply len_concat_fields].
  apply ustar_fields_bytes; try done; try lia. by repeat constructor.
Qed.

Ltac write_next := rewrite ?ok_bind; cbn [insert list_insert].

(** Side conditions of the writes: the field, its offset, its width. *)
Ltac write_side :=
  solve [done | lia
    | cbn [take]; rewrite !sumZ_cons, ?len_nul_padded, ?(len_octal_field 12 size) by done; reflexivity].

Lemma tar_ustar_header_layout path : _ustar_name path = Ok (name, prefix) →
  _tar_ustar_header path size [typeflag] = Ok (ustar_block name prefix size typeflag).
Proof.
  intros Hname. unfold _tar_ustar_header. rewrite Hname, ok_bind.
  change (repeatZ _TAR_BLOCK_SIZE 0) with
    (concat (zeros <$> [100; 8; 8; 8; 12; 12; 8; 1; 100; 6; 2; 80; 155; 12])).
  cbn [fmap list_fmap]. cbv zeta.
  rewrite (write_text_field _ 0 (zeros 100)), drop_zeros by done. write_next.
  rewrite (write_octal_field _ 1 (zeros 8)) by write_side. write_next.
  rewrite (write_octal_field _ 2 (zeros 8)) by write_side. write_next.
  rewrite (write_octal_field _ 3 (zeros 8)) by write_side. write_next.
  rewrite (write_octal_field _ 4 (zeros 12)) by write_side. write_next.
  rewrite (write_octal_field _ 5 (zeros 12)) by write_side. write_next.
  rewrite (splice_field _ 6 (zeros 8)) by write_side. write_next.
  rewrite (splice_field _ 7 (zeros 1)) by write_side. write_next.
  rewrite (write_text_field _ 9 (zeros 6)) by write_side. write_next.
  rewrite (write_text_field _ 10 (zeros 2)) by write_side. write_next.
  rewrite (write_text_field _ 12 (zeros 155)), drop_zeros by write_side. write_next.
  rewrite (write_octal_field _ 6 (str "        ")) by
    (write_side || apply ustar_checksum_range). done.
Qed.
Lemma read_ustar_block :
  Forall (λ b, b ≠ 0) name → Forall (λ b, b ≠ 0) prefix →
  read_ustar (ustar_block name prefix size typeflag) =
  Some (match prefix with [] => name | _ => prefix ++ str "/" ++ name end, size, typeflag).
Proof.
  intros Hn Hp. pose proof ustar_checksum_range as Hc.
  change (ustar_block name prefix size typeflag) with
    (concat (ustar_fields name prefix size typeflag (octal_field 8 ustar_checksum))).
  set (chk := octal_field 8 ustar_checksum).
  assert (len chk = 8) as Hchk by by apply len_octal_field.
  pose proof (len_concat_fields chk Hchk) as Hlen. unfold fields in Hlen.
  unfold read_ustar. rewrite Hlen.
  assert (∀ n bs, Forall (λ b, b ≠ 0) bs → until_nul (nul_padded n bs) = bs) as Hnul.
  { intros n bs Hbs. unfold nul_padded, zeros, repeatZ. destruct (Z.to_nat _); simpl.
    - rewrite app_nil_r. by apply until_nul_all.
    - by apply until_nul_app. }
  assert (∀ i, sumZ len (take i (ustar_fields name prefix size typeflag chk)) =
    sumZ id (take i [100; 8; 8; 8; 12; 12; 8; 1; 100; 6; 2; 80; 155; 12])) as Hoff.
  { intros i. rewrite <- (len_ustar_fields name prefix size typeflag chk) by done.
    by rewrite <- fmap_take, sumZ_fmap. }
  assert (∀ i f a b, ustar_fields name prefix size typeflag chk !! i = Some f →
    a = sumZ id (take i [100; 8; 8; 8; 12; 12; 8; 1; 100; 6; 2; 80; 155; 12]) → b = a + len f →
    slice a b (concat (ustar_fields name prefix size typeflag chk)) = f) as Hslice.
  { intros i f a b Hi -> ->. by apply (slice_field _ i); [done|rewrite Hoff|]. }
  assert (len (octal_field 12 size) = 12) as Hsz by by apply len_octal_field.
  rewrite (Hslice 0%nat (nul_padded 100 name) 0 100) by (done || by rewrite len_nul_padded).
  rewrite (Hslice 12%nat (nul_padded 155 prefix) 345 500) by (done || by rewrite len_nul_padded).
  rewrite (Hslice 4%nat (octal_field 12 size) 124 136) by (done || by rewrite Hsz).
  rewrite (Hslice 6%nat chk 148 156) by (done || by rewrite Hchk).
  rewrite (Hslice 7%nat [typeflag] 156 157) by done.
  rewrite <- (slice_app 257 263 265) by lia.
  rewrite (Hslice 9%nat (str "ustar" ++ [0]) 257 263), (Hslice 10%nat (str "00") 263 265) by done.
  assert (length chk = 8%nat) as Hchk' by (unfold len in Hchk; lia).
  assert (read_octal chk = Some ustar_checksum) as Hread by (apply read_octal_field; lia).
  clearbody chk. rewrite (splice_field _ 6 chk); [|done|by rewrite Hoff|by rewrite Hchk'].
  rewrite (drop_ge chk), app_nil_r by by rewrite Hchk'.
  change (sumZ id (concat (<[6%nat := _]> _))) with ustar_checksum.
  rewrite read_octal_field, Hread, !Hnul by (done || lia). cbn [mbind option_bind head].
  by rewrite !Z.eqb_refl, bool_decide_true.
Qed.
End layout.

(** ** Names *)

Definition no_nul (bs : pybytes) : Prop := Forall (λ b, b ≠ 0) bs.

(** The path a reader rebuilds from the two name fields. *)
Definition joined (name prefix : pybytes) : pybytes :=
  match prefix with [] => name | _ => prefix ++ str "/" ++ name end.

Lemma ustar_split_correct path p indices name prefix :
  utf8_encode path = Ok p → head path ≠ Some (chr "/") →
  Forall (λ i, 1 ≤ i < length (split_on (chr "/") path))%nat indices →
  ustar_split path (split_on (chr "/") path) indices = Ok (name, prefix) →
  p = prefix ++ str "/" ++ name ∧ prefix ≠ [].
Proof.
  intros Hp Hhead Hidx. induction Hidx as [|i indices Hi Hidx IH]; intros Hs; [done|].
  cbn [ustar_split] in Hs. apply bind_Ok in Hs as (pre & Hpre & Hs).
  apply bind_Ok in Hs as (nam & Hnam & Hs). destruct (_ && _); [|by apply IH].
  injection Hs as <- <-. pose proof (join_split (chr "/") path) as Hpath.
  set (parts := split_on (chr "/") path) in *. clearbody parts.
  rewrite <- (take_drop i parts) in Hpath. rewrite join_on_app in Hpath.
  2: { intros Hnil. apply (f_equal length) in Hnil. rewrite length_take in Hnil. simpl in Hnil. lia. }
  2: { intros Hnil. apply (f_equal length) in Hnil. rewrite length_drop in Hnil. simpl in Hnil. lia. }
  rewrite <- Hpath in Hp, Hhead.
  change (chr "/" :: join_on (chr "/") (drop i parts)) with
    (str "/" ++ join_on (chr "/") (drop i parts)) in Hp.
  rewrite !utf8_encode_app, Hpre, Hnam in Hp. rewrite (utf8_encode_ascii (str "/")) in Hp.
  2: { by repeat constructor. }
  rewrite !ok_bind in Hp. injection Hp as <-. split; [done|]. intros ->.
  apply utf8_encode_nil_inv in Hpre. rewrite Hpre in Hhead. done.
Qed.

Lemma ustar_name_correct path p name prefix :
  utf8_encode path = Ok p → head path ≠ Some (chr "/") →
  _ustar_name path = Ok (name, prefix) → joined name prefix = p.
Proof.
  intros Hp Hhead. unfold _ustar_name. rewrite Hp, ok_bind.
  destruct (_ <=? _); intros Hn; [by injection Hn as <- <-|].
  destruct (ustar_split_correct path p (seq 1 (length (split_on (chr "/") path) - 1)) name prefix Hp Hhead) as [Heq Hne]; [|exact Hn|].
  - apply Forall_forall. intros i Hi%elem_of_seq. lia.
  - unfold joined. destruct prefix; congruence.
Qed.

Lemma joined_Forall (P : Z → Prop) name prefix :
  Forall P (joined name prefix) → Forall P name ∧ Forall P prefix.
Proof.
  destruct prefix as [|b prefix]; [done|]. unfold joined. rewrite !Forall_app. tauto.
Qed.

(** One header block, written and read back. *)
Lemma ustar_header_roundtrip path p size typeflag name prefix :
  text_ok path → utf8_encode path = Ok p → no_nul p → head path ≠ Some (chr "/") →
  _ustar_name path = Ok (name, prefix) → 0 ≤ size < 8 ^ 11 → is_byte typeflag →
  ∃ h, _tar_ustar_header path size [typeflag] = Ok h ∧ len h = 512 ∧
    read_ustar h = Some (p, size, typeflag).
Proof.
  intros Ht Hp Hnul Hhead Hname Hsize Htf.
  pose proof (ustar_name_bounds _ _ _ Hname) as [Hn Hpre].
  pose proof (ustar_name_correct _ _ _ _ Hp Hhead Hname) as Hj. rewrite <- Hj in Hnul.
  assert (bytes_ok p) as Hb by (eapply utf8_encode_bytes; [|done]; eapply Forall_impl; [exact Ht|by intros ? []]).
  rewrite <- Hj in Hb. apply joined_Forall in Hb as [Hb1 Hb2]. apply joined_Forall in Hnul as [Hz1 Hz2].
  exists (ustar_block name prefix size typeflag). split_and!.
  - by apply tar_ustar_header_layout.
  - unfold ustar_block. apply len_concat_fields; try done.
    apply len_octal_field; [lia|]. by apply ustar_checksum_range.
  - rewrite read_ustar_block by done. by rewrite <- Hj.
Qed.

(** The names of the pax header and of the placeholder entry are short ASCII. *)
Lemma hashed_path_ok (prefix : string) path p :
  utf8_encode path = Ok p → Forall (λ c, 0 < c < 128) (str prefix) → len (str prefix) ≤ 20 →
  head (str prefix) ≠ Some (chr "/") → str prefix ≠ [] →
  ∃ h, hashed_path prefix path = Ok h ∧ text_ok h ∧ utf8_encode h = Ok h ∧ no_nul h ∧
    head h ≠ Some (chr "/") ∧ _ustar_name h = Ok (h, []).
Proof.
  intros Hp Hpre Hlen Hhead Hne. unfold hashed_path. rewrite Hp, ok_bind. eexists. split; [done|].
  assert (Forall (λ c, 0 < c < 128) (str prefix ++ take 32 (sha256_hex p))) as Hh.
  { apply Forall_app. split; [done|]. apply Forall_take. unfold sha256_hex.
    eapply Forall_impl; [apply bytes_hex_lower, sha256_shape|].
    intros c Hc%is_lower_hex_ascii. lia. }
  set (h := str prefix ++ take 32 (sha256_hex p)) in *.
  assert (Forall (λ c, 0 ≤ c < 128) h) as Ha by (eapply Forall_impl; [exact Hh|]; simpl; lia).
  pose proof (utf8_encode_ascii h Ha) as He. split_and!; try done.
  - eapply Forall_impl; [exact Ha|]. intros c Hc. simpl in Hc. unfold is_scalar, is_code_point, is_surrogate. split; lia.
  - eapply Forall_impl; [exact Hh|]. simpl. lia.
  - unfold h. destruct (str prefix); [done|]. done.
  - unfold _ustar_name. rewrite He, ok_bind. rewrite (proj2 (Z.leb_le _ _)); [done|].
    unfold h. rewrite len_app, len_take. lia.
Qed.

(** ** Pax records *)

(** The self-describing length: it counts its own digits. *)
Lemma pax_size_settles n : 0 < n → ∃ size,
  pax_size 3 n (n + len (str_of_Z n)) = Ok size ∧ size = n + len (str_of_Z size) ∧
  size ≤ n + len (str_of_Z n) + 1.
Proof.
  intros Hn. set (d := len (str_of_Z n)).
  assert (1 ≤ d) as Hd by (apply len_str_pos; lia).
  assert (n < 10 ^ d) as Hlt by (apply len_str_lt; lia).
  assert (d < 10 ^ d) as Hdd by (apply Z.pow_gt_lin_r; lia).
  assert (10 ^ (d + 1) = 10 * 10 ^ d) as Hpow by (rewrite Z.pow_add_r by lia; lia).
  assert (∀ j, 0 ≤ j ≤ d + 1 → d ≤ len (str_of_Z (n + j)) ≤ d + 1) as Hj.
  { intros j Hj. split; [apply len_str_mono; lia|apply len_str_le; lia]. }
  pose proof (Hj d ltac:(lia)) as H0. pose proof (Hj (d + 1) ltac:(lia)) as H1.
  pose proof (len_str_mono (n + d) (n + (d + 1)) ltac:(lia)) as Hm.
  cbn [pax_size]. destruct (Z.eqb_spec (n + len (str_of_Z (n + d))) (n + d)) as [E|E].
  { eexists. split; [done|]. lia. }
  assert (len (str_of_Z (n + d)) = d + 1) as E1 by lia. rewrite E1.
  assert (len (str_of_Z (n + (d + 1))) = d + 1) as E2 by lia. rewrite E2.
  rewrite Z.eqb_refl. eexists. split; [done|]. lia.
Qed.

Lemma read_decimal_digits acc ds rest :
  Forall (λ d, 0 ≤ d < 10) ds → (∀ b r, rest = b :: r → b < 48 ∨ 57 < b) →
  read_decimal acc ((digit_char <$> ds) ++ rest) =
  (foldl (λ acc d, acc * 10 + d) acc ds, rest).
Proof.
  intros Hds Hrest. revert acc. induction Hds as [|d ds Hd Hds IH]; intros acc.
  - cbn [fmap list_fmap app foldl]. destruct rest as [|b r]; [done|]. cbn [read_decimal].
    specialize (Hrest b r eq_refl). by replace (_ && _) with false by lia.
  - rewrite fmap_cons, (proj1 (decimal_char_facts d Hd)). cbn [app read_decimal foldl].
    replace (_ && _) with true by lia. rewrite IH. do 2 f_equal. lia.
Qed.

Lemma read_decimal_str n rest : 0 ≤ n → (∀ b r, rest = b :: r → b < 48 ∨ 57 < b) →
  read_decimal 0 (str_of_Z n ++ rest) = (n, rest).
Proof.
  intros Hn Hrest. unfold str_of_Z. rewrite (proj2 (Z.ltb_ge n 0)) by lia.
  rewrite read_decimal_digits; [|apply digits_bound; lia|done].
  change (foldl _ 0 (digits 10 n)) with (of_digits 10 (digits 10 n)).
  by rewrite digits_of_digits by lia.
Qed.

Lemma break_at_app c l r : c ∉ l → break_at c (l ++ c :: r) = (l, r).
Proof.
  induction l as [|b l IH]; simpl; intros Hc; [by rewrite Z.eqb_refl|].
  rewrite (proj2 (Z.eqb_neq b c)) by set_solver. by rewrite IH by set_solver.
Qed.

Lemma pax_record_ok key value v :
  Forall (λ c, 0 ≤ c < 128) key → chr "=" ∉ key → utf8_encode value = Ok v → ∃ r,
  _pax_record key value = Ok r ∧
  (0 < len r ≤ len key + len v + 4 + len (str_of_Z (len key + len v + 3))) ∧
  ∀ fuel rest, read_pax (S fuel) (r ++ rest) = (rs ← read_pax fuel rest; Some ((key, v) :: rs)).
Proof.
  intros Hk Heq Hv. unfold _pax_record.
  rewrite !utf8_encode_app, Hv, (utf8_encode_ascii key) by done.
  rewrite (utf8_encode_ascii (str " ")), (utf8_encode_ascii (str "=")), (utf8_encode_ascii [10])
    by by repeat constructor.
  rewrite !ok_bind. set (suffix := str " " ++ key ++ str "=" ++ v ++ [10]).
  assert (len suffix = len key + len v + 3) as Hs.
  { unfold suffix. rewrite !len_app. change (len (str " ")) with 1. change (len (str "=")) with 1.
    change (len [10]) with 1. lia. }
  destruct (pax_size_settles (len suffix)) as (size & -> & Hsize & Hle); [len_lia|].
  rewrite ok_bind. eexists. split; [done|]. rewrite len_app, Hs in *.
  pose proof (len_str_pos size ltac:(len_lia)) as Hpos. split; [len_lia|]. intros fuel rest.
  cbn [read_pax]. destruct ((str_of_Z size ++ suffix) ++ rest) as [|b bs] eqn:Ebs.
  { apply (f_equal len) in Ebs. rewrite !len_app in Ebs. len_lia. }
  rewrite <- Ebs. clear b bs Ebs. rewrite <- app_assoc, read_decimal_str; [|len_lia|].
  2: { unfold suffix. intros b r [= <- _]. vm_compute. auto. }
  rewrite (len_app (str_of_Z size)). replace (len (str_of_Z size) + len (suffix ++ rest) -
    len (suffix ++ rest)) with (len (str_of_Z size)) by lia.
  rewrite slice_app_r, Z.sub_diag by lia. replace (size - len (str_of_Z size)) with (len suffix) by lia.
  rewrite slice_app_l, slice_full by lia.
  rewrite (proj2 (Z.ltb_lt _ _)) by len_lia. rewrite (proj2 (Z.leb_le _ _)) by (rewrite len_app; len_lia).
  rewrite (bool_decide_true (head suffix = _)) by done.
  rewrite (bool_decide_true (last suffix = _)).
  2: { unfold suffix. rewrite !app_assoc. apply last_snoc. }
  cbn [andb]. rewrite app_assoc, drop_app_ge by (rewrite length_app; unfold len in *; lia).
  rewrite length_app. replace (Z.to_nat size - _)%nat with 0%nat by (unfold len in *; lia).
  rewrite drop_0. destruct (read_pax fuel rest) as [rs|]; [|done].
  cbn [mbind option_bind]. do 2 f_equal. rewrite Hs. unfold suffix.
  replace (key ++ str "=" ++ v ++ [10]) with ((key ++ chr "=" :: v) ++ [10]) by by rewrite <- app_assoc.
  rewrite slice_app_r by done. change (len (str " ")) with 1.
  rewrite slice_app_l by (rewrite len_app, len_cons; lia).
  replace (len key + len v + 3 - 1 - 1) with (len (key ++ chr "=" :: v)) by (rewrite len_app, len_cons; lia).
  rewrite slice_full. by apply break_at_app.
Qed.

(** The attributes the code writes, as a reader decodes them. *)
Lemma pax_payload_ok attrs decoded :
  Forall2 (λ kv dec, dec.1 = kv.1 ∧ Forall (λ c, 0 ≤ c < 128) kv.1 ∧ chr "=" ∉ kv.1 ∧
    utf8_encode kv.2 = Ok dec.2) attrs decoded →
  ∃ payload, _pax_payload attrs = Ok payload ∧ len attrs ≤ len payload ∧
    len payload ≤ sumZ (λ dec, len dec.1 + len dec.2 + 4 +
      len (str_of_Z (len dec.1 + len dec.2 + 3))) decoded ∧
    ∀ fuel, (length attrs ≤ fuel)%nat → read_pax fuel payload = Some decoded.
Proof.
  unfold _pax_payload. induction 1 as [|[k x] [k' v] attrs decoded (Hk & Ha & He & Hv) _ IH].
  { exists []. split_and!; try done. by intros []. }
  cbn [fst snd] in *. subst k'. destruct IH as (payload & Hpay & Hlen & Hmax & Hread).
  destruct (pax_record_ok k x v Ha He Hv) as (r & Hr & Hrl & Hrr). cbn [mapM_result fst snd].
  rewrite Hr, ok_bind. destruct (mapM_result _ attrs) as [records|]; [|done].
  rewrite ok_bind in *. injection Hpay as Hpay. exists (r ++ payload).
  subst payload. split_and!; [done| | |].
  - rewrite len_cons, len_app. lia.
  - rewrite len_app, sumZ_cons. cbn [fst snd]. lia.
  - intros [|fuel] Hf; [simpl in Hf; lia|]. rewrite Hrr, Hread by (simpl in Hf; lia). done.
Qed.

Lemma utf8_encode_err s e : utf8_encode s = Err e → exn_class e = UnicodeEncodeError.
Proof.
  unfold utf8_encode. intros He. assert (mapM_result utf8_char s = Err e) as Hm.
  { destruct (mapM_result utf8_char s); simpl in He; congruence. }
  clear He. revert Hm. induction s as [|c s IH]; cbn [mapM_result]; [done|].
  destruct (utf8_char c) as [b|e'] eqn:Hc.
  - rewrite ok_bind. destruct (mapM_result utf8_char s); [done|]. intros [= <-]. by apply IH.
  - intros [= <-]. unfold utf8_char in Hc. repeat case_match; by simplify_eq.
Qed.

Lemma ustar_name_err path e : _ustar_name path = Err e → is_value_error (exn_class e) = true.
Proof.
  unfold _ustar_name. destruct (utf8_encode path) as [p|] eqn:Hp; [rewrite ok_bind|].
  2: { intros [= <-]. by rewrite (utf8_encode_err _ _ Hp). }
  destruct (_ <=? _); [done|]. generalize (seq 1 (length (split_on (chr "/") path) - 1)) as indices.
  induction indices as [|i indices IH]; cbn [ustar_split]; [by intros [= <-]|].
  destruct (utf8_encode (join_on _ (take _ _))) eqn:H1; [rewrite ok_bind|].
  2: { intros [= <-]. by rewrite (utf8_encode_err _ _ H1). }
  destruct (utf8_encode (join_on _ (drop _ _))) eqn:H2; [rewrite ok_bind|].
  2: { intros [= <-]. by rewrite (utf8_encode_err _ _ H2). }
  by destruct (_ && _).
Qed.

(** A path that one header block can carry. *)
Definition ustar_path (path : pystr) (p : pybytes) : Prop :=
  text_ok path ∧ utf8_encode path = Ok p ∧ no_nul p ∧ head path ≠ Some (chr "/") ∧
  ∃ name prefix, _ustar_name path = Ok (name, prefix).

Definition decodes (kv : pystr * pystr) (dec : pybytes * pybytes) : Prop :=
  dec.1 = kv.1 ∧ Forall (λ c, 0 ≤ c < 128) kv.1 ∧ chr "=" ∉ kv.1 ∧ utf8_encode kv.2 = Ok dec.2.

(** What a reader makes of the attributes and the fields of the entry. *)
Definition entry_path (dec : list (pybytes * pybytes)) (p : pybytes) : pybytes :=
  default p (pax_lookup (str "path") dec).
Definition entry_size (dec : list (pybytes * pybytes)) (size : Z) : Z :=
  match pax_lookup (str "size") dec with Some v => (read_decimal 0 v).1 | None => size end.

Lemma decodes_path path p : utf8_encode path = Ok p → decodes (str "path", path) (str "path", p).
Proof. intros Hp. split_and!; [done|by repeat constructor| |done]. vm_compute. set_solver. Qed.

Lemma decodes_size size : decodes (str "size", str_of_Z size) (str "size", str_of_Z size).
Proof.
  split_and!; [done|by repeat constructor|vm_compute; set_solver|].
  apply utf8_encode_ascii, str_of_Z_ascii.
Qed.

Lemma ustar_size_max : _TAR_USTAR_SIZE_MAX = 8 ^ 11 - 1.
Proof. reflexivity. Qed.

Lemma header_path_ok path p :
  text_ok path → utf8_encode path = Ok p → no_nul p → head path ≠ Some (chr "/") →
  ∃ attrs fpath fp dec,
    match _ustar_name path with
    | Ok _ => Ok ([], path)
    | Err e =>
        if is_value_error (exn_class e) then
          placeholder ← _pax_placeholder_path path; Ok ([(str "path", path)], placeholder)
        else Err e
    end = Ok (attrs, fpath) ∧
    ustar_path fpath fp ∧ Forall2 decodes attrs dec ∧ entry_path dec fp = p ∧
    pax_lookup (str "size") dec = None ∧
    (attrs = [] ∧ dec = [] ∨ attrs = [(str "path", path)] ∧ dec = [(str "path", p)]).
Proof.
  intros Ht Hp Hn Hh. destruct (_ustar_name path) as [[name prefix]|e] eqn:Hname.
  - exists [], path, p, []. split_and!; try done; [|by left].
    split_and!; try done. eauto.
  - rewrite (ustar_name_err _ _ Hname).
    destruct (hashed_path_ok "riverhog-pax/" path p) as (h & Hhash & Hht & Hhe & Hhn & Hhh & Hhu);
      [done|by repeat constructor|done|done|done|].
    unfold _pax_placeholder_path. rewrite Hhash, ok_bind.
    exists [(str "path", path)], h, h, [(str "path", p)]. split_and!; try done.
    + split_and!; eauto.
    + apply Forall2_cons_2; [by apply decodes_path|constructor].
    + by right.
Qed.

(** The entry a header describes: attributes, file header and how they read. *)
Lemma header_values_ok path p size :
  text_ok path → utf8_encode path = Ok p → no_nul p → head path ≠ Some (chr "/") →
  len p ≤ 2 ^ 32 → 0 ≤ size < 2 ^ 63 →
  ∃ attrs fpath fp fsize dec,
    _tar_file_header_values path size = Ok (attrs, fpath, fsize) ∧
    ustar_path fpath fp ∧ 0 ≤ fsize < 8 ^ 11 ∧ Forall2 decodes attrs dec ∧
    entry_path dec fp = p ∧ entry_size dec fsize = size ∧
    sumZ (λ dec, len dec.1 + len dec.2 + 4 + len (str_of_Z (len dec.1 + len dec.2 + 3))) dec
      < 8 ^ 11.
Proof.
  intros Ht Hp Hn Hh Hlen Hsize. unfold _tar_file_header_values.
  destruct (header_path_ok path p) as (attrs & fpath & fp & dec & -> & Hu & Hdec & Hpath & Hnone & Hshape);
    [done..|]. rewrite ok_bind, ustar_size_max.
  pose proof (len_nonneg p) as Hp0.
  assert (len (str_of_Z size) ≤ 19) as Hs by (apply len_str_le; lia).
  pose proof (len_nonneg (str_of_Z size)) as Hs0.
  assert (len (str_of_Z (len p + 7)) ≤ 10) as Hd by (apply len_str_le; lia).
  assert (len (str_of_Z (len (str_of_Z size) + 7)) ≤ 2) as Hd' by (apply len_str_le; lia).
  assert (∀ x, len (str "path") + x + 3 = x + 7) as E1 by (intros x; change (len (str "path")) with 4; lia).
  assert (∀ x, len (str "size") + x + 3 = x + 7) as E2 by (intros x; change (len (str "size")) with 4; lia).
  destruct (Z.ltb_spec (8 ^ 11 - 1) size).
  - exists (attrs ++ [(str "size", str_of_Z size)]), fpath, fp, 0, (dec ++ [(str "size", str_of_Z size)]).
    split_and!; [done|done|lia|lia| | | |].
    + apply Forall2_app; [done|]. apply Forall2_cons_2; [apply decodes_size|constructor].
    + rewrite <- Hpath. by destruct Hshape as [[-> ->]|[-> ->]].
    + transitivity (read_decimal 0 (str_of_Z size)).1.
      * by destruct Hshape as [[-> ->]|[-> ->]].
      * rewrite <- (app_nil_r (str_of_Z size)). rewrite read_decimal_str; [done|lia|done].
    + rewrite sumZ_app. destruct Hshape as [[-> ->]|[-> ->]]; cbn [sumZ foldr fst snd];
        rewrite ?E1, ?E2; change (len (str "path")) with 4; change (len (str "size")) with 4; lia.
  - exists attrs, fpath, fp, size, dec. split_and!; try done; try lia.
    + unfold entry_size. by rewrite Hnone.
    + destruct Hshape as [[-> ->]|[-> ->]]; cbn [sumZ foldr fst snd]; rewrite ?E1;
        change (len (str "path")) with 4; lia.
Qed.

Lemma take_drop_block (h rest : pybytes) : len h = 512 →
  take 512 (h ++ rest) = h ∧ drop 512 (h ++ rest) = rest.
Proof.
  intros Hl. assert (length h = 512%nat) as <- by (unfold len in Hl; lia).
  by rewrite take_app_length, drop_app_length.
Qed.

Lemma read_plain_entry h p size rest : len h = 512 → read_ustar h = Some (p, size, chr "0") →
  tar_read_entry (h ++ rest) = Some (p, size, rest).
Proof.
  intros Hl Hr. destruct (take_drop_block h rest Hl) as [Ht Hd]. unfold tar_read_entry.
  by rewrite Ht, Hd, Hr.
Qed.

Lemma read_pax_entry ph pp payload dec fh fp fsize rest :
  len ph = 512 → read_ustar ph = Some (pp, len payload, chr "x") →
  read_pax (Z.to_nat (len payload)) payload = Some dec →
  len fh = 512 → read_ustar fh = Some (fp, fsize, chr "0") →
  tar_read_entry ((ph ++ payload ++ repeatZ (_tar_padding (len payload)) 0 ++ fh) ++ rest) =
  Some (entry_path dec fp, entry_size dec fsize, rest).
Proof.
  intros Hpl Hpr Hpay Hfl Hfr. rewrite <- !app_assoc.
  set (pad := repeatZ (_tar_padding (len payload)) 0).
  assert (len pad = _tar_padding (len payload)) as Hpad.
  { apply len_repeatZ. pose proof (tar_padding_bounds (len payload)). lia. }
  destruct (take_drop_block ph (payload ++ pad ++ fh ++ rest) Hpl) as [Ht Hd].
  destruct (take_drop_block fh rest Hfl) as [Ht' Hd'].
  unfold tar_read_entry. rewrite Ht, Hd, Hpr. cbn [mbind option_bind].
  change (chr "x" =? chr "x") with true. cbv iota.
  rewrite slice_app_l, slice_full, Hpay by lia. cbn [mbind option_bind].
  assert (drop (Z.to_nat (len payload + _tar_padding (len payload))) (payload ++ pad ++ fh ++ rest)
    = fh ++ rest) as ->; [|by rewrite Ht', Hd', Hfr].
  rewrite app_assoc, drop_app_ge by (rewrite length_app; unfold len in *; lia).
  replace (_ - _)%nat with 0%nat by (rewrite length_app; unfold len in *; lia). done.
Qed.

Lemma tar_header_reads path p size :
  text_ok path → utf8_encode path = Ok p → no_nul p → head path ≠ Some (chr "/") →
  len p ≤ 2 ^ 32 → 0 ≤ size < 2 ^ 63 →
  ∃ h, _tar_header path size = Ok h ∧ 512 ≤ len h ∧ len h mod 512 = 0 ∧
    ∀ rest, tar_read_entry (h ++ rest) = Some (p, size, rest).
Proof.
  intros Ht Hp Hn Hh Hlen Hsize.
  destruct (header_values_ok path p size) as
    (attrs & fpath & fp & fsize & dec & Hval & Hu & Hfs & Hdec & Hpath & Hsz & Hsum); [done..|].
  destruct Hu as (Hut & Hue & Hun & Huh & name & prefix & Huname).
  destruct (ustar_header_roundtrip fpath fp fsize (chr "0") name prefix) as (fh & Hfh & Hfl & Hfr);
    [done..|]. change [chr "0"] with (str "0") in Hfh.
  unfold _tar_header. rewrite Hval, ok_bind, Hfh, ok_bind.
  destruct (pax_payload_ok attrs dec Hdec) as (payload & Hpay & Hpos & Hmax & Hread).
  destruct Hdec as [|kv dkv attrs dec Hkv Hdec].
  { exists fh. split_and!; [done|lia|by rewrite Hfl|]. intros rest. rewrite <- Hpath, <- Hsz.
    by apply read_plain_entry. }
  rewrite Hpay, ok_bind. unfold _pax_header_path.
  destruct (hashed_path_ok "PaxHeaders/" path p) as (ph & -> & Hht & Hhe & Hhn & Hhh & Hhu);
    [done|by repeat constructor|done|done|done|]. rewrite ok_bind.
  destruct (ustar_header_roundtrip ph ph (len payload) (chr "x") ph []) as (pb & Hpb & Hpl & Hpr);
    [done..|len_lia|done|]. change [chr "x"] with (str "x") in Hpb. rewrite Hpb, ok_bind.
  pose proof (tar_padding_bounds (len payload)). pose proof (tar_padding_aligns (len payload)).
  eexists. split; [done|]. rewrite !len_app, len_repeatZ, Hpl, Hfl by lia.
  split_and!; [len_lia|lia|]. intros rest. rewrite <- Hpath, <- Hsz.
  apply (read_pax_entry pb ph); try done. apply Hread. unfold len in *. lia.
Qed.

(** Entries with a short path and a size that fits are a single block. *)
Lemma tar_header_short path size :
  Forall (λ c, 0 < c < 128) path → len path ≤ 100 → head path ≠ Some (chr "/") →
  0 ≤ size < 8 ^ 11 → ∃ h, _tar_header path size = Ok h ∧ len h = 512.
Proof.
  intros Ha Hl Hh Hs. assert (Forall (λ c, 0 ≤ c < 128) path) as Ha'.
  { eapply Forall_impl; [exact Ha|]. simpl. lia. }
  pose proof (utf8_encode_ascii path Ha') as He.
  assert (_ustar_name path = Ok (path, [])) as Hn.
  { unfold _ustar_name. rewrite He, ok_bind. by rewrite (proj2 (Z.leb_le _ _)) by done. }
  unfold _tar_header, _tar_file_header_values. rewrite Hn, ok_bind, ustar_size_max.
  rewrite (proj2 (Z.ltb_ge _ _)) by lia. rewrite ok_bind.
  destruct (ustar_header_roundtrip path path size (chr "0") path []) as (h & Hh' & Hlen & _); try done.
  - eapply Forall_impl; [exact Ha'|]. intros c Hc. simpl in Hc.
    unfold is_scalar, is_code_point, is_surrogate. split; lia.
  - eapply Forall_impl; [exact Ha|]. simpl. lia.
  - exists h. change [chr "0"] with (str "0") in Hh'. by rewrite Hh'.
Qed.

(** Every tar header the code writes reads back: for a relative NUL-free path
    and a 63-bit size the header exists, fills whole 512-byte blocks, and the
    reader recovers exactly the path, the size and the data that follows, also
    when path or size need a pax extension. *)
Theorem tar_header_roundtrip path p size :
  text_ok path → utf8_encode path = Ok p → no_nul p → head path ≠ Some (chr "/") →
  len p ≤ 2 ^ 32 → 0 ≤ size < 2 ^ 63 →
  ∃ h, _tar_header path size = Ok h ∧ 512 ≤ len h ∧ len h mod 512 = 0 ∧
    ∀ rest, tar_read_entry (h ++ rest) = Some (p, size, rest).
Proof. apply tar_header_reads. Qed.

Lemma tar_header_roundtrip_witness :
  ∃ h, _tar_header (repeatZ 200 (chr "a")) 1000000000000 = Ok h ∧ len h mod 512 = 0 ∧
    tar_read_entry (h ++ [1; 2]) = Some (repeatZ 200 (chr "a"), 1000000000000, [1; 2]).
Proof.
  destruct (tar_header_roundtrip (repeatZ 200 (chr "a")) (repeatZ 200 (chr "a")) 1000000000000)
    as (h & Hh & _ & Hm & Hr).
  - apply Forall_replicate. by apply (bool_decide_unpack _).
  - vm_compute. reflexivity.
  - by apply Forall_replicate.
  - vm_compute. discriminate.
  - vm_compute. discriminate.
  - lia.
  - exists h. split; [exact Hh|]. split; [exact Hm|apply Hr].
Defined.

(** ** Whole blocks

    Whatever the arguments, a header that is produced is a sequence of whole
    blocks: every write stays inside its field. *)

Lemma len_splice off v h : 0 ≤ off → off + len v ≤ len h → len (splice off v h) = len h.
Proof. unfold splice. rewrite !len_app, len_take, len_drop. unfold len. lia. Qed.

Lemma write_field_len h off n v h' : _write_tar_field h off n v = Ok h' →
  0 ≤ off → off + n ≤ len h → len h' = len h.
Proof. unfold _write_tar_field. intros Hw ??. inv_ok Hw. subst. apply len_splice; lia. Qed.

Lemma write_octal_len h off n v h' : _write_tar_octal h off n v = Ok h' →
  0 ≤ off → off + n ≤ len h → len h' = len h.
Proof.
  unfold _write_tar_octal. intros Hw ??. inv_ok Hw. subst. apply len_splice; [lia|].
  unfold rjust0. rewrite len_app, len_repeatZ by lia. lia.
Qed.

Lemma tar_ustar_header_len path size typeflag h :
  _tar_ustar_header path size typeflag = Ok h → len h = 512.
Proof.
  unfold _tar_ustar_header. intros Hh. apply bind_Ok in Hh as ([name prefix] & _ & Hh).
  assert (len (repeatZ _TAR_BLOCK_SIZE 0) = 512) as H0 by done.
  set (h0 := repeatZ _TAR_BLOCK_SIZE 0) in *. clearbody h0. cbv zeta in Hh.
  repeat match type of Hh with
  | mbind _ (_write_tar_field _ _ _ _) = _ =>
      apply bind_Ok in Hh as (? & ?%write_field_len & Hh); [|lia|lia]
  | mbind _ (_write_tar_octal _ _ _ _) = _ =>
      apply bind_Ok in Hh as (? & ?%write_octal_len & Hh); [|lia|lia]
  | (if ?b then Err _ else _) = _ => destruct b eqn:Etf; [discriminate Hh|]
  end.
  apply negb_false_iff, Z.eqb_eq in Etf.
  match type of Hh with context [splice 156 typeflag (splice 148 ?v ?x)] =>
    assert (len (splice 148 v x) = len x) as Hs by (apply len_splice; [lia|change (len v) with 8; lia]);
    pose proof (len_splice 156 typeflag (splice 148 v x) ltac:(lia) ltac:(lia)) as Hs';
    set (y := splice 156 typeflag (splice 148 v x)) in *; clearbody y
  end.
  apply bind_Ok in Hh as (? & Hw5%write_field_len & Hh); [|lia|lia].
  apply bind_Ok in Hh as (? & Hw6%write_field_len & Hh); [|lia|lia].
  apply bind_Ok in Hh as (? & Hw7%write_field_len & Hh); [|lia|lia].
  apply write_octal_len in Hh; lia.
Qed.

Lemma tar_header_blocks path size h : _tar_header path size = Ok h →
  len h mod 512 = 0 ∧ 512 ≤ len h.
Proof.
  unfold _tar_header. intros Hh. apply bind_Ok in Hh as ([[attrs fpath] fsize] & _ & Hh).
  apply bind_Ok in Hh as (fh & Hf%tar_ustar_header_len & Hh).
  destruct attrs as [|kv attrs]; [injection Hh as <-; rewrite Hf; lia|].
  apply bind_Ok in Hh as (payload & _ & Hh). apply bind_Ok in Hh as (pp & _ & Hh).
  apply bind_Ok in Hh as (ph & Hp%tar_ustar_header_len & Hh). injection Hh as <-.
  pose proof (tar_padding_bounds (len payload)). pose proof (tar_padding_aligns (len payload)).
  rewrite !len_app, len_repeatZ, Hf, Hp by lia. len_lia.
Qed.

(** ** Exceptions *)

Lemma ustar_name_raises path : raises_only is_value_error (_ustar_name path).
Proof.
  destruct (_ustar_name path) eqn:Hn; [done|]. by apply ustar_name_err in Hn.
Qed.

Lemma tar_ustar_header_raises path size typeflag :
  raises_only is_value_error (_tar_ustar_header path size typeflag).
Proof.
  unfold _tar_ustar_header, _write_tar_field, _write_tar_octal.
  apply raises_only_bind; [apply ustar_name_raises|]. intros [name prefix] _. walk_exceptions.
Qed.

Lemma pax_record_raises key value : raises_only is_value_error (_pax_record key value).
Proof.
  unfold _pax_record. apply raises_only_bind; [apply utf8_encode_raises|]. intros suffix Hs.
  destruct (pax_size_settles (len suffix)) as (size & -> & _); [|done].
  destruct suffix as [|b suffix]; [|len_lia]. by apply utf8_encode_nil_inv in Hs.
Qed.

#[export] Hint Resolve ustar_name_raises tar_ustar_header_raises pax_record_raises : exceptions.

Lemma hashed_path_raises prefix path : raises_only is_value_error (hashed_path prefix path).
Proof. unfold hashed_path. walk_exceptions. Qed.

#[export] Hint Resolve hashed_path_raises : exceptions.

Lemma header_values_raises path size :
  raises_only is_value_error (_tar_file_header_values path size).
Proof.
  unfold _tar_file_header_values. apply raises_only_bind.
  - destruct (_ustar_name path) as [|e] eqn:Hn; [done|]. rewrite (ustar_name_err _ _ Hn).
    apply raises_only_bind; [apply hashed_path_raises|done].
  - intros [attrs fpath] _. by destruct (_ <? _).
Qed.

Lemma tar_header_raises path size : raises_only is_value_error (_tar_header path size).
Proof.
  unfold _tar_header, _pax_payload, _pax_header_path.
  apply raises_only_bind; [apply header_values_raises|]. intros [[attrs fpath] fsize] _.
  walk_exceptions.
Qed.

#[export] Hint Resolve tar_header_raises : exceptions.

(** ** Whole archives *)

(** The bytes of a path, for paths that encode. *)
Definition path_bytes (path : pystr) : pybytes :=
  match utf8_encode path with Ok p => p | Err _ => [] end.

Definition header_bytes (path : pystr) (size : Z) : pybytes :=
  match _tar_header path size with Ok h => h | Err _ => [] end.

(** One tar entry: header, data, padding. *)
Definition entry_bytes (path : pystr) (data : pybytes) : pybytes :=
  header_bytes path (len data) ++ data ++ zeros (_tar_padding (len data)).

(** Paths that every tar reader can represent. *)
Definition readable_path (path : pystr) : Prop :=
  text_ok path ∧ no_nul (path_bytes path) ∧ head path ≠ Some (chr "/") ∧
  len (path_bytes path) ≤ 2 ^ 32.

Lemma len_zeros_padding n : len (zeros (_tar_padding n)) = _tar_padding n.
Proof. apply len_repeatZ. pose proof (tar_padding_bounds n). lia. Qed.

Lemma read_entry_not_end bs e : tar_read_entry bs = Some e → take 1024 bs ≠ repeatZ 1024 0.
Proof.
  intros He Hz. assert (take 512 bs = repeatZ 512 0) as Ht.
  { replace (take 512 bs) with (take 512 (take 1024 bs)) by (rewrite take_take; f_equal; lia).
    by rewrite Hz. }
  unfold tar_read_entry in He. rewrite Ht in He.
  assert (read_ustar (repeatZ 512 0) = None) as Hn by (vm_compute; reflexivity).
  by rewrite Hn in He.
Qed.

Lemma read_all_entry fuel path data rest :
  readable_path path → len data < 2 ^ 63 →
  tar_read_all (S fuel) (entry_bytes path data ++ rest) =
  (es ← tar_read_all fuel rest; Some ((path_bytes path, data) :: es)).
Proof.
  intros (Ht & Hn & Hh & Hl) Hd. destruct (utf8_encode_ok path Ht) as [p Hp].
  unfold path_bytes in *. rewrite Hp in *.
  destruct (tar_header_reads path p (len data)) as (h & Hhd & _ & _ & Hr); try done; [len_lia|].
  unfold entry_bytes, header_bytes. rewrite Hhd, <- !app_assoc.
  specialize (Hr (data ++ zeros (_tar_padding (len data)) ++ rest)). cbn [tar_read_all].
  rewrite bool_decide_false by by eapply read_entry_not_end. rewrite Hr. cbn [mbind option_bind].
  rewrite (proj2 (Z.leb_le _ _)) by (rewrite len_app; len_lia).
  pose proof (len_zeros_padding (len data)) as Hz. pose proof (tar_padding_bounds (len data)).
  assert (drop (Z.to_nat (len data + _tar_padding (len data)))
    (data ++ zeros (_tar_padding (len data)) ++ rest) = rest) as ->.
  { rewrite app_assoc, drop_app_ge by (rewrite length_app; unfold len in *; lia).
    replace (_ - _)%nat with 0%nat by (rewrite length_app; unfold len in *; lia). done. }
  destruct (tar_read_all fuel rest); [|done]. cbn [mbind option_bind]. do 3 f_equal.
  unfold len. by rewrite Nat2Z.id, take_app_length.
Qed.

Lemma read_all_entries fuel (items : list (pystr * pybytes)) :
  Forall (λ e, readable_path e.1 ∧ len e.2 < 2 ^ 63) items → (length items < fuel)%nat →
  tar_read_all fuel (concat ((λ e, entry_bytes e.1 e.2) <$> items) ++ zeros 1024) =
  Some ((λ e, (path_bytes e.1, e.2)) <$> items).
Proof.
  intros Hi. revert fuel. induction Hi as [|e items [Hp Hd] Hi IH]; intros fuel Hf.
  - destruct fuel as [|fuel]; [simpl in Hf; lia|]. cbn [fmap list_fmap concat app tar_read_all].
    by rewrite bool_decide_true by (vm_compute; reflexivity).
  - destruct fuel as [|fuel]; [simpl in Hf; lia|]. rewrite !fmap_cons. cbn [concat].
    rewrite <- app_assoc, read_all_entry, IH by (done || (simpl in Hf; lia)). done.
Qed.

Lemma entries_length (items : list (pystr * pybytes)) :
  Forall (λ e, readable_path e.1 ∧ len e.2 < 2 ^ 63) items →
  len items * 512 ≤ len (concat ((λ e, entry_bytes e.1 e.2) <$> items)).
Proof.
  induction 1 as [|e items [(Ht & Hn & Hh & Hl) Hd] Hi IH]; [done|].
  rewrite fmap_cons. cbn [concat]. rewrite len_cons, len_app.
  assert (512 ≤ len (entry_bytes e.1 e.2)); [|lia].
  destruct (utf8_encode_ok e.1 Ht) as [p Hp]. unfold path_bytes in *. rewrite Hp in *.
  destruct (tar_header_reads e.1 p (len e.2)) as (h & Hhd & Hhl & _); try done; [len_lia|].
  unfold entry_bytes, header_bytes. rewrite Hhd, len_app. len_lia.
Qed.

(** Reading a concatenation of entries and the end markers. *)
Lemma read_archive_entries (items : list (pystr * pybytes)) :
  Forall (λ e, readable_path e.1 ∧ len e.2 < 2 ^ 63) items →
  tar_read_archive (concat ((λ e, entry_bytes e.1 e.2) <$> items) ++ zeros 1024) =
  Some ((λ e, (path_bytes e.1, e.2)) <$> items).
Proof.
  intros Hi. pose proof (entries_length items Hi) as Hl. apply read_all_entries; [done|].
  rewrite length_app. unfold zeros, repeatZ. rewrite length_replicate. unfold len in Hl. lia.
Qed.
