(* ===== verification/PackVolume.v ===== *)
(** * Planning pack volumes

    The planning part of [riverhog_core/pack_volume.py]: files are normalised
    and sorted, laid out as tar entries, cut into upload units that end on age
    chunk boundaries, indexed, and committed to by a digest.  Persisted plans
    are rebuilt and verified, never trusted. *)

From S2P Require Import Prelude Text Json Sha256 Paths Domain PackIngress Tar.

Definition PACK_INDEX_SCHEMA : pystr := str "riverhog-pack-index/v1".
Definition PACK_VOLUME_PLAN_SCHEMA : pystr := str "pack-volume-plan/v1".
Definition PACK_INDEX_PATH : pystr := str ".riverhog/pack-index.json".
Definition PACK_PADDING_PREFIX : pystr := str ".riverhog/padding/".
Definition DEFAULT_PACK_SOURCE_BYTES : Z := 32 * 1024 * 1024.
Definition DEFAULT_PACK_FILES : Z := ARCHIVE_PACK_FILES_MAX.
Definition DEFAULT_PACK_MEMBER_BYTES : Z := 16 * 1024 * 1024.
Definition DEFAULT_PART_PLAINTEXT_BYTES : Z := 64 * 1024 * 1024.

(** [f"pack-{sequence:064x}"] *)
Definition pack_volume_id (sequence : Z) : pystr := str "pack-" ++ format_padded 16 64 sequence.

Definition file_row (f : ArchiveFile) : json := source_row (af_path f) (af_bytes f) (af_sha256 f).

(** [f"{path}\t{bytes}\t{sha256}\n"], the line a tree digest takes per file. *)
Definition tree_line (path : pystr) (bytes : Z) (sha256 : pystr) : pystr :=
  path ++ [9] ++ str_of_Z bytes ++ [9] ++ sha256 ++ [10].

Definition set_path (f : ArchiveFile) (path : pystr) : ArchiveFile :=
  {| af_path := path; af_bytes := af_bytes f; af_sha256 := af_sha256 f |}.

Section planning.
Context `{PyEnv}.

(** ** Normalised input *)

Definition normalized_file_step (max_member_bytes : Z) (st : list pystr * list ArchiveFile)
    (current : ArchiveFile) : result (list pystr * list ArchiveFile) :=
  let '(seen, out) := st in
  path ← normalize_relpath (af_path current);
  when startswith RESERVED_ARCHIVE_PREFIX path
    raises Exn ValueError (str "collection path uses reserved archive namespace: " ++ path);
  when bool_decide (path ∈ seen)
    raises Exn ValueError (str "duplicate collection archive path: " ++ path);
  when (af_bytes current <? 0) || (max_member_bytes <=? af_bytes current)
    raises Exn ValueError (str "file is outside the pack member size policy: " ++ path);
  when negb (sha256_fullmatch (af_sha256 current))
    raises Exn ValueError (str "collection archive file sha256 is invalid: " ++ path);
  Ok (path :: seen, out ++ [set_path current path]).

Definition _normalized_files (files : list ArchiveFile) (max_member_bytes : Z) :
    result (list ArchiveFile) :=
  when max_member_bytes <=? 0 raise ValueError "pack member byte limit must be positive";
  '(_, out) ← foldM (normalized_file_step max_member_bytes) ([], []) files;
  when match out with [] => true | _ => false end
    raise ValueError "pack volume requires at least one file";
  Ok (sorted_by af_path out).

(** ** The pack index *)

Definition index_row (m : PackMemberPlan) : json :=
  JObj [(str "path", JStr (pm_path m)); (str "bytes", JInt (pm_bytes m));
        (str "sha256", JStr (pm_sha256 m)); (str "unit", JInt (pm_unit m));
        (str "header_offset", JInt (pm_header_offset m));
        (str "data_offset", JInt (pm_data_offset m))].

Definition _pack_index_bytes (volume_id : pystr) (sequence : Z) (members : list PackMemberPlan) :
    result pybytes :=
  lines ← mapM_result (λ m, utf8_encode (tree_line (pm_path m) (pm_bytes m) (pm_sha256 m))) members;
  canonical_json_bytes
    (JObj [(str "schema", JStr PACK_INDEX_SCHEMA);
           (str "volume", JObj [(str "id", JStr volume_id); (str "sequence", JInt sequence)]);
           (str "tree", JObj [(str "files", JInt (len members));
                              (str "bytes", JInt (sumZ pm_bytes members));
                              (str "sha256", JStr (sha256_hex (concat lines)))]);
           (str "files", JList (index_row <$> members))]).

(** ** Alignment *)

Definition padding_path (volume_id : pystr) (unit : Z) : pystr :=
  PACK_PADDING_PREFIX ++ volume_id ++ str "-" ++ format_padded 10 6 unit.

Definition _alignment_padding (volume_id : pystr) (unit cursor : Z) :
    result (option PackPaddingPlan * Z) :=
  let remainder := cursor mod CHUNK_SIZE in
  if remainder =? 0 then Ok (None, cursor)
  else
    let contribution := CHUNK_SIZE - remainder in
    when (contribution <? _TAR_BLOCK_SIZE) || negb (contribution mod _TAR_BLOCK_SIZE =? 0)
      raise RuntimeError "tar alignment padding is not representable";
    let payload_bytes := contribution - _TAR_BLOCK_SIZE in
    let path := padding_path volume_id unit in
    header ← _tar_header path payload_bytes;
    let end_offset := cursor + len header + payload_bytes + _tar_padding payload_bytes in
    when negb (end_offset mod CHUNK_SIZE =? 0)
      raise RuntimeError "pack padding did not align to an age chunk boundary";
    Ok (Some {| pp_path := path; pp_header_offset := cursor; pp_payload_bytes := payload_bytes;
                pp_end_offset := end_offset |}, end_offset).

(** ** The layout loop *)

Record pack_state := {
  ps_members : list PackMemberPlan;
  ps_units : list PackUploadUnitPlan;
  ps_unit_sources : list ArchiveFile;
  ps_unit_start : Z;
  ps_cursor : Z;
  ps_unit_index : Z;
}.

Definition initial_pack_state : pack_state :=
  {| ps_members := []; ps_units := []; ps_unit_sources := []; ps_unit_start := 0;
     ps_cursor := 0; ps_unit_index := 0 |}.

(** The first half of an iteration: the member and the moved cursor. *)
Definition add_member (st : pack_state) (current : ArchiveFile) : result pack_state :=
  header ← _tar_header (af_path current) (af_bytes current);
  let header_offset := ps_cursor st in
  let data_offset := header_offset + len header in
  let end_offset := data_offset + af_bytes current + _tar_padding (af_bytes current) in
  Ok {| ps_members := ps_members st ++
          [{| pm_path := af_path current; pm_bytes := af_bytes current;
              pm_sha256 := af_sha256 current; pm_unit := ps_unit_index st;
              pm_header_offset := header_offset; pm_data_offset := data_offset;
              pm_end_offset := end_offset |}];
        ps_units := ps_units st;
        ps_unit_sources := ps_unit_sources st ++ [current];
        ps_unit_start := ps_unit_start st;
        ps_cursor := end_offset;
        ps_unit_index := ps_unit_index st |}.

(** The second half: the unit is closed on an age chunk boundary. *)
Definition close_unit (volume_id : pystr) (st : pack_state) : result pack_state :=
  '(padding, cursor) ← _alignment_padding volume_id (ps_unit_index st) (ps_cursor st);
  Ok {| ps_members := ps_members st;
        ps_units := ps_units st ++
          [{| pu_unit := ps_unit_index st; pu_plaintext_start := ps_unit_start st;
              pu_plaintext_end := cursor; pu_sources := ps_unit_sources st;
              pu_padding := padding; pu_includes_index := false;
              pu_includes_end_markers := false |}];
        ps_unit_sources := [];
        ps_unit_start := cursor;
        ps_cursor := cursor;
        ps_unit_index := ps_unit_index st + 1 |}.

Definition unit_full (part_plaintext_bytes : Z) (st : pack_state) : bool :=
  (part_plaintext_bytes <=? ps_cursor st - ps_unit_start st)
  || (COLLECTION_UPLOAD_UNIT_SOURCE_MAX <=? len (ps_unit_sources st)).

(** [for file_index, current in enumerate(normalized)] *)
Fixpoint layout_files (volume_id : pystr) (part_plaintext_bytes : Z) (st : pack_state)
    (files : list ArchiveFile) : result pack_state :=
  match files with
  | [] => Ok st
  | current :: rest =>
      st ← add_member st current;
      let has_more_files := match rest with [] => false | _ => true end in
      st ← (if has_more_files && unit_full part_plaintext_bytes st
            then close_unit volume_id st else Ok st);
      layout_files volume_id part_plaintext_bytes st rest
  end.

Definition _unit_row (u : PackUploadUnitPlan) : json :=
  unit_row (pu_unit u) (pu_payload_bytes u) (pu_plaintext_start u) (pu_plaintext_bytes u)
    (pu_final u) (file_row <$> pu_sources u).

(** The layout of files that are already normalised. *)
Definition layout_pack_volume (normalized : list ArchiveFile)
    (sequence max_member_bytes part_plaintext_bytes : Z) : result PackVolumePlan :=
  let volume_id := pack_volume_id sequence in
  st ← layout_files volume_id part_plaintext_bytes initial_pack_state normalized;
  index_bytes ← _pack_index_bytes volume_id sequence (ps_members st);
  index_header ← _tar_header PACK_INDEX_PATH (len index_bytes);
  let cursor := ps_cursor st + len index_header + (len index_bytes + _tar_padding (len index_bytes))
                + _TAR_BLOCK_SIZE * 2 in
  let units := ps_units st ++
    [{| pu_unit := ps_unit_index st; pu_plaintext_start := ps_unit_start st;
        pu_plaintext_end := cursor; pu_sources := ps_unit_sources st; pu_padding := None;
        pu_includes_index := true; pu_includes_end_markers := true |}] in
  plan_sha256 ← pack_upload_plan_sha256 volume_id cursor ((λ u, UnitMapping (_unit_row u)) <$> units);
  Ok {| pv_volume_id := volume_id; pv_sequence := sequence;
        pv_max_member_bytes := max_member_bytes; pv_part_plaintext_bytes := part_plaintext_bytes;
        pv_members := ps_members st; pv_units := units; pv_index_bytes := index_bytes;
        pv_index_sha256 := sha256_hex index_bytes; pv_plaintext_bytes := cursor;
        pv_plan_sha256 := plan_sha256 |}.

Definition plan_pack_volume (files : list ArchiveFile)
    (sequence max_member_bytes part_plaintext_bytes : Z) : result PackVolumePlan :=
  normalized ← _normalized_files files max_member_bytes;
  when ARCHIVE_PACK_FILES_MAX <? len normalized
    raise ValueError "pack files exceed the archive-volume limit";
  when sequence <? 0 raise ValueError "pack sequence must be non-negative";
  when part_plaintext_bytes <? 1
    raise ValueError "pack archive-part plaintext target must be positive";
  when negb (part_plaintext_bytes mod CHUNK_SIZE =? 0)
    raise ValueError "pack archive-part target must align to the age chunk size";
  when 2 ^ 256 <=? sequence raise ValueError "pack sequence exceeds its v1 representation";
  layout_pack_volume normalized sequence max_member_bytes part_plaintext_bytes.

(** ** Several volumes *)

Record volumes_state := {
  vs_volumes : list PackVolumePlan;
  vs_pending : list ArchiveFile;
  vs_pending_bytes : Z;
}.

Section volumes.
Variables (source_bytes_per_volume files_per_volume max_member_bytes part_plaintext_bytes : Z).

(** [volumes.append(plan_pack_volume(pending, sequence=len(volumes), ...))] *)
Definition flush_pending (st : volumes_state) : result volumes_state :=
  volume ← plan_pack_volume (vs_pending st) (len (vs_volumes st)) max_member_bytes
             part_plaintext_bytes;
  Ok {| vs_volumes := vs_volumes st ++ [volume]; vs_pending := []; vs_pending_bytes := 0 |}.

Definition has_pending (st : volumes_state) : bool :=
  match vs_pending st with [] => false | _ => true end.

Definition pack_volumes_step (st : volumes_state) (current : ArchiveFile) : result volumes_state :=
  st ← (if has_pending st
           && ((files_per_volume <=? len (vs_pending st))
               || (source_bytes_per_volume <? vs_pending_bytes st + af_bytes current))
        then flush_pending st else Ok st);
  Ok {| vs_volumes := vs_volumes st; vs_pending := vs_pending st ++ [current];
        vs_pending_bytes := vs_pending_bytes st + af_bytes current |}.

Definition plan_pack_volumes (files : list ArchiveFile) : result (list PackVolumePlan) :=
  normalized ← _normalized_files files max_member_bytes;
  when source_bytes_per_volume <=? 0 raise ValueError "pack source byte target must be positive";
  when files_per_volume <=? 0 raise ValueError "pack file limit must be positive";
  st ← foldM pack_volumes_step {| vs_volumes := []; vs_pending := []; vs_pending_bytes := 0 |}
         normalized;
  st ← (if has_pending st then flush_pending st else Ok st);
  Ok (vs_volumes st).
End volumes.

(** ** Persisted plans *)

Definition member_file (m : PackMemberPlan) : ArchiveFile :=
  {| af_path := pm_path m; af_bytes := pm_bytes m; af_sha256 := pm_sha256 m |}.

Definition pack_volume_plan_payload (plan : PackVolumePlan) : json :=
  JObj [(str "schema", JStr PACK_VOLUME_PLAN_SCHEMA);
        (str "volume_id", JStr (pv_volume_id plan));
        (str "sequence", JInt (pv_sequence plan));
        (str "max_member_bytes", JInt (pv_max_member_bytes plan));
        (str "part_plaintext_bytes", JInt (pv_part_plaintext_bytes plan));
        (str "plaintext_bytes", JInt (pv_plaintext_bytes plan));
        (str "index_sha256", JStr (pv_index_sha256 plan));
        (str "plan_sha256", JStr (pv_plan_sha256 plan));
        (str "files", JList ((λ m, file_row (member_file m)) <$> pv_members plan))].

Definition pack_volume_plan_bytes (plan : PackVolumePlan) : result pybytes :=
  canonical_json_bytes (pack_volume_plan_payload plan).

Definition _canonical_positive_int (v : json) (label : pystr) : result Z :=
  parsed ← canonical_nonnegative_int v label;
  when parsed <? 1 raises Exn ValueError (label ++ str " must be positive");
  Ok parsed.

Definition parse_plan_file (raw : json) : result ArchiveFile :=
  match raw with
  | JObj o =>
      when negb (keys_are o ["path"; "bytes"; "sha256"])
        raise ValueError "pack volume plan file is invalid";
      bytes ← canonical_nonnegative_int (get_or_null "bytes" o) (str "file bytes");
      Ok {| af_path := py_str (get_or_null "path" o); af_bytes := bytes;
            af_sha256 := py_str (get_or_null "sha256" o) |}
  | _ => Err (Exn ValueError (str "pack volume plan file is invalid"))
  end.

Definition rebuild_pack_volume_plan (payload : json) : result PackVolumePlan :=
  match payload with
  | JObj o =>
      when negb (is_str (get_or_null "schema" o) PACK_VOLUME_PLAN_SCHEMA)
        raise ValueError "pack volume plan schema mismatch";
      when negb (keys_are o ["schema"; "volume_id"; "sequence"; "max_member_bytes";
                             "part_plaintext_bytes"; "plaintext_bytes"; "index_sha256";
                             "plan_sha256"; "files"])
        raise ValueError "pack volume plan fields are invalid";
      sequence ← canonical_nonnegative_int (get_or_null "sequence" o) (str "pack sequence");
      let volume_id := py_str (get_or_null "volume_id" o) in
      when (2 ^ 256 <=? sequence) || negb (bool_decide (volume_id = pack_volume_id sequence))
        raise ValueError "pack volume plan identity is invalid";
      max_member_bytes ← _canonical_positive_int (get_or_null "max_member_bytes" o)
                           (str "pack member byte limit");
      part_plaintext_bytes ← _canonical_positive_int (get_or_null "part_plaintext_bytes" o)
                               (str "pack part plaintext bytes");
      match get_or_null "files" o with
      | JList raw_files =>
          when match raw_files with [] => true | _ => false end
            raise ValueError "pack volume plan files must be a non-empty list";
          files ← mapM_result parse_plan_file raw_files;
          rebuilt ← plan_pack_volume files sequence max_member_bytes part_plaintext_bytes;
          plaintext_bytes ← _canonical_positive_int (get_or_null "plaintext_bytes" o)
                              (str "pack plaintext bytes");
          when negb (pv_plaintext_bytes rebuilt =? plaintext_bytes)
               || negb (bool_decide (pv_index_sha256 rebuilt = py_str (get_or_null "index_sha256" o)))
               || negb (bool_decide (pv_plan_sha256 rebuilt = py_str (get_or_null "plan_sha256" o)))
            raise ValueError "persisted pack volume plan does not reproduce its identity";
          Ok rebuilt
      | _ => Err (Exn ValueError (str "pack volume plan files must be a non-empty list"))
      end
  | _ => Err (Exn ValueError (str "pack volume plan schema mismatch"))
  end.

(** The handler around [json.loads]. *)
Definition plan_json_error (k : exn_kind) : bool :=
  match k with UnicodeEncodeError | UnicodeDecodeError | JSONDecodeError => true | _ => false end.

Definition parse_pack_volume_plan_text (content : pystr) : result PackVolumePlan :=
  payload ← try_except (loads content) plan_json_error
              (λ _, Err (Exn ValueError (str "pack volume plan is not valid JSON")));
  rebuild_pack_volume_plan payload.

Definition parse_pack_volume_plan (content : pybytes) : result PackVolumePlan :=
  text ← utf8_decode content; parse_pack_volume_plan_text text.

End planning.

(** ** Normalised files *)

(** What one input file becomes. *)
Definition normalizes `{PyEnv} (max_member_bytes : Z) (f f' : ArchiveFile) : Prop :=
  normalize_relpath (af_path f) = Ok (af_path f') ∧
  startswith RESERVED_ARCHIVE_PREFIX (af_path f') = false ∧
  0 ≤ af_bytes f < max_member_bytes ∧ sha256_fullmatch (af_sha256 f) = true ∧
  f' = set_path f (af_path f').

Lemma normalized_loop `{PyEnv} max files seen out seen' out' :
  foldM (normalized_file_step max) (seen, out) files = Ok (seen', out') →
  (∀ p, p ∈ seen ↔ p ∈ af_path <$> out) → NoDup (af_path <$> out) →
  ∃ new, out' = out ++ new ∧ Forall2 (normalizes max) files new ∧ NoDup (af_path <$> out').
Proof.
  revert seen out. induction files as [|f files IH]; intros seen out Hf Hseen Hnd; cbn [foldM] in Hf.
  { inv_ok Hf. subst. exists []. rewrite app_nil_r. split_and!; [done|constructor|done]. }
  apply bind_Ok in Hf as ([seen1 out1] & Hstep & Hf). unfold normalized_file_step in Hstep.
  inv_ok Hstep. subst. bool_prop. apply IH in Hf as (new & -> & Hnew & Hnd').
  - exists (set_path f a :: new). rewrite <- app_assoc. split_and!; [done| |by rewrite <- app_assoc in Hnd'].
    constructor; [|done]. unfold normalizes. simpl. split_and!; try done; lia.
  - intros p. rewrite elem_of_cons, fmap_app, elem_of_app, Hseen. simpl.
    rewrite list_elem_of_singleton. tauto.
  - rewrite fmap_app. apply NoDup_app. split_and!; [done| |apply NoDup_singleton].
    intros p Hp Hs%list_elem_of_singleton. subst. simpl in *. set_solver.
Qed.

(** Distinct keys make a sorted list strictly sorted. *)
Definition strictly_sorted {A} (key : A → pystr) (l : list A) : Prop :=
  StronglySorted (key_le key) l ∧ NoDup (key <$> l).

Lemma normalized_files_spec `{PyEnv} files max out : _normalized_files files max = Ok out →
  ∃ new, Forall2 (normalizes max) files new ∧ out ≡ₚ new ∧ out ≠ [] ∧ strictly_sorted af_path out ∧
    out = sorted_by af_path new.
Proof.
  unfold _normalized_files. intros Hn. inv_ok Hn. destruct a as [seen new]. inv_ok Hn. subst.
  destruct (normalized_loop _ _ _ _ _ _ E0) as (new' & -> & Hnew & Hnd); [set_solver|constructor|].
  exists new'. pose proof (sorted_by_perm af_path ([] ++ new')) as Hp. split_and!; [done|done| | |].
  - intros Hnil. rewrite Hnil in Hp. apply Permutation_nil in Hp. by rewrite Hp in E1.
  - split; [apply sorted_by_sorted|]. by rewrite Hp.
  - done.
Qed.

(** ** The layout *)

Definition header_len (path : pystr) (bytes : Z) : Z :=
  match _tar_header path bytes with Ok h => len h | Err _ => 0 end.

(** The length of a tar entry: header, data and padding to the next block. *)
Definition entry_len (f : ArchiveFile) : Z :=
  header_len (af_path f) (af_bytes f) + af_bytes f + _tar_padding (af_bytes f).

(** Entries of [files] laid end to end from [offset]. *)
Fixpoint members_from (unit offset : Z) (files : list ArchiveFile) : list PackMemberPlan :=
  match files with
  | [] => []
  | f :: files' =>
      {| pm_path := af_path f; pm_bytes := af_bytes f; pm_sha256 := af_sha256 f; pm_unit := unit;
         pm_header_offset := offset;
         pm_data_offset := offset + header_len (af_path f) (af_bytes f);
         pm_end_offset := offset + entry_len f |}
      :: members_from unit (offset + entry_len f) files'
  end.

Definition unit_members (u : PackUploadUnitPlan) : list PackMemberPlan :=
  members_from (pu_unit u) (pu_plaintext_start u) (pu_sources u).

(** Where the entries of a unit end, before any padding or index. *)
Definition body_end (u : PackUploadUnitPlan) : Z :=
  pu_plaintext_start u + sumZ entry_len (pu_sources u).

(** Units numbered from [i] that follow one another from [start] to [stop]. *)
Fixpoint chained (i start : Z) (units : list PackUploadUnitPlan) (i' stop : Z) : Prop :=
  match units with
  | [] => i = i' ∧ start = stop
  | u :: units' =>
      pu_unit u = i ∧ pu_plaintext_start u = start ∧
      chained (i + 1) (pu_plaintext_end u) units' i' stop
  end.

(** A unit that is not the last: it is padded to an age chunk boundary. *)
Definition closed_unit (volume_id : pystr) (u : PackUploadUnitPlan) : Prop :=
  _alignment_padding volume_id (pu_unit u) (body_end u) = Ok (pu_padding u, pu_plaintext_end u) ∧
  pu_includes_index u = false ∧ pu_includes_end_markers u = false ∧
  0 < len (pu_sources u) ≤ COLLECTION_UPLOAD_UNIT_SOURCE_MAX ∧
  pu_plaintext_start u ≤ body_end u ≤ pu_plaintext_end u ∧ pu_plaintext_end u mod CHUNK_SIZE = 0.

Definition header_ok (f : ArchiveFile) : Prop := is_ok (_tar_header (af_path f) (af_bytes f)) = true.

Lemma chained_app i start us vs i' stop :
  chained i start (us ++ vs) i' stop ↔ ∃ j mid, chained i start us j mid ∧ chained j mid vs i' stop.
Proof.
  revert i start. induction us as [|u us IH]; intros i start; simpl.
  - split; [eauto|]. by intros (j & mid & [-> ->] & ?).
  - rewrite IH. naive_solver.
Qed.

Lemma members_from_app unit off xs ys :
  members_from unit off (xs ++ ys) =
  members_from unit off xs ++ members_from unit (off + sumZ entry_len xs) ys.
Proof.
  revert off. induction xs as [|x xs IH]; intros off; simpl; [by rewrite Z.add_0_r|].
  rewrite IH. do 2 f_equal. f_equal. lia.
Qed.

Lemma alignment_padding_spec volume_id unit cursor padding stop :
  _alignment_padding volume_id unit cursor = Ok (padding, stop) →
  stop mod CHUNK_SIZE = 0 ∧ cursor ≤ stop.
Proof.
  unfold _alignment_padding, CHUNK_SIZE. intros Ha.
  destruct (Z.eqb_spec (cursor mod 65536) 0); [by injection Ha as <- <-|].
  inv_ok Ha. subst. bool_prop. split; [lia|].
  pose proof (tar_padding_bounds (65536 - cursor mod 65536 - _TAR_BLOCK_SIZE)).
  unfold _TAR_BLOCK_SIZE in *. len_lia.
Qed.

Lemma entry_len_blocks f : header_ok f → 0 ≤ af_bytes f → entry_len f mod 512 = 0 ∧ 512 ≤ entry_len f.
Proof.
  unfold header_ok, entry_len, header_len. intros Ho Hb.
  destruct (_tar_header _ _) as [h|] eqn:Hh; [|done]. apply tar_header_blocks in Hh as [Hm Hl].
  pose proof (tar_padding_bounds (af_bytes f)). pose proof (tar_padding_aligns (af_bytes f)). lia.
Qed.

Section layout.
Variables (volume_id : pystr) (part_plaintext_bytes : Z).

(** The loop invariant; [done] are the files laid out so far. *)
Record layout_inv (done : list ArchiveFile) (st : pack_state) : Prop := {
  li_chain : chained 0 0 (ps_units st) (ps_unit_index st) (ps_unit_start st);
  li_closed : Forall (closed_unit volume_id) (ps_units st);
  li_files : concat (pu_sources <$> ps_units st) ++ ps_unit_sources st = done;
  li_members : ps_members st = concat (unit_members <$> ps_units st) ++
    members_from (ps_unit_index st) (ps_unit_start st) (ps_unit_sources st);
  li_cursor : ps_cursor st = ps_unit_start st + sumZ entry_len (ps_unit_sources st);
  li_start : ps_unit_start st mod CHUNK_SIZE = 0;
  li_blocks : ps_cursor st mod 512 = 0;
  li_headers : Forall header_ok done;
}.

Lemma initial_layout_inv : layout_inv [] initial_pack_state.
Proof. by split. Qed.

Lemma add_member_inv done st f st' :
  layout_inv done st → 0 ≤ af_bytes f → add_member st f = Ok st' →
  layout_inv (done ++ [f]) st' ∧ ps_unit_sources st' = ps_unit_sources st ++ [f].
Proof.
  intros [] Hb Ha. unfold add_member in Ha. apply bind_Ok in Ha as (h & Hh & Ha).
  injection Ha as <-. assert (header_ok f) as Ho by (unfold header_ok; by rewrite Hh).
  assert (header_len (af_path f) (af_bytes f) = len h) as Hhl by (unfold header_len; by rewrite Hh).
  assert (entry_len f = len h + af_bytes f + _tar_padding (af_bytes f)) as He.
  { unfold entry_len. by rewrite Hhl. }
  destruct (entry_len_blocks f Ho Hb) as [Hm _]. split; [|done]. split;
    cbn [ps_members ps_units ps_unit_sources ps_unit_start ps_cursor ps_unit_index].
  - done.
  - done.
  - by rewrite app_assoc, li_files0.
  - rewrite li_members0, members_from_app, <- app_assoc. do 2 f_equal. cbn.
    rewrite li_cursor0, Hhl, He. do 2 f_equal; lia.
  - rewrite sumZ_app. change (sumZ entry_len [f]) with (entry_len f + 0). lia.
  - done.
  - rewrite li_cursor0 in *. lia.
  - apply Forall_app. by repeat constructor.
Qed.

Lemma close_unit_inv done st st' :
  layout_inv done st → 0 < len (ps_unit_sources st) ≤ COLLECTION_UPLOAD_UNIT_SOURCE_MAX →
  Forall (λ f, 0 ≤ af_bytes f) (ps_unit_sources st) →
  close_unit volume_id st = Ok st' → layout_inv done st' ∧ ps_unit_sources st' = [].
Proof.
  intros [] Hlen Hb Hc. unfold close_unit in Hc. apply bind_Ok in Hc as ([padding cursor] & Ha & Hc).
  injection Hc as <-. pose proof (alignment_padding_spec _ _ _ _ _ Ha) as [Hal Hle].
  split; [|done]. split;
    cbn [ps_members ps_units ps_unit_sources ps_unit_start ps_cursor ps_unit_index].
  - apply chained_app. eexists _, _. split; [done|]. cbn. auto.
  - apply Forall_app. split; [done|]. constructor; [|constructor].
    unfold closed_unit, body_end.
    cbn [pu_unit pu_plaintext_start pu_plaintext_end pu_sources pu_padding pu_includes_index
         pu_includes_end_markers]. rewrite <- li_cursor0. split_and!; try done; try lia.
    rewrite li_cursor0. assert (0 ≤ sumZ entry_len (ps_unit_sources st)); [|lia].
    apply sumZ_nonneg. apply Forall_forall. intros f Hf.
    assert (header_ok f) as Ho.
    { eapply Forall_forall; [exact li_headers0|]. rewrite <- li_files0. set_solver. }
    rewrite Forall_forall in Hb. destruct (entry_len_blocks f Ho (Hb f Hf)). lia.
  - by rewrite fmap_app, concat_app, app_nil_r; cbn; rewrite app_nil_r.
  - rewrite li_members0, fmap_app, concat_app, app_nil_r. cbn. by rewrite app_nil_r.
  - cbn. lia.
  - done.
  - unfold CHUNK_SIZE in *. lia.
  - done.
Qed.

Lemma layout_files_inv done st files st' :
  layout_inv done st → Forall (λ f, 0 ≤ af_bytes f) files →
  len (ps_unit_sources st) < COLLECTION_UPLOAD_UNIT_SOURCE_MAX →
  Forall (λ f, 0 ≤ af_bytes f) (ps_unit_sources st) →
  layout_files volume_id part_plaintext_bytes st files = Ok st' →
  layout_inv (done ++ files) st' ∧ len (ps_unit_sources st') ≤ COLLECTION_UPLOAD_UNIT_SOURCE_MAX ∧
  (files ≠ [] → ps_unit_sources st' ≠ []).
Proof.
  revert done st. induction files as [|f files IH]; intros done st Hinv Hb Hlen Hsb Hl.
  { injection Hl as <-. rewrite app_nil_r. split_and!; [done|lia|done]. }
  cbn [layout_files] in Hl. apply Forall_cons in Hb as [Hb Hbs].
  apply bind_Ok in Hl as (st1 & Ha & Hl). apply bind_Ok in Hl as (st2 & Hc & Hl).
  destruct (add_member_inv _ _ _ _ Hinv Hb Ha) as [Hinv1 Hs1].
  assert (Forall (λ f, 0 ≤ af_bytes f) (ps_unit_sources st1)) as Hsb1.
  { rewrite Hs1. apply Forall_app. by repeat constructor. }
  assert (0 < len (ps_unit_sources st1) ≤ COLLECTION_UPLOAD_UNIT_SOURCE_MAX) as Hl1.
  { rewrite Hs1. len_lia. }
  rewrite cons_middle, app_assoc. destruct files as [|g files].
  { injection Hc as <-. injection Hl as <-. rewrite app_nil_r. split_and!; [done|lia|].
    intros _. rewrite Hs1. by destruct (ps_unit_sources st). }
  cbn [andb] in Hc. destruct (unit_full _ st1) eqn:Hfull.
  - destruct (close_unit_inv _ _ _ Hinv1 Hl1 Hsb1 Hc) as [Hinv2 Hs2].
    destruct (IH (done ++ [f]) st2) as (? & ? & Hne); try done.
    + rewrite Hs2. done.
    + rewrite Hs2. constructor.
    + split_and!; [done|done|]. intros _. by apply Hne.
  - injection Hc as <-. unfold unit_full in Hfull. apply orb_false_iff in Hfull as [_ Hf].
    destruct (IH (done ++ [f]) st1) as (? & ? & Hne); try done; [lia|].
    split_and!; [done|done|]. intros _. by apply Hne.
Qed.
End layout.

(** The last unit carries the index and the end markers. *)
Definition final_unit (index_bytes : pybytes) (u : PackUploadUnitPlan) : Prop :=
  pu_includes_index u = true ∧ pu_includes_end_markers u = true ∧ pu_padding u = None ∧
  0 < len (pu_sources u) ≤ COLLECTION_UPLOAD_UNIT_SOURCE_MAX ∧
  pu_plaintext_end u = body_end u + header_len PACK_INDEX_PATH (len index_bytes) +
    (len index_bytes + _tar_padding (len index_bytes)) + 1024.

(** Everything a plan promises about its layout. *)
Record pack_layout (normalized : list ArchiveFile) (plan : PackVolumePlan)
    (closed : list PackUploadUnitPlan) (final : PackUploadUnitPlan) : Prop := {
  pl_units : pv_units plan = closed ++ [final];
  pl_files : concat (pu_sources <$> pv_units plan) = normalized;
  pl_members : pv_members plan = concat (unit_members <$> pv_units plan);
  pl_chain : chained 0 0 (pv_units plan) (len (pv_units plan)) (pv_plaintext_bytes plan);
  pl_closed : Forall (closed_unit (pv_volume_id plan)) closed;
  pl_final : final_unit (pv_index_bytes plan) final;
}.

Lemma chained_length i start units i' stop : chained i start units i' stop → i' = i + len units.
Proof.
  revert i start. induction units as [|u units IH]; intros i start; simpl.
  - intros [-> _]. unfold len. simpl. lia.
  - intros (_ & _ & Hc). rewrite (IH _ _ Hc), len_cons. lia.
Qed.

Section plans.
Context `{PyEnv}.

Lemma normalized_bytes files max normalized : _normalized_files files max = Ok normalized →
  Forall (λ f, 0 ≤ af_bytes f < max) normalized.
Proof.
  intros (new & Hnew & Hperm & _)%normalized_files_spec. rewrite Hperm. clear Hperm.
  induction Hnew as [|f f' files new (_ & _ & Hb & _ & Hf) _ IH]; constructor; [|done].
  rewrite Hf. exact Hb.
Qed.

Lemma normalized_digests files max normalized : _normalized_files files max = Ok normalized →
  Forall (λ f, sha256_fullmatch (af_sha256 f) = true) normalized.
Proof.
  intros (new & Hnew & Hperm & _)%normalized_files_spec. rewrite Hperm. clear Hperm.
  induction Hnew as [|f f' files new (_ & _ & _ & Hs & Hf) _ IH]; constructor; [|done].
  rewrite Hf. exact Hs.
Qed.

Lemma layout_pack_volume_inv normalized sequence max part plan :
  Forall (λ f, 0 ≤ af_bytes f) normalized → normalized ≠ [] →
  layout_pack_volume normalized sequence max part = Ok plan →
  Forall header_ok normalized ∧ pv_volume_id plan = pack_volume_id sequence ∧
  _pack_index_bytes (pack_volume_id sequence) sequence (pv_members plan) = Ok (pv_index_bytes plan) ∧
  is_ok (_tar_header PACK_INDEX_PATH (len (pv_index_bytes plan))) = true ∧
  ∃ closed final, pack_layout normalized plan closed final.
Proof.
  intros Hb Hne Hp. unfold layout_pack_volume in Hp.
  apply bind_Ok in Hp as (st & Hl & Hp). apply bind_Ok in Hp as (index & Hi & Hp).
  apply bind_Ok in Hp as (header & Hh & Hp). apply bind_Ok in Hp as (digest & _ & Hp).
  injection Hp as <-.
  destruct (layout_files_inv _ _ [] initial_pack_state normalized st
    (initial_layout_inv _) Hb ltac:(done) ltac:(constructor) Hl) as (Hinv & Hlen & Hsrc).
  specialize (Hsrc Hne). destruct Hinv. cbn [app] in *.
  cbn [pv_volume_id pv_members pv_index_bytes]. rewrite Hh. split_and!; [done..|].
  eexists _, _. split; cbn [pv_units pv_members pv_volume_id pv_index_bytes pv_plaintext_bytes];
    [reflexivity|..|done|].
  - rewrite fmap_app, concat_app. cbn. by rewrite app_nil_r.
  - rewrite li_members0, fmap_app, concat_app. cbn. by rewrite app_nil_r.
  - rewrite len_app. change (len [_]) with 1. rewrite (chained_length _ _ _ _ _ li_chain0) in li_chain0 |- *.
    rewrite Z.add_0_l in *. apply chained_app. eexists _, _. split; [exact li_chain0|]. cbn. auto.
  - unfold final_unit, body_end, header_len. rewrite Hh.
    cbn [pu_plaintext_start pu_plaintext_end pu_sources pu_padding pu_includes_index
         pu_includes_end_markers]. rewrite <- li_cursor0. split_and!; try done.
    destruct (ps_unit_sources st); [done|]. len_lia.
Qed.

Lemma plan_pack_volume_inv files sequence max part plan :
  plan_pack_volume files sequence max part = Ok plan → ∃ normalized,
  _normalized_files files max = Ok normalized ∧ len normalized ≤ ARCHIVE_PACK_FILES_MAX ∧
  0 ≤ sequence < 2 ^ 256 ∧ 0 < part ∧ part mod CHUNK_SIZE = 0 ∧
  layout_pack_volume normalized sequence max part = Ok plan.
Proof.
  unfold plan_pack_volume. intros Hp. inv_ok Hp. bool_prop. exists a. split_and!; try done; lia.
Qed.

End plans.

(** ** Exceptions *)

Lemma len_format_padded_exact base width n k :
  2 ≤ base → 0 ≤ n < base ^ k → 1 ≤ k → width ≤ k → len (format_padded base width n) ≤ k.
Proof.
  intros Hb Hn Hk Hw. rewrite format_padded_digits, len_fmap, len_app.
  pose proof (digits_len base n k Hb ltac:(lia) Hk ltac:(lia)).
  unfold repeatZ, len in *. rewrite length_replicate. lia.
Qed.

Lemma format_padded_positive base width n : 2 ≤ base ≤ 16 → 0 ≤ n →
  Forall (λ c, 0 < c < 128) (format_padded base width n).
Proof.
  intros Hb Hn. rewrite format_padded_digits, Forall_fmap.
  eapply (Forall_impl (λ d, 0 ≤ d < 16)).
  - apply Forall_app. split; [by apply Forall_replicate|].
    eapply Forall_impl; [apply digits_bound; lia|]. simpl. lia.
  - intros d Hd. cbn. unfold digit_char. case_match; lia.
Qed.

(** The padding entry is always a single block plus its payload. *)
Lemma padding_header sequence unit size :
  0 ≤ sequence < 2 ^ 256 → 0 ≤ unit < 10 ^ 12 → 0 ≤ size < 8 ^ 11 →
  ∃ h, _tar_header (padding_path (pack_volume_id sequence) unit) size = Ok h ∧ len h = 512.
Proof.
  intros Hs Hu Hz. unfold padding_path, pack_volume_id, PACK_PADDING_PREFIX.
  apply tar_header_short; [|..|done].
  - rewrite !Forall_app. split_and!; try (apply format_padded_positive; lia); by repeat constructor.
  - pose proof (len_format_padded_exact 16 64 sequence 64 ltac:(lia) ltac:(lia) ltac:(lia) ltac:(lia)).
    pose proof (len_format_padded_exact 10 6 unit 12 ltac:(lia) ltac:(lia) ltac:(lia) ltac:(lia)).
    rewrite !len_app. change (len (str ".riverhog/padding/")) with 18.
    change (len (str "pack-")) with 5. change (len (str "-")) with 1. lia.
  - done.
Qed.

(** Alignment never trips its internal checks. *)
Lemma alignment_padding_ok sequence unit cursor :
  0 ≤ sequence < 2 ^ 256 → 0 ≤ unit < 10 ^ 12 → cursor mod 512 = 0 →
  ∃ r, _alignment_padding (pack_volume_id sequence) unit cursor = Ok r.
Proof.
  intros Hs Hu Hc. unfold _alignment_padding, CHUNK_SIZE, _TAR_BLOCK_SIZE.
  destruct (Z.eqb_spec (cursor mod 65536) 0); [eauto|].
  replace (_ || _) with false by lia.
  destruct (padding_header sequence unit (65536 - cursor mod 65536 - 512)) as (h & -> & Hl);
    [done|done|lia|]. rewrite ok_bind, Hl.
  rewrite (tar_padding_aligned (65536 - cursor mod 65536 - 512)) by lia.
  replace (negb _) with false by lia. eauto.
Qed.

Lemma closed_units_count volume_id units : Forall (closed_unit volume_id) units →
  len units ≤ len (concat (pu_sources <$> units)).
Proof.
  induction 1 as [|u units (_ & _ & _ & Hl & _) _ IH]; [done|].
  rewrite fmap_cons. cbn [concat]. rewrite len_cons, len_app. lia.
Qed.

(** ** The layout, said of offsets alone *)

(** [y] is the first multiple of [k] at or after [x]. *)
Definition next_boundary (k x y : Z) : Prop := y mod k = 0 ∧ x ≤ y < x + k.

(** [members] are the entries of [files], each with its header, its bytes and the
    rest of their last block, one after the other from [offset] to [stop]. *)
Fixpoint entries_at (unit offset : Z) (files : list ArchiveFile) (members : list PackMemberPlan) (stop : Z) : Prop :=
  match files, members with
  | [], [] => offset = stop
  | f :: files', m :: members' =>
      pm_path m = af_path f ∧ pm_bytes m = af_bytes f ∧ pm_sha256 m = af_sha256 f ∧ pm_unit m = unit ∧
      pm_header_offset m = offset ∧
      (∃ h, _tar_header (af_path f) (af_bytes f) = Ok h ∧ pm_data_offset m = offset + len h) ∧
      next_boundary 512 (pm_data_offset m + af_bytes f) (pm_end_offset m) ∧
      entries_at unit (pm_end_offset m) files' members' stop
  | _, _ => False
  end.

(** A unit whose entries end at [body] is filled up to the next age chunk
    boundary by one padding entry, or already ends on one. *)
Definition padded_unit (volume_id : pystr) (u : PackUploadUnitPlan) (body : Z) : Prop :=
  next_boundary 65536 body (pu_plaintext_end u) ∧
  match pu_padding u with
  | None => body = pu_plaintext_end u
  | Some pp =>
      pp_path pp = str ".riverhog/padding/" ++ volume_id ++ str "-" ++ format_padded 10 6 (pu_unit u) ∧
      pp_header_offset pp = body ∧ body + 512 + pp_payload_bytes pp = pu_plaintext_end u ∧
      0 ≤ pp_payload_bytes pp ∧ pp_end_offset pp = pu_plaintext_end u
  end.

(** Without its last file, the unit has room for more. *)
Definition had_room (part start : Z) (members : list PackMemberPlan) : Prop :=
  ∃ m, last members = Some m ∧ pm_header_offset m - start < part ∧
    len members ≤ COLLECTION_UPLOAD_UNIT_SOURCE_MAX.

(** The units from number [i] and offset [start] on hold [members]. *)
Fixpoint units_at (plan : PackVolumePlan) (part i start : Z) (units : list PackUploadUnitPlan)
    (members : list PackMemberPlan) : Prop :=
  match units with
  | [] => False
  | [u] => ∃ body h,
      pu_unit u = i ∧ pu_plaintext_start u = start ∧ entries_at i start (pu_sources u) members body ∧
      had_room part start members ∧ pu_padding u = None ∧
      pu_includes_index u = true ∧ pu_includes_end_markers u = true ∧
      _tar_header (str ".riverhog/pack-index.json") (len (pv_index_bytes plan)) = Ok h ∧
      next_boundary 512 (body + len h + len (pv_index_bytes plan)) (pu_plaintext_end u - 1024) ∧
      pu_plaintext_end u = pv_plaintext_bytes plan
  | u :: units' => ∃ body here there, members = here ++ there ∧
      pu_unit u = i ∧ pu_plaintext_start u = start ∧ entries_at i start (pu_sources u) here body ∧
      had_room part start here ∧ (part ≤ body - start ∨ len here = COLLECTION_UPLOAD_UNIT_SOURCE_MAX) ∧
      padded_unit (pv_volume_id plan) u body ∧
      pu_includes_index u = false ∧ pu_includes_end_markers u = false ∧
      units_at plan part (i + 1) (pu_plaintext_end u) units' there
  end.

Lemma members_entries unit offset files :
  Forall header_ok files → Forall (λ f, 0 ≤ af_bytes f) files → offset mod 512 = 0 →
  entries_at unit offset files (members_from unit offset files) (offset + sumZ entry_len files) ∧
  (offset + sumZ entry_len files) mod 512 = 0.
Proof.
  revert offset. induction files as [|f files IH]; intros offset Hh Hb Ho; cbn [entries_at members_from].
  { change (sumZ entry_len []) with 0. rewrite Z.add_0_r. done. }
  apply Forall_cons in Hh as [Hh Hhs], Hb as [Hb Hbs].
  destruct (entry_len_blocks f Hh Hb) as [Hm _]. rewrite sumZ_cons, Z.add_assoc.
  destruct (IH (offset + entry_len f) Hhs Hbs ltac:(lia)) as [He Hmod]. split; [|exact Hmod].
  cbn [pm_path pm_bytes pm_sha256 pm_unit pm_header_offset pm_data_offset pm_end_offset].
  unfold header_ok in Hh. destruct (_tar_header (af_path f) (af_bytes f)) as [h|] eqn:Eh; [|done].
  assert (header_len (af_path f) (af_bytes f) = len h) as Hl by (unfold header_len; by rewrite Eh).
  split_and!; try done.
  - exists h. by rewrite Hl.
  - unfold next_boundary. unfold entry_len in *. rewrite Hl in *.
    pose proof (tar_padding_bounds (af_bytes f)). lia.
Qed.

Lemma len_members_from unit offset files : len (members_from unit offset files) = len files.
Proof.
  revert offset. induction files as [|f files IH]; intros offset; [done|].
  cbn [members_from]. by rewrite !len_cons, IH.
Qed.

Lemma padding_fills sequence u : 0 ≤ sequence < 2 ^ 256 → 0 ≤ pu_unit u < 10 ^ 12 →
  closed_unit (pack_volume_id sequence) u → padded_unit (pack_volume_id sequence) u (body_end u).
Proof.
  intros Hs Hu (Ha & _). unfold _alignment_padding in Ha. unfold padded_unit, next_boundary.
  destruct (Z.eqb_spec (body_end u mod CHUNK_SIZE) 0) as [E|E]; unfold CHUNK_SIZE, _TAR_BLOCK_SIZE in *.
  { injection Ha as <- <-. lia. }
  destruct (_ || _) eqn:Hc; [done|]. apply orb_false_iff in Hc as [Hc Hmod].
  apply negb_false_iff in Hmod.
  destruct (padding_header sequence (pu_unit u) (65536 - body_end u mod 65536 - 512)) as (h & Hh & Hl);
    [done|done|lia|].
  rewrite Hh, ok_bind, (tar_padding_aligned (65536 - body_end u mod 65536 - 512)), Hl in Ha by lia.
  destruct (negb _); [done|]. injection Ha as <- <-.
  cbn [pp_path pp_header_offset pp_payload_bytes pp_end_offset]. split; [lia|]. split_and!; try done; lia.
Qed.

(** *** When a unit is closed *)

Definition opened (part : Z) (sources : list ArchiveFile) : Prop :=
  ∃ init f, sources = init ++ [f] ∧ sumZ entry_len init < part ∧ len init < COLLECTION_UPLOAD_UNIT_SOURCE_MAX.

Definition filled (part : Z) (u : PackUploadUnitPlan) : Prop :=
  opened part (pu_sources u) ∧
  (part ≤ sumZ entry_len (pu_sources u) ∨ COLLECTION_UPLOAD_UNIT_SOURCE_MAX ≤ len (pu_sources u)).

Lemma layout_files_filled volume_id part laid st files st' :
  1 ≤ part → layout_inv volume_id laid st → Forall (λ f, 0 ≤ af_bytes f) files →
  Forall (λ f, 0 ≤ af_bytes f) (ps_unit_sources st) → unit_full part st = false →
  Forall (filled part) (ps_units st) → layout_files volume_id part st files = Ok st' →
  Forall (filled part) (ps_units st') ∧ (files ≠ [] → opened part (ps_unit_sources st')).
Proof.
  intros Hpart. revert laid st. induction files as [|f files IH]; intros laid st Hinv Hb Hsb Hroom Hfill Hl.
  { by injection Hl as <-. }
  cbn [layout_files] in Hl. apply Forall_cons in Hb as [Hb Hbs].
  apply bind_Ok in Hl as (st1 & Ha & Hl). apply bind_Ok in Hl as (st2 & Hc & Hl).
  destruct (add_member_inv _ _ _ _ _ Hinv Hb Ha) as [Hinv1 Hs1].
  assert (ps_units st1 = ps_units st) as Hu1.
  { unfold add_member in Ha. by apply bind_Ok in Ha as (h & _ & [= <-]). }
  assert (Forall (λ f, 0 ≤ af_bytes f) (ps_unit_sources st1)) as Hsb1
    by (rewrite Hs1; apply Forall_app; by repeat constructor).
  unfold unit_full in Hroom. apply orb_false_iff in Hroom as [Hr1 Hr2].
  pose proof (li_cursor _ _ _ Hinv) as Hcur. pose proof (li_cursor _ _ _ Hinv1) as Hcur1.
  assert (opened part (ps_unit_sources st1)) as Hopen.
  { exists (ps_unit_sources st), f. split_and!; [done|lia|lia]. }
  destruct files as [|g files].
  { injection Hc as <-. injection Hl as <-. by rewrite Hu1. }
  cbn [andb] in Hc. destruct (unit_full part st1) eqn:Hfull.
  - destruct (close_unit_inv _ _ _ _ Hinv1 ltac:(rewrite Hs1; len_lia) Hsb1 Hc) as [Hinv2 Hs2].
    unfold unit_full in Hfull. apply orb_true_iff in Hfull.
    destruct (IH (laid ++ [f]) st2 Hinv2 Hbs ltac:(rewrite Hs2; constructor)) as [? Hne]; try done.
    + unfold unit_full. pose proof (li_cursor _ _ _ Hinv2) as Hcur2. rewrite Hs2 in Hcur2 |- *.
      change (sumZ entry_len []) with 0 in Hcur2. apply orb_false_iff. split; [lia|done].
    + unfold close_unit in Hc. apply bind_Ok in Hc as ([padding cursor] & _ & [= <-]). cbn [ps_units].
      rewrite Hu1. apply Forall_app. split; [done|]. apply Forall_singleton. split; [exact Hopen|].
      cbn [pu_sources]. lia.
    + split; [done|]. intros _. by apply Hne.
  - injection Hc as <-. destruct (IH (laid ++ [f]) st1) as [? Hne]; try done; [by rewrite Hu1|].
    split; [done|]. intros _. by apply Hne.
Qed.

Lemma members_had_room part unit start sources :
  opened part sources → had_room part start (members_from unit start sources).
Proof.
  intros (init & f & -> & Hsum & Hlen). rewrite members_from_app. cbn [members_from].
  eexists. rewrite last_snoc, len_app, len_members_from. split; [done|]. cbn [pm_header_offset].
  split; [lia|]. change (len [_]) with 1. lia.
Qed.

Section shape.
Context (plan : PackVolumePlan) (part sequence : Z).
Context (Hid : pv_volume_id plan = pack_volume_id sequence) (Hseq : 0 ≤ sequence < 2 ^ 256).
Context (Hindex : is_ok (_tar_header PACK_INDEX_PATH (len (pv_index_bytes plan))) = true).

Definition sources_ok (u : PackUploadUnitPlan) : Prop :=
  Forall header_ok (pu_sources u) ∧ Forall (λ f, 0 ≤ af_bytes f) (pu_sources u).

Lemma final_at i start final : pu_unit final = i → pu_plaintext_start final = start →
  pu_plaintext_end final = pv_plaintext_bytes plan → start mod 512 = 0 →
  final_unit (pv_index_bytes plan) final → opened part (pu_sources final) → sources_ok final →
  units_at plan part i start [final] (unit_members final).
Proof.
  intros Hi Hs He Ha (Hinc & Hend & Hpad & _ & Hstop) Hopen [Hh Hb]. cbn [units_at].
  destruct (_tar_header PACK_INDEX_PATH (len (pv_index_bytes plan))) as [h|] eqn:Eh; [|done].
  destruct (members_entries i start (pu_sources final) Hh Hb Ha) as [Hat Hmod].
  exists (start + sumZ entry_len (pu_sources final)), h. unfold unit_members. rewrite Hi, Hs.
  split_and!; try done; [by apply members_had_room|].
  unfold header_len, body_end in Hstop. rewrite Eh, Hs in Hstop.
  pose proof (tar_padding_bounds (len (pv_index_bytes plan))).
  pose proof (tar_padding_aligns (len (pv_index_bytes plan))).
  apply tar_header_blocks in Eh as [Hb512 _]. unfold next_boundary. lia.
Qed.

Lemma units_at_built closed final i start n :
  chained i start (closed ++ [final]) n (pv_plaintext_bytes plan) →
  Forall (closed_unit (pv_volume_id plan)) closed → final_unit (pv_index_bytes plan) final →
  Forall (filled part) closed → opened part (pu_sources final) →
  Forall sources_ok (closed ++ [final]) → start mod 512 = 0 → 0 ≤ i → i + len closed < 10 ^ 12 →
  units_at plan part i start (closed ++ [final]) (concat (unit_members <$> closed ++ [final])).
Proof.
  intros Hc Hcl Hf Hfill Hopen Hok. revert i start Hc Hok.
  induction closed as [|u closed IH]; intros i start Hc Hok Hs Hi Hmax.
  { destruct Hc as (Hu & Hst & _ & Hend). cbn [app] in Hok. apply Forall_cons in Hok as [Hok _]. cbn [app fmap list_fmap concat].
    rewrite app_nil_r. by apply final_at. }
  destruct Hc as (Hu & Hst & Hc). apply Forall_cons in Hcl as [Hcu Hcl], Hfill as [[Hop Hfull] Hfill], Hok as [[Hh Hb] Hok].
  rewrite len_cons in Hmax. pose proof (len_nonneg closed).
  destruct (members_entries i start (pu_sources u) Hh Hb Hs) as [Hat _].
  assert (body_end u = start + sumZ entry_len (pu_sources u)) as Hbody by (unfold body_end; by rewrite Hst).
  pose proof Hcu as (_ & Hinc & Hmark & Hlen & _ & Hal). unfold CHUNK_SIZE in Hal.
  specialize (IH Hcl Hfill (i + 1) (pu_plaintext_end u) Hc Hok ltac:(lia) ltac:(lia) ltac:(lia)).
  cbn [app units_at]. destruct (closed ++ [final]) as [|v rest] eqn:Erest; [by destruct closed|].
  exists (body_end u), (unit_members u), (concat (unit_members <$> v :: rest)).
  split; [by rewrite fmap_cons|]. rewrite Hbody. unfold unit_members at 1 2 3. rewrite Hu, Hst.
  split_and!; try done.
  - by apply members_had_room.
  - rewrite len_members_from. lia.
  - rewrite <- Hbody, Hid. apply padding_fills; [done|lia|]. by rewrite <- Hid.
Qed.
End shape.

Section shapes.
Context `{PyEnv}.

Lemma layout_pack_volume_filled normalized sequence max part plan :
  Forall (λ f, 0 ≤ af_bytes f) normalized → normalized ≠ [] → 1 ≤ part →
  layout_pack_volume normalized sequence max part = Ok plan →
  ∃ closed final, pv_units plan = closed ++ [final] ∧ Forall (filled part) closed ∧ opened part (pu_sources final).
Proof.
  intros Hb Hne Hpart Hp. unfold layout_pack_volume in Hp.
  apply bind_Ok in Hp as (st & Hl & Hp). apply bind_Ok in Hp as (index & Hi & Hp).
  apply bind_Ok in Hp as (header & Hh & Hp). apply bind_Ok in Hp as (digest & _ & [= <-]).
  destruct (layout_files_filled (pack_volume_id sequence) part [] initial_pack_state normalized st
    Hpart (initial_layout_inv _) Hb ltac:(constructor)) as [Hfill Hopen]; [|constructor|exact Hl|].
  - unfold unit_full. apply orb_false_iff. cbn [ps_cursor ps_unit_start ps_unit_sources initial_pack_state]. split; [lia|done].
  - eexists _, _. split; [reflexivity|]. split; [exact Hfill|]. by apply Hopen.
Qed.

(** C32. The layout of a planned pack, byte by byte: the units are numbered from 0
    and lie end to end from offset 0 to [plaintext_bytes]; the sources of the
    units, in order, are the normalised files; inside a unit the members lie end
    to end, each with its tar header at its [header_offset], its bytes right after
    that header at [data_offset] and [end_offset] the first 512-byte boundary
    after them; every unit but the last is filled to the first 65536-byte
    boundary after its members, by exactly one padding entry (a 512-byte header
    and its payload) where they do not end on one; the last unit carries the
    index entry and the two end blocks; and a unit is closed exactly when it
    reaches the part target or the source limit, not before. *)
Theorem plan_pack_volume_layout files sequence max part plan :
  plan_pack_volume files sequence max part = Ok plan →
  ∃ normalized, _normalized_files files max = Ok normalized ∧
    concat (pu_sources <$> pv_units plan) = normalized ∧
    units_at plan part 0 0 (pv_units plan) (pv_members plan).
Proof.
  intros (normalized & Hn & Hmax & Hseq & Hpart & _ & Hl)%plan_pack_volume_inv. exists normalized.
  pose proof (normalized_bytes _ _ _ Hn) as Hb.
  assert (Forall (λ f, 0 ≤ af_bytes f) normalized) as Hnn by (eapply Forall_impl; [exact Hb|]; simpl; lia).
  assert (normalized ≠ []) as Hne by by apply normalized_files_spec in Hn as (? & _ & _ & ? & _).
  destruct (layout_pack_volume_inv _ _ _ _ _ Hnn Hne Hl) as (Hh & Hid & _ & Hidx & closed & final & [Hu Hf Hm Hc Hcl Hfin]).
  destruct (layout_pack_volume_filled normalized sequence max part plan Hnn Hne ltac:(lia) Hl) as (closed' & final' & Hu' & Hfill & Hopen).
  rewrite Hu in Hu'. apply app_inj_tail in Hu' as [<- <-]. split_and!; [done|done|].
  rewrite Hm, Hu. rewrite Hu in Hc, Hf. eapply (units_at_built plan part sequence); try done.
  - apply Forall_forall. intros u Hin. assert (pu_sources u ⊆ normalized) as Hsub.
    { rewrite <- Hf. intros f Hfu. apply list_elem_of_In, in_concat. exists (pu_sources u).
      split; [apply in_map|]; by apply list_elem_of_In. }
    split; apply Forall_forall; intros f Hfu; [eapply Forall_forall in Hh|eapply Forall_forall in Hnn]; eauto.
  - pose proof (closed_units_count _ _ Hcl) as Hcount.
    rewrite fmap_app, concat_app in Hf. apply (f_equal len) in Hf. rewrite len_app in Hf.
    pose proof (len_nonneg (concat (pu_sources <$> [final]))). unfold ARCHIVE_PACK_FILES_MAX in *. lia.
Qed.
End shapes.

Lemma layout_files_raises sequence part laid st files :
  0 ≤ sequence < 2 ^ 256 → layout_inv (pack_volume_id sequence) laid st →
  len laid + len files ≤ ARCHIVE_PACK_FILES_MAX → Forall (λ f, 0 ≤ af_bytes f) (laid ++ files) →
  len (ps_unit_sources st) < COLLECTION_UPLOAD_UNIT_SOURCE_MAX →
  raises_only is_value_error (layout_files (pack_volume_id sequence) part st files).
Proof.
  intros Hseq. revert laid st. induction files as [|f files IH]; intros laid st Hinv Hmax Hb Hlen; [done|].
  cbn [layout_files]. apply raises_only_bind.
  { unfold add_member. walk_exceptions. }
  intros st1 Ha. assert (0 ≤ af_bytes f) as Hbf.
  { rewrite Forall_forall in Hb. apply Hb. set_solver. }
  destruct (add_member_inv _ _ _ _ _ Hinv Hbf Ha) as [Hinv1 Hs1].
  rewrite cons_middle, app_assoc in Hb.
  assert (len (laid ++ [f]) + len files ≤ ARCHIVE_PACK_FILES_MAX) as Hmax1 by len_lia.
  assert (Forall (λ f, 0 ≤ af_bytes f) (ps_unit_sources st1)) as Hsb.
  { rewrite <- (li_files _ _ _ Hinv1) in Hb. by rewrite !Forall_app in Hb; destruct Hb as [[_ ?] _]. }
  destruct (_ && _) eqn:Hfull.
  - assert (∃ r, close_unit (pack_volume_id sequence) st1 = Ok r) as [st2 Hc].
    { unfold close_unit. destruct (alignment_padding_ok sequence (ps_unit_index st1) (ps_cursor st1))
        as [[pad c] Hal]; [done| |apply Hinv1|rewrite Hal; eauto].
      rewrite (chained_length _ _ _ _ _ (li_chain _ _ _ Hinv1)).
      pose proof (closed_units_count _ _ (li_closed _ _ _ Hinv1)) as Hcount.
      pose proof (f_equal len (li_files _ _ _ Hinv1)) as Hd. rewrite len_app in Hd.
      pose proof (len_nonneg (ps_units st1)). pose proof (len_nonneg (ps_unit_sources st1)).
      pose proof (len_nonneg files). unfold ARCHIVE_PACK_FILES_MAX in *. lia. }
    destruct (close_unit_inv _ _ _ _ Hinv1 ltac:(rewrite Hs1; len_lia) Hsb Hc) as [Hinv2 Hs2].
    rewrite Hc, ok_bind. eapply IH; [exact Hinv2|done|done|]. rewrite Hs2. done.
  - rewrite ok_bind. destruct files as [|g files]; [done|]. eapply IH; [exact Hinv1|done|done|].
    cbn [andb] in Hfull. apply orb_false_iff in Hfull as [_ Hf]. lia.
Qed.

Section exceptions.
Context `{PyEnv}.

Lemma normalized_files_raises files max : raises_only is_value_error (_normalized_files files max).
Proof.
  unfold _normalized_files. apply raises_only_when; [done|]. intros _.
  apply raises_only_bind; [|intros [seen out] _; walk_exceptions].
  apply raises_only_foldM. intros [seen out] f _. unfold normalized_file_step. walk_exceptions.
Qed.

Lemma layout_pack_volume_raises normalized sequence max part :
  0 ≤ sequence < 2 ^ 256 → len normalized ≤ ARCHIVE_PACK_FILES_MAX →
  Forall (λ f, 0 ≤ af_bytes f) normalized →
  raises_only is_value_error (layout_pack_volume normalized sequence max part).
Proof.
  intros Hs Hl Hb. unfold layout_pack_volume, _pack_index_bytes. walk_exceptions.
  by apply (layout_files_raises sequence part [] initial_pack_state);
    [|apply initial_layout_inv|rewrite len_nil|..].
Qed.

Lemma plan_pack_volume_exceptions files sequence max part :
  raises_only is_value_error (plan_pack_volume files sequence max part).
Proof.
  unfold plan_pack_volume. apply raises_only_bind; [apply normalized_files_raises|].
  intros normalized Hn%normalized_bytes.
  do 5 (apply raises_only_when; [done|intros ?]). apply layout_pack_volume_raises; [lia|lia|].
  eapply Forall_impl; [exact Hn|]. simpl. lia.
Qed.

Lemma plan_pack_volumes_raises source_bytes files_max max part files :
  raises_only is_value_error (plan_pack_volumes source_bytes files_max max part files).
Proof.
  assert (∀ st, raises_only is_value_error (flush_pending max part st)) as Hflush.
  { intros st. unfold flush_pending. apply raises_only_bind; [apply plan_pack_volume_exceptions|done]. }
  unfold plan_pack_volumes. apply raises_only_bind; [apply normalized_files_raises|intros normalized _].
  do 2 (apply raises_only_when; [done|intros _]). apply raises_only_bind.
  - apply raises_only_foldM. intros st f _. unfold pack_volumes_step.
    apply raises_only_bind; [|done]. destruct (_ && _); [apply Hflush|done].
  - intros st _. apply raises_only_bind; [|done]. destruct (has_pending st); [apply Hflush|done].
Qed.

(** Planning a pack volume never fails an internal consistency check: whatever the
    input, the only exceptions are [ValueError]s about the input; the
    [RuntimeError]s of the alignment code and the pax length loop cannot occur. *)
Theorem plan_pack_volume_raises files sequence max part :
  raises_only is_value_error (plan_pack_volume files sequence max part).
Proof. apply plan_pack_volume_exceptions. Qed.
End exceptions.

(** ** Persisted plans *)

Section persistence.
Context `{PyEnv}.

(** A path that normalisation leaves alone, and whose text can be encoded. *)
Definition stable_path (p : pystr) : Prop := text_ok p ∧ normalize_relpath p = Ok p.

Lemma normalized_loop_stable max files seen out :
  0 < max → Forall2 (normalizes max) files files → NoDup (af_path <$> files) →
  (∀ f, f ∈ files → af_path f ∉ seen) →
  ∃ seen', foldM (normalized_file_step max) (seen, out) files = Ok (seen', out ++ files).
Proof.
  intros Hmax. revert seen out. induction files as [|f files IH]; intros seen out Hf Hnd Hseen.
  { exists seen. by rewrite app_nil_r. }
  inversion Hf as [|? ? ? ? (Hnorm & Hres & Hb & Hsha & Hset) Hf']; subst. clear Hf.
  assert (normalized_file_step max (seen, out) f = Ok (af_path f :: seen, out ++ [f])) as Hstep.
  { unfold normalized_file_step. rewrite Hnorm, ok_bind, Hres, Hsha.
    rewrite bool_decide_false by (apply Hseen; left).
    replace ((af_bytes f <? 0) || (max <=? af_bytes f)) with false by lia. by rewrite <- Hset. }
  cbn [foldM]. rewrite Hstep, ok_bind. rewrite fmap_cons in Hnd. apply NoDup_cons in Hnd as [Hnew Hnd].
  destruct (IH (af_path f :: seen) (out ++ [f])) as [seen' Hs]; [done|done| |].
  2: { exists seen'. by rewrite Hs, <- app_assoc. }
  intros g Hg. rewrite not_elem_of_cons. split; [|apply Hseen; by right].
  intros Heq. apply Hnew. rewrite <- Heq. apply list_elem_of_fmap. eauto.
Qed.

(** Normalising normalised files with stable paths changes nothing. *)
Lemma normalized_files_stable files max normalized :
  _normalized_files files max = Ok normalized →
  Forall (λ f, normalize_relpath (af_path f) = Ok (af_path f)) normalized →
  _normalized_files normalized max = Ok normalized.
Proof.
  intros Hn Hst. assert (0 < max) as Hmax by (unfold _normalized_files in Hn; inv_ok Hn; lia).
  apply normalized_files_spec in Hn as (new & Hnew & Hperm & Hne & [Hsort Hnd] & _).
  unfold _normalized_files. rewrite (proj2 (Z.leb_gt max 0)) by lia.
  destruct (normalized_loop_stable max normalized [] []) as [seen ->]; [done| |done|set_solver|].
  - apply Forall_Forall2_diag. assert (Forall (λ f', ∃ f, normalizes max f f') new) as Hall.
    { clear -Hnew. induction Hnew; constructor; eauto. }
    rewrite <- Hperm in Hall. eapply Forall_impl; [apply Forall_and; split; [exact Hst|exact Hall]|].
    intros f [Hs (g & _ & Hres & Hb & Hsha & Hset)]. cbn beta in *.
    assert (af_bytes f = af_bytes g) as Hby by by rewrite Hset.
    assert (af_sha256 f = af_sha256 g) as Hsh by by rewrite Hset.
    split_and!; [done|done|lia|lia|by rewrite Hsh|by destruct f].
  - cbn [app]. rewrite ok_bind. destruct normalized; [done|]. by rewrite sorted_by_id.
Qed.

Lemma members_from_files unit off files : member_file <$> members_from unit off files = files.
Proof.
  revert off. induction files as [|f files IH]; intros off; [done|].
  cbn [members_from]. rewrite fmap_cons, IH. by destruct f.
Qed.

Lemma unit_members_files units : member_file <$> concat (unit_members <$> units) = concat (pu_sources <$> units).
Proof.
  induction units as [|u units IH]; [done|]. rewrite !fmap_cons. cbn [concat].
  rewrite fmap_app, IH. unfold unit_members. by rewrite members_from_files.
Qed.

(** Plans of files with stable paths. *)
Definition plan_valid (plan : PackVolumePlan) : Prop := ∃ files sequence max part,
  plan_pack_volume files sequence max part = Ok plan ∧
  Forall (λ m, stable_path (pm_path m)) (pv_members plan).

(** What a plan says about itself is what it is rebuilt from. *)
Lemma plan_valid_facts plan : plan_valid plan →
  let files := member_file <$> pv_members plan in
  plan_pack_volume files (pv_sequence plan) (pv_max_member_bytes plan) (pv_part_plaintext_bytes plan)
    = Ok plan ∧
  pv_volume_id plan = pack_volume_id (pv_sequence plan) ∧ 0 ≤ pv_sequence plan < 2 ^ 256 ∧
  1 ≤ pv_max_member_bytes plan ∧ 1 ≤ pv_part_plaintext_bytes plan ∧ 1 ≤ pv_plaintext_bytes plan ∧
  files ≠ [] ∧ Forall (λ f, text_ok (af_path f) ∧ 0 ≤ af_bytes f ∧ text_ok (af_sha256 f)) files ∧
  text_ok (pv_index_sha256 plan) ∧ text_ok (pv_plan_sha256 plan).
Proof.
  intros (files & sequence & max & part & Hp & Hst). cbv zeta.
  pose proof (plan_pack_volume_inv _ _ _ _ _ Hp) as (normalized & Hn & Hmax & Hseq & Hpart & Hmod & Hl).
  pose proof (normalized_bytes _ _ _ Hn) as Hb.
  pose proof (normalized_files_spec _ _ _ Hn) as (new & Hnew & Hperm & Hne & _).
  destruct (layout_pack_volume_inv normalized sequence max part plan) as
    (_ & Hid & _ & _ & closed & final & Hpl); [eapply Forall_impl; [exact Hb|simpl; lia]|done|done|].
  assert (member_file <$> pv_members plan = normalized) as Hfiles.
  { rewrite (pl_members _ _ _ _ Hpl), unit_members_files. apply Hpl. }
  rewrite Hfiles.
  assert (Forall (λ f, stable_path (af_path f)) normalized) as Hst'.
  { rewrite <- Hfiles, Forall_fmap. exact Hst. }
  assert (_normalized_files normalized max = Ok normalized) as Hn'.
  { eapply normalized_files_stable; [exact Hn|]. eapply Forall_impl; [exact Hst'|]. by intros f []. }
  assert (pv_sequence plan = sequence ∧ pv_max_member_bytes plan = max ∧
    pv_part_plaintext_bytes plan = part ∧ text_ok (pv_index_sha256 plan) ∧
    text_ok (pv_plan_sha256 plan) ∧ 1 ≤ pv_plaintext_bytes plan) as (-> & -> & -> & ? & ? & ?).
  { unfold layout_pack_volume in Hl. apply bind_Ok in Hl as (st & _ & Hl).
    apply bind_Ok in Hl as (index & _ & Hl). apply bind_Ok in Hl as (header & _ & Hl).
    apply bind_Ok in Hl as (digest & [Hpos Hd]%plan_sha256_digest & Hl). injection Hl as <-.
    cbn [pv_sequence pv_max_member_bytes pv_part_plaintext_bytes pv_index_sha256 pv_plan_sha256
         pv_plaintext_bytes].
    split_and!; try done; [apply sha256_hex_text|by apply sha256_fullmatch_text]. }
  assert (0 < max) as Hmax0 by (unfold _normalized_files in Hn; inv_ok Hn; lia).
  split_and!; try done; try lia.
  - unfold plan_pack_volume. rewrite Hn', ok_bind, Hmod.
    rewrite (proj2 (Z.ltb_ge ARCHIVE_PACK_FILES_MAX (len normalized))) by done.
    rewrite (proj2 (Z.ltb_ge sequence 0)), (proj2 (Z.ltb_ge part 1)), (proj2 (Z.leb_gt (2 ^ 256) sequence))
      by lia. exact Hl.
  - apply normalized_digests in Hn. eapply Forall_impl.
    + apply Forall_and; split; [exact Hst'|apply Forall_and; split; [exact Hb|exact Hn]].
    + intros f ([? _] & ? & ?). split_and!; [done|cbn beta in *; lia|by apply sha256_fullmatch_text].
Qed.

Lemma plan_payload_wf plan : plan_valid plan → json_wf (pack_volume_plan_payload plan).
Proof.
  intros Hv. destruct (plan_valid_facts plan Hv) as (_ & Hid & Hseq & _ & _ & _ & _ & Hfiles & ? & ?).
  unfold pack_volume_plan_payload. wf_obj; try done.
  - rewrite Hid. unfold pack_volume_id. apply Forall_app. split; [apply str_text|].
    apply ascii_text. apply format_padded_ascii; lia.
  - apply json_wf_list. rewrite Forall_fmap in Hfiles. rewrite Forall_fmap.
    eapply Forall_impl; [exact Hfiles|]. intros m (? & _ & ?). unfold file_row, source_row. wf_obj; done.
Qed.

Lemma canon_file_row f :
  canon (file_row f) =
  JObj [(str "bytes", JInt (af_bytes f)); (str "path", JStr (af_path f)); (str "sha256", JStr (af_sha256 f))].
Proof. reflexivity. Qed.

Lemma parse_file_row f : 0 ≤ af_bytes f → parse_plan_file (canon (file_row f)) = Ok f.
Proof.
  intros Hb. rewrite canon_file_row. unfold parse_plan_file, get_or_null.
  replace (keys_are _ _) with true by done. dict_simpl. cbn [negb from_option id].
  rewrite canonical_int_ok by done. rewrite ok_bind. by destruct f.
Qed.

Lemma canonical_positive_ok z label : 1 ≤ z → _canonical_positive_int (JInt z) label = Ok z.
Proof.
  intros Hz. unfold _canonical_positive_int. rewrite canonical_int_ok by lia.
  rewrite ok_bind. by rewrite (proj2 (Z.ltb_ge z 1)) by lia.
Qed.

Lemma rebuild_plan_payload plan : plan_valid plan →
  rebuild_pack_volume_plan (canon (pack_volume_plan_payload plan)) = Ok plan.
Proof.
  intros Hv. destruct (plan_valid_facts plan Hv) as
    (Hp & Hid & Hseq & Hmax & Hpart & Hplain & Hne & Hfiles & _ & _).
  unfold rebuild_pack_volume_plan, pack_volume_plan_payload. rewrite canon_obj.
  rewrite (keys_are_perm _ _ _ (keys_canon _)), keys_are_intro by done.
  unfold get_or_null. rewrite !dict_get_canon by solve_keys. dict_simpl.
  cbn [fmap option_fmap option_map canon from_option id is_str negb].
  rewrite bool_decide_true by done. cbn [negb]. rewrite canonical_int_ok, ok_bind by lia.
  cbn [py_str]. rewrite (proj2 (Z.leb_gt (2 ^ 256) _)), bool_decide_true by (done || lia). cbn [negb orb].
  rewrite !canonical_positive_ok by lia. rewrite !ok_bind.
  rewrite Forall_fmap in Hfiles. rewrite <- list_fmap_compose.
  destruct (pv_members plan) as [|m ms]; [done|]. set (members := m :: ms) in *.
  assert (mapM_result parse_plan_file (canon ∘ (λ m, file_row (member_file m)) <$> members) =
    Ok (member_file <$> members)) as ->.
  { apply mapM_result_Forall2. apply Forall2_fmap, Forall_Forall2_diag.
    eapply Forall_impl; [exact Hfiles|]. intros x (_ & Hb & _). by apply parse_file_row. }
  rewrite !ok_bind, Hp, !ok_bind. cbn [members fmap list_fmap].
  by rewrite Z.eqb_refl, !bool_decide_true.
Qed.

#[export] Instance pack_plan_document : JsonDocument PackVolumePlan := {|
  doc_payload := pack_volume_plan_payload;
  doc_of_payload := rebuild_pack_volume_plan;
  doc_valid := plan_valid;
  doc_payload_wf := plan_payload_wf;
  doc_law := rebuild_plan_payload;
|}.

(** A persisted pack plan restores exactly: for files whose normalised paths are
    stable, the canonical bytes of the plan exist and
    [parse_pack_volume_plan] rebuilds the identical plan from them. *)
Theorem pack_volume_plan_roundtrip files sequence max part plan :
  plan_pack_volume files sequence max part = Ok plan →
  Forall (λ m, stable_path (pm_path m)) (pv_members plan) →
  ∃ content, pack_volume_plan_bytes plan = Ok content ∧ parse_pack_volume_plan content = Ok plan.
Proof.
  intros Hp Hst. assert (plan_valid plan) as Hv by (unfold plan_valid; eauto 8).
  destruct (@document_bytes_roundtrip _ _ pack_plan_document false plan Hv) as (content & Hc & Hparse).
  exists content. split; [exact Hc|]. unfold parse_pack_volume_plan, parse_pack_volume_plan_text.
  destruct (utf8_decode content); [|done]. rewrite ok_bind in *. destruct (loads _); [|done].
  exact Hparse.
Qed.
End persistence.

(** ** Several volumes *)

Section volumes.
Context `{PyEnv}.
Variables (source_bytes_per_volume files_per_volume max_member_bytes part_plaintext_bytes : Z).

Definition volume_files (v : PackVolumePlan) : list ArchiveFile := member_file <$> pv_members v.

Lemma normalized_sorted_stable files max normalized :
  _normalized_files files max = Ok normalized →
  Forall (λ f, normalize_relpath (af_path f) = Ok (af_path f)) files →
  StronglySorted (key_le af_path) files → normalized = files.
Proof.
  intros (new & Hnew & _ & _ & _ & ->)%normalized_files_spec Hst Hsort.
  assert (new = files) as ->; [|by apply sorted_by_id]. clear Hsort.
  induction Hnew as [|f f' files new (Hn & _ & _ & _ & Hset) _ IH]; [done|].
  apply Forall_cons in Hst as [Hf Hst]. rewrite (IH Hst). f_equal.
  rewrite Hf in Hn. injection Hn as Hn. rewrite Hset, <- Hn. by destruct f.
Qed.

Lemma layout_sequence normalized sequence max part plan :
  layout_pack_volume normalized sequence max part = Ok plan → pv_sequence plan = sequence.
Proof.
  unfold layout_pack_volume. intros (? & _ & Hl)%bind_Ok.
  apply bind_Ok in Hl as (? & _ & Hl). apply bind_Ok in Hl as (? & _ & Hl).
  apply bind_Ok in Hl as (? & _ & Hl). by injection Hl as <-.
Qed.

Lemma plan_volume_files files sequence plan :
  plan_pack_volume files sequence max_member_bytes part_plaintext_bytes = Ok plan →
  Forall (λ f, normalize_relpath (af_path f) = Ok (af_path f)) files →
  StronglySorted (key_le af_path) files → volume_files plan = files ∧ pv_sequence plan = sequence.
Proof.
  intros (normalized & Hn & _ & _ & _ & _ & Hl)%plan_pack_volume_inv Hst Hsort.
  pose proof (normalized_bytes _ _ _ Hn) as Hb.
  pose proof (normalized_files_spec _ _ _ Hn) as (_ & _ & _ & Hne & _).
  pose proof (normalized_sorted_stable _ _ _ Hn Hst Hsort) as ->.
  destruct (layout_pack_volume_inv _ _ _ _ _ ltac:(eapply Forall_impl; [exact Hb|simpl; lia]) Hne Hl) as
    (_ & _ & _ & _ & closed & final & Hpl). unfold volume_files. split.
  - rewrite (pl_members _ _ _ _ Hpl), unit_members_files. apply Hpl.
  - by eapply layout_sequence.
Qed.

(** The bounds a group of files keeps, unless it is a single large file. *)
Definition group_bounds (files : list ArchiveFile) : Prop :=
  0 < len files ≤ files_per_volume ∧
  (sumZ af_bytes files ≤ source_bytes_per_volume ∨ len files = 1).

Record volumes_inv (processed : list ArchiveFile) (st : volumes_state) : Prop := {
  vi_files : concat (volume_files <$> vs_volumes st) ++ vs_pending st = processed;
  vi_bytes : vs_pending_bytes st = sumZ af_bytes (vs_pending st);
  vi_sequence : pv_sequence <$> vs_volumes st = rangeZ 0 (len (vs_volumes st));
  vi_bounds : Forall (λ v, group_bounds (volume_files v)) (vs_volumes st);
  vi_pending : vs_pending st ≠ [] → group_bounds (vs_pending st);
}.

Lemma rangeZ_snoc n : 0 ≤ n → rangeZ 0 (n + 1) = rangeZ 0 n ++ [n].
Proof.
  intros Hn. unfold rangeZ. replace (n + 1 - 0) with ((n - 0) + 1) by lia.
  rewrite seqZ_app by lia. f_equal. unfold seqZ. simpl. f_equal. lia.
Qed.

Lemma sorted_app_inv {A} (R : relation A) l k :
  StronglySorted R (l ++ k) → StronglySorted R l ∧ StronglySorted R k.
Proof.
  induction l as [|x l IH]; simpl; [by repeat constructor|].
  inversion 1 as [|? ? Hs Hx]; subst. destruct (IH Hs). apply Forall_app in Hx as [? _].
  by repeat constructor.
Qed.

Lemma flush_pending_inv processed st st' :
  volumes_inv processed st → vs_pending st ≠ [] →
  Forall (λ f, normalize_relpath (af_path f) = Ok (af_path f)) processed →
  StronglySorted (key_le af_path) processed →
  flush_pending max_member_bytes part_plaintext_bytes st = Ok st' →
  volumes_inv processed st' ∧ vs_pending st' = [].
Proof.
  intros [] Hne Hst Hsort Hf. unfold flush_pending in Hf. apply bind_Ok in Hf as (v & Hv & Hf).
  injection Hf as <-. rewrite <- vi_files0 in Hst, Hsort.
  apply Forall_app in Hst as [_ Hst]. apply sorted_app_inv in Hsort as [_ Hsort].
  destruct (plan_volume_files _ _ _ Hv Hst Hsort) as [Hfiles Hseq]. split; [|done].
  split; cbn [vs_volumes vs_pending vs_pending_bytes]; try done.
  - rewrite fmap_app, concat_app, app_nil_r. cbn. by rewrite app_nil_r, Hfiles.
  - rewrite fmap_app, len_app. change (len [v]) with 1. rewrite rangeZ_snoc by apply len_nonneg.
    rewrite vi_sequence0. cbn. by rewrite Hseq.
  - apply Forall_app. split; [done|]. constructor; [|constructor]. rewrite Hfiles. auto.
Qed.

Lemma volumes_step_inv processed st f st' :
  0 < files_per_volume → volumes_inv processed st →
  Forall (λ f, normalize_relpath (af_path f) = Ok (af_path f)) processed →
  StronglySorted (key_le af_path) processed →
  pack_volumes_step source_bytes_per_volume files_per_volume max_member_bytes part_plaintext_bytes st f
    = Ok st' → volumes_inv (processed ++ [f]) st'.
Proof.
  intros Hpos Hinv Hst Hsort Hstep. unfold pack_volumes_step in Hstep.
  apply bind_Ok in Hstep as (st1 & Hflush & Hstep). injection Hstep as <-.
  assert (volumes_inv processed st1 ∧
    (vs_pending st1 ≠ [] → len (vs_pending st1) < files_per_volume ∧
       vs_pending_bytes st1 + af_bytes f ≤ source_bytes_per_volume)) as [[] Hroom].
  { unfold has_pending in Hflush. destruct (vs_pending st) as [|g gs] eqn:Hp; cbn [andb] in Hflush.
    - injection Hflush as <-. split; [done|]. by rewrite Hp.
    - destruct (_ || _) eqn:Hfull.
      + destruct (flush_pending_inv _ _ _ Hinv ltac:(by rewrite Hp) Hst Hsort Hflush) as [? ->]. done.
      + injection Hflush as <-. split; [done|]. intros _. rewrite Hp. apply orb_false_iff in Hfull. lia. }
  split; cbn [vs_volumes vs_pending vs_pending_bytes]; try done.
  - by rewrite app_assoc, vi_files0.
  - rewrite sumZ_app, vi_bytes0. cbn. lia.
  - intros _. unfold group_bounds. rewrite len_app, sumZ_app. change (len [f]) with 1. cbn [sumZ foldr].
    destruct (decide (vs_pending st1 = [])) as [->|Hne]; [unfold len; simpl; lia|].
    destruct (Hroom Hne). pose proof (len_nonneg (vs_pending st1)). lia.
Qed.

Lemma volumes_loop_inv processed st files st' :
  0 < files_per_volume → volumes_inv processed st →
  Forall (λ f, normalize_relpath (af_path f) = Ok (af_path f)) (processed ++ files) →
  StronglySorted (key_le af_path) (processed ++ files) →
  foldM (pack_volumes_step source_bytes_per_volume files_per_volume max_member_bytes
    part_plaintext_bytes) st files = Ok st' → volumes_inv (processed ++ files) st'.
Proof.
  intros Hpos. revert processed st. induction files as [|f files IH]; intros processed st Hinv Hst Hsort Hf.
  { injection Hf as <-. by rewrite app_nil_r. }
  cbn [foldM] in Hf. apply bind_Ok in Hf as (st1 & Hstep & Hf).
  rewrite cons_middle, app_assoc in *. apply (IH _ st1); try done.
  apply (volumes_step_inv processed st); try done.
  - rewrite <- app_assoc in Hst. by apply Forall_app in Hst as [? _].
  - rewrite <- app_assoc in Hsort. by apply sorted_app_inv in Hsort as [? _].
Qed.

Lemma plan_pack_volumes_spec files volumes :
  plan_pack_volumes source_bytes_per_volume files_per_volume max_member_bytes part_plaintext_bytes
    files = Ok volumes →
  ∃ normalized, _normalized_files files max_member_bytes = Ok normalized ∧
  (Forall (λ f, normalize_relpath (af_path f) = Ok (af_path f)) normalized →
   concat (volume_files <$> volumes) = normalized ∧
   pv_sequence <$> volumes = rangeZ 0 (len volumes) ∧
   Forall (λ v, group_bounds (volume_files v)) volumes).
Proof.
  unfold plan_pack_volumes. intros (normalized & Hn & Hp)%bind_Ok. exists normalized.
  split; [done|]. intros Hst. destruct (source_bytes_per_volume <=? 0); [done|].
  destruct (Z.leb_spec files_per_volume 0); [done|].
  apply bind_Ok in Hp as (st & Hloop & Hp). apply bind_Ok in Hp as (st' & Hflush & Hp).
  injection Hp as <-.
  pose proof (normalized_files_spec _ _ _ Hn) as (_ & _ & _ & _ & [Hsort _] & _).
  eapply (volumes_loop_inv []) in Hloop as Hinv; [|lia|by split|done|done]. cbn [app] in Hinv.
  assert (volumes_inv normalized st' ∧ vs_pending st' = []) as [[] Hnil].
  { unfold has_pending in Hflush. destruct (vs_pending st) eqn:Hpend.
    - by injection Hflush as <-.
    - eapply flush_pending_inv; try done. by rewrite Hpend. }
  rewrite Hnil, app_nil_r in *. done.
Qed.

(** The numbering does not need stable paths. *)
Lemma flush_pending_sequences st st' :
  flush_pending max_member_bytes part_plaintext_bytes st = Ok st' →
  pv_sequence <$> vs_volumes st = rangeZ 0 (len (vs_volumes st)) →
  pv_sequence <$> vs_volumes st' = rangeZ 0 (len (vs_volumes st')).
Proof.
  unfold flush_pending. intros (v & Hv & [= <-])%bind_Ok Hs. cbn [vs_volumes].
  apply plan_pack_volume_inv in Hv as (normalized & _ & _ & _ & _ & _ & Hl).
  rewrite fmap_app, Hs, len_app. change (len [v]) with 1. rewrite rangeZ_snoc by apply len_nonneg.
  cbn. by rewrite (layout_sequence _ _ _ _ _ Hl).
Qed.

Lemma plan_pack_volumes_sequences files volumes :
  plan_pack_volumes source_bytes_per_volume files_per_volume max_member_bytes part_plaintext_bytes
    files = Ok volumes → pv_sequence <$> volumes = rangeZ 0 (len volumes).
Proof.
  unfold plan_pack_volumes. intros (normalized & _ & Hp)%bind_Ok.
  destruct (source_bytes_per_volume <=? 0); [done|]. destruct (files_per_volume <=? 0); [done|].
  apply bind_Ok in Hp as (st & Hloop & Hp). apply bind_Ok in Hp as (st' & Hflush & [= <-]).
  apply (foldM_inv _ (λ st, pv_sequence <$> vs_volumes st = rangeZ 0 (len (vs_volumes st)))) in Hloop; [|done|].
  - destruct (has_pending st); [by eapply flush_pending_sequences|by injection Hflush as <-].
  - intros s f s' _ Hs (s1 & Hs1 & [= <-])%bind_Ok. cbn [vs_volumes].
    destruct (_ && _); [by eapply flush_pending_sequences|by injection Hs1 as <-].
Qed.
End volumes.

(** A small pack in the ASCII environment. *)
Definition sample_files : list ArchiveFile :=
  [{| af_path := str "b.txt"; af_bytes := 3; af_sha256 := sha256_hex [1; 2; 3] |};
   {| af_path := str "a.txt"; af_bytes := 2; af_sha256 := sha256_hex [4; 5] |}].

Definition sample_plan : result PackVolumePlan := @plan_pack_volume ascii_env sample_files 7 1000 65536.


Lemma plan_pack_volume_layout_witness : ∃ plan,
  sample_plan = Ok plan ∧ units_at plan 65536 0 0 (pv_units plan) (pv_members plan).
Proof.
  destruct sample_plan as [plan|e] eqn:E; [|vm_compute in E; discriminate E].
  destruct (@plan_pack_volume_layout ascii_env sample_files 7 1000 65536 plan E) as (normalized & _ & _ & Hat).
  exists plan. split; [reflexivity|exact Hat].
Defined.

Lemma pack_volume_plan_roundtrip_witness : ∃ plan content,
  sample_plan = Ok plan ∧ @pack_volume_plan_bytes ascii_env plan = Ok content ∧
  @parse_pack_volume_plan ascii_env content = Ok plan.
Proof.
  destruct sample_plan as [plan|e] eqn:E; [|vm_compute in E; discriminate E].
  destruct (@pack_volume_plan_roundtrip ascii_env sample_files 7 1000 65536 plan E)
    as (content & Hc & Hp).
  - vm_compute in E. injection E as <-. cbn [pv_members].
    repeat (apply Forall_cons_2;
      [split; [apply (bool_decide_unpack _); vm_compute; exact I|vm_compute; reflexivity]|]).
    apply Forall_nil_2.
  - exists plan, content. split; [reflexivity|]. split; [exact Hc|exact Hp].
Defined.


(** A plan whose member path is not stable does not restore: the file ["./ a"]
    is accepted and planned under the path [" a"], but parsing the persisted
    plan normalises that path again to ["a"], rebuilds a different identity and
    refuses the plan. *)
Theorem unstable_plan_does_not_restore :
  (plan ← @plan_pack_volume ascii_env
     [{| af_path := str "./ a"; af_bytes := 0; af_sha256 := sha256_hex [] |}] 0 1000 65536;
   content ← @pack_volume_plan_bytes ascii_env plan;
   Ok (pm_path <$> pv_members plan, raised (@parse_pack_volume_plan ascii_env content))) =
  Ok ([str " a"], Some ValueError).
Proof. vm_compute. reflexivity. Qed.
