(* ===== verification/PackRender.v ===== *)
(** * Rendering upload units

    The rendering part of [riverhog_core/pack_volume.py]: one upload unit as a
    deterministic stretch of the tar archive, fed by source streams that are
    checked against their declared length and digest.  Generators are functions
    in a small monad over the state they share with their consumer; the
    specification is the byte string of the unit ([unit_bytes]). *)

From S2P Require Import Prelude Text Json Sha256 Paths Domain PackIngress Tar PackVolume.

(** ** Generators *)

(** A generator that runs from a state [S] and returns [A]: the chunks it
    yields, the state it leaves, and its end. *)
Definition gen (S A : Type) : Type := S → generated S A.

Definition gret {S A} (a : A) : gen S A := λ s, ([], s, Ok a).
Definition graise {S A} (e : exn) : gen S A := λ s, ([], s, Err e).
Definition gbind {S A B} (m : gen S A) (f : A → gen S B) : gen S B := λ s,
  let '(out, s', r) := m s in
  match r with
  | Ok a => let '(out', s'', r') := f a s' in (out ++ out', s'', r')
  | Err e => (out, s', Err e)
  end.
Definition glift {S A} (m : result A) : gen S A := λ s, ([], s, m).

Notation "'let*' x := m 'in' k" := (gbind m (λ x, k))
  (at level 200, x name, m at level 100, k at level 200) : riverhog_scope.
Notation "'gwhen' b 'raise' k msg ; rest" :=
  (if b then graise (Exn k (str msg)) else rest)
  (at level 200, b at level 99, k at level 9, msg at level 9, rest at level 200) : riverhog_scope.

(** ** The renderer *)

(** [emitted] and the state of whatever the source streams are read from. *)
Record render_state (S : Type) := { rn_emitted : Z; rn_reader : S }.
Arguments Build_render_state {S}.
Arguments rn_emitted {S}.
Arguments rn_reader {S}.

Definition emit {S} (data : pybytes) : gen (render_state S) unit := λ s,
  match data with
  | [] => ([], s, Ok tt)
  | _ => ([data], {| rn_emitted := rn_emitted s + len data; rn_reader := rn_reader s |}, Ok tt)
  end.

(** [{current.path: current for current in plan.members}[path]]: of equal paths
    the last one counts. *)
Definition member_of (members : list PackMemberPlan) (path : pystr) : option PackMemberPlan :=
  last (List.filter (λ m, bool_decide (pm_path m = path)) members).

(** [for chunk in read_source_chunks(source.path)]: the number of bytes and the
    data given to the digest. *)
Fixpoint copy_chunks {S} (source : ArchiveFile) (byte_count : Z) (fed : pybytes)
    (chunks : list pybytes) : gen (render_state S) (Z * pybytes) :=
  match chunks with
  | [] => gret (byte_count, fed)
  | data :: chunks' =>
      match data with
      | [] => copy_chunks source byte_count fed chunks'
      | _ =>
          let byte_count := byte_count + len data in
          if af_bytes source <? byte_count
          then graise (Exn ValueError (str "pack source is longer than declared: " ++ af_path source))
          else let* _ := emit data in copy_chunks source byte_count (fed ++ data) chunks'
      end
  end.

(** The source stream, then what its reader ends with. *)
Definition copy_source {S} (read_source_chunks : pystr → gen S unit) (source : ArchiveFile) :
    gen (render_state S) (Z * pybytes) := λ s,
  let '(chunks, reader, r) := read_source_chunks (af_path source) (rn_reader s) in
  let s' := {| rn_emitted := rn_emitted s; rn_reader := reader |} in
  (let* counted := copy_chunks source 0 [] chunks in
   let* _ := glift r in
   gret counted) s'.

Definition render_source {S} (read_source_chunks : pystr → gen S unit) (members : list PackMemberPlan)
    (unit : Z) (cursor : Z) (source : ArchiveFile) : gen (render_state S) Z :=
  match member_of members (af_path source) with
  | None => graise (Exn KeyError (af_path source))
  | Some member =>
      gwhen negb (pm_unit member =? unit) || negb (pm_header_offset member =? cursor)
        raise RuntimeError "pack member offsets do not match their upload unit";
      let* header := glift (_tar_header (af_path source) (af_bytes source)) in
      let* _ := emit header in
      let cursor := cursor + len header in
      gwhen negb (cursor =? pm_data_offset member)
        raise RuntimeError "pack member data offset is inconsistent";
      let* counted := copy_source read_source_chunks source in
      if negb (counted.1 =? af_bytes source)
      then graise (Exn ValueError (str "pack source byte count mismatch: " ++ af_path source))
      else if negb (bool_decide (sha256_hex counted.2 = af_sha256 source))
      then graise (Exn ValueError (str "pack source sha256 mismatch: " ++ af_path source))
      else
        let cursor := cursor + af_bytes source in
        let padding := _tar_padding (af_bytes source) in
        let* _ := emit (repeatZ padding 0) in
        let cursor := cursor + padding in
        gwhen negb (cursor =? pm_end_offset member)
          raise RuntimeError "pack member end offset is inconsistent";
        gret cursor
  end.

Fixpoint render_sources {S} (read_source_chunks : pystr → gen S unit) (members : list PackMemberPlan)
    (unit : Z) (cursor : Z) (sources : list ArchiveFile) : gen (render_state S) Z :=
  match sources with
  | [] => gret cursor
  | source :: sources' =>
      let* cursor := render_source read_source_chunks members unit cursor source in
      render_sources read_source_chunks members unit cursor sources'
  end.

(** A tar entry whose content is at hand: header, data, padding. *)
Definition emit_entry {S} (path : pystr) (size : Z) (data : pybytes) : gen (render_state S) Z :=
  let* header := glift (_tar_header path size) in
  let* _ := emit header in
  let* _ := emit data in
  let* _ := emit (repeatZ (_tar_padding size) 0) in
  gret (len header + size + _tar_padding size).

Definition render_padding {S} (unit : PackUploadUnitPlan) (cursor : Z) : gen (render_state S) Z :=
  match pu_padding unit with
  | None => gret cursor
  | Some padding_plan =>
      gwhen negb (pp_header_offset padding_plan =? cursor)
        raise RuntimeError "pack padding offset is inconsistent";
      let* n := emit_entry (pp_path padding_plan) (pp_payload_bytes padding_plan)
                 (repeatZ (pp_payload_bytes padding_plan) 0) in
      let cursor := cursor + n in
      gwhen negb (cursor =? pp_end_offset padding_plan)
        raise RuntimeError "pack padding end offset is inconsistent";
      gret cursor
  end.

Definition render_index {S} (plan : PackVolumePlan) (unit : PackUploadUnitPlan) (cursor : Z) :
    gen (render_state S) Z :=
  if pu_includes_index unit then
    let* n := emit_entry PACK_INDEX_PATH (len (pv_index_bytes plan)) (pv_index_bytes plan) in
    gret (cursor + n)
  else gret cursor.

Definition render_end_markers {S} (unit : PackUploadUnitPlan) (cursor : Z) : gen (render_state S) Z :=
  if pu_includes_end_markers unit then
    let* _ := emit (repeatZ (_TAR_BLOCK_SIZE * 2) 0) in gret (cursor + _TAR_BLOCK_SIZE * 2)
  else gret cursor.

Definition _require_unit (plan : PackVolumePlan) (unit_number : Z) : result PackUploadUnitPlan :=
  when (unit_number <? 0) || (len (pv_units plan) <=? unit_number)
    raise ValueError "pack upload unit is outside the plan";
  match pv_units plan !! Z.to_nat unit_number with
  | Some unit =>
      when negb (pu_unit unit =? unit_number) raise RuntimeError "pack upload unit ordering is invalid";
      Ok unit
  | None => Err (Exn IndexError (str "tuple index out of range"))
  end.

Definition render_unit {S} (plan : PackVolumePlan) (u : PackUploadUnitPlan)
    (read_source_chunks : pystr → gen S unit) : gen (render_state S) unit :=
  let* cursor := render_sources read_source_chunks (pv_members plan) (pu_unit u)
                   (pu_plaintext_start u) (pu_sources u) in
  let* cursor := render_padding u cursor in
  let* cursor := render_index plan u cursor in
  let* cursor := render_end_markers u cursor in
  λ s, (if negb (cursor =? pu_plaintext_end u) || negb (rn_emitted s =? pu_plaintext_bytes u)
        then graise (Exn RuntimeError
               (str "rendered pack upload unit length does not match its plan"))
        else gret tt) s.

Definition iter_render_pack_upload_unit {S} (plan : PackVolumePlan) (unit_number : Z)
    (read_source_chunks : pystr → gen S unit) : gen S unit := λ s,
  let '(out, s', r) :=
    (let* u := glift (_require_unit plan unit_number) in render_unit plan u read_source_chunks)
      {| rn_emitted := 0; rn_reader := s |} in
  (out, rn_reader s', r).

(** ** Rendering from one unit body *)

Section payload.
Context `{PyEnv}.

Definition unit_source (source : ArchiveFile) : result PackUnitSource :=
  new_PackUnitSource (af_path source) (af_bytes source) (af_sha256 source).

Definition pack_unit_descriptor (plan : PackVolumePlan) (u : PackUploadUnitPlan) :
    result PackUnitDescriptor :=
  sources ← mapM_result unit_source (pu_sources u);
  new_PackUnitDescriptor
    {| ud_volume_id := pv_volume_id plan; ud_unit := pu_unit u; ud_payload_bytes := pu_payload_bytes u;
       ud_plaintext_start := pu_plaintext_start u; ud_plaintext_bytes := pu_plaintext_bytes u;
       ud_final := pu_final u; ud_sources := sources; ud_plan_sha256 := pv_plan_sha256 plan |}.

Definition pack_unit_descriptors (plan : PackVolumePlan) : result (list PackUnitDescriptor) :=
  mapM_result (pack_unit_descriptor plan) (pv_units plan).

(** [items[index]]: a negative index counts from the end. *)
Definition py_index {A} (items : list A) (index : Z) : result A :=
  let i := if index <? 0 then index + len items else index in
  match (if i <? 0 then None else items !! Z.to_nat i) with
  | Some x => Ok x
  | None => Err (Exn IndexError (str "tuple index out of range"))
  end.

(** [{source.path: source for source in descriptor.sources}[path]] *)
Definition source_of (sources : list PackUnitSource) (path : pystr) : option PackUnitSource :=
  last (List.filter (λ s, bool_decide (us_path s = path)) sources).

Definition read_payload (descriptor : PackUnitDescriptor) (path : pystr) :
    gen PackUnitPayloadReader unit :=
  match source_of (ud_sources descriptor) path with
  | Some source => λ rd, iter_source rd source
  | None => graise (Exn KeyError path)
  end.

Definition iter_render_pack_upload_unit_payload (plan : PackVolumePlan) (unit_number : Z)
    (payload_chunks : list pybytes) : list pybytes * result unit :=
  match (descriptors ← pack_unit_descriptors plan; py_index descriptors unit_number) with
  | Err e => ([], Err e)
  | Ok descriptor =>
      let '(out, _, r) :=
        (let* _ := iter_render_pack_upload_unit plan unit_number (read_payload descriptor) in
         λ rd, ([], rd, finish rd)) (new_reader descriptor payload_chunks) in
      (out, r)
  end.

End payload.

(** ** Reasoning about generators *)

(** [m] yields the bytes [out], moves from [s] to [s'] and returns [a]. *)
Definition runs {S A} (m : gen S A) (s : S) (out : pybytes) (s' : S) (a : A) : Prop :=
  ∃ chunks, m s = (chunks, s', Ok a) ∧ concat chunks = out.

(** [m] ends in an exception of the [ValueError] family. *)
Definition fails {S A} (m : gen S A) (s : S) : Prop :=
  ∃ chunks s' e, m s = (chunks, s', Err e) ∧ is_value_error (exn_class e) = true.

Section generators.
Context {S : Type}.
Implicit Types s : S.

Lemma runs_ret {A} (a : A) s : runs (gret a) s [] s a.
Proof. by exists []. Qed.

Lemma runs_ret_eq {A} (a a' : A) s s' : s = s' → a = a' → runs (gret a) s [] s' a'.
Proof. intros -> ->. apply runs_ret. Qed.

Lemma runs_bind {A B} (m : gen S A) (f : A → gen S B) s o1 s1 a o2 s2 b :
  runs m s o1 s1 a → runs (f a) s1 o2 s2 b → runs (gbind m f) s (o1 ++ o2) s2 b.
Proof.
  intros (c1 & H1 & <-) (c2 & H2 & <-). exists (c1 ++ c2). unfold gbind. rewrite H1, H2.
  by rewrite concat_app.
Qed.

Lemma runs_lift {A} (m : result A) a s : m = Ok a → runs (glift m) s [] s a.
Proof. intros ->. by exists []. Qed.

Lemma fails_raise {A} e s : is_value_error (exn_class e) = true → fails (@graise S A e) s.
Proof. intros He. by exists [], s, e. Qed.

Lemma fails_bind_l {A B} (m : gen S A) (f : A → gen S B) s : fails m s → fails (gbind m f) s.
Proof. intros (c & s' & e & Hm & He). exists c, s', e. unfold gbind. by rewrite Hm. Qed.

Lemma fails_bind_r {A B} (m : gen S A) (f : A → gen S B) s o1 s1 a :
  runs m s o1 s1 a → fails (f a) s1 → fails (gbind m f) s.
Proof.
  intros (c1 & H1 & _) (c2 & s' & e & H2 & He). exists (c1 ++ c2), s', e.
  unfold gbind. by rewrite H1, H2.
Qed.

Lemma runs_not_fails {A} (m : gen S A) s out s' a : runs m s out s' a → fails m s → False.
Proof. intros (c & Hr & _) (? & ? & ? & Hf & _). congruence. Qed.

(** A generator that returns yields determined bytes. *)
Lemma runs_fun {A} (m : gen S A) s out s' a out2 s2 a2 :
  runs m s out s' a → runs m s out2 s2 a2 → out = out2 ∧ s' = s2 ∧ a = a2.
Proof. intros (c & Hr & <-) (c' & Hr' & <-). rewrite Hr in Hr'. by injection Hr' as <- <- <-. Qed.

End generators.

Section emitting.
Context {S : Type}.
Implicit Types s : render_state S.

Definition advanced s (n : Z) (rd : S) : render_state S :=
  {| rn_emitted := rn_emitted s + n; rn_reader := rd |}.

Lemma runs_emit s data : runs (emit data) s data (advanced s (len data) (rn_reader s)) tt.
Proof.
  unfold emit, advanced. destruct data as [|b data].
  - exists []. rewrite len_nil, Z.add_0_r. by destruct s.
  - eexists. split; [done|]. cbn [concat]. by rewrite app_nil_r.
Qed.

Lemma copy_chunks_runs source byte_count fed chunks s :
  byte_count + len (concat chunks) ≤ af_bytes source →
  runs (copy_chunks source byte_count fed chunks) s (concat chunks)
    (advanced s (len (concat chunks)) (rn_reader s))
    (byte_count + len (concat chunks), fed ++ concat chunks).
Proof.
  revert byte_count fed s. induction chunks as [|data chunks IH]; intros byte_count fed s Hle.
  { cbn. rewrite app_nil_r. unfold advanced. change (len []) with 0. rewrite !Z.add_0_r.
    destruct s. apply runs_ret. }
  cbn [concat copy_chunks] in *. rewrite len_app in *. destruct data as [|b data]; [by apply IH|].
  set (d := b :: data) in *. pose proof (len_nonneg (concat chunks)).
  rewrite (proj2 (Z.ltb_ge _ _)) by lia.
  eapply runs_bind; [apply runs_emit|]. cbn beta.
  replace (advanced s (len d + len (concat chunks)) (rn_reader s)) with
    (advanced (advanced s (len d) (rn_reader s)) (len (concat chunks)) (rn_reader s)).
  2: { unfold advanced. cbn. f_equal. lia. }
  rewrite Z.add_assoc, (app_assoc fed d).
  apply (IH (byte_count + len d) (fed ++ d) (advanced s (len d) (rn_reader s))). lia.
Qed.

(** However long the chunks are, copying them ends. *)
Lemma copy_chunks_total source byte_count fed chunks s :
  (∃ out s' a, runs (copy_chunks source byte_count fed chunks) s out s' a) ∨
  fails (copy_chunks source byte_count fed chunks) s.
Proof.
  revert byte_count fed s. induction chunks as [|data chunks IH]; intros byte_count fed s.
  { left. eexists _, _, _. apply runs_ret. }
  cbn [copy_chunks]. destruct data as [|b data]; [apply IH|].
  destruct (_ <? _); [right; by apply fails_raise|].
  destruct (IH (byte_count + len (b :: data)) (fed ++ b :: data)
    (advanced s (len (b :: data)) (rn_reader s))) as [(out & s' & a & Hr)|Hf].
  - left. eexists _, _, _. eapply runs_bind; [apply runs_emit|exact Hr].
  - right. eapply fails_bind_r; [apply runs_emit|exact Hf].
Qed.
End emitting.

(** ** The bytes of a unit *)

Definition sources_bytes (sources : list ArchiveFile) (payloads : list pybytes) : pybytes :=
  concat (zip_with (λ f p, entry_bytes (af_path f) p) sources payloads).

Definition padding_bytes (u : PackUploadUnitPlan) : pybytes :=
  match pu_padding u with
  | Some pp => entry_bytes (pp_path pp) (zeros (pp_payload_bytes pp))
  | None => []
  end.

Definition index_entry (plan : PackVolumePlan) (u : PackUploadUnitPlan) : pybytes :=
  if pu_includes_index u then entry_bytes PACK_INDEX_PATH (pv_index_bytes plan) else [].

Definition end_markers (u : PackUploadUnitPlan) : pybytes :=
  if pu_includes_end_markers u then zeros 1024 else [].

Definition unit_bytes (plan : PackVolumePlan) (u : PackUploadUnitPlan) (payloads : list pybytes) :
    pybytes :=
  sources_bytes (pu_sources u) payloads ++ padding_bytes u ++ index_entry plan u ++ end_markers u.

Lemma len_header_bytes path size : len (header_bytes path size) = header_len path size.
Proof. unfold header_bytes, header_len. by destruct (_tar_header path size). Qed.

Lemma len_entry_bytes path data :
  len (entry_bytes path data) = header_len path (len data) + len data + _tar_padding (len data).
Proof. unfold entry_bytes. rewrite !len_app, len_header_bytes, len_zeros_padding. lia. Qed.

Section sources.
Context {S : Type} (read : pystr → gen S unit) (members : list PackMemberPlan) (unit : Z).

(** The member of a source at [cursor], as the plan has it. *)
Definition member_at (cursor : Z) (f : ArchiveFile) : Prop :=
  ∃ m, member_of members (af_path f) = Some m ∧ pm_unit m = unit ∧ pm_header_offset m = cursor ∧
    pm_data_offset m = cursor + header_len (af_path f) (af_bytes f) ∧
    pm_end_offset m = cursor + entry_len f.

Lemma copy_source_runs f s chunks rd :
  read (af_path f) (rn_reader s) = (chunks, rd, Ok tt) → len (concat chunks) = af_bytes f →
  runs (copy_source read f) s (concat chunks) (advanced s (af_bytes f) rd) (af_bytes f, concat chunks).
Proof.
  intros Hread Hlen. unfold copy_source, runs. rewrite Hread.
  pose proof (copy_chunks_runs f 0 [] chunks
    {| rn_emitted := rn_emitted s; rn_reader := rd |} ltac:(lia)) as (cs & Hc & Hcat).
  exists cs. split; [|done]. unfold gbind, glift, gret. rewrite Hc, Hlen.
  by rewrite !app_nil_r.
Qed.

Lemma render_source_runs cursor f s chunks rd :
  member_at cursor f → header_ok f →
  read (af_path f) (rn_reader s) = (chunks, rd, Ok tt) →
  len (concat chunks) = af_bytes f → sha256_hex (concat chunks) = af_sha256 f →
  runs (render_source read members unit cursor f) s (entry_bytes (af_path f) (concat chunks))
    (advanced s (entry_len f) rd) (cursor + entry_len f).
Proof.
  intros (m & Hm & Hu & Hho & Hdo & Heo) Hh Hread Hlen Hsha. unfold render_source. rewrite Hm, Hu, Hho.
  rewrite !Z.eqb_refl. cbn [negb orb]. unfold entry_bytes, header_bytes. rewrite Hlen.
  unfold header_ok in Hh. unfold entry_len, header_len in *.
  destruct (_tar_header (af_path f) (af_bytes f)) as [h|]; [|done].
  rewrite <- (app_nil_l (h ++ _)). eapply runs_bind; [by apply runs_lift|].
  eapply runs_bind; [apply runs_emit|]. cbv zeta. rewrite Hdo, Z.eqb_refl. cbn [negb].
  eapply runs_bind; [by apply copy_source_runs|].
  cbn [fst snd]. rewrite Z.eqb_refl, bool_decide_true by done. cbn [negb].
  rewrite <- (app_nil_r (zeros _)). eapply runs_bind; [apply runs_emit|]. cbv zeta. rewrite Heo.
  fold (zeros (_tar_padding (af_bytes f))). rewrite len_zeros_padding. unfold advanced. cbn [rn_emitted rn_reader].
  replace (cursor + len h + af_bytes f + _tar_padding (af_bytes f) =?
    cursor + (len h + af_bytes f + _tar_padding (af_bytes f))) with true by lia. cbn [negb].
  apply runs_ret_eq; [f_equal; lia|lia].
Qed.

Lemma render_source_fails cursor f s chunks rd e :
  member_at cursor f → header_ok f →
  read (af_path f) (rn_reader s) = (chunks, rd, Err e) → is_value_error (exn_class e) = true →
  fails (render_source read members unit cursor f) s.
Proof.
  intros (m & Hm & Hu & Hho & Hdo & Heo) Hh Hread He. unfold render_source. rewrite Hm, Hu, Hho.
  rewrite !Z.eqb_refl. cbn [negb orb]. unfold header_ok, header_len in *.
  destruct (_tar_header (af_path f) (af_bytes f)) as [h|]; [|done].
  eapply fails_bind_r; [by apply runs_lift|]. eapply fails_bind_r; [apply runs_emit|].
  cbv zeta. rewrite Hdo, Z.eqb_refl. cbn [negb]. apply fails_bind_l.
  unfold copy_source, fails. cbn [rn_reader advanced]. rewrite Hread.
  destruct (copy_chunks_total f 0 [] chunks {| rn_emitted := rn_emitted s + len h; rn_reader := rd |})
    as [(out & s' & a & Hr)|Hf].
  - eapply fails_bind_r; [exact Hr|]. apply fails_bind_l. by exists [], s', e.
  - by apply fails_bind_l.
Qed.
End sources.

(** ** Sources read from the body of a unit *)

(** The declared source of a file of the unit. *)
Definition declared (d : PackUnitDescriptor) (f : ArchiveFile) (s : PackUnitSource) : Prop :=
  us_bytes s = af_bytes f ∧ us_sha256 s = af_sha256 f ∧
  source_of (ud_sources d) (af_path f) = Some s.

Fixpoint members_at (members : list PackMemberPlan) (unit cursor : Z) (fs : list ArchiveFile) : Prop :=
  match fs with
  | [] => True
  | f :: fs' => member_at members unit cursor f ∧ members_at members unit (cursor + entry_len f) fs'
  end.

Lemma render_sources_payload d members unit fs ss cursor s :
  Forall2 (declared d) fs ss → members_at members unit cursor fs → Forall header_ok fs →
  Forall (λ s, 0 ≤ us_bytes s) ss → rd_wf (rn_reader s) → expects (rn_reader s) ss →
  match read_sources (rn_reader s) ss with
  | Ok (payloads, rd) =>
      runs (render_sources (read_payload d) members unit cursor fs) s (sources_bytes fs payloads)
        (advanced s (sumZ entry_len fs) rd) (cursor + sumZ entry_len fs)
  | Err _ => fails (render_sources (read_payload d) members unit cursor fs) s
  end.
Proof.
  intros Hd. revert cursor s. induction Hd as [|f us fs ss (Hb & Hsha & Hof) Hd IH];
    intros cursor s Hm Hh Hpos Hwf Hexp.
  { cbn. rewrite Z.add_0_r. apply runs_ret_eq; [|lia]. unfold advanced. rewrite Z.add_0_r. by destruct s. }
  destruct Hm as [Hm Hms]. apply Forall_cons in Hh as [Hh Hhs]. apply Forall_cons in Hpos as [Hp Hps].
  cbn [read_sources render_sources].
  pose proof (iter_source_spec (rn_reader s) us ss Hwf Hp Hexp) as Hspec.
  pose proof (iter_source_raises (rn_reader s) us ss Hwf Hp Hexp) as Hraise.
  destruct (iter_source (rn_reader s) us) as [[chunks rd1] r] eqn:Hiter. destruct Hspec as [_ Hspec].
  assert (read_payload d (af_path f) (rn_reader s) = (chunks, rd1, r)) as Hread.
  { unfold read_payload. by rewrite Hof. }
  destruct r as [[]|e].
  2: { apply fails_bind_l. by eapply render_source_fails. }
  rewrite ok_bind. destruct (Hspec eq_refl) as (Hrd & [Hlen Hdig] & _).
  pose proof (render_source_runs (read_payload d) members unit cursor f s chunks rd1 Hm Hh Hread
    ltac:(lia) ltac:(congruence)) as Hrun.
  specialize (IH (cursor + entry_len f) (advanced s (entry_len f) rd1) Hms Hhs Hps (proj1 Hrd)
    (expects_next _ _ _ _ _ Hexp Hrd)). cbn [rn_reader advanced] in IH.
  destruct (read_sources rd1 ss) as [[payloads rd2]|e'].
  - rewrite ok_bind. cbn [sources_bytes zip_with concat].
    eapply runs_bind; [exact Hrun|]. rewrite sumZ_cons, Z.add_assoc.
    unfold advanced in *. cbn [rn_emitted] in *. by rewrite Z.add_assoc.
  - by eapply fails_bind_r.
Qed.

(** ** Padding, index and end markers *)

Lemma emit_entry_runs {S} path data (s : render_state S) :
  is_ok (_tar_header path (len data)) = true →
  runs (emit_entry path (len data) data) s (entry_bytes path data)
    (advanced s (len (entry_bytes path data)) (rn_reader s)) (len (entry_bytes path data)).
Proof.
  intros Hok. rewrite len_entry_bytes. unfold emit_entry, entry_bytes, header_bytes, header_len.
  destruct (_tar_header path (len data)) as [h|]; [|done].
  rewrite <- (app_nil_l (h ++ _)). eapply runs_bind; [by apply runs_lift|].
  eapply runs_bind; [apply runs_emit|]. eapply runs_bind; [apply runs_emit|].
  rewrite <- (app_nil_r (zeros _)). eapply runs_bind; [apply runs_emit|].
  fold (zeros (_tar_padding (len data))). rewrite len_zeros_padding.
  unfold advanced. cbn [rn_emitted rn_reader]. apply runs_ret_eq; [f_equal; lia|lia].
Qed.

Lemma render_padding_runs {S} volume_id u cursor (s : render_state S) :
  _alignment_padding volume_id (pu_unit u) cursor = Ok (pu_padding u, pu_plaintext_end u) →
  runs (render_padding u cursor) s (padding_bytes u)
    (advanced s (pu_plaintext_end u - cursor) (rn_reader s)) (pu_plaintext_end u).
Proof.
  unfold _alignment_padding, render_padding, padding_bytes. intros Ha.
  destruct (Z.eqb_spec (cursor mod CHUNK_SIZE) 0) as [E|E].
  { injection Ha as <- <-. apply runs_ret_eq; [|done]. unfold advanced.
    rewrite Z.sub_diag, Z.add_0_r. by destruct s. }
  destruct (_ || _) eqn:Hc; [done|]. apply orb_false_iff in Hc as [Hc _].
  apply bind_Ok in Ha as (h & Hh & Ha). destruct (negb _); [done|].
  injection Ha as <- <-. cbn [pp_header_offset pp_path pp_payload_bytes pp_end_offset].
  rewrite Z.eqb_refl. cbn [negb].
  set (n := CHUNK_SIZE - cursor mod CHUNK_SIZE - _TAR_BLOCK_SIZE) in *.
  assert (len (zeros n) = n) as Hn by (apply len_repeatZ; lia).
  pose proof (emit_entry_runs (padding_path volume_id (pu_unit u)) (zeros n) s) as Hrun.
  rewrite len_entry_bytes, Hn in Hrun. unfold header_len in Hrun. rewrite Hh in Hrun.
  rewrite <- (app_nil_r (entry_bytes _ _)). eapply runs_bind; [by apply Hrun|]. cbv zeta.
  replace (cursor + (len h + n + _tar_padding n) =? cursor + len h + n + _tar_padding n) with true by lia.
  cbn [negb]. apply runs_ret_eq; [unfold advanced; f_equal; lia|lia].
Qed.

(** The units of a plan are of one of two kinds. *)
Definition planned_unit (plan : PackVolumePlan) (u : PackUploadUnitPlan) : Prop :=
  closed_unit (pv_volume_id plan) u ∨
  (final_unit (pv_index_bytes plan) u ∧
   is_ok (_tar_header PACK_INDEX_PATH (len (pv_index_bytes plan))) = true).

(** What follows the sources of a unit. *)
Definition render_tail {S} (plan : PackVolumePlan) (u : PackUploadUnitPlan) (cursor : Z) :
    gen (render_state S) Z :=
  let* cursor := render_padding u cursor in
  let* cursor := render_index plan u cursor in
  render_end_markers u cursor.

Lemma render_tail_runs {S} plan u (s : render_state S) : planned_unit plan u →
  runs (render_tail plan u (body_end u)) s (padding_bytes u ++ index_entry plan u ++ end_markers u)
    (advanced s (pu_plaintext_end u - body_end u) (rn_reader s)) (pu_plaintext_end u).
Proof.
  unfold render_tail, render_index, render_end_markers, index_entry, end_markers.
  intros [(Ha & -> & -> & _)|[(-> & -> & Hp & _ & Hend) Hok]].
  - eapply runs_bind; [by apply (render_padding_runs (pv_volume_id plan))|].
    eapply runs_bind; [apply runs_ret|apply runs_ret].
  - unfold render_padding, padding_bytes. rewrite Hp. eapply runs_bind; [apply runs_ret|].
    eapply runs_bind.
    { rewrite <- (app_nil_r (entry_bytes _ _)). eapply runs_bind; [by apply emit_entry_runs|apply runs_ret]. }
    rewrite <- (app_nil_r (zeros 1024)). eapply runs_bind; [apply runs_emit|].
    fold (zeros (_TAR_BLOCK_SIZE * 2)).
    rewrite len_entry_bytes. unfold _TAR_BLOCK_SIZE, advanced. cbn [rn_emitted rn_reader].
    change (len (zeros 1024)) with 1024. apply runs_ret_eq; [f_equal; lia|lia].
Qed.

Lemma render_unit_payload plan d u ss rd :
  planned_unit plan u → Forall2 (declared d) (pu_sources u) ss →
  members_at (pv_members plan) (pu_unit u) (pu_plaintext_start u) (pu_sources u) →
  Forall header_ok (pu_sources u) → Forall (λ s, 0 ≤ us_bytes s) ss → rd_wf rd → expects rd ss →
  let s := {| rn_emitted := 0; rn_reader := rd |} in
  match read_sources rd ss with
  | Ok (payloads, rd') =>
      runs (render_unit plan u (read_payload d)) s (unit_bytes plan u payloads)
        {| rn_emitted := pu_plaintext_bytes u; rn_reader := rd' |} tt
  | Err _ => fails (render_unit plan u (read_payload d)) s
  end.
Proof.
  intros Hu Hd Hm Hh Hb Hwf Hexp s.
  pose proof (render_sources_payload d (pv_members plan) (pu_unit u) (pu_sources u) ss
    (pu_plaintext_start u) s Hd Hm Hh Hb Hwf Hexp) as Hr. cbn [rn_reader s] in Hr.
  unfold render_unit. destruct (read_sources rd ss) as [[payloads rd']|e]; [|by apply fails_bind_l].
  pose proof (render_tail_runs plan u (advanced s (sumZ entry_len (pu_sources u)) rd') Hu) as Ht.
  unfold unit_bytes. eapply runs_bind; [exact Hr|]. fold (body_end u).
  destruct Ht as (chunks & Ht & Hc). exists chunks. split; [|done].
  unfold render_tail, gbind in Ht. unfold gbind.
  destruct (render_padding _ _ _) as [[c1 s1] [cur1|]]; [|done].
  destruct (render_index _ _ _ _) as [[c2 s2] [cur2|]]; [|done].
  destruct (render_end_markers _ _ _) as [[c3 s3] [cur3|]]; [|done].
  injection Ht as <- -> ->. rewrite Z.eqb_refl. cbn [rn_emitted advanced s rn_reader].
  replace (0 + sumZ entry_len (pu_sources u) + (pu_plaintext_end u - body_end u)) with
    (pu_plaintext_bytes u) by (unfold pu_plaintext_bytes, body_end; lia).
  rewrite Z.eqb_refl. cbn [negb orb gret]. rewrite app_nil_r. unfold advanced, s, pu_plaintext_bytes, body_end. cbn [rn_emitted rn_reader].
  do 3 f_equal. lia.
Qed.

(** ** Units of a plan *)

Lemma last_filter_unique {A} (key : A → pystr) l x : NoDup (key <$> l) → x ∈ l →
  last (List.filter (λ y, bool_decide (key y = key x)) l) = Some x.
Proof.
  intros Hnd Hx. assert (List.filter (λ y, bool_decide (key y = key x)) l = [x]) as ->; [|done].
  induction l as [|y l IH]; [by apply elem_of_nil in Hx|].
  rewrite fmap_cons in Hnd. apply NoDup_cons in Hnd as [Hy Hnd]. cbn [List.filter].
  apply elem_of_cons in Hx as [->|Hx].
  - rewrite bool_decide_true by done. f_equal. clear IH Hnd.
    induction l as [|z l IH]; [done|]. cbn [List.filter]. rewrite fmap_cons, not_elem_of_cons in Hy.
    destruct Hy as [Hz Hy]. by rewrite bool_decide_false, IH by congruence.
  - rewrite bool_decide_false; [by apply IH|]. intros Heq. apply Hy. rewrite Heq.
    apply list_elem_of_fmap. eauto.
Qed.

Lemma members_from_at members unit cursor fs :
  NoDup (pm_path <$> members) → members_from unit cursor fs ⊆ members →
  members_at members unit cursor fs.
Proof.
  intros Hnd. revert cursor. induction fs as [|f fs IH]; intros cursor Hsub; [done|].
  cbn [members_from members_at] in *. split; [|apply IH; set_solver].
  match type of Hsub with ?m :: _ ⊆ _ => exists m; split; [|done];
    apply (last_filter_unique pm_path members m); [done|] end.
  apply Hsub. left.
Qed.

Lemma chained_lookup i start units i' stop k u :
  chained i start units i' stop → units !! k = Some u → pu_unit u = i + Z.of_nat k.
Proof.
  revert i start k. induction units as [|v units IH]; intros i start k Hc Hk; [done|].
  destruct Hc as (Hi & _ & Hc). destruct k as [|k].
  - injection Hk as <-. lia.
  - rewrite (IH _ _ _ Hc Hk). lia.
Qed.

Lemma chained_starts i start units i' stop :
  chained i start units i' stop → 0 ≤ start →
  Forall (λ u, pu_plaintext_start u ≤ pu_plaintext_end u) units →
  Forall (λ u, 0 ≤ pu_plaintext_start u) units.
Proof.
  intros Hc Hs Hu. revert i start Hc Hs. induction Hu as [|u units Hle Hu IH]; intros i start Hc Hs.
  - constructor.
  - destruct Hc as (_ & Hst & Hc). constructor; [lia|]. eapply IH; [exact Hc|lia].
Qed.

Section planned.
Context `{PyEnv} (plan : PackVolumePlan) (Hvalid : plan_valid plan).

(** What is known of one file of a plan. *)
Definition file_facts (f : ArchiveFile) : Prop :=
  header_ok f ∧ stable_path (af_path f) ∧ startswith RESERVED_ARCHIVE_PREFIX (af_path f) = false ∧
  0 ≤ af_bytes f ∧ sha256_fullmatch (af_sha256 f) = true.

Lemma plan_facts : ∃ closed final,
  pack_layout (member_file <$> pv_members plan) plan closed final ∧
  Forall file_facts (member_file <$> pv_members plan) ∧
  NoDup (pm_path <$> pv_members plan) ∧ Forall (planned_unit plan) (pv_units plan) ∧
  pv_volume_id plan = pack_volume_id (pv_sequence plan) ∧ 0 ≤ pv_sequence plan < 2 ^ 256 ∧
  sha256_fullmatch (pv_plan_sha256 plan) = true ∧
  len (member_file <$> pv_members plan) ≤ ARCHIVE_PACK_FILES_MAX.
Proof.
  destruct (plan_valid_facts plan Hvalid) as (_ & Hid & Hseq & _).
  destruct Hvalid as (files & sequence & max & part & Hp & Hst).
  apply plan_pack_volume_inv in Hp as (normalized & Hn & Hmaxf & _ & _ & _ & Hl).
  pose proof (normalized_bytes _ _ _ Hn) as Hb. pose proof (normalized_digests _ _ _ Hn) as Hs.
  pose proof (normalized_files_spec _ _ _ Hn) as (new & Hnew & Hperm & Hne & [_ Hnd] & _).
  assert (Forall (λ f, startswith RESERVED_ARCHIVE_PREFIX (af_path f) = false) normalized) as Hres.
  { rewrite Hperm. clear -Hnew. by induction Hnew as [|? ? ? ? (_ & ? & _)]; constructor. }
  destruct (layout_pack_volume_inv _ _ _ _ _ ltac:(eapply Forall_impl; [exact Hb|simpl; lia]) Hne Hl) as
    (Hh & _ & _ & Hidx & closed & final & Hpl). exists closed, final.
  assert (member_file <$> pv_members plan = normalized) as Hfiles.
  { rewrite (pl_members _ _ _ _ Hpl), unit_members_files. apply Hpl. }
  rewrite Hfiles. split_and!; try done; try lia.
  - assert (Forall (λ f, stable_path (af_path f)) normalized) as Hst'.
    { rewrite <- Hfiles, Forall_fmap. exact Hst. }
    rewrite Forall_forall in *. intros f Hf. unfold file_facts. specialize (Hb f Hf). cbn beta in Hb.
    split_and!; [by apply Hh|by apply Hst'|by apply Hres|lia|by apply Hs].
  - rewrite <- Hfiles, <- list_fmap_compose in Hnd. exact Hnd.
  - rewrite (pl_units _ _ _ _ Hpl). apply Forall_app. split.
    + eapply Forall_impl; [apply Hpl|]. by left.
    + constructor; [|constructor]. right. split; [apply Hpl|done].
  - unfold layout_pack_volume in Hl. apply bind_Ok in Hl as (? & _ & Hl).
    apply bind_Ok in Hl as (? & _ & Hl). apply bind_Ok in Hl as (? & _ & Hl).
    apply bind_Ok in Hl as (? & [_ Hd]%plan_sha256_digest & Hl). injection Hl as <-. exact Hd.
Qed.

Lemma plan_unit_facts k u : pv_units plan !! k = Some u →
  planned_unit plan u ∧ pu_unit u = Z.of_nat k ∧ 0 ≤ pu_plaintext_start u ≤ pu_plaintext_end u ∧
  members_at (pv_members plan) (pu_unit u) (pu_plaintext_start u) (pu_sources u) ∧
  Forall file_facts (pu_sources u) ∧ NoDup (af_path <$> pu_sources u).
Proof.
  intros Hk. destruct plan_facts as (closed & final & Hpl & Hff & Hnd & Hpu & _).
  pose proof (list_elem_of_lookup_2 _ _ _ Hk) as Hin.
  assert (∀ v, v ∈ pv_units plan → pu_sources v ⊆ member_file <$> pv_members plan) as Hsub.
  { intros v Hv f Hf. rewrite <- (pl_files _ _ _ _ Hpl). apply list_elem_of_In, in_concat.
    exists (pu_sources v). split; [|by apply list_elem_of_In]. apply in_map. by apply list_elem_of_In. }
  assert (∀ v, v ∈ pv_units plan → Forall file_facts (pu_sources v)) as Hsf.
  { intros v Hv. apply Forall_forall. intros f Hf. rewrite Forall_forall in Hff. by apply Hff, (Hsub v). }
  assert (∀ v, v ∈ pv_units plan → pu_plaintext_start v ≤ pu_plaintext_end v) as Hle.
  { intros v Hv. rewrite Forall_forall in Hpu. destruct (Hpu v Hv) as [(_ & _ & _ & _ & ? & _)|[Hf _]]; [lia|].
    destruct Hf as (_ & _ & _ & _ & ->). unfold body_end. rewrite <- len_header_bytes.
    assert (0 ≤ sumZ entry_len (pu_sources v)).
    { apply sumZ_nonneg. eapply Forall_impl; [by apply Hsf|]. intros f (Ho & _ & _ & Hb & _).
      destruct (entry_len_blocks f Ho Hb). lia. }
    pose proof (tar_padding_bounds (len (pv_index_bytes plan))). len_lia. }
  split_and!.
  - rewrite Forall_forall in Hpu. by apply Hpu.
  - rewrite (chained_lookup _ _ _ _ _ _ _ (pl_chain _ _ _ _ Hpl) Hk). lia.
  - pose proof (chained_starts _ _ _ _ _ (pl_chain _ _ _ _ Hpl) ltac:(lia)
      ltac:(by apply Forall_forall)) as Hs. rewrite Forall_forall in Hs. by apply Hs.
  - by apply Hle.
  - apply members_from_at; [done|]. rewrite (pl_members _ _ _ _ Hpl). intros m Hm.
    apply list_elem_of_In, in_concat. exists (unit_members u). split; [|by apply list_elem_of_In].
    apply in_map. by apply list_elem_of_In.
  - by apply Hsf.
  - assert (NoDup (af_path <$> concat (pu_sources <$> pv_units plan))) as Hnd'.
    { rewrite (pl_files _ _ _ _ Hpl), <- list_fmap_compose. exact Hnd. }
    rewrite <- (take_drop_middle _ _ _ Hk), fmap_app, concat_app, fmap_app in Hnd'.
    apply NoDup_app in Hnd' as (_ & _ & Hnd'). rewrite fmap_cons in Hnd'. cbn [concat] in Hnd'.
    rewrite fmap_app in Hnd'. by apply NoDup_app in Hnd' as (? & _ & _).
Qed.
Definition to_source (f : ArchiveFile) : PackUnitSource :=
  {| us_path := af_path f; us_bytes := af_bytes f; us_sha256 := af_sha256 f |}.

Definition descriptor_of (u : PackUploadUnitPlan) : PackUnitDescriptor :=
  {| ud_volume_id := pv_volume_id plan; ud_unit := pu_unit u; ud_payload_bytes := pu_payload_bytes u;
     ud_plaintext_start := pu_plaintext_start u; ud_plaintext_bytes := pu_plaintext_bytes u;
     ud_final := pu_final u; ud_sources := to_source <$> pu_sources u;
     ud_plan_sha256 := pv_plan_sha256 plan |}.

Lemma pack_volume_id_match sequence : 0 ≤ sequence < 2 ^ 256 →
  pack_volume_id_fullmatch (pack_volume_id sequence) = true.
Proof.
  intros Hs. unfold pack_volume_id_fullmatch, pack_volume_id.
  change (drop 5 (str "pack-" ++ ?x)) with x. apply andb_true_iff. split; [done|].
  unfold sha256_fullmatch. apply andb_true_iff. split.
  - apply Z.eqb_eq, Z.le_antisymm; [apply len_format_padded_exact; lia|].
    rewrite format_padded_digits, len_fmap, len_app. unfold repeatZ, len at 1.
    rewrite length_replicate. pose proof (len_nonneg (digits 16 sequence)). lia.
  - apply forallb_forall. intros c Hc%list_elem_of_In. rewrite format_padded_digits in Hc.
    apply list_elem_of_fmap in Hc as (d & -> & Hd).
    assert (0 ≤ d < 16) as Hr; [|by apply hex_digit_facts].
    apply elem_of_app in Hd as [Hd|Hd].
    + apply elem_of_replicate in Hd as [-> _]. lia.
    + pose proof (digits_bound 16 sequence ltac:(lia) ltac:(lia)) as Hb. rewrite Forall_forall in Hb.
      by apply Hb.
Qed.

Lemma unit_descriptor_ok k u : pv_units plan !! k = Some u →
  new_PackUnitDescriptor (descriptor_of u) = Ok (descriptor_of u) ∧
  pack_unit_descriptor plan u = Ok (descriptor_of u).
Proof.
  intros Hk. destruct (plan_unit_facts k u Hk) as (_ & Hu & Hs & _ & Hf & Hnd).
  destruct plan_facts as (_ & _ & _ & _ & _ & _ & Hid & Hseq & Hsha & _).
  assert (new_PackUnitDescriptor (descriptor_of u) = Ok (descriptor_of u)) as Hnew.
  { unfold new_PackUnitDescriptor, descriptor_of, pu_payload_bytes, pu_plaintext_bytes.
    cbn [ud_volume_id ud_unit ud_payload_bytes ud_plaintext_start ud_plaintext_bytes ud_sources
         ud_plan_sha256]. rewrite Hid, pack_volume_id_match, Hsha by done. cbn [negb].
    rewrite sumZ_fmap. cbn [us_bytes to_source]. rewrite Z.eqb_refl.
    assert (0 ≤ sumZ af_bytes (pu_sources u)).
    { apply sumZ_nonneg. eapply Forall_impl; [exact Hf|]. by intros f (_ & _ & _ & ? & _). }
    rewrite <- list_fmap_compose. rewrite bool_decide_true by exact Hnd.
    rewrite !(proj2 (Z.ltb_ge _ _)) by lia. done. }
  split; [done|]. unfold pack_unit_descriptor.
  rewrite (mapM_result_Ok unit_source to_source); [exact Hnew|].
  intros f Hin. rewrite Forall_forall in Hf. destruct (Hf f Hin) as (_ & [_ Hn] & Hr & Hb & Hd).
  unfold unit_source, new_PackUnitSource. rewrite Hn, ok_bind, Hr, Hd.
  by rewrite (proj2 (Z.ltb_ge _ _)) by lia.
Qed.

Lemma unit_declared k u : pv_units plan !! k = Some u →
  Forall2 (declared (descriptor_of u)) (pu_sources u) (to_source <$> pu_sources u).
Proof.
  intros Hk. destruct (plan_unit_facts k u Hk) as (_ & _ & _ & _ & _ & Hnd).
  rewrite <- (list_fmap_id (pu_sources u)) at 1. apply Forall2_fmap, Forall_Forall2_diag.
  apply Forall_forall. intros f Hf. split_and!; [done|done|]. unfold source_of. cbn [ud_sources descriptor_of].
  apply (last_filter_unique us_path _ (to_source f)); [by rewrite <- list_fmap_compose|].
  apply list_elem_of_fmap. eauto.
Qed.

Lemma require_unit_ok k u : pv_units plan !! k = Some u → _require_unit plan (Z.of_nat k) = Ok u.
Proof.
  intros Hk. destruct (plan_unit_facts k u Hk) as (_ & Hu & _). pose proof (lookup_lt_Some _ _ _ Hk).
  unfold _require_unit. rewrite (proj2 (Z.ltb_ge _ _)), (proj2 (Z.leb_gt _ _)) by (unfold len; lia).
  by rewrite Nat2Z.id, Hk, Hu, Z.eqb_refl.
Qed.

(** A payload of a planned file. *)
Definition file_payload (f : ArchiveFile) (p : pybytes) : Prop :=
  len p = af_bytes f ∧ sha256_hex p = af_sha256 f.

Lemma file_payload_of fs ps : Forall2 file_payload fs ps ↔ Forall2 payload_of (to_source <$> fs) ps.
Proof. by rewrite Forall2_fmap_l. Qed.

(** The rendered unit, for any body. *)
Lemma render_payload_outcome k u chunks : pv_units plan !! k = Some u →
  match read_unit (descriptor_of u) chunks with
  | Ok payloads => ∃ out,
      iter_render_pack_upload_unit_payload plan (Z.of_nat k) chunks = (out, Ok tt) ∧
      concat out = unit_bytes plan u payloads
  | Err _ => raised (iter_render_pack_upload_unit_payload plan (Z.of_nat k) chunks).2 ≠ None ∧
      raises_only is_value_error (iter_render_pack_upload_unit_payload plan (Z.of_nat k) chunks).2
  end.
Proof.
  intros Hk. destruct (plan_unit_facts k u Hk) as (Hplan & Hu & Hs & Hm & Hf & Hnd).
  assert (pack_unit_descriptors plan = Ok (descriptor_of <$> pv_units plan)) as Hds.
  { apply mapM_result_Ok. intros v (j & Hj)%list_elem_of_lookup. by apply (unit_descriptor_ok j). }
  unfold iter_render_pack_upload_unit_payload. rewrite Hds, ok_bind. unfold py_index.
  rewrite (proj2 (Z.ltb_ge (Z.of_nat k) 0)) by lia. cbv zeta. rewrite (proj2 (Z.ltb_ge (Z.of_nat k) 0)) by lia.
  rewrite Nat2Z.id, list_lookup_fmap, Hk. cbn [fmap option_fmap option_map].
  assert (Forall (λ s, 0 ≤ us_bytes s) (to_source <$> pu_sources u)) as Hpos.
  { rewrite Forall_fmap. eapply Forall_impl; [exact Hf|]. by intros f (_ & _ & _ & ? & _). }
  assert (Forall header_ok (pu_sources u)) as Hh by (eapply Forall_impl; [exact Hf|]; by intros f []).
  set (d := descriptor_of u). set (rd := new_reader d chunks).
  assert (rd_wf rd) as Hwf by (unfold rd_wf, len; cbn; lia).
  assert (expects rd (ud_sources d)) as Hexp by (split; [cbn; lia|done]).
  pose proof (render_unit_payload plan d u (ud_sources d) rd Hplan (unit_declared k u Hk) Hm Hh Hpos
    Hwf Hexp) as Hr. cbv zeta in Hr.
  assert (iter_render_pack_upload_unit plan (Z.of_nat k) (read_payload d) rd =
    let '(o, s', r) := render_unit plan u (read_payload d) {| rn_emitted := 0; rn_reader := rd |} in
    (o, rn_reader s', r)) as Hiter.
  { unfold iter_render_pack_upload_unit, gbind, glift. rewrite (require_unit_ok k u Hk). cbn [app].
    by destruct (render_unit _ _ _ _) as [[o s'] r]. }
  unfold read_unit. fold rd. unfold gbind. rewrite Hiter. clear Hiter.
  destruct (read_sources rd (ud_sources d)) as [[payloads rd']|e] eqn:Hrs.
  - destruct Hr as (cs & -> & Hc). cbn [rn_reader]. rewrite ok_bind.
    destruct (finish rd') as [[]|e] eqn:Hfin.
    + rewrite ok_bind. eexists. split; [done|]. by rewrite app_nil_r.
    + cbn [mbind result_bind]. split; [done|]. cbn. pose proof (finish_raises rd') as Hraise.
      by rewrite Hfin in Hraise.
  - destruct Hr as (cs & s' & e' & -> & He). cbn. split; [done|exact He].
Qed.

(** Rendering an upload unit from its transported body is exact: for a unit of a
    plan with stable paths, the renderer succeeds with output [bytes] if and
    only if the body, however chunked, is the concatenation of payloads with the
    declared lengths and digests, and then [bytes] is the unit's stretch of the
    tar archive (headers, payloads, padding, index, end markers) and has the
    planned length. *)
Theorem render_payload_exact k u chunks bytes : pv_units plan !! k = Some u →
  (∃ out, iter_render_pack_upload_unit_payload plan (Z.of_nat k) chunks = (out, Ok tt) ∧
     concat out = bytes) ↔
  ∃ payloads, concat chunks = concat payloads ∧ Forall2 file_payload (pu_sources u) payloads ∧
    bytes = unit_bytes plan u payloads.
Proof.
  intros Hk. pose proof (render_payload_outcome k u chunks Hk) as Ho.
  destruct (plan_unit_facts k u Hk) as (_ & _ & _ & _ & Hf & _).
  assert (∀ payloads, read_unit (descriptor_of u) chunks = Ok payloads ↔
    concat chunks = concat payloads ∧ Forall2 file_payload (pu_sources u) payloads) as Hiff.
  { intros payloads. rewrite file_payload_of. apply read_unit_spec; [|by apply (unit_descriptor_ok k)].
    cbn [ud_sources descriptor_of]. rewrite Forall_fmap. eapply Forall_impl; [exact Hf|].
    by intros f (_ & _ & _ & ? & _). }
  destruct (read_unit (descriptor_of u) chunks) as [payloads|e].
  - destruct Ho as (out & -> & Hout). destruct (proj1 (Hiff payloads) eq_refl) as [Hc Hp]. split.
    + intros (out' & [= <-] & <-). exists payloads. done.
    + intros (ps & Hc' & Hp' & ->). exists out. split; [done|].
      assert (Ok payloads = Ok ps) as [= <-] by by apply Hiff. done.
  - destruct Ho as [Hne _]. split.
    + intros (out & Hr & _). by rewrite Hr in Hne.
    + intros (ps & Hc' & Hp' & _). by assert (Err e = Ok ps) by by apply Hiff.
Qed.

(** The renderer's internal consistency checks cannot fail: for every unit of a
    plan with stable paths and any body whatsoever, the only exceptions are
    [ValueError]s about the body. *)
Theorem render_payload_raises k u chunks : pv_units plan !! k = Some u →
  raises_only is_value_error (iter_render_pack_upload_unit_payload plan (Z.of_nat k) chunks).2.
Proof.
  intros Hk. pose proof (render_payload_outcome k u chunks Hk) as Ho.
  destruct (read_unit (descriptor_of u) chunks); [by destruct Ho as (out & -> & _)|apply Ho].
Qed.
End planned.

(** ** The archive as a whole *)

(** The entries of a unit, in order. *)
Definition unit_items (plan : PackVolumePlan) (u : PackUploadUnitPlan) (payloads : list pybytes) :
    list (pystr * pybytes) :=
  zip (af_path <$> pu_sources u) payloads ++
  match pu_padding u with Some pp => [(pp_path pp, zeros (pp_payload_bytes pp))] | None => [] end ++
  (if pu_includes_index u then [(PACK_INDEX_PATH, pv_index_bytes plan)] else []).

Definition pack_bytes (plan : PackVolumePlan) (payloads : list (list pybytes)) : pybytes :=
  concat (zip_with (unit_bytes plan) (pv_units plan) payloads).

Lemma unit_bytes_items plan u payloads :
  unit_bytes plan u payloads =
  concat ((λ e, entry_bytes e.1 e.2) <$> unit_items plan u payloads) ++ end_markers u.
Proof.
  unfold unit_bytes, unit_items. rewrite !fmap_app, !concat_app, <- !app_assoc. f_equal.
  - unfold sources_bytes. f_equal. revert payloads.
    induction (pu_sources u) as [|f fs IH]; intros [|p ps]; try done.
    rewrite fmap_cons. cbn [zip_with]. rewrite fmap_cons. by rewrite IH.
  - f_equal; [|f_equal].
    + unfold padding_bytes. destruct (pu_padding u); [|done]. cbn. by rewrite app_nil_r.
    + unfold index_entry. destruct (pu_includes_index u); [|done]. cbn. by rewrite app_nil_r.
Qed.

Lemma ascii_readable path : Forall (λ c, 0 < c < 128) path → head path ≠ Some (chr "/") →
  len path ≤ 2 ^ 32 → readable_path path ∧ path_bytes path = path.
Proof.
  intros Ha Hh Hl. assert (Forall (λ c, 0 ≤ c < 128) path) as Ha'.
  { eapply Forall_impl; [exact Ha|]. simpl. lia. }
  assert (path_bytes path = path) as Hp by (unfold path_bytes; by rewrite utf8_encode_ascii).
  split; [|done]. unfold readable_path. rewrite Hp. split_and!; try done; [by apply ascii_text|].
  eapply Forall_impl; [exact Ha|]. simpl. lia.
Qed.

Lemma padding_path_readable sequence unit : 0 ≤ sequence < 2 ^ 256 → 0 ≤ unit < 10 ^ 12 →
  readable_path (padding_path (pack_volume_id sequence) unit).
Proof.
  intros Hs Hu. unfold padding_path, pack_volume_id, PACK_PADDING_PREFIX. apply ascii_readable.
  - rewrite !Forall_app. split_and!; try (apply format_padded_positive; lia); by repeat constructor.
  - done.
  - pose proof (len_format_padded_exact 16 64 sequence 64 ltac:(lia) ltac:(lia) ltac:(lia) ltac:(lia)).
    pose proof (len_format_padded_exact 10 6 unit 12 ltac:(lia) ltac:(lia) ltac:(lia) ltac:(lia)).
    rewrite !len_app. change (len (str ".riverhog/padding/")) with 18.
    change (len (str "pack-")) with 5. change (len (str "-")) with 1. lia.
Qed.

Lemma alignment_padding_item volume_id unit cursor pp stop :
  _alignment_padding volume_id unit cursor = Ok (Some pp, stop) →
  pp_path pp = padding_path volume_id unit ∧ len (zeros (pp_payload_bytes pp)) < 2 ^ 63.
Proof.
  unfold _alignment_padding. intros Ha. destruct (Z.eqb_spec (cursor mod CHUNK_SIZE) 0); [done|].
  destruct (_ || _) eqn:Hc; [done|]. apply orb_false_iff in Hc as [Hc _].
  apply bind_Ok in Ha as (h & _ & Ha). destruct (negb _); [done|]. injection Ha as <- _.
  cbn [pp_path pp_payload_bytes]. split; [done|].
  unfold zeros. rewrite len_repeatZ by lia. unfold CHUNK_SIZE, _TAR_BLOCK_SIZE in *. lia.
Qed.

Lemma concat_zip_snoc {A B C} (f : A → B → list C) xs x ys : length ys = S (length xs) →
  ∃ ys' y, ys = ys' ++ [y] ∧ length ys' = length xs ∧
    concat (zip_with f (xs ++ [x]) ys) = concat (zip_with f xs ys') ++ f x y.
Proof.
  intros Hl. destruct ys as [|y ys _] using rev_ind; [done|].
  exists ys, y. rewrite length_app in Hl. simpl in Hl. split_and!; [done|lia|].
  rewrite zip_with_app by lia. rewrite concat_app. cbn. by rewrite app_nil_r.
Qed.

Section archive.
Context `{PyEnv} (plan : PackVolumePlan) (Hvalid : plan_valid plan).

Lemma unit_items_readable k u payloads : pv_units plan !! k = Some u → Z.of_nat k < 10 ^ 12 →
  Forall (λ f, readable_path (af_path f) ∧ af_bytes f < 2 ^ 63) (pu_sources u) →
  len (pv_index_bytes plan) < 2 ^ 63 → Forall2 file_payload (pu_sources u) payloads →
  Forall (λ e, readable_path e.1 ∧ len e.2 < 2 ^ 63) (unit_items plan u payloads).
Proof.
  intros Hk Hmax Hread Hidx Hp. destruct (plan_unit_facts plan Hvalid k u Hk) as (Hu & Hn & _).
  destruct (plan_facts plan Hvalid) as (_ & _ & _ & _ & _ & _ & Hid & Hseq & _).
  unfold unit_items. rewrite !Forall_app. split_and!.
  - clear Hu. induction Hp as [|f p fs ps [Hl _] Hp IH]; [constructor|].
    apply Forall_cons in Hread as [[Hr Hb] Hread]. cbn. constructor; [cbn; split; [done|lia]|by apply IH].
  - destruct (pu_padding u) as [pp|] eqn:Epp; [|constructor]. constructor; [|constructor].
    destruct Hu as [(Ha & _)|[(_ & _ & Hnone & _) _]]; [|congruence].
    rewrite Epp in Ha. apply alignment_padding_item in Ha as [-> Hlen]. cbn [fst snd]. split; [|done].
    rewrite Hid. apply padding_path_readable; lia.
  - destruct (pu_includes_index u); [|constructor]. constructor; [|constructor]. split; [|exact Hidx].
    apply ascii_readable; [|done|done]. by repeat constructor.
Qed.

Lemma closed_bytes_items units payloads : Forall (λ u, end_markers u = []) units →
  concat (zip_with (unit_bytes plan) units payloads) =
  concat ((λ e, entry_bytes e.1 e.2) <$> concat (zip_with (unit_items plan) units payloads)).
Proof.
  intros Hu. revert payloads. induction Hu as [|u units He Hu IH]; intros [|p ps]; try done.
  cbn [zip_with concat]. rewrite unit_bytes_items, He, app_nil_r, IH. by rewrite fmap_app, concat_app.
Qed.

(** The specified archive reads back as its entries. *)
Lemma pack_bytes_readable payloads :
  Forall (λ m, readable_path (pm_path m) ∧ pm_bytes m < 2 ^ 63) (pv_members plan) →
  len (pv_index_bytes plan) < 2 ^ 63 →
  Forall2 (λ u ps, Forall2 file_payload (pu_sources u) ps) (pv_units plan) payloads →
  tar_read_archive (pack_bytes plan payloads) =
  Some ((λ e, (path_bytes e.1, e.2)) <$> concat (zip_with (unit_items plan) (pv_units plan) payloads)).
Proof.
  intros Hread Hidx Hp.
  destruct (plan_facts plan Hvalid) as (closed & final & Hpl & _ & _ & _ & _ & _ & _ & Hmax).
  assert (len (pv_units plan) ≤ 10 ^ 12) as Hcount.
  { pose proof (closed_units_count _ _ (pl_closed _ _ _ _ Hpl)) as Hc.
    rewrite <- (pl_files _ _ _ _ Hpl), (pl_units _ _ _ _ Hpl), fmap_app, concat_app, len_app in Hmax.
    rewrite (pl_units _ _ _ _ Hpl), len_app. change (len [final]) with 1.
    pose proof (len_nonneg (concat (pu_sources <$> [final]))). unfold ARCHIVE_PACK_FILES_MAX in Hmax. lia. }
  assert (Forall (λ e, readable_path e.1 ∧ len e.2 < 2 ^ 63)
    (concat (zip_with (unit_items plan) (pv_units plan) payloads))) as Hitems.
  { apply Forall_concat, Forall_lookup. intros k items Hk.
    apply lookup_zip_with_Some in Hk as (u & ps & -> & Hk & Hps).
    apply (unit_items_readable k); try done.
    - pose proof (lookup_lt_Some _ _ _ Hk). unfold len in Hcount. lia.
    - apply Forall_forall. intros f Hf.
      assert (f ∈ member_file <$> pv_members plan) as Hin.
      { rewrite <- (pl_files _ _ _ _ Hpl). apply list_elem_of_In, in_concat. exists (pu_sources u).
        split; [|by apply list_elem_of_In]. apply in_map, list_elem_of_In.
        by eapply list_elem_of_lookup_2. }
      apply list_elem_of_fmap in Hin as (m & -> & Hm). rewrite Forall_forall in Hread. by apply Hread.
    - by eapply Forall2_lookup_lr in Hp. }
  rewrite <- read_archive_entries by exact Hitems. f_equal. unfold pack_bytes.
  pose proof (Forall2_length _ _ _ Hp) as Hlen. rewrite (pl_units _ _ _ _ Hpl) in *.
  rewrite length_app in Hlen. simpl in Hlen.
  destruct (concat_zip_snoc (unit_bytes plan) closed final payloads) as (ps & p & -> & Hl & ->); [lia|].
  rewrite zip_with_app, concat_app, fmap_app, concat_app by lia. cbn [zip_with concat].
  rewrite app_nil_r, unit_bytes_items.
  destruct (pl_final _ _ _ _ Hpl) as (_ & Hend & _). unfold end_markers at 1. rewrite Hend.
  rewrite closed_bytes_items, app_assoc; [done|].
  eapply Forall_impl; [apply Hpl|]. intros u (_ & _ & He & _). unfold end_markers. by rewrite He.
Qed.
(** One run of the renderer per unit, on the bodies sent for the units. *)
Definition render_units (bodies : list (list pybytes)) : list (list pybytes * result unit) :=
  imap (λ k body, iter_render_pack_upload_unit_payload plan (Z.of_nat k) body) bodies.

Lemma render_units_bytes bodies payloads :
  Forall2 (λ u ps, Forall2 file_payload (pu_sources u) ps) (pv_units plan) payloads →
  Forall2 (λ body ps, concat body = concat ps) bodies payloads →
  Forall (λ r, r.2 = Ok tt) (render_units bodies) ∧
  (λ r, concat r.1) <$> render_units bodies = zip_with (unit_bytes plan) (pv_units plan) payloads.
Proof.
  intros Hp Hb.
  assert (∀ k u ps body, pv_units plan !! k = Some u → payloads !! k = Some ps → bodies !! k = Some body →
    ∃ out, iter_render_pack_upload_unit_payload plan (Z.of_nat k) body = (out, Ok tt) ∧
      concat out = unit_bytes plan u ps) as Hone.
  { intros k u ps body Hu Hps Hbody. apply (render_payload_exact plan Hvalid k u body _ Hu). exists ps.
    split_and!; [by eapply Forall2_lookup_lr in Hb|by eapply Forall2_lookup_lr in Hp|done]. }
  assert (∀ k body, bodies !! k = Some body → ∃ u ps, pv_units plan !! k = Some u ∧ payloads !! k = Some ps) as Hat.
  { intros k body Hk. destruct (Forall2_lookup_l _ _ _ _ _ Hb Hk) as (ps & Hps & _).
    destruct (Forall2_lookup_r _ _ _ _ _ Hp Hps) as (u & Hu & _). eauto. }
  unfold render_units. split.
  - apply Forall_lookup. intros k r (body & Hk & ->)%list_lookup_imap_Some.
    destruct (Hat k body Hk) as (u & ps & Hu & Hps). by destruct (Hone k u ps body Hu Hps Hk) as (out & -> & _).
  - apply list_eq. intros k. rewrite list_lookup_fmap, list_lookup_imap, lookup_zip_with.
    destruct (bodies !! k) as [body|] eqn:Hk.
    + destruct (Hat k body Hk) as (u & ps & Hu & Hps). destruct (Hone k u ps body Hu Hps Hk) as (out & Hrun & Hout).
      rewrite Hu, Hps. cbn. rewrite Hrun. cbn. by rewrite Hout.
    + assert (payloads !! k = None) as ->.
      { apply lookup_ge_None. apply lookup_ge_None in Hk. by rewrite <- (Forall2_length _ _ _ Hb). }
      by destruct (pv_units plan !! k).
Qed.

End archive.

(** ** A small pack *)

Lemma sample_plan_valid plan : sample_plan = Ok plan → @plan_valid ascii_env plan.
Proof.
  intros E. exists sample_files, 7, 1000, 65536. split; [exact E|].
  vm_compute in E. injection E as <-. cbn [pv_members].
  repeat (apply Forall_cons_2;
    [split; [apply (bool_decide_unpack _); vm_compute; exact I|vm_compute; reflexivity]|]).
  apply Forall_nil_2.
Qed.

Lemma sample_payloads plan u : sample_plan = Ok plan → pv_units plan !! 0%nat = Some u →
  Forall2 file_payload (pu_sources u) [[4; 5]; [1; 2; 3]].
Proof.
  intros E Hu. vm_compute in E. injection E as <-. injection Hu as <-. cbn [pu_sources].
  repeat constructor; vm_compute; reflexivity.
Qed.

Lemma render_payload_exact_witness : ∃ plan u out, sample_plan = Ok plan ∧
  @iter_render_pack_upload_unit_payload ascii_env plan 0 [[4]; [5; 1; 2]; []; [3]] = (out, Ok tt) ∧
  concat out = unit_bytes plan u [[4; 5]; [1; 2; 3]].
Proof.
  destruct sample_plan as [plan|e] eqn:E; [|vm_compute in E; discriminate E].
  pose proof (sample_plan_valid plan E) as Hv.
  destruct (pv_units plan !! 0%nat) as [u|] eqn:Hu;
    [|vm_compute in E; injection E as <-; discriminate Hu].
  destruct (proj2 (@render_payload_exact ascii_env plan Hv 0%nat u [[4]; [5; 1; 2]; []; [3]]
    (unit_bytes plan u [[4; 5]; [1; 2; 3]]) Hu)) as (out & Hr & Hc).
  - exists [[4; 5]; [1; 2; 3]]. split; [reflexivity|].
    split; [exact (sample_payloads plan u E Hu)|reflexivity].
  - exists plan, u, out. split; [reflexivity|]. split; [exact Hr|exact Hc].
Defined.

Lemma render_payload_raises_witness : ∃ plan, sample_plan = Ok plan ∧
  raises_only is_value_error (@iter_render_pack_upload_unit_payload ascii_env plan 0 [[9]]).2.
Proof.
  destruct sample_plan as [plan|e] eqn:E; [|vm_compute in E; discriminate E].
  pose proof (sample_plan_valid plan E) as Hv.
  destruct (pv_units plan !! 0%nat) as [u|] eqn:Hu;
    [|vm_compute in E; injection E as <-; discriminate Hu].
  exists plan. split; [reflexivity|].
  exact (@render_payload_raises ascii_env plan Hv 0%nat u [[9]] Hu).
Defined.

