(* ===== verification/RawVolume.v ===== *)
(** * Planning raw volumes

    [riverhog_core/raw_volume.py]: files too large for a pack are cut into
    consecutive segments, one raw volume each.  The theorems show that the
    segments of a file tile it exactly, that the volume sequence is
    consecutive, and that a persisted plan restores. *)

From S2P Require Import Prelude Text Json Sha256 Paths Domain PackIngress Tar PackVolume.

Definition RAW_VOLUME_PLAN_SCHEMA : pystr := str "raw-volume-plan/v1".
Definition DEFAULT_RAW_VOLUME_PLAINTEXT_BYTES : Z := 16 * 1024 * 1024 * 1024.
Definition DEFAULT_RAW_PART_PLAINTEXT_BYTES : Z := 64 * 1024 * 1024.

(** [f"segment-{sequence:064x}"] *)
Definition segment_volume_id (sequence : Z) : pystr := str "segment-" ++ format_padded 16 64 sequence.

Section raw.
Context `{PyEnv}.

(** [while offset < current.bytes: ...]; the state is the list of plans.  Each
    segment but the last has [max_plaintext_bytes], so one more iteration than
    the quotient is enough. *)
Fixpoint raw_segments (fuel : nat) (starting_sequence max_plaintext_bytes : Z) (path : pystr)
    (current : ArchiveFile) (plans : list RawVolumePlan) (offset : Z) : result (list RawVolumePlan) :=
  if offset <? af_bytes current then
    match fuel with
    | O => Err (Exn RuntimeError (str "loop bound exceeded"))
    | S fuel =>
        let length := Z.min max_plaintext_bytes (af_bytes current - offset) in
        let sequence := starting_sequence + len plans in
        when 2 ^ 256 <=? sequence raise ValueError "raw volume sequence exceeds its v1 representation";
        raw_segments fuel starting_sequence max_plaintext_bytes path current
          (plans ++ [{| rv_volume_id := segment_volume_id sequence; rv_sequence := sequence;
                        rv_source_path := path; rv_file_offset := offset;
                        rv_plaintext_bytes := length; rv_file_bytes := af_bytes current;
                        rv_file_sha256 := af_sha256 current |}])
          (offset + length)
    end
  else Ok plans.

(** One iteration over the sorted files; the state is [seen] and [plans]. *)
Definition raw_file_step (starting_sequence max_plaintext_bytes : Z)
    (st : list pystr * list RawVolumePlan) (current : ArchiveFile) :
    result (list pystr * list RawVolumePlan) :=
  let '(seen, plans) := st in
  path ← normalize_relpath (af_path current);
  when startswith RESERVED_ARCHIVE_PREFIX path
    raises Exn ValueError (str "collection path uses reserved archive namespace: " ++ path);
  when bool_decide (path ∈ seen)
    raises Exn ValueError (str "duplicate collection archive path: " ++ path);
  when (af_bytes current <? 0) || negb (sha256_fullmatch (af_sha256 current))
    raises Exn ValueError (str "collection archive file identity is invalid: " ++ path);
  if af_bytes current =? 0 then
    let sequence := starting_sequence + len plans in
    Ok (path :: seen, plans ++
      [{| rv_volume_id := segment_volume_id sequence; rv_sequence := sequence;
          rv_source_path := path; rv_file_offset := 0; rv_plaintext_bytes := 0;
          rv_file_bytes := 0; rv_file_sha256 := af_sha256 current |}])
  else
    plans' ← raw_segments (S (Z.to_nat (af_bytes current / max_plaintext_bytes))) starting_sequence
               max_plaintext_bytes path current plans 0;
    Ok (path :: seen, plans').

(** [sorted(files, key=lambda value: normalize_relpath(value.path))] *)
Definition sorted_by_path (files : list ArchiveFile) : result (list ArchiveFile) :=
  keyed ← mapM_result (λ f, path ← normalize_relpath (af_path f); Ok (path, f)) files;
  Ok (snd <$> sorted_by fst keyed).

Definition plan_raw_volumes (files : list ArchiveFile) (starting_sequence max_plaintext_bytes : Z) :
    result (list RawVolumePlan) :=
  when starting_sequence <? 0 raise ValueError "raw volume starting sequence must be non-negative";
  when 2 ^ 256 <=? starting_sequence
    raise ValueError "raw volume starting sequence exceeds its v1 representation";
  when max_plaintext_bytes <=? 0 raise ValueError "raw volume plaintext limit must be positive";
  sorted ← sorted_by_path files;
  '(_, plans) ← foldM (raw_file_step starting_sequence max_plaintext_bytes) ([], []) sorted;
  Ok plans.

Definition raw_volume_plan_payload (plan : RawVolumePlan) : json :=
  JObj [(str "schema", JStr RAW_VOLUME_PLAN_SCHEMA); (str "volume_id", JStr (rv_volume_id plan));
        (str "sequence", JInt (rv_sequence plan)); (str "source_path", JStr (rv_source_path plan));
        (str "file_offset", JInt (rv_file_offset plan));
        (str "plaintext_bytes", JInt (rv_plaintext_bytes plan));
        (str "file_bytes", JInt (rv_file_bytes plan));
        (str "file_sha256", JStr (rv_file_sha256 plan))].

Definition raw_volume_plan_bytes (plan : RawVolumePlan) : result pybytes :=
  canonical_json_bytes (raw_volume_plan_payload plan).

Definition rebuild_raw_volume_plan (payload : json) : result RawVolumePlan :=
  match payload with
  | JObj o =>
      when negb (is_str (get_or_null "schema" o) RAW_VOLUME_PLAN_SCHEMA)
        raise ValueError "raw volume plan schema mismatch";
      when negb (keys_are o ["schema"; "volume_id"; "sequence"; "source_path"; "file_offset";
                             "plaintext_bytes"; "file_bytes"; "file_sha256"])
        raise ValueError "raw volume plan fields are invalid";
      sequence ← canonical_nonnegative_int (get_or_null "sequence" o) (str "raw sequence");
      let volume_id := py_str (get_or_null "volume_id" o) in
      when (2 ^ 256 <=? sequence) || negb (bool_decide (volume_id = segment_volume_id sequence))
        raise ValueError "raw volume plan identity is invalid";
      source_path ← normalize_relpath (py_str (get_or_null "source_path" o));
      when startswith RESERVED_ARCHIVE_PREFIX source_path
        raise ValueError "raw volume source uses the reserved archive namespace";
      file_offset ← canonical_nonnegative_int (get_or_null "file_offset" o) (str "file offset");
      plaintext_bytes ← canonical_nonnegative_int (get_or_null "plaintext_bytes" o)
                          (str "plaintext bytes");
      file_bytes ← canonical_nonnegative_int (get_or_null "file_bytes" o) (str "file bytes");
      let file_sha256 := py_str (get_or_null "file_sha256" o) in
      when (file_bytes <? file_offset + plaintext_bytes) || negb (sha256_fullmatch file_sha256)
        raise ValueError "raw volume file identity is invalid";
      Ok {| rv_volume_id := volume_id; rv_sequence := sequence; rv_source_path := source_path;
            rv_file_offset := file_offset; rv_plaintext_bytes := plaintext_bytes;
            rv_file_bytes := file_bytes; rv_file_sha256 := file_sha256 |}
  | _ => Err (Exn ValueError (str "raw volume plan schema mismatch"))
  end.

Definition parse_raw_volume_plan_text (content : pystr) : result RawVolumePlan :=
  payload ← try_except (loads content) plan_json_error
              (λ _, Err (Exn ValueError (str "raw volume plan is not valid JSON")));
  rebuild_raw_volume_plan payload.

Definition parse_raw_volume_plan (content : pybytes) : result RawVolumePlan :=
  text ← utf8_decode content; parse_raw_volume_plan_text text.

(** ** Segments tile their file *)

(** Segments of one file, from [offset] to its end, numbered from [sequence]. *)
Fixpoint tiles (sequence max_plaintext_bytes : Z) (path : pystr) (f : ArchiveFile) (offset : Z)
    (plans : list RawVolumePlan) : Prop :=
  match plans with
  | [] => offset = af_bytes f
  | p :: plans' =>
      rv_volume_id p = segment_volume_id sequence ∧ rv_sequence p = sequence ∧
      rv_source_path p = path ∧ rv_file_offset p = offset ∧ rv_file_bytes p = af_bytes f ∧
      rv_file_sha256 p = af_sha256 f ∧
      0 < rv_plaintext_bytes p ≤ max_plaintext_bytes ∧
      (plans' ≠ [] → rv_plaintext_bytes p = max_plaintext_bytes) ∧
      tiles (sequence + 1) max_plaintext_bytes path f (offset + rv_plaintext_bytes p) plans'
  end.

(** The volumes of one file: segments that tile it, or one empty volume. *)
Definition file_volumes (max_plaintext_bytes sequence : Z) (f : ArchiveFile)
    (plans : list RawVolumePlan) : Prop :=
  if af_bytes f =? 0 then
    plans = [{| rv_volume_id := segment_volume_id sequence; rv_sequence := sequence;
                rv_source_path := af_path f; rv_file_offset := 0; rv_plaintext_bytes := 0;
                rv_file_bytes := 0; rv_file_sha256 := af_sha256 f |}]
  else plans ≠ [] ∧ tiles sequence max_plaintext_bytes (af_path f) f 0 plans.

(** The volumes of several files, one group after the other. *)
Fixpoint groups (max_plaintext_bytes sequence : Z) (files : list ArchiveFile)
    (plans : list RawVolumePlan) : Prop :=
  match files with
  | [] => plans = []
  | f :: files' => ∃ own rest, plans = own ++ rest ∧ file_volumes max_plaintext_bytes sequence f own ∧
      groups max_plaintext_bytes (sequence + len own) files' rest
  end.

Lemma raw_segments_spec fuel start max path f plans offset :
  0 < max → 0 ≤ offset ≤ af_bytes f → (af_bytes f - offset ≤ max * Z.of_nat fuel) →
  match raw_segments fuel start max path f plans offset with
  | Ok plans' => ∃ new, plans' = plans ++ new ∧ tiles (start + len plans) max path f offset new ∧
      Forall (λ p, rv_sequence p < 2 ^ 256) new
  | Err e => exn_class e = ValueError
  end.
Proof.
  intros Hmax. revert plans offset. induction fuel as [|fuel IH]; intros plans offset Ho Hf;
    cbn [raw_segments]; destruct (Z.ltb_spec offset (af_bytes f)).
  - lia.
  - exists []. rewrite app_nil_r. cbn. split_and!; [done|lia|constructor].
  - destruct (Z.leb_spec (2 ^ 256) (start + len plans)) as [Hbig|Hsmall]; [done|].
    set (n := Z.min max (af_bytes f - offset)).
    match goal with |- context [raw_segments _ _ _ _ _ (plans ++ [?p]) _] => set (plan := p) end.
    specialize (IH (plans ++ [plan]) (offset + n) ltac:(lia) ltac:(lia)).
    destruct (raw_segments fuel _ _ _ _ _ _) as [plans'|e]; [|done].
    destruct IH as (new & -> & Ht & Hs). exists (plan :: new). rewrite <- app_assoc.
    rewrite len_app in Ht. change (len [plan]) with 1 in Ht. rewrite Z.add_assoc in Ht.
    split_and!; [done| |by constructor]. cbn [tiles]. unfold plan. cbn. fold n.
    split_and!; try done; try lia. intros Hne. destruct (Z.leb_spec max (af_bytes f - offset)); [lia|].
    destruct new as [|q new]; [done|]. cbn [tiles] in Ht.
    destruct Ht as (_ & _ & _ & Hq & _ & _ & Hpos & _ & Ht). exfalso.
    assert (n = af_bytes f - offset) as Hn by (unfold n; lia). clearbody n. clear -Ht Hpos Hn.
    assert (∀ l s o, o > af_bytes f → tiles s max path f o l → False) as Hno.
    { induction l as [|x l IHl]; cbn [tiles]; intros s o Ho; [lia|].
      intros (_ & _ & _ & _ & _ & _ & Hp & _ & Hl). by eapply IHl; [|exact Hl]; lia. }
    eapply Hno; [|exact Ht]. lia.
  - exists []. rewrite app_nil_r. cbn. split_and!; [done|lia|constructor].
Qed.
Lemma tiles_set_path s max path f q offset plans :
  tiles s max path f offset plans → tiles s max path (set_path f q) offset plans.
Proof. revert s offset. induction plans as [|p plans IH]; intros s offset; cbn [tiles]; naive_solver. Qed.

Lemma raw_fuel_enough bytes max : 0 < max → 0 ≤ bytes →
  bytes - 0 ≤ max * Z.of_nat (S (Z.to_nat (bytes / max))).
Proof.
  intros Hmax Hb. pose proof (Z.div_mod bytes max ltac:(lia)) as Hd.
  pose proof (Z.mod_pos_bound bytes max Hmax). pose proof (Z.div_pos bytes max Hb Hmax).
  set (q := bytes / max) in *. set (r := bytes mod max) in *. clearbody q r.
  replace (Z.of_nat (S (Z.to_nat q))) with (q + 1) by lia. lia.
Qed.

(** One file of the loop. *)
Lemma raw_file_step_spec start max seen plans f path :
  0 < max → normalize_relpath (af_path f) = Ok path →
  match raw_file_step start max (seen, plans) f with
  | Ok (seen', plans') => ∃ own, plans' = plans ++ own ∧ seen' = path :: seen ∧ path ∉ seen ∧
      startswith RESERVED_ARCHIVE_PREFIX path = false ∧ sha256_fullmatch (af_sha256 f) = true ∧
      0 ≤ af_bytes f ∧ file_volumes max (start + len plans) (set_path f path) own
  | Err e => exn_class e = ValueError
  end.
Proof.
  intros Hmax Hn. unfold raw_file_step. rewrite Hn, ok_bind.
  destruct (startswith _ path) eqn:Hres; [done|]. destruct (decide (path ∈ seen)) as [Hin|Hin].
  { by rewrite bool_decide_true. }
  rewrite bool_decide_false by done.
  destruct (Z.ltb_spec (af_bytes f) 0); [done|]. cbn [orb].
  destruct (sha256_fullmatch (af_sha256 f)) eqn:Hsha; [cbn [negb]|done]. unfold file_volumes. cbn [af_bytes set_path].
  destruct (Z.eqb_spec (af_bytes f) 0) as [Hz|Hz].
  { eexists. by split_and!. }
  pose proof (raw_segments_spec (S (Z.to_nat (af_bytes f / max))) start max path f plans 0 Hmax
    ltac:(lia) (raw_fuel_enough (af_bytes f) max Hmax ltac:(lia))) as Hs.
  destruct (raw_segments _ _ _ _ _ _ _) as [plans'|e]; [|done]. rewrite ok_bind.
  destruct Hs as (new & -> & Ht & _). exists new. split_and!; try done; [|by apply tiles_set_path].
  intros ->. cbn in Ht. lia.
Qed.

Lemma raw_loop_spec start max keyed seen plans :
  0 < max → Forall (λ kf, normalize_relpath (af_path kf.2) = Ok kf.1) keyed →
  match foldM (raw_file_step start max) (seen, plans) (snd <$> keyed) with
  | Ok (_, plans') => ∃ new, plans' = plans ++ new ∧
      groups max (start + len plans) ((λ kf, set_path kf.2 kf.1) <$> keyed) new ∧
      Forall (λ kf, startswith RESERVED_ARCHIVE_PREFIX kf.1 = false ∧ kf.1 ∉ seen ∧
        sha256_fullmatch (af_sha256 kf.2) = true ∧ 0 ≤ af_bytes kf.2) keyed ∧ NoDup (fst <$> keyed)
  | Err e => exn_class e = ValueError
  end.
Proof.
  intros Hmax Hk. revert seen plans. induction Hk as [|[k f] keyed Hn Hk IH]; intros seen plans.
  { cbn. exists []. rewrite app_nil_r. split_and!; [done|done|constructor|constructor]. }
  rewrite fmap_cons. cbn [foldM fst snd] in *.
  pose proof (raw_file_step_spec start max seen plans f k Hmax Hn) as Hstep.
  destruct (raw_file_step start max (seen, plans) f) as [[seen1 plans1]|e]; [|done].
  destruct Hstep as (own & -> & -> & Hseen & Hres & Hsha & Hb & Hown). rewrite ok_bind.
  specialize (IH (k :: seen) (plans ++ own)).
  destruct (foldM _ _ _) as [[seen2 plans2]|e]; [|done].
  destruct IH as (new & -> & Hg & Hall & Hnd). exists (own ++ new). rewrite len_app, Z.add_assoc in Hg.
  rewrite <- app_assoc. split_and!; [done| | |].
  - rewrite fmap_cons. cbn [groups fst snd]. eauto.
  - constructor; [done|]. eapply Forall_impl; [exact Hall|]. intros [k' f'] (? & Hni & ? & ?).
    rewrite not_elem_of_cons in Hni. tauto.
  - rewrite fmap_cons. constructor; [|done]. intros ([k' f'] & Heq & Hin)%list_elem_of_fmap.
    cbn in Heq. subst k'. rewrite Forall_forall in Hall. destruct (Hall _ Hin) as (_ & Hni & _). cbn in Hni. set_solver.
Qed.

Lemma file_volumes_sequences max sequence f own : file_volumes max sequence f own →
  rv_sequence <$> own = rangeZ sequence (sequence + len own) ∧ own ≠ [].
Proof.
  unfold file_volumes. destruct (af_bytes f =? 0).
  - intros ->. split; [|done]. cbn. unfold rangeZ. change (len [_]) with 1.
    replace (sequence + 1 - sequence) with 1 by lia. done.
  - intros [Hne Ht]. split; [|done]. clear Hne. revert Ht. generalize 0. revert sequence.
    induction own as [|p own IH]; intros sequence offset Ht; cbn [tiles] in Ht.
    { unfold rangeZ. change (len []) with 0. by rewrite Z.add_0_r, Z.sub_diag. }
    destruct Ht as (_ & Hs & _ & _ & _ & _ & _ & _ & Ht). rewrite fmap_cons, (IH _ _ Ht), Hs, len_cons.
    unfold rangeZ. pose proof (len_nonneg own).
    rewrite (seqZ_cons sequence) by lia. f_equal. f_equal; lia.
Qed.

Lemma groups_sequences max sequence files plans : groups max sequence files plans →
  rv_sequence <$> plans = rangeZ sequence (sequence + len plans).
Proof.
  revert sequence plans. induction files as [|f files IH]; intros sequence plans; cbn [groups].
  { intros ->. unfold rangeZ. change (len []) with 0. by rewrite Z.add_0_r, Z.sub_diag. }
  intros (own & rest & -> & [Hs _]%file_volumes_sequences & Hg). rewrite fmap_app, Hs, (IH _ _ Hg), len_app.
  unfold rangeZ. pose proof (len_nonneg own). pose proof (len_nonneg rest).
  replace (sequence + (len own + len rest) - sequence) with (len own + len rest) by lia.
  rewrite seqZ_app by lia. f_equal; f_equal; lia.
Qed.

(** The files a raw plan is made of: normalised, valid, in strict path order. *)
Definition raw_input (files normalized : list ArchiveFile) : Prop := ∃ keyed,
  snd <$> keyed ≡ₚ files ∧ normalized = (λ kf, set_path kf.2 kf.1) <$> keyed ∧
  Forall (λ kf, normalize_relpath (af_path kf.2) = Ok kf.1 ∧
    startswith RESERVED_ARCHIVE_PREFIX kf.1 = false ∧
    sha256_fullmatch (af_sha256 kf.2) = true ∧ 0 ≤ af_bytes kf.2) keyed ∧
  strictly_sorted af_path normalized.

Lemma sorted_by_path_spec files sorted : sorted_by_path files = Ok sorted → ∃ keyed,
  sorted = snd <$> keyed ∧ snd <$> keyed ≡ₚ files ∧
  Forall (λ kf, normalize_relpath (af_path kf.2) = Ok kf.1) keyed ∧
  StronglySorted (key_le fst) keyed.
Proof.
  unfold sorted_by_path. intros (keyed & Hk & [= <-])%bind_Ok. exists (sorted_by fst keyed).
  apply mapM_result_Forall2 in Hk. pose proof (sorted_by_perm fst keyed) as Hp.
  split_and!; [done| | |apply sorted_by_sorted].
  - rewrite Hp. clear Hp. induction Hk as [|f [k f'] files keyed Hf Hk IH]; [done|].
    destruct (normalize_relpath (af_path f)); [|done]. injection Hf as <- <-.
    rewrite fmap_cons. cbn. by rewrite IH.
  - rewrite Hp. clear Hp. induction Hk as [|f [k f'] files keyed Hf Hk IH]; constructor; [|done].
    destruct (normalize_relpath (af_path f)) eqn:E; [|done]. injection Hf as <- <-. done.
Qed.

Lemma plan_raw_volumes_spec files start max plans : plan_raw_volumes files start max = Ok plans →
  0 ≤ start < 2 ^ 256 ∧ 0 < max ∧
  ∃ normalized, raw_input files normalized ∧ groups max start normalized plans.
Proof.
  unfold plan_raw_volumes. intros Hp. destruct (Z.ltb_spec start 0); [done|].
  destruct (Z.leb_spec (2 ^ 256) start); [done|]. destruct (Z.leb_spec max 0); [done|].
  apply bind_Ok in Hp as (sorted & (keyed & -> & Hperm & Hk & Hsort)%sorted_by_path_spec & Hp).
  pose proof (raw_loop_spec start max keyed [] [] ltac:(lia) Hk) as Hl.
  destruct (foldM _ _ _) as [[seen plans']|]; [|done]. injection Hp as <-.
  destruct Hl as (new & -> & Hg & Hall & Hnd). change (len []) with 0 in Hg. rewrite Z.add_0_r in Hg.
  split; [lia|]. split; [lia|]. eexists. split; [|exact Hg]. exists keyed. split_and!; [done|done| |].
  - rewrite Forall_forall in *. intros kf Hin. specialize (Hk kf Hin). destruct (Hall kf Hin) as (? & _ & ? & ?).
    by split_and!.
  - split.
    + clear -Hsort. induction Hsort as [|kf keyed Hs IH Hx]; [constructor|]. rewrite fmap_cons.
      constructor; [done|]. rewrite Forall_fmap. exact Hx.
    + by rewrite <- list_fmap_compose.
Qed.

(** Raw volumes tile the files: every file, in path order, is covered from its
    first to its last byte by consecutive segments of at most
    [max_plaintext_bytes] (all but the last exactly that long; an empty file
    gets one empty volume), and the volumes are numbered consecutively from the
    starting sequence. *)
Theorem plan_raw_volumes_tile files start max plans :
  plan_raw_volumes files start max = Ok plans →
  rv_sequence <$> plans = rangeZ start (start + len plans) ∧
  ∃ normalized, raw_input files normalized ∧ groups max start normalized plans.
Proof.
  intros (_ & _ & normalized & Hin & Hg)%plan_raw_volumes_spec.
  split; [by eapply groups_sequences|eauto].
Qed.

(** ** Exceptions *)

Lemma sorted_by_path_raises files : raises_only is_value_error (sorted_by_path files).
Proof.
  unfold sorted_by_path. apply raises_only_bind; [|done]. apply raises_only_mapM. intros f _.
  walk_exceptions.
Qed.

Lemma plan_raw_volumes_raises files start max :
  raises_only is_value_error (plan_raw_volumes files start max).
Proof.
  unfold plan_raw_volumes. do 2 (apply raises_only_when; [done|intros _]).
  apply raises_only_when; [done|]. intros Hmax.
  apply raises_only_bind; [apply sorted_by_path_raises|].
  intros sorted (keyed & -> & _ & Hk & _)%sorted_by_path_spec.
  pose proof (raw_loop_spec start max keyed [] [] ltac:(lia) Hk) as Hl.
  destruct (foldM _ _ _) as [[seen plans']|e]; [done|]. cbn. by rewrite Hl.
Qed.
End raw.

#[export] Hint Resolve plan_raw_volumes_raises : exceptions.

(** ** Persisted plans *)

Section raw_persistence.
Context `{PyEnv}.

Definition raw_plan_valid (p : RawVolumePlan) : Prop :=
  rv_volume_id p = segment_volume_id (rv_sequence p) ∧ 0 ≤ rv_sequence p < 2 ^ 256 ∧
  stable_path (rv_source_path p) ∧ startswith RESERVED_ARCHIVE_PREFIX (rv_source_path p) = false ∧
  0 ≤ rv_file_offset p ∧ 0 ≤ rv_plaintext_bytes p ∧
  rv_file_offset p + rv_plaintext_bytes p ≤ rv_file_bytes p ∧
  sha256_fullmatch (rv_file_sha256 p) = true.

Lemma raw_payload_wf p : raw_plan_valid p → json_wf (raw_volume_plan_payload p).
Proof.
  intros (Hid & Hs & [Ht _] & _ & _ & _ & _ & Hsha). unfold raw_volume_plan_payload. wf_obj; try done.
  - rewrite Hid. unfold segment_volume_id. apply Forall_app. split; [apply str_text|].
    apply ascii_text, format_padded_ascii; lia.
  - by apply sha256_fullmatch_text.
Qed.

Lemma rebuild_raw_payload p : raw_plan_valid p →
  rebuild_raw_volume_plan (canon (raw_volume_plan_payload p)) = Ok p.
Proof.
  intros (Hid & Hs & [_ Hn] & Hres & Ho & Hb & Hle & Hsha).
  unfold rebuild_raw_volume_plan, raw_volume_plan_payload. rewrite canon_obj.
  rewrite (keys_are_perm _ _ _ (keys_canon _)), keys_are_intro by done.
  unfold get_or_null. rewrite !dict_get_canon by solve_keys. dict_simpl.
  cbn [fmap option_fmap option_map canon from_option id is_str negb].
  rewrite bool_decide_true by done. cbn [negb py_str]. rewrite !canonical_int_ok by lia. rewrite ok_bind.
  rewrite (proj2 (Z.leb_gt (2 ^ 256) _)), bool_decide_true by (done || lia). cbn [negb orb].
  rewrite Hn, !ok_bind, Hres, Hsha, (proj2 (Z.ltb_ge _ _)) by lia. by destruct p.
Qed.

#[export] Instance raw_plan_document : JsonDocument RawVolumePlan := {|
  doc_payload := raw_volume_plan_payload;
  doc_of_payload := rebuild_raw_volume_plan;
  doc_valid := raw_plan_valid;
  doc_payload_wf := raw_payload_wf;
  doc_law := rebuild_raw_payload;
|}.

Lemma tiles_inside s max path f offset plans : tiles s max path f offset plans → 0 ≤ offset → 0 ≤ s →
  offset ≤ af_bytes f ∧
  Forall (λ p, rv_volume_id p = segment_volume_id (rv_sequence p) ∧ 0 ≤ rv_sequence p ∧
    rv_source_path p = path ∧ 0 ≤ rv_file_offset p ∧ 0 ≤ rv_plaintext_bytes p ∧
    rv_file_offset p + rv_plaintext_bytes p ≤ rv_file_bytes p ∧ rv_file_sha256 p = af_sha256 f) plans.
Proof.
  revert s offset. induction plans as [|p plans IH]; intros s offset; cbn [tiles].
  { intros ->. split; [lia|constructor]. }
  intros (Hid & Hs & Hp & Ho & Hb & Hsha & Hlen & _ & Ht) H0 Hs0.
  destruct (IH _ _ Ht ltac:(lia) ltac:(lia)) as [Hle Hall].
  split; [lia|]. constructor; [|done]. rewrite Hs, Ho, Hb. split_and!; try done; lia.
Qed.

Lemma groups_plans max sequence files plans : 0 ≤ sequence → groups max sequence files plans →
  Forall (λ f, 0 ≤ af_bytes f) files →
  Forall (λ p, rv_volume_id p = segment_volume_id (rv_sequence p) ∧ 0 ≤ rv_sequence p ∧
    0 ≤ rv_file_offset p ∧ 0 ≤ rv_plaintext_bytes p ∧
    rv_file_offset p + rv_plaintext_bytes p ≤ rv_file_bytes p ∧
    ∃ f, f ∈ files ∧ rv_source_path p = af_path f ∧ rv_file_sha256 p = af_sha256 f) plans.
Proof.
  intros H0 Hg Hb. revert sequence plans H0 Hg. induction Hb as [|f files Hb Hbs IH];
    intros sequence plans H0; cbn [groups]; [intros ->; constructor|].
  intros (own & rest & -> & Hown & Hg). apply Forall_app. split.
  - unfold file_volumes in Hown. destruct (Z.eqb_spec (af_bytes f) 0).
    + subst own. constructor; [|constructor]. cbn. split_and!; try done; try lia.
      exists f. set_solver.
    + destruct Hown as [_ Ht]. destruct (tiles_inside _ _ _ _ _ _ Ht ltac:(lia) H0) as [_ Hall].
      eapply Forall_impl; [exact Hall|]. intros p (? & ? & ? & ? & ? & ? & ?). split_and!; try done.
      exists f. set_solver.
  - pose proof (len_nonneg own). eapply Forall_impl; [apply (IH (sequence + len own)); [lia|done]|].
    intros p (? & ? & ? & ? & ? & g & ? & ?). split_and!; try done. exists g. set_solver.
Qed.

(** A raw volume plan survives persistence: every plan the planner emits, with a
    stable path and a representable sequence, is encoded to canonical bytes from
    which [parse_raw_volume_plan] restores it exactly. *)
Theorem raw_volume_plan_roundtrip files start max plans p :
  plan_raw_volumes files start max = Ok plans → p ∈ plans →
  stable_path (rv_source_path p) → rv_sequence p < 2 ^ 256 →
  ∃ content, raw_volume_plan_bytes p = Ok content ∧ parse_raw_volume_plan content = Ok p.
Proof.
  intros (Hstart & _ & normalized & (keyed & _ & -> & Hk & _) & Hg)%plan_raw_volumes_spec Hin Hst Hseq.
  apply groups_plans in Hg; [|lia|].
  2: { rewrite Forall_fmap. eapply Forall_impl; [exact Hk|]. by intros kf (_ & _ & _ & ?). }
  rewrite Forall_forall in Hg. destruct (Hg p Hin) as (Hid & Hs & Ho & Hb & Hle & f & Hf & Hp & Hsha).
  apply list_elem_of_fmap in Hf as (kf & -> & Hkf). rewrite Forall_forall in Hk.
  destruct (Hk kf Hkf) as (_ & Hres & Hfm & _).
  assert (raw_plan_valid p) as Hv.
  { unfold raw_plan_valid. rewrite Hp, Hsha in *. cbn in *. split_and!; try done; lia. }
  destruct (@document_bytes_roundtrip _ _ raw_plan_document false p Hv) as (content & Hc & Hparse).
  exists content. split; [exact Hc|]. unfold parse_raw_volume_plan, parse_raw_volume_plan_text.
  destruct (utf8_decode content); [|done]. rewrite ok_bind in *. destruct (loads _); [|done].
  exact Hparse.
Qed.
End raw_persistence.

Definition sample_raw_files : list ArchiveFile :=
  [{| af_path := str "v.bin"; af_bytes := 25; af_sha256 := sha256_hex [1] |};
   {| af_path := str "empty"; af_bytes := 0; af_sha256 := sha256_hex [] |}].

Lemma plan_raw_volumes_tile_witness : ∃ plans,
  @plan_raw_volumes ascii_env sample_raw_files 3 10 = Ok plans ∧
  rv_sequence <$> plans = [3; 4; 5; 6].
Proof.
  destruct (@plan_raw_volumes ascii_env sample_raw_files 3 10) as [plans|e] eqn:E;
    [|vm_compute in E; discriminate E].
  exists plans. split; [reflexivity|].
  destruct (@plan_raw_volumes_tile ascii_env sample_raw_files 3 10 plans E) as [Hs _].
  rewrite Hs. vm_compute in E. injection E as <-. reflexivity.
Defined.

Lemma raw_volume_plan_roundtrip_witness : ∃ p content,
  rv_plaintext_bytes p = 5 ∧ @raw_volume_plan_bytes ascii_env p = Ok content ∧
  @parse_raw_volume_plan ascii_env content = Ok p.
Proof.
  destruct (@plan_raw_volumes ascii_env sample_raw_files 3 10) as [plans|e] eqn:E;
    [|vm_compute in E; discriminate E].
  destruct (plans !! 3%nat) as [p|] eqn:Hp; [|vm_compute in E; injection E as <-; discriminate Hp].
  pose proof E as E'. vm_compute in E'. injection E' as <-.
  injection Hp as <-. match type of E with _ = Ok [_; _; _; ?q] => set (p := q) in * end.
  destruct (@raw_volume_plan_roundtrip ascii_env sample_raw_files 3 10 _ p E) as (content & Hc & Hpar).
  - do 3 right. left.
  - split; [apply (bool_decide_unpack _); vm_compute; exact I|vm_compute; reflexivity].
  - vm_compute. reflexivity.
  - exists p, content. split; [reflexivity|]. split; [exact Hc|exact Hpar].
Defined.
