(* ===== verification/CollectionPlan.v ===== *)
(** * Planning a collection

    [riverhog_core/collection_plan.py]: the volume policy and its environment
    knobs, and the planner that splits a collection into pack volumes and raw
    volumes; with [collection_tree_identity] of [archive_manifest.py].  The
    theorems show that the plan covers every file exactly once under one
    consecutive numbering, and what the policy checks do and do not bound. *)

From S2P Require Import Prelude Text Json Sha256 Paths Domain PackIngress Tar PackVolume RawVolume.

Definition COLLECTION_VOLUME_PLAN_SCHEMA : pystr := str "collection-volume-plan/v1".

Record CollectionVolumePolicy := {
  cp_pack_source_bytes : Z;
  cp_pack_files : Z;
  cp_pack_member_bytes : Z;
  cp_pack_part_plaintext_bytes : Z;
  cp_raw_volume_plaintext_bytes : Z;
  cp_raw_part_plaintext_bytes : Z;
}.

Definition default_policy : CollectionVolumePolicy :=
  {| cp_pack_source_bytes := DEFAULT_PACK_SOURCE_BYTES; cp_pack_files := ARCHIVE_PACK_FILES_MAX;
     cp_pack_member_bytes := DEFAULT_PACK_MEMBER_BYTES;
     cp_pack_part_plaintext_bytes := DEFAULT_PART_PLAINTEXT_BYTES;
     cp_raw_volume_plaintext_bytes := DEFAULT_RAW_VOLUME_PLAINTEXT_BYTES;
     cp_raw_part_plaintext_bytes := DEFAULT_RAW_PART_PLAINTEXT_BYTES |}.

(** [CollectionVolumePolicy(...)] with its [__post_init__]. *)
Definition new_CollectionVolumePolicy (p : CollectionVolumePolicy) : result CollectionVolumePolicy :=
  when existsb (λ current, current <? 1)
         [cp_pack_source_bytes p; cp_pack_files p; cp_pack_member_bytes p;
          cp_pack_part_plaintext_bytes p; cp_raw_volume_plaintext_bytes p;
          cp_raw_part_plaintext_bytes p]
    raise ValueError "collection volume policy values must be positive";
  when negb (cp_pack_part_plaintext_bytes p mod CHUNK_SIZE =? 0)
    raise ValueError "pack part plaintext target must align to age chunks";
  when negb (cp_raw_part_plaintext_bytes p mod CHUNK_SIZE =? 0)
    raise ValueError "raw part plaintext target must align to age chunks";
  when cp_raw_volume_plaintext_bytes p <? cp_raw_part_plaintext_bytes p
    raise ValueError "raw volume must contain at least one configured raw part";
  when negb (cp_raw_volume_plaintext_bytes p mod cp_raw_part_plaintext_bytes p =? 0)
    raise ValueError "raw volume size must be a multiple of the raw part size";
  when ARCHIVE_VOLUME_PARTS_MAX <? cp_raw_volume_plaintext_bytes p / cp_raw_part_plaintext_bytes p
    raise ValueError "raw volume contains too many construction parts";
  when ARCHIVE_VOLUME_PARTS_MAX <?
         (cp_pack_source_bytes p + cp_pack_part_plaintext_bytes p - 1) / cp_pack_part_plaintext_bytes p + 2
    raise ValueError "pack volume contains too many construction parts";
  when ARCHIVE_PACK_FILES_MAX <? cp_pack_files p
    raise ValueError "pack member target exceeds the v1 construction limit";
  Ok p.

(** ** Environment knobs *)

Section env.
Context `{UnicodeData}.

(** [Mapping[str, str]] *)
Definition environ : Type := pystr → option pystr.

Definition env_missing (raw : option pystr) : bool :=
  match raw with None => true | Some s => bool_decide (strip s = []) end.

Definition _env_int (values : environ) (name : string) (default_value : Z) : result Z :=
  match values (str name) with
  | Some raw =>
      if env_missing (Some raw) then Ok default_value
      else try_except (py_int (strip raw)) is_value_error
             (λ _, Err (Exn ValueError (str name ++ str " must be an integer")))
  | None => Ok default_value
  end.

(** [\d+(?:_\d+)*], greedily: the matched text without underscores and the
    rest. *)
Fixpoint match_amount (after_digit : bool) (s : pystr) : option (pystr * pystr) :=
  match s with
  | [] => if after_digit then Some ([], []) else None
  | c :: s' =>
      match decimal_digit c with
      | Some _ =>
          match match_amount true s' with Some (ds, rest) => Some (c :: ds, rest) | None => None end
      | None =>
          if after_digit then
            match s' with
            | d :: _ =>
                if (c =? chr "_") && match decimal_digit d with Some _ => true | None => false end
                then match_amount false s' else Some ([], s)
            | [] => Some ([], s)
            end
          else None
      end
  end.

(** Single characters under [re.IGNORECASE], with the non-ASCII letters whose
    case variants Python identifies with ASCII ones. *)
Definition is_letter (c : Z) (lower : string) : bool :=
  (c =? chr lower) || (c =? chr lower - 32)
  || (bool_decide (lower = "k"%string) && (c =? 0x212A))
  || (bool_decide (lower = "i"%string) && ((c =? 0x130) || (c =? 0x131))).

Definition is_scale_letter (c : Z) : bool :=
  is_letter c "k" || is_letter c "m" || is_letter c "g" || is_letter c "t".

(** [([kmgt]i?b?|b)?] against all of [s]. *)
Definition match_unit (s : pystr) : bool :=
  match s with
  | [] => true
  | [c] => is_scale_letter c || is_letter c "b"
  | [c; d] => is_scale_letter c && (is_letter d "i" || is_letter d "b")
  | [c; d; e] => is_scale_letter c && is_letter d "i" && is_letter e "b"
  | _ => false
  end.

(** [str.casefold()] on the characters a unit can hold. *)
Definition casefold_char (c : Z) : pystr :=
  if (65 <=? c) && (c <=? 90) then [c + 32]
  else if c =? 0x212A then [chr "k"]
  else if c =? 0x130 then [chr "i"; 0x307]
  else [c].

Definition scales : list (string * Z) :=
  [("b", 1); ("k", 1000); ("kb", 1000); ("m", 1000 ^ 2); ("mb", 1000 ^ 2); ("g", 1000 ^ 3);
   ("gb", 1000 ^ 3); ("t", 1000 ^ 4); ("tb", 1000 ^ 4); ("kib", 1024); ("mib", 1024 ^ 2);
   ("gib", 1024 ^ 3); ("tib", 1024 ^ 4)]%string.

Definition _env_bytes (values : environ) (name : string) (default_value : Z) : result Z :=
  match values (str name) with
  | Some raw =>
      if env_missing (Some raw) then Ok default_value
      else
        let candidate := List.filter (λ c, negb (c =? chr " ")) (strip raw) in
        match match_amount false candidate with
        | Some (ds, unit) =>
            when negb (match_unit unit)
              raises Exn ValueError (str name ++ str " must be a byte size such as 64MiB");
            amount ← py_int ds;
            let unit := concat (casefold_char <$> match unit with [] => str "b" | _ => unit end) in
            match List.find (λ kv, bool_decide (str kv.1 = unit)) scales with
            | Some kv => Ok (amount * kv.2)
            | None => Err (Exn KeyError unit)
            end
        | None => Err (Exn ValueError (str name ++ str " must be a byte size such as 64MiB"))
        end
  | None => Ok default_value
  end.

Definition from_env (values : environ) : result CollectionVolumePolicy :=
  common_part_bytes ← _env_bytes values "RIVERHOG_ARCHIVE_PART_PLAINTEXT_BYTES"
                        DEFAULT_PART_PLAINTEXT_BYTES;
  pack_source_bytes ← _env_bytes values "RIVERHOG_PACK_SOURCE_BYTES" DEFAULT_PACK_SOURCE_BYTES;
  pack_files ← _env_int values "RIVERHOG_PACK_FILES" ARCHIVE_PACK_FILES_MAX;
  pack_member_bytes ← _env_bytes values "RIVERHOG_PACK_MEMBER_BYTES" DEFAULT_PACK_MEMBER_BYTES;
  raw_volume_plaintext_bytes ← _env_bytes values "RIVERHOG_RAW_VOLUME_PLAINTEXT_BYTES"
                                 DEFAULT_RAW_VOLUME_PLAINTEXT_BYTES;
  new_CollectionVolumePolicy
    {| cp_pack_source_bytes := pack_source_bytes; cp_pack_files := pack_files;
       cp_pack_member_bytes := pack_member_bytes;
       cp_pack_part_plaintext_bytes := common_part_bytes;
       cp_raw_volume_plaintext_bytes := raw_volume_plaintext_bytes;
       cp_raw_part_plaintext_bytes := common_part_bytes |}.
End env.

(** ** The planner *)

Record CollectionVolumePlan := {
  cv_files : list ArchiveFile;
  cv_policy : CollectionVolumePolicy;
  cv_packs : list PackVolumePlan;
  cv_raw_volumes : list RawVolumePlan;
  cv_tree_sha256 : pystr;
  cv_plan_sha256 : pystr;
}.

Definition cv_volume_count (p : CollectionVolumePlan) : Z := len (cv_packs p) + len (cv_raw_volumes p).

Section collection.
Context `{PyEnv}.

Definition collection_file_step (st : list pystr * list ArchiveFile) (current : ArchiveFile) :
    result (list pystr * list ArchiveFile) :=
  let '(seen, normalized) := st in
  path ← normalize_relpath (af_path current);
  when startswith RESERVED_ARCHIVE_PREFIX path || bool_decide (path ∈ seen)
    raises Exn ValueError (str "collection volume plan path is invalid: " ++ path);
  when (af_bytes current <? 0) || negb (sha256_fullmatch (af_sha256 current))
    raises Exn ValueError (str "collection volume plan file identity is invalid: " ++ path);
  Ok (path :: seen, normalized ++ [set_path current path]).

(** [_normalized_files] of [collection_plan.py]. *)
Definition _normalized_collection_files (files : list ArchiveFile) : result (list ArchiveFile) :=
  '(_, normalized) ← foldM collection_file_step ([], []) files;
  when match normalized with [] => true | _ => false end
    raise ValueError "collection volume plan requires at least one file";
  Ok (sorted_by af_path normalized).

Definition tree_file_step (st : list pystr * list ArchiveFile) (current : ArchiveFile) :
    result (list pystr * list ArchiveFile) :=
  let '(seen, out) := st in
  path ← normalize_relpath (af_path current);
  when startswith RESERVED_ARCHIVE_PREFIX path
    raises Exn ValueError (str "collection path uses reserved archive namespace: " ++ path);
  when bool_decide (path ∈ seen)
    raises Exn ValueError (str "duplicate collection archive path: " ++ path);
  when (af_bytes current <? 0) || negb (sha256_fullmatch (af_sha256 current))
    raises Exn ValueError (str "collection archive file identity is invalid: " ++ path);
  Ok (path :: seen, out ++ [set_path current path]).

(** [_normalized_files] of [archive_manifest.py]. *)
Definition _normalized_tree_files (files : list ArchiveFile) : result (list ArchiveFile) :=
  '(_, out) ← foldM tree_file_step ([], []) files;
  when match out with [] => true | _ => false end
    raise ValueError "collection archive requires at least one file";
  Ok (sorted_by af_path out).

Record CollectionTreeIdentity := { ti_files : Z; ti_bytes : Z; ti_sha256 : pystr }.

Definition collection_tree_identity (files : list ArchiveFile) : result CollectionTreeIdentity :=
  normalized ← _normalized_tree_files files;
  lines ← mapM_result (λ f, utf8_encode (tree_line (af_path f) (af_bytes f) (af_sha256 f))) normalized;
  Ok {| ti_files := len normalized; ti_bytes := sumZ af_bytes normalized;
        ti_sha256 := sha256_hex (concat lines) |}.

Definition policy_payload (p : CollectionVolumePolicy) : json :=
  JObj [(str "pack_source_bytes", JInt (cp_pack_source_bytes p));
        (str "pack_files", JInt (cp_pack_files p));
        (str "pack_member_bytes", JInt (cp_pack_member_bytes p));
        (str "pack_part_plaintext_bytes", JInt (cp_pack_part_plaintext_bytes p));
        (str "raw_volume_plaintext_bytes", JInt (cp_raw_volume_plaintext_bytes p));
        (str "raw_part_plaintext_bytes", JInt (cp_raw_part_plaintext_bytes p))].

Definition pack_row (v : PackVolumePlan) : json :=
  JObj [(str "id", JStr (pv_volume_id v)); (str "sequence", JInt (pv_sequence v));
        (str "kind", JStr (str "pack")); (str "plaintext_bytes", JInt (pv_plaintext_bytes v));
        (str "files", JInt (len (pv_members v)));
        (str "source_bytes", JInt (sumZ pm_bytes (pv_members v)));
        (str "index_sha256", JStr (pv_index_sha256 v)); (str "plan_sha256", JStr (pv_plan_sha256 v))].

Definition segment_row (v : RawVolumePlan) : json :=
  JObj [(str "id", JStr (rv_volume_id v)); (str "sequence", JInt (rv_sequence v));
        (str "kind", JStr (str "segment")); (str "source_path", JStr (rv_source_path v));
        (str "file_offset", JInt (rv_file_offset v));
        (str "plaintext_bytes", JInt (rv_plaintext_bytes v));
        (str "file_bytes", JInt (rv_file_bytes v)); (str "file_sha256", JStr (rv_file_sha256 v))].

Definition _base_payload (files : list ArchiveFile) (policy : CollectionVolumePolicy)
    (packs : list PackVolumePlan) (raw_volumes : list RawVolumePlan) (tree : CollectionTreeIdentity) :
    json :=
  JObj [(str "schema", JStr COLLECTION_VOLUME_PLAN_SCHEMA);
        (str "policy", policy_payload policy);
        (str "tree", JObj [(str "files", JInt (ti_files tree)); (str "bytes", JInt (ti_bytes tree));
                           (str "sha256", JStr (ti_sha256 tree))]);
        (str "files", JList (file_row <$> files));
        (str "volumes", JList ((pack_row <$> packs) ++ (segment_row <$> raw_volumes)))].

Definition is_packed (policy : CollectionVolumePolicy) (f : ArchiveFile) : bool :=
  af_bytes f <? cp_pack_member_bytes policy.

Definition plan_packs (policy : CollectionVolumePolicy) (packed_files : list ArchiveFile) :
    result (list PackVolumePlan) :=
  match packed_files with
  | [] => Ok []
  | _ => plan_pack_volumes (cp_pack_source_bytes policy) (cp_pack_files policy)
           (cp_pack_member_bytes policy) (cp_pack_part_plaintext_bytes policy) packed_files
  end.

Definition plan_raws (policy : CollectionVolumePolicy) (starting_sequence : Z)
    (raw_files : list ArchiveFile) : result (list RawVolumePlan) :=
  match raw_files with
  | [] => Ok []
  | _ => plan_raw_volumes raw_files starting_sequence (cp_raw_volume_plaintext_bytes policy)
  end.

Definition plan_collection_volumes (files : list ArchiveFile)
    (policy : option CollectionVolumePolicy) : result CollectionVolumePlan :=
  let effective_policy := default default_policy policy in
  normalized ← _normalized_collection_files files;
  let packed_files := List.filter (is_packed effective_policy) normalized in
  let raw_files := List.filter (λ f, negb (is_packed effective_policy f)) normalized in
  packs ← plan_packs effective_policy packed_files;
  raw_volumes ← plan_raws effective_policy (len packs) raw_files;
  let sequences := (pv_sequence <$> packs) ++ (rv_sequence <$> raw_volumes) in
  when negb (bool_decide (sequences = rangeZ 0 (len sequences)))
    raise RuntimeError "collection volume planner produced non-canonical sequences";
  tree ← collection_tree_identity normalized;
  content ← canonical_json_bytes (_base_payload normalized effective_policy packs raw_volumes tree);
  Ok {| cv_files := normalized; cv_policy := effective_policy; cv_packs := packs;
        cv_raw_volumes := raw_volumes; cv_tree_sha256 := ti_sha256 tree;
        cv_plan_sha256 := sha256_hex content |}.

(** ** Normalisation *)

(** The collection's checks are those of a pack without its size limit. *)
Lemma collection_files_step max st f st' :
  collection_file_step st f = Ok st' → af_bytes f < max → normalized_file_step max st f = Ok st'.
Proof.
  destruct st as [seen out]. unfold collection_file_step, normalized_file_step.
  intros (path & -> & Hs)%bind_Ok Hmax. rewrite ok_bind.
  destruct (startswith _ _); [done|]. destruct (bool_decide _); [done|]. cbn [orb] in Hs.
  destruct (Z.ltb_spec (af_bytes f) 0); [done|]. rewrite (proj2 (Z.leb_gt max _)) by lia.
  cbn [orb] in *. by destruct (sha256_fullmatch _).
Qed.

Lemma collection_files_loop max st files st' :
  foldM collection_file_step st files = Ok st' → Forall (λ f, af_bytes f < max) files →
  foldM (normalized_file_step max) st files = Ok st'.
Proof.
  revert st. induction files as [|f files IH]; intros st Hf Hmax; [done|]. cbn [foldM] in *.
  apply Forall_cons in Hmax as [Hm Hmax]. apply bind_Ok in Hf as (s1 & Hs & Hf).
  rewrite (collection_files_step _ _ _ _ Hs Hm), ok_bind. auto.
Qed.

Lemma collection_files_normalized files max normalized :
  _normalized_collection_files files = Ok normalized → 0 < max →
  Forall (λ f, af_bytes f < max) files → _normalized_files files max = Ok normalized.
Proof.
  unfold _normalized_collection_files, _normalized_files. intros ([seen out] & Hl & Hn)%bind_Ok Hmax Hb.
  rewrite (proj2 (Z.leb_gt max 0)), (collection_files_loop max _ _ _ Hl Hb), ok_bind by lia.
  by destruct out.
Qed.

Lemma some_member_limit (files : list ArchiveFile) : ∃ max, 0 < max ∧ Forall (λ f, af_bytes f < max) files.
Proof.
  induction files as [|f files (max & Hm & Hf)]; [by exists 1|].
  exists (Z.max max (1 + af_bytes f)). split; [lia|]. constructor; [lia|].
  eapply Forall_impl; [exact Hf|]. simpl. lia.
Qed.

Lemma collection_files_spec files normalized : _normalized_collection_files files = Ok normalized →
  strictly_sorted af_path normalized ∧ normalized ≠ [] ∧
  ∃ max new, Forall2 (normalizes max) files new ∧ normalized = sorted_by af_path new.
Proof.
  intros Hn. destruct (some_member_limit files) as (max & Hm & Hf).
  destruct (normalized_files_spec _ _ _ (collection_files_normalized _ _ _ Hn Hm Hf))
    as (new & Hnew & _ & Hne & Hs & Heq). eauto 8.
Qed.

Lemma sorted_filter {A} (R : relation A) (P : A → bool) l :
  StronglySorted R l → StronglySorted R (List.filter P l).
Proof.
  induction 1 as [|x l Hs IH Hx]; simpl; [constructor|]. destruct (P x); [|done]. constructor; [done|].
  rewrite Forall_forall in *. intros y [Hy _]%list_elem_of_In%filter_In. by apply Hx, list_elem_of_In.
Qed.

Lemma Forall_List_filter {A} (Q : A → Prop) (P : A → bool) l : Forall Q l → Forall Q (List.filter P l).
Proof.
  rewrite !Forall_forall. intros Hl y [Hy _]%list_elem_of_In%filter_In. by apply Hl, list_elem_of_In.
Qed.

(** Sorted files with stable paths are planned as they are. *)
Lemma raw_input_stable files normalized : raw_input files normalized →
  Forall (λ f, normalize_relpath (af_path f) = Ok (af_path f)) files →
  StronglySorted (key_le af_path) files → normalized = files.
Proof.
  intros (keyed & Hperm & -> & Hk & [Hs Hnd]) Hst Hsort.
  assert ((λ kf, set_path kf.2 kf.1) <$> keyed = snd <$> keyed) as Hid.
  { apply list_fmap_ext. intros i [k f] Hin%list_elem_of_lookup_2. cbn.
    rewrite Forall_forall in Hk. destruct (Hk _ Hin) as [Hn _]. cbn in Hn.
    rewrite <- Hperm, Forall_fmap, Forall_forall in Hst. specialize (Hst _ Hin). cbn in Hst.
    rewrite Hst in Hn. injection Hn as <-. by destruct f. }
  rewrite Hid in *. apply (StronglySorted_unique_strong (key_le af_path)); try done.
  intros x y Hx Hy Hxy Hyx. pose proof (str_leb_antisym _ _ Hxy Hyx) as Heq.
  destruct (list_elem_of_lookup_1 _ _ Hx) as [i Hi]. rewrite <- Hperm in Hy.
  destruct (list_elem_of_lookup_1 _ _ Hy) as [j Hj].
  assert (i = j) as ->; [|congruence].
  eapply NoDup_lookup; [exact Hnd| |]; rewrite list_lookup_fmap; [by rewrite Hi|rewrite Hj].
  cbn. by rewrite Heq.
Qed.

(** ** The two planners together *)

Lemma plan_packs_sequences policy files packs : plan_packs policy files = Ok packs →
  pv_sequence <$> packs = rangeZ 0 (len packs).
Proof. destruct files; [by intros [= <-]|apply plan_pack_volumes_sequences]. Qed.

Lemma plan_packs_files policy files packs : plan_packs policy files = Ok packs →
  Forall (λ f, normalize_relpath (af_path f) = Ok (af_path f)) files →
  StronglySorted (key_le af_path) files →
  concat (volume_files <$> packs) = files ∧
  Forall (λ v, group_bounds (cp_pack_source_bytes policy) (cp_pack_files policy) (volume_files v)) packs.
Proof.
  intros Hp Hst Hs. destruct files as [|f files]; [by injection Hp as <-|].
  apply plan_pack_volumes_spec in Hp as (normalized & Hn & Hp).
  pose proof (normalized_sorted_stable _ _ _ Hn Hst Hs) as ->.
  destruct (Hp Hst) as (? & _ & ?). done.
Qed.

Lemma plan_raws_sequences policy start files raws : plan_raws policy start files = Ok raws →
  rv_sequence <$> raws = rangeZ start (start + len raws).
Proof.
  destruct files.
  - intros [= <-]. unfold rangeZ. change (len []) with 0. by rewrite Z.add_0_r, Z.sub_diag.
  - intros (_ & _ & normalized & _ & Hg)%plan_raw_volumes_spec. by eapply groups_sequences.
Qed.

Lemma plan_raws_files policy start files raws : plan_raws policy start files = Ok raws →
  Forall (λ f, normalize_relpath (af_path f) = Ok (af_path f)) files →
  StronglySorted (key_le af_path) files →
  groups (cp_raw_volume_plaintext_bytes policy) start files raws.
Proof.
  intros Hp Hst Hs. destruct files as [|f files]; [by injection Hp as <-|].
  apply plan_raw_volumes_spec in Hp as (_ & _ & normalized & Hin & Hg).
  by rewrite <- (raw_input_stable _ _ Hin Hst Hs).
Qed.

Lemma volume_sequences policy packed raw packs raws :
  plan_packs policy packed = Ok packs → plan_raws policy (len packs) raw = Ok raws →
  (pv_sequence <$> packs) ++ (rv_sequence <$> raws) = rangeZ 0 (len packs + len raws).
Proof.
  intros ->%plan_packs_sequences ->%plan_raws_sequences.
  pose proof (len_nonneg packs). pose proof (len_nonneg raws). symmetry. apply rangeZ_app; lia.
Qed.

Lemma plan_collection_volumes_spec files policy plan :
  plan_collection_volumes files policy = Ok plan →
  cv_policy plan = default default_policy policy ∧
  _normalized_collection_files files = Ok (cv_files plan) ∧
  plan_packs (cv_policy plan) (List.filter (is_packed (cv_policy plan)) (cv_files plan)) = Ok (cv_packs plan) ∧
  plan_raws (cv_policy plan) (len (cv_packs plan))
    (List.filter (λ f, negb (is_packed (cv_policy plan) f)) (cv_files plan)) = Ok (cv_raw_volumes plan) ∧
  ∃ tree, collection_tree_identity (cv_files plan) = Ok tree ∧ cv_tree_sha256 plan = ti_sha256 tree.
Proof.
  unfold plan_collection_volumes. cbv zeta. intros (normalized & Hn & Hp)%bind_Ok.
  apply bind_Ok in Hp as (packs & Hpk & Hp). apply bind_Ok in Hp as (raws & Hr & Hp).
  destruct (negb _) in Hp; [done|]. apply bind_Ok in Hp as (tree & Ht & Hp).
  apply bind_Ok in Hp as (content & _ & Hp). injection Hp as <-. split_and!; try done. by exists tree.
Qed.

(** C17. A collection plan whose file paths are stable under normalisation covers
    the collection exactly once: the plan's files are the input files with
    normalised paths, in strict path order; the pack volumes hold, in order,
    exactly the files below the member limit, within the policy's bounds; the raw
    volumes tile exactly the others; and all volumes share one consecutive
    numbering from zero. *)
Theorem plan_collection_volumes_partition files policy plan :
  plan_collection_volumes files policy = Ok plan →
  Forall (λ f, normalize_relpath (af_path f) = Ok (af_path f)) (cv_files plan) →
  (∃ max new, Forall2 (normalizes max) files new ∧ cv_files plan = sorted_by af_path new) ∧
  strictly_sorted af_path (cv_files plan) ∧
  concat (volume_files <$> cv_packs plan) = List.filter (is_packed (cv_policy plan)) (cv_files plan) ∧
  Forall (λ v, group_bounds (cp_pack_source_bytes (cv_policy plan)) (cp_pack_files (cv_policy plan))
    (volume_files v)) (cv_packs plan) ∧
  groups (cp_raw_volume_plaintext_bytes (cv_policy plan)) (len (cv_packs plan))
    (List.filter (λ f, negb (is_packed (cv_policy plan) f)) (cv_files plan)) (cv_raw_volumes plan) ∧
  (pv_sequence <$> cv_packs plan) ++ (rv_sequence <$> cv_raw_volumes plan) =
    rangeZ 0 (cv_volume_count plan).
Proof.
  intros (_ & Hn & Hp & Hr & _)%plan_collection_volumes_spec Hst.
  apply collection_files_spec in Hn as (Hs & _ & Hnew).
  destruct (plan_packs_files _ _ _ Hp) as [Hfiles Hbounds];
    [by apply Forall_List_filter|apply sorted_filter, Hs|].
  split_and!; try done.
  - by apply plan_raws_files; [|apply Forall_List_filter|apply sorted_filter, Hs].
  - by eapply volume_sequences.
Qed.

(** ** Exceptions *)

Lemma collection_files_raises files : raises_only is_value_error (_normalized_collection_files files).
Proof.
  unfold _normalized_collection_files. apply raises_only_bind; [|intros [seen out] _; walk_exceptions].
  apply raises_only_foldM. intros [seen out] f _. unfold collection_file_step. walk_exceptions.
Qed.

Lemma tree_identity_raises files : raises_only is_value_error (collection_tree_identity files).
Proof.
  unfold collection_tree_identity, _normalized_tree_files. walk_exceptions.
  apply raises_only_foldM. intros [seen out] f _. unfold tree_file_step. walk_exceptions.
Qed.

Lemma plan_packs_raises policy files : raises_only is_value_error (plan_packs policy files).
Proof. destruct files; [exact I|apply plan_pack_volumes_raises]. Qed.

Lemma plan_raws_raises policy start files : raises_only is_value_error (plan_raws policy start files).
Proof. destruct files; [exact I|apply plan_raw_volumes_raises]. Qed.

(** Planning a collection raises only [ValueError]s about its input, whatever the
    files and the policy: the planner's own sequence check ([RuntimeError])
    never fires, nor does any check inside the pack and raw planners. *)
Theorem plan_collection_volumes_raises files policy :
  raises_only is_value_error (plan_collection_volumes files policy).
Proof.
  unfold plan_collection_volumes. cbv zeta. apply raises_only_bind; [apply collection_files_raises|].
  intros normalized _. apply raises_only_bind; [apply plan_packs_raises|intros packs Hp].
  apply raises_only_bind; [apply plan_raws_raises|].
  intros raws Hr. rewrite (volume_sequences _ _ _ _ _ Hp Hr).
  rewrite bool_decide_true.
  - cbn [negb]. apply raises_only_bind; [apply tree_identity_raises|intros tree _]. walk_exceptions.
  - f_equal. unfold rangeZ. rewrite Z.sub_0_r. unfold len at 3. rewrite length_seqZ.
    pose proof (len_nonneg packs). pose proof (len_nonneg raws). lia.
Qed.
End collection.

(** ** Environment knobs *)

(** A byte size with an [i] but no [b], such as ["64Ki"], matches the pattern of
    [_env_bytes] but has no entry in its scale table: instead of the
    [ValueError] that names the variable, or the size, a bare [KeyError]
    escapes; with the [b] the same text is accepted. *)
Theorem env_bytes_key_error :
  let env text := λ name, if bool_decide (name = str "RIVERHOG_PACK_SOURCE_BYTES")
                          then Some (str text) else None in
  raised (@_env_bytes ascii_data (env "64Ki") "RIVERHOG_PACK_SOURCE_BYTES" 1) = Some KeyError ∧
  raised (@_env_bytes ascii_data (env "64Q") "RIVERHOG_PACK_SOURCE_BYTES" 1) = Some ValueError ∧
  @_env_bytes ascii_data (env " 64 KiB ") "RIVERHOG_PACK_SOURCE_BYTES" 1 = Ok 65536.
Proof. vm_compute. repeat split; reflexivity. Qed.

(** A collection of two packed files and one raw file. *)
Definition sample_policy : CollectionVolumePolicy :=
  {| cp_pack_source_bytes := 100; cp_pack_files := 10; cp_pack_member_bytes := 20;
     cp_pack_part_plaintext_bytes := 65536; cp_raw_volume_plaintext_bytes := 65536;
     cp_raw_part_plaintext_bytes := 65536 |}.

Definition sample_collection : list ArchiveFile :=
  {| af_path := str "raw.bin"; af_bytes := 70000; af_sha256 := sha256_hex [9] |} :: sample_files.

Lemma plan_collection_volumes_partition_witness : ∃ plan,
  @plan_collection_volumes ascii_env sample_collection (Some sample_policy) = Ok plan ∧
  strictly_sorted af_path (cv_files plan) ∧ cv_volume_count plan = 3.
Proof.
  destruct (@plan_collection_volumes ascii_env sample_collection (Some sample_policy)) as [plan|e] eqn:E;
    [|vm_compute in E; discriminate E].
  exists plan. split; [reflexivity|].
  destruct (@plan_collection_volumes_partition ascii_env sample_collection (Some sample_policy) plan E)
    as (_ & Hs & _).
  - vm_compute in E. injection E as <-. cbn [cv_files].
    repeat (apply Forall_cons_2; [vm_compute; reflexivity|]). apply Forall_nil_2.
  - split; [exact Hs|]. vm_compute in E. injection E as <-. reflexivity.
Defined.
