(* ===== verification/ArchivePlan.v ===== *)
(** * Checking a collection's volume plan

    [validate_collection_archive_plan] of [riverhog_core/archive_manifest.py]: the
    check that runs before an archive is published and that the volume plans
    place every byte of every file exactly once.  The theorems show that this is
    what acceptance means, and that the plans of [CollectionPlan] are accepted. *)

From stdpp Require Import gmap sorting.
From S2P Require Import Prelude Text Json Sha256 Paths Domain PackIngress Tar PackVolume RawVolume CollectionPlan.

(** [RawVolumePlan | SealedRawVolume] *)
Inductive RawVolumeEntry := RawPlanned (p : RawVolumePlan) | RawSealed (v : SealedRawVolume).

Definition re_volume_id (r : RawVolumeEntry) : pystr :=
  match r with RawPlanned p => rv_volume_id p | RawSealed v => srv_volume_id v end.
Definition re_sequence (r : RawVolumeEntry) : Z :=
  match r with RawPlanned p => rv_sequence p | RawSealed v => srv_sequence v end.
Definition re_source_path (r : RawVolumeEntry) : pystr :=
  match r with RawPlanned p => rv_source_path p | RawSealed v => srv_source_path v end.
Definition re_file_offset (r : RawVolumeEntry) : Z :=
  match r with RawPlanned p => rv_file_offset p | RawSealed v => srv_file_offset v end.
Definition re_plaintext_bytes (r : RawVolumeEntry) : Z :=
  match r with RawPlanned p => rv_plaintext_bytes p | RawSealed v => srv_plaintext_bytes v end.
Definition re_file_bytes (r : RawVolumeEntry) : Z :=
  match r with RawPlanned p => rv_file_bytes p | RawSealed v => srv_file_bytes v end.
Definition re_file_sha256 (r : RawVolumeEntry) : pystr :=
  match r with RawPlanned p => rv_file_sha256 p | RawSealed v => srv_file_sha256 v end.

(** A placement is a tuple [(offset, byte_count, volume_id)]; tuples compare
    lexicographically. *)
Definition placement : Type := Z * Z * pystr.

Definition placement_leb (x y : placement) : bool :=
  let '(o, c, v) := x in
  let '(o', c', v') := y in
  (o <? o') || ((o =? o') && ((c <? c') || ((c =? c') && str_leb v v'))).
Definition placement_le : relation placement := λ x y, placement_leb x y = true.

#[export] Instance placement_le_dec : RelDecision placement_le.
Proof. intros x y. unfold placement_le. apply _. Defined.

Notation coverage_map := (gmap pystr (list placement)).

(** [{current.path: current for current in normalized_files}] *)
Definition expected_by_path (files : list ArchiveFile) : gmap pystr ArchiveFile :=
  foldl (λ m f, <[af_path f := f]> m) ∅ files.
Definition empty_coverage (files : list ArchiveFile) : coverage_map :=
  foldl (λ m f, <[af_path f := []]> m) ∅ files.

(** [coverage[path].append(x)], on a path that is a key. *)
Definition add_placement (path : pystr) (x : placement) (coverage : coverage_map) : coverage_map :=
  alter (λ l, l ++ [x]) path coverage.

Section archive_plan.
Context `{PyEnv}.

Definition member_step (expected : gmap pystr ArchiveFile) (volume_id : pystr) (coverage : coverage_map)
    (member : PackMemberPlan) : result coverage_map :=
  let error := Exn ValueError (str "pack plan does not match collection file identity: " ++ pm_path member) in
  match expected !! pm_path member with
  | None => Err error
  | Some f =>
      when negb (af_bytes f =? pm_bytes member) || negb (bool_decide (af_sha256 f = pm_sha256 member)) raises error;
      Ok (add_placement (pm_path member) (0, pm_bytes member, volume_id) coverage)
  end.

Definition pack_step (expected : gmap pystr ArchiveFile) (coverage : coverage_map) (pack_plan : PackVolumePlan) :
    result coverage_map :=
  foldM (member_step expected (pv_volume_id pack_plan)) coverage (pv_members pack_plan).

Definition raw_step (expected : gmap pystr ArchiveFile) (coverage : coverage_map) (raw_plan : RawVolumeEntry) :
    result coverage_map :=
  source_path ← normalize_relpath (re_source_path raw_plan);
  match expected !! source_path with
  | None => Err (Exn ValueError (str "raw volume references an unknown collection path: " ++ source_path))
  | Some f =>
      when (re_file_offset raw_plan <? 0) || (re_plaintext_bytes raw_plan <? 0)
        raise ValueError "raw volume placement is invalid";
      when negb (re_file_bytes raw_plan =? af_bytes f) || negb (bool_decide (re_file_sha256 raw_plan = af_sha256 f))
        raises Exn ValueError (str "raw volume file identity mismatch: " ++ source_path);
      when af_bytes f <? re_file_offset raw_plan + re_plaintext_bytes raw_plan
        raises Exn ValueError (str "raw volume exceeds its collection file: " ++ source_path);
      Ok (add_placement source_path
            (re_file_offset raw_plan, re_plaintext_bytes raw_plan, re_volume_id raw_plan) coverage)
  end.

Definition range_step (path : pystr) (expected_offset : Z) (range : placement) : result Z :=
  let '(offset, byte_count, _) := range in
  when negb (offset =? expected_offset) || (byte_count <? 0)
    raises Exn ValueError (str "collection archive file placements are not contiguous: " ++ path);
  Ok (expected_offset + byte_count).

Definition coverage_step (coverage : coverage_map) (_ : unit) (current : ArchiveFile) : result unit :=
  match coverage !! af_path current with
  | None => Err (Exn KeyError (af_path current))
  | Some placements =>
      let ranges := merge_sort placement_le placements in
      when bool_decide (ranges = [])
        raises Exn ValueError (str "collection archive file has no volume placement: " ++ af_path current);
      stop ← foldM (range_step (af_path current)) 0 ranges;
      when negb (stop =? af_bytes current)
        raises Exn ValueError (str "collection archive file placements do not cover it: " ++ af_path current);
      Ok tt
  end.

Definition _validate_file_coverage (files : list ArchiveFile) (coverage : coverage_map) : result unit :=
  foldM (coverage_step coverage) tt files.

(** [sorted(..., key=lambda current: current.sequence)] is used for its sequences
    alone, and [len({...}) != len(plans)] says that two ids are equal. *)
Definition validate_collection_archive_plan (files : list ArchiveFile) (packs : list PackVolumePlan)
    (raw_volumes : list RawVolumeEntry) : result (list ArchiveFile) :=
  normalized_files ← _normalized_tree_files files;
  let expected := expected_by_path normalized_files in
  let coverage := empty_coverage normalized_files in
  let sequences := (pv_sequence <$> packs) ++ (re_sequence <$> raw_volumes) in
  let ids := (pv_volume_id <$> packs) ++ (re_volume_id <$> raw_volumes) in
  when negb (bool_decide (merge_sort Z.le sequences = rangeZ 0 (len sequences)))
    raise ValueError "archive volume plan sequence must be canonical and contiguous";
  when negb (bool_decide (NoDup ids)) raise ValueError "archive volume plan ids must be unique";
  coverage ← foldM (pack_step expected) coverage packs;
  coverage ← foldM (raw_step expected) coverage raw_volumes;
  _ ← _validate_file_coverage normalized_files coverage;
  Ok normalized_files.
End archive_plan.

(** ** The order of placements *)

#[export] Instance placement_le_trans : Transitive placement_le.
Proof.
  intros [[o1 c1] v1] [[o2 c2] v2] [[o3 c3] v3]. unfold placement_le, placement_leb.
  rewrite !orb_true_iff, !andb_true_iff, !orb_true_iff, !andb_true_iff, !Z.ltb_lt, !Z.eqb_eq.
  intros H12 H23. destruct H12 as [|(-> & [|[-> Hv12]])], H23 as [|(-> & [|[-> Hv23]])];
    try (left; lia); right; (split; [done|]); try (left; lia). right. split; [done|]. by eapply str_leb_trans.
Qed.

#[export] Instance placement_le_total : Total placement_le.
Proof.
  intros [[o1 c1] v1] [[o2 c2] v2]. unfold placement_le, placement_leb.
  rewrite !orb_true_iff, !andb_true_iff, !orb_true_iff, !andb_true_iff, !Z.ltb_lt, !Z.eqb_eq.
  destruct (Z.lt_trichotomy o1 o2) as [|[->|]]; [lia| |lia].
  destruct (Z.lt_trichotomy c1 c2) as [|[->|]]; [tauto| |tauto]. destruct (str_leb_total v1 v2); tauto.
Qed.

#[export] Instance placement_le_antisymm : AntiSymm (=) placement_le.
Proof.
  intros [[o1 c1] v1] [[o2 c2] v2]. unfold placement_le, placement_leb.
  rewrite !orb_true_iff, !andb_true_iff, !orb_true_iff, !andb_true_iff, !Z.ltb_lt, !Z.eqb_eq.
  intros H12 H21. assert (o1 = o2) as -> by lia. assert (c1 = c2) as -> by lia. f_equal.
  apply str_leb_antisym; [destruct H12 as [?|(_ & [?|[_ ?]])]|destruct H21 as [?|(_ & [?|[_ ?]])]]; (done || lia).
Qed.

(** ** Contiguous ranges place every byte once *)

Definition pl_offset (x : placement) : Z := x.1.1.
Definition pl_bytes (x : placement) : Z := x.1.2.

(** How many of the placements hold byte [i]. *)
Definition holders (i : Z) (l : list placement) : list placement :=
  filter (λ x, pl_offset x ≤ i < pl_offset x + pl_bytes x) l.

Fixpoint contiguous (start : Z) (l : list placement) (stop : Z) : Prop :=
  match l with
  | [] => start = stop
  | x :: l => pl_offset x = start ∧ 0 ≤ pl_bytes x ∧ contiguous (start + pl_bytes x) l stop
  end.

Lemma range_step_iff path start x stop : range_step path start x = Ok stop ↔
  pl_offset x = start ∧ 0 ≤ pl_bytes x ∧ stop = start + pl_bytes x.
Proof.
  destruct x as [[o c] v]. unfold range_step. change (pl_offset (o, c, v)) with o. change (pl_bytes (o, c, v)) with c.
  destruct (Z.eqb_spec o start); cbn [negb orb]; [|naive_solver].
  destruct (Z.ltb_spec c 0); [naive_solver lia|]. split; [intros [= <-]; lia|]. by intros (_ & _ & ->).
Qed.

Lemma range_loop_contiguous path start l stop : foldM (range_step path) start l = Ok stop ↔ contiguous start l stop.
Proof.
  revert start. induction l as [|x l IH]; intros start; cbn [foldM contiguous].
  - split; [by intros [= ->]|by intros ->].
  - rewrite bind_Ok. setoid_rewrite range_step_iff. split.
    + intros (e & (Ho & Hb & ->) & Hl). by rewrite <- IH.
    + intros (Ho & Hb & Hl). exists (start + pl_bytes x). by rewrite IH.
Qed.

Lemma contiguous_le start l stop : contiguous start l stop → start ≤ stop.
Proof. revert start. induction l as [|x l IH]; cbn; intros start Hc; [lia|]. destruct Hc as (_ & ? & Hc%IH). lia. Qed.

Lemma contiguous_after start l stop i : contiguous start l stop → i < start → holders i l = [].
Proof.
  revert start. induction l as [|x l IH]; intros start Hc Hi; [done|]. destruct Hc as (Ho & Hb & Hc).
  unfold holders. rewrite filter_cons, decide_False by lia. apply (IH (start + pl_bytes x)); [done|lia].
Qed.

Lemma contiguous_holders start l stop i : contiguous start l stop → start ≤ i < stop → ∃ x, holders i l = [x].
Proof.
  revert start. induction l as [|x l IH]; intros start Hc Hi; cbn in Hc; [lia|]. destruct Hc as (Ho & Hb & Hc).
  unfold holders. rewrite filter_cons. destruct (decide _) as [Hx|Hx].
  - exists x. f_equal. apply (contiguous_after (start + pl_bytes x) l stop i Hc). lia.
  - apply (IH (start + pl_bytes x)); [done|lia].
Qed.

Lemma contiguous_within start l stop : contiguous start l stop → Forall (λ x, start ≤ pl_offset x ∧ 0 ≤ pl_bytes x ∧ pl_offset x + pl_bytes x ≤ stop) l.
Proof.
  revert start. induction l as [|x l IH]; intros start Hc; [constructor|]. destruct Hc as (Ho & Hb & Hc).
  pose proof (contiguous_le _ _ _ Hc). constructor; [lia|]. eapply Forall_impl; [by apply IH|]. cbn. lia.
Qed.

(** The placements of a file, in whatever order, place each of its bytes once. *)
Definition places_once (n : Z) (l : list placement) : Prop :=
  l ≠ [] ∧ Forall (λ x, 0 ≤ pl_offset x ∧ 0 ≤ pl_bytes x ∧ pl_offset x + pl_bytes x ≤ n) l ∧
  ∀ i, 0 ≤ i < n → ∃ x, holders i l = [x].

Lemma contiguous_places_once n l : l ≠ [] → contiguous 0 (merge_sort placement_le l) n → places_once n l.
Proof.
  intros Hne Hc. pose proof (merge_sort_Permutation placement_le l) as Hp. split; [done|]. split.
  - rewrite <- Hp. by apply contiguous_within in Hc.
  - intros i Hi. destruct (contiguous_holders _ _ _ _ Hc Hi) as [x Hx]. exists x.
    assert (holders i l ≡ₚ [x]) as Hperm by (rewrite <- Hx; unfold holders; by rewrite Hp).
    by apply Permutation_singleton_r in Hperm.
Qed.

(** ** What the loops collect *)

Section loop.
Context {A : Type} (step : coverage_map → A → result coverage_map).
Context (P : A → Prop) (key : A → pystr) (val : A → placement).
Context (Hstep : ∀ coverage x coverage', step coverage x = Ok coverage' ↔
  P x ∧ coverage' = add_placement (key x) (val x) coverage).

Definition add_all (coverage : coverage_map) (l : list A) : coverage_map :=
  foldl (λ c x, add_placement (key x) (val x) c) coverage l.

Lemma coverage_loop coverage l coverage' :
  foldM step coverage l = Ok coverage' ↔ Forall P l ∧ coverage' = add_all coverage l.
Proof.
  revert coverage. induction l as [|x l IH]; intros coverage; cbn [foldM].
  - split; [by intros [= <-]|]. by intros [_ ->].
  - rewrite bind_Ok, Forall_cons. setoid_rewrite Hstep. split.
    + intros (c & [Hx ->] & Hl). apply IH in Hl as [Hl ->]. done.
    + intros [[Hx Hl] ->]. eexists. split; [done|]. by apply IH.
Qed.

Lemma lookup_add_all coverage l p :
  add_all coverage l !! p = (λ a, a ++ (val <$> filter (λ x, key x = p) l)) <$> coverage !! p.
Proof.
  revert coverage. induction l as [|x l IH]; intros coverage.
  - cbn. destruct (coverage !! p); cbn; [by rewrite app_nil_r|done].
  - cbn [add_all foldl]. fold (add_all (add_placement (key x) (val x) coverage) l). rewrite IH.
    unfold add_placement. rewrite filter_cons. destruct (decide (key x = p)) as [->|Hne].
    + rewrite lookup_alter_eq. destruct (coverage !! p); cbn; [|done]. by rewrite <- app_assoc.
    + by rewrite lookup_alter_ne.
Qed.
End loop.

(** The members of all packs, with the id of their volume. *)
Definition pack_entries (packs : list PackVolumePlan) : list (pystr * PackMemberPlan) :=
  concat ((λ v, (λ m, (pv_volume_id v, m)) <$> pv_members v) <$> packs).

Lemma lookup_expected files p f : NoDup (af_path <$> files) →
  expected_by_path files !! p = Some f ↔ f ∈ files ∧ af_path f = p.
Proof.
  unfold expected_by_path. intros Hnd.
  assert (∀ m : gmap pystr ArchiveFile, foldl (λ m f, <[af_path f := f]> m) m files !! p = Some f ↔
    (f ∈ files ∧ af_path f = p) ∨ (m !! p = Some f ∧ p ∉ af_path <$> files)) as Hgen.
  { revert Hnd. induction files as [|g files IH]; intros Hnd m; cbn [foldl].
    - set_solver.
    - rewrite fmap_cons in Hnd. apply NoDup_cons in Hnd as [Hg Hnd]. rewrite (IH Hnd), fmap_cons, !elem_of_cons.
      assert (f ∈ files → af_path f ∈ af_path <$> files) as Hin by (intros; by apply list_elem_of_fmap_2).
      destruct (decide (af_path g = p)) as [<-|Hne].
      + rewrite lookup_insert_eq. naive_solver.
      + rewrite lookup_insert_ne by done. naive_solver. }
  rewrite Hgen, lookup_empty. naive_solver.
Qed.

Lemma lookup_empty_coverage files p : p ∈ af_path <$> files → empty_coverage files !! p = Some [].
Proof.
  unfold empty_coverage. assert (∀ m : coverage_map, (p ∈ af_path <$> files ∨ m !! p = Some []) →
    foldl (λ m f, <[af_path f := []]> m) m files !! p = Some []) as Hgen; [|by auto].
  induction files as [|g files IH]; intros m Hp; cbn [foldl]; [by destruct Hp as [?%elem_of_nil|]|].
  apply IH. destruct (decide (af_path g = p)) as [<-|Hne]; [right; by rewrite lookup_insert_eq|].
  rewrite lookup_insert_ne by done. rewrite fmap_cons, elem_of_cons in Hp. naive_solver.
Qed.

Section archive_plan.
Context `{PyEnv}.

(** A volume agrees with the collection about the file it holds. *)
Definition member_ok (files : list ArchiveFile) (entry : pystr * PackMemberPlan) : Prop :=
  ∃ f, f ∈ files ∧ af_path f = pm_path entry.2 ∧ af_bytes f = pm_bytes entry.2 ∧ af_sha256 f = pm_sha256 entry.2.

Definition member_placement (entry : pystr * PackMemberPlan) : placement := (0, pm_bytes entry.2, entry.1).

(** The collection path of a raw volume. *)
Definition raw_path (r : RawVolumeEntry) : pystr :=
  match normalize_relpath (re_source_path r) with Ok path => path | Err _ => [] end.

Definition raw_ok (files : list ArchiveFile) (r : RawVolumeEntry) : Prop :=
  normalize_relpath (re_source_path r) = Ok (raw_path r) ∧
  ∃ f, f ∈ files ∧ af_path f = raw_path r ∧ af_bytes f = re_file_bytes r ∧ af_sha256 f = re_file_sha256 r ∧
    0 ≤ re_file_offset r ∧ 0 ≤ re_plaintext_bytes r ∧ re_file_offset r + re_plaintext_bytes r ≤ af_bytes f.

Definition raw_placement (r : RawVolumeEntry) : placement :=
  (re_file_offset r, re_plaintext_bytes r, re_volume_id r).

(** Where the volumes place the file at a path. *)
Definition placements (packs : list PackVolumePlan) (raws : list RawVolumeEntry) (path : pystr) : list placement :=
  (member_placement <$> filter (λ e, pm_path e.2 = path) (pack_entries packs)) ++
  (raw_placement <$> filter (λ r, raw_path r = path) raws).

Lemma member_step_iff files coverage id m coverage' : NoDup (af_path <$> files) →
  member_step (expected_by_path files) id coverage m = Ok coverage' ↔
  member_ok files (id, m) ∧ coverage' = add_placement (pm_path m) (member_placement (id, m)) coverage.
Proof.
  intros Hnd. unfold member_step, member_ok, member_placement. cbn [fst snd]. split.
  - destruct (expected_by_path files !! pm_path m) as [f|] eqn:Hf; [|done].
    apply lookup_expected in Hf as [Hin Hp]; [|done]. intros Hs. inv_ok Hs. bool_prop. subst.
    split; [|done]. exists f. split_and!; try done. lia.
  - intros [(f & Hf & Hp & Hb & Hsha) ->]. rewrite (proj2 (lookup_expected files _ f Hnd)) by done.
    by rewrite Hb, Hsha, Z.eqb_refl, bool_decide_true.
Qed.

Lemma raw_step_iff files coverage r coverage' : NoDup (af_path <$> files) →
  raw_step (expected_by_path files) coverage r = Ok coverage' ↔
  raw_ok files r ∧ coverage' = add_placement (raw_path r) (raw_placement r) coverage.
Proof.
  intros Hnd. unfold raw_step, raw_ok, raw_path, raw_placement.
  destruct (normalize_relpath (re_source_path r)) as [path|e]; [|split; [done|by intros [[? _] _]]]. rewrite ok_bind. split.
  - destruct (expected_by_path files !! path) as [f|] eqn:Hf; [|done].
    apply lookup_expected in Hf as [Hin Hp]; [|done]. intros Hs. inv_ok Hs. bool_prop. subst.
    split; [|done]. split; [done|]. exists f. split_and!; try done; lia.
  - intros [(_ & f & Hf & Hp & Hb & Hsha & Ho & Hn & Hend) ->]. rewrite (proj2 (lookup_expected files _ f Hnd)) by done.
    rewrite (proj2 (Z.ltb_ge _ 0) Ho), (proj2 (Z.ltb_ge _ 0) Hn), Hb, Hsha, Z.eqb_refl, bool_decide_true by done.
    cbn [negb orb]. by rewrite (proj2 (Z.ltb_ge _ _)) by lia.
Qed.

Lemma pack_loop expected coverage packs :
  foldM (pack_step expected) coverage packs =
  foldM (λ c e, member_step expected e.1 c e.2) coverage (pack_entries packs).
Proof.
  revert coverage. induction packs as [|v packs IH]; intros coverage; [done|].
  unfold pack_entries. rewrite fmap_cons. cbn [concat foldM]. rewrite foldM_app, foldM_fmap. cbn [fst snd].
  fold (pack_entries packs).
  change (pack_step expected coverage v) with (foldM (member_step expected (pv_volume_id v)) coverage (pv_members v)).
  by destruct (foldM (member_step expected (pv_volume_id v)) coverage (pv_members v)); cbn; [apply IH|].
Qed.

(** Both normalisations of the code accept the same files. *)
Lemma tree_file_step_iff st f st' : tree_file_step st f = Ok st' ↔ collection_file_step st f = Ok st'.
Proof.
  destruct st as [seen out]. unfold tree_file_step, collection_file_step.
  destruct (normalize_relpath (af_path f)) as [path|]; [|done]. cbn [mbind result_bind].
  destruct (startswith _ _); [done|]. destruct (bool_decide (path ∈ seen)); [done|]. cbn [orb].
  by destruct ((af_bytes f <? 0) || negb (sha256_fullmatch (af_sha256 f))).
Qed.

Lemma tree_files_iff files normalized :
  _normalized_tree_files files = Ok normalized ↔ _normalized_collection_files files = Ok normalized.
Proof.
  assert (∀ st st', foldM tree_file_step st files = Ok st' ↔ foldM collection_file_step st files = Ok st') as Hloop.
  { induction files as [|f files IH]; intros st st'; [done|]. cbn [foldM]. rewrite !bind_Ok.
    setoid_rewrite tree_file_step_iff. by setoid_rewrite IH. }
  unfold _normalized_tree_files, _normalized_collection_files. rewrite !bind_Ok. setoid_rewrite Hloop.
  split; intros ([seen out] & Hl & Hn); exists (seen, out); (split; [done|]); by destruct out.
Qed.

Lemma tree_files_nodup files normalized : _normalized_tree_files files = Ok normalized → NoDup (af_path <$> normalized).
Proof. intros Hn%tree_files_iff. apply collection_files_spec in Hn as [[_ Hnd] _]. done. Qed.
(** The placements of a file, sorted, run from its first to its last byte. *)
Definition covered (packs : list PackVolumePlan) (raws : list RawVolumeEntry) (f : ArchiveFile) : Prop :=
  placements packs raws (af_path f) ≠ [] ∧
  contiguous 0 (merge_sort placement_le (placements packs raws (af_path f))) (af_bytes f).

Lemma coverage_step_iff coverage l f : coverage !! af_path f = Some l →
  coverage_step coverage tt f = Ok tt ↔ l ≠ [] ∧ contiguous 0 (merge_sort placement_le l) (af_bytes f).
Proof.
  intros Hl. unfold coverage_step. rewrite Hl. cbv zeta. pose proof (merge_sort_Permutation placement_le l) as Hp.
  destruct (bool_decide_reflect (merge_sort placement_le l = [])) as [He|Hne].
  - rewrite He in Hp. apply Permutation_nil_l in Hp as <-. naive_solver.
  - assert (l ≠ []) as Hl' by (intros ->; by apply Permutation_nil_r in Hp). rewrite bind_Ok. setoid_rewrite range_loop_contiguous.
    split.
    + intros (stop & Hc & Hs). destruct (Z.eqb_spec stop (af_bytes f)) as [<-|]; [done|done].
    + intros [_ Hc]. exists (af_bytes f). by rewrite Z.eqb_refl.
Qed.

Lemma file_coverage_iff files coverage (pl : pystr → list placement) :
  (∀ f, f ∈ files → coverage !! af_path f = Some (pl (af_path f))) →
  _validate_file_coverage files coverage = Ok tt ↔
  Forall (λ f, pl (af_path f) ≠ [] ∧ contiguous 0 (merge_sort placement_le (pl (af_path f))) (af_bytes f)) files.
Proof.
  unfold _validate_file_coverage. induction files as [|f files IH]; intros Hc; cbn [foldM].
  - split; [constructor|done].
  - rewrite Forall_cons, <- (coverage_step_iff coverage _ f) by (apply Hc; by left).
    rewrite <- IH by (intros g Hg; apply Hc; by right). rewrite bind_Ok. split; [by intros ([] & ? & ?)|].
    intros [? ?]. by exists tt.
Qed.

(** The coverage after both loops. *)
Definition collected (files : list ArchiveFile) (packs : list PackVolumePlan) (raws : list RawVolumeEntry) :
    coverage_map :=
  add_all raw_path raw_placement
    (add_all (λ e, pm_path e.2) member_placement (empty_coverage files) (pack_entries packs)) raws.

Lemma lookup_collected files packs raws f : f ∈ files →
  collected files packs raws !! af_path f = Some (placements packs raws (af_path f)).
Proof.
  intros Hf. unfold collected. rewrite !lookup_add_all, lookup_empty_coverage by by apply list_elem_of_fmap_2.
  done.
Qed.

Lemma loops_iff files packs raws coverage : NoDup (af_path <$> files) →
  (c ← foldM (pack_step (expected_by_path files)) (empty_coverage files) packs;
   foldM (raw_step (expected_by_path files)) c raws) = Ok coverage ↔
  Forall (member_ok files) (pack_entries packs) ∧ Forall (raw_ok files) raws ∧ coverage = collected files packs raws.
Proof.
  intros Hnd. rewrite bind_Ok, pack_loop.
  setoid_rewrite (coverage_loop _ (member_ok files) (λ e, pm_path e.2) member_placement
    (λ c e c', member_step_iff files c e.1 e.2 c' Hnd)).
  setoid_rewrite (coverage_loop _ (raw_ok files) raw_path raw_placement (λ c r c', raw_step_iff files c r c' Hnd)).
  unfold collected. naive_solver.
Qed.

Lemma validate_iff files packs raws normalized :
  validate_collection_archive_plan files packs raws = Ok normalized ↔
  _normalized_tree_files files = Ok normalized ∧
  (let sequences := (pv_sequence <$> packs) ++ (re_sequence <$> raws) in
   merge_sort Z.le sequences = rangeZ 0 (len sequences)) ∧
  NoDup ((pv_volume_id <$> packs) ++ (re_volume_id <$> raws)) ∧
  Forall (member_ok normalized) (pack_entries packs) ∧ Forall (raw_ok normalized) raws ∧
  Forall (covered packs raws) normalized.
Proof.
  unfold validate_collection_archive_plan. cbv zeta. destruct (_normalized_tree_files files) as [n|] eqn:Hn; [|naive_solver].
  rewrite ok_bind. pose proof (tree_files_nodup _ _ Hn) as Hnd.
  destruct (bool_decide_reflect (merge_sort Z.le ((pv_sequence <$> packs) ++ (re_sequence <$> raws)) =
    rangeZ 0 (len ((pv_sequence <$> packs) ++ (re_sequence <$> raws))))); cbn [negb]; [|naive_solver].
  destruct (bool_decide_reflect (NoDup ((pv_volume_id <$> packs) ++ (re_volume_id <$> raws)))); cbn [negb]; [|naive_solver].
  split.
  - intros (c1 & H1 & Hv)%bind_Ok. apply bind_Ok in Hv as (c2 & H2 & Hv). apply bind_Ok in Hv as ([] & H3 & [= ->]).
    destruct (proj1 (loops_iff normalized packs raws c2 Hnd)) as (Hm & Hr & ->); [by rewrite H1, ok_bind|].
    split_and!; try done. by apply (file_coverage_iff _ _ _ (lookup_collected normalized packs raws)).
  - intros ([= ->] & _ & _ & Hm & Hr & Hc).
    pose proof (proj2 (loops_iff normalized packs raws _ Hnd) (conj Hm (conj Hr eq_refl))) as Hl.
    apply bind_Ok in Hl as (c1 & H1 & H2). rewrite H1, ok_bind, H2, ok_bind.
    by rewrite (proj2 (file_coverage_iff _ _ _ (lookup_collected normalized packs raws)) Hc).
Qed.

(** C19. Acceptance means that the volumes describe the collection exactly once: the
    volumes are numbered 0, 1, ... without gaps and have different ids, every pack
    member and raw volume agrees with a file of the collection about its size and
    digest, and each byte of each file lies in exactly one placement, none of which
    leaves its file. *)
Theorem accepted_plan_places_every_byte_once files packs raws normalized :
  validate_collection_archive_plan files packs raws = Ok normalized →
  _normalized_tree_files files = Ok normalized ∧
  (pv_sequence <$> packs) ++ (re_sequence <$> raws) ≡ₚ rangeZ 0 (len packs + len raws) ∧
  NoDup ((pv_volume_id <$> packs) ++ (re_volume_id <$> raws)) ∧
  Forall (member_ok normalized) (pack_entries packs) ∧ Forall (raw_ok normalized) raws ∧
  Forall (λ f, places_once (af_bytes f) (placements packs raws (af_path f))) normalized.
Proof.
  intros (Hn & Hs & Hid & Hm & Hr & Hc)%validate_iff. split_and!; try done.
  - cbv zeta in Hs. rewrite len_app, !len_fmap in Hs. rewrite <- Hs. by rewrite merge_sort_Permutation.
  - eapply Forall_impl; [exact Hc|]. intros f [Hne Hcont]. by apply contiguous_places_once.
Qed.
End archive_plan.

(** ** The planner's volumes *)

Lemma merge_sort_sorted {A} (R : relation A) `{!RelDecision R, !Transitive R, !Total R, !AntiSymm (=) R} l :
  StronglySorted R l → merge_sort R l = l.
Proof.
  intros Hs. apply (StronglySorted_unique R); [by apply StronglySorted_merge_sort|done|apply merge_sort_Permutation].
Qed.

(** The number is in the id. *)
Lemma contiguous_sorted start l stop : contiguous start l stop → Forall (λ x, 0 < pl_bytes x) l →
  StronglySorted placement_le l.
Proof.
  revert start. induction l as [|x l IH]; intros start Hc Hb; [constructor|]. destruct Hc as (Ho & _ & Hc).
  apply Forall_cons in Hb as [Hx Hb]. constructor; [by eapply IH|].
  eapply Forall_impl; [by eapply contiguous_within|]. intros y (Hy & _). destruct x as [[o c] v], y as [[o' c'] v'].
  unfold placement_le, placement_leb, pl_offset, pl_bytes in *. cbn [fst snd] in *.
  rewrite (proj2 (Z.ltb_lt o o')) by lia. done.
Qed.

Section planner.
Context `{PyEnv}.

Definition own_id (v : PackVolumePlan) : Prop := pv_volume_id v = pack_volume_id (pv_sequence v).

Lemma layout_id normalized sequence max part plan :
  layout_pack_volume normalized sequence max part = Ok plan → own_id plan.
Proof.
  unfold layout_pack_volume. intros (? & _ & Hl)%bind_Ok.
  apply bind_Ok in Hl as (? & _ & Hl). apply bind_Ok in Hl as (? & _ & Hl).
  apply bind_Ok in Hl as (? & _ & Hl). by injection Hl as <-.
Qed.

Lemma flush_pending_ids max part st st' : flush_pending max part st = Ok st' →
  Forall own_id (vs_volumes st) → Forall own_id (vs_volumes st').
Proof.
  unfold flush_pending. intros (v & Hv & [= <-])%bind_Ok Hs. cbn [vs_volumes].
  apply plan_pack_volume_inv in Hv as (normalized & _ & _ & _ & _ & _ & Hl%layout_id).
  apply Forall_app. split; [done|]. by constructor.
Qed.

Lemma plan_packs_ids policy files packs : plan_packs policy files = Ok packs → Forall own_id packs.
Proof.
  unfold plan_packs. destruct files as [|f files]; [by intros [= <-]|].
  unfold plan_pack_volumes. intros (normalized & _ & Hp)%bind_Ok.
  destruct (cp_pack_source_bytes policy <=? 0); [done|]. destruct (cp_pack_files policy <=? 0); [done|].
  apply bind_Ok in Hp as (st & Hloop & Hp). apply bind_Ok in Hp as (st' & Hflush & [= <-]).
  apply (foldM_inv _ (λ st, Forall own_id (vs_volumes st))) in Hloop; [|constructor|].
  - destruct (has_pending st); [by eapply flush_pending_ids|by injection Hflush as <-].
  - intros s g s' _ Hs (s1 & Hs1 & [= <-])%bind_Ok. cbn [vs_volumes].
    destruct (_ && _); [by eapply flush_pending_ids|by injection Hs1 as <-].
Qed.

(** What every raw volume of a group says of its file. *)
Definition raw_of (f : ArchiveFile) (p : RawVolumePlan) : Prop :=
  rv_source_path p = af_path f ∧ rv_file_bytes p = af_bytes f ∧ rv_file_sha256 p = af_sha256 f ∧
  rv_volume_id p = segment_volume_id (rv_sequence p).

Definition planned_placements (plans : list RawVolumePlan) : list placement :=
  (λ p, (rv_file_offset p, rv_plaintext_bytes p, rv_volume_id p)) <$> plans.

Lemma tiles_contiguous sequence max f offset plans : tiles sequence max (af_path f) f offset plans →
  Forall (raw_of f) plans ∧ Forall (λ x, 0 < pl_bytes x) (planned_placements plans) ∧
  contiguous offset (planned_placements plans) (af_bytes f).
Proof.
  revert sequence offset. induction plans as [|p plans IH]; intros sequence offset; cbn [tiles].
  - intros ->. by split_and!.
  - intros (Hid & Hs & Hp & Ho & Hb & Hsha & Hn & _ & Ht). destruct (IH _ _ Ht) as (Hall & Hpos & Hc).
    unfold planned_placements. rewrite fmap_cons. split_and!.
    + constructor; [|done]. unfold raw_of. by rewrite Hs.
    + constructor; [|done]. unfold pl_bytes. cbn. lia.
    + cbn [contiguous]. unfold pl_offset, pl_bytes. cbn [fst snd]. split_and!; [done|lia|done].
Qed.

Lemma file_volumes_contiguous max sequence f own : file_volumes max sequence f own →
  own ≠ [] ∧ Forall (raw_of f) own ∧ StronglySorted placement_le (planned_placements own) ∧
  contiguous 0 (planned_placements own) (af_bytes f).
Proof.
  unfold file_volumes. destruct (Z.eqb_spec (af_bytes f) 0) as [Hz|_].
  - intros ->. split_and!; [done| | |].
    + constructor; [|constructor]. by split_and!; cbn.
    + by repeat constructor.
    + cbn. by rewrite Hz.
  - intros [Hne Ht]. apply tiles_contiguous in Ht as (Hall & Hpos & Hc). split_and!; try done. by eapply contiguous_sorted.
Qed.

Definition inside (f : ArchiveFile) (p : RawVolumePlan) : Prop :=
  0 ≤ rv_file_offset p ∧ 0 ≤ rv_plaintext_bytes p ∧ rv_file_offset p + rv_plaintext_bytes p ≤ af_bytes f.

Lemma groups_raw_of max sequence files plans : groups max sequence files plans →
  Forall (λ p, ∃ f, f ∈ files ∧ raw_of f p ∧ inside f p) plans.
Proof.
  revert sequence plans. induction files as [|f files IH]; intros sequence plans; cbn [groups]; [by intros ->|].
  intros (own & rest & -> & Hown%file_volumes_contiguous & Hrest%IH). apply Forall_app. split.
  - destruct Hown as (_ & Hall & _ & Hc%contiguous_within). unfold planned_placements in Hc. rewrite Forall_fmap in Hc.
    rewrite Forall_forall in *. intros p Hp. exists f. split; [by left|]. split; [by apply Hall|]. by apply Hc.
  - eapply Forall_impl; [exact Hrest|]. intros p (g & Hg & Hp). exists g. split; [by right|done].
Qed.

(** The volumes at a file's path are the file's own group. *)
Lemma groups_own max sequence files plans f : groups max sequence files plans → NoDup (af_path <$> files) → f ∈ files →
  ∃ s own, filter (λ p, rv_source_path p = af_path f) plans = own ∧ file_volumes max s f own.
Proof.
  revert sequence plans. induction files as [|g files IH]; intros sequence plans Hg Hnd Hf; [by apply elem_of_nil in Hf|].
  cbn [groups] in Hg. destruct Hg as (own & rest & -> & Hown & Hrest). rewrite fmap_cons in Hnd.
  apply NoDup_cons in Hnd as [Hnin Hnd]. destruct (file_volumes_contiguous _ _ _ _ Hown) as (_ & Hall & _).
  pose proof (groups_raw_of _ _ _ _ Hrest) as Hothers.
  apply elem_of_cons in Hf as [->|Hf].
  - exists sequence, own. split; [|done]. rewrite filter_app, (filter_all _ own), (filter_none _ rest);
      [by rewrite app_nil_r| |].
    + eapply Forall_impl; [exact Hothers|]. intros p (h & Hh & [Hp _] & _) He. apply Hnin. rewrite <- He, Hp.
      by apply list_elem_of_fmap_2.
    + eapply Forall_impl; [exact Hall|]. by intros p [Hp _].
  - destruct (IH _ _ Hrest Hnd Hf) as (s & own' & <- & Hs). eexists s, _. split; [reflexivity|].
    rewrite filter_app, (filter_none _ own); [done|]. eapply Forall_impl; [exact Hall|].
    intros p [Hp _] He. apply Hnin. rewrite <- Hp, He. by apply list_elem_of_fmap_2.
Qed.
Lemma entries_files packs : (λ e, member_file e.2) <$> pack_entries packs = concat (volume_files <$> packs).
Proof.
  induction packs as [|v packs IH]; [done|]. unfold pack_entries in *. rewrite !fmap_cons. cbn [concat].
  rewrite fmap_app, IH, <- list_fmap_compose. done.
Qed.

Lemma path_unique files f g : NoDup (af_path <$> files) → f ∈ files → g ∈ files → af_path f = af_path g → f = g.
Proof.
  intros Hnd Hf Hg Heq. pose proof (proj2 (lookup_expected files (af_path g) f Hnd) (conj Hf Heq)).
  pose proof (proj2 (lookup_expected files (af_path g) g Hnd) (conj Hg eq_refl)). congruence.
Qed.

Lemma filter_unique {A} (k : A → pystr) l x : NoDup (k <$> l) → x ∈ l → filter (λ y, k y = k x) l = [x].
Proof.
  induction l as [|y l IH]; intros Hnd Hx; [by apply elem_of_nil in Hx|]. rewrite fmap_cons in Hnd.
  apply NoDup_cons in Hnd as [Hy Hnd]. rewrite filter_cons. apply elem_of_cons in Hx as [->|Hx].
  - rewrite decide_True, filter_none; [done| |done]. apply Forall_forall. intros z Hz He. apply Hy. rewrite <- He.
    by apply list_elem_of_fmap_2.
  - rewrite decide_False by (intros He; apply Hy; rewrite He; by apply list_elem_of_fmap_2). by apply IH.
Qed.

Lemma planned_filter raws path : Forall (λ p, raw_path (RawPlanned p) = rv_source_path p) raws →
  raw_placement <$> filter (λ r, raw_path r = path) (RawPlanned <$> raws) =
  planned_placements (filter (λ p, rv_source_path p = path) raws).
Proof.
  induction 1 as [|p raws Hp Hraws IH]; [done|]. rewrite fmap_cons, !filter_cons, Hp.
  destruct (decide (rv_source_path p = path)); [|done]. unfold planned_placements. rewrite !fmap_cons. by rewrite IH.
Qed.

(** A plan over stable paths: what [plan_collection_volumes] produces. *)
Record planned (files : list ArchiveFile) (packs : list PackVolumePlan) (raws : list RawVolumePlan)
    (is_raw : ArchiveFile → bool) (limit : Z) : Prop := {
  pd_unique : NoDup (af_path <$> files);
  pd_stable : Forall (λ f, normalize_relpath (af_path f) = Ok (af_path f)) files;
  pd_nonneg : Forall (λ f, 0 ≤ af_bytes f) files;
  pd_packed : concat (volume_files <$> packs) = List.filter (λ f, negb (is_raw f)) files;
  pd_raw : groups limit (len packs) (List.filter is_raw files) raws;
}.

Lemma elem_of_Lfilter {A} (P : A → bool) l x : x ∈ List.filter P l ↔ x ∈ l ∧ P x = true.
Proof. by rewrite list_elem_of_In, filter_In, <- list_elem_of_In. Qed.

Lemma nodup_Lfilter (P : ArchiveFile → bool) files : NoDup (af_path <$> files) → NoDup (af_path <$> List.filter P files).
Proof.
  induction files as [|f files IH]; [done|]. rewrite fmap_cons. intros [Hf Hnd]%NoDup_cons. cbn [List.filter].
  destruct (P f); [|by apply IH]. rewrite fmap_cons. apply NoDup_cons. split; [|by apply IH].
  intros (g & Hg & [Hin _]%elem_of_Lfilter)%list_elem_of_fmap. apply Hf. rewrite Hg. by apply list_elem_of_fmap_2.
Qed.

Section facts.
Context {files packs raws is_raw limit} (Hpl : planned files packs raws is_raw limit).

Lemma planned_member e : e ∈ pack_entries packs → member_file e.2 ∈ files ∧ is_raw (member_file e.2) = false.
Proof.
  intros He. assert (member_file e.2 ∈ List.filter (λ f, negb (is_raw f)) files) as Hin.
  { rewrite <- (pd_packed _ _ _ _ _ Hpl), <- entries_files. by apply (list_elem_of_fmap_2 (λ e, member_file e.2)). }
  apply elem_of_Lfilter in Hin as [? ?%negb_true_iff]. done.
Qed.

Lemma planned_raw_paths : Forall (λ p, raw_path (RawPlanned p) = rv_source_path p ∧
  ∃ f, f ∈ files ∧ is_raw f = true ∧ raw_of f p ∧ inside f p) raws.
Proof.
  eapply Forall_impl; [apply (groups_raw_of _ _ _ _ (pd_raw _ _ _ _ _ Hpl))|].
  intros p (f & [Hf Hr]%elem_of_Lfilter & Hraw & Hin). split; [|by exists f]. destruct Hraw as [Hp _].
  pose proof (pd_stable _ _ _ _ _ Hpl) as Hst. rewrite Forall_forall in Hst. unfold raw_path. cbn [re_source_path].
  by rewrite Hp, (Hst f Hf).
Qed.

Lemma planned_members_ok : Forall (member_ok files) (pack_entries packs).
Proof.
  apply Forall_forall. intros e [He _]%planned_member. by exists (member_file e.2).
Qed.

Lemma planned_raws_ok : Forall (raw_ok files) (RawPlanned <$> raws).
Proof.
  apply Forall_fmap. eapply Forall_impl; [apply planned_raw_paths|]. intros p (Hp & f & Hf & _ & (Hs & Hb & Hsha & _) & Hin).
  pose proof (pd_stable _ _ _ _ _ Hpl) as Hst. rewrite Forall_forall in Hst. cbn. split.
  - rewrite Hp. cbn [re_source_path]. rewrite Hs. by apply Hst.
  - exists f. rewrite Hp, Hs. destruct Hin as (? & ? & ?). by split_and!.
Qed.

Lemma planned_covered_packed f : f ∈ files → is_raw f = false → covered packs (RawPlanned <$> raws) f.
Proof.
  intros Hf Hr. pose proof (pd_unique _ _ _ _ _ Hpl) as Hnd.
  assert (f ∈ (λ e, member_file e.2) <$> pack_entries packs) as Hin.
  { rewrite entries_files, (pd_packed _ _ _ _ _ Hpl). apply elem_of_Lfilter. by rewrite Hr. }
  apply list_elem_of_fmap in Hin as (e & -> & He).
  assert (filter (λ e', pm_path e'.2 = pm_path e.2) (pack_entries packs) = [e]) as Hown.
  { apply (filter_unique (λ e, pm_path e.2)); [|done].
    assert ((λ e, pm_path e.2) <$> pack_entries packs = af_path <$> List.filter (λ f, negb (is_raw f)) files) as ->
      by by rewrite <- (pd_packed _ _ _ _ _ Hpl), <- entries_files, <- list_fmap_compose.
    by apply nodup_Lfilter. }
  unfold covered, placements. cbn [af_path member_file]. rewrite Hown, planned_filter, filter_none.
  - split; [done|]. change (contiguous 0 (merge_sort placement_le [member_placement e]) (pm_bytes e.2)).
    rewrite (merge_sort_sorted placement_le [member_placement e]) by (repeat constructor). pose proof (pd_nonneg _ _ _ _ _ Hpl) as Hnn.
    rewrite Forall_forall in Hnn. by split_and!; [|apply (Hnn _ Hf)|].
  - eapply Forall_impl; [apply planned_raw_paths|]. intros p (_ & g & Hg & Hgr & (Hs & _) & _) Heq.
    rewrite Hs in Heq. assert (g = member_file e.2) as -> by by apply (path_unique files). congruence.
  - eapply Forall_impl; [apply planned_raw_paths|]. by intros p [? _].
Qed.

Lemma planned_covered_raw f : f ∈ files → is_raw f = true → covered packs (RawPlanned <$> raws) f.
Proof.
  intros Hf Hr. pose proof (pd_unique _ _ _ _ _ Hpl) as Hnd.
  destruct (groups_own _ _ _ _ f (pd_raw _ _ _ _ _ Hpl)) as (s & own & Hown & Hvol).
  { by apply nodup_Lfilter. }
  { by apply elem_of_Lfilter. }
  apply file_volumes_contiguous in Hvol as (Hne & _ & Hsorted & Hc).
  unfold covered, placements. rewrite (filter_none _ (pack_entries packs)), planned_filter, Hown.
  - change ((member_placement <$> []) ++ ?l) with l. rewrite (merge_sort_sorted placement_le _ Hsorted).
    split; [|done]. by destruct own.
  - eapply Forall_impl; [apply planned_raw_paths|]. by intros p [? _].
  - apply Forall_forall. intros e [Hin Hre]%planned_member Heq.
    assert (member_file e.2 = f) as He by by apply (path_unique files). congruence.
Qed.
End facts.
Lemma ids_of_sequences {A} (id : A → pystr) (seq : A → Z) (mk : Z → pystr) l :
  (∀ n m, 0 ≤ n → 0 ≤ m → mk n = mk m → n = m) → Forall (λ x, id x = mk (seq x) ∧ 0 ≤ seq x) l → NoDup (seq <$> l) →
  NoDup (id <$> l).
Proof.
  intros Hinj. induction 1 as [|x l [Hx Hx0] Hl IH]; [intros _; constructor|]. rewrite !fmap_cons. intros [Hn Hnd]%NoDup_cons.
  apply NoDup_cons. split; [|by apply IH]. intros (y & Hy & Hin)%list_elem_of_fmap. apply Hn.
  rewrite Forall_forall in Hl. destruct (Hl y Hin) as [Hid Hy0]. rewrite Hx, Hid in Hy.
  rewrite (Hinj _ _ Hx0 Hy0 Hy). by apply list_elem_of_fmap_2.
Qed.

Lemma planned_ids packs raws n : Forall own_id packs →
  Forall (λ p, rv_volume_id p = segment_volume_id (rv_sequence p)) raws →
  (pv_sequence <$> packs) ++ (rv_sequence <$> raws) = rangeZ 0 n →
  NoDup ((pv_volume_id <$> packs) ++ (rv_volume_id <$> raws)).
Proof.
  intros Hp Hr Hseq. assert (NoDup ((pv_sequence <$> packs) ++ (rv_sequence <$> raws))) as Hnd
    by (rewrite Hseq; apply NoDup_seqZ).
  assert (Forall (λ z, 0 ≤ z) ((pv_sequence <$> packs) ++ (rv_sequence <$> raws))) as H0.
  { rewrite Hseq. apply Forall_forall. intros z Hz%elem_of_seqZ. lia. }
  apply NoDup_app in Hnd as (Hnd1 & _ & Hnd2). apply Forall_app in H0 as [H1 H2]. rewrite Forall_fmap in H1. rewrite Forall_fmap in H2.
  apply NoDup_app. split_and!.
  - apply (ids_of_sequences _ pv_sequence pack_volume_id); [|by apply Forall_and|done].
    intros a b Ha Hb He. apply app_inv_head in He. by apply padded_inj.
  - intros id (v & -> & Hv)%list_elem_of_fmap (p & He & Hin)%list_elem_of_fmap.
    rewrite Forall_forall in Hp. rewrite Forall_forall in Hr. rewrite (Hp v Hv), (Hr p Hin) in He. discriminate He.
  - apply (ids_of_sequences _ rv_sequence segment_volume_id); [|by apply Forall_and|done].
    intros a b Ha Hb He. apply app_inv_head in He. by apply padded_inj.
Qed.

Lemma collection_planned files policy plan : plan_collection_volumes files policy = Ok plan →
  Forall (λ f, normalize_relpath (af_path f) = Ok (af_path f)) (cv_files plan) →
  planned (cv_files plan) (cv_packs plan) (cv_raw_volumes plan) (λ f, negb (is_packed (cv_policy plan) f))
    (cp_raw_volume_plaintext_bytes (cv_policy plan)).
Proof.
  intros (_ & Hn & Hp & Hr & _)%plan_collection_volumes_spec Hst.
  pose proof Hn as (Hs & _ & max & new & Hnew & Heq)%collection_files_spec.
  destruct (plan_packs_files _ _ _ Hp) as [Hfiles _];
    [by apply Forall_List_filter|apply sorted_filter, Hs|].
  split; try done.
  - apply Hs.
  - rewrite Heq, sorted_by_perm. eapply Forall2_Forall_r; [exact Hnew|]. apply Forall_forall.
    intros f _ f' (_ & _ & [? _] & _ & ->). done.
  - rewrite Hfiles. apply List.filter_ext. intros f. by rewrite negb_involutive.
  - by apply plan_raws_files; [|apply Forall_List_filter|apply sorted_filter, Hs].
Qed.

(** C18. The planner's volumes pass the check that precedes publication: whatever
    [plan_collection_volumes] returns for a collection with stable paths,
    [validate_collection_archive_plan] accepts it and returns the plan's files. *)
Theorem planned_collection_accepted files policy plan :
  plan_collection_volumes files policy = Ok plan →
  Forall (λ f, normalize_relpath (af_path f) = Ok (af_path f)) (cv_files plan) →
  validate_collection_archive_plan files (cv_packs plan) (RawPlanned <$> cv_raw_volumes plan) = Ok (cv_files plan).
Proof.
  intros Hplan Hst. pose proof (collection_planned _ _ _ Hplan Hst) as Hpl.
  apply plan_collection_volumes_spec in Hplan as (_ & Hn & Hp & Hr & _).
  pose proof (volume_sequences _ _ _ _ _ Hp Hr) as Hseq. apply validate_iff.
  rewrite <- !list_fmap_compose.
  change (re_sequence ∘ RawPlanned) with rv_sequence. change (re_volume_id ∘ RawPlanned) with rv_volume_id. split_and!.
  - by apply tree_files_iff.
  - cbv zeta. pose proof (rangeZ_sorted 0 (len (cv_packs plan) + len (cv_raw_volumes plan))) as Hsort.
    rewrite <- Hseq in Hsort. rewrite (merge_sort_sorted Z.le _ Hsort), len_app, !len_fmap. done.
  - eapply planned_ids; [by eapply plan_packs_ids| |exact Hseq].
    eapply Forall_impl; [apply (planned_raw_paths Hpl)|]. by intros p (_ & f & _ & _ & (_ & _ & _ & Hid) & _).
  - by apply (planned_members_ok Hpl).
  - by apply (planned_raws_ok Hpl).
  - apply Forall_forall. intros f Hf. destruct (is_packed (cv_policy plan) f) eqn:Hk.
    + apply (planned_covered_packed Hpl); [done|]. by rewrite Hk.
    + apply (planned_covered_raw Hpl); [done|]. by rewrite Hk.
Qed.
End planner.

Lemma planned_collection_accepted_witness : ∃ plan,
  @plan_collection_volumes ascii_env sample_collection (Some sample_policy) = Ok plan ∧
  @validate_collection_archive_plan ascii_env sample_collection (cv_packs plan) (RawPlanned <$> cv_raw_volumes plan)
    = Ok (cv_files plan).
Proof.
  destruct (@plan_collection_volumes ascii_env sample_collection (Some sample_policy)) as [plan|e] eqn:E;
    [|vm_compute in E; discriminate E].
  exists plan. split; [reflexivity|]. apply (@planned_collection_accepted ascii_env sample_collection (Some sample_policy) plan E).
  vm_compute in E. injection E as <-. cbn [cv_files].
  repeat (apply Forall_cons_2; [vm_compute; reflexivity|]). apply Forall_nil_2.
Defined.

(** Two volumes of one file, given in the wrong order. *)
Definition sample_raw (sequence offset bytes : Z) : RawVolumeEntry :=
  RawPlanned {| rv_volume_id := segment_volume_id sequence; rv_sequence := sequence; rv_source_path := str "raw.bin";
                rv_file_offset := offset; rv_plaintext_bytes := bytes; rv_file_bytes := 7; rv_file_sha256 := sha256_hex [9] |}.
Definition sample_raw_file : ArchiveFile := {| af_path := str "raw.bin"; af_bytes := 7; af_sha256 := sha256_hex [9] |}.

Lemma accepted_plan_places_every_byte_once_witness :
  @validate_collection_archive_plan ascii_env [sample_raw_file] [] [sample_raw 1 4 3; sample_raw 0 0 4] =
    Ok [sample_raw_file] ∧
  places_once 7 (@placements ascii_env [] [sample_raw 1 4 3; sample_raw 0 0 4] (str "raw.bin")).
Proof.
  assert (@validate_collection_archive_plan ascii_env [sample_raw_file] [] [sample_raw 1 4 3; sample_raw 0 0 4] =
    Ok [sample_raw_file]) as Hv by (vm_compute; reflexivity).
  split; [exact Hv|].
  destruct (@accepted_plan_places_every_byte_once ascii_env _ _ _ _ Hv) as (_ & _ & _ & _ & _ & Hall).
  exact (proj1 (Forall_singleton _ _) Hall).
Defined.
