(* ===== verification/IncrementalPlan.v ===== *)
(** * Incremental planning

    [riverhog_core/incremental_plan.py]: the planner that sees a collection's
    files in registration order, a batch at a time, and persists a checkpoint
    between batches; with [collection_content_identity_ordered] of
    [riverhog_protocol/manifest.py], whose digest the planner computes
    incrementally.  The theorems show that the split into batches does not
    matter, that the stream of volumes refines an abstract grouping of the
    files, and that the final identity is the public one. *)

From S2P Require Import Prelude Text Json Sha256 Paths Domain PackIngress Tar PackVolume RawVolume CollectionPlan.

Definition INCREMENTAL_VOLUME_PLANNER_CHECKPOINT_SCHEMA : pystr :=
  str "incremental-volume-planner-checkpoint/v1".

(** A string literal with double quotes written as single ones. *)
Definition quoted (s : string) : pystr := replace_char (chr "'") 34 (str s).

Definition _CONTENT_IDENTITY_PREFIX : pybytes := quoted "{'files':[".
Definition _CONTENT_IDENTITY_SUFFIX : pybytes := quoted "],'format':'riverhog-collection-content/v1'}".

Record OrderedArchiveFile := { of_order : Z; of_file : ArchiveFile }.

Record IncrementalVolumePlannerCheckpoint := {
  ck_policy : CollectionVolumePolicy;
  ck_content_hash_state : pystr;
  ck_next_file_order : Z;
  ck_next_sequence : Z;
  ck_files_seen : Z;
  ck_bytes_seen : Z;
  ck_pending_pack_files : list ArchiveFile;
  ck_closed : bool;
  ck_content_identity : option pystr;
}.

(** [PackVolumePlan | RawVolumePlan] *)
Inductive volume := PackVolume (v : PackVolumePlan) | RawVolume (v : RawVolumePlan).

Definition volume_sequence (v : volume) : Z :=
  match v with PackVolume p => pv_sequence p | RawVolume r => rv_sequence r end.

(** [sorted(volumes, key=lambda current: current.sequence)] *)
Fixpoint insert_volume (v : volume) (l : list volume) : list volume :=
  match l with
  | [] => [v]
  | w :: l' => if volume_sequence v <=? volume_sequence w then v :: w :: l' else w :: insert_volume v l'
  end.

Definition sort_volumes (l : list volume) : list volume := foldr insert_volume [] l.

Fixpoint packs_of (l : list volume) : list PackVolumePlan :=
  match l with [] => [] | PackVolume p :: l' => p :: packs_of l' | RawVolume _ :: l' => packs_of l' end.

Fixpoint raws_of (l : list volume) : list RawVolumePlan :=
  match l with [] => [] | RawVolume r :: l' => r :: raws_of l' | PackVolume _ :: l' => raws_of l' end.

Record IncrementalVolumePlanBatch := {
  bt_checkpoint : IncrementalVolumePlannerCheckpoint;
  bt_packs : list PackVolumePlan;
  bt_raw_volumes : list RawVolumePlan;
}.

Definition all_volumes (packs : list PackVolumePlan) (raws : list RawVolumePlan) : list volume :=
  (PackVolume <$> packs) ++ (RawVolume <$> raws).

Definition bt_volumes (b : IncrementalVolumePlanBatch) : list volume :=
  sort_volumes (all_volumes (bt_packs b) (bt_raw_volumes b)).

(** [f"{value:064x}"] for a 256-bit ordinal. *)
Definition format_archive_sequence (value : Z) : result pystr :=
  when value <? 0 raise ArchiveManifestError "archive sequence must be a non-negative integer";
  when 2 ^ 256 <=? value raise ArchiveManifestError "archive sequence exceeds the v1 representation";
  Ok (format_padded 16 64 value).

Section incremental.
Context `{PyEnv}.

Definition _normalized_file (file : ArchiveFile) : result ArchiveFile :=
  path ← normalize_relpath (af_path file);
  when startswith RESERVED_ARCHIVE_PREFIX path
    raise ValueError "incremental planner file uses the reserved archive namespace";
  when (af_bytes file <? 0) || negb (sha256_fullmatch (af_sha256 file))
    raise ValueError "incremental planner file identity is invalid";
  Ok (set_path file path).

(** ** The checkpoint *)

Definition pending_step (policy : CollectionVolumePolicy) (st : list pystr * Z) (current : ArchiveFile) :
    result (list pystr * Z) :=
  let '(seen, pending_bytes) := st in
  normalized ← _normalized_file current;
  when bool_decide (af_path normalized ∈ seen)
    raise ValueError "incremental planner repeats a pending path";
  when cp_pack_member_bytes policy <=? af_bytes normalized
    raise ValueError "incremental planner pending file is outside pack policy";
  Ok (af_path normalized :: seen, pending_bytes + af_bytes normalized).

(** [IncrementalVolumePlannerCheckpoint(...)] with its [__post_init__]. *)
Definition new_checkpoint (c : IncrementalVolumePlannerCheckpoint) :
    result IncrementalVolumePlannerCheckpoint :=
  when Z.min (Z.min (ck_next_file_order c) (ck_next_sequence c))
             (Z.min (ck_files_seen c) (ck_bytes_seen c)) <? 0
    raise ValueError "incremental planner counters must be non-negative";
  when negb (ck_next_file_order c =? ck_files_seen c)
    raise ValueError "incremental planner file order does not match files seen";
  _ ← format_archive_sequence (ck_next_sequence c);
  when cp_pack_files (ck_policy c) <? len (ck_pending_pack_files c)
    raise ValueError "incremental planner pending pack exceeds its file limit";
  '(_, pending_bytes) ← foldM (pending_step (ck_policy c)) ([], 0) (ck_pending_pack_files c);
  when cp_pack_source_bytes (ck_policy c) <? pending_bytes
    raise ValueError "incremental planner pending pack exceeds its byte limit";
  when ck_closed c && negb (match ck_pending_pack_files c with [] => true | _ => false end)
    raise ValueError "closed incremental planner cannot retain pending files";
  digest ← try_except (from_state (ck_content_hash_state c)) is_value_error
             (λ _, Err (Exn ValueError (str "incremental planner content hash state is invalid")));
  if ck_closed c then
    final ← update (copy digest) _CONTENT_IDENTITY_SUFFIX;
    expected_identity ← hexdigest final;
    when negb (bool_decide (ck_content_identity c = Some expected_identity))
      raise ValueError "closed incremental planner content identity is invalid";
    Ok c
  else
    when match ck_content_identity c with Some _ => true | None => false end
      raise ValueError "open incremental planner cannot have a content identity";
    Ok c.

Definition new_incremental_volume_planner (policy : option CollectionVolumePolicy) :
    result IncrementalVolumePlannerCheckpoint :=
  digest ← new_sha256 _CONTENT_IDENTITY_PREFIX;
  new_checkpoint
    {| ck_policy := default default_policy policy; ck_content_hash_state := export_state digest;
       ck_next_file_order := 0; ck_next_sequence := 0; ck_files_seen := 0; ck_bytes_seen := 0;
       ck_pending_pack_files := []; ck_closed := false; ck_content_identity := None |}.

(** ** Advancing *)

Definition normalize_ordered_archive_file (value : OrderedArchiveFile) : result OrderedArchiveFile :=
  when of_order value <? 0 raise ValueError "incremental planner file order must be non-negative";
  file ← _normalized_file (of_file value);
  Ok {| of_order := of_order value; of_file := file |}.

Definition _content_identity_member_bytes (file : ArchiveFile) : result pybytes :=
  utf8_encode (dumps true (file_row file)).

(** The local variables of [advance_incremental_volume_plan]. *)
Record advance_state := {
  as_pending : list ArchiveFile;
  as_pending_bytes : Z;
  as_next_order : Z;
  as_next_sequence : Z;
  as_files_seen : Z;
  as_bytes_seen : Z;
  as_content_digest : CheckpointSHA256;
  as_packs : list PackVolumePlan;
  as_raw_volumes : list RawVolumePlan;
}.

Section advance.
Variable policy : CollectionVolumePolicy.

(** [flush_pack()] *)
Definition flush_pack (st : advance_state) : result advance_state :=
  match as_pending st with
  | [] => Ok st
  | pending =>
      pack ← plan_pack_volume pending (as_next_sequence st) (cp_pack_member_bytes policy)
               (cp_pack_part_plaintext_bytes policy);
      Ok {| as_pending := []; as_pending_bytes := 0; as_next_order := as_next_order st;
            as_next_sequence := as_next_sequence st + 1; as_files_seen := as_files_seen st;
            as_bytes_seen := as_bytes_seen st; as_content_digest := as_content_digest st;
            as_packs := as_packs st ++ [pack]; as_raw_volumes := as_raw_volumes st |}
  end.

Definition set_digest (st : advance_state) (digest : CheckpointSHA256) : advance_state :=
  {| as_pending := as_pending st; as_pending_bytes := as_pending_bytes st;
     as_next_order := as_next_order st; as_next_sequence := as_next_sequence st;
     as_files_seen := as_files_seen st; as_bytes_seen := as_bytes_seen st;
     as_content_digest := digest; as_packs := as_packs st; as_raw_volumes := as_raw_volumes st |}.

Definition hash_file (st : advance_state) (current : ArchiveFile) : result advance_state :=
  digest ← (if negb (as_files_seen st =? 0) then update (as_content_digest st) (str ",")
            else Ok (as_content_digest st));
  member ← _content_identity_member_bytes current;
  digest ← update digest member;
  Ok (set_digest st digest).

Definition pend_file (st : advance_state) (current : ArchiveFile) : result advance_state :=
  st ← (if negb (match as_pending st with [] => true | _ => false end)
           && ((cp_pack_files policy <=? len (as_pending st))
               || (cp_pack_source_bytes policy <? as_pending_bytes st + af_bytes current))
        then flush_pack st else Ok st);
  Ok {| as_pending := as_pending st ++ [current];
        as_pending_bytes := as_pending_bytes st + af_bytes current;
        as_next_order := as_next_order st; as_next_sequence := as_next_sequence st;
        as_files_seen := as_files_seen st; as_bytes_seen := as_bytes_seen st;
        as_content_digest := as_content_digest st; as_packs := as_packs st;
        as_raw_volumes := as_raw_volumes st |}.

Definition raw_file (st : advance_state) (current : ArchiveFile) : result advance_state :=
  st ← flush_pack st;
  planned ← plan_raw_volumes [current] (as_next_sequence st) (cp_raw_volume_plaintext_bytes policy);
  Ok {| as_pending := as_pending st; as_pending_bytes := as_pending_bytes st;
        as_next_order := as_next_order st; as_next_sequence := as_next_sequence st + len planned;
        as_files_seen := as_files_seen st; as_bytes_seen := as_bytes_seen st;
        as_content_digest := as_content_digest st; as_packs := as_packs st;
        as_raw_volumes := as_raw_volumes st ++ planned |}.

(** One iteration of [for raw_ordered in files]. *)
Definition advance_step (st : advance_state) (raw_ordered : OrderedArchiveFile) : result advance_state :=
  ordered ← normalize_ordered_archive_file raw_ordered;
  when negb (of_order ordered =? as_next_order st)
    raise ValueError "incremental planner file order is not contiguous";
  current ← _normalized_file (of_file ordered);
  st ← hash_file st current;
  st ← (if af_bytes current <? cp_pack_member_bytes policy then pend_file st current
        else raw_file st current);
  Ok {| as_pending := as_pending st; as_pending_bytes := as_pending_bytes st;
        as_next_order := as_next_order st + 1; as_next_sequence := as_next_sequence st;
        as_files_seen := as_files_seen st + 1; as_bytes_seen := as_bytes_seen st + af_bytes current;
        as_content_digest := as_content_digest st; as_packs := as_packs st;
        as_raw_volumes := as_raw_volumes st |}.
End advance.

Definition start_advance (checkpoint : IncrementalVolumePlannerCheckpoint) : result advance_state :=
  when ck_closed checkpoint raise ValueError "incremental volume planner is already closed";
  content_digest ← from_state (ck_content_hash_state checkpoint);
  Ok {| as_pending := ck_pending_pack_files checkpoint;
        as_pending_bytes := sumZ af_bytes (ck_pending_pack_files checkpoint);
        as_next_order := ck_next_file_order checkpoint;
        as_next_sequence := ck_next_sequence checkpoint;
        as_files_seen := ck_files_seen checkpoint; as_bytes_seen := ck_bytes_seen checkpoint;
        as_content_digest := content_digest; as_packs := []; as_raw_volumes := [] |}.

Definition final_identity (digest : CheckpointSHA256) (final : bool) : result (option pystr) :=
  if final then
    closed ← update (copy digest) _CONTENT_IDENTITY_SUFFIX;
    identity ← hexdigest closed;
    Ok (Some identity)
  else Ok None.

Definition next_checkpoint (policy : CollectionVolumePolicy) (st : advance_state) (final : bool)
    (content_identity : option pystr) : IncrementalVolumePlannerCheckpoint :=
  {| ck_policy := policy; ck_content_hash_state := export_state (as_content_digest st);
     ck_next_file_order := as_next_order st; ck_next_sequence := as_next_sequence st;
     ck_files_seen := as_files_seen st; ck_bytes_seen := as_bytes_seen st;
     ck_pending_pack_files := as_pending st; ck_closed := final;
     ck_content_identity := content_identity |}.

Definition advance_incremental_volume_plan (checkpoint : IncrementalVolumePlannerCheckpoint)
    (files : list OrderedArchiveFile) (final : bool) : result IncrementalVolumePlanBatch :=
  st ← start_advance checkpoint;
  st ← foldM (advance_step (ck_policy checkpoint)) st files;
  st ← (if final then flush_pack (ck_policy checkpoint) st else Ok st);
  content_identity ← final_identity (as_content_digest st) final;
  next ← new_checkpoint (next_checkpoint (ck_policy checkpoint) st final content_identity);
  let emitted := sort_volumes (all_volumes (as_packs st) (as_raw_volumes st)) in
  when negb (bool_decide (volume_sequence <$> emitted =
                          rangeZ (ck_next_sequence checkpoint) (as_next_sequence st)))
    raise RuntimeError "incremental planner emitted non-canonical volume sequences";
  Ok {| bt_checkpoint := next; bt_packs := packs_of emitted; bt_raw_volumes := raws_of emitted |}.

(** ** Persisted checkpoints *)

Definition checkpoint_payload (c : IncrementalVolumePlannerCheckpoint) : json :=
  JObj [(str "schema", JStr INCREMENTAL_VOLUME_PLANNER_CHECKPOINT_SCHEMA);
        (str "policy", policy_payload (ck_policy c));
        (str "content_hash_state", JStr (ck_content_hash_state c));
        (str "next_file_order", JInt (ck_next_file_order c));
        (str "next_sequence", JInt (ck_next_sequence c));
        (str "files_seen", JInt (ck_files_seen c));
        (str "bytes_seen", JInt (ck_bytes_seen c));
        (str "pending_pack_files", JList (file_row <$> ck_pending_pack_files c));
        (str "closed", JBool (ck_closed c));
        (str "content_identity", from_option JStr JNull (ck_content_identity c))].

Definition incremental_volume_planner_checkpoint_payload (c : IncrementalVolumePlannerCheckpoint) :
    result json :=
  _ ← new_checkpoint c; Ok (checkpoint_payload c).

Definition incremental_volume_planner_checkpoint_bytes (c : IncrementalVolumePlannerCheckpoint) :
    result pybytes :=
  payload ← incremental_volume_planner_checkpoint_payload c; canonical_json_bytes payload.

(** [_uint] *)
Definition _uint (v : json) (label : pystr) : result Z := canonical_nonnegative_int v label.

Definition _positive (v : json) (label : pystr) : result Z :=
  parsed ← _uint v label;
  when parsed <? 1 raises Exn ValueError (label ++ str " must be positive");
  Ok parsed.

Definition _parse_policy (v : json) : result CollectionVolumePolicy :=
  match v with
  | JObj o =>
      when negb (keys_are o ["pack_source_bytes"; "pack_files"; "pack_member_bytes";
                             "pack_part_plaintext_bytes"; "raw_volume_plaintext_bytes";
                             "raw_part_plaintext_bytes"])
        raise ValueError "incremental planner policy is invalid";
      pack_source_bytes ← _positive (get_or_null "pack_source_bytes" o) (str "pack source bytes");
      pack_files ← _positive (get_or_null "pack_files" o) (str "pack files");
      pack_member_bytes ← _positive (get_or_null "pack_member_bytes" o) (str "pack member bytes");
      pack_part_plaintext_bytes ← _positive (get_or_null "pack_part_plaintext_bytes" o)
                                    (str "pack part plaintext bytes");
      raw_volume_plaintext_bytes ← _positive (get_or_null "raw_volume_plaintext_bytes" o)
                                     (str "raw volume plaintext bytes");
      raw_part_plaintext_bytes ← _positive (get_or_null "raw_part_plaintext_bytes" o)
                                   (str "raw part plaintext bytes");
      new_CollectionVolumePolicy
        {| cp_pack_source_bytes := pack_source_bytes; cp_pack_files := pack_files;
           cp_pack_member_bytes := pack_member_bytes;
           cp_pack_part_plaintext_bytes := pack_part_plaintext_bytes;
           cp_raw_volume_plaintext_bytes := raw_volume_plaintext_bytes;
           cp_raw_part_plaintext_bytes := raw_part_plaintext_bytes |}
  | _ => Err (Exn ValueError (str "incremental planner policy is invalid"))
  end.

Definition parse_pending (raw : json) : result ArchiveFile :=
  match raw with
  | JObj o =>
      when negb (keys_are o ["path"; "bytes"; "sha256"])
        raise ValueError "incremental planner pending file is invalid";
      bytes ← _uint (get_or_null "bytes" o) (str "pending file bytes");
      _normalized_file {| af_path := py_str (get_or_null "path" o); af_bytes := bytes;
                          af_sha256 := py_str (get_or_null "sha256" o) |}
  | _ => Err (Exn ValueError (str "incremental planner pending file is invalid"))
  end.

(** The parser after [json.loads]. *)
Definition rebuild_checkpoint (payload : json) : result IncrementalVolumePlannerCheckpoint :=
  match payload with
  | JObj o =>
      when negb (is_str (get_or_null "schema" o) INCREMENTAL_VOLUME_PLANNER_CHECKPOINT_SCHEMA)
           || negb (keys_are o ["schema"; "policy"; "content_hash_state"; "next_file_order";
                                "next_sequence"; "files_seen"; "bytes_seen"; "pending_pack_files";
                                "closed"; "content_identity"])
        raise ValueError "incremental volume planner checkpoint schema mismatch";
      policy ← _parse_policy (get_or_null "policy" o);
      match get_or_null "pending_pack_files" o with
      | JList raw_pending =>
          pending ← mapM_result parse_pending raw_pending;
          match get_or_null "closed" o with
          | JBool closed =>
              next_file_order ← _uint (get_or_null "next_file_order" o) (str "next file order");
              next_sequence ← _uint (get_or_null "next_sequence" o) (str "next sequence");
              files_seen ← _uint (get_or_null "files_seen" o) (str "files seen");
              bytes_seen ← _uint (get_or_null "bytes_seen" o) (str "bytes seen");
              checkpoint ← new_checkpoint
                {| ck_policy := policy;
                   ck_content_hash_state := py_str (get_or_null "content_hash_state" o);
                   ck_next_file_order := next_file_order; ck_next_sequence := next_sequence;
                   ck_files_seen := files_seen; ck_bytes_seen := bytes_seen;
                   ck_pending_pack_files := pending; ck_closed := closed;
                   ck_content_identity := match get_or_null "content_identity" o with
                                          | JNull => None
                                          | v => Some (py_str v)
                                          end |};
              content ← incremental_volume_planner_checkpoint_bytes checkpoint;
              expected ← canonical_json_bytes payload;
              when negb (bool_decide (content = expected))
                raise ValueError "incremental planner checkpoint is not canonical";
              Ok checkpoint
          | _ => Err (Exn ValueError (str "incremental planner closed flag must be boolean"))
          end
      | _ => Err (Exn ValueError (str "incremental planner pending files must be a list"))
      end
  | _ => Err (Exn ValueError (str "incremental volume planner checkpoint schema mismatch"))
  end.

(** [except (UnicodeError, json.JSONDecodeError)] *)
Definition parse_incremental_volume_planner_checkpoint_text (content : pystr) :
    result IncrementalVolumePlannerCheckpoint :=
  payload ← try_except (loads content) plan_json_error
              (λ _, Err (Exn ValueError (str "incremental volume planner checkpoint is not valid JSON")));
  rebuild_checkpoint payload.

Definition parse_incremental_volume_planner_checkpoint (content : pybytes) :
    result IncrementalVolumePlannerCheckpoint :=
  text ← utf8_decode content; parse_incremental_volume_planner_checkpoint_text text.

(** ** The public content identity *)

(** [digest.update(separator); digest.update(row); separator = b","] *)
Definition identity_step (st : pybytes * bool) (f : ArchiveFile) : result (pybytes * bool) :=
  let '(content, separator) := st in
  row ← utf8_encode (dumps true (file_row f));
  Ok (content ++ (if separator then str "," else []) ++ row, true).

(** [hashlib.sha256()] is its absorbed content until [hexdigest]. *)
Definition collection_content_identity_ordered (files : list ArchiveFile) : result pystr :=
  '(content, _) ← foldM identity_step (quoted "{'files':[", false) files;
  Ok (sha256_hex (content ++ quoted "],'format':'riverhog-collection-content/v1'}")).

(** ** Sorting volumes that are already in order *)

Lemma volumes_perm vols : all_volumes (packs_of vols) (raws_of vols) ≡ₚ vols.
Proof.
  induction vols as [|[p|r] vols IH]; [done| |]; unfold all_volumes in *; cbn [packs_of raws_of].
  - rewrite fmap_cons. cbn [app]. by rewrite IH.
  - rewrite fmap_cons, <- Permutation_middle. by rewrite IH.
Qed.

Lemma insert_volume_perm v l : insert_volume v l ≡ₚ v :: l.
Proof.
  induction l as [|w l IH]; cbn [insert_volume]; [done|].
  destruct (_ <=? _); [done|]. rewrite IH. apply Permutation_swap.
Qed.

Definition volume_le : relation volume := λ v w, volume_sequence v ≤ volume_sequence w.

Lemma sort_volumes_sorted l : StronglySorted volume_le (sort_volumes l).
Proof.
  induction l as [|v l IH]; [constructor|]. unfold sort_volumes in *. cbn [foldr].
  induction IH as [|w k Hs IHk Hw]; cbn [insert_volume]; [repeat constructor|].
  destruct (Z.leb_spec (volume_sequence v) (volume_sequence w)).
  - repeat constructor; try done. eapply Forall_impl; [exact Hw|]. unfold volume_le. lia.
  - constructor; [done|]. rewrite insert_volume_perm. constructor; [unfold volume_le; lia|done].
Qed.

Lemma sort_volumes_perm l : sort_volumes l ≡ₚ l.
Proof.
  induction l as [|v l IH]; [done|]. unfold sort_volumes in *. cbn [foldr].
  by rewrite insert_volume_perm, IH.
Qed.

Lemma range_elements a b x : x ∈ rangeZ a b → a ≤ x < b.
Proof. unfold rangeZ. rewrite elem_of_seqZ. lia. Qed.

Lemma range_sorted vols a b : volume_sequence <$> vols = rangeZ a b →
  StronglySorted volume_le vols ∧ NoDup (volume_sequence <$> vols).
Proof.
  intros Heq. split; [|rewrite Heq; apply NoDup_seqZ].
  revert a Heq. induction vols as [|v vols IH]; intros a Heq; [constructor|].
  unfold rangeZ in Heq. rewrite fmap_cons in Heq. destruct (decide (0 < b - a)) as [Hlt|Hge].
  - rewrite seqZ_cons in Heq by lia. injection Heq as Hv Hvols.
    replace (Z.pred (b - a)) with (b - Z.succ a) in Hvols by lia. fold (rangeZ (Z.succ a) b) in Hvols.
    constructor; [by eapply IH|]. rewrite Forall_forall. intros w Hw.
    assert (volume_sequence w ∈ volume_sequence <$> vols) as Hin by (apply list_elem_of_fmap; eauto).
    rewrite Hvols in Hin. apply range_elements in Hin. unfold volume_le. lia.
  - by rewrite seqZ_nil in Heq by lia.
Qed.

(** The volumes a run emitted in order are recovered by the final sort. *)
Lemma sort_recovers vols a b : volume_sequence <$> vols = rangeZ a b →
  sort_volumes (all_volumes (packs_of vols) (raws_of vols)) = vols.
Proof.
  intros (Hs & Hnd)%range_sorted. apply (StronglySorted_unique_strong volume_le).
  - intros v w Hv Hw Hvw Hwv. rewrite sort_volumes_perm, volumes_perm in Hv.
    destruct (list_elem_of_lookup_1 _ _ Hv) as [i Hi]. destruct (list_elem_of_lookup_1 _ _ Hw) as [j Hj].
    assert (i = j) as ->; [|congruence].
    eapply NoDup_lookup; [exact Hnd| |]; rewrite list_lookup_fmap; [by rewrite Hi|rewrite Hj].
    cbn. f_equal. unfold volume_le in *. lia.
  - apply sort_volumes_sorted.
  - done.
  - by rewrite sort_volumes_perm, volumes_perm.
Qed.

Lemma packs_of_app l k : packs_of (l ++ k) = packs_of l ++ packs_of k.
Proof. induction l as [|[] l IH]; cbn; by rewrite ?IH. Qed.
Lemma raws_of_app l k : raws_of (l ++ k) = raws_of l ++ raws_of k.
Proof. induction l as [|[] l IH]; cbn; by rewrite ?IH. Qed.
Lemma raws_only l : packs_of (RawVolume <$> l) = [] ∧ raws_of (RawVolume <$> l) = l.
Proof. induction l as [|r l [IH1 IH2]]; [done|]. rewrite fmap_cons. cbn. by rewrite IH1, IH2. Qed.

(** ** The abstract grouping *)

Lemma plan_pack_sequence files sequence max part plan :
  plan_pack_volume files sequence max part = Ok plan → pv_sequence plan = sequence.
Proof. intros (? & _ & _ & _ & _ & _ & Hl)%plan_pack_volume_inv. by eapply layout_sequence. Qed.

Lemma raw_sequences files start max plans : plan_raw_volumes files start max = Ok plans →
  rv_sequence <$> plans = rangeZ start (start + len plans).
Proof. intros (_ & _ & ? & _ & Hg)%plan_raw_volumes_spec. by eapply groups_sequences. Qed.

(** What a volume or a run of volumes stands for. *)
Inductive group := PackGroup (files : list ArchiveFile) | RawGroup (file : ArchiveFile).

Definition group_files (g : group) : list ArchiveFile :=
  match g with PackGroup files => files | RawGroup file => [file] end.

Definition close_pending (pending : list ArchiveFile) : list group :=
  match pending with [] => [] | _ => [PackGroup pending] end.

(** The policy as a function of the sizes alone: the groups that [f] closes,
    and the files that stay pending. *)
Definition group_step (policy : CollectionVolumePolicy) (pending : list ArchiveFile) (f : ArchiveFile) :
    list group * list ArchiveFile :=
  if is_packed policy f then
    if negb (match pending with [] => true | _ => false end)
       && ((cp_pack_files policy <=? len pending)
           || (cp_pack_source_bytes policy <? sumZ af_bytes pending + af_bytes f))
    then (close_pending pending, [f]) else ([], pending ++ [f])
  else (close_pending pending ++ [RawGroup f], []).

Fixpoint group_run (policy : CollectionVolumePolicy) (pending : list ArchiveFile)
    (files : list ArchiveFile) : list group * list ArchiveFile :=
  match files with
  | [] => ([], pending)
  | f :: files' =>
      let '(gs, pending) := group_step policy pending f in
      let '(gs', pending) := group_run policy pending files' in
      (gs ++ gs', pending)
  end.

(** Volumes that realise groups, from a sequence on. *)
Fixpoint realises (policy : CollectionVolumePolicy) (sequence : Z) (groups : list group)
    (vols : list volume) : Prop :=
  match groups with
  | [] => vols = []
  | PackGroup files :: groups' => ∃ p rest, vols = PackVolume p :: rest ∧
      plan_pack_volume files sequence (cp_pack_member_bytes policy)
        (cp_pack_part_plaintext_bytes policy) = Ok p ∧
      realises policy (sequence + 1) groups' rest
  | RawGroup file :: groups' => ∃ own rest, vols = (RawVolume <$> own) ++ rest ∧
      plan_raw_volumes [file] sequence (cp_raw_volume_plaintext_bytes policy) = Ok own ∧
      realises policy (sequence + len own) groups' rest
  end.

Lemma realises_app policy sequence gs gs' vols vols' :
  realises policy sequence gs vols → realises policy (sequence + len vols) gs' vols' →
  realises policy sequence (gs ++ gs') (vols ++ vols').
Proof.
  revert sequence vols. induction gs as [|[files|file] gs IH]; intros sequence vols; cbn [realises app].
  - intros ->. change (len []) with 0. by rewrite Z.add_0_r.
  - intros (p & rest & -> & Hp & Hr) Hr'. exists p, (rest ++ vols'). split_and!; [done|done|].
    apply IH; [done|]. rewrite len_cons in Hr'. by rewrite <- Z.add_assoc.
  - intros (own & rest & -> & Hp & Hr) Hr'. exists own, (rest ++ vols'). rewrite <- app_assoc.
    split_and!; [done|done|]. apply IH; [done|]. rewrite len_app, len_fmap in Hr'. by rewrite <- Z.add_assoc.
Qed.

Lemma close_pending_files pending : concat (group_files <$> close_pending pending) = pending.
Proof. destruct pending; [done|]. cbn. by rewrite app_nil_r. Qed.

(** Grouping keeps every file, in order. *)
Lemma group_run_files policy pending files gs pending' :
  group_run policy pending files = (gs, pending') →
  concat (group_files <$> gs) ++ pending' = pending ++ files.
Proof.
  revert pending gs. induction files as [|f files IH]; intros pending gs; cbn [group_run].
  { intros [= <- <-]. by rewrite app_nil_r. }
  destruct (group_step policy pending f) as [gs1 p1] eqn:Hs. destruct (group_run policy p1 files) as [gs2 p2] eqn:Hr.
  intros [= <- <-]. rewrite fmap_app, concat_app, <- app_assoc, (IH _ _ Hr).
  rewrite (cons_middle f), !app_assoc. f_equal. unfold group_step in Hs. revert Hs.
  destruct (is_packed policy f); [destruct (_ && _)|]; intros [= <- <-].
  - by rewrite close_pending_files.
  - done.
  - rewrite fmap_app, concat_app, close_pending_files. cbn. by rewrite app_nil_r.
Qed.

Lemma group_run_app policy pending fs fs' gs pending1 gs' pending2 :
  group_run policy pending fs = (gs, pending1) → group_run policy pending1 fs' = (gs', pending2) →
  group_run policy pending (fs ++ fs') = (gs ++ gs', pending2).
Proof.
  revert pending gs. induction fs as [|f fs IH]; intros pending gs; cbn [group_run app].
  { by intros [= <- <-]. }
  destruct (group_step policy pending f) as [gs1 p1]. destruct (group_run policy p1 fs) as [gs2 p2] eqn:Hr.
  intros [= <- <-] Hr'. by rewrite (IH _ _ Hr Hr'), app_assoc.
Qed.

Lemma realises_sequences policy sequence gs vols : realises policy sequence gs vols →
  volume_sequence <$> vols = rangeZ sequence (sequence + len vols).
Proof.
  revert sequence vols. induction gs as [|[files|file] gs IH]; intros sequence vols; cbn [realises].
  - intros ->. unfold rangeZ. change (len []) with 0. by rewrite Z.add_0_r, Z.sub_diag.
  - intros (p & rest & -> & Hp & Hr). rewrite fmap_cons, (IH _ _ Hr), len_cons. pose proof (len_nonneg rest).
    rewrite (rangeZ_app sequence (sequence + 1) (sequence + (1 + len rest))) by lia.
    rewrite <- Z.add_assoc. cbn [volume_sequence]. rewrite (plan_pack_sequence _ _ _ _ _ Hp).
    unfold rangeZ at 2. replace (sequence + 1 - sequence) with 1 by lia. done.
  - intros (own & rest & -> & Hp & Hr). rewrite fmap_app, (IH _ _ Hr), len_app, len_fmap.
    pose proof (len_nonneg rest). pose proof (len_nonneg own).
    rewrite (rangeZ_app sequence (sequence + len own) (sequence + (len own + len rest))) by lia.
    rewrite <- (raw_sequences _ _ _ _ Hp), Z.add_assoc. f_equal. by rewrite <- list_fmap_compose.
Qed.

(** ** What the content digest absorbs *)

Fixpoint content_chunks (seen : bool) (files : list ArchiveFile) : result (list pybytes) :=
  match files with
  | [] => Ok []
  | f :: files' =>
      member ← _content_identity_member_bytes f;
      rest ← content_chunks true files';
      Ok ((if seen then [str ","] else []) ++ member :: rest)
  end.

Lemma content_chunks_app seen fs fs' cs cs' :
  content_chunks seen fs = Ok cs → content_chunks (seen || negb (bool_decide (fs = []))) fs' = Ok cs' →
  content_chunks seen (fs ++ fs') = Ok (cs ++ cs').
Proof.
  revert seen cs. induction fs as [|f fs IH]; intros seen cs; cbn [content_chunks app].
  { rewrite bool_decide_true, orb_false_r by done. by intros [= <-]. }
  intros (m & -> & Hr)%bind_Ok. apply bind_Ok in Hr as (rest & Hr & [= <-]). rewrite ok_bind.
  rewrite bool_decide_false, orb_true_r by done. intros Hc. rewrite (IH _ _ Hr Hc), ok_bind.
  by rewrite <- app_assoc.
Qed.

(** [d] is [d0] after the rows of [files]. *)
Definition absorbed (d0 : CheckpointSHA256) (seen : bool) (files : list ArchiveFile)
    (d : CheckpointSHA256) : Prop :=
  ∃ chunks, content_chunks seen files = Ok chunks ∧ update_all d0 chunks = Ok d.

(** ** One run of the loop *)

(** The file the code works with: normalised twice. *)
Definition planned_file (f f' : ArchiveFile) : Prop :=
  ∃ f1, _normalized_file f = Ok f1 ∧ _normalized_file f1 = Ok f'.

Record advanced (policy : CollectionVolumePolicy) (st : advance_state) (fs : list ArchiveFile)
    (st' : advance_state) (gs : list group) (vols : list volume) : Prop := {
  ad_groups : group_run policy (as_pending st) fs = (gs, as_pending st');
  ad_realises : realises policy (as_next_sequence st) gs vols;
  ad_packs : as_packs st' = as_packs st ++ packs_of vols;
  ad_raws : as_raw_volumes st' = as_raw_volumes st ++ raws_of vols;
  ad_sequence : as_next_sequence st' = as_next_sequence st + len vols;
  ad_pending : as_pending_bytes st' = sumZ af_bytes (as_pending st');
  ad_order : as_next_order st' = as_next_order st + len fs;
  ad_seen : as_files_seen st' = as_files_seen st + len fs;
  ad_bytes : as_bytes_seen st' = as_bytes_seen st + sumZ af_bytes fs;
  ad_digest : absorbed (as_content_digest st) (negb (as_files_seen st =? 0)) fs (as_content_digest st');
}.

Lemma advanced_refl policy st : as_pending_bytes st = sumZ af_bytes (as_pending st) →
  advanced policy st [] st [] [].
Proof.
  intros Hp. split; rewrite ?app_nil_r; cbn; try done; try (change (len []) with 0; lia).
  exists []. done.
Qed.

Lemma update_all_app d cs d1 cs' d2 : update_all d cs = Ok d1 → update_all d1 cs' = Ok d2 →
  update_all d (cs ++ cs') = Ok d2.
Proof. unfold update_all. intros H1 H2. by rewrite foldM_app, H1, ok_bind. Qed.

Lemma advanced_trans policy st fs st1 gs vols fs' st2 gs' vols' :
  0 ≤ as_files_seen st → advanced policy st fs st1 gs vols → advanced policy st1 fs' st2 gs' vols' →
  advanced policy st (fs ++ fs') st2 (gs ++ gs') (vols ++ vols').
Proof.
  intros H0 [] []. split.
  - by eapply group_run_app.
  - apply realises_app; [done|]. by rewrite <- ad_sequence0.
  - by rewrite packs_of_app, app_assoc, <- ad_packs0.
  - by rewrite raws_of_app, app_assoc, <- ad_raws0.
  - rewrite len_app. lia.
  - done.
  - rewrite len_app. lia.
  - rewrite len_app. lia.
  - rewrite sumZ_app. lia.
  - destruct ad_digest0 as (cs & Hc & Hu), ad_digest1 as (cs' & Hc' & Hu'). exists (cs ++ cs').
    split; [|by eapply update_all_app]. eapply content_chunks_app; [done|]. rewrite <- Hc'. f_equal.
    rewrite ad_seen0. destruct fs as [|f fs].
    + rewrite bool_decide_true, orb_false_r by done. change (len []) with 0. by rewrite Z.add_0_r.
    + rewrite bool_decide_false, orb_true_r, len_cons by done. pose proof (len_nonneg fs).
      symmetry. by rewrite (proj2 (Z.eqb_neq _ _)) by lia.
Qed.

Lemma flush_pack_spec policy st st' :
  as_pending_bytes st = sumZ af_bytes (as_pending st) → flush_pack policy st = Ok st' → ∃ vols,
  realises policy (as_next_sequence st) (close_pending (as_pending st)) vols ∧
  as_packs st' = as_packs st ++ packs_of vols ∧ as_raw_volumes st' = as_raw_volumes st ∧
  raws_of vols = [] ∧ as_next_sequence st' = as_next_sequence st + len vols ∧
  as_pending st' = [] ∧ as_pending_bytes st' = 0 ∧ as_next_order st' = as_next_order st ∧
  as_files_seen st' = as_files_seen st ∧ as_bytes_seen st' = as_bytes_seen st ∧
  as_content_digest st' = as_content_digest st.
Proof.
  unfold flush_pack. destruct (as_pending st) as [|f fs] eqn:Hp; intros Hb.
  - intros [= <-]. exists []. cbn. rewrite app_nil_r. change (len []) with 0. split_and!; try done. lia.
  - intros (p & Hplan & [= <-])%bind_Ok. exists [PackVolume p]. cbn. change (len [_]) with 1.
    split_and!; try done. by exists p, [].
Qed.

Lemma hash_file_spec st f st' : hash_file st f = Ok st' → ∃ d,
  st' = set_digest st d ∧ absorbed (as_content_digest st) (negb (as_files_seen st =? 0)) [f] d.
Proof.
  unfold hash_file, absorbed. intros (d1 & H1 & Hh)%bind_Ok. apply bind_Ok in Hh as (m & Hm & Hh).
  apply bind_Ok in Hh as (d2 & H2 & [= <-]). exists d2. split; [done|]. cbn [content_chunks].
  rewrite Hm, !ok_bind. eexists. split; [done|]. unfold update_all.
  destruct (negb _); cbn [app foldM].
  - by rewrite H1, ok_bind, H2, ok_bind.
  - injection H1 as <-. by rewrite H2, ok_bind.
Qed.

(** [f] is pending or planned; the counters are not moved yet. *)
Definition filed (policy : CollectionVolumePolicy) (st : advance_state) (f : ArchiveFile)
    (st' : advance_state) : Prop := ∃ gs vols,
  group_step policy (as_pending st) f = (gs, as_pending st') ∧
  realises policy (as_next_sequence st) gs vols ∧ as_packs st' = as_packs st ++ packs_of vols ∧
  as_raw_volumes st' = as_raw_volumes st ++ raws_of vols ∧
  as_next_sequence st' = as_next_sequence st + len vols ∧
  as_pending_bytes st' = sumZ af_bytes (as_pending st') ∧ as_next_order st' = as_next_order st ∧
  as_files_seen st' = as_files_seen st ∧ as_bytes_seen st' = as_bytes_seen st ∧
  as_content_digest st' = as_content_digest st.

Lemma pend_file_spec policy st f st' : is_packed policy f = true →
  as_pending_bytes st = sumZ af_bytes (as_pending st) → pend_file policy st f = Ok st' → filed policy st f st'.
Proof.
  intros Hpk Hb Hpend. unfold pend_file in Hpend. apply bind_Ok in Hpend as (st1 & H1 & [= <-]).
  unfold filed, group_step. rewrite Hpk, <- Hb. cbn [as_pending as_pending_bytes as_packs as_raw_volumes
    as_next_sequence as_next_order as_files_seen as_bytes_seen as_content_digest].
  destruct (_ && _).
  - apply flush_pack_spec in H1 as (vols & Hr & -> & -> & Hrw & -> & -> & -> & -> & -> & -> & ->); [|done].
    exists (close_pending (as_pending st)), vols. rewrite Hrw, app_nil_r. split_and!; try done. cbn. lia.
  - injection H1 as <-. exists [], []. cbn [packs_of raws_of realises]. rewrite !app_nil_r.
    change (len []) with 0. split_and!; try done; [lia|]. rewrite sumZ_app. cbn. lia.
Qed.

Lemma raw_file_spec policy st f st' : is_packed policy f = false →
  as_pending_bytes st = sumZ af_bytes (as_pending st) → raw_file policy st f = Ok st' → filed policy st f st'.
Proof.
  intros Hpk Hb Hraw. unfold raw_file in Hraw. apply bind_Ok in Hraw as (st1 & H1 & Hraw).
  apply bind_Ok in Hraw as (own & Hown & [= <-]). unfold filed, group_step. rewrite Hpk.
  cbn [as_pending as_pending_bytes as_packs as_raw_volumes
    as_next_sequence as_next_order as_files_seen as_bytes_seen as_content_digest].
  apply flush_pack_spec in H1 as (vols & Hr & -> & -> & Hrw & Hseq & -> & -> & -> & -> & -> & ->); [|done].
  rewrite Hseq in *. destruct (raws_only own) as [Ho1 Ho2].
  exists (close_pending (as_pending st) ++ [RawGroup f]), (vols ++ (RawVolume <$> own)).
  rewrite packs_of_app, raws_of_app, Ho1, Ho2, Hrw, app_nil_r, len_app, len_fmap, Z.add_assoc.
  split_and!; try done. apply realises_app; [done|]. exists own, []. by rewrite app_nil_r.
Qed.

Lemma advance_step_spec policy st ordered st' :
  as_pending_bytes st = sumZ af_bytes (as_pending st) → advance_step policy st ordered = Ok st' →
  ∃ f gs vols, planned_file (of_file ordered) f ∧ of_order ordered = as_next_order st ∧
  advanced policy st [f] st' gs vols.
Proof.
  intros Hb Hs. unfold advance_step, normalize_ordered_archive_file in Hs.
  apply bind_Ok in Hs as (o & Ho & Hs). destruct (of_order ordered <? 0); [done|].
  apply bind_Ok in Ho as (f1 & Hf1 & [= <-]). cbn [of_order of_file] in Hs.
  destruct (Z.eqb_spec (of_order ordered) (as_next_order st)); [cbn [negb] in Hs|done].
  apply bind_Ok in Hs as (f & Hf & Hs). apply bind_Ok in Hs as (st1 & Hh & Hs).
  apply hash_file_spec in Hh as (d & -> & Hd). apply bind_Ok in Hs as (st2 & H2 & [= <-]).
  assert (filed policy (set_digest st d) f st2) as
    (gs & vols & Hg & Hr & Hp & Hrw & Hsq & Hpb & Hor & Hse & Hby & Hdg).
  { change (af_bytes f <? cp_pack_member_bytes policy) with (is_packed policy f) in H2.
    by destruct (is_packed policy f) eqn:Hpk; [apply pend_file_spec in H2|apply raw_file_spec in H2]. }
  cbn [as_pending as_pending_bytes as_packs as_raw_volumes as_next_sequence as_next_order
    as_files_seen as_bytes_seen as_content_digest set_digest] in *.
  exists f, gs, vols. split; [by exists f1|]. split; [done|].
  split; cbn [as_pending as_pending_bytes as_packs as_raw_volumes as_next_sequence as_next_order
    as_files_seen as_bytes_seen as_content_digest group_run]; try done.
  - by rewrite Hg, app_nil_r.
  - by rewrite Hor.
  - by rewrite Hse.
  - rewrite Hby. cbn. lia.
  - by rewrite Hdg.
Qed.

Lemma advance_loop_spec policy st files st' :
  as_pending_bytes st = sumZ af_bytes (as_pending st) → 0 ≤ as_files_seen st →
  foldM (advance_step policy) st files = Ok st' →
  ∃ fs gs vols, Forall2 (λ o f, planned_file (of_file o) f) files fs ∧ advanced policy st fs st' gs vols.
Proof.
  revert st. induction files as [|o files IH]; intros st Hb H0; cbn [foldM].
  { intros [= <-]. exists [], [], []. split; [constructor|by apply advanced_refl]. }
  intros (st1 & Hs & Hf)%bind_Ok. apply advance_step_spec in Hs as (f & gs & vols & Hn & _ & Ha); [|done].
  destruct (IH st1) as (fs & gs' & vols' & Hfs & Ha'); [apply Ha| |done|].
  { rewrite (ad_seen _ _ _ _ _ _ Ha). change (len [f]) with 1. lia. }
  exists (f :: fs), (gs ++ gs'), (vols ++ vols'). split; [by constructor|].
  exact (advanced_trans _ _ [f] _ _ _ _ _ _ _ H0 Ha Ha').
Qed.

(** ** The checkpoint in between *)

Lemma new_checkpoint_id c c' : new_checkpoint c = Ok c' → c' = c.
Proof.
  unfold new_checkpoint. intros Hc. destruct (_ <? 0) in Hc; [done|]. destruct (negb _) in Hc; [done|].
  apply bind_Ok in Hc as (? & _ & Hc). destruct (_ <? _) in Hc; [done|].
  apply bind_Ok in Hc as ([seen bytes] & _ & Hc). destruct (_ <? _) in Hc; [done|].
  destruct (_ && _) in Hc; [done|]. apply bind_Ok in Hc as (d & _ & Hc). destruct (ck_closed c).
  - apply bind_Ok in Hc as (f & _ & Hc). apply bind_Ok in Hc as (e & _ & Hc).
    destruct (negb _) in Hc; [done|]. by injection Hc as <-.
  - destruct (ck_content_identity c); [done|]. by injection Hc as <-.
Qed.

Lemma new_checkpoint_facts c c' : new_checkpoint c = Ok c' →
  0 ≤ ck_files_seen c ∧ ck_next_file_order c = ck_files_seen c ∧
  0 ≤ ck_next_sequence c < 2 ^ 256 ∧
  ∃ d, from_state (ck_content_hash_state c) = Ok d.
Proof.
  unfold new_checkpoint. intros Hc. destruct (Z.ltb_spec (Z.min (Z.min (ck_next_file_order c)
    (ck_next_sequence c)) (Z.min (ck_files_seen c) (ck_bytes_seen c))) 0); [done|].
  destruct (Z.eqb_spec (ck_next_file_order c) (ck_files_seen c)); [cbn [negb] in Hc|done].
  apply bind_Ok in Hc as (? & Hs & Hc). unfold format_archive_sequence in Hs.
  destruct (Z.ltb_spec (ck_next_sequence c) 0); [done|].
  destruct (Z.leb_spec (2 ^ 256) (ck_next_sequence c)); [done|]. destruct (_ <? _) in Hc; [done|].
  apply bind_Ok in Hc as ([seen bytes] & _ & Hc). destruct (_ <? _) in Hc; [done|].
  destruct (_ && _) in Hc; [done|]. apply bind_Ok in Hc as (d & Hd & _). apply try_except_Ok in Hd.
  split_and!; try lia. by exists d.
Qed.

Lemma file_row_wf f : text_ok (af_path f) → sha256_fullmatch (af_sha256 f) = true → json_wf (file_row f).
Proof. intros Hp Hs. unfold file_row, source_row. wf_obj; [done|by apply sha256_fullmatch_text]. Qed.

Lemma normalized_file_digest f f' : _normalized_file f = Ok f' →
  sha256_fullmatch (af_sha256 f') = true ∧ af_sha256 f' = af_sha256 f ∧
  af_bytes f' = af_bytes f ∧ 0 ≤ af_bytes f'.
Proof.
  unfold _normalized_file. intros (path & _ & Hf)%bind_Ok. destruct (startswith _ _); [done|].
  destruct (Z.ltb_spec (af_bytes f) 0); [done|]. cbn [orb] in Hf.
  destruct (sha256_fullmatch (af_sha256 f)) eqn:Hs; [|done]. injection Hf as <-. done.
Qed.

Lemma content_chunks_bytes seen fs cs : content_chunks seen fs = Ok cs →
  Forall (λ f, text_ok (af_path f) ∧ sha256_fullmatch (af_sha256 f) = true) fs → Forall bytes_ok cs.
Proof.
  revert seen cs. induction fs as [|f fs IH]; intros seen cs; cbn [content_chunks].
  { intros [= <-] _. constructor. }
  intros (m & Hm & Hr)%bind_Ok. apply bind_Ok in Hr as (rest & Hr & [= <-]).
  intros [[Ht Hs] Hfs]%Forall_cons. apply Forall_app. split.
  - destruct seen; repeat constructor; vm_compute; done.
  - constructor; [|by eapply IH]. eapply utf8_encode_bytes; [|exact Hm].
    eapply Forall_impl; [apply dumps_text, file_row_wf; done|]. by intros c [Hc _].
Qed.

Lemma update_all_wf d cs d' : state_wf d → Forall bytes_ok cs → update_all d cs = Ok d' → state_wf d'.
Proof.
  unfold update_all. intros Hd Hcs. revert d Hd. induction Hcs as [|c cs Hc Hcs IH]; intros d Hd; cbn [foldM].
  { by intros [= <-]. }
  destruct (update_wf d c Hd Hc) as (d1 & -> & Hw & _). rewrite ok_bind. by apply IH.
Qed.

(** ** Output before the run does not matter *)

Definition add_output (ps : list PackVolumePlan) (rs : list RawVolumePlan) (st : advance_state) :
    advance_state :=
  {| as_pending := as_pending st; as_pending_bytes := as_pending_bytes st;
     as_next_order := as_next_order st; as_next_sequence := as_next_sequence st;
     as_files_seen := as_files_seen st; as_bytes_seen := as_bytes_seen st;
     as_content_digest := as_content_digest st; as_packs := ps ++ as_packs st;
     as_raw_volumes := rs ++ as_raw_volumes st |}.

Section frame.
Variables (policy : CollectionVolumePolicy) (ps : list PackVolumePlan) (rs : list RawVolumePlan).

Lemma flush_pack_frame st :
  flush_pack policy (add_output ps rs st) = add_output ps rs <$> flush_pack policy st.
Proof.
  unfold flush_pack. cbn [as_pending add_output]. destruct (as_pending st); [done|].
  cbn [as_next_sequence]. destruct (plan_pack_volume _ _ _ _); [|done]. cbn. unfold add_output. cbn.
  by rewrite app_assoc.
Qed.

Lemma hash_file_frame st f :
  hash_file (add_output ps rs st) f = add_output ps rs <$> hash_file st f.
Proof.
  unfold hash_file. cbn [as_files_seen as_content_digest add_output].
  destruct (if negb _ then _ else _); [|done]. rewrite !ok_bind.
  destruct (_content_identity_member_bytes f); [|done]. rewrite !ok_bind. by destruct (update _ _).
Qed.

Lemma pend_file_frame st f :
  pend_file policy (add_output ps rs st) f = add_output ps rs <$> pend_file policy st f.
Proof.
  unfold pend_file. cbn [as_pending as_pending_bytes add_output]. destruct (_ && _).
  - rewrite flush_pack_frame. by destruct (flush_pack policy st).
  - done.
Qed.

Lemma raw_file_frame st f :
  raw_file policy (add_output ps rs st) f = add_output ps rs <$> raw_file policy st f.
Proof.
  unfold raw_file. rewrite flush_pack_frame. destruct (flush_pack policy st) as [st1|]; [|done]. cbn.
  destruct (plan_raw_volumes _ _ _); [|done]. cbn. unfold add_output. cbn. by rewrite app_assoc.
Qed.

Lemma advance_step_frame st o :
  advance_step policy (add_output ps rs st) o = add_output ps rs <$> advance_step policy st o.
Proof.
  unfold advance_step. destruct (normalize_ordered_archive_file o) as [v|]; [|done]. rewrite !ok_bind.
  cbn [as_next_order add_output]. destruct (negb _); [done|]. destruct (_normalized_file _) as [f|]; [|done].
  rewrite !ok_bind. rewrite hash_file_frame. destruct (hash_file st f) as [st1|]; [|done].
  change (add_output ps rs <$> Ok st1) with (Ok (add_output ps rs st1)). rewrite !ok_bind.
  destruct (af_bytes f <? cp_pack_member_bytes policy).
  - rewrite pend_file_frame. by destruct (pend_file policy st1 f).
  - rewrite raw_file_frame. by destruct (raw_file policy st1 f).
Qed.

Lemma advance_loop_frame st files :
  foldM (advance_step policy) (add_output ps rs st) files =
  add_output ps rs <$> foldM (advance_step policy) st files.
Proof.
  revert st. induction files as [|o files IH]; intros st; cbn [foldM]; [done|].
  rewrite advance_step_frame. destruct (advance_step policy st o) as [st1|]; [|done]. apply IH.
Qed.
End frame.

(** ** A whole call *)

(** The end of a call, once the loop and the last flush are done. *)
Definition finish_batch (policy : CollectionVolumePolicy) (start : Z) (st : advance_state) (final : bool) :
    result IncrementalVolumePlanBatch :=
  content_identity ← final_identity (as_content_digest st) final;
  next ← new_checkpoint (next_checkpoint policy st final content_identity);
  let emitted := sort_volumes (all_volumes (as_packs st) (as_raw_volumes st)) in
  when negb (bool_decide (volume_sequence <$> emitted = rangeZ start (as_next_sequence st)))
    raise RuntimeError "incremental planner emitted non-canonical volume sequences";
  Ok {| bt_checkpoint := next; bt_packs := packs_of emitted; bt_raw_volumes := raws_of emitted |}.

Definition last_flush (policy : CollectionVolumePolicy) (final : bool) (st : advance_state) :
    result advance_state := if final then flush_pack policy st else Ok st.

Lemma advance_unfold c files final :
  advance_incremental_volume_plan c files final =
  (st ← start_advance c;
   st ← foldM (advance_step (ck_policy c)) st files;
   st ← last_flush (ck_policy c) final st;
   finish_batch (ck_policy c) (ck_next_sequence c) st final).
Proof. done. Qed.

(** The run from a fresh start, with the groups it realises. *)
Record ran (policy : CollectionVolumePolicy) (st : advance_state) (fs : list ArchiveFile) (final : bool)
    (st' : advance_state) (vols : list volume) : Prop := {
  rn_groups : ∃ gs pending, group_run policy (as_pending st) fs = (gs, pending) ∧
    realises policy (as_next_sequence st) (gs ++ if final then close_pending pending else []) vols ∧
    as_pending st' = if final then [] else pending;
  rn_packs : as_packs st' = as_packs st ++ packs_of vols;
  rn_raws : as_raw_volumes st' = as_raw_volumes st ++ raws_of vols;
  rn_sequence : as_next_sequence st' = as_next_sequence st + len vols;
  rn_pending : as_pending_bytes st' = sumZ af_bytes (as_pending st');
  rn_order : as_next_order st' = as_next_order st + len fs;
  rn_seen : as_files_seen st' = as_files_seen st + len fs;
  rn_bytes : as_bytes_seen st' = as_bytes_seen st + sumZ af_bytes fs;
  rn_digest : absorbed (as_content_digest st) (negb (as_files_seen st =? 0)) fs (as_content_digest st');
}.

Lemma run_spec policy st files final st1 st2 :
  as_pending_bytes st = sumZ af_bytes (as_pending st) → 0 ≤ as_files_seen st →
  foldM (advance_step policy) st files = Ok st1 → last_flush policy final st1 = Ok st2 →
  ∃ fs vols, Forall2 (λ o f, planned_file (of_file o) f) files fs ∧ ran policy st fs final st2 vols.
Proof.
  intros Hb H0 Hloop Hflush. apply advance_loop_spec in Hloop as (fs & gs & vols & Hfs & []); [|done|done].
  unfold last_flush in Hflush. destruct final.
  - apply flush_pack_spec in Hflush as (vols' & Hr & Hp & Hrw & Hnr & Hs & Hpd & Hpb & Ho & Hse & Hby & Hd); [|done].
    exists fs, (vols ++ vols'). split; [done|]. split.
    + exists gs, (as_pending st1). split_and!; [done| |done]. apply realises_app; [done|].
      by rewrite <- ad_sequence0.
    + by rewrite Hp, ad_packs0, packs_of_app, app_assoc.
    + by rewrite Hrw, ad_raws0, raws_of_app, Hnr, app_nil_r.
    + rewrite Hs, len_app. lia.
    + by rewrite Hpb, Hpd.
    + by rewrite Ho.
    + by rewrite Hse.
    + by rewrite Hby.
    + by rewrite Hd.
  - injection Hflush as <-. exists fs, vols. split; [done|]. split; try done.
    exists gs, (as_pending st1). by rewrite app_nil_r.
Qed.

(** The sort and the sequence check at the end of a call do nothing. *)
Lemma finish_batch_ran policy st fs final st' vols :
  as_packs st = [] → as_raw_volumes st = [] → ran policy st fs final st' vols →
  finish_batch policy (as_next_sequence st) st' final =
  (content_identity ← final_identity (as_content_digest st') final;
   next ← new_checkpoint (next_checkpoint policy st' final content_identity);
   Ok {| bt_checkpoint := next; bt_packs := as_packs st'; bt_raw_volumes := as_raw_volumes st' |}).
Proof.
  intros Hp Hr [(gs & pending & _ & Hre & _) Hpk Hrw Hsq _ _ _ _ _]. rewrite Hp, Hr in *. cbn [app] in *.
  apply realises_sequences in Hre. unfold finish_batch. rewrite Hpk, Hrw, Hsq, (sort_recovers _ _ _ Hre).
  by rewrite bool_decide_true.
Qed.

Lemma start_advance_spec c st : start_advance c = Ok st →
  ck_closed c = false ∧ from_state (ck_content_hash_state c) = Ok (as_content_digest st) ∧
  as_pending st = ck_pending_pack_files c ∧ as_pending_bytes st = sumZ af_bytes (as_pending st) ∧
  as_next_order st = ck_next_file_order c ∧ as_next_sequence st = ck_next_sequence c ∧
  as_files_seen st = ck_files_seen c ∧ as_bytes_seen st = ck_bytes_seen c ∧
  as_packs st = [] ∧ as_raw_volumes st = [].
Proof.
  unfold start_advance. destruct (ck_closed c); [done|]. by intros (d & Hd & [= <-])%bind_Ok.
Qed.

(** What a successful call did. *)
Lemma advance_spec c files final batch :
  0 ≤ ck_files_seen c → advance_incremental_volume_plan c files final = Ok batch →
  ∃ st st' fs vols identity, start_advance c = Ok st ∧
  (st1 ← foldM (advance_step (ck_policy c)) st files; last_flush (ck_policy c) final st1) = Ok st' ∧
  Forall2 (λ o f, planned_file (of_file o) f) files fs ∧ ran (ck_policy c) st fs final st' vols ∧
  final_identity (as_content_digest st') final = Ok identity ∧
  new_checkpoint (next_checkpoint (ck_policy c) st' final identity) = Ok (bt_checkpoint batch) ∧
  bt_checkpoint batch = next_checkpoint (ck_policy c) st' final identity ∧
  bt_packs batch = packs_of vols ∧ bt_raw_volumes batch = raws_of vols ∧ bt_volumes batch = vols.
Proof.
  intros H0. rewrite advance_unfold. intros (st & Hst & Ha)%bind_Ok.
  apply bind_Ok in Ha as (st1 & H1 & Ha). apply bind_Ok in Ha as (st2 & H2 & Ha).
  pose proof (start_advance_spec _ _ Hst) as (_ & _ & _ & Hb & _ & Hsq & Hse & _ & Hp & Hr).
  rewrite <- Hse in H0. destruct (run_spec _ _ _ _ _ _ Hb H0 H1 H2) as (fs & vols & Hfs & Hran).
  rewrite <- Hsq, (finish_batch_ran _ _ _ _ _ _ Hp Hr Hran) in Ha.
  apply bind_Ok in Ha as (identity & Hid & Ha). apply bind_Ok in Ha as (next & Hn & [= <-]).
  pose proof (new_checkpoint_id _ _ Hn) as ->.
  assert (as_packs st2 = packs_of vols) as Hp2 by (rewrite (rn_packs _ _ _ _ _ _ Hran), Hp; done).
  assert (as_raw_volumes st2 = raws_of vols) as Hr2 by (rewrite (rn_raws _ _ _ _ _ _ Hran), Hr; done).
  exists st, st2, fs, vols, identity. unfold bt_volumes. cbn [bt_checkpoint bt_packs bt_raw_volumes].
  rewrite H1, ok_bind, Hp2, Hr2. split_and!; try done.
  destruct (rn_groups _ _ _ _ _ _ Hran) as (gs & pending & _ & Hre & _).
  by eapply sort_recovers, realises_sequences.
Qed.

(** ** Batches *)

(** The paths of the planned files are encodable text. *)
Definition encodable (files : list OrderedArchiveFile) : Prop :=
  ∀ o f, o ∈ files → planned_file (of_file o) f → text_ok (af_path f).

Lemma planned_rows files fs : encodable files → Forall2 (λ o f, planned_file (of_file o) f) files fs →
  Forall (λ f, text_ok (af_path f) ∧ sha256_fullmatch (af_sha256 f) = true) fs.
Proof.
  intros He Hfs. induction Hfs as [|o f files fs Ho Hfs IH]; constructor.
  - split; [by apply (He o); [left|]|]. destruct Ho as (f1 & _ & (? & _)%normalized_file_digest). done.
  - apply IH. intros o' f' Hin. apply He. by right.
Qed.

Lemma absorbed_wf d seen fs d' : state_wf d → absorbed d seen fs d' →
  Forall (λ f, text_ok (af_path f) ∧ sha256_fullmatch (af_sha256 f) = true) fs → state_wf d'.
Proof. intros Hd (cs & Hc & Hu) Hfs. eapply update_all_wf; [done| |done]. by eapply content_chunks_bytes. Qed.

(** The checkpoint a call leaves resumes where the call stopped. *)
Lemma start_next policy st identity : state_wf (as_content_digest st) →
  as_pending_bytes st = sumZ af_bytes (as_pending st) →
  ∃ st', start_advance (next_checkpoint policy st false identity) = Ok st' ∧
  st = add_output (as_packs st) (as_raw_volumes st) st' ∧ as_packs st' = [] ∧ as_raw_volumes st' = [] ∧
  as_pending_bytes st' = sumZ af_bytes (as_pending st') ∧ as_files_seen st' = as_files_seen st ∧
  as_next_sequence st' = as_next_sequence st.
Proof.
  intros Hw Hb. unfold start_advance. cbn [next_checkpoint ck_closed ck_content_hash_state].
  rewrite from_state_export, ok_bind by done. eexists. split; [done|].
  unfold add_output. cbn [as_pending as_pending_bytes as_packs as_raw_volumes as_next_sequence as_next_order
    as_files_seen as_bytes_seen as_content_digest next_checkpoint ck_pending_pack_files ck_next_file_order
    ck_next_sequence ck_files_seen ck_bytes_seen]. rewrite <- Hb, !app_nil_r. split_and!; try done. by destruct st.
Qed.

Lemma last_flush_frame policy ps rs final st :
  last_flush policy final (add_output ps rs st) = add_output ps rs <$> last_flush policy final st.
Proof. destruct final; [apply flush_pack_frame|done]. Qed.

(** Two runs in a row are one run. *)
Lemma advance_merge c a b final b1 b2 :
  0 ≤ ck_files_seen c → encodable a →
  advance_incremental_volume_plan c a false = Ok b1 →
  advance_incremental_volume_plan (bt_checkpoint b1) b final = Ok b2 →
  advance_incremental_volume_plan c (a ++ b) final =
  Ok {| bt_checkpoint := bt_checkpoint b2; bt_packs := bt_packs b1 ++ bt_packs b2;
        bt_raw_volumes := bt_raw_volumes b1 ++ bt_raw_volumes b2 |}.
Proof.
  intros H0 He Ha Hb.
  apply advance_spec in Ha as (st & st1 & fs & vols & id1 & Hst & Hrun & Hfs & Hran & Hid & Hnew & Hck & Hp1 & Hr1 & _);
    [|done].
  pose proof (start_advance_spec _ _ Hst) as (_ & Hfrom & Hpe & Hpb & _ & Hsq & Hse & _ & Hp0 & Hr0).
  apply bind_Ok in Hrun as (st1' & Hloop & [= ->]).
  assert (state_wf (as_content_digest st1)) as Hw.
  { eapply absorbed_wf; [by eapply from_state_wf|apply Hran|]. by eapply planned_rows. }
  destruct (start_next (ck_policy c) st1 id1 Hw (rn_pending _ _ _ _ _ _ Hran))
    as (st2 & Hst2 & Heq & Hp2 & Hr2 & Hpb2 & Hse2 & Hsq2).
  assert (0 ≤ as_files_seen st1) as H1.
  { rewrite (rn_seen _ _ _ _ _ _ Hran). pose proof (len_nonneg fs). lia. }
  rewrite Hck in Hb. apply advance_spec in Hb as
    (st2' & st3 & fs' & vols' & id2 & Hst2' & Hrun2 & Hfs' & Hran2 & Hid2 & Hnew2 & Hck2 & Hp3 & Hr3 & _); [|done].
  rewrite Hst2 in Hst2'. injection Hst2' as <-. cbn [next_checkpoint ck_policy] in *.
  apply bind_Ok in Hrun2 as (st3' & Hloop2 & Hflush2).
  assert (∃ st4, (st' ← foldM (advance_step (ck_policy c)) st (a ++ b);
    last_flush (ck_policy c) final st') = Ok st4 ∧ st4 = add_output (as_packs st1) (as_raw_volumes st1) st3)
    as (st4 & Hrun4 & Hst4).
  { rewrite foldM_app, Hloop, ok_bind.
    pose proof (advance_loop_frame (ck_policy c) (as_packs st1) (as_raw_volumes st1) st2 b) as Hframe.
    rewrite <- Heq in Hframe. rewrite Hframe, Hloop2.
    cbn [fmap result_fmap]. rewrite ok_bind, last_flush_frame, Hflush2. by eexists. }
  rewrite advance_unfold, Hst, ok_bind.
  apply bind_Ok in Hrun4 as (st4' & Hloop4 & Hflush4). rewrite Hloop4, ok_bind, Hflush4, ok_bind.
  rewrite <- Hse in H0. destruct (run_spec _ _ _ _ _ _ Hpb H0 Hloop4 Hflush4) as (fs4 & vols4 & _ & Hran4).
  rewrite <- Hsq, (finish_batch_ran _ _ _ _ _ _ Hp0 Hr0 Hran4), Hst4.
  cbn [add_output as_content_digest as_packs as_raw_volumes]. rewrite Hid2, ok_bind.
  change (next_checkpoint (ck_policy c) (add_output (as_packs st1) (as_raw_volumes st1) st3) final id2)
    with (next_checkpoint (ck_policy c) st3 final id2). rewrite Hnew2, ok_bind.
  rewrite Hp1, Hr1, Hp3, Hr3. rewrite (rn_packs _ _ _ _ _ _ Hran), (rn_raws _ _ _ _ _ _ Hran), Hp0, Hr0.
  by rewrite (rn_packs _ _ _ _ _ _ Hran2), (rn_raws _ _ _ _ _ _ Hran2), Hp2, Hr2.
Qed.

(** Several calls, each resuming from the checkpoint of the one before; the
    last one is final.  The volumes of all calls together. *)
Fixpoint advance_batches (c : IncrementalVolumePlannerCheckpoint)
    (batches : list (list OrderedArchiveFile)) (last : list OrderedArchiveFile) :
    result IncrementalVolumePlanBatch :=
  match batches with
  | [] => advance_incremental_volume_plan c last true
  | files :: batches' =>
      batch ← advance_incremental_volume_plan c files false;
      rest ← advance_batches (bt_checkpoint batch) batches' last;
      Ok {| bt_checkpoint := bt_checkpoint rest; bt_packs := bt_packs batch ++ bt_packs rest;
            bt_raw_volumes := bt_raw_volumes batch ++ bt_raw_volumes rest |}
  end.

Lemma advance_batches_merge c batches last r :
  0 ≤ ck_files_seen c → encodable (concat batches) → advance_batches c batches last = Ok r →
  advance_incremental_volume_plan c (concat batches ++ last) true = Ok r.
Proof.
  revert c r. induction batches as [|files batches IH]; intros c r H0 He; cbn [advance_batches concat app];
    [done|]. intros (b1 & H1 & Hr)%bind_Ok. apply bind_Ok in Hr as (rest & Hrest & [= <-]).
  apply IH in Hrest.
  - rewrite <- app_assoc. eapply advance_merge; [done| |done|done]. intros o f Ho. apply He.
    apply elem_of_app. by left.
  - apply advance_spec in H1 as (? & ? & ? & ? & ? & _ & _ & _ & _ & _ & Hnew & Heq & _); [|done].
    rewrite <- Heq in Hnew. by apply new_checkpoint_facts in Hnew as (? & _).
  - intros o f Ho. apply He. apply elem_of_app. by right.
Qed.

(** ** Refinement of the grouping *)

(** A pack group keeps the bounds of the policy; a raw group is one large file. *)
Definition group_ok (policy : CollectionVolumePolicy) (g : group) : Prop :=
  match g with
  | PackGroup files => Forall (λ f, is_packed policy f = true) files ∧
      group_bounds (cp_pack_source_bytes policy) (cp_pack_files policy) files
  | RawGroup file => is_packed policy file = false
  end.

Lemma close_pending_ok policy pending :
  (pending ≠ [] → group_ok policy (PackGroup pending)) → Forall (group_ok policy) (close_pending pending).
Proof. destruct pending as [|f fs]; [constructor|]. intros H0. by constructor; [apply H0|]. Qed.

Lemma group_run_ok policy pending files gs pending' :
  0 < cp_pack_files policy → (pending ≠ [] → group_ok policy (PackGroup pending)) →
  group_run policy pending files = (gs, pending') →
  Forall (group_ok policy) gs ∧ (pending' ≠ [] → group_ok policy (PackGroup pending')).
Proof.
  intros Hpos. revert pending gs. induction files as [|f files IH]; intros pending gs Hok; cbn [group_run].
  { by intros [= <- <-]. }
  destruct (group_step policy pending f) as [gs1 p1] eqn:Hs. destruct (group_run policy p1 files) as [gs2 p2] eqn:Hr.
  intros [= <- <-]. assert (Forall (group_ok policy) gs1 ∧ (p1 ≠ [] → group_ok policy (PackGroup p1))) as [H1 Hp1].
  { unfold group_step in Hs. destruct (is_packed policy f) eqn:Hpk.
    - destruct (_ && _) eqn:Hfull; injection Hs as <- <-.
      + split; [by apply close_pending_ok|]. intros _. split; [by repeat constructor|].
        split; [change (len [f]) with 1; lia|]. by right.
      + split; [constructor|]. intros _. destruct pending as [|g pending].
        * split; [by repeat constructor|]. cbn [app]. split; [change (len [f]) with 1; lia|]. by right.
        * cbn [negb andb] in Hfull. apply orb_false_iff in Hfull as [Hlen Hsum].
          destruct (Hok ltac:(done)) as [Hall [Hb _]]. split; [by apply Forall_app; split; [|constructor]|].
          split; [rewrite len_app; change (len [f]) with 1; lia|]. left. rewrite sumZ_app. cbn [sumZ foldr] in *. lia.
    - injection Hs as <- <-. split; [|done]. apply Forall_app. split; [by apply close_pending_ok|].
      by constructor. }
  destruct (IH _ _ Hp1 Hr) as [H2 Hp2]. split; [by apply Forall_app|done].
Qed.

Lemma new_planner_spec policy c : new_incremental_volume_planner policy = Ok c →
  ck_policy c = default default_policy policy ∧ ck_pending_pack_files c = [] ∧ ck_next_sequence c = 0 ∧
  ck_files_seen c = 0 ∧ ck_content_hash_state c = export_state (state_of _CONTENT_IDENTITY_PREFIX).
Proof.
  unfold new_incremental_volume_planner, new_sha256. rewrite <- state_of_nil, update_state_of.
  rewrite ok_bind. by intros ->%new_checkpoint_id.
Qed.

(** C14. The planner refines the abstract grouping: for any batches, the volumes of the
    whole run, in order, realise one group after the other, where the grouping
    depends on the policy and the sizes alone; together the groups are the
    planned files in registration order; each pack group keeps the policy's
    bounds (a single file excepted) and each raw group is one large file. *)
Theorem incremental_refines_grouping policy c batches last r :
  new_incremental_volume_planner policy = Ok c → 0 < cp_pack_files (ck_policy c) →
  encodable (concat batches) → advance_batches c batches last = Ok r →
  ∃ fs gs pending, Forall2 (λ o f, planned_file (of_file o) f) (concat batches ++ last) fs ∧
  group_run (ck_policy c) [] fs = (gs, pending) ∧
  realises (ck_policy c) 0 (gs ++ close_pending pending) (bt_volumes r) ∧
  concat (group_files <$> gs ++ close_pending pending) = fs ∧
  Forall (group_ok (ck_policy c)) (gs ++ close_pending pending).
Proof.
  intros (_ & Hpe & Hsq & H0 & _)%new_planner_spec Hpos He Hr.
  apply advance_batches_merge in Hr; [|lia|done].
  apply advance_spec in Hr as (st & st' & fs & vols & id & Hst & _ & Hfs & [Hg _ _ _ _ _ _ _ _] & _ & _ & _ & _ & _ & ->);
    [|lia].
  pose proof (start_advance_spec _ _ Hst) as (_ & _ & Hpe' & _ & _ & Hsq' & _).
  destruct Hg as (gs & pending & Hgr & Hre & _). rewrite Hpe', Hpe in Hgr. rewrite Hsq', Hsq in Hre.
  exists fs, gs, pending. split_and!; try done.
  - rewrite fmap_app, concat_app, close_pending_files. by eapply group_run_files in Hgr.
  - apply group_run_ok in Hgr as [Hgs Hp]; [|done|done]. apply Forall_app. split; [done|].
    by apply close_pending_ok.
Qed.

(** ** The content identity *)

Lemma identity_loop content seen fs chunks : content_chunks seen fs = Ok chunks →
  ∃ sep, foldM identity_step (content, seen) fs = Ok (content ++ concat chunks, sep).
Proof.
  revert content seen chunks. induction fs as [|f fs IH]; intros content seen chunks; cbn [content_chunks foldM].
  { intros [= <-]. exists seen. cbn. by rewrite app_nil_r. }
  intros (m & Hm & Hr)%bind_Ok. apply bind_Ok in Hr as (rest & Hr & [= <-]).
  assert (identity_step (content, seen) f = Ok (content ++ (if seen then str "," else []) ++ m, true)) as ->
    by (unfold identity_step; unfold _content_identity_member_bytes in Hm; by rewrite Hm).
  rewrite ok_bind.
  destruct (IH (content ++ (if seen then str "," else []) ++ m) true rest Hr) as (sep & ->). exists sep.
  f_equal. f_equal. destruct seen; cbn; by rewrite <- !app_assoc.
Qed.

Lemma digest_size st d : digest st = Ok d → _total_bytes st * 8 < 2 ^ 64.
Proof.
  unfold digest. intros (bits & Hb & _)%bind_Ok. unfold to_bytes_big in Hb.
  destruct (_ || _) eqn:Hlt in Hb; [done|]. apply orb_false_iff in Hlt as [_ Hlt]. cbn [copy _total_bytes] in Hlt.
  change (256 ^ Z.of_nat 8) with (2 ^ 64) in Hlt. lia.
Qed.

(** The planner's final identity is the public one: for any batches, the closed
    checkpoint carries exactly [collection_content_identity_ordered] of the
    planned files, although the digest was suspended and resumed between calls. *)
Theorem incremental_content_identity policy c batches last r :
  new_incremental_volume_planner policy = Ok c → encodable (concat batches) →
  advance_batches c batches last = Ok r →
  ∃ fs identity, Forall2 (λ o f, planned_file (of_file o) f) (concat batches ++ last) fs ∧
  collection_content_identity_ordered fs = Ok identity ∧
  ck_content_identity (bt_checkpoint r) = Some identity.
Proof.
  intros (_ & _ & _ & H0 & Hh)%new_planner_spec He Hr. apply advance_batches_merge in Hr; [|lia|done].
  apply advance_spec in Hr as (st & st' & fs & vols & id & Hst & _ & Hfs & Hran & Hid & _ & -> & _); [|lia].
  pose proof (start_advance_spec _ _ Hst) as (_ & Hfrom & _ & _ & _ & _ & Hse & _).
  destruct (rn_digest _ _ _ _ _ _ Hran) as (chunks & Hc & Hu). rewrite Hse, H0 in Hc.
  rewrite Hh, from_state_export in Hfrom by (apply state_of_wf; repeat constructor; vm_compute; done).
  injection Hfrom as Hfrom. rewrite <- Hfrom, update_all_state_of in Hu. injection Hu as Hu.
  unfold final_identity in Hid. rewrite <- Hu in Hid. change (copy (state_of ?m)) with (state_of m) in Hid.
  rewrite update_state_of, ok_bind in Hid. apply bind_Ok in Hid as (hex & Hhex & [= <-]).
  exists fs. eexists. split; [done|]. split; [|reflexivity].
  unfold collection_content_identity_ordered.
  destruct (identity_loop _CONTENT_IDENTITY_PREFIX false fs chunks Hc) as (sep & Hl).
  change (quoted "{'files':[") with _CONTENT_IDENTITY_PREFIX. rewrite Hl, ok_bind.
  change (quoted "],'format':'riverhog-collection-content/v1'}") with _CONTENT_IDENTITY_SUFFIX.
  unfold hexdigest in Hhex. apply bind_Ok in Hhex as (d & Hd & [= <-]).
  pose proof (digest_size _ _ Hd) as Hsz. cbn [_total_bytes state_of] in Hsz.
  rewrite digest_state_of in Hd by done. by injection Hd as <-.
Qed.

(** ** Persisted checkpoints *)

Record checkpoint_valid (c : IncrementalVolumePlannerCheckpoint) : Prop := {
  cv_checked : new_checkpoint c = Ok c;
  cv_policy_checked : new_CollectionVolumePolicy (ck_policy c) = Ok (ck_policy c);
  cv_pending : Forall (λ f, text_ok (af_path f) ∧ _normalized_file f = Ok f) (ck_pending_pack_files c);
  cv_state : text_ok (ck_content_hash_state c);
  cv_identity : from_option text_ok True (ck_content_identity c);
}.

Lemma policy_payload_wf policy : json_wf (policy_payload policy).
Proof. unfold policy_payload. wf_obj. Qed.

Lemma checkpoint_payload_wf c : checkpoint_valid c → json_wf (checkpoint_payload c).
Proof.
  intros []. unfold checkpoint_payload. wf_obj; try done.
  - apply policy_payload_wf.
  - apply json_wf_list, Forall_fmap. eapply Forall_impl; [exact cv_pending0|].
    intros f [Ht (Hs & _)%normalized_file_digest]. by apply file_row_wf.
  - by destruct (ck_content_identity c).
Qed.

Lemma positive_ok z label : 1 ≤ z → _positive (JInt z) label = Ok z.
Proof.
  intros Hz. unfold _positive, _uint. rewrite canonical_int_ok, ok_bind by lia.
  by rewrite (proj2 (Z.ltb_ge z 1)) by lia.
Qed.

Lemma policy_positive p p' : new_CollectionVolumePolicy p = Ok p' →
  1 ≤ cp_pack_source_bytes p ∧ 1 ≤ cp_pack_files p ∧ 1 ≤ cp_pack_member_bytes p ∧
  1 ≤ cp_pack_part_plaintext_bytes p ∧ 1 ≤ cp_raw_volume_plaintext_bytes p ∧
  1 ≤ cp_raw_part_plaintext_bytes p.
Proof.
  unfold new_CollectionVolumePolicy. destruct (existsb _ _) eqn:He; [done|]. intros _.
  cbn [existsb] in He. repeat (apply orb_false_iff in He as [?Hx He]). lia.
Qed.

Lemma parse_policy_payload p : new_CollectionVolumePolicy p = Ok p →
  _parse_policy (canon (policy_payload p)) = Ok p.
Proof.
  intros Hp. pose proof (policy_positive _ _ Hp) as (? & ? & ? & ? & ? & ?).
  unfold _parse_policy, policy_payload. rewrite canon_obj.
  rewrite (keys_are_perm _ _ _ (keys_canon _)), keys_are_intro by done.
  unfold get_or_null. rewrite !dict_get_canon by solve_keys. dict_simpl.
  cbn [fmap option_fmap option_map canon from_option id negb].
  rewrite !positive_ok by done. rewrite !ok_bind. by destruct p.
Qed.

Lemma parse_pending_row f : _normalized_file f = Ok f → parse_pending (canon (file_row f)) = Ok f.
Proof.
  intros Hf. rewrite canon_file_row. unfold parse_pending, get_or_null, _uint.
  replace (keys_are _ _) with true by done. dict_simpl. cbn [negb from_option id].
  pose proof (normalized_file_digest _ _ Hf) as (_ & _ & _ & Hb).
  rewrite canonical_int_ok, ok_bind by done. cbn [py_str]. destruct f. exact Hf.
Qed.

Lemma rebuild_checkpoint_payload c : checkpoint_valid c →
  rebuild_checkpoint (canon (checkpoint_payload c)) = Ok c.
Proof.
  intros []. pose proof cv_checked0 as Hck. pose proof (dumps_canon false (checkpoint_payload c)) as Hdc.
  unfold new_checkpoint in Hck. destruct (Z.ltb_spec (Z.min (Z.min (ck_next_file_order c)
    (ck_next_sequence c)) (Z.min (ck_files_seen c) (ck_bytes_seen c))) 0); [done|]. clear Hck.
  pose proof (checkpoint_payload_wf c ltac:(by split)) as Hwf. unfold rebuild_checkpoint.
  unfold checkpoint_payload at 1. rewrite canon_obj.
  rewrite (keys_are_perm _ _ _ (keys_canon _)), keys_are_intro by done.
  unfold get_or_null. rewrite !dict_get_canon by solve_keys. dict_simpl.
  cbn [fmap option_fmap option_map canon from_option id is_str negb orb].
  rewrite bool_decide_true by done. cbn [negb orb]. rewrite parse_policy_payload, ok_bind by done.
  assert (mapM_result parse_pending (map canon (file_row <$> ck_pending_pack_files c)) =
    Ok (ck_pending_pack_files c)) as ->.
  { apply mapM_result_Forall2. change (map canon ?l) with (canon <$> l). rewrite <- list_fmap_compose.
    apply Forall2_fmap_l, Forall_Forall2_diag. eapply Forall_impl; [exact cv_pending0|].
    intros f [_ Hf]. by apply parse_pending_row. }
  rewrite ok_bind. unfold _uint. rewrite !canonical_int_ok by lia. rewrite !ok_bind. cbn [py_str].
  match goal with |- (_ ← new_checkpoint ?k; _) = _ => assert (k = c) as -> end.
  { destruct c as [? ? ? ? ? ? ? ? []]; done. }
  rewrite cv_checked0, ok_bind. unfold incremental_volume_planner_checkpoint_bytes,
    incremental_volume_planner_checkpoint_payload. rewrite cv_checked0, !ok_bind. unfold canonical_json_bytes.
  rewrite Hdc.
  destruct (utf8_encode_ok _ (dumps_text false _ Hwf)) as [bs Hbs]. rewrite Hbs, !ok_bind.
  by rewrite bool_decide_true.
Qed.

#[export] Instance checkpoint_document : JsonDocument IncrementalVolumePlannerCheckpoint := {|
  doc_payload := checkpoint_payload;
  doc_of_payload := rebuild_checkpoint;
  doc_valid := checkpoint_valid;
  doc_payload_wf := checkpoint_payload_wf;
  doc_law := rebuild_checkpoint_payload;
|}.

(** A persisted checkpoint restores exactly: every checkpoint the class accepts,
    with an accepted policy and stable pending paths, has canonical bytes from
    which the parser rebuilds the identical checkpoint, its own canonicity check
    included. *)
Theorem checkpoint_roundtrip c : checkpoint_valid c →
  ∃ content, incremental_volume_planner_checkpoint_bytes c = Ok content ∧
  parse_incremental_volume_planner_checkpoint content = Ok c.
Proof.
  intros Hv. destruct (@document_bytes_roundtrip _ _ checkpoint_document false c Hv) as (content & Hc & Hparse).
  exists content. split.
  { unfold incremental_volume_planner_checkpoint_bytes, incremental_volume_planner_checkpoint_payload.
    by rewrite (cv_checked _ Hv), !ok_bind. }
  unfold parse_incremental_volume_planner_checkpoint, parse_incremental_volume_planner_checkpoint_text.
  destruct (utf8_decode content); [|done]. rewrite ok_bind in *. destruct (loads _); [|done]. exact Hparse.
Qed.

(** ** Resuming from persisted checkpoints *)

(** Several calls with the checkpoint stored in between: each call but the first
    starts from what the parser makes of the bytes that were persisted after the
    one before. *)
Fixpoint advance_persisted (c : IncrementalVolumePlannerCheckpoint)
    (batches : list (list OrderedArchiveFile)) (last : list OrderedArchiveFile) :
    result IncrementalVolumePlanBatch :=
  match batches with
  | [] => advance_incremental_volume_plan c last true
  | files :: batches' =>
      batch ← advance_incremental_volume_plan c files false;
      stored ← incremental_volume_planner_checkpoint_bytes (bt_checkpoint batch);
      resumed ← parse_incremental_volume_planner_checkpoint stored;
      rest ← advance_persisted resumed batches' last;
      Ok {| bt_checkpoint := bt_checkpoint rest; bt_packs := bt_packs batch ++ bt_packs rest;
            bt_raw_volumes := bt_raw_volumes batch ++ bt_raw_volumes rest |}
  end.

(** Registered under paths that normalisation leaves as they are. *)
Definition stable_files (files : list OrderedArchiveFile) : Prop :=
  Forall (λ o, stable_path (af_path (of_file o))) files.

Lemma stable_planned f f' : stable_path (af_path f) → planned_file f f' →
  text_ok (af_path f') ∧ _normalized_file f' = Ok f'.
Proof.
  assert (∀ g g', stable_path (af_path g) → _normalized_file g = Ok g' → g' = g) as Hsame.
  { intros g g' [_ Hp] Hn. unfold _normalized_file in Hn. rewrite Hp, ok_bind in Hn.
    destruct (startswith _ _); [done|]. destruct (_ || _); [done|]. injection Hn as <-. by destruct g. }
  intros Hs (f1 & H1 & H2). apply Hsame in H1 as ->; [|done]. pose proof (Hsame _ _ Hs H2) as ->.
  split; [apply Hs|done].
Qed.

Lemma stable_encodable files : stable_files files → encodable files.
Proof.
  intros Hs o f Ho Hf. unfold stable_files in Hs. rewrite Forall_forall in Hs.
  by apply (stable_planned _ _ (Hs o Ho) Hf).
Qed.

(** After a call on stable files, what is pending is normalised. *)
Lemma run_pending c files st st' fs vols : checkpoint_valid c → stable_files files → start_advance c = Ok st →
  Forall2 (λ o f, planned_file (of_file o) f) files fs → ran (ck_policy c) st fs false st' vols →
  Forall (λ f, text_ok (af_path f) ∧ _normalized_file f = Ok f) (as_pending st').
Proof.
  intros Hc Hs Hst Hfs Hran. pose proof (start_advance_spec _ _ Hst) as (_ & _ & Hpe & _).
  destruct (rn_groups _ _ _ _ _ _ Hran) as (gs & pending & Hg & _ & ->). apply group_run_files in Hg.
  assert (Forall (λ f, text_ok (af_path f) ∧ _normalized_file f = Ok f) (as_pending st ++ fs)) as Hall.
  { apply Forall_app. split; [rewrite Hpe; apply Hc|]. clear -Hfs Hs. unfold stable_files in Hs.
    induction Hfs as [|o f files fs Ho _ IH]; [constructor|]. apply Forall_cons in Hs as [Hs1 Hs].
    constructor; [by eapply stable_planned|by apply IH]. }
  rewrite <- Hg in Hall. by apply Forall_app in Hall as [_ ?].
Qed.

(** A call on stable files leaves a checkpoint that can be persisted. *)
Lemma advance_valid c files batch : checkpoint_valid c → stable_files files →
  advance_incremental_volume_plan c files false = Ok batch → checkpoint_valid (bt_checkpoint batch).
Proof.
  intros Hc Hs Ha. pose proof (new_checkpoint_facts _ _ (cv_checked _ Hc)) as (H0 & _).
  apply advance_spec in Ha as (st & st' & fs & vols & id & Hst & _ & Hfs & Hran & Hid & Hnew & Heq & _); [|done].
  pose proof (start_advance_spec _ _ Hst) as (_ & Hfrom & _).
  injection Hid as <-. rewrite <- Heq in Hnew. split; [done| | | |]; rewrite Heq; cbn [next_checkpoint ck_policy
    ck_pending_pack_files ck_content_hash_state ck_content_identity from_option]; [apply Hc| | |done].
  - by eapply run_pending.
  - apply dumps_text, state_payload_wf. eapply absorbed_wf; [by eapply from_state_wf|apply Hran|].
    eapply planned_rows; [|exact Hfs]. by apply stable_encodable.
Qed.

(** Persisting is transparent: the resumed calls are those on the checkpoints in
    memory. *)
Lemma advance_persisted_batches c batches last : checkpoint_valid c → stable_files (concat batches) →
  advance_persisted c batches last = advance_batches c batches last.
Proof.
  revert c. induction batches as [|files batches IH]; intros c Hc Hs; [done|].
  cbn [concat] in Hs. apply Forall_app in Hs as [Hf Hs]. cbn [advance_persisted advance_batches].
  destruct (advance_incremental_volume_plan c files false) as [batch|e] eqn:Ha; [|done].
  pose proof (advance_valid _ _ _ Hc Hf Ha) as Hv. rewrite !ok_bind.
  destruct (checkpoint_roundtrip _ Hv) as (content & -> & Hparse). rewrite ok_bind, Hparse, ok_bind.
  by rewrite IH.
Qed.

(** ** A persisted run succeeds when the uninterrupted one does *)

Lemma pending_loop policy seen bytes fs r : Forall (λ f, _normalized_file f = Ok f) fs →
  foldM (pending_step policy) (seen, bytes) fs = Ok r ↔
  NoDup (af_path <$> fs) ∧ Forall (λ f, af_path f ∉ seen ∧ is_packed policy f = true) fs ∧
  r = (reverse (af_path <$> fs) ++ seen, bytes + sumZ af_bytes fs).
Proof.
  intros Hn. revert seen bytes. induction Hn as [|f fs Hf _ IH]; intros seen bytes; cbn [foldM].
  { cbn. rewrite Z.add_0_r. split; [intros [= <-]; split_and!; constructor|by intros (_ & _ & ->)]. }
  cbn [pending_step]. rewrite Hf, ok_bind, fmap_cons, NoDup_cons, Forall_cons, reverse_cons.
  unfold is_packed at 1. destruct (bool_decide_reflect (af_path f ∈ seen)) as [Hin|Hin].
  { split; [done|]. by intros (_ & [[Hnot _] _] & _). }
  destruct (Z.leb_spec (cp_pack_member_bytes policy) (af_bytes f)) as [Hb|Hb].
  { split; [done|]. intros (_ & [[_ Hlt] _] & _). lia. }
  rewrite ok_bind, IH, <- app_assoc. cbn [sumZ foldr app]. rewrite Z.add_assoc.
  split.
  - intros (Hnd & Hall & ->). split_and!; [|done|done|lia| |done].
    + intros (g & Hg & Hin')%list_elem_of_fmap. rewrite Forall_forall in Hall. destruct (Hall g Hin') as [Hs _]. set_solver.
    + eapply Forall_impl; [exact Hall|]. set_solver.
  - intros ([Hnew Hnd] & [_ Hall] & ->). split_and!; [done| |done].
    rewrite Forall_forall in *. intros g Hg. destruct (Hall g Hg) as [Hs Hp]. split; [|done].
    apply not_elem_of_cons. split; [|done]. intros Heq. apply Hnew. rewrite <- Heq. by apply list_elem_of_fmap_2.
Qed.

(** The files that stay pending are the first of the pack that holds them. *)
Lemma pending_flushed policy sequence pending files gs pending' vols : pending ≠ [] →
  group_run policy pending files = (gs, pending') →
  realises policy sequence (gs ++ close_pending pending') vols →
  ∃ more sequence' plan, plan_pack_volume (pending ++ more) sequence' (cp_pack_member_bytes policy)
    (cp_pack_part_plaintext_bytes policy) = Ok plan.
Proof.
  intros Hne. assert (∀ gs vols, realises policy sequence (close_pending pending ++ gs) vols → ∃ more sequence' plan,
    plan_pack_volume (pending ++ more) sequence' (cp_pack_member_bytes policy) (cp_pack_part_plaintext_bytes policy) = Ok plan)
    as Hclose.
  { intros gs0 vols0. destruct pending; [done|]. intros (p & _ & _ & Hp & _). exists [], sequence, p. by rewrite app_nil_r. }
  revert gs pending Hne Hclose. induction files as [|f files IH]; intros gs pending Hne Hclose; cbn [group_run].
  { intros [= <- <-]. cbn [app]. rewrite <- (app_nil_r (close_pending pending)). apply Hclose. }
  destruct (group_step policy pending f) as [gs1 p1] eqn:Hs. destruct (group_run policy p1 files) as [gs2 p2] eqn:Hr.
  intros [= <- <-]. unfold group_step in Hs. destruct (is_packed policy f); [destruct (_ && _)|]; injection Hs as <- <-.
  - rewrite <- app_assoc. apply Hclose.
  - intros Hre. cbn [app] in Hre. destruct (IH gs2 (pending ++ [f])) as (more & sequence' & plan & Hplan);
      [by destruct pending| |done|done|].
    + intros gs0 vols0. destruct pending as [|g pending]; [done|]. intros (p & _ & _ & Hp & _). exists [], sequence, p. by rewrite app_nil_r.
    + exists (f :: more), sequence', plan. by rewrite <- app_assoc in Hplan.
  - rewrite <- !app_assoc. apply Hclose.
Qed.

Lemma planned_pack_distinct pending more sequence max part plan : Forall (λ f, _normalized_file f = Ok f) pending →
  plan_pack_volume (pending ++ more) sequence max part = Ok plan → NoDup (af_path <$> pending).
Proof.
  intros Hn (out & Hout & _)%plan_pack_volume_inv.
  apply normalized_files_spec in Hout as (new & Hnew & Hperm & _ & [_ Hnd] & _).
  apply Forall2_app_inv_l in Hnew as (new1 & new2 & H1 & _ & ->).
  rewrite Hperm, fmap_app in Hnd. apply NoDup_app in Hnd as [Hnd _]. replace (af_path <$> pending) with (af_path <$> new1); [done|].
  clear -Hn H1. induction H1 as [|f g fs gs (Hp & _) _ IH]; [done|]. apply Forall_cons in Hn as [Hf Hn].
  rewrite !fmap_cons, (IH Hn). f_equal. unfold _normalized_file in Hf. rewrite Hp, ok_bind in Hf.
  destruct (startswith _ _); [done|]. destruct (_ || _); [done|]. by injection Hf as <-.
Qed.

(** Single files fit into a pack, so that what is pending is always within the
    limits a checkpoint keeps. *)
Definition members_fit (policy : CollectionVolumePolicy) : Prop :=
  cp_pack_member_bytes policy ≤ cp_pack_source_bytes policy + 1.

Lemma pending_bounds policy pending : members_fit policy → (pending ≠ [] → group_ok policy (PackGroup pending)) →
  0 < cp_pack_files policy → 0 < cp_pack_source_bytes policy →
  len pending ≤ cp_pack_files policy ∧ sumZ af_bytes pending ≤ cp_pack_source_bytes policy ∧
  Forall (λ f, is_packed policy f = true) pending.
Proof.
  intros Hfit Hok Hf Hs. destruct pending as [|f fs]; [change (len []) with 0; split_and!; [lia|cbn; lia|constructor]|].
  destruct (Hok ltac:(done)) as [Hall [Hb Hsum]]. split_and!; [lia| |done]. destruct Hsum as [|H1]; [done|].
  destruct fs as [|g fs]; [|rewrite !len_cons in H1; pose proof (len_nonneg fs); lia]. apply Forall_cons in Hall as [Hp _].
  unfold is_packed in Hp. unfold members_fit in Hfit. cbn. lia.
Qed.

Lemma new_checkpoint_pending c c' : new_checkpoint c = Ok c' → 0 ≤ ck_bytes_seen c ∧
  len (ck_pending_pack_files c) ≤ cp_pack_files (ck_policy c) ∧
  ∃ seen bytes, foldM (pending_step (ck_policy c)) ([], 0) (ck_pending_pack_files c) = Ok (seen, bytes) ∧
    bytes ≤ cp_pack_source_bytes (ck_policy c).
Proof.
  unfold new_checkpoint. intros Hc. destruct (Z.ltb_spec (Z.min (Z.min (ck_next_file_order c)
    (ck_next_sequence c)) (Z.min (ck_files_seen c) (ck_bytes_seen c))) 0); [done|].
  destruct (negb _) in Hc; [done|]. apply bind_Ok in Hc as (? & _ & Hc).
  destruct (Z.ltb_spec (cp_pack_files (ck_policy c)) (len (ck_pending_pack_files c))); [done|].
  apply bind_Ok in Hc as ([seen bytes] & Hf & Hc).
  destruct (Z.ltb_spec (cp_pack_source_bytes (ck_policy c)) bytes); [done|].
  split_and!; [lia|lia|]. by exists seen, bytes.
Qed.

(** The pending files of a checkpoint are such a group. *)
Lemma checkpoint_pending_ok c : checkpoint_valid c → ck_pending_pack_files c ≠ [] →
  group_ok (ck_policy c) (PackGroup (ck_pending_pack_files c)).
Proof.
  intros [(_ & Hlen & seen & bytes & Hf & Hb)%new_checkpoint_pending _ Hpend _ _] Hne.
  apply pending_loop in Hf as (_ & Hall & [= _ ->]); [|eapply Forall_impl; [exact Hpend|]; by intros ? []].
  split; [eapply Forall_impl; [exact Hall|]; by intros ? []|].
  split; [|left; lia]. destruct (ck_pending_pack_files c); [done|]. rewrite len_cons in *. pose proof (len_nonneg l). lia.
Qed.

(** The checkpoint of a call that is not final passes its checks. *)
Lemma open_checkpoint policy st : as_next_order st = as_files_seen st → 0 ≤ as_files_seen st →
  0 ≤ as_bytes_seen st → 0 ≤ as_next_sequence st < 2 ^ 256 → state_wf (as_content_digest st) →
  Forall (λ f, _normalized_file f = Ok f) (as_pending st) → NoDup (af_path <$> as_pending st) →
  len (as_pending st) ≤ cp_pack_files policy ∧ sumZ af_bytes (as_pending st) ≤ cp_pack_source_bytes policy ∧
    Forall (λ f, is_packed policy f = true) (as_pending st) →
  new_checkpoint (next_checkpoint policy st false None) = Ok (next_checkpoint policy st false None).
Proof.
  intros Ho H0 Hb Hs Hw Hn Hnd (Hlen & Hsum & Hall). unfold new_checkpoint, next_checkpoint.
  cbn [ck_policy ck_content_hash_state ck_next_file_order ck_next_sequence ck_files_seen ck_bytes_seen
    ck_pending_pack_files ck_closed ck_content_identity andb].
  rewrite (proj2 (Z.ltb_ge _ 0)) by lia. rewrite Ho, Z.eqb_refl. cbn [negb]. unfold format_archive_sequence.
  rewrite (proj2 (Z.ltb_ge (as_next_sequence st) 0)), (proj2 (Z.leb_gt (2 ^ 256) (as_next_sequence st))), ok_bind by lia.
  rewrite (proj2 (Z.ltb_ge (cp_pack_files policy) _)) by lia.
  rewrite (proj2 (pending_loop policy [] 0 (as_pending st)
    (reverse (af_path <$> as_pending st) ++ [], 0 + sumZ af_bytes (as_pending st)) Hn)), ok_bind.
  2: { split_and!; [done| |reflexivity]. eapply Forall_impl; [exact Hall|]. intros f Hf. split; [set_solver|done]. }
  rewrite (proj2 (Z.ltb_ge (cp_pack_source_bytes policy) _)) by lia.
  by rewrite from_state_export.
Qed.

Lemma planned_bytes (files : list OrderedArchiveFile) fs :
  Forall2 (λ o f, planned_file (of_file o) f) files fs → 0 ≤ sumZ af_bytes fs.
Proof.
  intros Hfs. apply sumZ_nonneg. induction Hfs as [|o f files fs (f1 & _ & Hf) _ IH]; constructor; [|done].
  by apply normalized_file_digest in Hf as (_ & _ & _ & ?).
Qed.

(** In the middle of a run that succeeds, the state makes a checkpoint. *)
Lemma middle_checkpoint c files st st1 st2 fs fs' vols vols' : checkpoint_valid c → members_fit (ck_policy c) →
  stable_files files → start_advance c = Ok st → Forall2 (λ o f, planned_file (of_file o) f) files fs →
  ran (ck_policy c) st fs false st1 vols → ran (ck_policy c) st1 fs' true st2 vols' → as_next_sequence st2 < 2 ^ 256 →
  new_checkpoint (next_checkpoint (ck_policy c) st1 false None) = Ok (next_checkpoint (ck_policy c) st1 false None).
Proof.
  intros Hc Hfit Hs Hst Hfs Hran Hran2 Hseq2. pose proof (run_pending _ _ _ _ _ _ Hc Hs Hst Hfs Hran) as Hn.
  pose proof (start_advance_spec _ _ Hst) as (_ & Hfrom & Hpe & _ & Hor & Hsq & Hse & Hby & _).
  pose proof (new_checkpoint_facts _ _ (cv_checked _ Hc)) as (H0 & Hord & Hseq & _).
  pose proof (new_checkpoint_pending _ _ (cv_checked _ Hc)) as (Hb0 & _).
  pose proof (policy_positive _ _ (cv_policy_checked _ Hc)) as Hpos.
  pose proof (len_nonneg vols'). pose proof (len_nonneg vols). pose proof (len_nonneg fs). apply open_checkpoint.
  - rewrite (rn_order _ _ _ _ _ _ Hran), (rn_seen _ _ _ _ _ _ Hran). lia.
  - rewrite (rn_seen _ _ _ _ _ _ Hran). lia.
  - rewrite (rn_bytes _ _ _ _ _ _ Hran), Hby. pose proof (planned_bytes _ _ Hfs). lia.
  - rewrite (rn_sequence _ _ _ _ _ _ Hran2) in Hseq2. split; [rewrite (rn_sequence _ _ _ _ _ _ Hran)|]; lia.
  - eapply absorbed_wf; [by eapply from_state_wf|apply Hran|]. eapply planned_rows; [|exact Hfs]. by apply stable_encodable.
  - eapply Forall_impl; [exact Hn|]. by intros ? [].
  - destruct (decide (as_pending st1 = [])) as [->|Hne]; [constructor|].
    destruct (rn_groups _ _ _ _ _ _ Hran2) as (gs & pending & Hg & Hre & _).
    destruct (pending_flushed _ _ _ _ _ _ _ Hne Hg Hre) as (more & sequence & plan & Hplan).
    eapply planned_pack_distinct; [|exact Hplan]. eapply Forall_impl; [exact Hn|]. by intros ? [].
  - destruct (rn_groups _ _ _ _ _ _ Hran) as (gs & pending & Hg & _ & ->). apply pending_bounds; [done| |lia|lia].
    eapply (group_run_ok _ (as_pending st)); [lia| |exact Hg]. rewrite Hpe. by apply checkpoint_pending_ok.
Qed.

(** A call over [a] and [b] passes, after [a], a checkpoint from which a call over
    [b] succeeds. *)
Lemma advance_split c a b r : checkpoint_valid c → members_fit (ck_policy c) → stable_files a →
  advance_incremental_volume_plan c (a ++ b) true = Ok r →
  ∃ b1 b2, advance_incremental_volume_plan c a false = Ok b1 ∧ ck_policy (bt_checkpoint b1) = ck_policy c ∧
    advance_incremental_volume_plan (bt_checkpoint b1) b true = Ok b2.
Proof.
  intros Hc Hfit Hs. rewrite advance_unfold. intros (st & Hst & Hr)%bind_Ok.
  rewrite foldM_app in Hr. apply bind_Ok in Hr as (st2 & Hloop & Hr). apply bind_Ok in Hloop as (st1 & Hloop1 & Hloop2).
  apply bind_Ok in Hr as (st3 & Hflush & Hr).
  pose proof (start_advance_spec _ _ Hst) as (_ & Hfrom & _ & Hpb & _ & Hsq & Hse & _ & Hp0 & Hr0).
  assert (0 ≤ as_files_seen st) as H0 by (rewrite Hse; apply (new_checkpoint_facts _ _ (cv_checked _ Hc))).
  destruct (run_spec _ _ _ false _ _ Hpb H0 Hloop1 eq_refl) as (fs & vols & Hfs & Hran).
  assert (0 ≤ as_files_seen st1) as H1 by (rewrite (rn_seen _ _ _ _ _ _ Hran); pose proof (len_nonneg fs); lia).
  destruct (run_spec _ _ _ _ _ _ (rn_pending _ _ _ _ _ _ Hran) H1 Hloop2 Hflush) as (fs' & vols' & _ & Hran2).
  unfold finish_batch in Hr. apply bind_Ok in Hr as (identity & Hid & Hr). apply bind_Ok in Hr as (next & Hnext & _).
  pose proof (new_checkpoint_facts _ _ Hnext) as (_ & _ & [_ Hseq] & _).
  pose proof (middle_checkpoint _ _ _ _ _ _ _ _ _ Hc Hfit Hs Hst Hfs Hran Hran2 Hseq) as Hck.
  assert (state_wf (as_content_digest st1)) as Hw.
  { eapply absorbed_wf; [by eapply from_state_wf|apply Hran|]. eapply planned_rows; [|exact Hfs]. by apply stable_encodable. }
  destruct (start_next (ck_policy c) st1 None Hw (rn_pending _ _ _ _ _ _ Hran)) as (st4 & Hst4 & Heq & Hp4 & Hr4 & Hpb4 & Hse4 & Hsq4).
  rewrite Heq, advance_loop_frame in Hloop2. destruct (foldM _ st4 b) as [st5|] eqn:Hloop5; [injection Hloop2 as <-|done].
  change (last_flush (ck_policy c) true (add_output (as_packs st1) (as_raw_volumes st1) st5) = Ok st3) in Hflush.
  rewrite last_flush_frame in Hflush. destruct (last_flush _ true st5) as [st6|] eqn:Hflush6; [injection Hflush as <-|done].
  assert (0 ≤ as_files_seen st4) as H4 by (by rewrite Hse4).
  destruct (run_spec _ _ _ _ _ _ Hpb4 H4 Hloop5 Hflush6) as (fs6 & vols6 & _ & Hran6).
  eexists _, _. split_and!.
  - rewrite advance_unfold, Hst, ok_bind, Hloop1, ok_bind. cbn [last_flush]. rewrite ok_bind.
    rewrite <- Hsq, (finish_batch_ran _ _ _ _ _ _ Hp0 Hr0 Hran). cbn [final_identity]. by rewrite ok_bind, Hck, ok_bind.
  - done.
  - cbn [bt_checkpoint]. rewrite advance_unfold, Hst4, ok_bind. cbn [next_checkpoint ck_policy ck_next_sequence].
    rewrite Hloop5, ok_bind, Hflush6, ok_bind, <- Hsq4, (finish_batch_ran _ _ _ _ _ _ Hp4 Hr4 Hran6).
    change (as_content_digest (add_output (as_packs st1) (as_raw_volumes st1) st6)) with (as_content_digest st6) in Hid.
    change (next_checkpoint (ck_policy c) (add_output (as_packs st1) (as_raw_volumes st1) st6) true identity)
      with (next_checkpoint (ck_policy c) st6 true identity) in Hnext. by rewrite Hid, ok_bind, Hnext, ok_bind.
Qed.

Lemma advance_batches_complete c batches last r : checkpoint_valid c → members_fit (ck_policy c) →
  stable_files (concat batches) → advance_incremental_volume_plan c (concat batches ++ last) true = Ok r →
  advance_batches c batches last = Ok r.
Proof.
  revert c r. induction batches as [|files batches IH]; intros c r Hc Hfit Hs Hr; [done|].
  cbn [concat] in *. rewrite <- app_assoc in Hr. pose proof Hs as [Hf Hs']%Forall_app.
  destruct (advance_split _ _ _ _ Hc Hfit Hf Hr) as (b1 & b2 & H1 & Hpol & H2).
  pose proof (proj1 (new_checkpoint_facts _ _ (cv_checked _ Hc))) as H0.
  rewrite (advance_merge _ _ _ _ _ _ H0 (stable_encodable _ Hf) H1 H2) in Hr. injection Hr as <-.
  cbn [advance_batches]. rewrite H1, ok_bind.
  by rewrite (IH _ b2 (advance_valid _ _ _ Hc Hf H1) ltac:(by rewrite Hpol) Hs' H2), ok_bind.
Qed.

(** C29. How the files are split into batches does not matter: for files under
    stable paths, when a run that stores the canonical bytes of its checkpoint
    after every batch and starts the next call from what it parses of them
    succeeds, so does one call over all files without any interruption, with the
    same final checkpoint and the same volumes; and when the one call succeeds, so
    does the run in batches, with the same result, if the policy's member limit is
    at most one byte above its pack byte target. *)
Theorem batching_invariant c batches last r :
  checkpoint_valid c → stable_files (concat batches) →
  (advance_persisted c batches last = Ok r →
   advance_incremental_volume_plan c (concat batches ++ last) true = Ok r) ∧
  (cp_pack_member_bytes (ck_policy c) ≤ cp_pack_source_bytes (ck_policy c) + 1 →
   advance_incremental_volume_plan c (concat batches ++ last) true = Ok r →
   advance_persisted c batches last = Ok r).
Proof.
  intros Hc Hs. rewrite advance_persisted_batches by done. pose proof (cv_checked _ Hc) as (H0 & _)%new_checkpoint_facts.
  split; [|intros Hfit; by apply advance_batches_complete]. apply advance_batches_merge; [done|]. by apply stable_encodable.
Qed.

(** ** Exceptions *)

(** [ValueError]s about the input, or the [OverflowError] of a digest over 2^61
    bytes. *)
Definition planner_error (k : exn_kind) : bool := is_value_error k || bool_decide (k = OverflowError).

Lemma raises_value {A} (m : result A) : raises_only is_value_error m → raises_only planner_error m.
Proof. destruct m as [a|e]; [done|]. unfold raises_only, planner_error. by intros ->. Qed.

Lemma compress_raises hs block : raises_only is_value_error (_compress hs block).
Proof. unfold _compress. walk_exceptions. Qed.

Lemma update_raises st data : raises_only is_value_error (update st data).
Proof.
  assert (∀ fuel hs buffer, raises_only is_value_error (absorb fuel hs buffer)) as Habs.
  { induction fuel as [|fuel IH]; intros hs buffer; cbn [absorb]; [done|]. destruct (64 <=? len buffer); [|done].
    apply raises_only_bind; [apply compress_raises|]. auto. }
  unfold update. apply raises_only_bind; [apply Habs|]. by intros [hs rest] _.
Qed.

Lemma hexdigest_raises st : raises_only planner_error (hexdigest st).
Proof.
  assert (∀ n z, raises_only planner_error (to_bytes_big n z)) as Hb.
  { intros n z. unfold to_bytes_big. walk_exceptions. }
  assert (∀ fuel hs buffer, raises_only planner_error (drain fuel hs buffer)) as Hd.
  { induction fuel as [|fuel IH]; intros hs [|b buffer]; cbn [drain]; try done.
    apply raises_only_bind; [apply raises_value, compress_raises|]. auto. }
  unfold hexdigest, digest. repeat (apply raises_only_bind; [|intros ? _]); auto; try done.
  apply raises_only_mapM. auto.
Qed.

Lemma normalized_file_raises f : raises_only is_value_error (_normalized_file f).
Proof. unfold _normalized_file. walk_exceptions. Qed.

Lemma flush_pack_raises policy st : raises_only is_value_error (flush_pack policy st).
Proof.
  unfold flush_pack. destruct (as_pending st); [done|].
  apply raises_only_bind; [apply plan_pack_volume_exceptions|done].
Qed.

Lemma advance_step_raises policy st o : raises_only is_value_error (advance_step policy st o).
Proof.
  unfold advance_step, normalize_ordered_archive_file, hash_file, pend_file, raw_file,
    _content_identity_member_bytes.
  pose proof normalized_file_raises. pose proof flush_pack_raises. pose proof update_raises.
  walk_exceptions.
Qed.

Lemma new_checkpoint_raises c d : from_state (ck_content_hash_state c) = Ok d →
  raises_only planner_error (new_checkpoint c).
Proof.
  intros Hd. unfold new_checkpoint. do 2 (apply raises_only_when; [done|intros _]).
  apply raises_only_bind; [unfold format_archive_sequence; walk_exceptions|intros _ _].
  apply raises_only_when; [done|intros _]. apply raises_only_bind.
  { apply raises_value, raises_only_foldM. intros [seen bytes] f _. unfold pending_step.
    pose proof normalized_file_raises. walk_exceptions. }
  intros [seen bytes] _. do 2 (apply raises_only_when; [done|intros _]). rewrite Hd. cbn [try_except].
  rewrite ok_bind. destruct (ck_closed c); [|walk_exceptions].
  apply raises_only_bind; [apply raises_value, update_raises|intros f _].
  apply raises_only_bind; [apply hexdigest_raises|intros e _]. walk_exceptions.
Qed.

(** Advancing an accepted checkpoint never fails an internal check: it raises only
    [ValueError]s (or the [OverflowError] of a digest over more than 2^61 bytes);
    the sequence check's [RuntimeError] cannot fire. *)
Theorem advance_raises c files final :
  new_checkpoint c = Ok c → encodable files →
  raises_only planner_error (advance_incremental_volume_plan c files final).
Proof.
  intros (H0 & _ & _ & d & Hd)%new_checkpoint_facts He. rewrite advance_unfold. apply raises_only_bind.
  { unfold start_advance. rewrite Hd. walk_exceptions. }
  intros st Hst. pose proof (start_advance_spec _ _ Hst) as (_ & Hfrom & _ & Hb & _ & Hsq & Hse & _ & Hp & Hr).
  apply raises_only_bind; [apply raises_value, raises_only_foldM; intros; apply advance_step_raises|].
  intros st1 H1. apply raises_only_bind.
  { unfold last_flush. destruct final; [apply raises_value, flush_pack_raises|done]. }
  intros st2 H2. rewrite <- Hse in H0.
  destruct (run_spec _ _ _ _ _ _ Hb H0 H1 H2) as (fs & vols & Hfs & Hran).
  rewrite <- Hsq, (finish_batch_ran _ _ _ _ _ _ Hp Hr Hran). apply raises_only_bind.
  { unfold final_identity. destruct final; [|done].
    apply raises_only_bind; [apply raises_value, update_raises|intros f _].
    apply raises_only_bind; [apply hexdigest_raises|done]. }
  intros identity _. apply raises_only_bind; [|done].
  apply (new_checkpoint_raises _ (as_content_digest st2)). cbn [next_checkpoint ck_content_hash_state].
  apply from_state_export. eapply absorbed_wf; [by eapply from_state_wf|apply Hran|by eapply planned_rows].
Qed.
End incremental.

(** A pending file may exceed the byte limit that the checkpoint enforces: the
    policy accepts a member limit above the pack byte target, a single file
    between the two stays pending, and then every non-final call that sees it
    last fails, although the final call and the one-shot planner accept it. *)
Theorem oversized_pending_rejected :
  let policy := {| cp_pack_source_bytes := 100; cp_pack_files := 10; cp_pack_member_bytes := 200;
     cp_pack_part_plaintext_bytes := 65536; cp_raw_volume_plaintext_bytes := 65536;
     cp_raw_part_plaintext_bytes := 65536 |} in
  let file := {| af_path := str "a"; af_bytes := 150; af_sha256 := sha256_hex [] |} in
  let advance final :=
    c ← @new_incremental_volume_planner ascii_env (Some policy);
    @advance_incremental_volume_plan ascii_env c [{| of_order := 0; of_file := file |}] final in
  raised (new_CollectionVolumePolicy policy) = None ∧ raised (advance false) = Some ValueError ∧
  raised (advance true) = None ∧
  raised (@plan_collection_volumes ascii_env [file] (Some policy)) = None.
Proof. vm_compute. repeat split; reflexivity. Qed.

(** ** Examples *)

Definition sample_order : list OrderedArchiveFile :=
  (λ p, {| of_order := p.1; of_file := p.2 |}) <$> zip [0; 1; 2] sample_collection.

Definition sample_planner : result IncrementalVolumePlannerCheckpoint :=
  @new_incremental_volume_planner ascii_env (Some sample_policy).

Definition sample_batches : list (list OrderedArchiveFile) := [take 1 sample_order; []].

Lemma sample_encodable : @encodable ascii_env sample_order.
Proof.
  assert (Forall (λ o, match f1 ← @_normalized_file ascii_env (of_file o); @_normalized_file ascii_env f1 with
    | Ok f => bool_decide (text_ok (af_path f)) = true | Err _ => True end) sample_order) as Hall.
  { repeat (apply Forall_cons_2; [vm_compute; reflexivity|]). apply Forall_nil_2. }
  intros o f Ho (f1 & H1 & H2). rewrite Forall_forall in Hall. specialize (Hall o Ho).
  rewrite H1, ok_bind, H2 in Hall. by apply bool_decide_eq_true in Hall.
Qed.

Lemma sample_batches_encodable : @encodable ascii_env (concat sample_batches).
Proof.
  intros o f Ho. apply sample_encodable. revert Ho. cbn [concat sample_batches app].
  rewrite app_nil_r. intros Ho. rewrite <- (take_drop 1 sample_order). apply elem_of_app. left. exact Ho.
Qed.


Lemma incremental_refines_grouping_witness : ∃ c r fs gs, sample_planner = Ok c ∧
  @advance_batches ascii_env c sample_batches (drop 1 sample_order) = Ok r ∧
  concat (group_files <$> gs) = fs ∧ @realises ascii_env (ck_policy c) 0 gs (bt_volumes r) ∧
  len (bt_volumes r) = 3.
Proof.
  destruct sample_planner as [c|e] eqn:Hc; [|vm_compute in Hc; discriminate Hc].
  destruct (@advance_batches ascii_env c sample_batches (drop 1 sample_order)) as [r|e] eqn:Hr;
    [|vm_compute in Hc; injection Hc as <-; vm_compute in Hr; discriminate Hr].
  destruct (@incremental_refines_grouping ascii_env (Some sample_policy) c sample_batches
    (drop 1 sample_order) r Hc) as (fs & gs & pending & _ & _ & Hre & Hfiles & _).
  - vm_compute in Hc. injection Hc as <-. vm_compute. reflexivity.
  - exact sample_batches_encodable.
  - exact Hr.
  - exists c, r, fs, (gs ++ close_pending pending).
    split; [reflexivity|]. split; [exact Hr|]. split; [exact Hfiles|]. split; [exact Hre|].
    vm_compute in Hc. injection Hc as <-. vm_compute in Hr. injection Hr as <-. vm_compute. reflexivity.
Defined.

Lemma incremental_content_identity_witness : ∃ c r fs identity, sample_planner = Ok c ∧
  @advance_batches ascii_env c sample_batches (drop 1 sample_order) = Ok r ∧
  @collection_content_identity_ordered ascii_env fs = Ok identity ∧
  ck_content_identity (bt_checkpoint r) = Some identity.
Proof.
  destruct sample_planner as [c|e] eqn:Hc; [|vm_compute in Hc; discriminate Hc].
  destruct (@advance_batches ascii_env c sample_batches (drop 1 sample_order)) as [r|e] eqn:Hr;
    [|vm_compute in Hc; injection Hc as <-; vm_compute in Hr; discriminate Hr].
  destruct (@incremental_content_identity ascii_env (Some sample_policy) c sample_batches
    (drop 1 sample_order) r Hc sample_batches_encodable Hr) as (fs & identity & _ & Hi & Hck).
  exists c, r, fs, identity. split; [reflexivity|]. split; [exact Hr|]. split; [exact Hi|exact Hck].
Defined.

(** An open checkpoint with one pending file. *)
Definition sample_checkpoint : result IncrementalVolumePlannerCheckpoint :=
  c ← sample_planner;
  b ← @advance_incremental_volume_plan ascii_env c (take 2 sample_order) false;
  Ok (bt_checkpoint b).

Lemma checkpoint_roundtrip_witness : ∃ c content, sample_checkpoint = Ok c ∧
  len (ck_pending_pack_files c) = 1 ∧
  @incremental_volume_planner_checkpoint_bytes ascii_env c = Ok content ∧
  @parse_incremental_volume_planner_checkpoint ascii_env content = Ok c.
Proof.
  destruct sample_checkpoint as [c|e] eqn:Hc; [|vm_compute in Hc; discriminate Hc].
  destruct (@checkpoint_roundtrip ascii_env c) as (content & Hb & Hp).
  - vm_compute in Hc. injection Hc as <-. split.
    + vm_compute. reflexivity.
    + vm_compute. reflexivity.
    + cbn [ck_pending_pack_files]. apply Forall_cons_2; [|apply Forall_nil_2].
      split; [apply (bool_decide_unpack _); vm_compute; exact I|vm_compute; reflexivity].
    + apply (bool_decide_unpack _). vm_compute. exact I.
    + exact I.
  - exists c, content. split; [reflexivity|]. split; [|split; [exact Hb|exact Hp]].
    vm_compute in Hc. injection Hc as <-. reflexivity.
Defined.

Lemma batching_invariant_witness : ∃ c r, sample_planner = Ok c ∧
  @advance_persisted ascii_env c sample_batches (drop 1 sample_order) = Ok r ∧
  @advance_incremental_volume_plan ascii_env c (concat sample_batches ++ drop 1 sample_order) true = Ok r.
Proof.
  destruct sample_planner as [c|e] eqn:Hc; [|vm_compute in Hc; discriminate Hc].
  destruct (@advance_incremental_volume_plan ascii_env c (concat sample_batches ++ drop 1 sample_order) true) as [r|e] eqn:Hr;
    [|vm_compute in Hc; injection Hc as <-; vm_compute in Hr; discriminate Hr].
  destruct (@batching_invariant ascii_env c sample_batches (drop 1 sample_order) r) as [Hone Hmany].
  - vm_compute in Hc. injection Hc as <-. split.
    + vm_compute. reflexivity.
    + vm_compute. reflexivity.
    + apply Forall_nil_2.
    + apply (bool_decide_unpack _). vm_compute. exact I.
    + exact I.
  - apply Forall_cons_2; [|apply Forall_nil_2].
    split; [apply (bool_decide_unpack _); vm_compute; exact I|vm_compute; reflexivity].
  - assert (cp_pack_member_bytes (ck_policy c) ≤ cp_pack_source_bytes (ck_policy c) + 1) as Hfit.
    { vm_compute in Hc. injection Hc as <-. vm_compute. discriminate. }
    exists c, r. split; [reflexivity|]. split; [exact (Hmany Hfit Hr)|exact (Hone (Hmany Hfit Hr))].
Defined.

Lemma advance_raises_witness : ∃ c, sample_checkpoint = Ok c ∧
  raises_only planner_error (@advance_incremental_volume_plan ascii_env c sample_order true).
Proof.
  destruct sample_checkpoint as [c|e] eqn:Hc; [|vm_compute in Hc; discriminate Hc].
  exists c. split; [reflexivity|]. apply (@advance_raises ascii_env c sample_order true).
  - vm_compute in Hc. injection Hc as <-. vm_compute. reflexivity.
  - exact sample_encodable.
Defined.
