(* ===== verification/Crypto.v ===== *)
(** * Cryptographic primitives

    What the age code takes from Python's standard library: [hmac] with
    SHA-256, base64 and [hashlib.scrypt] (RFC 7914); and the one primitive it
    takes from a third-party package, the ChaCha20-Poly1305 AEAD, which is a
    class with the laws the code relies on.  The instance [tag_aead] (plaintext
    followed by a keyed digest) shows that the laws can hold. *)

From S2P Require Import Prelude Text Sha256.

(** ** [hmac.new(key, msg, hashlib.sha256).digest()] *)

Definition hmac_block (key : pybytes) : pybytes :=
  let k := if 64 <? len key then sha256 key else key in k ++ repeatZ (64 - len k) 0.

Definition hmac_sha256 (key msg : pybytes) : pybytes :=
  let k := hmac_block key in
  sha256 ((Z.lxor 0x5c <$> k) ++ sha256 ((Z.lxor 0x36 <$> k) ++ msg)).

(** ** [hashlib.scrypt] *)

Definition word32 (z : Z) : Z := Z.land z 0xffffffff.
Definition rotl32 (x n : Z) : Z := word32 (Z.lor (Z.shiftl x n) (Z.shiftr x (32 - n))).

(** Little-endian words. *)
Fixpoint le_words (n : nat) (bs : pybytes) : list Z :=
  match n with
  | O => []
  | S n => of_digits 256 (reverse (take 4 bs)) :: le_words n (drop 4 bs)
  end.
Definition words_le (ws : list Z) : pybytes := concat ((λ w, reverse (be_bytes 4 w)) <$> ws).

(** [x[a] ^= rotl(x[b] + x[c], k)] *)
Definition salsa_op (x : list Z) (op : nat * nat * nat * nat) : list Z :=
  let '(a, b, c, k) := op in
  <[a := Z.lxor (nth a x 0) (rotl32 (word32 (nth b x 0 + nth c x 0)) (Z.of_nat k))]> x.

Definition salsa_double_round : list (nat * nat * nat * nat) :=
  [(4, 0, 12, 7); (8, 4, 0, 9); (12, 8, 4, 13); (0, 12, 8, 18);
   (9, 5, 1, 7); (13, 9, 5, 9); (1, 13, 9, 13); (5, 1, 13, 18);
   (14, 10, 6, 7); (2, 14, 10, 9); (6, 2, 14, 13); (10, 6, 2, 18);
   (3, 15, 11, 7); (7, 3, 15, 9); (11, 7, 3, 13); (15, 11, 7, 18);
   (1, 0, 3, 7); (2, 1, 0, 9); (3, 2, 1, 13); (0, 3, 2, 18);
   (6, 5, 4, 7); (7, 6, 5, 9); (4, 7, 6, 13); (5, 4, 7, 18);
   (11, 10, 9, 7); (8, 11, 10, 9); (9, 8, 11, 13); (10, 9, 8, 18);
   (12, 15, 14, 7); (13, 12, 15, 9); (14, 13, 12, 13); (15, 14, 13, 18)]%nat.

Definition salsa20_8 (x : list Z) : list Z :=
  let y := foldl (λ x _, foldl salsa_op x salsa_double_round) x (seq 0 4) in
  zip_with (λ a b, word32 (a + b)) x y.

Definition xor_words : list Z → list Z → list Z := zip_with Z.lxor.

(** Blocks of sixteen words; the even results come before the odd ones. *)
Fixpoint block_mix_loop (x : list Z) (blocks : list (list Z)) : list (list Z) :=
  match blocks with
  | [] => []
  | b :: blocks' => let x := salsa20_8 (xor_words x b) in x :: block_mix_loop x blocks'
  end.

Fixpoint evens {A} (l : list A) : list A :=
  match l with a :: _ :: l' => a :: evens l' | [a] => [a] | [] => [] end.
Definition odds {A} (l : list A) : list A := evens (tl l).

Definition block_mix (blocks : list (list Z)) : list (list Z) :=
  let ys := block_mix_loop (default [] (last blocks)) blocks in evens ys ++ odds ys.

Fixpoint ro_fill (n : nat) (x : list (list Z)) : list (list (list Z)) * list (list Z) :=
  match n with
  | O => ([], x)
  | S n => let '(v, x') := ro_fill n (block_mix x) in (x :: v, x')
  end.

(** [Integerify]: the low bits of the last block. *)
Definition integerify (x : list (list Z)) (mask : Z) : nat :=
  Z.to_nat (Z.land (nth 0 (default [] (last x)) 0) mask).

Fixpoint ro_mix (n : nat) (mask : Z) (v : list (list (list Z))) (x : list (list Z)) : list (list Z) :=
  match n with
  | O => x
  | S n => ro_mix n mask v (block_mix (zip_with xor_words x (nth (integerify x mask) v [])))
  end.

Definition pbkdf2_block (password salt : pybytes) (i : Z) : pybytes :=
  hmac_sha256 password (salt ++ be_bytes 4 i).

(** PBKDF2-HMAC-SHA256 with one iteration. *)
Definition pbkdf2 (password salt : pybytes) (dklen : Z) : pybytes :=
  take (Z.to_nat dklen)
    (concat ((λ i, pbkdf2_block password salt i) <$> rangeZ 1 (1 + (dklen + 31) / 32))).

Fixpoint chunks_of {A} (fuel : nat) (n : nat) (l : list A) : list (list A) :=
  match fuel, l with
  | _, [] => []
  | O, _ => []
  | S fuel, _ => take n l :: chunks_of fuel n (drop n l)
  end.

Definition scrypt_block (n r : Z) (block : pybytes) : pybytes :=
  let words := le_words (Z.to_nat (32 * r)) block in
  let blocks := chunks_of (length words) 16 words in
  let '(v, x) := ro_fill (Z.to_nat n) blocks in
  concat (words_le <$> ro_mix (Z.to_nat n) (n - 1) v x).

Definition scrypt_raw (password salt : pybytes) (n r p dklen : Z) : pybytes :=
  let b := pbkdf2 password salt (p * 128 * r) in
  let blocks := chunks_of (length b) (Z.to_nat (128 * r)) b in
  pbkdf2 password (concat (scrypt_block n r <$> blocks)) dklen.

(** The largest [maxmem] the binding takes, and what [maxmem=0] stands for. *)
Definition INT_MAX : Z := 2 ^ 31 - 1.
Definition openssl_scrypt_max_mem : Z := 32 * 1024 * 1024.

(** The binding converts [maxmem] to a C long and refuses one above
    [INT_MAX]; the library refuses a memory need above it. *)
Definition hashlib_scrypt (password salt : pybytes) (n r p dklen maxmem : Z) : result pybytes :=
  when (maxmem <? - 2 ^ 63) || (2 ^ 63 <=? maxmem)
    raise OverflowError "Python int too large to convert to C long";
  when (n <? 2) || negb (Z.land n (n - 1) =? 0) raise ValueError "n must be a power of 2.";
  when (maxmem <? 0) || (INT_MAX <? maxmem)
    raise ValueError "maxmem must be positive and smaller than 2147483647";
  when (if maxmem =? 0 then openssl_scrypt_max_mem else maxmem) <? p * 128 * r + 32 * r * (n + 2) * 4
    raise ValueError "[digital envelope routines] memory limit exceeded";
  Ok (scrypt_raw password salt n r p dklen).

(** ** Authenticated encryption *)

(** [ChaCha20Poly1305(key).encrypt(nonce, data, b"")] and [.decrypt(...)];
    [None] is the [InvalidTag] exception. *)
Class Aead := {
  aead_encrypt : pybytes → pybytes → pybytes → pybytes;
  aead_decrypt : pybytes → pybytes → pybytes → option pybytes;
  aead_decrypt_encrypt key nonce data :
    aead_decrypt key nonce (aead_encrypt key nonce data) = Some data;
  aead_encrypt_length key nonce data : len (aead_encrypt key nonce data) = len data + 16;
  aead_decrypt_length key nonce data plain :
    aead_decrypt key nonce data = Some plain → len data = len plain + 16;
  aead_encrypt_bytes key nonce data : bytes_ok data → bytes_ok (aead_encrypt key nonce data);
}.

(** *** The laws can hold *)

Definition tag_of (key nonce data : pybytes) : pybytes := take 16 (sha256 (key ++ nonce ++ data)).

Lemma len_tag key nonce data : len (tag_of key nonce data) = 16.
Proof.
  unfold tag_of. rewrite len_take. pose proof (sha256_shape (key ++ nonce ++ data)) as [Hl _]. lia.
Qed.

Definition tag_decrypt (key nonce data : pybytes) : option pybytes :=
  let plain := take (length data - 16) data in
  if (16 <=? len data) && bool_decide (drop (length data - 16) data = tag_of key nonce plain)
  then Some plain else None.

Lemma tag_decrypt_encrypt key nonce data :
  tag_decrypt key nonce (data ++ tag_of key nonce data) = Some data.
Proof.
  unfold tag_decrypt. pose proof (len_tag key nonce data) as Hl. set (t := tag_of key nonce data) in *.
  assert (length (data ++ t) - 16 = length data)%nat as ->.
  { rewrite length_app. unfold len in Hl. lia. }
  rewrite drop_app_length, take_app_length, bool_decide_true by done.
  rewrite (proj2 (Z.leb_le _ _)); [done|]. rewrite len_app. pose proof (len_nonneg data). lia.
Qed.

Lemma tag_decrypt_length key nonce data plain :
  tag_decrypt key nonce data = Some plain → len data = len plain + 16.
Proof.
  unfold tag_decrypt. destruct (Z.leb_spec 16 (len data)); [|done]. destruct (bool_decide _); [|done].
  intros [= <-]. rewrite len_take. unfold len in *. lia.
Qed.

Lemma tag_bytes key nonce data : bytes_ok data → bytes_ok (data ++ tag_of key nonce data).
Proof. intros Hd. apply Forall_app. split; [done|]. apply Forall_take, sha256_shape. Qed.

Definition tag_aead : Aead := {|
  aead_encrypt key nonce data := data ++ tag_of key nonce data;
  aead_decrypt := tag_decrypt;
  aead_decrypt_encrypt := tag_decrypt_encrypt;
  aead_encrypt_length key nonce data :=
    eq_trans (len_app data (tag_of key nonce data)) (f_equal (Z.add (len data)) (len_tag key nonce data));
  aead_decrypt_length := tag_decrypt_length;
  aead_encrypt_bytes := tag_bytes;
|}.

(** ** Known answers *)

(** RFC 4231, test case 2. *)
Example hmac_vector :
  bytes_hex (hmac_sha256 (str "Jefe") (str "what do ya want for nothing?")) =
  str "5bdcc146bf60754e6a042426089575c75a003f089d2739839dec58b964ec3843".
Proof. vm_compute. reflexivity. Qed.

(** RFC 7914, the first test vector. *)
Example scrypt_vector :
  bytes_hex (scrypt_raw [] [] 16 1 1 64) =
  str "77d6576238657b203b19ca42c18a0497f16b4844e3074ae8dfdffa3fede21442fcd0069ded0948f8326a753a0fc81f17e8d3e0fb2e0d3628cf35e20c38d18906".
Proof. vm_compute. reflexivity. Qed.
