(* ===== verification/Base64.v ===== *)
(** * Unpadded base64

    [base64.b64encode] and [base64.b64decode(..., validate=True)] of the
    standard library, and the unpadded canonical form that
    [riverhog_age/resumable_age.py] uses in headers ([_b64_encode],
    [_b64_decode], [_wrap_b64_lines]). *)

From S2P Require Import Prelude Text.

Definition b64_char (d : Z) : Z :=
  if d <? 26 then 65 + d else if d <? 52 then 71 + d else if d <? 62 then d - 4
  else if d =? 62 then chr "+" else chr "/".

Definition b64_value (c : Z) : option Z :=
  if (65 <=? c) && (c <=? 90) then Some (c - 65)
  else if (97 <=? c) && (c <=? 122) then Some (c - 71)
  else if (48 <=? c) && (c <=? 57) then Some (c + 4)
  else if c =? chr "+" then Some 62
  else if c =? chr "/" then Some 63
  else None.

(** [base64.b64encode(data).decode("ascii")] *)
Fixpoint b64encode (bs : pybytes) : pystr :=
  match bs with
  | [] => []
  | [a] => [b64_char (a / 4); b64_char (a mod 4 * 16); chr "="; chr "="]
  | [a; b] => [b64_char (a / 4); b64_char (a mod 4 * 16 + b / 16); b64_char (b mod 16 * 4); chr "="]
  | a :: b :: c :: bs' =>
      [b64_char (a / 4); b64_char (a mod 4 * 16 + b / 16); b64_char (b mod 16 * 4 + c / 64);
       b64_char (c mod 64)] ++ b64encode bs'
  end.

(** [base64.b64decode(s, validate=True)]; [None] is the [ValueError]. *)
Fixpoint b64decode (s : pystr) : option pybytes :=
  match s with
  | [] => Some []
  | a :: b :: c :: d :: s' =>
      va ← b64_value a; vb ← b64_value b;
      if d =? chr "=" then
        match s' with
        | [] =>
            if c =? chr "=" then Some [va * 4 + vb / 16]
            else vc ← b64_value c; Some [va * 4 + vb / 16; vb mod 16 * 16 + vc / 4]
        | _ => None
        end
      else
        vc ← b64_value c; vd ← b64_value d; rest ← b64decode s';
        Some (va * 4 + vb / 16 :: vb mod 16 * 16 + vc / 4 :: vc mod 4 * 64 + vd :: rest)
  | _ => None
  end.

(** [s.rstrip(c)] for one character. *)
Fixpoint drop_char (c : Z) (s : pystr) : pystr :=
  match s with
  | d :: s' => if d =? c then drop_char c s' else s
  | [] => []
  end.
Definition rstrip_char (c : Z) (s : pystr) : pystr := reverse (drop_char c (reverse s)).

Definition _b64_encode (data : pybytes) : pystr := rstrip_char (chr "=") (b64encode data).

Definition _b64_decode (text : pystr) : result pybytes :=
  when bool_decide (chr "=" ∈ text)
    raise AgeFormatError "base64 padding is not permitted in age headers";
  match b64decode (text ++ repeatZ ((4 - len text mod 4) mod 4) (chr "=")) with
  | None => Err (Exn AgeFormatError (str "invalid base64 in age header"))
  | Some raw =>
      when negb (bool_decide (_b64_encode raw = text))
        raise AgeFormatError "non-canonical base64 in age header";
      Ok raw
  end.

(** [text[i : i + 64] + b"\n" for i in range(0, len(text), 64)] *)
Fixpoint wrap_lines (fuel : nat) (text : pybytes) : pybytes :=
  match fuel, text with
  | _, [] => []
  | O, _ => []
  | S fuel, _ => take 64 text ++ [10] ++ wrap_lines fuel (drop 64 text)
  end.

Definition _wrap_b64_lines (data : pybytes) : pybytes :=
  let text := _b64_encode data in
  match text with [] => [10] | _ => wrap_lines (length text) text end.

(** ** The unpadded form *)

Fixpoint b64_raw (bs : pybytes) : pystr :=
  match bs with
  | [] => []
  | [a] => [b64_char (a / 4); b64_char (a mod 4 * 16)]
  | [a; b] => [b64_char (a / 4); b64_char (a mod 4 * 16 + b / 16); b64_char (b mod 16 * 4)]
  | a :: b :: c :: bs' =>
      [b64_char (a / 4); b64_char (a mod 4 * 16 + b / 16); b64_char (b mod 16 * 4 + c / 64);
       b64_char (c mod 64)] ++ b64_raw bs'
  end.

(** Induction in steps of three bytes. *)
Lemma bytes_ind3 (P : pybytes → Prop) :
  P [] → (∀ a, P [a]) → (∀ a b, P [a; b]) → (∀ a b c bs, P bs → P (a :: b :: c :: bs)) → ∀ bs, P bs.
Proof.
  intros H0 H1 H2 H3. assert (∀ bs, P bs ∧ (∀ a, P (a :: bs)) ∧ (∀ a b, P (a :: b :: bs))) as H.
  { induction bs as [|c bs (IH0 & IH1 & IH2)]; [by eauto|]. split_and!; eauto. }
  intros bs. apply H.
Qed.

Definition b64_alphabet (c : Z) : Prop :=
  65 ≤ c ≤ 90 ∨ 97 ≤ c ≤ 122 ∨ 48 ≤ c ≤ 57 ∨ c = 43 ∨ c = 47.

Lemma b64_char_alphabet d : 0 ≤ d < 64 → b64_alphabet (b64_char d).
Proof.
  intros Hd. unfold b64_alphabet, b64_char. change (chr "+") with 43. change (chr "/") with 47.
  repeat case_match; lia.
Qed.

Lemma b64_value_char d : 0 ≤ d < 64 → b64_value (b64_char d) = Some d.
Proof.
  intros Hd. unfold b64_value, b64_char. change (chr "+") with 43. change (chr "/") with 47.
  repeat case_match; f_equal; lia.
Qed.

Lemma b64_char_no_pad d : 0 ≤ d < 64 → (b64_char d =? chr "=") = false.
Proof.
  intros Hd%b64_char_alphabet. change (chr "=") with 61. unfold b64_alphabet in Hd. lia.
Qed.

Lemma b64_raw_alphabet bs : bytes_ok bs → Forall b64_alphabet (b64_raw bs).
Proof.
  induction bs as [|a|a b|a b c bs IH] using bytes_ind3; intros Hb; cbn [b64_raw]; unfold bytes_ok in Hb;
    rewrite ?Forall_cons in Hb; unfold is_byte in Hb.
  - constructor.
  - repeat (apply Forall_cons_2; [apply b64_char_alphabet; lia|]); apply Forall_nil_2.
  - repeat (apply Forall_cons_2; [apply b64_char_alphabet; lia|]); apply Forall_nil_2.
  - destruct Hb as (? & ? & ? & Hb). apply Forall_app. split; [|by apply IH].
    repeat (apply Forall_cons_2; [apply b64_char_alphabet; lia|]); apply Forall_nil_2.
Qed.

Lemma len_b64_raw bs : len (b64_raw bs) = (4 * len bs + 2) / 3.
Proof.
  induction bs as [|a|a b|a b c bs IH] using bytes_ind3; try done.
  cbn [b64_raw]. rewrite len_app, IH, !len_cons, len_nil. lia.
Qed.

Definition b64_pad (bs : pybytes) : pystr := repeatZ ((4 - len (b64_raw bs) mod 4) mod 4) (chr "=").

Lemma b64_pad_step a b c bs : b64_pad (a :: b :: c :: bs) = b64_pad bs.
Proof. unfold b64_pad. cbn [b64_raw]. rewrite len_app. change (len [_; _; _; _]) with 4. f_equal. lia. Qed.

Lemma b64encode_raw bs : b64encode bs = b64_raw bs ++ b64_pad bs.
Proof.
  induction bs as [|a|a b|a b c bs IH] using bytes_ind3; try done.
  rewrite b64_pad_step. cbn [b64encode b64_raw]. by rewrite IH, <- app_assoc.
Qed.

Lemma drop_char_replicate c n s : drop_char c (replicate n c ++ s) = drop_char c s.
Proof. induction n as [|n IH]; cbn; [done|]. by rewrite Z.eqb_refl. Qed.

Lemma rstrip_pad c n s : c ∉ s → rstrip_char c (s ++ replicate n c) = s.
Proof.
  intros Hc. unfold rstrip_char. rewrite reverse_app, reverse_replicate, drop_char_replicate.
  assert (drop_char c (reverse s) = reverse s) as ->; [|by rewrite reverse_involutive].
  destruct (reverse s) as [|d r] eqn:Hr; [done|]. cbn. destruct (Z.eqb_spec d c) as [->|]; [|done].
  exfalso. apply Hc. rewrite <- (reverse_involutive s), Hr. apply elem_of_reverse. by left.
Qed.

Lemma alphabet_not_in c s : ¬ b64_alphabet c → Forall b64_alphabet s → c ∉ s.
Proof. intros Hc Hs Hin. rewrite Forall_forall in Hs. by apply Hc, Hs. Qed.

Lemma b64_encode_raw bs : bytes_ok bs → _b64_encode bs = b64_raw bs.
Proof.
  intros Hb. unfold _b64_encode. rewrite b64encode_raw. apply rstrip_pad.
  apply alphabet_not_in; [|by apply b64_raw_alphabet]. unfold b64_alphabet. change (chr "=") with 61. lia.
Qed.

Lemma b64_decode_raw bs : bytes_ok bs → b64decode (b64_raw bs ++ b64_pad bs) = Some bs.
Proof.
  induction bs as [|a|a b|a b c bs IH] using bytes_ind3; intros Hb; unfold bytes_ok in Hb;
    rewrite ?Forall_cons in Hb; unfold is_byte in Hb; [done| | |].
  - change (b64_pad [a]) with [chr "="; chr "="]. cbn [b64_raw app b64decode].
    rewrite !b64_value_char by lia. cbn [mbind option_bind]. rewrite !Z.eqb_refl. f_equal. f_equal. lia.
  - change (b64_pad [a; b]) with [chr "="]. cbn [b64_raw app b64decode].
    rewrite !b64_value_char by lia. cbn [mbind option_bind]. rewrite Z.eqb_refl, b64_char_no_pad by lia.
    f_equal. f_equal; [lia|]. f_equal. lia.
  - destruct Hb as (Ha & Hb' & Hc & Hb). rewrite b64_pad_step. cbn [b64_raw]. rewrite <- app_assoc.
    cbn [app b64decode]. rewrite !b64_value_char by lia. cbn [mbind option_bind].
    rewrite b64_char_no_pad by lia. rewrite (IH Hb). cbn [mbind option_bind]. f_equal. f_equal; [lia|].
    f_equal; [lia|]. f_equal. lia.
Qed.

(** What is encoded decodes to itself. *)
Lemma b64_roundtrip bs : bytes_ok bs → _b64_decode (_b64_encode bs) = Ok bs.
Proof.
  intros Hb. pose proof (b64_raw_alphabet bs Hb) as Ha. unfold _b64_decode.
  rewrite !(b64_encode_raw bs Hb), bool_decide_false.
  2: { apply alphabet_not_in; [|done]. unfold b64_alphabet. change (chr "=") with 61. lia. }
  fold (b64_pad bs). rewrite (b64_decode_raw bs Hb), (b64_encode_raw bs Hb), bool_decide_true by done. done.
Qed.

(** Only the canonical text of the bytes is accepted. *)
Lemma b64_decode_sound text bs : _b64_decode text = Ok bs → _b64_encode bs = text.
Proof.
  unfold _b64_decode. destruct (bool_decide _); [done|]. destruct (b64decode _) as [raw|]; [|done].
  destruct (decide (_b64_encode raw = text)) as [He|]; [|by rewrite bool_decide_false].
  rewrite bool_decide_true by done. by intros [= <-].
Qed.

Lemma b64_decode_raises text : raises_only is_value_error (_b64_decode text).
Proof. unfold _b64_decode. walk_exceptions. Qed.

#[export] Hint Resolve b64_decode_raises : exceptions.

Lemma b64_encode_alphabet bs : bytes_ok bs → Forall b64_alphabet (_b64_encode bs).
Proof. intros Hb. rewrite b64_encode_raw by done. by apply b64_raw_alphabet. Qed.

Lemma b64_encode_ascii bs : bytes_ok bs → Forall (λ c, 0 ≤ c < 128) (_b64_encode bs).
Proof.
  intros Hb. eapply Forall_impl; [by apply b64_encode_alphabet|]. unfold b64_alphabet. simpl. lia.
Qed.

Lemma len_b64_encode bs : bytes_ok bs → len (_b64_encode bs) = (4 * len bs + 2) / 3.
Proof. intros Hb. rewrite b64_encode_raw by done. apply len_b64_raw. Qed.

(** Short data is one line. *)
Lemma wrap_short data : bytes_ok data → 0 < len data → len data ≤ 48 →
  _wrap_b64_lines data = _b64_encode data ++ [10].
Proof.
  intros Hb H0 Hl. pose proof (len_b64_encode data Hb) as He. unfold _wrap_b64_lines.
  destruct (_b64_encode data) as [|c s] eqn:Ht; [change (len []) with 0 in He; lia|].
  cbn [length wrap_lines]. rewrite take_ge, drop_ge by (unfold len in *; cbn [length] in *; lia).
  by destruct (length s).
Qed.

(** Decoding gives bytes. *)
Lemma b64_value_range c v : b64_value c = Some v → 0 ≤ v < 64.
Proof. unfold b64_value. repeat case_match; intros [= <-]; bool_prop; lia. Qed.

Lemma b64decode_bytes s bs : b64decode s = Some bs → bytes_ok bs.
Proof.
  revert bs. induction s as [s IH] using (induction_ltof1 _ length). unfold ltof in IH. intros bs Hs.
  destruct s as [|a [|b [|c [|d s]]]]; try done; [by injection Hs as <-; constructor|]. cbn [b64decode] in Hs.
  apply bind_Some in Hs as (va & Ha & Hs). apply bind_Some in Hs as (vb & Hb & Hs).
  apply b64_value_range in Ha, Hb. destruct (d =? chr "=").
  - destruct s; [|done]. destruct (c =? chr "=").
    + injection Hs as <-. repeat constructor; lia.
    + apply bind_Some in Hs as (vc & Hc & Hs). apply b64_value_range in Hc. injection Hs as <-. repeat constructor; lia.
  - apply bind_Some in Hs as (vc & Hc & Hs). apply bind_Some in Hs as (vd & Hd & Hs).
    apply bind_Some in Hs as (rest & Hr & Hs). apply b64_value_range in Hc, Hd. injection Hs as <-.
    do 3 (constructor; [unfold is_byte; lia|]). eapply IH; [|done]. cbn. lia.
Qed.
