(* ===== verification/Age.v ===== *)
(** * Age files: sessions, headers and whole files

    [riverhog_age/resumable_age.py]: passphrase-encrypted age v1 files with
    resumable state.  This file has the persisted state, the scrypt header and
    its parser, chunk arithmetic, chunk encryption and the two decoders (whole
    file and streaming); [AgeUnits] has the unit plans.  Random bytes are
    arguments; the AEAD is the class of [Crypto]. *)

From S2P Require Import Prelude Text Json Sha256 Paths Domain Crypto Base64.

Definition AGE_V1_LINE : pybytes := str "age-encryption.org/v1" ++ [10].
Definition SCRYPT_SALT_PREFIX : pybytes := str "age-encryption.org/v1/scrypt".
Definition HEADER_HKDF_INFO : pybytes := str "header".
Definition PAYLOAD_HKDF_INFO : pybytes := str "payload".
Definition AEAD_TAG_SIZE : Z := 16.
Definition PAYLOAD_NONCE_SIZE : Z := 16.
Definition FILE_KEY_SIZE : Z := 16.
Definition SCRYPT_SALT_SIZE : Z := 16.
Definition ZERO_AEAD_NONCE : pybytes := repeatZ 12 0.
Definition DEFAULT_SCRYPT_LOG_N : Z := 18.
Definition DEFAULT_CHUNKS_PER_AGE_UNIT : Z := 1024.

(** ** Persisted state *)

Record UploadState := {
  us_header : pybytes;
  us_payload_nonce : pybytes;
  us_plaintext_size : option Z;
  us_format : pystr;
}.

Definition upload_state_format : pystr := str "age-v1-scrypt-resumable".

(** [json.dumps(..., sort_keys=True, separators=(",", ":")).encode("utf-8")] *)
Definition upload_state_payload (s : UploadState) : json :=
  JObj [(str "format", JStr (us_format s));
        (str "header_b64", JStr (_b64_encode (us_header s)));
        (str "payload_nonce_b64", JStr (_b64_encode (us_payload_nonce s)));
        (str "plaintext_size", from_option JInt JNull (us_plaintext_size s))].

Definition to_json_bytes `{PyEnv} (s : UploadState) : result pybytes :=
  utf8_encode (dumps true (upload_state_payload s)).

(** [_b64_decode(raw[key])]: a value that is no string fails at [in] or at [+]. *)
Definition b64_field (key : string) (o : list (pystr * json)) : result pybytes :=
  match dict_get (str key) o with
  | None => Err (Exn KeyError (str key))
  | Some (JStr s) => _b64_decode s
  | Some (JList l) =>
      when existsb (λ v, is_str v (str "=")) l
        raise AgeFormatError "base64 padding is not permitted in age headers";
      Err (Exn TypeError (str "can only concatenate list"))
  | Some (JObj d) =>
      when bool_decide (str "=" ∈ keys d)
        raise AgeFormatError "base64 padding is not permitted in age headers";
      Err (Exn TypeError (str "unsupported operand type(s) for +"))
  | Some _ => Err (Exn TypeError (str "argument is not iterable"))
  end.

(** [from_json_bytes] after [json.loads]. *)
Definition upload_state_of_payload (raw : json) : result UploadState :=
  match raw with
  | JObj o =>
      when negb (is_str (get_or_null "format" o) upload_state_format)
        raise AgeFormatError "unsupported upload state format";
      header ← b64_field "header_b64" o;
      payload_nonce ← b64_field "payload_nonce_b64" o;
      plaintext_size ← match get_or_null "plaintext_size" o with
                       | JNull => Ok None
                       | v => match as_int v with
                              | Some z =>
                                  when z <? 0
                                    raise AgeFormatError "plaintext_size must be a non-negative integer or null";
                                  Ok (Some z)
                              | None => Err (Exn AgeFormatError
                                  (str "plaintext_size must be a non-negative integer or null"))
                              end
                       end;
      when negb (len payload_nonce =? PAYLOAD_NONCE_SIZE)
        raise AgeFormatError "payload nonce must be 16 bytes";
      Ok {| us_header := header; us_payload_nonce := payload_nonce;
            us_plaintext_size := plaintext_size; us_format := upload_state_format |}
  | _ => Err (Exn AttributeError (str "object has no attribute 'get'"))
  end.

Definition from_json_text (data : pystr) : result UploadState :=
  raw ← loads data; upload_state_of_payload raw.

Definition from_json_bytes (data : pybytes) : result UploadState :=
  text ← utf8_decode data; from_json_text text.

(** [UploadState | bytes | str] *)
Inductive age_state := StateValue (s : UploadState) | StateBytes (b : pybytes) | StateText (t : pystr).

Definition _upload_state (value : age_state) : result UploadState :=
  match value with
  | StateValue s => Ok s
  | StateBytes b => from_json_bytes b
  | StateText t => from_json_text t
  end.

Definition plaintext_bytes_for_ciphertext_offset (state : age_state)
    (plaintext_bytes ciphertext_bytes ciphertext_offset : Z) : result Z :=
  if ciphertext_offset <=? 0 then Ok 0
  else if ciphertext_bytes <=? ciphertext_offset then Ok plaintext_bytes
  else
    upload_state ← _upload_state state;
    let prefix_bytes := len (us_header upload_state) + len (us_payload_nonce upload_state) in
    if ciphertext_offset <=? prefix_bytes then Ok 0
    else
      let payload_offset := ciphertext_offset - prefix_bytes in
      let encrypted_chunk_bytes := CHUNK_SIZE + AEAD_TAG_SIZE in
      let complete_chunks := payload_offset / encrypted_chunk_bytes in
      Ok (Z.min (complete_chunks * CHUNK_SIZE) plaintext_bytes).

(** ** Keys and nonces *)

Definition _hkdf_sha256 (ikm salt info : pybytes) : pybytes :=
  let prk := hmac_sha256 salt ikm in hmac_sha256 prk (info ++ [1]).

Definition _chunk_nonce (chunk_index : Z) (final : bool) : result pybytes :=
  counter ← to_bytes_big 11 chunk_index; Ok (counter ++ [if final then 1 else 0]).

(** [str | bytes] *)
Inductive passphrase := PassText (s : pystr) | PassBytes (b : pybytes).

Definition _passphrase_to_bytes (p : passphrase) : result pybytes :=
  match p with PassText s => utf8_encode s | PassBytes b => Ok b end.

Definition _validate_log_n (log_n : Z) : result unit :=
  when (log_n <? 1) || (22 <? log_n)
    raise ValueError "scrypt log_n must be in the conservative range 1..22";
  Ok tt.

Definition default_maxmem (log_n : Z) : Z :=
  Z.max (64 * 1024 * 1024) (128 * 8 * Z.shiftl 1 log_n * 2).

Definition _derive_scrypt_wrap_key (pass salt : pybytes) (log_n : Z) (maxmem : option Z) :
    result pybytes :=
  _ ← _validate_log_n log_n;
  when negb (len salt =? SCRYPT_SALT_SIZE) raise ValueError "scrypt salt must be 16 bytes";
  hashlib_scrypt pass (SCRYPT_SALT_PREFIX ++ salt) (Z.shiftl 1 log_n) 8 1 32
    (default (default_maxmem log_n) maxmem).

(** ** Chunk arithmetic *)

(** The nearest binary64 to a positive integer, ties to even. *)
Definition round53 (n : Z) : Z :=
  let b := Z.log2 n + 1 in
  if b <=? 53 then n
  else
    let s := b - 53 in
    let q := n / 2 ^ s in
    let r := n mod 2 ^ s in
    let half := 2 ^ (s - 1) in
    (if (half <? r) || ((r =? half) && Z.odd q) then q + 1 else q) * 2 ^ s.

(** [math.ceil(n / CHUNK_SIZE)] for a positive [n]: dividing by a power of two
    is exact, so only the rounding of [n] to a float matters. *)
Definition ceil_true_div (n : Z) : result Z :=
  when 2 ^ 1024 * CHUNK_SIZE <=? round53 n
    raise OverflowError "integer division result too large for a float";
  Ok (- (- round53 n / CHUNK_SIZE)).

Definition age_chunk_count_for_plaintext_len (plaintext_size : Z) : result Z :=
  when plaintext_size <? 0 raise ValueError "plaintext_size must be non-negative";
  if plaintext_size =? 0 then Ok 1 else ceil_true_div plaintext_size.

Definition chunk_bounds (plaintext_size idx : Z) : Z * Z :=
  if plaintext_size =? 0 then (0, 0)
  else let start := idx * CHUNK_SIZE in (start, Z.min (start + CHUNK_SIZE) plaintext_size).

Definition split_plaintext_chunks (plaintext_size : Z) : result (list (Z * Z * Z * bool)) :=
  when plaintext_size <? 0 raise ValueError "plaintext_size must be non-negative";
  count ← age_chunk_count_for_plaintext_len plaintext_size;
  Ok ((λ idx, (idx, (chunk_bounds plaintext_size idx).1, (chunk_bounds plaintext_size idx).2,
               idx =? count - 1)) <$> rangeZ 0 count).

Definition age_ciphertext_len_for_plaintext_len (plaintext_size age_prefix_len : Z) : result Z :=
  when plaintext_size <? 0 raise ValueError "plaintext_size must be non-negative";
  payload_chunks ← split_plaintext_chunks plaintext_size;
  Ok (age_prefix_len + sumZ (λ c, let '(_, start, stop, _) := c in stop - start + AEAD_TAG_SIZE) payload_chunks).

(** ** The header *)

(** [header.splitlines(keepends=True)] on bytes. *)
Fixpoint splitlines_keep (line bs : pybytes) : list pybytes :=
  match bs with
  | [] => match line with [] => [] | _ => [line] end
  | 10 :: bs' => (line ++ [10]) :: splitlines_keep [] bs'
  | 13 :: 10 :: bs' => (line ++ [13; 10]) :: splitlines_keep [] bs'
  | 13 :: bs' => (line ++ [13]) :: splitlines_keep [] bs'
  | b :: bs' => splitlines_keep (line ++ [b]) bs'
  end.

(** [header.splitlines()] *)
Fixpoint splitlines (line bs : pybytes) : list pybytes :=
  match bs with
  | [] => match line with [] => [] | _ => [line] end
  | 10 :: bs' => line :: splitlines [] bs'
  | 13 :: 10 :: bs' => line :: splitlines [] bs'
  | 13 :: bs' => line :: splitlines [] bs'
  | b :: bs' => splitlines (line ++ [b]) bs'
  end.

(** [data.find(sub)] *)
Fixpoint find_sub (sub data : pybytes) : option nat :=
  if startswith sub data then Some 0%nat
  else match data with [] => None | _ :: data' => S <$> find_sub sub data' end.

Definition _age_header_end (data : pybytes) : option nat :=
  mac_line_start ← find_sub ([10] ++ str "--- ") data;
  let mac_line_start := S mac_line_start in
  header_end ← find_sub [10] (drop mac_line_start data);
  Some (mac_line_start + header_end + 1)%nat.

(** [b.decode("ascii")] *)
Definition decode_ascii (bs : pybytes) : result pystr :=
  when negb (forallb (λ b, b <? 128) bs) raise UnicodeDecodeError "ordinal not in range(128)"; Ok bs.

Record ParsedScryptHeader := {
  ph_header : pybytes;
  ph_salt : pybytes;
  ph_log_n : Z;
  ph_body : pybytes;
  ph_mac : pybytes;
  ph_mac_input : pybytes;
}.

(** The index of the first line from [i] on that starts with the marker. *)
Fixpoint mac_line (i : nat) (lines : list pybytes) : option nat :=
  match lines with
  | [] => None
  | line :: lines' => if startswith (str "--- ") line then Some i else mac_line (S i) lines'
  end.

Definition parse_log_n `{UnicodeData} (arg : pybytes) : result Z :=
  log_n_text ← try_except (decode_ascii arg) (λ k, bool_decide (k = UnicodeDecodeError))
                 (λ _, Err (Exn AgeFormatError (str "scrypt work factor is not ASCII")));
  when negb (is_ascii_decimal log_n_text) || startswith (str "0") log_n_text
    raise AgeFormatError "invalid scrypt work factor encoding";
  log_n ← py_int log_n_text;
  _ ← try_except (_validate_log_n log_n) (λ k, bool_decide (k = TypeError) || is_value_error k)
        (λ _, Err (Exn AgeFormatError (str "invalid scrypt work factor")));
  Ok log_n.

Definition parse_scrypt_header `{UnicodeData} (header : pybytes) : result ParsedScryptHeader :=
  when negb (startswith AGE_V1_LINE header)
    raise AgeFormatError "unsupported or missing age v1 version line";
  when negb (bool_decide (last header = Some 10))
    raise AgeFormatError "age header must end with a newline";
  let lines := splitlines_keep [] header in
  when len lines <? 4 raise AgeFormatError "age header is too short";
  when negb (bool_decide (nth 0 lines [] = AGE_V1_LINE))
    raise AgeFormatError "unsupported age version line";
  let arg_line := nth 1 lines [] in
  when negb (startswith (str "-> scrypt ") arg_line)
    raise AgeFormatError "only one standard scrypt stanza is supported";
  let args := split_on (chr " ") (rstrip_char 10 arg_line) in
  when negb (len args =? 4) || negb (bool_decide (nth 0 args [] = str "->"))
       || negb (bool_decide (nth 1 args [] = str "scrypt"))
    raise AgeFormatError "invalid scrypt stanza argument line";
  salt_text ← decode_ascii (nth 2 args []);
  salt ← _b64_decode salt_text;
  when negb (len salt =? SCRYPT_SALT_SIZE) raise AgeFormatError "scrypt salt must be 16 bytes";
  log_n ← parse_log_n (nth 3 args []);
  match mac_line 2 (drop 2 lines) with
  | None => Err (Exn AgeFormatError (str "age header is missing MAC line"))
  | Some mac_line_index =>
      when negb (bool_decide (mac_line_index = length lines - 1)%nat)
        raise AgeFormatError "only a single scrypt stanza is supported";
      let body_b64 := concat (rstrip_char 10 <$> drop 2 (take mac_line_index lines)) in
      body_text ← decode_ascii body_b64;
      body ← _b64_decode body_text;
      when negb (len body =? FILE_KEY_SIZE + AEAD_TAG_SIZE)
        raise AgeFormatError "scrypt stanza body must be 32 bytes";
      let mac_text := rstrip_char 10 (nth mac_line_index lines []) in
      when negb (startswith (str "--- ") mac_text) raise AgeFormatError "invalid age MAC line";
      mac_b64 ← decode_ascii (drop 4 mac_text);
      mac ← _b64_decode mac_b64;
      when negb (len mac =? 32) raise AgeFormatError "age header MAC must be 32 bytes";
      let mac_input := concat (take mac_line_index lines) ++ str "---" in
      Ok {| ph_header := header; ph_salt := salt; ph_log_n := log_n; ph_body := body;
            ph_mac := mac; ph_mac_input := mac_input |}
  end.

Definition parse_scrypt_header_from_age_file `{UnicodeData} (age_file : pybytes) :
    result ParsedScryptHeader :=
  match _age_header_end age_file with
  | None => Err (Exn AgeFormatError (str "age header is missing MAC line"))
  | Some header_end => parse_scrypt_header (take header_end age_file)
  end.

Definition scrypt_stanza (salt : pybytes) (log_n : Z) (body : pybytes) : pybytes :=
  AGE_V1_LINE ++ (str "-> scrypt " ++ _b64_encode salt ++ str " " ++ str_of_Z log_n ++ [10])
  ++ _wrap_b64_lines body.

Definition header_mac (file_key mac_input : pybytes) : pybytes :=
  hmac_sha256 (_hkdf_sha256 file_key [] HEADER_HKDF_INFO) mac_input.

Definition _build_scrypt_header (salt : pybytes) (log_n : Z) (body file_key : pybytes) : pybytes :=
  let mac_input := scrypt_stanza salt log_n body ++ str "---" in
  mac_input ++ str " " ++ _b64_encode (header_mac file_key mac_input) ++ [10].

(** The recipient types of the stanza lines before the MAC line. *)
Fixpoint recipient_types (lines : list pybytes) : list pybytes :=
  match lines with
  | [] => []
  | line :: lines' =>
      if startswith (str "--- ") line then []
      else if startswith (str "-> ") line then
        match split_on (chr " ") line with
        | _ :: t :: _ => t :: recipient_types lines'
        | _ => recipient_types lines'
        end
      else recipient_types lines'
  end.

Definition _age_header_has_no_scrypt_recipient (age_file : pybytes) : bool :=
  match _age_header_end age_file with
  | None => false
  | Some header_end =>
      match splitlines [] (take header_end age_file) with
      | first :: rest =>
          bool_decide (first = rstrip_char 10 AGE_V1_LINE)
          && match recipient_types rest with
             | [] => false
             | types => negb (bool_decide (str "scrypt" ∈ types))
             end
      | [] => false
      end
  end.

(** ** Sessions *)

Record ResumableAgeScryptSession := {
  ss_header : pybytes;
  ss_payload_nonce : pybytes;
  ss_file_key : pybytes;
  ss_payload_key : pybytes;
}.

(** [__init__] *)
Definition new_session (header payload_nonce file_key : pybytes) : result ResumableAgeScryptSession :=
  when negb (len file_key =? FILE_KEY_SIZE) raise ValueError "file_key must be 16 bytes";
  when negb (len payload_nonce =? PAYLOAD_NONCE_SIZE) raise ValueError "payload_nonce must be 16 bytes";
  Ok {| ss_header := header; ss_payload_nonce := payload_nonce; ss_file_key := file_key;
        ss_payload_key := _hkdf_sha256 file_key payload_nonce PAYLOAD_HKDF_INFO |}.

Definition age_prefix (s : ResumableAgeScryptSession) : pybytes := ss_header s ++ ss_payload_nonce s.

Definition export_state (s : ResumableAgeScryptSession) (plaintext_size : option Z) : result UploadState :=
  when match plaintext_size with Some n => n <? 0 | None => false end
    raise ValueError "plaintext_size must be non-negative";
  Ok {| us_header := ss_header s; us_payload_nonce := ss_payload_nonce s;
        us_plaintext_size := plaintext_size; us_format := upload_state_format |}.

Section age.
Context `{UnicodeData} `{Aead}.

(** [create], with the random bytes as arguments. *)
Definition create (pass : passphrase) (log_n : Z) (file_key scrypt_salt payload_nonce : pybytes)
    (scrypt_maxmem : option Z) : result ResumableAgeScryptSession :=
  _ ← _validate_log_n log_n;
  passphrase_bytes ← _passphrase_to_bytes pass;
  when negb (len file_key =? FILE_KEY_SIZE) raise ValueError "file_key must be 16 bytes";
  when negb (len scrypt_salt =? SCRYPT_SALT_SIZE) raise ValueError "scrypt_salt must be 16 bytes";
  when negb (len payload_nonce =? PAYLOAD_NONCE_SIZE) raise ValueError "payload_nonce must be 16 bytes";
  wrap_key ← _derive_scrypt_wrap_key passphrase_bytes scrypt_salt log_n scrypt_maxmem;
  let body := aead_encrypt wrap_key ZERO_AEAD_NONCE file_key in
  let header := _build_scrypt_header scrypt_salt log_n body file_key in
  new_session header payload_nonce file_key.

Definition _unwrap_scrypt_file_key (pass : pybytes) (parsed : ParsedScryptHeader)
    (scrypt_maxmem : option Z) : result pybytes :=
  wrap_key ← _derive_scrypt_wrap_key pass (ph_salt parsed) (ph_log_n parsed) scrypt_maxmem;
  match aead_decrypt wrap_key ZERO_AEAD_NONCE (ph_body parsed) with
  | None => Err (Exn AgeDecryptError (str "wrong passphrase or invalid scrypt recipient body"))
  | Some file_key =>
      when negb (len file_key =? FILE_KEY_SIZE)
        raise AgeDecryptError "invalid unwrapped age file key length";
      let expected_mac := header_mac file_key (ph_mac_input parsed) in
      when negb (bool_decide (expected_mac = ph_mac parsed))
        raise AgeDecryptError "age header MAC verification failed";
      Ok file_key
  end.

(** [from_state] *)
Definition session_from_state (pass : passphrase) (state : age_state) (scrypt_maxmem : option Z) :
    result ResumableAgeScryptSession :=
  upload_state ← _upload_state state;
  parsed ← parse_scrypt_header (us_header upload_state);
  passphrase_bytes ← _passphrase_to_bytes pass;
  file_key ← _unwrap_scrypt_file_key passphrase_bytes parsed scrypt_maxmem;
  new_session (us_header upload_state) (us_payload_nonce upload_state) file_key.

Definition encrypt_chunk (s : ResumableAgeScryptSession) (chunk_index : Z) (plaintext : pybytes)
    (final : bool) : result pybytes :=
  when chunk_index <? 0 raise ValueError "chunk_index must be non-negative";
  when 2 ^ 88 <=? chunk_index raise ValueError "chunk_index does not fit the age 11-byte chunk counter";
  when CHUNK_SIZE <? len plaintext raise ValueError "age plaintext chunks must be at most 64 KiB";
  nonce ← _chunk_nonce chunk_index final;
  Ok (aead_encrypt (ss_payload_key s) nonce plaintext).

Definition decrypt_chunk (s : ResumableAgeScryptSession) (chunk_index : Z) (ciphertext : pybytes)
    (final : bool) : result pybytes :=
  when chunk_index <? 0 raise ValueError "chunk_index must be non-negative";
  when (len ciphertext <? AEAD_TAG_SIZE) || (CHUNK_SIZE + AEAD_TAG_SIZE <? len ciphertext)
    raise AgeFormatError "age payload chunk has an invalid ciphertext length";
  nonce ← _chunk_nonce chunk_index final;
  match aead_decrypt (ss_payload_key s) nonce ciphertext with
  | None => Err (Exn AgeDecryptError (str "age payload authentication failed"))
  | Some plaintext =>
      when negb final && negb (len plaintext =? CHUNK_SIZE)
        raise AgeFormatError "non-final age payload chunk decrypted to non-64KiB plaintext";
      Ok plaintext
  end.

(** One iteration of the loop over the chunks of a plaintext. *)
Definition encrypt_step (s : ResumableAgeScryptSession) (plaintext out : pybytes)
    (c : Z * Z * Z * bool) : result pybytes :=
  let '(idx, start, stop, final) := c in
  enc ← encrypt_chunk s idx (slice start stop plaintext) final; Ok (out ++ enc).

Definition encrypt_plaintext (s : ResumableAgeScryptSession) (plaintext : pybytes) : result pybytes :=
  chunks ← split_plaintext_chunks (len plaintext);
  foldM (encrypt_step s plaintext) (age_prefix s) chunks.

Definition encrypt_age_scrypt (plaintext : pybytes) (pass : passphrase) (log_n : Z)
    (scrypt_maxmem : option Z) (file_key scrypt_salt payload_nonce : pybytes) : result pybytes :=
  s ← create pass log_n file_key scrypt_salt payload_nonce scrypt_maxmem;
  encrypt_plaintext s plaintext.

(** ** Decoding a payload *)

Definition max_nonfinal_len : Z := CHUNK_SIZE + AEAD_TAG_SIZE.

Definition decrypt_one (payload_key : pybytes) (chunk_index : Z) (final : bool) (chunk_ct : pybytes) :
    result pybytes :=
  nonce ← _chunk_nonce chunk_index final;
  match aead_decrypt payload_key nonce chunk_ct with
  | None => Err (Exn AgeDecryptError (str "age payload authentication failed"))
  | Some chunk_pt => Ok chunk_pt
  end.

(** [while offset < len(ciphertext)]; the state is the ciphertext from
    [offset] on.  Every iteration consumes at least one byte. *)
Fixpoint decrypt_loop (fuel : nat) (payload_key : pybytes) (chunk_index : Z) (ciphertext out : pybytes) :
    result pybytes :=
  match ciphertext with
  | [] => Ok out
  | _ =>
      match fuel with
      | O => Err (Exn RuntimeError (str "loop bound exceeded"))
      | S fuel =>
          let final := len ciphertext <=? max_nonfinal_len in
          let chunk_ct := if final then ciphertext else take (Z.to_nat max_nonfinal_len) ciphertext in
          let rest := if final then [] else drop (Z.to_nat max_nonfinal_len) ciphertext in
          when len chunk_ct <? AEAD_TAG_SIZE
            raise AgeFormatError "age payload chunk is shorter than the AEAD tag";
          chunk_pt ← decrypt_one payload_key chunk_index final chunk_ct;
          when negb final && negb (len chunk_pt =? CHUNK_SIZE)
            raise AgeFormatError "non-final age payload chunk decrypted to non-64KiB plaintext";
          when final && (len chunk_pt =? 0) && negb (chunk_index =? 0)
            raise AgeFormatError "empty final chunk is only valid for an empty payload";
          decrypt_loop fuel payload_key (chunk_index + 1) rest (out ++ chunk_pt)
      end
  end.

Definition decrypt_payload_chunks (file_key payload_nonce ciphertext : pybytes) : result pybytes :=
  when negb (len file_key =? FILE_KEY_SIZE) raise ValueError "file_key must be 16 bytes";
  when negb (len payload_nonce =? PAYLOAD_NONCE_SIZE) raise ValueError "payload_nonce must be 16 bytes";
  when len ciphertext <? AEAD_TAG_SIZE
    raise AgeFormatError "age payload must include at least one final chunk tag";
  decrypt_loop (length ciphertext) (_hkdf_sha256 file_key payload_nonce PAYLOAD_HKDF_INFO) 0 ciphertext [].

Definition decrypt_age_scrypt (age_file : pybytes) (pass : passphrase) (scrypt_maxmem : option Z) :
    result pybytes :=
  parsed ← try_except (parse_scrypt_header_from_age_file age_file) (λ k, bool_decide (k = AgeFormatError))
             (λ e, if _age_header_has_no_scrypt_recipient age_file
                   then Err (Exn AgeDecryptError (str "no supported scrypt recipient stanza found"))
                   else Err e);
  passphrase_bytes ← _passphrase_to_bytes pass;
  file_key ← _unwrap_scrypt_file_key passphrase_bytes parsed scrypt_maxmem;
  let payload_offset := length (ph_header parsed) in
  when len age_file <? Z.of_nat payload_offset + PAYLOAD_NONCE_SIZE
    raise AgeFormatError "age payload is missing 16-byte nonce";
  let payload_nonce := take 16 (drop payload_offset age_file) in
  let ciphertext := drop (payload_offset + 16) age_file in
  decrypt_payload_chunks file_key payload_nonce ciphertext.

(** ** Streaming *)

(** A generator's yielded chunks and its end. *)
Definition stream : Type := list pybytes * result unit.

Definition yield (chunk : pybytes) (rest : stream) : stream := (chunk :: rest.1, rest.2).
Definition stop (e : exn) : stream := ([], Err e).

(** [while len(buffer) > max_nonfinal_len], then the code after it. *)
Fixpoint stream_chunks (fuel : nat) (payload_key : pybytes) (buffer : pybytes) (chunk_index : Z)
    (k : pybytes → Z → stream) : stream :=
  match fuel with
  | O => k buffer chunk_index
  | S fuel =>
      if max_nonfinal_len <? len buffer then
        match decrypt_one payload_key chunk_index false (take (Z.to_nat max_nonfinal_len) buffer) with
        | Err e => stop e
        | Ok chunk_pt =>
            if negb (len chunk_pt =? CHUNK_SIZE)
            then stop (Exn AgeFormatError (str "non-final age payload chunk decrypted to non-64KiB plaintext"))
            else yield chunk_pt
                   (stream_chunks fuel payload_key (drop (Z.to_nat max_nonfinal_len) buffer)
                      (chunk_index + 1) k)
        end
      else k buffer chunk_index
  end.

Definition stream_final (payload_key buffer : pybytes) (chunk_index : Z) : stream :=
  if len buffer <? AEAD_TAG_SIZE
  then stop (Exn AgeFormatError (str "age payload must include at least one final chunk tag"))
  else match decrypt_one payload_key chunk_index true buffer with
       | Err e => stop e
       | Ok chunk_pt =>
           if (len chunk_pt =? 0) && negb (chunk_index =? 0)
           then stop (Exn AgeFormatError (str "empty final chunk is only valid for an empty payload"))
           else yield chunk_pt ([], Ok tt)
       end.

(** The loops below read a source: its chunks and how it ends, which may be an
    exception of its own.

    [for chunk in ciphertext_chunks] *)
Fixpoint stream_payload (ending : result unit) (payload_key : pybytes) (chunks : list pybytes)
    (buffer : pybytes) (chunk_index : Z) : stream :=
  match chunks with
  | [] => match ending with
          | Ok _ => stream_final payload_key buffer chunk_index
          | Err e => stop e
          end
  | chunk :: chunks' =>
      match chunk with
      | [] => stream_payload ending payload_key chunks' buffer chunk_index
      | _ =>
          let buffer := buffer ++ chunk in
          stream_chunks (length buffer) payload_key buffer chunk_index
            (λ buffer chunk_index, stream_payload ending payload_key chunks' buffer chunk_index)
      end
  end.

Definition iter_decrypt_payload_chunks (file_key payload_nonce : pybytes) (source : stream) : stream :=
  if negb (len file_key =? FILE_KEY_SIZE) then stop (Exn ValueError (str "file_key must be 16 bytes"))
  else if negb (len payload_nonce =? PAYLOAD_NONCE_SIZE)
  then stop (Exn ValueError (str "payload_nonce must be 16 bytes"))
  else stream_payload source.2 (_hkdf_sha256 file_key payload_nonce PAYLOAD_HKDF_INFO) source.1 [] 0.

Definition _prepend (prefix : pybytes) (source : list pybytes) : list pybytes :=
  match prefix with [] => source | _ => prefix :: source end.

(** [while header is None] *)
Fixpoint stream_header (ending : result unit) (prefix : pybytes) (source : list pybytes) :
    result (pybytes * pybytes * list pybytes) :=
  match source with
  | [] => _ ← ending; Err (Exn AgeFormatError (str "age header is missing MAC line"))
  | chunk :: source' =>
      let prefix := prefix ++ chunk in
      match _age_header_end prefix with
      | Some header_end => Ok (take header_end prefix, drop header_end prefix, source')
      | None => stream_header ending prefix source'
      end
  end.

(** [while len(prefix) < PAYLOAD_NONCE_SIZE] *)
Fixpoint stream_nonce (ending : result unit) (prefix : pybytes) (source : list pybytes) :
    result (pybytes * pybytes * list pybytes) :=
  if PAYLOAD_NONCE_SIZE <=? len prefix then Ok (take 16 prefix, drop 16 prefix, source)
  else match source with
       | [] => _ ← ending; Err (Exn AgeFormatError (str "age payload is missing 16-byte nonce"))
       | chunk :: source' => stream_nonce ending (prefix ++ chunk) source'
       end.

Definition iter_decrypt_age_scrypt (chunks : stream) (pass : passphrase) (scrypt_maxmem : option Z) :
    stream :=
  match ('(header, prefix, source) ← stream_header chunks.2 [] chunks.1;
         parsed ← parse_scrypt_header header;
         passphrase_bytes ← _passphrase_to_bytes pass;
         file_key ← _unwrap_scrypt_file_key passphrase_bytes parsed scrypt_maxmem;
         '(payload_nonce, prefix, source) ← stream_nonce chunks.2 prefix source;
         Ok (file_key, payload_nonce, _prepend prefix source)) with
  | Err e => stop e
  | Ok (file_key, payload_nonce, rest) => iter_decrypt_payload_chunks file_key payload_nonce (rest, chunks.2)
  end.
End age.

(** ** Lines of a header *)

(** Text that stays within one line. *)
Definition one_line (w : pybytes) : Prop := Forall (λ c, c ≠ 10 ∧ c ≠ 13) w.

Lemma splitlines_keep_char line c bs : c ≠ 10 → c ≠ 13 →
  splitlines_keep line (c :: bs) = splitlines_keep (line ++ [c]) bs.
Proof.
  intros H10 H13. destruct c as [|p|p]; try done.
  do 4 (destruct p as [p|p|]; try done).
Qed.

Lemma splitlines_keep_line line w rest : one_line w →
  splitlines_keep line (w ++ 10 :: rest) = (line ++ w ++ [10]) :: splitlines_keep [] rest.
Proof.
  intros Hw. revert line. induction Hw as [|c w [H10 H13] Hw IH]; intros line; [done|].
  rewrite <- app_comm_cons, splitlines_keep_char, IH by done. by rewrite <- !app_assoc.
Qed.

Lemma find_sub_skip m w s : 10 ∉ w →
  find_sub (10 :: m) (w ++ s) = Nat.add (length w) <$> find_sub (10 :: m) s.
Proof.
  induction w as [|c w IH]; intros Hw.
  - cbn [app length]. by destruct (find_sub _ s).
  - apply not_elem_of_cons in Hw as [Hc Hw]. cbn [app find_sub startswith length].
    rewrite (proj2 (Z.eqb_neq 10 c)) by done. cbn [andb]. rewrite (IH Hw). by destruct (find_sub _ s).
Qed.

Lemma find_sub_newline m s : startswith m s = false →
  find_sub (10 :: m) (10 :: s) = S <$> find_sub (10 :: m) s.
Proof. intros Hm. cbn [find_sub startswith]. by rewrite Hm. Qed.

Lemma find_sub_here m s : find_sub m (m ++ s) = Some 0%nat.
Proof.
  pose proof (startswith_app m s) as Hs. destruct (m ++ s); cbn [find_sub]; by rewrite Hs.
Qed.

Lemma one_line_newline w : one_line w → 10 ∉ w.
Proof. intros Hw Hin. unfold one_line in Hw. rewrite Forall_forall in Hw. by destruct (Hw _ Hin). Qed.

Lemma alphabet_one_line w : Forall b64_alphabet w → one_line w.
Proof. intros Hw. eapply Forall_impl; [exact Hw|]. unfold b64_alphabet. simpl. lia. Qed.

Lemma digits_one_line z : 0 ≤ z → Forall (λ c, 48 ≤ c ≤ 57) (str_of_Z z).
Proof.
  intros Hz. unfold str_of_Z. rewrite (proj2 (Z.ltb_ge z 0)) by done. rewrite Forall_fmap.
  eapply Forall_impl; [apply digits_bound; lia|]. intros d Hd. cbv beta in *. unfold compose, digit_char.
  rewrite (proj2 (Z.ltb_lt d 10)); lia.
Qed.

(** ** The header built for a stanza *)

Definition stanza_args (salt : pybytes) (log_n : Z) : pybytes :=
  str "-> scrypt " ++ _b64_encode salt ++ str " " ++ str_of_Z log_n.

(** The four lines of a header with a one-line body. *)
Definition header_lines (salt : pybytes) (log_n : Z) (body mac : pybytes) : pybytes :=
  str "age-encryption.org/v1" ++ 10 :: stanza_args salt log_n ++ 10 ::
  _b64_encode body ++ 10 :: (str "--- " ++ _b64_encode mac) ++ [10].

Definition stanza_mac (salt : pybytes) (log_n : Z) (body file_key : pybytes) : pybytes :=
  header_mac file_key (scrypt_stanza salt log_n body ++ str "---").

Lemma build_header_lines salt log_n body file_key : bytes_ok body → len body = 32 →
  _build_scrypt_header salt log_n body file_key =
  header_lines salt log_n body (stanza_mac salt log_n body file_key).
Proof.
  intros Hb Hl. unfold _build_scrypt_header, stanza_mac. cbv zeta.
  generalize (header_mac file_key (scrypt_stanza salt log_n body ++ str "---")). intros m.
  unfold scrypt_stanza, header_lines, stanza_args. rewrite (wrap_short body Hb) by lia.
  unfold AGE_V1_LINE. change (str "--- ") with (str "---" ++ str " "). by rewrite <- ?app_assoc.
Qed.

Section header.
Context (salt : pybytes) (log_n : Z) (body mac : pybytes).
Context (Hsalt : bytes_ok salt) (Hsalt16 : len salt = 16).
Context (Hbody : bytes_ok body) (Hbody32 : len body = 32).
Context (Hmac : bytes_ok mac) (Hmac32 : len mac = 32).
Context (Hlog : 1 ≤ log_n ≤ 22).

Lemma stanza_args_one_line : one_line (stanza_args salt log_n).
Proof.
  unfold one_line, stanza_args. rewrite !Forall_app. split_and!.
  - apply (bool_decide_unpack _). vm_compute. exact I.
  - by apply alphabet_one_line, b64_encode_alphabet.
  - apply (bool_decide_unpack _). vm_compute. exact I.
  - eapply Forall_impl; [apply digits_one_line; lia|]. simpl. lia.
Qed.

Lemma version_one_line : one_line (str "age-encryption.org/v1").
Proof. apply (bool_decide_unpack _). vm_compute. exact I. Qed.

Lemma mac_one_line : one_line (str "--- " ++ _b64_encode mac).
Proof.
  apply Forall_app. split; [apply (bool_decide_unpack _); vm_compute; exact I|].
  by apply alphabet_one_line, b64_encode_alphabet.
Qed.

Lemma body_one_line : one_line (_b64_encode body).
Proof. by apply alphabet_one_line, b64_encode_alphabet. Qed.

Lemma header_splitlines :
  splitlines_keep [] (header_lines salt log_n body mac) =
  [AGE_V1_LINE; stanza_args salt log_n ++ [10]; _b64_encode body ++ [10];
   (str "--- " ++ _b64_encode mac) ++ [10]].
Proof.
  unfold header_lines. rewrite splitlines_keep_line by apply version_one_line.
  rewrite splitlines_keep_line by apply stanza_args_one_line.
  rewrite splitlines_keep_line by apply body_one_line.
  rewrite splitlines_keep_line by apply mac_one_line. done.
Qed.

(** A base64 line does not start with a dash. *)
Lemma body_no_dash m s : startswith (chr "-" :: m) (_b64_encode body ++ s) = false.
Proof.
  pose proof (len_b64_encode body Hbody) as Hl. pose proof (b64_encode_alphabet body Hbody) as Ha.
  destruct (_b64_encode body) as [|c w]; [change (len []) with 0 in Hl; lia|].
  apply Forall_cons in Ha as [Hc _]. cbn [app startswith].
  rewrite (proj2 (Z.eqb_neq (chr "-") c)); [done|]. intros <-. unfold b64_alphabet in Hc.
  change (chr "-") with 45 in Hc. lia.
Qed.

Lemma header_end_exact rest :
  _age_header_end (header_lines salt log_n body mac ++ rest) =
  Some (length (header_lines salt log_n body mac)).
Proof.
  unfold _age_header_end.
  set (pre := str "age-encryption.org/v1" ++ 10 :: stanza_args salt log_n ++ 10 :: _b64_encode body).
  set (line := str "--- " ++ _b64_encode mac).
  assert (header_lines salt log_n body mac = pre ++ 10 :: line ++ [10]) as ->.
  { unfold header_lines, pre, line. rewrite <- ?app_assoc. cbn [app]. rewrite <- ?app_assoc. done. }
  assert (find_sub ([10] ++ str "--- ") ((pre ++ 10 :: line ++ [10]) ++ rest) = Some (length pre)) as ->.
  { unfold pre. rewrite <- !app_assoc. cbn [app]. rewrite <- !app_assoc. cbn [app].
    rewrite find_sub_skip by apply one_line_newline, version_one_line.
    rewrite find_sub_newline by done.
    rewrite find_sub_skip by apply one_line_newline, stanza_args_one_line.
    rewrite find_sub_newline by apply body_no_dash.
    rewrite find_sub_skip by apply one_line_newline, body_one_line.
    unfold line. rewrite <- app_assoc.
    change (10 :: str "--- " ++ ?x) with ((10 :: str "--- ") ++ x).
    rewrite (find_sub_here (10 :: str "--- ")).
    cbn [fmap option_fmap option_map]. f_equal. rewrite !length_app. cbn [length]. rewrite length_app. cbn [length]. lia. }
  cbn [mbind option_bind]. rewrite <- app_assoc. cbn [app].
  replace (S (length pre)) with (length pre + 1)%nat by lia.
  rewrite <- drop_drop, drop_app_length. cbn [drop]. rewrite <- app_assoc.
  rewrite drop_0.
  rewrite find_sub_skip by apply one_line_newline, mac_one_line.
  cbn [app find_sub startswith andb Z.eqb]. cbn. f_equal. rewrite !length_app. cbn [length].
  rewrite ?length_app. cbn [length]. lia.
Qed.

Lemma rstrip_line w : one_line w → rstrip_char 10 (w ++ [10]) = w.
Proof. intros Hw%one_line_newline. apply (rstrip_pad 10 1 w Hw). Qed.

Lemma decode_ascii_alphabet w : Forall b64_alphabet w → decode_ascii w = Ok w.
Proof.
  intros Hw. unfold decode_ascii. rewrite (proj2 (forallb_forall _ _)); [done|].
  intros c Hc. rewrite Forall_forall in Hw. apply list_elem_of_In in Hc. specialize (Hw _ Hc).
  unfold b64_alphabet in Hw. lia.
Qed.

Lemma parse_log_n_str `{UnicodeData} : parse_log_n (str_of_Z log_n) = Ok log_n.
Proof.
  pose proof (digits_one_line log_n ltac:(lia)) as Hd. unfold parse_log_n, decode_ascii.
  rewrite (proj2 (forallb_forall _ _)).
  2: { intros c Hc. rewrite Forall_forall in Hd. apply list_elem_of_In in Hc. specialize (Hd _ Hc). lia. }
  cbn [negb try_except]. rewrite ok_bind.
  assert (is_ascii_decimal (str_of_Z log_n) = true ∧ startswith (str "0") (str_of_Z log_n) = false) as [-> ->].
  { assert (log_n ∈ rangeZ 1 23) as Hin by (apply elem_of_seqZ; lia).
    revert Hin. clear. revert log_n. apply Forall_forall.
    apply (bool_decide_unpack _). vm_compute. exact I. }
  cbn [negb orb]. rewrite py_int_str_of_Z, ok_bind. unfold _validate_log_n.
  rewrite (proj2 (Z.ltb_ge log_n 1)), (proj2 (Z.ltb_ge 22 log_n)) by lia. done.
Qed.

Lemma stanza_args_split :
  split_on (chr " ") (stanza_args salt log_n) =
  [str "->"; str "scrypt"; _b64_encode salt; str_of_Z log_n].
Proof.
  unfold stanza_args. change (str "-> scrypt ") with (str "->" ++ chr " " :: str "scrypt" ++ [chr " "]).
  change (str " ") with [chr " "]. rewrite <- !app_assoc. cbn [app]. rewrite <- app_assoc. cbn [app].
  rewrite !split_on_app.
  - rewrite split_on_word; [done|]. intros Hin. pose proof (digits_one_line log_n ltac:(lia)) as Hd.
    rewrite Forall_forall in Hd. specialize (Hd _ Hin). change (chr " ") with 32 in Hd. lia.
  - apply alphabet_not_in; [|by apply b64_encode_alphabet]. unfold b64_alphabet. change (chr " ") with 32. lia.
  - apply (bool_decide_unpack _). vm_compute. exact I.
  - apply (bool_decide_unpack _). vm_compute. exact I.
Qed.

(** Parsing a header gives the fields it was built from. *)
Lemma parse_header_lines `{UnicodeData} :
  parse_scrypt_header (header_lines salt log_n body mac) =
  Ok {| ph_header := header_lines salt log_n body mac; ph_salt := salt; ph_log_n := log_n;
        ph_body := body; ph_mac := mac; ph_mac_input := scrypt_stanza salt log_n body ++ str "---" |}.
Proof.
  unfold parse_scrypt_header.
  assert (startswith AGE_V1_LINE (header_lines salt log_n body mac) = true) as ->.
  { unfold header_lines. rewrite (cons_middle 10), app_assoc. apply startswith_app. }
  assert (last (header_lines salt log_n body mac) = Some 10) as ->.
  { unfold header_lines. rewrite !app_comm_cons, !app_assoc, last_snoc. done. }
  rewrite bool_decide_true by done. rewrite header_splitlines. cbn [negb nth].
  change (len [_; _; _; _] <? 4) with false. cbv iota. rewrite bool_decide_true by done. cbn [negb].
  assert (∀ x, startswith (str "-> scrypt ") (stanza_args salt log_n ++ x) = true) as ->.
  { intros x. unfold stanza_args. rewrite <- app_assoc. apply startswith_app. }
  cbn [negb]. rewrite rstrip_line by apply stanza_args_one_line. rewrite stanza_args_split. cbn [nth].
  change (len [_; _; _; _] =? 4) with true. rewrite !bool_decide_true by done. cbn [negb orb].
  rewrite decode_ascii_alphabet, ok_bind, b64_roundtrip, ok_bind by (done || by apply b64_encode_alphabet).
  unfold SCRYPT_SALT_SIZE. rewrite Hsalt16, Z.eqb_refl. cbn [negb]. rewrite parse_log_n_str, ok_bind.
  cbn [drop mac_line]. change (str "--- ") with (chr "-" :: str "-- ") at 1. rewrite body_no_dash.
  assert (∀ x, startswith (str "--- ") ((str "--- " ++ _b64_encode mac) ++ x) = true) as ->.
  { intros x. rewrite <- app_assoc. apply startswith_app. }
  rewrite bool_decide_true by done. cbn [negb].
  change (concat (rstrip_char 10 <$> drop 2 (take 3 _))) with (rstrip_char 10 (_b64_encode body ++ [10]) ++ []).
  rewrite app_nil_r, (rstrip_line (_b64_encode body)) by apply body_one_line.
  rewrite (decode_ascii_alphabet (_b64_encode body)), ok_bind, b64_roundtrip, ok_bind by (done || by apply b64_encode_alphabet).
  unfold FILE_KEY_SIZE, AEAD_TAG_SIZE. rewrite Hbody32. change (32 =? 16 + 16) with true. cbn [negb nth].
  rewrite rstrip_line by apply mac_one_line. rewrite startswith_app. cbn [negb].
  change (drop 4 (str "--- " ++ ?x)) with x.
  rewrite decode_ascii_alphabet, ok_bind, b64_roundtrip, ok_bind by (done || by apply b64_encode_alphabet).
  rewrite Hmac32. change (32 =? 32) with true. cbn [negb]. do 2 f_equal.
  unfold scrypt_stanza, stanza_args. rewrite (wrap_short body Hbody) by lia. cbn [take concat].
  by rewrite app_nil_r, <- ?app_assoc.
Qed.
End header.

(** ** Keys *)

Lemma hmac_shape key msg : len (hmac_sha256 key msg) = 32 ∧ bytes_ok (hmac_sha256 key msg).
Proof. apply sha256_shape. Qed.

Lemma header_mac_shape file_key input :
  len (header_mac file_key input) = 32 ∧ bytes_ok (header_mac file_key input).
Proof. unfold header_mac. apply hmac_shape. Qed.

(** The default memory limit is enough up to a work factor of 19. *)
Lemma derive_wrap_key_ok pass salt log_n : 1 ≤ log_n ≤ 19 → len salt = 16 →
  _derive_scrypt_wrap_key pass salt log_n None =
  Ok (scrypt_raw pass (SCRYPT_SALT_PREFIX ++ salt) (Z.shiftl 1 log_n) 8 1 32).
Proof.
  intros Hl Hs. unfold _derive_scrypt_wrap_key, _validate_log_n, SCRYPT_SALT_SIZE, hashlib_scrypt.
  rewrite (proj2 (Z.ltb_ge log_n 1)), (proj2 (Z.ltb_ge 22 log_n)), Hs by lia.
  cbn [orb negb Z.eqb Pos.eqb default]. rewrite ok_bind. generalize (SCRYPT_SALT_PREFIX ++ salt). intros st.
  set (raw := scrypt_raw pass st _ _ _ _). clearbody raw.
  assert (log_n ∈ rangeZ 1 20) as Hin by (apply elem_of_seqZ; lia).
  revert Hin. clear -raw. revert log_n. apply Forall_forall.
  repeat (apply Forall_cons_2; [reflexivity|]). apply Forall_nil_2.
Qed.

(** Beyond that the limit itself is refused. *)
Lemma derive_wrap_key_refused pass salt log_n : 20 ≤ log_n ≤ 22 → len salt = 16 →
  _derive_scrypt_wrap_key pass salt log_n None =
  Err (Exn ValueError (str "maxmem must be positive and smaller than 2147483647")).
Proof.
  intros Hl Hs. unfold _derive_scrypt_wrap_key, _validate_log_n, SCRYPT_SALT_SIZE, hashlib_scrypt.
  rewrite (proj2 (Z.ltb_ge log_n 1)), (proj2 (Z.ltb_ge 22 log_n)), Hs by lia.
  cbn [orb negb Z.eqb Pos.eqb default]. rewrite ok_bind. generalize (SCRYPT_SALT_PREFIX ++ salt). intros st.
  set (raw := scrypt_raw pass st _ _ _ _). clearbody raw.
  assert (log_n ∈ rangeZ 20 23) as Hin by (apply elem_of_seqZ; lia).
  revert Hin. clear -raw. revert log_n. apply Forall_forall.
  repeat (apply Forall_cons_2; [reflexivity|]). apply Forall_nil_2.
Qed.

(** ** Sessions *)

Definition chunk_nonce (chunk_index : Z) (final : bool) : pybytes :=
  be_bytes 11 chunk_index ++ [if final then 1 else 0].

Lemma chunk_nonce_ok idx final : 0 ≤ idx < 2 ^ 88 → _chunk_nonce idx final = Ok (chunk_nonce idx final).
Proof.
  intros Hi. unfold _chunk_nonce, to_bytes_big.
  rewrite (proj2 (Z.ltb_ge idx 0)) by lia. change (256 ^ Z.of_nat 11) with (2 ^ 88).
  by rewrite (proj2 (Z.leb_gt (2 ^ 88) idx)) by lia.
Qed.

(** The session a passphrase and the random bytes determine. *)
Definition session_of (file_key payload_nonce header : pybytes) : ResumableAgeScryptSession :=
  {| ss_header := header; ss_payload_nonce := payload_nonce; ss_file_key := file_key;
     ss_payload_key := _hkdf_sha256 file_key payload_nonce PAYLOAD_HKDF_INFO |}.

Section sessions.
Context `{UnicodeData} `{Aead}.

Definition wrapped_header (wrap_key file_key salt : pybytes) (log_n : Z) : pybytes :=
  _build_scrypt_header salt log_n (aead_encrypt wrap_key ZERO_AEAD_NONCE file_key) file_key.

(** What a successful [create] means. *)
Lemma create_inv pass log_n file_key salt nonce maxmem s :
  create pass log_n file_key salt nonce maxmem = Ok s →
  ∃ pass_bytes wrap_key,
    1 ≤ log_n ≤ 22 ∧ len file_key = 16 ∧ len salt = 16 ∧ len nonce = 16 ∧
    _passphrase_to_bytes pass = Ok pass_bytes ∧
    _derive_scrypt_wrap_key pass_bytes salt log_n maxmem = Ok wrap_key ∧
    s = session_of file_key nonce (wrapped_header wrap_key file_key salt log_n).
Proof.
  unfold create, new_session. intros Hc. apply bind_Ok in Hc as ([] & Hl & Hc).
  unfold _validate_log_n in Hl. inv_ok Hl. bool_prop.
  apply bind_Ok in Hc as (pb & Hpb & Hc).
  destruct (Z.eqb_spec (len file_key) FILE_KEY_SIZE); [|done].
  destruct (Z.eqb_spec (len salt) SCRYPT_SALT_SIZE); [|done].
  destruct (Z.eqb_spec (len nonce) PAYLOAD_NONCE_SIZE); [|done]. cbn [negb] in Hc.
  apply bind_Ok in Hc as (wk & Hwk & Hc). injection Hc as <-.
  exists pb, wk. unfold FILE_KEY_SIZE, SCRYPT_SALT_SIZE, PAYLOAD_NONCE_SIZE in *. split_and!; done || lia.
Qed.

Lemma create_ok pass pass_bytes log_n file_key salt nonce maxmem wrap_key :
  1 ≤ log_n ≤ 22 → len file_key = 16 → len salt = 16 → len nonce = 16 →
  _passphrase_to_bytes pass = Ok pass_bytes →
  _derive_scrypt_wrap_key pass_bytes salt log_n maxmem = Ok wrap_key →
  create pass log_n file_key salt nonce maxmem =
  Ok (session_of file_key nonce (wrapped_header wrap_key file_key salt log_n)).
Proof.
  intros Hl Hf Hs Hn Hp Hw. unfold create, new_session, _validate_log_n, FILE_KEY_SIZE, SCRYPT_SALT_SIZE,
    PAYLOAD_NONCE_SIZE.
  rewrite (proj2 (Z.ltb_ge log_n 1)), (proj2 (Z.ltb_ge 22 log_n)), Hf, Hs, Hn, Hp by lia.
  cbn [orb negb Z.eqb Pos.eqb]. rewrite !ok_bind, Hw, ok_bind. done.
Qed.

Section created.
Context (pass_bytes wrap_key file_key salt : pybytes) (log_n : Z) (maxmem : option Z).
Context (Hf : bytes_ok file_key) (Hf16 : len file_key = 16) (Hs : bytes_ok salt) (Hs16 : len salt = 16).
Context (Hl : 1 ≤ log_n ≤ 22).
Context (Hw : _derive_scrypt_wrap_key pass_bytes salt log_n maxmem = Ok wrap_key).

Let body := aead_encrypt wrap_key ZERO_AEAD_NONCE file_key.
Let header := wrapped_header wrap_key file_key salt log_n.

Lemma created_header :
  header = header_lines salt log_n body (stanza_mac salt log_n body file_key).
Proof.
  apply build_header_lines; [by apply aead_encrypt_bytes|]. unfold body. rewrite aead_encrypt_length. lia.
Qed.

(** The header of a session gives its file key back. *)
Lemma created_unwrap :
  ∃ parsed, parse_scrypt_header header = Ok parsed ∧ ph_header parsed = header ∧
    _unwrap_scrypt_file_key pass_bytes parsed maxmem = Ok file_key.
Proof.
  assert (bytes_ok body) as Hb by by apply aead_encrypt_bytes.
  assert (len body = 32) as Hb32 by (unfold body; rewrite aead_encrypt_length; lia).
  pose proof (header_mac_shape file_key (scrypt_stanza salt log_n body ++ str "---")) as [Hm32 Hm].
  rewrite created_header. unfold stanza_mac.
  set (mac := header_mac file_key (scrypt_stanza salt log_n body ++ str "---")) in *.
  eexists. split; [by apply parse_header_lines|]. split; [done|].
  unfold _unwrap_scrypt_file_key. cbn [ph_salt ph_log_n ph_body ph_mac ph_mac_input].
  rewrite Hw, ok_bind. unfold body. rewrite aead_decrypt_encrypt. unfold FILE_KEY_SIZE.
  rewrite Hf16, Z.eqb_refl. cbn [negb]. by rewrite bool_decide_true.
Qed.

Lemma created_header_end rest : _age_header_end (header ++ rest) = Some (length header).
Proof.
  rewrite created_header. apply header_end_exact; try done; try lia.
  - by apply aead_encrypt_bytes.
  - unfold body. rewrite aead_encrypt_length. lia.
  - apply header_mac_shape.
Qed.
End created.
End sessions.

(** ** Chunk arithmetic *)

Lemma round53_exact n : 0 < n ≤ 2 ^ 53 → round53 n = n.
Proof.
  intros Hn. unfold round53. destruct (Z.eq_dec n (2 ^ 53)) as [->|Hne]; [done|].
  assert (Z.log2 n < 53) by (apply Z.log2_lt_pow2; lia).
  by rewrite (proj2 (Z.leb_le _ _)) by lia.
Qed.

(** The number of chunks of [n] bytes. *)
Definition chunk_count (n : Z) : Z := if n =? 0 then 1 else (n + CHUNK_SIZE - 1) / CHUNK_SIZE.

Lemma chunk_count_exact n : 0 ≤ n ≤ 2 ^ 53 → age_chunk_count_for_plaintext_len n = Ok (chunk_count n).
Proof.
  intros Hn. unfold age_chunk_count_for_plaintext_len, ceil_true_div, chunk_count, CHUNK_SIZE.
  rewrite (proj2 (Z.ltb_ge n 0)) by lia. destruct (Z.eqb_spec n 0); [done|].
  rewrite round53_exact by lia. rewrite (proj2 (Z.leb_gt _ _)).
  - f_equal. lia.
  - apply Z.le_lt_trans with (2 ^ 53); [lia|]. vm_compute. reflexivity.
Qed.

Lemma chunk_count_bounds n : 0 ≤ n ≤ 2 ^ 53 → 1 ≤ chunk_count n ≤ 2 ^ 37.
Proof. intros Hn. unfold chunk_count, CHUNK_SIZE. destruct (Z.eqb_spec n 0); lia. Qed.

(** Every chunk but the last is full, and the last one is not empty unless the
    plaintext is. *)
Lemma chunk_bounds_eq n idx : 0 ≤ n → 0 ≤ idx < chunk_count n →
  chunk_bounds n idx = (idx * CHUNK_SIZE, Z.min (idx * CHUNK_SIZE + CHUNK_SIZE) n).
Proof.
  intros Hn Hi. unfold chunk_bounds, chunk_count in *. destruct (Z.eqb_spec n 0); [|done].
  subst. f_equal; unfold CHUNK_SIZE; lia.
Qed.

Lemma chunk_not_last n idx : 0 ≤ n → 0 ≤ idx < chunk_count n - 1 → idx * CHUNK_SIZE + CHUNK_SIZE < n.
Proof. unfold chunk_count, CHUNK_SIZE. destruct (Z.eqb_spec n 0); lia. Qed.

Lemma chunk_last n : 0 ≤ n →
  n ≤ (chunk_count n - 1) * CHUNK_SIZE + CHUNK_SIZE ∧
  (0 < n → (chunk_count n - 1) * CHUNK_SIZE < n).
Proof. unfold chunk_count, CHUNK_SIZE. destruct (Z.eqb_spec n 0); lia. Qed.

Lemma foldM_extend {A} (f : A → result pybytes) (g : A → pybytes) l acc :
  (∀ x, x ∈ l → f x = Ok (g x)) →
  foldM (λ out x, enc ← f x; Ok (out ++ enc)) acc l = Ok (acc ++ concat (g <$> l)).
Proof.
  revert acc. induction l as [|x l IH]; intros acc Hf; [by rewrite app_nil_r|].
  cbn [foldM]. rewrite (Hf x) by set_solver. rewrite !ok_bind, IH by set_solver.
  cbn. by rewrite app_assoc.
Qed.

Section payload.
Context `{Aead}.

(** ** Encryption chunk by chunk *)

(** The ciphertext of one chunk of a plaintext. *)
Definition payload_chunk (key p : pybytes) (idx : Z) : pybytes :=
  aead_encrypt key (chunk_nonce idx (idx =? chunk_count (len p) - 1))
    (slice (idx * CHUNK_SIZE) (Z.min (idx * CHUNK_SIZE + CHUNK_SIZE) (len p)) p).

Definition payload_chunks (key p : pybytes) (a b : Z) : pybytes :=
  concat (payload_chunk key p <$> rangeZ a b).

Lemma len_chunk_slice (p : pybytes) idx : 0 ≤ idx < chunk_count (len p) →
  len (slice (idx * CHUNK_SIZE) (Z.min (idx * CHUNK_SIZE + CHUNK_SIZE) (len p)) p) =
  Z.min (idx * CHUNK_SIZE + CHUNK_SIZE) (len p) - idx * CHUNK_SIZE.
Proof.
  intros Hi. pose proof (len_nonneg p) as Hn. apply len_slice; [unfold CHUNK_SIZE; lia| |lia].
  pose proof (chunk_last (len p) Hn) as [_ Hl]. unfold CHUNK_SIZE in *.
  destruct (decide (idx = chunk_count (len p) - 1)).
  - destruct (decide (len p = 0)) as [He|]; [|lia]. unfold chunk_count in *. rewrite He in *. cbn in *. lia.
  - pose proof (chunk_not_last (len p) idx Hn ltac:(lia)). unfold CHUNK_SIZE in *. lia.
Qed.

Lemma len_payload_chunk key p idx : 0 ≤ idx < chunk_count (len p) →
  len (payload_chunk key p idx) =
  Z.min (idx * CHUNK_SIZE + CHUNK_SIZE) (len p) - idx * CHUNK_SIZE + AEAD_TAG_SIZE.
Proof. intros Hi. unfold payload_chunk. by rewrite aead_encrypt_length, len_chunk_slice. Qed.

Lemma encrypt_chunk_ok s (p : pybytes) idx : len p ≤ 2 ^ 53 → 0 ≤ idx < chunk_count (len p) →
  encrypt_chunk s idx (slice (idx * CHUNK_SIZE) (Z.min (idx * CHUNK_SIZE + CHUNK_SIZE) (len p)) p)
    (idx =? chunk_count (len p) - 1) = Ok (payload_chunk (ss_payload_key s) p idx).
Proof.
  intros Hp Hi. pose proof (chunk_count_bounds (len p) ltac:(pose proof (len_nonneg p); lia)) as Hc.
  unfold encrypt_chunk. rewrite (proj2 (Z.ltb_ge idx 0)), (proj2 (Z.leb_gt (2 ^ 88) idx)) by lia.
  rewrite len_chunk_slice by done. rewrite (proj2 (Z.ltb_ge CHUNK_SIZE _)) by lia.
  by rewrite chunk_nonce_ok, ok_bind by lia.
Qed.

(** A whole plaintext becomes the prefix and its encrypted chunks. *)
Lemma encrypt_plaintext_spec s (p : pybytes) : len p ≤ 2 ^ 53 →
  encrypt_plaintext s p =
  Ok (age_prefix s ++ payload_chunks (ss_payload_key s) p 0 (chunk_count (len p))).
Proof.
  intros Hp. pose proof (len_nonneg p) as Hn. unfold encrypt_plaintext, split_plaintext_chunks.
  rewrite (proj2 (Z.ltb_ge (len p) 0)), chunk_count_exact by lia. rewrite !ok_bind.
  unfold payload_chunks.
  set (tuple := λ idx, (idx, (chunk_bounds (len p) idx).1, (chunk_bounds (len p) idx).2,
                        idx =? chunk_count (len p) - 1)).
  transitivity (foldM (λ out c, enc ← (let '(idx, start, stop, final) := c in
                         encrypt_chunk s idx (slice start stop p) final); Ok (out ++ enc))
                  (age_prefix s) (tuple <$> rangeZ 0 (chunk_count (len p)))).
  { generalize (age_prefix s). induction (tuple <$> _) as [|[[[i a] b] f] l IH]; intros acc; [done|].
    cbn [foldM encrypt_step]. destruct (encrypt_chunk _ _ _ _); [|done]. cbn. apply IH. }
  rewrite (foldM_extend _ (λ c, payload_chunk (ss_payload_key s) p c.1.1.1)).
  - by rewrite <- list_fmap_compose.
  - intros c Hc. apply list_elem_of_fmap in Hc as (idx & -> & Hi). apply elem_of_seqZ in Hi.
    unfold tuple. rewrite chunk_bounds_eq by lia. cbn [fst snd]. apply encrypt_chunk_ok; lia.
Qed.

(** ** Decryption chunk by chunk *)

Definition payload (key : pybytes) (idx : Z) (ct : pybytes) : result pybytes :=
  decrypt_loop (length ct) key idx ct [].

Lemma decrypt_loop_out fuel key idx ct out :
  decrypt_loop fuel key idx ct out = (r ← decrypt_loop fuel key idx ct []; Ok (out ++ r)).
Proof.
  revert idx ct out. induction fuel as [|fuel IH]; intros idx [|c ct] out; cbn [decrypt_loop];
    [by rewrite ok_bind, app_nil_r|done|by rewrite ok_bind, app_nil_r|].
  destruct (len _ <? AEAD_TAG_SIZE); [done|]. destruct (decrypt_one _ _ _ _) as [pt|]; [|done].
  rewrite !ok_bind. destruct (negb _ && _); [done|]. destruct (_ && _ && _); [done|].
  rewrite (IH _ _ (out ++ pt)), (IH _ _ ([] ++ pt)). destruct (decrypt_loop _ _ _ _ _); cbn; [|done].
  by rewrite app_assoc.
Qed.

Lemma decrypt_loop_fuel fuel fuel' key idx ct out :
  (length ct ≤ fuel)%nat → (length ct ≤ fuel')%nat →
  decrypt_loop fuel key idx ct out = decrypt_loop fuel' key idx ct out.
Proof.
  revert fuel' idx ct out. induction fuel as [|fuel IH]; intros [|fuel'] idx [|c ct] out Hf Hf';
    cbn [length] in *; try done; try lia.
  cbn [decrypt_loop]. destruct (len _ <? AEAD_TAG_SIZE); [done|].
  destruct (decrypt_one _ _ _ _) as [pt|]; [|done]. rewrite !ok_bind.
  destruct (negb _ && _); [done|]. destruct (_ && _ && _); [done|].
  apply IH; destruct (len _ <=? _); rewrite ?length_drop; cbn [length];
    change (Z.to_nat max_nonfinal_len) with (S (Z.to_nat (max_nonfinal_len - 1))); lia.
Qed.

Definition final_chunk (key : pybytes) (idx : Z) (ct : pybytes) : result pybytes :=
  when len ct <? AEAD_TAG_SIZE raise AgeFormatError "age payload chunk is shorter than the AEAD tag";
  pt ← decrypt_one key idx true ct;
  when (len pt =? 0) && negb (idx =? 0)
    raise AgeFormatError "empty final chunk is only valid for an empty payload";
  Ok pt.

Definition inner_chunk (key : pybytes) (idx : Z) (ct : pybytes) : result pybytes :=
  pt ← decrypt_one key idx false ct;
  when negb (len pt =? CHUNK_SIZE)
    raise AgeFormatError "non-final age payload chunk decrypted to non-64KiB plaintext";
  Ok pt.

(** The loop as a recursion on what is left. *)
Lemma payload_eq key idx ct : ct ≠ [] →
  payload key idx ct =
  if len ct <=? max_nonfinal_len then final_chunk key idx ct
  else pt ← inner_chunk key idx (take (Z.to_nat max_nonfinal_len) ct);
       rest ← payload key (idx + 1) (drop (Z.to_nat max_nonfinal_len) ct); Ok (pt ++ rest).
Proof.
  intros Hct. unfold payload at 1. destruct ct as [|c ct]; [done|]. set (data := c :: ct) in *.
  change (length data) with (S (length ct)).
  transitivity (
    let final := len data <=? max_nonfinal_len in
    let chunk_ct := if final then data else take (Z.to_nat max_nonfinal_len) data in
    let rest := if final then [] else drop (Z.to_nat max_nonfinal_len) data in
    when len chunk_ct <? AEAD_TAG_SIZE
      raise AgeFormatError "age payload chunk is shorter than the AEAD tag";
    chunk_pt ← decrypt_one key idx final chunk_ct;
    when negb final && negb (len chunk_pt =? CHUNK_SIZE)
      raise AgeFormatError "non-final age payload chunk decrypted to non-64KiB plaintext";
    when final && (len chunk_pt =? 0) && negb (idx =? 0)
      raise AgeFormatError "empty final chunk is only valid for an empty payload";
    decrypt_loop (length ct) key (idx + 1) rest ([] ++ chunk_pt)); [done|].
  cbv zeta. destruct (Z.leb_spec (len data) max_nonfinal_len) as [Hle|Hgt]; cbn [negb andb].
  - unfold final_chunk. destruct (len data <? AEAD_TAG_SIZE); [done|].
    destruct (decrypt_one _ _ _ _) as [pt|]; [|done]. rewrite !ok_bind. destruct (_ && _); [done|].
    by destruct (length ct).
  - rewrite (proj2 (Z.ltb_ge _ AEAD_TAG_SIZE)).
    2: { rewrite len_take. unfold max_nonfinal_len, CHUNK_SIZE, AEAD_TAG_SIZE in *. lia. }
    unfold inner_chunk. destruct (decrypt_one _ _ _ _) as [pt|]; [|done]. rewrite !ok_bind.
    destruct (negb _); [done|]. rewrite ok_bind. rewrite decrypt_loop_out. unfold payload.
    rewrite (decrypt_loop_fuel (length ct) (length (drop (Z.to_nat max_nonfinal_len) data))); [done| |done].
    unfold data. rewrite length_drop. cbn [length].
    change (Z.to_nat max_nonfinal_len) with (S (Z.to_nat (max_nonfinal_len - 1))). lia.
Qed.

(** ** Round trip of the payload *)

Lemma decrypt_one_encrypt key idx final pt : 0 ≤ idx < 2 ^ 88 →
  decrypt_one key idx final (aead_encrypt key (chunk_nonce idx final) pt) = Ok pt.
Proof. intros Hi. unfold decrypt_one. by rewrite chunk_nonce_ok, ok_bind, aead_decrypt_encrypt. Qed.

Lemma payload_chunks_cons key p a b : a < b →
  payload_chunks key p a b = payload_chunk key p a ++ payload_chunks key p (a + 1) b.
Proof. intros Hab. unfold payload_chunks. by rewrite rangeZ_cons. Qed.

Lemma payload_chunks_nonempty key p a b : a < b → 16 ≤ len (payload_chunks key p a b).
Proof.
  intros Hab. rewrite payload_chunks_cons by done. unfold payload_chunk.
  rewrite len_app, aead_encrypt_length.
  pose proof (len_nonneg (payload_chunks key p (a + 1) b)).
  pose proof (len_nonneg (slice (a * CHUNK_SIZE) (Z.min (a * CHUNK_SIZE + CHUNK_SIZE) (len p)) p)). lia.
Qed.

(** Decrypting the chunks from the [a]-th on gives the plaintext from there. *)
Lemma payload_decrypts key (p : pybytes) a : len p ≤ 2 ^ 53 → 0 ≤ a < chunk_count (len p) →
  payload key a (payload_chunks key p a (chunk_count (len p))) =
  Ok (slice (a * CHUNK_SIZE) (len p) p).
Proof.
  intros Hp Ha. pose proof (len_nonneg p) as Hn.
  pose proof (chunk_count_bounds (len p) ltac:(lia)) as Hc. pose proof (chunk_last (len p) Hn) as [Hlast Hpos].
  remember (Z.to_nat (chunk_count (len p) - 1 - a)) as k eqn:Hk. revert a Ha Hk.
  induction k as [|k IH]; intros a Ha Hk;
    (rewrite payload_eq;
     [|intros He; pose proof (payload_chunks_nonempty key p a (chunk_count (len p)) ltac:(lia)) as Hne;
       rewrite He in Hne; change (len []) with 0 in Hne; lia]).
  - assert (a = chunk_count (len p) - 1) as Hlasta by lia.
    assert (payload_chunks key p a (chunk_count (len p)) = payload_chunk key p a) as ->.
    { rewrite payload_chunks_cons by lia. replace (a + 1) with (chunk_count (len p)) by lia.
      unfold payload_chunks. rewrite rangeZ_empty. cbn. by rewrite app_nil_r. }
    rewrite len_payload_chunk by lia. unfold max_nonfinal_len. rewrite (proj2 (Z.leb_le _ _)) by lia.
    unfold final_chunk. rewrite (proj2 (Z.ltb_ge _ AEAD_TAG_SIZE)).
    2: { rewrite len_payload_chunk by lia. pose proof (len_chunk_slice p a Ha) as Hs.
         pose proof (len_nonneg (slice (a * CHUNK_SIZE) (Z.min (a * CHUNK_SIZE + CHUNK_SIZE) (len p)) p)). lia. }
    unfold payload_chunk. replace (a =? chunk_count (len p) - 1) with true by lia.
    rewrite decrypt_one_encrypt, ok_bind by lia.
    rewrite len_chunk_slice, Z.min_r by lia.
    destruct (Z.eqb_spec (len p - a * CHUNK_SIZE) 0), (Z.eqb_spec a 0); cbn [andb negb]; try done.
    exfalso. unfold CHUNK_SIZE in *. lia.
  - pose proof (chunk_not_last (len p) a Hn ltac:(lia)) as Hfull.
    rewrite payload_chunks_cons by lia.
    pose proof (len_payload_chunk key p a Ha) as Hl. rewrite Z.min_l in Hl by lia.
    replace (a * CHUNK_SIZE + CHUNK_SIZE - a * CHUNK_SIZE + AEAD_TAG_SIZE) with max_nonfinal_len in Hl
      by (unfold max_nonfinal_len; lia).
    pose proof (payload_chunks_nonempty key p (a + 1) (chunk_count (len p)) ltac:(lia)) as Hne.
    rewrite (proj2 (Z.leb_gt _ _)) by (rewrite len_app; lia).
    assert (Z.to_nat max_nonfinal_len = length (payload_chunk key p a)) as -> by (unfold len in Hl; lia).
    rewrite take_app_length, drop_app_length, IH by lia.
    unfold inner_chunk, payload_chunk. replace (a =? chunk_count (len p) - 1) with false by lia.
    rewrite decrypt_one_encrypt, ok_bind by lia.
    rewrite len_chunk_slice, Z.min_l by lia.
    replace (a * CHUNK_SIZE + CHUNK_SIZE - a * CHUNK_SIZE) with CHUNK_SIZE by lia.
    rewrite Z.eqb_refl. cbn [negb]. rewrite !ok_bind. f_equal.
    replace ((a + 1) * CHUNK_SIZE) with (a * CHUNK_SIZE + CHUNK_SIZE) by lia.
    apply slice_app; unfold CHUNK_SIZE in *; lia.
Qed.
End payload.

(** ** Streaming is whole-file decryption *)

(** A stream that ends like a computation: it yields the pieces of the result,
    or stops with the same kind of error. *)
Definition agrees (s : stream) (m : result pybytes) : Prop :=
  match s.2, m with
  | Ok _, Ok p => concat s.1 = p
  | Err e, Err e' => exn_class e = exn_class e'
  | _, _ => False
  end.

Lemma agrees_yield pt s m : agrees s m → agrees (yield pt s) (r ← m; Ok (pt ++ r)).
Proof. unfold agrees, yield. destruct s as [out [[]|e]], m as [p|e']; cbn; try done. by intros ->. Qed.

(** ** The end of the header does not move when more data arrives *)

Lemma startswith_length m s : startswith m s = true → (length m ≤ length s)%nat.
Proof.
  revert s. induction m as [|c m IH]; intros [|d s] Hs; cbn in *; try done; try lia.
  apply andb_true_iff in Hs as [_ Hs]. apply IH in Hs. lia.
Qed.

Lemma startswith_extend m s t : (length m ≤ length s)%nat → startswith m (s ++ t) = startswith m s.
Proof.
  revert s. induction m as [|c m IH]; intros [|d s] Hs; cbn in *; try done; try lia.
  rewrite IH by lia. done.
Qed.

Lemma find_sub_length m s i : find_sub m s = Some i → (i + length m ≤ length s)%nat.
Proof.
  revert i. induction s as [|c s IH]; intros i; cbn [find_sub].
  - destruct (startswith m []) eqn:Hs; [|done]. intros [= <-]. apply startswith_length in Hs. lia.
  - destruct (startswith m (c :: s)) eqn:Hs.
    + intros [= <-]. apply startswith_length in Hs. lia.
    + destruct (find_sub m s) as [j|]; [|done]. intros [= <-]. specialize (IH j eq_refl). cbn [length]. lia.
Qed.

Lemma find_sub_extend m s t i : find_sub m s = Some i → find_sub m (s ++ t) = Some i.
Proof.
  revert i. induction s as [|c s IH]; intros i Hi.
  - pose proof (find_sub_length _ _ _ Hi) as Hl. cbn [length] in Hl. destruct m; [|cbn in Hl; lia].
    cbn in Hi. injection Hi as <-. by destruct t.
  - pose proof (find_sub_length _ _ _ Hi) as Hl. cbn [find_sub] in Hi. cbn [app find_sub].
    rewrite app_comm_cons, startswith_extend by lia. destruct (startswith m (c :: s)); [done|].
    destruct (find_sub m s) as [j|]; [|done]. injection Hi as <-. by rewrite (IH j).
Qed.

Lemma header_end_extend p q n : _age_header_end p = Some n → _age_header_end (p ++ q) = Some n.
Proof.
  unfold _age_header_end. intros Hp. destruct (find_sub _ p) as [i|] eqn:Hi; [|done].
  rewrite (find_sub_extend _ _ q _ Hi). cbn [mbind option_bind] in *.
  pose proof (find_sub_length _ _ _ Hi) as Hl. cbn in Hl.
  rewrite drop_app_le by lia. destruct (find_sub [10] (drop (S i) p)) as [j|] eqn:Hj; [|done].
  by rewrite (find_sub_extend _ _ q _ Hj).
Qed.

Lemma header_end_length p n : _age_header_end p = Some n → (n ≤ length p)%nat.
Proof.
  unfold _age_header_end. intros Hp. destruct (find_sub _ p) as [i|] eqn:Hi; [|done].
  cbn [mbind option_bind] in *. destruct (find_sub [10] (drop (S i) p)) as [j|] eqn:Hj; [|done].
  cbn in Hp. injection Hp as <-. apply find_sub_length in Hj. rewrite length_drop in Hj. cbn in Hj. lia.
Qed.

(** [stream_header] finds the header that the whole file has. *)
Lemma stream_header_spec prefix source : _age_header_end prefix = None →
  match _age_header_end (prefix ++ concat source) with
  | None => stream_header (Ok tt) prefix source = Err (Exn AgeFormatError (str "age header is missing MAC line"))
  | Some n => ∃ pre source', stream_header (Ok tt) prefix source = Ok (take n (prefix ++ concat source), pre, source') ∧
                pre ++ concat source' = drop n (prefix ++ concat source)
  end.
Proof.
  revert prefix. induction source as [|chunk source IH]; intros prefix Hnone; cbn [concat stream_header].
  { by rewrite app_nil_r, Hnone. }
  rewrite app_assoc. destruct (_age_header_end (prefix ++ chunk)) as [n|] eqn:Hn.
  - rewrite (header_end_extend _ _ _ Hn). pose proof (header_end_length _ _ Hn).
    eexists _, _. rewrite (take_app_le (prefix ++ chunk)), (drop_app_le (prefix ++ chunk)) by done.
    split; reflexivity.
  - by apply IH.
Qed.

Lemma stream_nonce_spec prefix source :
  (16 ≤ length (prefix ++ concat source))%nat →
  ∃ pre source', stream_nonce (Ok tt) prefix source = Ok (take 16 (prefix ++ concat source), pre, source') ∧
    pre ++ concat source' = drop 16 (prefix ++ concat source).
Proof.
  revert prefix. induction source as [|chunk source IH]; intros prefix Hl; cbn [concat stream_nonce] in *;
    unfold PAYLOAD_NONCE_SIZE.
  - rewrite app_nil_r in *. rewrite (proj2 (Z.leb_le 16 _)) by (unfold len; lia).
    eexists _, _. split; [done|]. by rewrite app_nil_r.
  - destruct (Z.leb_spec 16 (len prefix)) as [Hge|Hlt].
    + unfold len in Hge. eexists _, _. rewrite take_app_le, drop_app_le by lia. split; reflexivity.
    + rewrite app_assoc in *. by apply IH.
Qed.

Lemma stream_nonce_short prefix source :
  (length (prefix ++ concat source) < 16)%nat →
  stream_nonce (Ok tt) prefix source = Err (Exn AgeFormatError (str "age payload is missing 16-byte nonce")).
Proof.
  revert prefix. induction source as [|chunk source IH]; intros prefix Hl; cbn [concat stream_nonce] in *;
    unfold PAYLOAD_NONCE_SIZE; rewrite (proj2 (Z.leb_gt 16 _)) by (unfold len; rewrite length_app in Hl; lia).
  - done.
  - apply IH. by rewrite <- app_assoc.
Qed.

Section streaming.
Context `{UnicodeData} `{Aead}.

Lemma stream_chunks_agrees key k rest fuel buffer idx :
  (length buffer ≤ fuel)%nat → buffer ++ rest ≠ [] →
  (∀ buffer idx, len buffer ≤ max_nonfinal_len → buffer ++ rest ≠ [] →
    agrees (k buffer idx) (payload key idx (buffer ++ rest))) →
  agrees (stream_chunks fuel key buffer idx k) (payload key idx (buffer ++ rest)).
Proof.
  intros Hf Hne Hk. revert buffer idx Hf Hne. induction fuel as [|fuel IH]; intros buffer idx Hf Hne;
    cbn [stream_chunks].
  { apply Hk; [|done]. destruct buffer; [done|cbn in Hf; lia]. }
  destruct (Z.ltb_spec max_nonfinal_len (len buffer)) as [Hgt|Hle]; [|by apply Hk].
  rewrite payload_eq by done.
  rewrite (proj2 (Z.leb_gt _ _)) by (rewrite len_app; pose proof (len_nonneg rest); lia).
  unfold len in Hgt. rewrite take_app_le, drop_app_le by lia. unfold inner_chunk.
  destruct (decrypt_one _ _ _ _) as [pt|e]; [|done]. rewrite !ok_bind.
  destruct (negb (len pt =? CHUNK_SIZE)); [done|]. rewrite ok_bind. apply agrees_yield, IH.
  - rewrite length_drop. change (Z.to_nat max_nonfinal_len) with (S (Z.to_nat (max_nonfinal_len - 1))). lia.
  - intros Hnil. apply app_eq_nil in Hnil as [Hnil _]. apply (f_equal length) in Hnil.
    rewrite length_drop in Hnil. cbn [length] in Hnil.
    unfold max_nonfinal_len, CHUNK_SIZE, AEAD_TAG_SIZE in *. lia.
Qed.

Lemma stream_payload_agrees key chunks buffer idx : len buffer ≤ max_nonfinal_len →
  buffer ++ concat chunks ≠ [] →
  agrees (stream_payload (Ok tt) key chunks buffer idx) (payload key idx (buffer ++ concat chunks)).
Proof.
  revert buffer idx. induction chunks as [|chunk chunks IH]; intros buffer idx Hl Hne;
    cbn [concat stream_payload] in *.
  - rewrite app_nil_r in *. rewrite payload_eq by done. rewrite (proj2 (Z.leb_le _ _)) by done.
    unfold stream_final, final_chunk. destruct (len buffer <? AEAD_TAG_SIZE); [done|].
    destruct (decrypt_one _ _ _ _) as [pt|e]; [|done]. rewrite !ok_bind.
    destruct ((len pt =? 0) && _); [done|]. unfold agrees. cbn. by rewrite app_nil_r.
  - rewrite app_assoc in *. destruct chunk as [|c chunk].
    + rewrite app_nil_r in *. by apply IH.
    + by apply stream_chunks_agrees.
Qed.

Lemma stream_payload_empty key chunks idx : concat chunks = [] →
  stream_payload (Ok tt) key chunks [] idx =
  stop (Exn AgeFormatError (str "age payload must include at least one final chunk tag")).
Proof. induction chunks as [|[|c chunk] chunks IH]; cbn; auto; done. Qed.

(** The payload decoders agree on every way of cutting the ciphertext. *)
Lemma iter_payload_agrees file_key nonce chunks :
  agrees (iter_decrypt_payload_chunks file_key nonce (chunks, Ok tt))
    (decrypt_payload_chunks file_key nonce (concat chunks)).
Proof.
  unfold iter_decrypt_payload_chunks, decrypt_payload_chunks. cbn [fst snd].
  destruct (negb (len file_key =? _)); [done|]. destruct (negb (len nonce =? _)); [done|].
  destruct (decide (concat chunks = [])) as [He|Hne].
  { rewrite stream_payload_empty by done. by rewrite He. }
  pose proof (stream_payload_agrees (_hkdf_sha256 file_key nonce PAYLOAD_HKDF_INFO) chunks [] 0
                ltac:(done) Hne) as Hag. cbn [app] in Hag.
  destruct (Z.ltb_spec (len (concat chunks)) AEAD_TAG_SIZE) as [Hlt|]; [|exact Hag].
  rewrite payload_eq in Hag by done.
  rewrite (proj2 (Z.leb_le _ _)) in Hag by (unfold max_nonfinal_len, CHUNK_SIZE, AEAD_TAG_SIZE in *; lia).
  unfold final_chunk in Hag. rewrite (proj2 (Z.ltb_lt _ _)) in Hag by done. exact Hag.
Qed.

(** The only difference between the two decoders: a header without a scrypt
    stanza is an [AgeDecryptError] to one and an [AgeFormatError] to the other. *)
Definition decoders_agree (s : stream) (m : result pybytes) : Prop :=
  agrees s m ∨
  (m = Err (Exn AgeDecryptError (str "no supported scrypt recipient stanza found")) ∧
   ∃ e, s = stop e ∧ exn_class e = AgeFormatError).

Lemma header_end_nil : _age_header_end [] = None.
Proof. done. Qed.

Lemma concat_prepend prefix source : concat (_prepend prefix source) = prefix ++ concat source.
Proof. by destruct prefix. Qed.

Lemma parse_header_keeps header parsed : parse_scrypt_header header = Ok parsed → ph_header parsed = header.
Proof.
  unfold parse_scrypt_header. intros Hp.
  repeat first
    [ match type of Hp with (if ?b then Err _ else _) = Ok _ => destruct b; [done|] end
    | let x := fresh "x" in let Hx := fresh in apply bind_Ok in Hp as (x & Hx & Hp); clear Hx ].
  destruct (mac_line 2 _); [|done].
  repeat first
    [ match type of Hp with (if ?b then Err _ else _) = Ok _ => destruct b; [done|] end
    | let x := fresh "x" in let Hx := fresh in apply bind_Ok in Hp as (x & Hx & Hp); clear Hx ].
  by injection Hp as <-.
Qed.

Lemma decoders_agree_any chunks pass maxmem :
  decoders_agree (iter_decrypt_age_scrypt (chunks, Ok tt) pass maxmem)
    (decrypt_age_scrypt (concat chunks) pass maxmem).
Proof.
  unfold iter_decrypt_age_scrypt, decrypt_age_scrypt, parse_scrypt_header_from_age_file. cbn [fst snd].
  pose proof (stream_header_spec [] chunks header_end_nil) as Hh. cbn [app] in Hh.
  set (data := concat chunks) in *.
  assert (∀ e, exn_class e = AgeFormatError →
    decoders_agree (stop e)
      (if _age_header_has_no_scrypt_recipient data
       then Err (Exn AgeDecryptError (str "no supported scrypt recipient stanza found")) else Err e)) as Herr.
  { intros e He. destruct (_age_header_has_no_scrypt_recipient data); [right; eauto|left]. done. }
  destruct (_age_header_end data) as [n|] eqn:Hend.
  2: { rewrite Hh. cbn [mbind result_bind try_except exn_class]. rewrite bool_decide_true by done.
       specialize (Herr (Exn AgeFormatError (str "age header is missing MAC line")) eq_refl).
       by destruct (_age_header_has_no_scrypt_recipient data). }
  destruct Hh as (pre & source & -> & Hpre). rewrite ok_bind. pose proof (header_end_length _ _ Hend) as Hn.
  destruct (parse_scrypt_header (take n data)) as [parsed|e] eqn:Hparse; cbn [try_except].
  2: { destruct (decide (exn_class e = AgeFormatError)) as [Hc|Hc].
       - rewrite bool_decide_true by done. specialize (Herr e Hc).
         by destruct (_age_header_has_no_scrypt_recipient data).
       - rewrite bool_decide_false by done. by left. }
  rewrite !ok_bind. left. rewrite (parse_header_keeps _ _ Hparse), length_take, Nat.min_l by done.
  destruct (_passphrase_to_bytes pass) as [pb|e]; [|done]. rewrite !ok_bind.
  destruct (_unwrap_scrypt_file_key pb parsed maxmem) as [file_key|e]; [|done]. rewrite !ok_bind.
  assert (length (drop n data) = length data - n)%nat as Hd by by rewrite length_drop.
  destruct (Z.ltb_spec (len data) (Z.of_nat n + PAYLOAD_NONCE_SIZE)) as [Hlt|Hge];
    unfold len, PAYLOAD_NONCE_SIZE in *.
  - rewrite stream_nonce_short; [done|]. rewrite Hpre. lia.
  - destruct (stream_nonce_spec pre source) as (pre' & source' & -> & Hrest); [rewrite Hpre; lia|].
    rewrite ok_bind, Hpre. rewrite Hpre, drop_drop in Hrest. rewrite <- Hrest, <- concat_prepend.
    apply iter_payload_agrees.
Qed.

(** A source that fails never gives a complete plaintext: the decoder ends with
    an error, at the latest with the one of the source. *)
Lemma stream_chunks_fails key k fuel buffer idx :
  (∀ buffer idx, ∃ e, (k buffer idx).2 = Err e) →
  ∃ e, (stream_chunks fuel key buffer idx k).2 = Err e.
Proof.
  intros Hk. revert buffer idx. induction fuel as [|fuel IH]; intros buffer idx; cbn [stream_chunks]; [apply Hk|].
  destruct (max_nonfinal_len <? len buffer); [|apply Hk].
  destruct (decrypt_one _ _ _ _) as [pt|e]; [|by exists e].
  destruct (negb _); [by eexists|]. apply IH.
Qed.

Lemma stream_payload_fails e key chunks buffer idx :
  ∃ e', (stream_payload (Err e) key chunks buffer idx).2 = Err e'.
Proof.
  revert buffer idx. induction chunks as [|[|c chunk] chunks IH]; intros buffer idx; cbn [stream_payload].
  - by exists e.
  - apply IH.
  - apply stream_chunks_fails, IH.
Qed.

Lemma failing_source_fails chunks e pass maxmem :
  ∃ e', (iter_decrypt_age_scrypt (chunks, Err e) pass maxmem).2 = Err e'.
Proof.
  unfold iter_decrypt_age_scrypt. cbn [fst snd]. destruct (mbind _ _) as [[[fk nonce] rest]|e']; [|by exists e'].
  unfold iter_decrypt_payload_chunks.
  destruct (negb _); [by eexists|]. destruct (negb _); [by eexists|]. apply stream_payload_fails.
Qed.

(** ** Whole files *)

Lemma decrypt_created pass pass_bytes wrap_key file_key salt nonce log_n maxmem (p : pybytes) :
  bytes_ok file_key → len file_key = 16 → bytes_ok salt → len salt = 16 → len nonce = 16 →
  1 ≤ log_n ≤ 22 → len p ≤ 2 ^ 53 → _passphrase_to_bytes pass = Ok pass_bytes →
  _derive_scrypt_wrap_key pass_bytes salt log_n maxmem = Ok wrap_key →
  let s := session_of file_key nonce (wrapped_header wrap_key file_key salt log_n) in
  decrypt_age_scrypt (age_prefix s ++ payload_chunks (ss_payload_key s) p 0 (chunk_count (len p))) pass maxmem
  = Ok p.
Proof.
  intros Hf Hf16 Hs Hs16 Hn16 Hl Hp Hpass Hw s.
  set (header := wrapped_header wrap_key file_key salt log_n).
  destruct (created_unwrap pass_bytes wrap_key file_key salt log_n maxmem Hf Hf16 Hs Hs16 Hl Hw)
    as (parsed & Hparse & Hh & Hkey).
  set (ct := payload_chunks (ss_payload_key s) p 0 (chunk_count (len p))).
  unfold decrypt_age_scrypt, parse_scrypt_header_from_age_file, age_prefix. cbn [ss_header ss_payload_nonce s session_of].
  pose proof (created_header_end wrap_key file_key salt log_n Hf Hf16 Hs Hl) as Hend.
  fold header in Hend, Hparse, Hh |- *. rewrite <- app_assoc, Hend, take_app_length, Hparse. cbn [try_except]. rewrite ok_bind, Hpass, ok_bind, Hkey, ok_bind, Hh.
  rewrite (proj2 (Z.ltb_ge _ _)).
  2: { rewrite !len_app. unfold PAYLOAD_NONCE_SIZE, len in *. lia. }
  rewrite <- drop_drop, drop_app_length.
  assert (length nonce = 16%nat) as Hn by (unfold len in Hn16; lia).
  rewrite <- Hn, take_app_length, drop_app_length.
  pose proof (len_nonneg p) as Hp0. pose proof (chunk_count_bounds (len p) ltac:(lia)) as Hc.
  pose proof (payload_chunks_nonempty (ss_payload_key s) p 0 (chunk_count (len p)) ltac:(lia)) as Hne.
  unfold decrypt_payload_chunks, FILE_KEY_SIZE, PAYLOAD_NONCE_SIZE, AEAD_TAG_SIZE.
  rewrite Hf16, Hn16. cbn [Z.eqb Pos.eqb negb]. rewrite (proj2 (Z.ltb_ge _ 16)) by done.
  pose proof (payload_decrypts (ss_payload_key s) p 0 Hp ltac:(lia)) as Hd. unfold payload in Hd.
  rewrite Z.mul_0_l, slice_full in Hd. exact Hd.
Qed.
End streaming.

(** ** The persisted state *)

Definition upload_state_valid (s : UploadState) : Prop :=
  bytes_ok (us_header s) ∧ bytes_ok (us_payload_nonce s) ∧ len (us_payload_nonce s) = 16 ∧
  us_format s = upload_state_format ∧ from_option (λ n, 0 ≤ n) True (us_plaintext_size s).

Lemma b64_text bs : bytes_ok bs → text_ok (_b64_encode bs).
Proof.
  intros Hb. eapply Forall_impl; [by apply b64_encode_ascii|]. intros c Hc. cbv beta in Hc.
  unfold is_scalar, is_code_point, is_surrogate. split; [lia|].
  by rewrite (proj2 (Z.leb_gt _ _)) by lia.
Qed.

Section states.
Context `{PyEnv}.

Lemma upload_payload_wf s : upload_state_valid s → json_wf (upload_state_payload s).
Proof.
  intros (Hh & Hn & _ & Hf & _). unfold upload_state_payload. rewrite Hf.
  wf_obj; [by apply b64_text|by apply b64_text|]. by destruct (us_plaintext_size s).
Qed.

Lemma rebuild_upload_payload s : upload_state_valid s →
  upload_state_of_payload (canon (upload_state_payload s)) = Ok s.
Proof.
  intros (Hh & Hn & H16 & Hf & Hs). unfold upload_state_payload.
  assert (∀ a b c d, canon (JObj [(str "format", JStr a); (str "header_b64", JStr b);
      (str "payload_nonce_b64", JStr c); (str "plaintext_size", from_option JInt JNull d)]) =
    JObj [(str "format", JStr a); (str "header_b64", JStr b);
      (str "payload_nonce_b64", JStr c); (str "plaintext_size", from_option JInt JNull d)]) as ->
    by (intros ??? [?|]; reflexivity).
  unfold upload_state_of_payload, get_or_null, b64_field. dict_simpl. cbn [from_option default is_str].
  cbn [id]. rewrite Hf. unfold is_str. rewrite bool_decide_true by done. cbn [negb]. rewrite !b64_roundtrip by done. rewrite !ok_bind.
  unfold PAYLOAD_NONCE_SIZE. destruct s as [header nonce [n|] fmt]; cbn in *; subst fmt.
  - rewrite (proj2 (Z.ltb_ge n 0)) by done. rewrite ok_bind, H16. done.
  - rewrite ?ok_bind, H16. done.
Qed.
End states.

#[export] Instance upload_state_document `{PyEnv} : JsonDocument UploadState := {|
  doc_payload := upload_state_payload;
  doc_of_payload := upload_state_of_payload;
  doc_valid := upload_state_valid;
  doc_payload_wf := upload_payload_wf;
  doc_law := rebuild_upload_payload;
|}.

Section resuming.
Context `{PyEnv} `{Aead}.

Lemma header_lines_bytes salt log_n body mac : bytes_ok salt → bytes_ok body → bytes_ok mac →
  bytes_ok (header_lines salt log_n body mac).
Proof.
  intros Hs Hb Hm.
  assert (∀ w, Forall (λ c, 0 ≤ c < 128) w → bytes_ok w) as Hascii.
  { intros w Hw. eapply Forall_impl; [exact Hw|]. unfold is_byte. simpl. lia. }
  assert (is_byte 10) as H10 by (unfold is_byte; lia).
  assert (∀ t, bytes_ok (str t)) as Hstr.
  { intros t. apply str_ascii. }
  unfold header_lines, stanza_args, bytes_ok.
  repeat match goal with
  | |- Forall _ (_ ++ _) => apply Forall_app; split
  | |- Forall _ (10 :: _) => apply Forall_cons; split; [exact H10|]
  | |- Forall _ [] => apply Forall_nil_2
  | |- Forall _ (str _) => apply Hstr
  | |- Forall _ (_b64_encode _) => apply Hascii; by apply b64_encode_ascii
  | |- Forall _ (str_of_Z _) => apply Hascii, str_of_Z_ascii
  end.
Qed.

Lemma resume_created pass log_n file_key salt nonce maxmem s size :
  create pass log_n file_key salt nonce maxmem = Ok s →
  bytes_ok file_key → bytes_ok salt → bytes_ok nonce → from_option (λ n, 0 ≤ n) True size →
  ∃ state bs, Age.export_state s size = Ok state ∧ to_json_bytes state = Ok bs ∧
    from_json_bytes bs = Ok state ∧ us_plaintext_size state = size ∧
    session_from_state pass (StateBytes bs) maxmem = Ok s.
Proof.
  intros Hc Hf Hs Hn Hsize. apply create_inv in Hc as (pb & wk & Hl & Hf16 & Hs16 & Hn16 & Hpb & Hwk & ->).
  set (header := wrapped_header wk file_key salt log_n).
  set (state := {| us_header := header; us_payload_nonce := nonce; us_plaintext_size := size;
                   us_format := upload_state_format |}).
  assert (upload_state_valid state) as Hv.
  { split; [|split; [exact Hn|split; [exact Hn16|split; [reflexivity|exact Hsize]]]].
    cbn [us_header state]. unfold header. rewrite created_header by assumption.
    apply header_lines_bytes; [done|by apply aead_encrypt_bytes|apply header_mac_shape]. }
  destruct (@document_bytes_roundtrip _ _ upload_state_document true state Hv) as (bs & Hbs & Hback).
  exists state, bs. split.
  { unfold Age.export_state. destruct size as [n|]; [|done]. cbn in Hsize.
    by rewrite (proj2 (Z.ltb_ge n 0)). }
  assert (from_json_bytes bs = Ok state) as Hfrom by exact Hback.
  split_and!; [exact Hbs|exact Hfrom|done|].
  unfold session_from_state, _upload_state. rewrite Hfrom, ok_bind. cbn [us_header state].
  destruct (created_unwrap pb wk file_key salt log_n maxmem Hf Hf16 Hs Hs16 Hl Hwk)
    as (parsed & Hparse & _ & Hkey). fold header in Hparse.
  rewrite Hparse, ok_bind, Hpb, ok_bind, Hkey, ok_bind. cbn [us_payload_nonce state].
  unfold new_session, FILE_KEY_SIZE, PAYLOAD_NONCE_SIZE. rewrite Hf16, Hn16. done.
Qed.
End resuming.

(** ** Properties *)

Section age_properties.
Context `{PyEnv} `{Aead}.

(** C13. Whole files round trip: with 16 random bytes for each of the file
    key, the salt and the payload nonce, a passphrase that has a UTF-8 form
    and a work factor up to 19, encrypting any plaintext of at most 2^53 bytes
    succeeds, and decrypting the file with the same passphrase (the header
    parsed, the file key unwrapped, the header MAC checked, every chunk
    authenticated) gives exactly the plaintext. *)
Theorem age_file_roundtrip (p : pybytes) pass pass_bytes log_n file_key salt nonce :
  _passphrase_to_bytes pass = Ok pass_bytes → 1 ≤ log_n ≤ 19 → len p ≤ 2 ^ 53 →
  bytes_ok file_key → len file_key = 16 → bytes_ok salt → len salt = 16 → len nonce = 16 →
  ∃ age_file,
    encrypt_age_scrypt p pass log_n None file_key salt nonce = Ok age_file ∧
    decrypt_age_scrypt age_file pass None = Ok p.
Proof.
  intros Hpass Hl Hp Hf Hf16 Hs Hs16 Hn16.
  pose proof (derive_wrap_key_ok pass_bytes salt log_n Hl Hs16) as Hw.
  eexists. unfold encrypt_age_scrypt. split.
  - rewrite (create_ok pass pass_bytes log_n file_key salt nonce None _ ltac:(lia) Hf16 Hs16 Hn16 Hpass Hw).
    rewrite ok_bind. by apply encrypt_plaintext_spec.
  - apply (decrypt_created pass pass_bytes); assumption || lia.
Qed.

(** C28. Streaming equals whole-file decryption: however the bytes of a file
    are cut into chunks (empty ones included), the streaming decoder yields the
    pieces of exactly the plaintext the whole-file decoder returns, or ends
    with the same class of error; the one exception is a file without a scrypt
    stanza, an [AgeDecryptError] for the latter and an [AgeFormatError] for
    the former.  Nothing is assumed of the file. *)
Theorem streaming_equals_whole (chunks : list pybytes) pass maxmem :
  decoders_agree (iter_decrypt_age_scrypt (chunks, Ok tt) pass maxmem)
    (decrypt_age_scrypt (concat chunks) pass maxmem).
Proof. apply decoders_agree_any. Qed.

(** A session survives a restart: the exported state of a created session
    can be written as JSON and read back, and the passphrase with those bytes
    rebuilds the very same session, file key and payload key included. *)
Theorem session_resumes pass log_n file_key salt nonce maxmem s size :
  create pass log_n file_key salt nonce maxmem = Ok s →
  bytes_ok file_key → bytes_ok salt → bytes_ok nonce → from_option (λ n, 0 ≤ n) True size →
  ∃ state bs, Age.export_state s size = Ok state ∧ to_json_bytes state = Ok bs ∧
    from_json_bytes bs = Ok state ∧ us_plaintext_size state = size ∧
    session_from_state pass (StateBytes bs) maxmem = Ok s.
Proof. apply resume_created. Qed.

(** Work factors 20, 21 and 22 pass validation but can neither create nor
    open a file: the memory limit computed for them exceeds what
    [hashlib.scrypt] accepts, and a [ValueError] is raised. *)
Theorem work_factor_limit pass pass_bytes log_n file_key salt nonce parsed :
  20 ≤ log_n ≤ 22 → _passphrase_to_bytes pass = Ok pass_bytes →
  len file_key = 16 → len salt = 16 → len nonce = 16 → ph_salt parsed = salt → ph_log_n parsed = log_n →
  let refused := Exn ValueError (str "maxmem must be positive and smaller than 2147483647") in
  _validate_log_n log_n = Ok tt ∧
  create pass log_n file_key salt nonce None = Err refused ∧
  _unwrap_scrypt_file_key pass_bytes parsed None = Err refused.
Proof.
  intros Hl Hpass Hf Hs Hn Hps Hpl. pose proof (derive_wrap_key_refused pass_bytes salt log_n Hl Hs) as Hd.
  assert (_validate_log_n log_n = Ok tt) as Hv.
  { unfold _validate_log_n. by rewrite (proj2 (Z.ltb_ge log_n 1)), (proj2 (Z.ltb_ge 22 log_n)) by lia. }
  split_and!; [done| |].
  - unfold create, FILE_KEY_SIZE, SCRYPT_SALT_SIZE, PAYLOAD_NONCE_SIZE.
    rewrite Hv, Hpass, Hf, Hs, Hn. cbn [negb Z.eqb Pos.eqb]. by rewrite !ok_bind, Hd.
  - unfold _unwrap_scrypt_file_key. by rewrite Hps, Hpl, Hd.
Qed.
End age_properties.

(** The chunk count is the rounded-up quotient for every plaintext up to
    2^53 bytes; from 2^53 + 1 bytes on the float division may lose the last
    chunk. *)
Theorem chunk_count_float_division :
  (∀ n, 0 ≤ n ≤ 2 ^ 53 → age_chunk_count_for_plaintext_len n = Ok (chunk_count n)) ∧
  age_chunk_count_for_plaintext_len (2 ^ 53 + 1) = Ok (chunk_count (2 ^ 53 + 1) - 1).
Proof. split; [apply chunk_count_exact|]. vm_compute. reflexivity. Qed.

(** ** The properties at work *)

Definition example_key : pybytes := repeatZ 16 7.
Definition example_salt : pybytes := repeatZ 16 9.
Definition example_nonce : pybytes := repeatZ 16 11.

Lemma age_file_roundtrip_witness :
  ∃ age_file,
    @encrypt_age_scrypt tag_aead (str "hello") (PassText (str "pw")) 2 None
      example_key example_salt example_nonce = Ok age_file ∧
    @decrypt_age_scrypt ascii_data tag_aead age_file (PassText (str "pw")) None = Ok (str "hello").
Proof.
  apply (@age_file_roundtrip ascii_env tag_aead (str "hello") _ (str "pw"));
    try reflexivity; try (vm_compute; split; discriminate); try (vm_compute; discriminate);
    apply (bool_decide_unpack _); vm_compute; exact I.
Defined.

Lemma session_resumes_witness :
  ∃ s state bs,
    @create tag_aead (PassText (str "pw")) 2 example_key example_salt example_nonce None = Ok s ∧
    Age.export_state s (Some 5) = Ok state ∧ @to_json_bytes ascii_env state = Ok bs ∧
    from_json_bytes bs = Ok state ∧ us_plaintext_size state = Some 5 ∧
    @session_from_state ascii_data tag_aead (PassText (str "pw")) (StateBytes bs) None = Ok s.
Proof.
  pose proof (derive_wrap_key_ok (str "pw") example_salt 2 ltac:(lia) eq_refl) as Hw.
  assert (Hc := @create_ok tag_aead (PassText (str "pw")) (str "pw") 2 example_key example_salt example_nonce
    None _ ltac:(lia) eq_refl eq_refl eq_refl eq_refl Hw).
  destruct (@session_resumes ascii_env tag_aead _ _ _ _ _ _ _ (Some 5) Hc) as (state & bs & Hall);
    try (apply (bool_decide_unpack _); vm_compute; exact I); [cbn; lia|].
  eexists _, state, bs. split; [exact Hc|exact Hall].
Defined.

Lemma work_factor_limit_witness :
  _validate_log_n 20 = Ok tt ∧
  @create tag_aead (PassBytes []) 20 example_key example_salt example_nonce None =
    Err (Exn ValueError (str "maxmem must be positive and smaller than 2147483647")) ∧
  @_unwrap_scrypt_file_key tag_aead []
    {| ph_header := []; ph_salt := example_salt; ph_log_n := 20; ph_body := []; ph_mac := []; ph_mac_input := [] |} None =
    Err (Exn ValueError (str "maxmem must be positive and smaller than 2147483647")).
Proof. apply (@work_factor_limit tag_aead _ _ _ _ example_salt); try reflexivity. lia. Defined.
