(* ===== verification/AgeUnits.v ===== *)
(** * Age-aligned units

    The unit plans of [riverhog_age/resumable_age.py]
    ([make_age_aligned_unit_plans], [encrypt_part]) and the raw volumes' use of
    them ([riverhog_core/raw_volume.py]).  The plans cut the ciphertext of a
    plaintext at chunk boundaries; encrypting the units one by one, in any
    process that has the session, gives the file that encrypting at once
    gives. *)

From S2P Require Import Prelude Text Json Sha256 Paths Domain RawVolume Crypto Base64 Age.

Record AgeAlignedUnitPlan := {
  au_unit_number : Z;
  au_first_chunk : Z;
  au_chunk_count : Z;
  au_includes_age_prefix : bool;
  au_plaintext_start : Z;
  au_plaintext_end : Z;
  au_ciphertext_start : Z;
  au_ciphertext_end : Z;
}.

Definition plaintext_len (u : AgeAlignedUnitPlan) : Z := au_plaintext_end u - au_plaintext_start u.
Definition ciphertext_len (u : AgeAlignedUnitPlan) : Z := au_ciphertext_end u - au_ciphertext_start u.

Definition unit_plan (plaintext_size age_prefix_len chunks_per_unit chunk_count : Z)
    (first_chunk unit_number ciphertext_offset : Z) : AgeAlignedUnitPlan :=
  let this_count := Z.min chunks_per_unit (chunk_count - first_chunk) in
  let includes_prefix := first_chunk =? 0 in
  let plaintext_start := if plaintext_size =? 0 then 0 else first_chunk * CHUNK_SIZE in
  let plaintext_end := if plaintext_size =? 0 then 0
                       else Z.min ((first_chunk + this_count) * CHUNK_SIZE) plaintext_size in
  let unit_len := (if includes_prefix then age_prefix_len else 0)
                  + (plaintext_end - plaintext_start) + this_count * AEAD_TAG_SIZE in
  {| au_unit_number := unit_number; au_first_chunk := first_chunk; au_chunk_count := this_count;
     au_includes_age_prefix := includes_prefix;
     au_plaintext_start := plaintext_start; au_plaintext_end := plaintext_end;
     au_ciphertext_start := ciphertext_offset; au_ciphertext_end := ciphertext_offset + unit_len |}.

(** [for first_chunk in range(0, chunk_count, chunks_per_unit)]; one unit of
    fuel per chunk is enough because the stride is positive. *)
Fixpoint unit_loop (fuel : nat) (plaintext_size age_prefix_len chunks_per_unit chunk_count : Z)
    (first_chunk unit_number ciphertext_offset : Z) : list AgeAlignedUnitPlan :=
  match fuel with
  | O => []
  | S fuel =>
      if first_chunk <? chunk_count then
        let u := unit_plan plaintext_size age_prefix_len chunks_per_unit chunk_count
                   first_chunk unit_number ciphertext_offset in
        u :: unit_loop fuel plaintext_size age_prefix_len chunks_per_unit chunk_count
               (first_chunk + chunks_per_unit) (unit_number + 1) (au_ciphertext_end u)
      else []
  end.

Definition make_age_aligned_unit_plans (plaintext_size age_prefix_len chunks_per_unit : Z) :
    result (list AgeAlignedUnitPlan) :=
  when plaintext_size <? 0 raise ValueError "plaintext_size must be non-negative";
  when age_prefix_len <? PAYLOAD_NONCE_SIZE
    raise ValueError "age_prefix_len must include header and 16-byte payload nonce";
  when chunks_per_unit <=? 0 raise ValueError "chunks_per_unit must be positive";
  chunk_count ← age_chunk_count_for_plaintext_len plaintext_size;
  Ok (unit_loop (Z.to_nat chunk_count) plaintext_size age_prefix_len chunks_per_unit chunk_count 0 1 0).

Definition age_aligned_unit_plans (s : ResumableAgeScryptSession) (plaintext_size chunks_per_unit : Z) :
    result (list AgeAlignedUnitPlan) :=
  make_age_aligned_unit_plans plaintext_size (len (age_prefix s)) chunks_per_unit.

(** [raw_age_aligned_unit_plans] *)
Definition raw_age_aligned_unit_plans (plan : RawVolumePlan) (s : ResumableAgeScryptSession)
    (target_plaintext_bytes : Z) : result (list AgeAlignedUnitPlan) :=
  when (target_plaintext_bytes <=? 0) || negb (target_plaintext_bytes mod CHUNK_SIZE =? 0)
    raise ValueError "raw part target must be a positive age-chunk multiple";
  let chunks_per_unit := Z.max 1 (target_plaintext_bytes / CHUNK_SIZE) in
  age_aligned_unit_plans s (rv_plaintext_bytes plan) chunks_per_unit.

Section units.
Context `{Aead}.

(** One iteration of [encrypt_part]; the provider may raise. *)
Definition part_step (s : ResumableAgeScryptSession) (provider : Z → Z → Z → result pybytes)
    (plaintext_size chunk_count : Z) (out : pybytes) (chunk_index : Z) : result pybytes :=
  let '(start, stop) := chunk_bounds plaintext_size chunk_index in
  let final := chunk_index =? chunk_count - 1 in
  chunk ← provider chunk_index start stop;
  when negb (len chunk =? stop - start) raise ValueError "chunk provider returned a wrong number of bytes";
  enc ← encrypt_chunk s chunk_index chunk final;
  Ok (out ++ enc).

Definition encrypt_part (s : ResumableAgeScryptSession) (plan : AgeAlignedUnitPlan)
    (provider : Z → Z → Z → result pybytes) (plaintext_size : Z) : result pybytes :=
  chunk_count ← age_chunk_count_for_plaintext_len plaintext_size;
  out ← foldM (part_step s provider plaintext_size chunk_count)
          (if au_includes_age_prefix plan then age_prefix s else [])
          (rangeZ (au_first_chunk plan) (au_first_chunk plan + au_chunk_count plan));
  when negb (len out =? ciphertext_len plan) raise RuntimeError "internal part length mismatch";
  Ok out.
End units.

(** ** The shape of the plans *)

(** Units that cover the chunks from [first] to [count], with consecutive
    numbers and ciphertext ranges. *)
Fixpoint units_from (n prefix_len per count first number offset : Z) (us : list AgeAlignedUnitPlan) : Prop :=
  match us with
  | [] => count ≤ first
  | u :: us =>
      first < count ∧ u = unit_plan n prefix_len per count first number offset ∧
      units_from n prefix_len per count (first + per) (number + 1) (au_ciphertext_end u) us
  end.

Lemma unit_loop_spec fuel n prefix_len per count first number offset : 0 < per →
  count - first ≤ Z.of_nat fuel →
  units_from n prefix_len per count first number offset
    (unit_loop fuel n prefix_len per count first number offset).
Proof.
  intros Hper. revert first number offset. induction fuel as [|fuel IH]; intros first number offset Hf;
    cbn [unit_loop units_from]; [lia|].
  destruct (Z.ltb_spec first count); [|done]. cbn [units_from]. split_and!; [done|done|]. apply IH. lia.
Qed.

Definition unit_span (u : AgeAlignedUnitPlan) : Z * Z * Z := (au_unit_number u, au_plaintext_start u, au_plaintext_end u).

(** The numbers and the plaintext ranges do not depend on the prefix. *)
Lemma units_same_spans n a b per count first number oa ob us vs :
  units_from n a per count first number oa us → units_from n b per count first number ob vs →
  unit_span <$> us = unit_span <$> vs.
Proof.
  revert vs first number oa ob. induction us as [|u us IH]; intros [|v vs] first number oa ob Hu Hv; cbn [units_from] in *;
    [done|lia|lia|].
  destruct Hu as (_ & -> & Hu), Hv as (_ & -> & Hv). rewrite !fmap_cons. f_equal. by eapply IH.
Qed.

Lemma units_start n pre per count first number offset us : 0 < per → units_from n pre per count first number offset us →
  Forall (λ u, au_plaintext_start u = (if n =? 0 then 0 else au_first_chunk u * CHUNK_SIZE) ∧ first ≤ au_first_chunk u < count ∧
    au_plaintext_end u = (if n =? 0 then 0 else Z.min ((au_first_chunk u + au_chunk_count u) * CHUNK_SIZE) n)) us.
Proof.
  intros Hper. revert first number offset. induction us as [|u us IH]; intros first number offset Hu; [constructor|].
  cbn [units_from] in Hu. destruct Hu as (Hlt & -> & Hu). constructor; [cbn; split_and!; [done|lia|lia|done]|].
  eapply Forall_impl; [exact (IH _ _ _ Hu)|]. cbn. intros v (? & ? & ?). split_and!; [done|lia|lia|done].
Qed.

(** A later unit starts after an earlier one ends. *)
Lemma units_ordered n pre per count first number offset us i j u v : 0 < per →
  units_from n pre per count first number offset us → us !! i = Some u → us !! j = Some v → (i < j)%nat →
  au_plaintext_end u ≤ au_plaintext_start v.
Proof.
  intros Hper. revert first number offset i j. induction us as [|w us IH]; intros first number offset i j Hu Hi Hj Hij; [done|].
  cbn [units_from] in Hu. destruct Hu as (Hlt & Hw & Hu). destruct j as [|j]; [lia|]. cbn in Hj.
  destruct i as [|i]; [|apply (IH _ _ _ i j Hu Hi Hj); lia]. injection Hi as <-.
  pose proof (units_start _ _ _ _ _ _ _ _ Hper Hu) as Hs. rewrite Forall_forall in Hs.
  destruct (Hs v (list_elem_of_lookup_2 _ _ _ Hj)) as (-> & Hf & _). rewrite Hw. unfold unit_plan. cbn.
  destruct (n =? 0); [lia|]. unfold CHUNK_SIZE. lia.
Qed.

(** The plaintext ranges of the units are consecutive. *)
Lemma units_plaintext (p : pybytes) pre per first number offset us : 0 < per → 0 ≤ first →
  units_from (len p) pre per (chunk_count (len p)) first number offset us →
  concat ((λ u, slice (au_plaintext_start u) (au_plaintext_end u) p) <$> us) =
  slice (first * CHUNK_SIZE) (len p) p.
Proof.
  intros Hper. pose proof (len_nonneg p) as Hn. pose proof (chunk_last (len p) Hn) as Hl. revert first number offset.
  induction us as [|u us IH]; intros first number offset Hf Hu; cbn [units_from] in Hu.
  - cbn. unfold CHUNK_SIZE in *. rewrite slice_none; [done|]. lia.
  - destruct Hu as (Hlt & Hw & Hu). rewrite fmap_cons. cbn [concat]. rewrite (IH (first + per) _ _ ltac:(lia) Hu), Hw.
    unfold unit_plan. cbn [au_plaintext_start au_plaintext_end].
    destruct (Z.eqb_spec (len p) 0) as [He|He]; [by rewrite (len_0_nil p He), !slice_nil|].
    destruct (Z.le_gt_cases (chunk_count (len p)) (first + per)) as [Hc|Hc].
    + rewrite (slice_none ((first + per) * CHUNK_SIZE)) by (unfold CHUNK_SIZE in *; lia).
      rewrite app_nil_r. f_equal. unfold CHUNK_SIZE in *. lia.
    + rewrite Z.min_l, Z.min_l by (unfold CHUNK_SIZE in *; lia). apply slice_app; unfold CHUNK_SIZE in *; lia.
Qed.

Section encrypted_units.
Context `{Aead}.
Context (s : ResumableAgeScryptSession) (p : pybytes) (Hp : len p ≤ 2 ^ 53).
Let count := chunk_count (len p).
Let key := ss_payload_key s.

(** What the callers pass as provider: the requested slice. *)
Definition slice_provider (_ start stop : Z) : result pybytes := Ok (slice start stop p).

Definition unit_bytes (u : AgeAlignedUnitPlan) : pybytes :=
  (if au_includes_age_prefix u then age_prefix s else []) ++
  payload_chunks key p (au_first_chunk u) (au_first_chunk u + au_chunk_count u).

Lemma count_bounds : 1 ≤ count ≤ 2 ^ 37.
Proof. apply chunk_count_bounds. pose proof (len_nonneg p). lia. Qed.

(** Chunks before the last are full, so lengths follow from the indices. *)
Lemma len_payload_chunks a b : 0 ≤ a < b → b ≤ count →
  len (payload_chunks key p a b) =
  Z.min (b * CHUNK_SIZE) (len p) - a * CHUNK_SIZE + (b - a) * AEAD_TAG_SIZE.
Proof.
  intros Ha Hb. pose proof (len_nonneg p) as Hn. remember (Z.to_nat (b - a - 1)) as k eqn:Hk.
  revert a Ha Hk. induction k as [|k IH]; intros a Ha Hk;
    rewrite payload_chunks_cons, len_app, len_payload_chunk by (unfold count in *; lia).
  - assert (b = a + 1) as -> by lia. unfold payload_chunks. rewrite rangeZ_empty.
    change (len (concat (_ <$> []))) with 0. unfold CHUNK_SIZE, AEAD_TAG_SIZE. lia.
  - rewrite IH by lia. pose proof (chunk_not_last (len p) a Hn) as Hf. fold count in Hf.
    unfold CHUNK_SIZE, AEAD_TAG_SIZE in *. lia.
Qed.

Lemma encrypt_part_chunks u : 0 ≤ au_first_chunk u → au_first_chunk u + au_chunk_count u ≤ count →
  len (unit_bytes u) = ciphertext_len u →
  encrypt_part s u slice_provider (len p) = Ok (unit_bytes u).
Proof.
  intros Hf Hc Hl. pose proof (len_nonneg p) as Hn. unfold encrypt_part.
  rewrite chunk_count_exact, ok_bind by lia. fold count.
  set (acc := if au_includes_age_prefix u then age_prefix s else []).
  set (range := rangeZ (au_first_chunk u) (au_first_chunk u + au_chunk_count u)).
  assert (foldM (part_step s slice_provider (len p) count) acc range = Ok (unit_bytes u)) as ->.
  2: { rewrite ok_bind, Hl, Z.eqb_refl. done. }
  assert (∀ idx, idx ∈ range → 0 ≤ idx < count) as Hin by (intros idx Hi; apply elem_of_seqZ in Hi; lia).
  unfold unit_bytes, payload_chunks. fold acc range. clearbody acc range. rewrite <- (foldM_extend (λ idx,
    encrypt_chunk s idx (slice (idx * CHUNK_SIZE) (Z.min (idx * CHUNK_SIZE + CHUNK_SIZE) (len p)) p)
      (idx =? count - 1)) (payload_chunk key p)).
  - revert acc Hin. induction range as [|idx l IH]; intros acc Hin; [done|]. cbn [foldM].
    assert (part_step s slice_provider (len p) count acc idx =
      (enc ← encrypt_chunk s idx (slice (idx * CHUNK_SIZE) (Z.min (idx * CHUNK_SIZE + CHUNK_SIZE) (len p)) p)
               (idx =? count - 1); Ok (acc ++ enc))) as ->.
    { unfold part_step, slice_provider. rewrite chunk_bounds_eq, ok_bind by (done || apply Hin; set_solver).
      rewrite len_chunk_slice by (apply Hin; set_solver). by rewrite Z.eqb_refl. }
    destruct (encrypt_chunk _ _ _ _); [|done]. cbn. apply IH. set_solver.
  - intros idx Hi. apply encrypt_chunk_ok; [done|]. by apply Hin.
Qed.

Definition planned (per first number offset : Z) : AgeAlignedUnitPlan :=
  unit_plan (len p) (len (age_prefix s)) per count first number offset.

Lemma planned_len per first number offset : 0 < per → 0 ≤ first < count →
  len (unit_bytes (planned per first number offset)) = ciphertext_len (planned per first number offset).
Proof.
  intros Hper Hf. unfold unit_bytes, ciphertext_len, planned.
  cbn [unit_plan au_includes_age_prefix au_first_chunk au_chunk_count au_ciphertext_start au_ciphertext_end].
  rewrite len_app, len_payload_chunks by lia. unfold count in *. unfold chunk_count in *.
  destruct (Z.eqb_spec (len p) 0) as [He|He], (Z.eqb_spec first 0); subst; rewrite ?He, ?len_nil;
    unfold CHUNK_SIZE, AEAD_TAG_SIZE in *; lia.
Qed.

Lemma units_concat per us first number offset : 0 < per → 0 ≤ first →
  units_from (len p) (len (age_prefix s)) per count first number offset us → us ≠ [] ∨ first ≠ 0 →
  concat (unit_bytes <$> us) = (if first =? 0 then age_prefix s else []) ++ payload_chunks key p first count.
Proof.
  intros Hper. revert first number offset. induction us as [|u us IH]; intros first number offset Hf Hu Hne;
    cbn [units_from] in Hu.
  - destruct Hne as [|Hne]; [done|]. rewrite (proj2 (Z.eqb_neq first 0)) by done.
    unfold payload_chunks, rangeZ. by rewrite seqZ_nil by lia.
  - destruct Hu as (Hlt & Hu & Hrest). rewrite fmap_cons. cbn [concat].
    rewrite (IH (first + per) _ _ ltac:(lia) Hrest ltac:(right; lia)), (proj2 (Z.eqb_neq (first + per) 0)) by lia.
    cbn [app]. unfold unit_bytes. rewrite Hu. cbn [unit_plan au_includes_age_prefix au_first_chunk au_chunk_count].
    rewrite <- app_assoc. f_equal. unfold payload_chunks.
    destruct (Z.leb_spec count (first + per)).
    + unfold rangeZ at 2. rewrite seqZ_nil by lia. cbn. rewrite app_nil_r. do 3 f_equal. lia.
    + rewrite Z.min_l by lia. rewrite <- concat_app, <- fmap_app. by rewrite <- rangeZ_app by lia.
Qed.

(** Every unit is the part of the file its plan names. *)
Lemma units_slices per us first number offset file : 0 < per → 0 ≤ first → 0 ≤ offset →
  units_from (len p) (len (age_prefix s)) per count first number offset us →
  slice offset (offset + len (concat (unit_bytes <$> us))) file = concat (unit_bytes <$> us) →
  Forall (λ u, encrypt_part s u slice_provider (len p) =
               Ok (slice (au_ciphertext_start u) (au_ciphertext_end u) file) ∧
               ciphertext_len u = len (unit_bytes u) ∧ unit_bytes u =
               slice (au_ciphertext_start u) (au_ciphertext_end u) file) us.
Proof.
  intros Hper. revert first number offset. induction us as [|u us IH]; intros first number offset Hf Ho Hu Hs;
    [constructor|].
  cbn [units_from] in Hu. destruct Hu as (Hlt & Hu & Hrest). rewrite fmap_cons in Hs. cbn [concat] in Hs.
  pose proof (planned_len per first number offset Hper ltac:(lia)) as Hl. unfold planned in Hl.
  rewrite <- Hu in Hl.
  assert (au_ciphertext_start u = offset) as Hstart by by rewrite Hu.
  assert (au_ciphertext_end u = offset + len (unit_bytes u)) as Hend.
  { unfold ciphertext_len in Hl. lia. }
  pose proof (len_nonneg (unit_bytes u)) as Hun. pose proof (len_nonneg (concat (unit_bytes <$> us))) as Hcn.
  rewrite len_app in Hs.
  assert (slice offset (offset + len (unit_bytes u)) file = unit_bytes u ∧
          slice (offset + len (unit_bytes u)) (offset + len (unit_bytes u) + len (concat (unit_bytes <$> us))) file
          = concat (unit_bytes <$> us)) as [Hme Hothers].
  { set (x := unit_bytes u) in *. set (y := concat (unit_bytes <$> us)) in *. clearbody x y.
    assert (slice 0 (len x) (slice offset (offset + (len x + len y)) file) =
            slice offset (offset + len x) file) as Hx by (rewrite slice_slice by lia; f_equal; lia).
    assert (slice (len x) (len x + len y) (slice offset (offset + (len x + len y)) file) =
            slice (offset + len x) (offset + len x + len y) file) as Hy
      by (rewrite slice_slice by lia; f_equal; lia).
    rewrite Hs in Hx, Hy. rewrite slice_app_l, slice_full in Hx by lia. rewrite slice_app_r in Hy by lia.
    rewrite Z.sub_diag in Hy. replace (len x + len y - len x) with (len y) in Hy by lia.
    rewrite slice_full in Hy. split; symmetry; assumption. }
  constructor.
  - rewrite Hstart, Hend, Hme. split_and!; [|done|done]. apply encrypt_part_chunks; [| |done]; rewrite Hu;
      cbn [unit_plan au_first_chunk au_chunk_count]; lia.
  - rewrite Hend in Hrest. apply (IH (first + per) _ (offset + len (unit_bytes u)) ltac:(lia) ltac:(lia) Hrest Hothers).
Qed.

Lemma units_numbers per us first number offset :
  units_from (len p) (len (age_prefix s)) per count first number offset us →
  au_unit_number <$> us = rangeZ number (number + len us).
Proof.
  revert first number offset. induction us as [|u us IH]; intros first number offset Hu;
    cbn [units_from] in Hu.
  - change (len []) with 0. by rewrite Z.add_0_r, rangeZ_empty.
  - destruct Hu as (_ & -> & Hrest). rewrite len_cons, rangeZ_cons by (pose proof (len_nonneg us); lia).
    rewrite fmap_cons, (IH _ _ _ Hrest). cbn [unit_plan au_unit_number]. f_equal. f_equal. lia.
Qed.
End encrypted_units.

Section unit_theorems.
Context `{Aead}.

Lemma units_spans (s : ResumableAgeScryptSession) (p : pybytes) per us first number offset : 0 < per → 0 ≤ first →
  units_from (len p) (len (age_prefix s)) per (chunk_count (len p)) first number offset us →
  Forall (λ u, 0 ≤ plaintext_len u ≤ per * CHUNK_SIZE) us.
Proof.
  intros Hper. revert first number offset. induction us as [|u us IH]; intros first number offset Hf Hu;
    [constructor|]. cbn [units_from] in Hu. destruct Hu as (Hlt & Hu & Hrest).
  constructor; [|by apply (IH (first + per) _ _ ltac:(lia) Hrest)]. rewrite Hu.
  pose proof (len_nonneg p) as Hn. pose proof (chunk_last (len p) Hn) as [_ Hl].
  pose proof (chunk_not_last (len p) first Hn) as Hnl.
  unfold plaintext_len, unit_plan. cbn [au_plaintext_start au_plaintext_end].
  destruct (Z.eqb_spec (len p) 0); [unfold CHUNK_SIZE; lia|].
  destruct (decide (first = chunk_count (len p) - 1)); unfold CHUNK_SIZE in *; lia.
Qed.

Lemma units_of_file (s : ResumableAgeScryptSession) (p : pybytes) per :
  len p ≤ 2 ^ 53 → 0 < per → 16 ≤ len (age_prefix s) →
  ∃ us file, age_aligned_unit_plans s (len p) per = Ok us ∧ encrypt_plaintext s p = Ok file ∧
    mapM_result (λ u, encrypt_part s u (slice_provider p) (len p)) us =
      Ok ((λ u, slice (au_ciphertext_start u) (au_ciphertext_end u) file) <$> us) ∧
    concat ((λ u, slice (au_ciphertext_start u) (au_ciphertext_end u) file) <$> us) = file ∧
    au_unit_number <$> us = rangeZ 1 (1 + len us) ∧
    Forall (λ u, 0 ≤ plaintext_len u ≤ per * CHUNK_SIZE) us.
Proof.
  intros Hp Hper Hpre. pose proof (len_nonneg p) as Hn. pose proof (count_bounds p Hp) as Hc.
  set (count := chunk_count (len p)) in *.
  set (us := unit_loop (Z.to_nat count) (len p) (len (age_prefix s)) per count 0 1 0).
  assert (units_from (len p) (len (age_prefix s)) per count 0 1 0 us) as Hu
    by (apply unit_loop_spec; lia).
  assert (us ≠ []) as Hne by (intros He; rewrite He in Hu; cbn in Hu; lia).
  pose proof (units_concat s p per us 0 1 0 Hper ltac:(lia) Hu (or_introl Hne)) as Hcat.
  set (file := age_prefix s ++ payload_chunks (ss_payload_key s) p 0 count).
  change (concat (unit_bytes s p <$> us) = file) in Hcat.
  pose proof (units_slices s p Hp per us 0 1 0 file Hper ltac:(lia) ltac:(lia) Hu) as Hparts.
  rewrite Hcat, Z.add_0_l, slice_full in Hparts. specialize (Hparts eq_refl).
  exists us, file. split_and!.
  - unfold age_aligned_unit_plans, make_age_aligned_unit_plans, PAYLOAD_NONCE_SIZE.
    rewrite (proj2 (Z.ltb_ge (len p) 0)), (proj2 (Z.ltb_ge _ 16)), (proj2 (Z.leb_gt per 0)) by lia.
    by rewrite chunk_count_exact, ok_bind by lia.
  - by apply encrypt_plaintext_spec.
  - apply mapM_result_Ok. intros u Hin. rewrite Forall_forall in Hparts. by apply Hparts.
  - rewrite <- Hcat. f_equal. apply list_fmap_ext. intros i u Hlook.
    rewrite Hcat. apply list_elem_of_lookup_2 in Hlook. rewrite Forall_forall in Hparts. symmetry. by apply Hparts.
  - by apply (units_numbers s p per us 0 1 0).
  - by apply (units_spans s p per us 0 1 0).
Qed.

(** C21. Units are the file: for any positive number of chunks per unit, the
    plans number the units from one and cut the ciphertext of a plaintext (of
    at most 2^53 bytes) into consecutive byte ranges; encrypting each unit on
    its own, from just its slice of the plaintext, gives exactly its range of
    the file that encrypting at once produces, and the ranges joined are that
    file. *)
Theorem units_encrypt_the_file (s : ResumableAgeScryptSession) (p : pybytes) per :
  len p ≤ 2 ^ 53 → 0 < per → 16 ≤ len (age_prefix s) →
  ∃ us file, age_aligned_unit_plans s (len p) per = Ok us ∧ encrypt_plaintext s p = Ok file ∧
    mapM_result (λ u, encrypt_part s u (slice_provider p) (len p)) us =
      Ok ((λ u, slice (au_ciphertext_start u) (au_ciphertext_end u) file) <$> us) ∧
    concat ((λ u, slice (au_ciphertext_start u) (au_ciphertext_end u) file) <$> us) = file ∧
    au_unit_number <$> us = rangeZ 1 (1 + len us) ∧
    Forall (λ u, 0 ≤ plaintext_len u ≤ per * CHUNK_SIZE) us.
Proof. apply units_of_file. Qed.
End unit_theorems.

Definition example_session : ResumableAgeScryptSession :=
  session_of example_key example_nonce (str "header").

Lemma units_encrypt_the_file_witness :
  ∃ us file, age_aligned_unit_plans example_session 5 2 = Ok us ∧
    @encrypt_plaintext tag_aead example_session (str "hello") = Ok file ∧
    mapM_result (λ u, @encrypt_part tag_aead example_session u (slice_provider (str "hello")) 5) us =
      Ok ((λ u, slice (au_ciphertext_start u) (au_ciphertext_end u) file) <$> us) ∧
    concat ((λ u, slice (au_ciphertext_start u) (au_ciphertext_end u) file) <$> us) = file ∧
    au_unit_number <$> us = rangeZ 1 (1 + len us) ∧
    Forall (λ u, 0 ≤ plaintext_len u ≤ 2 * CHUNK_SIZE) us.
Proof.
  apply (@units_encrypt_the_file tag_aead example_session (str "hello") 2).
  - vm_compute. discriminate.
  - reflexivity.
  - change (16 ≤ len (str "header" ++ example_nonce)). vm_compute. discriminate.
Defined.
