(* ===== verification/AgeRange.v ===== *)
(** * Exact plaintext ranges of age files

    [riverhog_core/age_range.py]: which stored bytes cover a plaintext range,
    and the generator that decrypts just those.  The reader's buffer (a
    [bytearray] with an offset, refilled from an iterator) is modelled as it
    is written; [unread] is what it stands for. *)

From S2P Require Import Prelude Text Json Sha256 Paths Domain RawVolume Crypto Base64 Age AgeUnits.

(** ** The reader's buffer *)

Record source_buffer := {
  sb_buffer : pybytes;
  sb_offset : Z;
  sb_source : list pybytes;
}.

Definition new_buffer (chunks : list pybytes) : source_buffer :=
  {| sb_buffer := []; sb_offset := 0; sb_source := chunks |}.

Definition buffered_bytes (b : source_buffer) : Z := len (sb_buffer b) - sb_offset b.

(** Drop what was read, then take the next chunk of the source. *)
Definition compact (buffer : pybytes) (offset : Z) : pybytes :=
  if offset =? 0 then buffer
  else if offset =? len buffer then [] else drop (Z.to_nat offset) buffer.

Definition append_source_chunk (ended : exn) (b : source_buffer) : result source_buffer :=
  match sb_source b with
  | [] => Err ended
  | incoming :: source =>
      Ok {| sb_buffer := compact (sb_buffer b) (sb_offset b) ++ incoming; sb_offset := 0; sb_source := source |}
  end.

(** [while buffered_bytes() < needed: append_source_chunk()]; every iteration
    takes a chunk of the source. *)
Fixpoint fill (fuel : nat) (ended : exn) (needed : Z) (b : source_buffer) : result source_buffer :=
  if buffered_bytes b <? needed then
    match fuel with
    | O => Err ended
    | S fuel => b ← append_source_chunk ended b; fill fuel ended needed b
    end
  else Ok b.

(** The bytes from the offset on, and the buffer cleared when it is used up. *)
Definition read_exact (ended : exn) (needed : Z) (b : source_buffer) : result (pybytes * source_buffer) :=
  b ← fill (length (sb_source b)) ended needed b;
  let stop := sb_offset b + needed in
  let data := slice (sb_offset b) stop (sb_buffer b) in
  if stop =? len (sb_buffer b)
  then Ok (data, {| sb_buffer := []; sb_offset := 0; sb_source := sb_source b |})
  else Ok (data, {| sb_buffer := sb_buffer b; sb_offset := stop; sb_source := sb_source b |}).

(** [if buffered_bytes(): raise], then the rest of the source. *)
Definition check_drained (trailing : exn) (b : source_buffer) : result unit :=
  if negb (buffered_bytes b =? 0) then Err trailing
  else if existsb (λ chunk, negb (bool_decide (chunk = []))) (sb_source b) then Err trailing
  else Ok tt.

(** ** Range plans *)

Record AgePlaintextRange := {
  pr_total_plaintext_bytes : Z;
  pr_plaintext_offset : Z;
  pr_plaintext_bytes : Z;
  pr_first_chunk : Z;
  pr_chunk_count : Z;
  pr_chunk_plaintext_start : Z;
  pr_chunk_plaintext_bytes : Z;
  pr_ciphertext_offset : Z;
  pr_ciphertext_bytes : Z;
  pr_trim_start : Z;
  pr_trim_end : Z;
}.

#[export] Instance age_range_eq_dec : EqDecision AgePlaintextRange.
Proof. solve_decision. Defined.

Definition last_chunk (r : AgePlaintextRange) : option Z :=
  if pr_chunk_count r =? 0 then None else Some (pr_first_chunk r + pr_chunk_count r - 1).
Definition plaintext_end (r : AgePlaintextRange) : Z := pr_plaintext_offset r + pr_plaintext_bytes r.
Definition ciphertext_end (r : AgePlaintextRange) : Z := pr_ciphertext_offset r + pr_ciphertext_bytes r.
Definition remote_overfetch_bytes (r : AgePlaintextRange) : Z :=
  Z.max 0 (pr_ciphertext_bytes r - pr_plaintext_bytes r).

Definition _chunk_plaintext_bytes (total_plaintext_bytes chunk_index : Z) : result Z :=
  when chunk_index <? 0 raise ValueError "age chunk index must be non-negative";
  total_chunks ← age_chunk_count_for_plaintext_len total_plaintext_bytes;
  when total_chunks <=? chunk_index raise ValueError "age chunk index exceeds the object";
  if total_plaintext_bytes =? 0 then Ok 0
  else let start := chunk_index * CHUNK_SIZE in Ok (Z.min CHUNK_SIZE (total_plaintext_bytes - start)).

Definition empty_range (total offset : Z) : AgePlaintextRange :=
  {| pr_total_plaintext_bytes := total; pr_plaintext_offset := offset; pr_plaintext_bytes := 0;
     pr_first_chunk := 0; pr_chunk_count := 0; pr_chunk_plaintext_start := offset;
     pr_chunk_plaintext_bytes := 0; pr_ciphertext_offset := 0; pr_ciphertext_bytes := 0;
     pr_trim_start := 0; pr_trim_end := 0 |}.

Definition plan_age_plaintext_range (age_state : age_state)
    (total_plaintext_bytes plaintext_offset plaintext_bytes : Z) : result AgePlaintextRange :=
  state ← _upload_state age_state;
  when total_plaintext_bytes <? 0 raise ValueError "age range total plaintext bytes must be non-negative";
  when negb (bool_decide (us_plaintext_size state = Some total_plaintext_bytes))
    raise ValueError "age range state plaintext size mismatch";
  when (plaintext_offset <? 0) || (plaintext_bytes <? 0)
    raise ValueError "age plaintext range must be non-negative";
  when total_plaintext_bytes <? plaintext_offset + plaintext_bytes
    raise ValueError "age plaintext range exceeds the object";
  if plaintext_bytes =? 0 then Ok (empty_range total_plaintext_bytes plaintext_offset)
  else
    let final_plaintext_byte := plaintext_offset + plaintext_bytes in
    let first_chunk := plaintext_offset / CHUNK_SIZE in
    let last_chunk := (final_plaintext_byte - 1) / CHUNK_SIZE in
    let chunk_plaintext_start := first_chunk * CHUNK_SIZE in
    let chunk_plaintext_end := Z.min ((last_chunk + 1) * CHUNK_SIZE) total_plaintext_bytes in
    let prefix_bytes := len (us_header state) + len (us_payload_nonce state) in
    let ciphertext_offset := prefix_bytes + first_chunk * (CHUNK_SIZE + AEAD_TAG_SIZE) in
    final_chunk_plaintext_bytes ← _chunk_plaintext_bytes total_plaintext_bytes last_chunk;
    let ciphertext_end := prefix_bytes + last_chunk * (CHUNK_SIZE + AEAD_TAG_SIZE)
                          + final_chunk_plaintext_bytes + AEAD_TAG_SIZE in
    Ok {| pr_total_plaintext_bytes := total_plaintext_bytes; pr_plaintext_offset := plaintext_offset;
          pr_plaintext_bytes := plaintext_bytes; pr_first_chunk := first_chunk;
          pr_chunk_count := last_chunk - first_chunk + 1;
          pr_chunk_plaintext_start := chunk_plaintext_start;
          pr_chunk_plaintext_bytes := chunk_plaintext_end - chunk_plaintext_start;
          pr_ciphertext_offset := ciphertext_offset;
          pr_ciphertext_bytes := ciphertext_end - ciphertext_offset;
          pr_trim_start := plaintext_offset - chunk_plaintext_start;
          pr_trim_end := chunk_plaintext_end - final_plaintext_byte |}.

(** ** Decrypting a range *)

Section range.
Context `{UnicodeData} `{Aead}.

Definition range_ended : exn := Exn ValueError (str "age ciphertext range ended before a complete chunk").
Definition range_trailing : exn := Exn ValueError (str "age ciphertext range contains trailing bytes").

(** What follows the loop. *)
Definition range_finish (plan : AgePlaintextRange) (b : source_buffer) (emitted : Z) : stream :=
  match check_drained range_trailing b with
  | Err e => stop e
  | Ok _ =>
      if negb (emitted =? pr_plaintext_bytes plan)
      then stop (Exn RuntimeError (str "age plaintext range emitted an unexpected byte count"))
      else ([], Ok tt)
  end.

(** The part of one decrypted chunk that was asked for. *)
Definition selected (plan : AgePlaintextRange) (chunk_index : Z) (plaintext : pybytes) : option pybytes :=
  let plaintext_start := chunk_index * CHUNK_SIZE in
  let emit_start := Z.max (pr_plaintext_offset plan - plaintext_start) 0 in
  let emit_end := Z.min (plaintext_end plan - plaintext_start) (len plaintext) in
  if emit_start <? emit_end then Some (slice emit_start emit_end plaintext) else None.

(** [for chunk_index in range(...)] *)
Fixpoint range_loop (s : ResumableAgeScryptSession) (plan : AgePlaintextRange) (total_chunks : Z)
    (indices : list Z) (b : source_buffer) (emitted : Z) : stream :=
  match indices with
  | [] => range_finish plan b emitted
  | chunk_index :: indices =>
      match (plaintext_size ← _chunk_plaintext_bytes (pr_total_plaintext_bytes plan) chunk_index;
             '(ciphertext, b) ← read_exact range_ended (plaintext_size + AEAD_TAG_SIZE) b;
             plaintext ← decrypt_chunk s chunk_index ciphertext (chunk_index =? total_chunks - 1);
             Ok (plaintext, b)) with
      | Err e => stop e
      | Ok (plaintext, b) =>
          match selected plan chunk_index plaintext with
          | Some data => yield data (range_loop s plan total_chunks indices b (emitted + len data))
          | None => range_loop s plan total_chunks indices b emitted
          end
      end
  end.

(** The session the caller gave, or one from the passphrase. *)
Definition range_session (state : UploadState) (pass : option passphrase)
    (session : option ResumableAgeScryptSession) : result ResumableAgeScryptSession :=
  match session with
  | None =>
      match pass with
      | None => Err (Exn ValueError (str "age range decryption requires a passphrase or session"))
      | Some pass => session_from_state pass (StateValue state) None
      end
  | Some s =>
      when negb (bool_decide (age_prefix s = us_header state ++ us_payload_nonce state))
        raise ValueError "age range session does not match the persisted state";
      Ok s
  end.

Definition iter_decrypt_age_plaintext_range (age_state : age_state) (plan : AgePlaintextRange)
    (ciphertext_chunks : list pybytes) (pass : option passphrase)
    (session : option ResumableAgeScryptSession) : stream :=
  match (state ← _upload_state age_state;
         expected ← plan_age_plaintext_range (StateValue state) (pr_total_plaintext_bytes plan)
                      (pr_plaintext_offset plan) (pr_plaintext_bytes plan);
         when negb (bool_decide (expected = plan)) raise ValueError "age plaintext range plan is inconsistent";
         Ok state) with
  | Err e => stop e
  | Ok state =>
      if pr_plaintext_bytes plan =? 0 then
        if existsb (λ chunk, negb (bool_decide (chunk = []))) ciphertext_chunks
        then stop (Exn ValueError (str "empty age range received ciphertext"))
        else ([], Ok tt)
      else
        match (s ← range_session state pass session;
               total_chunks ← age_chunk_count_for_plaintext_len (pr_total_plaintext_bytes plan);
               Ok (s, total_chunks)) with
        | Err e => stop e
        | Ok (s, total_chunks) =>
            range_loop s plan total_chunks
              (rangeZ (pr_first_chunk plan) (pr_first_chunk plan + pr_chunk_count plan))
              (new_buffer ciphertext_chunks) 0
        end
  end.
End range.

(** ** What the buffer stands for *)

(** The bytes not read yet. *)
Definition unread (b : source_buffer) : pybytes :=
  drop (Z.to_nat (sb_offset b)) (sb_buffer b) ++ concat (sb_source b).
Definition buffer_ok (b : source_buffer) : Prop := 0 ≤ sb_offset b ≤ len (sb_buffer b).

Lemma compact_drop buffer offset : 0 ≤ offset ≤ len buffer →
  compact buffer offset = drop (Z.to_nat offset) buffer.
Proof.
  intros Ho. unfold compact. destruct (Z.eqb_spec offset 0) as [->|]; [by rewrite drop_0|].
  destruct (Z.eqb_spec offset (len buffer)) as [->|]; [|done]. unfold len. by rewrite Nat2Z.id, drop_all.
Qed.

Lemma append_spec ended b b' : buffer_ok b → append_source_chunk ended b = Ok b' →
  unread b' = unread b ∧ buffer_ok b' ∧ (length (sb_source b) = S (length (sb_source b')))%nat.
Proof.
  intros Hb. unfold append_source_chunk. destruct b as [buffer offset [|c source]]; cbn; [done|]. intros [= <-].
  unfold unread, buffer_ok in *. cbn in *. rewrite compact_drop by done. rewrite drop_0, <- app_assoc.
  split_and!; [done|lia|apply len_nonneg|done].
Qed.

Lemma fill_spec fuel ended needed b : buffer_ok b → (length (sb_source b) ≤ fuel)%nat →
  match fill fuel ended needed b with
  | Ok b' => unread b' = unread b ∧ buffer_ok b' ∧ needed ≤ buffered_bytes b'
  | Err e => e = ended ∧ len (unread b) < needed
  end.
Proof.
  revert b. induction fuel as [|fuel IH]; intros b Hb Hf; cbn [fill];
    destruct (Z.ltb_spec (buffered_bytes b) needed) as [Hlt|Hge]; try done.
  - split; [done|]. destruct b as [buffer offset [|c source]]; cbn in Hf; [|lia].
    unfold unread, buffered_bytes, buffer_ok in *. cbn in *. rewrite app_nil_r, len_drop. lia.
  - destruct (append_source_chunk ended b) as [b'|e] eqn:Ha.
    + rewrite ok_bind. destruct (append_spec _ _ _ Hb Ha) as (Hu & Hb' & Hs).
      specialize (IH b' Hb' ltac:(lia)). by rewrite Hu in IH.
    + cbn [mbind result_bind]. unfold append_source_chunk in Ha. destruct b as [buffer offset [|c source]]; [|done].
      cbn in Ha. injection Ha as <-. split; [done|]. unfold unread, buffered_bytes, buffer_ok in *. cbn in *.
      rewrite app_nil_r, len_drop. lia.
Qed.

(** Reading takes the next bytes of what is unread, or fails because there
    are too few. *)
Lemma read_exact_spec ended needed b : buffer_ok b → 0 ≤ needed →
  match read_exact ended needed b with
  | Ok (data, b') => data = take (Z.to_nat needed) (unread b) ∧ len data = needed ∧
                     unread b' = drop (Z.to_nat needed) (unread b) ∧ buffer_ok b'
  | Err e => e = ended ∧ len (unread b) < needed
  end.
Proof.
  intros Hb Hn. unfold read_exact. pose proof (fill_spec (length (sb_source b)) ended needed b Hb (le_n _)) as Hf.
  destruct (fill _ _ _ _) as [b'|e]; [|done]. destruct Hf as (<- & Hb' & Hneed). rewrite ok_bind.
  destruct b' as [buffer offset source]. unfold buffered_bytes, buffer_ok, unread in *.
  cbn [sb_buffer sb_offset sb_source] in *.
  assert (slice offset (offset + needed) buffer =
          take (Z.to_nat needed) (drop (Z.to_nat offset) buffer ++ concat source)) as Hs.
  { rewrite take_app_le by (rewrite length_drop; unfold len in *; lia). unfold slice. f_equal. lia. }
  assert (len (slice offset (offset + needed) buffer) = needed) as Hl by (rewrite len_slice; lia).
  assert (drop (Z.to_nat needed) (drop (Z.to_nat offset) buffer ++ concat source) =
          drop (Z.to_nat (offset + needed)) buffer ++ concat source) as Hd.
  { rewrite drop_app_le by (rewrite length_drop; unfold len in *; lia). rewrite drop_drop. do 2 f_equal. lia. }
  destruct (Z.eqb_spec (offset + needed) (len buffer)) as [He|]; cbn [sb_buffer sb_offset sb_source];
    split_and!; try done; try lia; try (by rewrite Hd).
  rewrite Hd, He. unfold len. by rewrite Nat2Z.id, drop_all.
Qed.

Lemma nonempty_chunks (chunks : list pybytes) :
  existsb (λ chunk, negb (bool_decide (chunk = []))) chunks = negb (bool_decide (concat chunks = [])).
Proof.
  induction chunks as [|[|c chunk] chunks IH]; [done| |done]. cbn [existsb concat app]. rewrite IH. done.
Qed.

Lemma check_drained_spec trailing b : buffer_ok b →
  check_drained trailing b = if bool_decide (unread b = []) then Ok tt else Err trailing.
Proof.
  intros Hb. unfold check_drained. rewrite nonempty_chunks. unfold unread, buffered_bytes, buffer_ok in *.
  destruct (Z.eqb_spec (len (sb_buffer b) - sb_offset b) 0) as [He|Hne]; cbn [negb].
  - rewrite drop_ge by (unfold len in *; lia). cbn [app]. by destruct (bool_decide _).
  - rewrite bool_decide_false; [done|]. intros Hnil. apply app_eq_nil in Hnil as [Hnil _].
    apply (f_equal len) in Hnil. rewrite len_drop in Hnil. change (len []) with 0 in Hnil. lia.
Qed.

(** ** The planned range is the chunks that cover it *)

Lemma slice_beyond {A} a b (l : list A) : 0 ≤ b ≤ a → slice a b l = [].
Proof. intros. unfold slice. replace (Z.to_nat b - Z.to_nat a)%nat with 0%nat by lia. done. Qed.

(** The first and the last chunk of a range. *)
Definition range_first (offset : Z) : Z := offset / CHUNK_SIZE.
Definition range_final (offset size : Z) : Z := (offset + size - 1) / CHUNK_SIZE.

Section ranges.
Context `{UnicodeData} `{Aead}.
Context (s : ResumableAgeScryptSession) (p : pybytes) (Hp : len p ≤ 2 ^ 53).
Context (offset size : Z) (Hoff : 0 ≤ offset) (Hsize : 0 < size) (Hend : offset + size ≤ len p).
Notation count := (chunk_count (len p)).
Notation key := (ss_payload_key s).
Notation first := (range_first offset).
Notation final := (range_final offset size).

(** The state a session exports for this plaintext. *)
Definition state_of : UploadState :=
  {| us_header := ss_header s; us_payload_nonce := ss_payload_nonce s;
     us_plaintext_size := Some (len p); us_format := upload_state_format |}.

Lemma range_chunks : 0 ≤ first ≤ final ∧ final < count ∧
  first * CHUNK_SIZE ≤ offset < (first + 1) * CHUNK_SIZE ∧
  final * CHUNK_SIZE < offset + size ≤ (final + 1) * CHUNK_SIZE.
Proof.
  pose proof (chunk_last (len p) (len_nonneg p)) as [Hlast _].
  pose proof (Z.div_mod offset CHUNK_SIZE ltac:(done)) as Hd1. fold first in Hd1.
  pose proof (Z.mod_pos_bound offset CHUNK_SIZE ltac:(done)) as Hm1.
  pose proof (Z.div_mod (offset + size - 1) CHUNK_SIZE ltac:(done)) as Hd2. fold final in Hd2.
  pose proof (Z.mod_pos_bound (offset + size - 1) CHUNK_SIZE ltac:(done)) as Hm2.
  generalize dependent first. generalize dependent final. generalize dependent count. unfold CHUNK_SIZE in *.
  generalize dependent (offset mod 65536). generalize dependent ((offset + size - 1) mod 65536).
  intros. clear Hp. lia.
Qed.

Lemma chunk_plaintext_bytes_ok i : 0 ≤ i < count →
  _chunk_plaintext_bytes (len p) i = Ok (Z.min CHUNK_SIZE (len p - i * CHUNK_SIZE)).
Proof.
  intros Hi. pose proof (len_nonneg p) as Hn. unfold _chunk_plaintext_bytes.
  rewrite (proj2 (Z.ltb_ge i 0)), chunk_count_exact, ok_bind by lia.
  rewrite (proj2 (Z.leb_gt count i)) by lia. destruct (Z.eqb_spec (len p) 0); [lia|done].
Qed.

Definition the_range : AgePlaintextRange :=
  let prefix := len (ss_header s) + len (ss_payload_nonce s) in
  let stop := Z.min ((final + 1) * CHUNK_SIZE) (len p) in
  {| pr_total_plaintext_bytes := len p; pr_plaintext_offset := offset; pr_plaintext_bytes := size;
     pr_first_chunk := first; pr_chunk_count := final - first + 1;
     pr_chunk_plaintext_start := first * CHUNK_SIZE;
     pr_chunk_plaintext_bytes := stop - first * CHUNK_SIZE;
     pr_ciphertext_offset := prefix + first * (CHUNK_SIZE + AEAD_TAG_SIZE);
     pr_ciphertext_bytes := prefix + final * (CHUNK_SIZE + AEAD_TAG_SIZE)
       + Z.min CHUNK_SIZE (len p - final * CHUNK_SIZE) + AEAD_TAG_SIZE
       - (prefix + first * (CHUNK_SIZE + AEAD_TAG_SIZE));
     pr_trim_start := offset - first * CHUNK_SIZE;
     pr_trim_end := stop - (offset + size) |}.

Lemma plan_is_the_range : plan_age_plaintext_range (StateValue state_of) (len p) offset size = Ok the_range.
Proof.
  pose proof range_chunks as (Hf & Hl & _). unfold plan_age_plaintext_range. cbn [_upload_state]. rewrite ok_bind.
  rewrite (proj2 (Z.ltb_ge (len p) 0)), bool_decide_true by (done || lia). cbn [negb].
  rewrite (proj2 (Z.ltb_ge offset 0)), (proj2 (Z.ltb_ge size 0)), (proj2 (Z.ltb_ge (len p) _)) by lia.
  rewrite (proj2 (Z.eqb_neq size 0)) by lia. cbn [orb]. fold final first.
  rewrite chunk_plaintext_bytes_ok by lia. by rewrite ok_bind.
Qed.

Definition file_of : pybytes := age_prefix s ++ payload_chunks key p 0 count.

Lemma payload_chunks_app a b c : a ≤ b → b ≤ c →
  payload_chunks key p a c = payload_chunks key p a b ++ payload_chunks key p b c.
Proof.
  intros Hab Hbc. unfold payload_chunks. rewrite (rangeZ_app a b c) by lia.
  by rewrite fmap_app, concat_app.
Qed.

Lemma range_ciphertext :
  slice (pr_ciphertext_offset the_range) (ciphertext_end the_range) file_of =
  payload_chunks key p first (final + 1).
Proof.
  pose proof range_chunks as (Hf & Hl & Hof & Hen). unfold ciphertext_end, the_range, file_of.
  cbn [pr_ciphertext_offset pr_ciphertext_bytes].
  set (prefix := len (ss_header s) + len (ss_payload_nonce s)).
  assert (len (age_prefix s) = prefix) as Hpre by (unfold age_prefix; by rewrite len_app).
  pose proof (len_nonneg (ss_header s)). pose proof (len_nonneg (ss_payload_nonce s)).
  assert (0 ≤ prefix) by lia.
  assert (len (payload_chunks key p 0 first) = first * (CHUNK_SIZE + AEAD_TAG_SIZE)) as Hskip.
  { destruct (decide (first = 0)) as [->|]; [unfold payload_chunks; by rewrite rangeZ_empty|].
    rewrite (len_payload_chunks s p) by lia.
    unfold CHUNK_SIZE, AEAD_TAG_SIZE in *. lia. }
  assert (len (payload_chunks key p first (final + 1)) =
    final * (CHUNK_SIZE + AEAD_TAG_SIZE) + Z.min CHUNK_SIZE (len p - final * CHUNK_SIZE) + AEAD_TAG_SIZE
    - first * (CHUNK_SIZE + AEAD_TAG_SIZE)) as Hmid.
  { rewrite (len_payload_chunks s p) by lia.
    unfold CHUNK_SIZE, AEAD_TAG_SIZE in *. lia. }
  rewrite slice_app_r by (rewrite Hpre; unfold CHUNK_SIZE, AEAD_TAG_SIZE in *; lia). rewrite Hpre.
  rewrite (payload_chunks_app 0 first count) by lia.
  rewrite slice_app_r by (rewrite Hskip; lia). rewrite Hskip.
  rewrite (payload_chunks_app first (final + 1) count) by lia.
  replace (prefix + first * (CHUNK_SIZE + AEAD_TAG_SIZE) - prefix - first * (CHUNK_SIZE + AEAD_TAG_SIZE))
    with 0 by lia.
  match goal with |- slice 0 ?e _ = _ => replace e with (len (payload_chunks key p first (final + 1))) by lia end.
  rewrite slice_app_l by lia. apply slice_full.
Qed.

(** ** The loop *)

Lemma decrypt_payload_chunk i : 0 ≤ i < count →
  decrypt_chunk s i (payload_chunk key p i) (i =? count - 1) =
  Ok (slice (i * CHUNK_SIZE) (Z.min (i * CHUNK_SIZE + CHUNK_SIZE) (len p)) p).
Proof.
  intros Hi. pose proof (len_nonneg p) as Hn. pose proof (count_bounds p Hp) as Hc. 
  pose proof (len_payload_chunk key p i Hi) as Hl. pose proof (len_chunk_slice p i Hi) as Hs.
  pose proof (len_nonneg (slice (i * CHUNK_SIZE) (Z.min (i * CHUNK_SIZE + CHUNK_SIZE) (len p)) p)) as Hs0.
  unfold decrypt_chunk. rewrite (proj2 (Z.ltb_ge i 0)) by lia.
  rewrite (proj2 (Z.ltb_ge _ AEAD_TAG_SIZE)), (proj2 (Z.ltb_ge (CHUNK_SIZE + AEAD_TAG_SIZE) _)) by lia.
  cbn [orb]. rewrite chunk_nonce_ok, ok_bind by lia. unfold payload_chunk. rewrite aead_decrypt_encrypt.
  destruct (Z.eqb_spec i (count - 1)); cbn [negb andb]; [done|].
  rewrite Hs. pose proof (chunk_not_last (len p) i Hn) as Hf.
  rewrite (proj2 (Z.eqb_eq _ CHUNK_SIZE)) by lia. done.
Qed.

Lemma selected_chunk i : first ≤ i ≤ final →
  selected the_range i (slice (i * CHUNK_SIZE) (Z.min (i * CHUNK_SIZE + CHUNK_SIZE) (len p)) p) =
  Some (slice (Z.max offset (i * CHUNK_SIZE)) (Z.min (offset + size) ((i + 1) * CHUNK_SIZE)) p).
Proof.
  intros Hi. pose proof range_chunks as (Hf & Hl & Hof & Hen). unfold selected.
  rewrite len_chunk_slice by lia. unfold plaintext_end. cbn [the_range pr_plaintext_offset pr_plaintext_bytes].
  rewrite (proj2 (Z.ltb_lt _ _)) by (unfold CHUNK_SIZE in *; lia). f_equal.
  rewrite slice_slice by (unfold CHUNK_SIZE in *; lia). f_equal; unfold CHUNK_SIZE in *; lia.
Qed.

Lemma range_loop_exact i b : first ≤ i ≤ final + 1 → buffer_ok b →
  unread b = payload_chunks key p i (final + 1) →
  ∃ out, range_loop s the_range count (rangeZ i (final + 1)) b
           (Z.max 0 (Z.min (i * CHUNK_SIZE) (offset + size) - offset)) = (out, Ok tt) ∧
    concat out = slice (Z.max offset (i * CHUNK_SIZE)) (offset + size) p.
Proof.
  pose proof range_chunks as (Hf & Hl & Hof & Hen). remember (Z.to_nat (final + 1 - i)) as k eqn:Hk.
  revert i b Hk. induction k as [|k IH]; intros i b Hk Hi Hb Hu.
  - assert (i = final + 1) as -> by lia. unfold payload_chunks in Hu. rewrite rangeZ_empty in Hu |- *. cbn in Hu.
    exists []. cbn [range_loop]. unfold range_finish. rewrite check_drained_spec, bool_decide_true by done.
    cbn [the_range pr_plaintext_bytes].
    rewrite (proj2 (Z.eqb_eq _ size)) by lia. split; [done|].
    rewrite slice_beyond by lia. done.
  - rewrite rangeZ_cons by lia. cbn [range_loop]. cbn [the_range pr_total_plaintext_bytes]. fold the_range.
    rewrite chunk_plaintext_bytes_ok, ok_bind by lia.
    pose proof (len_payload_chunk key p i ltac:(lia)) as Hlen.
    assert (Z.min CHUNK_SIZE (len p - i * CHUNK_SIZE) + AEAD_TAG_SIZE = len (payload_chunk key p i)) as -> by lia.
    pose proof (read_exact_spec range_ended (len (payload_chunk key p i)) b Hb (len_nonneg _)) as Hr.
    rewrite Hu, payload_chunks_cons in Hr by lia.
    destruct (read_exact _ _ _) as [[ct b']|e].
    2: { destruct Hr as [_ Hr]. rewrite len_app in Hr.
         pose proof (len_nonneg (payload_chunks key p (i + 1) (final + 1))). lia. }
    replace (Z.to_nat (len (payload_chunk key p i))) with (length (payload_chunk key p i)) in Hr
      by (unfold len; lia). rewrite take_app_length, drop_app_length in Hr.
    destruct Hr as (-> & _ & Hu' & Hb'). rewrite ok_bind, decrypt_payload_chunk, ok_bind by lia.
    rewrite selected_chunk by lia.
    destruct (IH (i + 1) b' ltac:(lia) ltac:(lia) Hb' Hu') as (out & Hloop & Hout).
    rewrite len_slice by (unfold CHUNK_SIZE in *; lia).
    match goal with |- context [range_loop _ _ _ _ b' ?e] =>
      replace e with (Z.max 0 (Z.min ((i + 1) * CHUNK_SIZE) (offset + size) - offset))
        by (unfold CHUNK_SIZE in *; lia) end.
    rewrite Hloop. eexists. split; [done|]. unfold yield. cbn [fst snd concat]. rewrite Hout.
    destruct (decide (i = final)) as [->|].
    + rewrite Z.min_l by (unfold CHUNK_SIZE in *; lia).
      rewrite (slice_beyond (Z.max offset ((final + 1) * CHUNK_SIZE))) by (unfold CHUNK_SIZE in *; lia).
      apply app_nil_r.
    + rewrite Z.min_r by (unfold CHUNK_SIZE in *; lia).
      rewrite (Z.max_r offset ((i + 1) * CHUNK_SIZE)) by (unfold CHUNK_SIZE in *; lia).
      apply slice_app; unfold CHUNK_SIZE in *; lia.
Qed.

(** A loop that ends well has read exactly the bytes of its chunks. *)
Lemma range_loop_reads i b emitted out : first ≤ i ≤ final + 1 → buffer_ok b →
  range_loop s the_range count (rangeZ i (final + 1)) b emitted = (out, Ok tt) →
  len (unread b) = len (payload_chunks key p i (final + 1)).
Proof.
  pose proof range_chunks as (Hf & Hl & _). remember (Z.to_nat (final + 1 - i)) as k eqn:Hk.
  revert i b emitted out Hk. induction k as [|k IH]; intros i b emitted out Hk Hi Hb Hloop.
  - assert (i = final + 1) as -> by lia. unfold payload_chunks. rewrite rangeZ_empty in Hloop |- *.
    cbn [range_loop] in Hloop. unfold range_finish in Hloop. rewrite check_drained_spec in Hloop by done.
    destruct (bool_decide_reflect (unread b = [])) as [->|]; [done|]. by injection Hloop.
  - rewrite rangeZ_cons in Hloop by lia. cbn [range_loop] in Hloop.
    rewrite payload_chunks_cons, len_app, len_payload_chunk by lia.
    change (pr_total_plaintext_bytes the_range) with (len p) in Hloop.
    rewrite chunk_plaintext_bytes_ok, ok_bind in Hloop by lia.
    set (needed := Z.min CHUNK_SIZE (len p - i * CHUNK_SIZE) + AEAD_TAG_SIZE) in *.
    pose proof (len_payload_chunk key p i ltac:(lia)) as Hlen.
    pose proof (len_nonneg (payload_chunk key p i)) as Hlen0.
    assert (needed = len (payload_chunk key p i)) as Hneeded by (unfold needed; lia).
    pose proof (read_exact_spec range_ended needed b Hb ltac:(lia)) as Hr.
    destruct (read_exact _ _ _) as [[ct b']|e]; [|by injection Hloop]. rewrite ok_bind in Hloop.
    destruct Hr as (Hct & Hctl & Hu' & Hb').
    destruct (decrypt_chunk _ _ _ _) as [pt|e]; [|by injection Hloop]. rewrite ok_bind in Hloop.
    assert (len (unread b) = needed + len (unread b')) as ->.
    { rewrite Hu', len_drop. rewrite Hct, len_take in Hctl. lia. }
    assert (∃ em o, range_loop s the_range count (rangeZ (i + 1) (final + 1)) b' em = (o, Ok tt)) as (em & o & Hrest).
    { destruct (selected _ _ _) as [data|]; [|by eauto].
      exists (emitted + len data). destruct (range_loop _ _ _ _ b' _) as [o r].
      unfold yield in Hloop. cbn [fst snd] in Hloop. injection Hloop as _ ->. by exists o. }
    rewrite (IH (i + 1) b' em o ltac:(lia) ltac:(lia) Hb' Hrest). lia.
Qed.
End ranges.

Section range_theorems.
Context `{UnicodeData} `{Aead}.

Lemma new_buffer_spec chunks : buffer_ok (new_buffer chunks) ∧ unread (new_buffer chunks) = concat chunks.
Proof. done. Qed.

(** The generator on the plan of a non-empty range is its loop. *)
Lemma range_iter (s : ResumableAgeScryptSession) (p : pybytes) offset size chunks :
  len p ≤ 2 ^ 53 → 0 ≤ offset → 0 < size → offset + size ≤ len p →
  iter_decrypt_age_plaintext_range (StateValue (state_of s p)) (the_range s p offset size) chunks None (Some s) =
  range_loop s (the_range s p offset size) (chunk_count (len p))
    (rangeZ (range_first offset) (range_final offset size + 1)) (new_buffer chunks) 0.
Proof.
  intros Hp Ho Hs He. pose proof (len_nonneg p) as Hn. unfold iter_decrypt_age_plaintext_range.
  cbn [_upload_state]. rewrite ok_bind.
  change (pr_total_plaintext_bytes (the_range s p offset size)) with (len p).
  change (pr_plaintext_offset (the_range s p offset size)) with offset.
  change (pr_plaintext_bytes (the_range s p offset size)) with size.
  rewrite plan_is_the_range, ok_bind, bool_decide_true by (done || lia). cbn [negb].
  rewrite (proj2 (Z.eqb_neq size 0)) by lia. unfold range_session.
  rewrite bool_decide_true by done. cbn [negb]. rewrite ok_bind, chunk_count_exact, ok_bind by lia.
  f_equal. cbn [the_range pr_first_chunk pr_chunk_count]. f_equal. lia.
Qed.

Lemma exact_range (s : ResumableAgeScryptSession) (p : pybytes) offset size file chunks :
  len p ≤ 2 ^ 53 → 0 ≤ offset → 0 ≤ size → offset + size ≤ len p →
  encrypt_plaintext s p = Ok file →
  ∃ state plan, Age.export_state s (Some (len p)) = Ok state ∧
    plan_age_plaintext_range (StateValue state) (len p) offset size = Ok plan ∧
    (concat chunks = slice (pr_ciphertext_offset plan) (ciphertext_end plan) file →
     ∃ out, iter_decrypt_age_plaintext_range (StateValue state) plan chunks None (Some s) = (out, Ok tt) ∧
       concat out = slice offset (offset + size) p) ∧
    (len (concat chunks) ≠ pr_ciphertext_bytes plan →
     ∃ out e, iter_decrypt_age_plaintext_range (StateValue state) plan chunks None (Some s) = (out, Err e)).
Proof.
  intros Hp Ho Hs He Henc. pose proof (len_nonneg p) as Hn.
  rewrite encrypt_plaintext_spec in Henc by done. injection Henc as <-.
  exists (state_of s p). destruct (decide (size = 0)) as [->|Hpos].
  - exists (empty_range (len p) offset).
    assert (plan_age_plaintext_range (StateValue (state_of s p)) (len p) offset 0 = Ok (empty_range (len p) offset))
      as Hplan.
    { unfold plan_age_plaintext_range. cbn [_upload_state]. rewrite ok_bind.
      rewrite (proj2 (Z.ltb_ge (len p) 0)), bool_decide_true by (done || lia).
      rewrite (proj2 (Z.ltb_ge offset 0)), (proj2 (Z.ltb_ge (len p) _)) by lia. done. }
    assert (∀ r, iter_decrypt_age_plaintext_range (StateValue (state_of s p)) (empty_range (len p) offset) chunks None r =
      if bool_decide (concat chunks = []) then ([], Ok tt)
      else stop (Exn ValueError (str "empty age range received ciphertext"))) as Hiter.
    { intros r. unfold iter_decrypt_age_plaintext_range. cbn [_upload_state]. rewrite ok_bind.
      cbn [empty_range pr_total_plaintext_bytes pr_plaintext_offset pr_plaintext_bytes]. fold (empty_range (len p) offset).
      rewrite Hplan, ok_bind, bool_decide_true by done. cbn [negb]. rewrite nonempty_chunks.
      by destruct (bool_decide _). }
    split_and!; [by unfold Age.export_state; rewrite (proj2 (Z.ltb_ge _ 0)) by lia|done| |].
    + intros Hc. cbn in Hc. rewrite Hiter, bool_decide_true by done. exists []. split; [done|].
      by rewrite Z.add_0_r, slice_empty.
    + intros Hc. rewrite Hiter, bool_decide_false; [by eexists _, _|].
      intros Hnil. rewrite Hnil in Hc. by apply Hc.
  - exists (the_range s p offset size). rewrite plan_is_the_range by lia.
    pose proof (range_chunks p offset size Ho ltac:(lia) He) as (Hf & Hl & Hof & Hen).
    split_and!; [by unfold Age.export_state; rewrite (proj2 (Z.ltb_ge _ 0)) by lia|done| |];
      intros Hc; rewrite range_iter by lia.
    + pose proof (range_ciphertext s p offset size Ho ltac:(lia) He) as Hslice. unfold file_of in Hslice.
      rewrite Hslice in Hc.
      destruct (range_loop_exact s p Hp offset size Ho ltac:(lia) He (range_first offset) (new_buffer chunks)
        ltac:(lia) (proj1 (new_buffer_spec chunks)) Hc) as (out & Hloop & Hout).
      exists out. replace 0 with (Z.max 0 (Z.min (range_first offset * CHUNK_SIZE) (offset + size) - offset)) by lia.
      rewrite Hloop. rewrite Z.max_l in Hout by lia. by rewrite Hout.
    + destruct (range_loop _ _ _ _ _ _) as [out [[]|e]] eqn:Hloop; [|by eexists _, _].
      exfalso. apply Hc. apply (range_loop_reads s p Hp offset size Ho ltac:(lia) He) in Hloop; [|lia|done].
      rewrite (proj2 (new_buffer_spec chunks)) in Hloop. rewrite Hloop, len_payload_chunks by lia.
      cbn [the_range pr_ciphertext_bytes]. unfold CHUNK_SIZE, AEAD_TAG_SIZE in *. lia.
Qed.

(** C20. Range reads are exact: for every range inside a plaintext (of at most
    2^53 bytes), the planned stored bytes, however the transport cuts them into
    chunks, decrypt to exactly the requested plaintext bytes; and a transport
    that delivers fewer or more bytes than planned never ends in success. *)
Theorem range_decrypts_exactly (s : ResumableAgeScryptSession) (p : pybytes) offset size file chunks :
  len p ≤ 2 ^ 53 → 0 ≤ offset → 0 ≤ size → offset + size ≤ len p →
  encrypt_plaintext s p = Ok file →
  ∃ state plan, Age.export_state s (Some (len p)) = Ok state ∧
    plan_age_plaintext_range (StateValue state) (len p) offset size = Ok plan ∧
    (concat chunks = slice (pr_ciphertext_offset plan) (ciphertext_end plan) file →
     ∃ out, iter_decrypt_age_plaintext_range (StateValue state) plan chunks None (Some s) = (out, Ok tt) ∧
       concat out = slice offset (offset + size) p) ∧
    (len (concat chunks) ≠ pr_ciphertext_bytes plan →
     ∃ out e, iter_decrypt_age_plaintext_range (StateValue state) plan chunks None (Some s) = (out, Err e)).
Proof. apply exact_range. Qed.
End range_theorems.

(** Five bytes read back from the middle of a stored file. *)
Lemma range_decrypts_exactly_witness :
  ∃ file, @encrypt_plaintext tag_aead example_session (str "hello world") = Ok file ∧
  ∃ state plan, Age.export_state example_session (Some 11) = Ok state ∧
    plan_age_plaintext_range (StateValue state) 11 3 5 = Ok plan ∧
    pr_ciphertext_offset plan = 22 ∧ ciphertext_end plan = 49 ∧
    ∃ out, @iter_decrypt_age_plaintext_range ascii_data tag_aead (StateValue state) plan
             [[]; slice 22 49 file] None (Some example_session) = (out, Ok tt) ∧
      concat out = slice 3 8 (str "hello world").
Proof.
  eexists. assert (Henc := @encrypt_plaintext_spec tag_aead example_session (str "hello world")
    ltac:(vm_compute; discriminate)). split; [exact Henc|].
  set (file := age_prefix _ ++ _) in *. clearbody file.
  destruct (@range_decrypts_exactly ascii_data tag_aead example_session (str "hello world") 3 5 file
    [[]; slice 22 49 file] ltac:(vm_compute; discriminate) ltac:(lia) ltac:(lia) ltac:(vm_compute; discriminate) Henc)
    as (state & plan & Hst & Hplan & Hgood & _).
  exists state, plan. split; [exact Hst|]. split; [exact Hplan|].
  vm_compute in Hst. injection Hst as <-. vm_compute in Hplan. injection Hplan as <-.
  split; [reflexivity|]. split; [reflexivity|]. apply Hgood. apply app_nil_r.
Defined.
