(* ===== verification/StreamingAge.v ===== *)
(** * Streaming preparation of age parts

    [riverhog_core/streaming_age.py] without the session cache (that is
    [SessionCache]): [prepare_age_part] encrypts one unit from a stream of
    plaintext, [iter_rechunk] cuts a stream into equal pieces.  The two timing
    fields of [PreparedAgePart] come from a clock and are left out; a
    [hashlib] object is the bytes it was given. *)

From S2P Require Import Prelude Text Json Sha256 Paths Domain RawVolume Crypto Base64 Age AgeUnits AgeRange.

Record PreparedAgePart := {
  pp_unit_number : Z;
  pp_plaintext_bytes : Z;
  pp_plaintext_sha256 : pystr;
  pp_ciphertext : pybytes;
  pp_stored_sha256 : pystr;
}.

Definition stored_bytes (part : PreparedAgePart) : Z := len (pp_ciphertext part).

Definition hexdigest (hashed : pybytes) : pystr := bytes_hex (sha256 hashed).

(** The variables of the loop. *)
Record preparing := {
  pg_buffer : source_buffer;
  pg_ciphertext : pybytes;
  pg_plaintext_hasher : pybytes;
  pg_stored_hasher : pybytes;
  pg_consumed : Z;
}.

Definition part_ended : exn := Exn ValueError (str "plaintext stream ended before the age part was complete").
Definition part_trailing : exn := Exn ValueError (str "plaintext stream is longer than the planned age part").

Section prepare.
Context `{Aead}.

Definition prepare_step (session : ResumableAgeScryptSession) (total_plaintext_bytes : Z)
    (st : preparing) (chunk_index : Z) : result preparing :=
  let '(absolute_start, absolute_end) := chunk_bounds total_plaintext_bytes chunk_index in
  let needed := absolute_end - absolute_start in
  '(plaintext, buffer) ← read_exact part_ended needed (pg_buffer st);
  encrypted ← encrypt_chunk session chunk_index plaintext (absolute_end =? total_plaintext_bytes);
  Ok {| pg_buffer := buffer;
        pg_ciphertext := pg_ciphertext st ++ encrypted;
        pg_plaintext_hasher := pg_plaintext_hasher st ++ plaintext;
        pg_stored_hasher := pg_stored_hasher st ++ encrypted;
        pg_consumed := pg_consumed st + len plaintext |}.

Definition prepare_age_part (session : ResumableAgeScryptSession) (plan : AgeAlignedUnitPlan)
    (total_plaintext_bytes : Z) (plaintext_chunks : list pybytes) : result PreparedAgePart :=
  when total_plaintext_bytes <? 0 raise ValueError "total plaintext bytes must be non-negative";
  let expected_plaintext_bytes := plaintext_len plan in
  let prefix := if au_includes_age_prefix plan then age_prefix session else [] in
  st ← foldM (prepare_step session total_plaintext_bytes)
         {| pg_buffer := new_buffer plaintext_chunks; pg_ciphertext := prefix; pg_plaintext_hasher := [];
            pg_stored_hasher := prefix; pg_consumed := 0 |}
         (rangeZ (au_first_chunk plan) (au_first_chunk plan + au_chunk_count plan));
  _ ← check_drained part_trailing (pg_buffer st);
  when negb (pg_consumed st =? expected_plaintext_bytes)
    raise RuntimeError "prepared age part plaintext byte count mismatch";
  when negb (len (pg_ciphertext st) =? ciphertext_len plan)
    raise RuntimeError "prepared age part ciphertext byte count mismatch";
  Ok {| pp_unit_number := au_unit_number plan; pp_plaintext_bytes := pg_consumed st;
        pp_plaintext_sha256 := hexdigest (pg_plaintext_hasher st); pp_ciphertext := pg_ciphertext st;
        pp_stored_sha256 := hexdigest (pg_stored_hasher st) |}.
End prepare.

(** ** [iter_rechunk] *)

(** [while len(data) - cursor >= chunk_bytes]; the state is the data from
    [cursor] on.  Returns what is yielded and what is left. *)
Fixpoint full_pieces (fuel : nat) (chunk_bytes : Z) (data : pybytes) : list pybytes * pybytes :=
  match fuel with
  | O => ([], data)
  | S fuel =>
      if chunk_bytes <=? len data then
        let '(out, rest) := full_pieces fuel chunk_bytes (drop (Z.to_nat chunk_bytes) data) in
        (take (Z.to_nat chunk_bytes) data :: out, rest)
      else ([], data)
  end.

(** One incoming chunk: what is yielded and what is pending after it. *)
Definition rechunk_step (chunk_bytes : Z) (pending chunk : pybytes) : list pybytes * pybytes :=
  let '(first, pending, data) :=
    if bool_decide (pending = []) then ([], pending, chunk)
    else
      let n := Z.to_nat (Z.min (chunk_bytes - len pending) (len chunk)) in
      let pending := pending ++ take n chunk in
      if len pending =? chunk_bytes then ([pending], [], drop n chunk) else ([], pending, drop n chunk) in
  let '(out, rest) := full_pieces (length data) chunk_bytes data in
  (first ++ out, pending ++ rest).

Fixpoint rechunk_loop (chunk_bytes : Z) (pending : pybytes) (chunks : list pybytes) : list pybytes :=
  match chunks with
  | [] => if bool_decide (pending = []) then [] else [pending]
  | chunk :: chunks =>
      let '(out, pending) := rechunk_step chunk_bytes pending chunk in
      out ++ rechunk_loop chunk_bytes pending chunks
  end.

Definition iter_rechunk (chunks : list pybytes) (chunk_bytes : Z) : result (list pybytes) :=
  when chunk_bytes <? 64 * 1024 raise ValueError "source read chunk must be at least 64 KiB";
  Ok (rechunk_loop chunk_bytes [] chunks).

(** The reference: cut the whole stream every [n] bytes. *)
Definition cut (n : Z) (data : pybytes) : list pybytes := chunks_of (length data) (Z.to_nat n) data.

Lemma cut_fuel f f' n (data : pybytes) : (0 < n)%nat → (length data ≤ f)%nat → (length data ≤ f')%nat →
  chunks_of f n data = chunks_of f' n data.
Proof.
  intros Hn. revert f' data. induction f as [|f IH]; intros [|f'] [|c data] Hf Hf'; cbn [length] in *; try done; try lia.
  cbn [chunks_of]. f_equal. apply IH; destruct n; cbn [drop]; rewrite ?length_drop; lia.
Qed.

Lemma cut_cons n data : 0 < n → data ≠ [] →
  cut n data = take (Z.to_nat n) data :: cut n (drop (Z.to_nat n) data).
Proof.
  intros Hn Hne. unfold cut. destruct data as [|c data]; [done|]. set (d := c :: data).
  change (length d) with (S (length data)) at 1. cbn [chunks_of d]. fold d. f_equal.
  apply cut_fuel; [lia| |done]. unfold d. rewrite length_drop. cbn [length]. lia.
Qed.

Lemma cut_short n data : 0 < n → len data ≤ n → data ≠ [] → cut n data = [data].
Proof.
  intros Hn Hl Hne. rewrite cut_cons by done. rewrite take_ge, drop_ge by (unfold len in Hl; lia). done.
Qed.

Lemma cut_piece n piece data : 0 < n → len piece = n → cut n (piece ++ data) = piece :: cut n data.
Proof.
  intros Hn Hl. assert (Z.to_nat n = length piece) as Hlen by (unfold len in Hl; lia).
  rewrite cut_cons, Hlen, take_app_length, drop_app_length; [done|done|].
  intros He. apply app_eq_nil in He as [-> _]. change (len []) with 0 in Hl. lia.
Qed.

Lemma full_pieces_spec fuel n data rest : 0 < n → (length data ≤ fuel)%nat →
  let '(out, kept) := full_pieces fuel n data in
  len kept < n ∧ cut n (data ++ rest) = out ++ cut n (kept ++ rest).
Proof.
  intros Hn. revert data. induction fuel as [|fuel IH]; intros data Hf; cbn [full_pieces].
  - destruct data; [|cbn in Hf; lia]. split; [exact Hn|done].
  - destruct (Z.leb_spec n (len data)) as [Hle|Hlt]; [|done].
    specialize (IH (drop (Z.to_nat n) data)). rewrite length_drop in IH.
    specialize (IH ltac:(lia)). destruct (full_pieces _ _ _) as [out kept]. destruct IH as [Hl Hc].
    split; [done|]. rewrite <- app_comm_cons, <- Hc.
    rewrite <- (take_drop (Z.to_nat n) data) at 1. rewrite <- app_assoc. apply cut_piece; [done|].
    rewrite len_take. lia.
Qed.

Lemma rechunk_step_spec n pending chunk rest : 0 < n → len pending < n →
  let '(out, pending') := rechunk_step n pending chunk in
  len pending' < n ∧ cut n (pending ++ chunk ++ rest) = out ++ cut n (pending' ++ rest).
Proof.
  intros Hn Hp. unfold rechunk_step. destruct (bool_decide_reflect (pending = [])) as [->|Hne].
  - pose proof (full_pieces_spec (length chunk) n chunk rest Hn (le_n _)) as Hs.
    destruct (full_pieces _ _ _) as [out kept]. exact Hs.
  - set (k := Z.to_nat (Z.min (n - len pending) (len chunk))). pose proof (len_nonneg chunk) as Hc.
    assert (len (pending ++ take k chunk) = Z.min n (len pending + len chunk)) as Hl.
    { rewrite len_app, len_take. unfold k. lia. }
    pose proof (full_pieces_spec (length (drop k chunk)) n (drop k chunk) rest Hn (le_n _)) as Hs.
    destruct (Z.eqb_spec (len (pending ++ take k chunk)) n) as [He|Hlt].
    + destruct (full_pieces _ _ _) as [out kept]. destruct Hs as [Hkept Hs].
      split; [done|]. rewrite <- (take_drop k chunk) at 1. rewrite <- app_assoc, (app_assoc pending).
      rewrite cut_piece by done. cbn [app]. by rewrite Hs.
    + assert (drop k chunk = []) as -> by (apply drop_ge; unfold k, len in *; lia).
      cbn [length full_pieces app]. rewrite app_nil_r. split; [lia|].
      rewrite <- app_assoc. rewrite (take_ge chunk k) by (unfold k, len in *; lia). done.
Qed.

(** Rechunking is cutting the joined stream: the fragments do not matter. *)
Lemma rechunk_loop_cut n pending chunks : 0 < n → len pending < n →
  rechunk_loop n pending chunks = cut n (pending ++ concat chunks).
Proof.
  intros Hn. revert pending. induction chunks as [|chunk chunks IH]; intros pending Hp; cbn [rechunk_loop concat].
  - rewrite app_nil_r. destruct (bool_decide_reflect (pending = [])) as [->|]; [done|].
    rewrite cut_short; [done|done|lia|done].
  - pose proof (rechunk_step_spec n pending chunk (concat chunks) Hn Hp) as Hs.
    destruct (rechunk_step _ _ _) as [out pending']. destruct Hs as [Hp' ->]. by rewrite IH.
Qed.

Lemma cut_sound n data : 0 < n → concat (cut n data) = data ∧
  Forall (λ piece, 0 < len piece ≤ n) (cut n data) ∧
  ∀ i piece, cut n data !! i = Some piece → (S i < length (cut n data))%nat → len piece = n.
Proof.
  intros Hn. remember (length data) as k eqn:Hk. revert data Hk.
  induction k as [k IH] using lt_wf_ind; intros data ->.
  destruct (decide (data = [])) as [->|Hne]; [split_and!; [done|constructor|done]|].
  rewrite cut_cons by done. assert (0 < length data)%nat by (destruct data; [done|cbn; lia]).
  destruct (IH (length (drop (Z.to_nat n) data))) with (data := drop (Z.to_nat n) data)
    as (Hc & Hf & Hi); [rewrite length_drop; lia|done|]. cbn [concat]. rewrite Hc. split_and!.
  - apply take_drop.
  - constructor; [|done]. rewrite len_take. unfold len. lia.
  - intros [|i] piece; cbn [length]; [|intros; eapply Hi; [done|lia]]. cbn. intros [= <-] Hlong.
    rewrite len_take. destruct (Z.leb_spec n (len data)) as [|Hshort]; [lia|].
    rewrite drop_ge in Hlong by (unfold len in Hshort; lia). cbn in Hlong. lia.
Qed.

(** ** Preparing a part *)

Section prepared.
Context `{Aead}.
Context (s : ResumableAgeScryptSession) (p : pybytes) (Hp : len p ≤ 2 ^ 53).
Notation count := (chunk_count (len p)).
Notation key := (ss_payload_key s).

(** Where the plaintext of the chunks from the [i]-th on starts. *)
Definition chunk_start (i : Z) : Z := Z.min (i * CHUNK_SIZE) (len p).

Lemma chunk_start_eq i : 0 ≤ i < count →
  chunk_start i = i * CHUNK_SIZE ∧ chunk_start (i + 1) = Z.min (i * CHUNK_SIZE + CHUNK_SIZE) (len p) ∧
  (chunk_start (i + 1) =? len p) = (i =? count - 1).
Proof.
  intros Hi. pose proof (len_nonneg p) as Hn. pose proof (chunk_last (len p) Hn) as [Hl1 Hl2].
  pose proof (chunk_not_last (len p) i Hn) as Hnl. unfold chunk_start.
  assert (len p = 0 → count = 1) as H0 by (intros ->; done). unfold CHUNK_SIZE in *. lia.
Qed.

Lemma prepare_step_ok st i extra : 0 ≤ i < count → buffer_ok (pg_buffer st) →
  unread (pg_buffer st) = slice (chunk_start i) (chunk_start (i + 1)) p ++ extra →
  ∃ b', prepare_step s (len p) st i =
      Ok {| pg_buffer := b'; pg_ciphertext := pg_ciphertext st ++ payload_chunk key p i;
            pg_plaintext_hasher := pg_plaintext_hasher st ++ slice (chunk_start i) (chunk_start (i + 1)) p;
            pg_stored_hasher := pg_stored_hasher st ++ payload_chunk key p i;
            pg_consumed := pg_consumed st + (chunk_start (i + 1) - chunk_start i) |} ∧
    buffer_ok b' ∧ unread b' = extra.
Proof.
  intros Hi Hb Hu. pose proof (len_nonneg p) as Hn. destruct (chunk_start_eq i Hi) as (Hs & He & Hf).
  unfold prepare_step. rewrite chunk_bounds_eq by lia. rewrite <- He, <- Hs.
  assert (len (slice (chunk_start i) (chunk_start (i + 1)) p) = chunk_start (i + 1) - chunk_start i) as Hl.
  { rewrite Hs, He. by apply len_chunk_slice. }
  pose proof (len_nonneg (slice (chunk_start i) (chunk_start (i + 1)) p)) as Hl0.
  pose proof (read_exact_spec part_ended (chunk_start (i + 1) - chunk_start i) (pg_buffer st) Hb ltac:(lia)) as Hr.
  rewrite Hu in Hr. set (piece := slice (chunk_start i) (chunk_start (i + 1)) p) in *.
  assert (Z.to_nat (chunk_start (i + 1) - chunk_start i) = length piece) as Hnat by (unfold len in Hl; lia).
  rewrite Hnat, take_app_length, drop_app_length in Hr.
  destruct (read_exact _ _ _) as [[data b']|e].
  2: { destruct Hr as [_ Hr]. rewrite len_app in Hr. pose proof (len_nonneg extra). lia. }
  destruct Hr as (-> & _ & Hu' & Hb'). rewrite ok_bind, Hf.
  assert (encrypt_chunk s i piece (i =? count - 1) = Ok (payload_chunk key p i)) as ->.
  { unfold piece. rewrite Hs, He. by apply encrypt_chunk_ok. }
  exists b'. rewrite ok_bind, Hl. done.
Qed.

Lemma prepare_loop st i stop extra : 0 ≤ i ≤ stop → stop ≤ count → buffer_ok (pg_buffer st) →
  unread (pg_buffer st) = slice (chunk_start i) (chunk_start stop) p ++ extra →
  ∃ b', foldM (prepare_step s (len p)) st (rangeZ i stop) =
      Ok {| pg_buffer := b'; pg_ciphertext := pg_ciphertext st ++ payload_chunks key p i stop;
            pg_plaintext_hasher := pg_plaintext_hasher st ++ slice (chunk_start i) (chunk_start stop) p;
            pg_stored_hasher := pg_stored_hasher st ++ payload_chunks key p i stop;
            pg_consumed := pg_consumed st + (chunk_start stop - chunk_start i) |} ∧
    buffer_ok b' ∧ unread b' = extra.
Proof.
  intros Hi Hstop. remember (Z.to_nat (stop - i)) as k eqn:Hk. revert st i Hi Hk.
  induction k as [|k IH]; intros st i Hi Hk Hb Hu.
  - assert (i = stop) as -> by lia. rewrite slice_empty in Hu |- *. unfold payload_chunks.
    rewrite rangeZ_empty. exists (pg_buffer st). rewrite !app_nil_r, Z.sub_diag, Z.add_0_r. by destruct st.
  - pose proof (len_nonneg p) as Hn.
    assert (0 ≤ chunk_start i ≤ chunk_start (i + 1) ∧ chunk_start (i + 1) ≤ chunk_start stop) as [Hm1 Hm2]
      by (unfold chunk_start, CHUNK_SIZE; lia).
    rewrite <- (slice_app (chunk_start i) (chunk_start (i + 1)) (chunk_start stop)), <- app_assoc in Hu by lia.
    destruct (prepare_step_ok st i _ ltac:(lia) Hb Hu) as (b1 & Hstep & Hb1 & Hu1).
    rewrite rangeZ_cons by lia. cbn [foldM]. rewrite Hstep, ok_bind.
    destruct (IH {| pg_buffer := b1; pg_ciphertext := pg_ciphertext st ++ payload_chunk key p i;
            pg_plaintext_hasher := pg_plaintext_hasher st ++ slice (chunk_start i) (chunk_start (i + 1)) p;
            pg_stored_hasher := pg_stored_hasher st ++ payload_chunk key p i;
            pg_consumed := pg_consumed st + (chunk_start (i + 1) - chunk_start i) |} (i + 1)
      ltac:(lia) ltac:(lia) Hb1 Hu1) as (b' & -> & Hb' & Hu').
    exists b'. split_and!; [|done|done]. cbn [pg_ciphertext pg_plaintext_hasher pg_stored_hasher pg_consumed].
    rewrite (payload_chunks_cons key p i stop) by lia. rewrite <- !app_assoc.
    rewrite (slice_app (chunk_start i) (chunk_start (i + 1)) (chunk_start stop)) by lia.
    do 2 f_equal. lia.
Qed.

(** Every iteration moves bytes from the unread ones to the consumed ones. *)
Lemma prepare_consumes st st' i : prepare_step s (len p) st i = Ok st' → buffer_ok (pg_buffer st) →
  0 ≤ i < count →
  buffer_ok (pg_buffer st') ∧
  pg_consumed st' + len (unread (pg_buffer st')) = pg_consumed st + len (unread (pg_buffer st)).
Proof.
  intros Hstep Hb Hi. pose proof (len_nonneg p) as Hn. unfold prepare_step in Hstep.
  rewrite chunk_bounds_eq in Hstep by lia.
  pose proof (len_chunk_slice p i Hi) as Hl.
  pose proof (len_nonneg (slice (i * CHUNK_SIZE) (Z.min (i * CHUNK_SIZE + CHUNK_SIZE) (len p)) p)) as Hl0.
  set (needed := Z.min (i * CHUNK_SIZE + CHUNK_SIZE) (len p) - i * CHUNK_SIZE) in *.
  pose proof (read_exact_spec part_ended needed (pg_buffer st) Hb ltac:(lia)) as Hr.
  destruct (read_exact _ _ _) as [[data b']|e]; [|done]. rewrite ok_bind in Hstep.
  apply bind_Ok in Hstep as (enc & _ & Hstep). injection Hstep as <-. cbn [pg_buffer pg_consumed].
  destruct Hr as (Hd & Hdl & -> & Hb'). split; [done|]. rewrite len_drop.
  rewrite Hd, len_take in Hdl. rewrite Hd, len_take. lia.
Qed.

Notation unit_of per first number offset := (planned s p per first number offset).

Lemma planned_span per first number offset : 0 < per → 0 ≤ first < count →
  let u := unit_of per first number offset in
  au_plaintext_start u = chunk_start (au_first_chunk u) ∧
  au_plaintext_end u = chunk_start (au_first_chunk u + au_chunk_count u) ∧
  0 ≤ au_first_chunk u < au_first_chunk u + au_chunk_count u ∧
  au_first_chunk u + au_chunk_count u ≤ count.
Proof.
  intros Hper Hf. unfold planned, unit_plan.
  cbn [au_plaintext_start au_plaintext_end au_first_chunk au_chunk_count].
  destruct (chunk_start_eq first Hf) as (Hs & _ & _). rewrite Hs. unfold chunk_start in *.
  destruct (Z.eqb_spec (len p) 0) as [He|He]; [|split_and!; try lia].
  assert (first = 0) as -> by (rewrite He in Hf; change (chunk_count 0) with 1 in Hf; lia).
  rewrite He in *. change (chunk_count 0) with 1 in *. unfold CHUNK_SIZE. lia.
Qed.

(** A part is prepared from exactly its plaintext. *)
Lemma prepare_planned per first number offset chunks : 0 < per → 0 ≤ first < count →
  let u := unit_of per first number offset in
  (concat chunks = slice (au_plaintext_start u) (au_plaintext_end u) p →
   prepare_age_part s u (len p) chunks =
   Ok {| pp_unit_number := au_unit_number u; pp_plaintext_bytes := plaintext_len u;
         pp_plaintext_sha256 := hexdigest (slice (au_plaintext_start u) (au_plaintext_end u) p);
         pp_ciphertext := unit_bytes s p u; pp_stored_sha256 := hexdigest (unit_bytes s p u) |}) ∧
  (len (concat chunks) ≠ plaintext_len u → ∃ e, prepare_age_part s u (len p) chunks = Err e).
Proof.
  intros Hper Hf u. pose proof (len_nonneg p) as Hn.
  destruct (planned_span per first number offset Hper Hf) as (Hstart & Hend & Hr & Hc). fold u in Hstart, Hend, Hr, Hc.
  pose proof (planned_len s p per first number offset Hper Hf) as Hlen. fold u in Hlen.
  unfold prepare_age_part. rewrite (proj2 (Z.ltb_ge (len p) 0)) by lia.
  set (st0 := {| pg_buffer := new_buffer chunks; pg_ciphertext := _; pg_plaintext_hasher := []; pg_stored_hasher := _;
                 pg_consumed := 0 |}).
  destruct (new_buffer_spec chunks) as [Hb0 Hu0]. split.
  - intros Hchunks. rewrite Hstart, Hend in Hchunks |- *.
    destruct (prepare_loop st0 (au_first_chunk u) (au_first_chunk u + au_chunk_count u) []
      ltac:(lia) ltac:(lia) Hb0) as (b' & -> & Hb' & Hu'); [by rewrite app_nil_r; cbn [pg_buffer st0]; rewrite Hu0|].
    rewrite ok_bind. cbn [pg_buffer pg_ciphertext pg_plaintext_hasher pg_stored_hasher pg_consumed st0].
    rewrite check_drained_spec, bool_decide_true by done. rewrite ok_bind.
    unfold plaintext_len. rewrite Hstart, Hend, Z.add_0_l, Z.eqb_refl. cbn [negb app].
    fold (unit_bytes s p u). rewrite Hlen, Z.eqb_refl. done.
  - intros Hne. destruct (foldM (prepare_step s (len p)) st0 _) as [st|e] eqn:Hloop; [|by eexists].
    rewrite ok_bind.
    assert (buffer_ok (pg_buffer st) ∧ pg_consumed st + len (unread (pg_buffer st)) = len (concat chunks)) as [Hb Hsum].
    { apply (foldM_inv _ (λ st, buffer_ok (pg_buffer st) ∧
        pg_consumed st + len (unread (pg_buffer st)) = len (concat chunks)) _ _ _ Hloop).
      - split; [done|]. cbn [pg_consumed pg_buffer st0]. by rewrite Hu0.
      - intros st1 i st2 Hi [Hb1 Hs1] Hstep. apply elem_of_seqZ in Hi.
        destruct (prepare_consumes st1 st2 i Hstep Hb1 ltac:(lia)) as [Hb2 Hs2]. split; [done|lia]. }
    rewrite check_drained_spec by done. destruct (bool_decide_reflect (unread (pg_buffer st) = [])) as [Hnil|];
      [|by eexists]. rewrite Hnil in Hsum. change (len []) with 0 in Hsum. rewrite ok_bind.
    rewrite (proj2 (Z.eqb_neq (pg_consumed st) _)) by lia. by eexists.
Qed.
End prepared.

Section prepared_theorems.
Context `{Aead}.

(** The plans of a plaintext, with where each comes from and what it holds. *)
Lemma units_planned (s : ResumableAgeScryptSession) (p : pybytes) per us file :
  len p ≤ 2 ^ 53 → age_aligned_unit_plans s (len p) per = Ok us → encrypt_plaintext s p = Ok file →
  0 < per ∧
  Forall (λ u, (∃ first number offset, 0 ≤ first < chunk_count (len p) ∧ u = planned s p per first number offset) ∧
               unit_bytes s p u = slice (au_ciphertext_start u) (au_ciphertext_end u) file) us.
Proof.
  intros Hp Hus Hfile. pose proof (len_nonneg p) as Hn.
  unfold age_aligned_unit_plans, make_age_aligned_unit_plans in Hus.
  rewrite (proj2 (Z.ltb_ge (len p) 0)) in Hus by lia.
  destruct (Z.ltb_spec (len (age_prefix s)) PAYLOAD_NONCE_SIZE) as [|Hpre]; [done|].
  destruct (Z.leb_spec per 0) as [|Hper]; [done|]. rewrite chunk_count_exact, ok_bind in Hus by lia.
  destruct (units_of_file s p per Hp Hper Hpre) as (us' & file' & Hus' & Hfile' & Hmap & _).
  unfold age_aligned_unit_plans, make_age_aligned_unit_plans in Hus'.
  rewrite (proj2 (Z.ltb_ge (len p) 0)), (proj2 (Z.ltb_ge _ PAYLOAD_NONCE_SIZE)), (proj2 (Z.leb_gt per 0)),
    chunk_count_exact, ok_bind, Hus in Hus' by lia. injection Hus' as <-.
  rewrite Hfile in Hfile'. injection Hfile' as <-. split; [done|].
  apply (f_equal (λ r, match r with Ok us => us | Err _ => [] end)) in Hus. cbn beta iota in Hus.
  pose proof (unit_loop_spec (Z.to_nat (chunk_count (len p))) (len p) (len (age_prefix s)) per
    (chunk_count (len p)) 0 1 0 Hper ltac:(lia)) as Hshape. rewrite Hus in Hshape. clear Hus Hfile.
  apply mapM_result_Forall2 in Hmap. rewrite Forall2_fmap_r in Hmap.
  assert (∀ first number offset us, 0 ≤ first →
    units_from (len p) (len (age_prefix s)) per (chunk_count (len p)) first number offset us →
    Forall2 (λ u v, encrypt_part s u (slice_provider p) (len p) =
                    Ok (slice (au_ciphertext_start v) (au_ciphertext_end v) file)) us us →
    Forall (λ u, (∃ first number offset, 0 ≤ first < chunk_count (len p) ∧ u = planned s p per first number offset) ∧
               unit_bytes s p u = slice (au_ciphertext_start u) (au_ciphertext_end u) file) us) as Hgen.
  2: { apply (Hgen 0 1 0); [lia|done|done]. }
  clear us Hmap Hshape. intros first number offset us. revert first number offset.
  induction us as [|u us IH]; intros first number offset Hf Hu Hall; [constructor|].
  cbn [units_from] in Hu. destruct Hu as (Hlt & Hu & Hrest). inversion Hall as [|???? Henc Htail]; subst.
  constructor; [|by apply (IH (first + per) _ _ ltac:(lia) Hrest)]. split; [by exists first, number, offset|].
  change (unit_plan _ _ _ _ _ _ _) with (planned s p per first number offset) in Henc |- *.
  destruct (planned_span s p Hp per first number offset Hper ltac:(lia)) as (_ & _ & Hr & Hc).
  rewrite (encrypt_part_chunks s p Hp) in Henc; [by injection Henc|lia|done|]. by apply planned_len; [done|lia].
Qed.

Lemma prepare_unit (s : ResumableAgeScryptSession) (p : pybytes) per us file u chunks :
  len p ≤ 2 ^ 53 → age_aligned_unit_plans s (len p) per = Ok us → encrypt_plaintext s p = Ok file → u ∈ us →
  let plaintext := slice (au_plaintext_start u) (au_plaintext_end u) p in
  let stored := slice (au_ciphertext_start u) (au_ciphertext_end u) file in
  (concat chunks = plaintext →
   prepare_age_part s u (len p) chunks =
   Ok {| pp_unit_number := au_unit_number u; pp_plaintext_bytes := plaintext_len u;
         pp_plaintext_sha256 := bytes_hex (sha256 plaintext); pp_ciphertext := stored;
         pp_stored_sha256 := bytes_hex (sha256 stored) |}) ∧
  (len (concat chunks) ≠ plaintext_len u → ∃ e, prepare_age_part s u (len p) chunks = Err e).
Proof.
  intros Hp Hus Hfile Hin plaintext stored. destruct (units_planned s p per us file Hp Hus Hfile) as [Hper Hall].
  rewrite Forall_forall in Hall. destruct (Hall u Hin) as [(first & number & offset & Hf & ->) Hbytes].
  destruct (prepare_planned s p Hp per first number offset chunks Hper Hf) as [Hgood Hbad].
  rewrite Hbytes in Hgood. split; [exact Hgood|exact Hbad].
Qed.

(** Streaming preparation: for every unit planned for a plaintext (of at
    most 2^53 bytes), a stream that delivers the unit's plaintext, however it
    is fragmented, is prepared into exactly the unit's bytes of the encrypted
    file, with the digests of the plaintext and of the stored bytes; a stream
    that is shorter or longer than planned raises. *)
Theorem prepared_part_exact (s : ResumableAgeScryptSession) (p : pybytes) per us file u chunks :
  len p ≤ 2 ^ 53 → age_aligned_unit_plans s (len p) per = Ok us → encrypt_plaintext s p = Ok file → u ∈ us →
  let plaintext := slice (au_plaintext_start u) (au_plaintext_end u) p in
  let stored := slice (au_ciphertext_start u) (au_ciphertext_end u) file in
  (concat chunks = plaintext →
   prepare_age_part s u (len p) chunks =
   Ok {| pp_unit_number := au_unit_number u; pp_plaintext_bytes := plaintext_len u;
         pp_plaintext_sha256 := bytes_hex (sha256 plaintext); pp_ciphertext := stored;
         pp_stored_sha256 := bytes_hex (sha256 stored) |}) ∧
  (len (concat chunks) ≠ plaintext_len u → ∃ e, prepare_age_part s u (len p) chunks = Err e).
Proof. apply prepare_unit. Qed.

(** Whatever stream is accepted for a unit, it has the unit's length and the
    receipt carries its digest. *)
Lemma prepare_any (s : ResumableAgeScryptSession) (p : pybytes) per us file u chunks prepared :
  len p ≤ 2 ^ 53 → age_aligned_unit_plans s (len p) per = Ok us → encrypt_plaintext s p = Ok file → u ∈ us →
  prepare_age_part s u (len p) chunks = Ok prepared →
  len (concat chunks) = plaintext_len u ∧ pp_plaintext_sha256 prepared = hexdigest (concat chunks).
Proof.
  intros Hp Hus Hfile Hin Hok. destruct (units_planned s p per us file Hp Hus Hfile) as [Hper Hall].
  rewrite Forall_forall in Hall. destruct (Hall u Hin) as [(first & number & offset & Hf & ->) _].
  destruct (prepare_planned s p Hp per first number offset chunks Hper Hf) as [_ Hbad].
  destruct (decide (len (concat chunks) = plaintext_len (planned s p per first number offset))) as [Hlen|Hne];
    [|destruct (Hbad Hne) as [e He]; congruence].
  split; [done|]. set (u := planned s p per first number offset) in *.
  destruct (planned_span s p Hp per first number offset Hper Hf) as (Hs & He & Hr & Hc). fold u in Hs, He, Hr, Hc.
  assert (0 ≤ au_plaintext_start u ≤ au_plaintext_end u ∧ au_plaintext_end u ≤ len p) as [Hb1 Hb2].
  { rewrite Hs, He. unfold chunk_start, CHUNK_SIZE in *. pose proof (len_nonneg p). lia. }
  set (p' := slice 0 (au_plaintext_start u) p ++ concat chunks ++ slice (au_plaintext_end u) (len p) p).
  assert (len (slice 0 (au_plaintext_start u) p) = au_plaintext_start u) as Hl by (rewrite len_slice; lia).
  assert (len p' = len p) as Hp'.
  { unfold p'. rewrite !len_app, Hl, Hlen, len_slice by lia. unfold plaintext_len. lia. }
  assert (slice (au_plaintext_start u) (au_plaintext_end u) p' = concat chunks) as Hslice.
  { unfold p'. rewrite slice_app_r, slice_app_l by (unfold plaintext_len in *; lia). rewrite Hl, Z.sub_diag.
    change (au_plaintext_end u - au_plaintext_start u) with (plaintext_len u). rewrite <- Hlen. apply slice_full. }
  assert (planned s p' per first number offset = u) as Hu by (unfold u, planned; by rewrite Hp').
  destruct (prepare_planned s p' ltac:(lia) per first number offset chunks Hper ltac:(by rewrite Hp')) as [Hgood _].
  rewrite Hu, Hslice, Hp', Hok in Hgood. injection (Hgood eq_refl) as ->. done.
Qed.
End prepared_theorems.

(** Rechunking is canonical: whatever the request-body fragments, the
    output is the joined stream cut every [chunk_bytes] bytes; so nothing is
    lost or reordered, no piece is empty and every piece but the last is full. *)
Theorem rechunk_canonical (chunks : list pybytes) chunk_bytes out :
  iter_rechunk chunks chunk_bytes = Ok out →
  out = cut chunk_bytes (concat chunks) ∧ concat out = concat chunks ∧
  Forall (λ piece, 0 < len piece ≤ chunk_bytes) out ∧
  ∀ i piece, out !! i = Some piece → (S i < length out)%nat → len piece = chunk_bytes.
Proof.
  unfold iter_rechunk. destruct (Z.ltb_spec chunk_bytes (64 * 1024)); [done|]. intros [= <-].
  rewrite rechunk_loop_cut by (rewrite ?len_nil; lia). cbn [app]. split; [done|]. apply cut_sound. lia.
Qed.

Lemma prepared_part_exact_witness :
  ∃ us file u, age_aligned_unit_plans example_session 11 1 = Ok us ∧
    @encrypt_plaintext tag_aead example_session (str "hello world") = Ok file ∧ u ∈ us ∧
    (let stored := slice (au_ciphertext_start u) (au_ciphertext_end u) file in
     @prepare_age_part tag_aead example_session u 11 [str "hello"; []; str " world"] =
     Ok {| pp_unit_number := 1; pp_plaintext_bytes := 11;
           pp_plaintext_sha256 := bytes_hex (sha256 (str "hello world")); pp_ciphertext := stored;
           pp_stored_sha256 := bytes_hex (sha256 stored) |}).
Proof.
  set (u := {| au_unit_number := 1; au_first_chunk := 0; au_chunk_count := 1; au_includes_age_prefix := true;
               au_plaintext_start := 0; au_plaintext_end := 11; au_ciphertext_start := 0; au_ciphertext_end := 49 |}).
  assert (Henc := @encrypt_plaintext_spec tag_aead example_session (str "hello world")
    ltac:(vm_compute; discriminate)).
  exists [u]. eexists. exists u. split; [reflexivity|]. split; [exact Henc|]. split; [by left|].
  set (file := age_prefix _ ++ _) in *. clearbody file.
  refine (proj1 (@prepared_part_exact tag_aead example_session (str "hello world") 1 [u] file u
    [str "hello"; []; str " world"] _ eq_refl Henc _) _); [vm_compute; discriminate|by left|reflexivity].
Defined.

Lemma rechunk_canonical_witness :
  iter_rechunk [str "ab"; []; str "cde"] 65536 = Ok [str "abcde"] ∧ [str "abcde"] = cut 65536 (str "abcde").
Proof.
  split; [reflexivity|].
  exact (proj1 (rechunk_canonical [str "ab"; []; str "cde"] 65536 [str "abcde"] eq_refl)).
Defined.
