(* ===== verification/SessionCache.v ===== *)
(** * The session cache

    [ResumableAgeSessionCache] of [riverhog_core/streaming_age.py] and the
    [TransferConcurrencyGate] of [riverhog_core/throughput.py] it derives
    under: a bounded least-recently-used cache with single-flight derivation,
    shared by threads.  Every lock block is one atomic operation; the shared
    [_PendingSession] objects live in a store, and a step relation interleaves
    the threads between lock blocks. *)

From stdpp Require Import gmap.
From S2P Require Import Prelude Text Json Sha256 Paths Domain RawVolume Crypto Base64 Age AgeUnits AgeRange StreamingAge.

(** ** [OrderedDict], oldest entry first *)

Section ordered_dict.
Context {V : Type}.

Fixpoint od_get (k : pystr) (d : list (pystr * V)) : option V :=
  match d with
  | [] => None
  | (k', v) :: d' => if decide (k = k') then Some v else od_get k d'
  end.

(** [d[k] = v]: a known key keeps its place. *)
Fixpoint od_set (k : pystr) (v : V) (d : list (pystr * V)) : list (pystr * V) :=
  match d with
  | [] => [(k, v)]
  | (k', v') :: d' => if decide (k = k') then (k, v) :: d' else (k', v') :: od_set k v d'
  end.

Fixpoint od_delete (k : pystr) (d : list (pystr * V)) : list (pystr * V) :=
  match d with
  | [] => []
  | (k', v) :: d' => if decide (k = k') then d' else (k', v) :: od_delete k d'
  end.

Definition move_to_end (k : pystr) (d : list (pystr * V)) : list (pystr * V) :=
  match od_get k d with Some v => od_delete k d ++ [(k, v)] | None => d end.

(** [while len(d) > n: d.popitem(last=False)] *)
Fixpoint evict (n : Z) (d : list (pystr * V)) : list (pystr * V) :=
  match d with
  | [] => []
  | e :: d' => if n <? len (e :: d') then evict n d' else e :: d'
  end.
End ordered_dict.

(** ** The cache *)

Record _PendingSession := {
  ps_ready : bool;
  ps_session : option ResumableAgeScryptSession;
  ps_error : option exn;
}.

Record ResumableAgeSessionCache := {
  sc_sessions : list (pystr * ResumableAgeScryptSession);
  sc_pending : gmap pystr nat;
  (** the [_PendingSession] objects that were created *)
  sc_objects : list _PendingSession;
  (** free places of the derivation gate *)
  sc_gate : Z;
}.

(** A thread inside [get], between lock blocks. *)
Inductive thread :=
| TEnter (state : age_state)
| TWait (key : pystr) (id : nat)
| TLead (key : pystr) (id : nat) (state : UploadState)
| TDerive (key : pystr) (id : nat) (state : UploadState)
| TPublish (key : pystr) (id : nat) (derived : result ResumableAgeScryptSession)
| TDone (key : option pystr) (r : result ResumableAgeScryptSession).

Section cache.
Context `{PyEnv} `{Aead}.
Context (pass : passphrase) (max_entries capacity : Z).

Definition empty_passphrase (p : passphrase) : bool :=
  match p with PassText s => bool_decide (s = []) | PassBytes b => bool_decide (b = []) end.

(** [__init__], with a gate of its own. *)
Definition new_cache : result ResumableAgeSessionCache :=
  when empty_passphrase pass raise ValueError "age session cache passphrase must not be empty";
  when max_entries <? 0 raise ValueError "age session cache entries must be non-negative";
  when capacity <=? 0 raise ValueError "concurrency gate capacity must be positive";
  Ok {| sc_sessions := []; sc_pending := ∅; sc_objects := []; sc_gate := capacity |}.

Definition session_key (state : UploadState) : result pystr :=
  bs ← to_json_bytes state; Ok (hexdigest bs).

(** [self._sessions[key] = session] and the bound. *)
Definition store_session (key : pystr) (s : ResumableAgeScryptSession)
    (d : list (pystr * ResumableAgeScryptSession)) : list (pystr * ResumableAgeScryptSession) :=
  evict max_entries (move_to_end key (od_set key s d)).

(** [get] up to the end of the first lock block. *)
Definition get_enter (c : ResumableAgeSessionCache) (state : age_state) : ResumableAgeSessionCache * thread :=
  match (upload_state ← _upload_state state; key ← session_key upload_state; Ok (upload_state, key)) with
  | Err e => (c, TDone None (Err e))
  | Ok (upload_state, key) =>
      match od_get key (sc_sessions c) with
      | Some cached =>
          ({| sc_sessions := move_to_end key (sc_sessions c); sc_pending := sc_pending c;
              sc_objects := sc_objects c; sc_gate := sc_gate c |}, TDone (Some key) (Ok cached))
      | None =>
          match sc_pending c !! key with
          | Some id => (c, TWait key id)
          | None =>
              let id := length (sc_objects c) in
              ({| sc_sessions := sc_sessions c; sc_pending := <[key := id]> (sc_pending c);
                  sc_objects := sc_objects c ++ [{| ps_ready := false; ps_session := None; ps_error := None |}];
                  sc_gate := sc_gate c |}, TLead key id upload_state)
          end
      end
  end.

(** [reserve]: take a place of the gate, and give it back. *)
Definition gate_acquire (c : ResumableAgeSessionCache) : option ResumableAgeSessionCache :=
  if 0 <? sc_gate c
  then Some {| sc_sessions := sc_sessions c; sc_pending := sc_pending c; sc_objects := sc_objects c;
               sc_gate := sc_gate c - 1 |}
  else None.
Definition gate_release (c : ResumableAgeSessionCache) : ResumableAgeSessionCache :=
  {| sc_sessions := sc_sessions c; sc_pending := sc_pending c; sc_objects := sc_objects c;
     sc_gate := sc_gate c + 1 |}.

Definition derive (state : UploadState) : result ResumableAgeScryptSession :=
  session_from_state pass (StateValue state) None.

(** The last lock block of the leader, on success and on failure. *)
Definition publish (c : ResumableAgeSessionCache) (key : pystr) (id : nat)
    (derived : result ResumableAgeScryptSession) : ResumableAgeSessionCache :=
  match derived with
  | Ok s =>
      {| sc_sessions := if max_entries =? 0 then sc_sessions c else store_session key s (sc_sessions c);
         sc_pending := delete key (sc_pending c);
         sc_objects := <[id := {| ps_ready := true; ps_session := Some s; ps_error := None |}]> (sc_objects c);
         sc_gate := sc_gate c |}
  | Err e =>
      {| sc_sessions := sc_sessions c; sc_pending := delete key (sc_pending c);
         sc_objects := <[id := {| ps_ready := true; ps_session := None; ps_error := Some e |}]> (sc_objects c);
         sc_gate := sc_gate c |}
  end.

(** What a waiter returns once the event is set. *)
Definition wait_result (o : _PendingSession) : result ResumableAgeScryptSession :=
  match ps_error o with
  | Some _ => Err (Exn RuntimeError (str "age session derivation failed"))
  | None =>
      match ps_session o with
      | None => Err (Exn RuntimeError (str "age session derivation produced no session"))
      | Some s => Ok s
      end
  end.

Definition remember (c : ResumableAgeSessionCache) (state : age_state) (s : ResumableAgeScryptSession) :
    result ResumableAgeSessionCache :=
  upload_state ← _upload_state state;
  when negb (bool_decide (age_prefix s = us_header upload_state ++ us_payload_nonce upload_state))
    raise ValueError "age session does not match the state being cached";
  if max_entries =? 0 then Ok c
  else
    key ← session_key upload_state;
    Ok {| sc_sessions := store_session key s (sc_sessions c); sc_pending := sc_pending c;
          sc_objects := sc_objects c; sc_gate := sc_gate c |}.

Definition clear (c : ResumableAgeSessionCache) : ResumableAgeSessionCache :=
  {| sc_sessions := []; sc_pending := sc_pending c; sc_objects := sc_objects c; sc_gate := sc_gate c |}.

(** ** Interleavings *)

Definition config : Type := ResumableAgeSessionCache * list thread.

Inductive cache_step : config → config → Prop :=
| step_call c ts state : cache_step (c, ts) (c, ts ++ [TEnter state])
| step_enter c ts i state c' t : ts !! i = Some (TEnter state) → get_enter c state = (c', t) →
    cache_step (c, ts) (c', <[i := t]> ts)
| step_acquire c ts i key id state c' : ts !! i = Some (TLead key id state) → gate_acquire c = Some c' →
    cache_step (c, ts) (c', <[i := TDerive key id state]> ts)
| step_derive c ts i key id state : ts !! i = Some (TDerive key id state) →
    cache_step (c, ts) (gate_release c, <[i := TPublish key id (derive state)]> ts)
| step_publish c ts i key id derived : ts !! i = Some (TPublish key id derived) →
    cache_step (c, ts) (publish c key id derived, <[i := TDone (Some key) derived]> ts)
| step_wake c ts i key id o : ts !! i = Some (TWait key id) → sc_objects c !! id = Some o → ps_ready o = true →
    cache_step (c, ts) (c, <[i := TDone (Some key) (wait_result o)]> ts)
| step_remember c ts state s c' : remember c state s = Ok c' → cache_step (c, ts) (c', ts)
| step_clear c ts : cache_step (c, ts) (clear c, ts).

(** Configurations a new cache can get to. *)
Inductive reachable : config → Prop :=
| reachable_start c : new_cache = Ok c → reachable (c, [])
| reachable_step x y : reachable x → cache_step x y → reachable y.

(** ** The invariant *)

(** The threads that hold the right to derive, and for what. *)
Definition leads (t : thread) : option (pystr * nat) :=
  match t with
  | TLead key id _ | TDerive key id _ | TPublish key id _ => Some (key, id)
  | _ => None
  end.

Definition deriving (t : thread) : bool := match t with TDerive _ _ _ => true | _ => false end.

(** A session made for a state that has this key. *)
Definition belongs (key : pystr) (s : ResumableAgeScryptSession) : Prop :=
  ∃ state, session_key state = Ok key ∧ age_prefix s = us_header state ++ us_payload_nonce state.

(** A pending object whose event is set. *)
Definition finished (key : pystr) (o : _PendingSession) : Prop :=
  ps_ready o = true ∧ ∀ s, wait_result o = Ok s → belongs key s.

Definition thread_ok (c : ResumableAgeSessionCache) (t : thread) : Prop :=
  match t with
  | TEnter _ => True
  | TWait key id => ∃ o, sc_objects c !! id = Some o ∧ (finished key o ∨ sc_pending c !! key = Some id)
  | TLead key _ state | TDerive key _ state => session_key state = Ok key
  | TPublish key _ derived => ∀ s, derived = Ok s → belongs key s
  | TDone key r => ∀ s, r = Ok s → ∃ k, key = Some k ∧ belongs k s
  end.

(** Which thread leads what. *)
Definition lead_of (ts : list thread) (i : nat) : option (pystr * nat) := ts !! i ≫= leads.

(** Single flight: the pending keys and the leaders are in one-to-one
    correspondence, and a leader's object is not ready. *)
Record protocol (pending : gmap pystr nat) (objects : list _PendingSession)
    (lead : nat → option (pystr * nat)) : Prop := {
  pr_leads i key id : lead i = Some (key, id) →
    pending !! key = Some id ∧ ∃ o, objects !! id = Some o ∧ ps_ready o = false;
  pr_single i j key id id' : lead i = Some (key, id) → lead j = Some (key, id') → i = j;
  pr_pending key id : pending !! key = Some id → ∃ i, lead i = Some (key, id);
  pr_distinct key key' id : pending !! key = Some id → pending !! key' = Some id → key' = key;
}.

Definition running (ts : list thread) : Z := sumZ (λ t, if deriving t then 1 else 0) ts.

Record cache_inv (x : config) : Prop := {
  ci_keys : NoDup (fst <$> sc_sessions x.1);
  ci_bound : len (sc_sessions x.1) ≤ max_entries;
  ci_sessions : Forall (λ e, belongs e.1 e.2) (sc_sessions x.1);
  ci_threads : Forall (thread_ok x.1) x.2;
  ci_protocol : protocol (sc_pending x.1) (sc_objects x.1) (lead_of x.2);
  ci_gate : 0 ≤ sc_gate x.1 ∧ sc_gate x.1 + running x.2 = capacity;
}.
End cache.

(** *** Ordered dictionaries *)

Section ordered_dict_lemmas.
Context {V : Type}.
Implicit Types (d : list (pystr * V)).

Lemma od_get_elem k v d : od_get k d = Some v → (k, v) ∈ d.
Proof.
  induction d as [|[k' v'] d IH]; cbn; [done|]. destruct (decide (k = k')) as [->|].
  - intros [= ->]. by left.
  - intros Hg. right. auto.
Qed.

Lemma od_delete_keys k d : NoDup (fst <$> d) →
  NoDup (fst <$> od_delete k d) ∧ k ∉ (fst <$> od_delete k d) ∧
  ∀ k', k' ∈ (fst <$> od_delete k d) → k' ∈ (fst <$> d).
Proof.
  induction d as [|[k1 v1] d IH]; cbn [od_delete]; intros Hnd; [split_and!; [done|apply not_elem_of_nil|done]|].
  rewrite fmap_cons in Hnd. apply NoDup_cons in Hnd as [Hk Hnd]. cbn [fst] in Hk.
  destruct (IH Hnd) as (IH1 & IH2 & IH3). destruct (decide (k = k1)) as [->|Hne]; rewrite !fmap_cons; cbn [fst].
  - split_and!; [done|done|]. intros k' Hk'. by right.
  - split_and!.
    + apply NoDup_cons. split; [intros Hin; by apply Hk, IH3|done].
    + by apply not_elem_of_cons.
    + intros k' Hk'. apply elem_of_cons in Hk' as [->|Hk']; [by left|right; by apply IH3].
Qed.

Lemma od_delete_Forall (P : pystr * V → Prop) k d : Forall P d → Forall P (od_delete k d).
Proof.
  induction 1 as [|[k1 v1] d Hx Hd IH]; cbn [od_delete]; [constructor|].
  destruct (decide (k = k1)); [done|by constructor].
Qed.

Lemma od_set_keys k v d : NoDup (fst <$> d) → NoDup (fst <$> od_set k v d) ∧
  ∀ k', k' ∈ (fst <$> od_set k v d) → k' = k ∨ k' ∈ (fst <$> d).
Proof.
  induction d as [|[k1 v1] d IH]; cbn [od_set]; intros Hnd.
  { split; [apply NoDup_singleton|]. intros k' Hk'. apply list_elem_of_singleton in Hk'. by left. }
  rewrite fmap_cons in Hnd. apply NoDup_cons in Hnd as [Hk Hnd]. cbn [fst] in Hk.
  destruct (decide (k = k1)) as [->|Hne]; rewrite !fmap_cons; cbn [fst].
  - split; [by apply NoDup_cons|]. intros k' Hk'. by right.
  - destruct (IH Hnd) as [Hnd' Hin]. split.
    + apply NoDup_cons. split; [|done]. intros Hk1. apply Hin in Hk1 as [->|]; done.
    + intros k' Hk'. apply elem_of_cons in Hk' as [->|Hk']; [right; by left|].
      apply Hin in Hk' as [->|]; [by left|right; by right].
Qed.

Lemma od_set_Forall (P : pystr * V → Prop) k v d : P (k, v) → Forall P d → Forall P (od_set k v d).
Proof.
  intros Hkv. induction 1 as [|[k1 v1] d Hx Hd IH]; cbn [od_set]; [by constructor|].
  destruct (decide (k = k1)); constructor; done.
Qed.

Lemma move_to_end_keys k d : NoDup (fst <$> d) → NoDup (fst <$> move_to_end k d).
Proof.
  intros Hnd. unfold move_to_end. destruct (od_get k d) as [v|]; [|done]. rewrite fmap_app.
  apply NoDup_app. split_and!.
  - by apply od_delete_keys.
  - intros x Hx Hk. apply list_elem_of_singleton in Hk. cbn in Hk. subst. by apply (od_delete_keys k d Hnd).
  - apply NoDup_singleton.
Qed.

Lemma move_to_end_Forall (P : pystr * V → Prop) k d : Forall P d → Forall P (move_to_end k d).
Proof.
  intros Hd. unfold move_to_end. destruct (od_get k d) as [v|] eqn:Hg; [|done].
  apply Forall_app. split; [by apply od_delete_Forall|].
  apply od_get_elem in Hg. rewrite Forall_forall in Hd. constructor; [by apply Hd|constructor].
Qed.

Lemma od_delete_length k v d : od_get k d = Some v → length d = S (length (od_delete k d)).
Proof.
  induction d as [|[k' v'] d IH]; cbn [od_get od_delete length]; [done|].
  destruct (decide (k = k')); [done|]. intros Hg. cbn [length]. by rewrite (IH Hg).
Qed.

Lemma move_to_end_length k d : len (move_to_end k d) = len d.
Proof.
  unfold move_to_end, len. destruct (od_get k d) as [v|] eqn:Hg; [|done].
  rewrite length_app, (od_delete_length k v d Hg). cbn. lia.
Qed.

Lemma evict_spec n d : 0 ≤ n → len (evict n d) ≤ n ∧ evict n d `suffix_of` d.
Proof.
  intros Hn. induction d as [|e d [IH1 IH2]]; cbn [evict]; [split; [done|by exists []]|].
  destruct (Z.ltb_spec n (len (e :: d))); [|split; [lia|by exists []]].
  split; [done|]. by apply suffix_cons_r.
Qed.

Lemma evict_keys n d : 0 ≤ n → NoDup (fst <$> d) → NoDup (fst <$> evict n d).
Proof.
  intros Hn Hnd. destruct (evict_spec n d Hn) as [_ [k Hk]]. rewrite Hk, fmap_app in Hnd.
  by apply NoDup_app in Hnd as (_ & _ & ?).
Qed.

Lemma evict_Forall (P : pystr * V → Prop) n d : 0 ≤ n → Forall P d → Forall P (evict n d).
Proof.
  intros Hn Hd. destruct (evict_spec n d Hn) as [_ [k Hk]]. rewrite Hk in Hd.
  by apply Forall_app in Hd as [_ ?].
Qed.
End ordered_dict_lemmas.

(** *** The protocol *)

Lemma protocol_ext pending objects lead lead' : (∀ j, lead' j = lead j) →
  protocol pending objects lead → protocol pending objects lead'.
Proof.
  intros He [H1 H2 H3 H4]. split.
  - intros i key id. rewrite He. apply H1.
  - intros i j key id id'. rewrite !He. apply H2.
  - intros key id Hk. destruct (H3 key id Hk) as [i Hi]. exists i. by rewrite He.
  - exact H4.
Qed.

Lemma protocol_start pending objects lead i key o : protocol pending objects lead →
  pending !! key = None → lead i = None → ps_ready o = false →
  protocol (<[key := length objects]> pending) (objects ++ [o])
    (λ j, if decide (i = j) then Some (key, length objects) else lead j).
Proof.
  intros [H1 H2 H3 H4] Hnone Hi Ho.
  assert (∀ k id, pending !! k = Some id → (id < length objects)%nat) as Hlt.
  { intros k id Hk. destruct (H3 k id Hk) as [j Hj]. destruct (H1 j k id Hj) as (_ & o' & Ho' & _).
    by eapply lookup_lt_Some. }
  split.
  - intros j k id. destruct (decide (i = j)) as [<-|]; intros Hj.
    + injection Hj as <- <-. rewrite lookup_insert_eq. split; [done|]. exists o. split; [|done].
      by rewrite lookup_app_r, Nat.sub_diag by lia.
    + destruct (H1 j k id Hj) as (Hk & o' & Ho' & Hr). rewrite lookup_insert_ne by congruence. split; [done|].
      exists o'. split; [|done]. by apply lookup_app_l_Some.
  - intros j j' k id id'. destruct (decide (i = j)) as [<-|], (decide (i = j')) as [<-|]; try done.
    + intros [= <- <-] Hj. by destruct (H1 _ _ _ Hj) as [? _]; simplify_eq.
    + intros Hj [= <- <-]. by destruct (H1 _ _ _ Hj) as [? _]; simplify_eq.
    + apply H2.
  - intros k id Hk. apply lookup_insert_Some in Hk as [[<- <-]|[Hne Hk]].
    + exists i. by rewrite decide_True.
    + destruct (H3 k id Hk) as [j Hj]. exists j. rewrite decide_False; [done|]. by intros <-; congruence.
  - intros k k' id Hk Hk'. apply lookup_insert_Some in Hk, Hk'.
    destruct Hk as [[? ?]|[? Hk]], Hk' as [[? ?]|[? Hk']]; subst; try done.
    + apply Hlt in Hk'. lia.
    + apply Hlt in Hk. lia.
    + by eapply H4.
Qed.

Lemma protocol_finish pending objects lead i key id o : protocol pending objects lead →
  lead i = Some (key, id) →
  protocol (delete key pending) (<[id := o]> objects) (λ j, if decide (i = j) then None else lead j).
Proof.
  intros [H1 H2 H3 H4] Hi. destruct (H1 i key id Hi) as [Hp _]. split.
  - intros j k id'. destruct (decide (i = j)) as [<-|Hne]; [done|]. intros Hj.
    destruct (H1 j k id' Hj) as (Hk & o' & Ho' & Hr).
    assert (k ≠ key) as Hkne by (intros ->; apply Hne; by eapply H2).
    rewrite lookup_delete_ne by done. split; [done|]. exists o'. split; [|done].
    rewrite list_lookup_insert_ne; [done|]. intros ->. by apply Hkne, (H4 key k id').
  - intros j j' k id1 id2. destruct (decide (i = j)), (decide (i = j')); try done. apply H2.
  - intros k id' Hk. apply lookup_delete_Some in Hk as [Hne Hk]. destruct (H3 k id' Hk) as [j Hj].
    exists j. rewrite decide_False; [done|]. intros <-. congruence.
  - intros k k' id' Hk Hk'. apply lookup_delete_Some in Hk as [_ Hk], Hk' as [_ Hk']. by eapply H4.
Qed.

Lemma lead_of_insert ts i t j : (i < length ts)%nat →
  lead_of (<[i := t]> ts) j = if decide (i = j) then leads t else lead_of ts j.
Proof.
  intros Hi. unfold lead_of. destruct (decide (i = j)) as [<-|].
  - by rewrite list_lookup_insert_eq.
  - by rewrite list_lookup_insert_ne.
Qed.

Lemma lead_of_app ts t j : leads t = None → lead_of (ts ++ [t]) j = lead_of ts j.
Proof.
  intros Ht. unfold lead_of. destruct (decide (j < length ts)%nat) as [|Hge]; [by rewrite lookup_app_l|].
  rewrite lookup_app_r by lia. rewrite (lookup_ge_None_2 ts) by lia.
  by destruct (j - length ts)%nat as [|n].
Qed.

Lemma running_insert ts i t u : ts !! i = Some t →
  running (<[i := u]> ts) =
  running ts - (if deriving t then 1 else 0) + (if deriving u then 1 else 0).
Proof.
  intros Hi. unfold running. rewrite <- (take_drop_middle ts i t Hi) at 2.
  rewrite insert_take_drop by by eapply lookup_lt_Some. rewrite !sumZ_app, !sumZ_cons. lia.
Qed.

Lemma running_nonneg ts : 0 ≤ running ts.
Proof. apply sumZ_nonneg. rewrite Forall_forall. intros t _. by destruct (deriving t). Qed.

(** *** The invariant holds *)

Section invariance.
Context `{PyEnv} `{Aead}.
Context (pass : passphrase) (max_entries capacity : Z).

Notation inv := (cache_inv max_entries capacity).

Lemma session_from_state_prefix p state m s : session_from_state p (StateValue state) m = Ok s →
  age_prefix s = us_header state ++ us_payload_nonce state.
Proof.
  unfold session_from_state, _upload_state. rewrite ok_bind. intros Hs.
  apply bind_Ok in Hs as (parsed & _ & Hs). apply bind_Ok in Hs as (pb & _ & Hs).
  apply bind_Ok in Hs as (fk & _ & Hs). unfold new_session in Hs.
  destruct (negb _); [done|]. destruct (negb _); [done|]. by injection Hs as <-.
Qed.

Lemma store_session_ok key s d : 0 ≤ max_entries → belongs key s →
  NoDup (fst <$> d) → Forall (λ e, belongs e.1 e.2) d →
  NoDup (fst <$> store_session max_entries key s d) ∧ len (store_session max_entries key s d) ≤ max_entries ∧
  Forall (λ e, belongs e.1 e.2) (store_session max_entries key s d).
Proof.
  intros Hm Hs Hnd Hall. unfold store_session. split_and!.
  - apply evict_keys; [done|]. apply move_to_end_keys. by apply od_set_keys.
  - by apply evict_spec.
  - apply evict_Forall; [done|]. apply move_to_end_Forall. by apply od_set_Forall.
Qed.

(** Threads do not notice a change of the sessions or of the gate. *)
Lemma thread_ok_same c c' t : sc_objects c' = sc_objects c → sc_pending c' = sc_pending c →
  thread_ok c t → thread_ok c' t.
Proof. intros Ho Hp. by destruct t; cbn; rewrite ?Ho, ?Hp. Qed.

Lemma threads_same c c' ts : sc_objects c' = sc_objects c → sc_pending c' = sc_pending c →
  Forall (thread_ok c) ts → Forall (thread_ok c') ts.
Proof. intros Ho Hp Hts. eapply Forall_impl; [exact Hts|]. intros t. by apply thread_ok_same. Qed.

Lemma inv_call c ts state : inv (c, ts) → inv (c, ts ++ [TEnter state]).
Proof.
  intros [Hk Hb Hs Ht Hp Hg]. split; cbn [fst snd] in *; try done.
  - apply Forall_app. split; [done|]. by repeat constructor.
  - eapply protocol_ext; [|exact Hp]. intros j. by apply lead_of_app.
  - unfold running in *. rewrite sumZ_app. cbn. lia.
Qed.

(** A thread that leaves its leadership as it was. *)
Lemma inv_thread c c' ts i t u : inv (c, ts) → ts !! i = Some t → leads u = leads t → thread_ok c' u →
  sc_sessions c' = sc_sessions c → sc_pending c' = sc_pending c → sc_objects c' = sc_objects c →
  0 ≤ sc_gate c' → sc_gate c' + (if deriving u then 1 else 0) = sc_gate c + (if deriving t then 1 else 0) →
  inv (c', <[i := u]> ts).
Proof.
  intros [Hk Hb Hs Ht Hp Hg] Hi Hl Hu E1 E2 E3 Hpos Hgate. split; cbn [fst snd] in *; rewrite ?E1, ?E2, ?E3; try done.
  - apply Forall_insert; [|done]. by apply (threads_same c).
  - eapply protocol_ext; [|exact Hp]. intros j. rewrite lead_of_insert by by eapply lookup_lt_Some.
    destruct (decide (i = j)) as [<-|]; [|done]. unfold lead_of. by rewrite Hi.
  - rewrite (running_insert ts i t u Hi). lia.
Qed.

Lemma inv_sessions c ts d : inv (c, ts) → NoDup (fst <$> d) → len d ≤ max_entries →
  Forall (λ e, belongs e.1 e.2) d →
  inv ({| sc_sessions := d; sc_pending := sc_pending c; sc_objects := sc_objects c; sc_gate := sc_gate c |}, ts).
Proof.
  intros [Hk Hb Hs Ht Hp Hg] H1 H2 H3. split; cbn [fst snd sc_sessions sc_pending sc_objects sc_gate] in *; try done.
Qed.

Lemma inv_enter c ts i state c' t : inv (c, ts) → ts !! i = Some (TEnter state) →
  get_enter c state = (c', t) → inv (c', <[i := t]> ts).
Proof.
  intros Hinv Hi. pose proof Hinv as [Hk Hb Hs Ht Hp Hg]. cbn [fst snd] in *. unfold get_enter.
  destruct (upload_state ← _upload_state state; key ← session_key upload_state; Ok (upload_state, key))
    as [[us key]|e] eqn:Hkey.
  2: { intros [= <- <-]. eapply inv_thread; try done. lia. }
  apply bind_Ok in Hkey as (us' & _ & Hkey). apply bind_Ok in Hkey as (key' & Hkey & Heq). injection Heq as -> ->.
  destruct (od_get key (sc_sessions c)) as [s|] eqn:Hget.
  { intros [= <- <-]. apply od_get_elem in Hget.
    assert (inv ({| sc_sessions := move_to_end key (sc_sessions c); sc_pending := sc_pending c;
                    sc_objects := sc_objects c; sc_gate := sc_gate c |}, ts)) as Hinv'.
    { apply inv_sessions; [done|by apply move_to_end_keys| |by apply move_to_end_Forall].
      by rewrite move_to_end_length. }
    eapply inv_thread; try done; [|cbn; lia]. cbn. intros s' [= <-]. exists key. split; [done|].
    rewrite Forall_forall in Hs. apply (Hs (key, s) Hget). }
  destruct (sc_pending c !! key) as [id|] eqn:Hpend; intros [= <- <-].
  - eapply inv_thread; try done; [|lia]. cbn.
    destruct (pr_pending _ _ _ Hp key id Hpend) as [j Hj]. destruct (pr_leads _ _ _ Hp j key id Hj) as (_ & o & Ho & _).
    exists o. split; [done|]. by right.
  - assert (i < length ts)%nat as Hlt by by eapply lookup_lt_Some.
    split; cbn [fst snd sc_sessions sc_pending sc_objects sc_gate]; try done.
    + apply Forall_insert; [|done]. eapply Forall_impl; [exact Ht|]. intros [| k id | | | |]; cbn; try done.
      intros (o & Ho & Hor). exists o. split; [by apply lookup_app_l_Some|].
      destruct Hor as [|Hk']; [by left|right]. rewrite lookup_insert_ne; [done|]. congruence.
    + eapply protocol_ext; [|eapply (protocol_start _ _ _ i key); [exact Hp|done| |done]].
      * intros j. by rewrite lead_of_insert.
      * unfold lead_of. by rewrite Hi.
    + rewrite (running_insert ts i _ _ Hi). cbn. lia.
Qed.

Lemma inv_publish c ts i key id derived : 0 ≤ max_entries → inv (c, ts) →
  ts !! i = Some (TPublish key id derived) →
  inv (publish max_entries c key id derived, <[i := TDone (Some key) derived]> ts).
Proof.
  intros Hm Hinv Hi. pose proof Hinv as [Hk Hb Hs Ht Hp Hg]. cbn [fst snd] in *.
  assert (i < length ts)%nat as Hlt by by eapply lookup_lt_Some.
  assert (lead_of ts i = Some (key, id)) as Hlead by (unfold lead_of; by rewrite Hi).
  destruct (pr_leads _ _ _ Hp i key id Hlead) as (Hpend & o & Ho & Hready).
  assert (∀ s, derived = Ok s → belongs key s) as Hd.
  { rewrite Forall_lookup in Ht. exact (Ht i _ Hi). }
  set (o' := match derived with
             | Ok s => {| ps_ready := true; ps_session := Some s; ps_error := None |}
             | Err e => {| ps_ready := true; ps_session := None; ps_error := Some e |} end).
  set (d' := match derived with
             | Ok s => if max_entries =? 0 then sc_sessions c else store_session max_entries key s (sc_sessions c)
             | Err _ => sc_sessions c end).
  assert (publish max_entries c key id derived =
    {| sc_sessions := d'; sc_pending := delete key (sc_pending c); sc_objects := <[id := o']> (sc_objects c);
       sc_gate := sc_gate c |}) as -> by by destruct derived.
  assert (finished key o') as Hfin.
  { unfold finished, o'. destruct derived as [s|e]; cbn; (split; [done|]); [|done].
    intros s' [= <-]. by apply Hd. }
  assert (NoDup (fst <$> d') ∧ len d' ≤ max_entries ∧ Forall (λ e, belongs e.1 e.2) d') as (Hd1 & Hd2 & Hd3).
  { unfold d'. destruct derived as [s|e]; [|done]. destruct (max_entries =? 0); [done|].
    apply store_session_ok; auto. }
  assert (id < length (sc_objects c))%nat as Hid by by eapply lookup_lt_Some.
  split; cbn [fst snd sc_sessions sc_pending sc_objects sc_gate]; try done.
  - apply Forall_insert; [|cbn; intros s ->; eauto]. eapply Forall_impl; [exact Ht|].
    intros [| k j | | | |]; cbn; try done. intros (oj & Hoj & Hor).
    destruct (decide (j = id)) as [->|Hne].
    + assert (k = key) as ->.
      { destruct Hor as [[Hr _]|Hk']; [congruence|]. by eapply (pr_distinct _ _ _ Hp key k id). }
      exists o'. split; [by apply list_lookup_insert_eq|]. by left.
    + exists oj. split; [by rewrite list_lookup_insert_ne|]. destruct Hor as [|Hk']; [by left|].
      right. rewrite lookup_delete_ne; [done|]. congruence.
  - eapply protocol_ext; [|by eapply (protocol_finish _ _ _ i key id o')]. intros j. by rewrite lead_of_insert.
  - rewrite (running_insert ts i _ _ Hi). cbn. lia.
Qed.

Lemma inv_step x y : 0 ≤ max_entries → inv x → cache_step pass max_entries x y → inv y.
Proof.
  intros Hm Hinv Hstep. destruct Hstep as [c ts state|c ts i state c' t Hi He|c ts i key id state c' Hi Ha
    |c ts i key id state Hi|c ts i key id derived Hi|c ts i key id o Hi Ho Hr|c ts state s c' Hr|c ts].
  - by apply inv_call.
  - by eapply inv_enter.
  - unfold gate_acquire in Ha. destruct (Z.ltb_spec 0 (sc_gate c)); [|done]. injection Ha as <-.
    eapply (inv_thread c); try done; cbn; try lia.
    pose proof (ci_threads _ _ _ Hinv) as Ht. rewrite Forall_lookup in Ht. exact (Ht i _ Hi).
  - pose proof (ci_gate _ _ _ Hinv) as [Hg _]. cbn [fst] in Hg. eapply (inv_thread c); try done; cbn; try lia.
    intros s Hs. pose proof (ci_threads _ _ _ Hinv) as Ht. rewrite Forall_lookup in Ht.
    exists state. split; [exact (Ht i _ Hi)|]. exact (session_from_state_prefix pass state None s Hs).
  - by apply inv_publish.
  - pose proof (ci_gate _ _ _ Hinv) as [Hg _]. cbn [fst] in Hg. eapply (inv_thread c); try done; cbn; try lia.
    intros s Hs. exists key. split; [done|].
    pose proof (ci_threads _ _ _ Hinv) as Ht. rewrite Forall_lookup in Ht.
    destruct (Ht i _ Hi) as (o' & Ho' & Hor). cbn [fst] in Ho'. assert (o' = o) as -> by congruence.
    destruct Hor as [[_ Hf]|Hpend]; [by apply Hf|]. pose proof (ci_protocol _ _ _ Hinv) as Hp. cbn [fst snd] in Hp, Hpend.
    destruct (pr_pending _ _ _ Hp key id Hpend) as [j Hj].
    destruct (pr_leads _ _ _ Hp j key id Hj) as (_ & o2 & Ho2 & Hr2). congruence.
  - unfold remember in Hr. apply bind_Ok in Hr as (us & _ & Hr).
    destruct (bool_decide_reflect (age_prefix s = us_header us ++ us_payload_nonce us)) as [Hpre|]; [|done].
    cbn [negb] in Hr. destruct (max_entries =? 0); [by injection Hr as <-|].
    apply bind_Ok in Hr as (key & Hkey & Hr). injection Hr as <-.
    pose proof Hinv as [Hk Hb Hs _ _ _]. cbn [fst] in *.
    destruct (store_session_ok key s (sc_sessions c) Hm) as (H1 & H2 & H3); [by exists us|done|done|].
    by apply inv_sessions.
  - apply inv_sessions; [done|constructor|done|constructor].
Qed.

Lemma reachable_inv x : reachable pass max_entries capacity x →
  inv x ∧ 0 ≤ max_entries ∧ 0 < capacity.
Proof.
  induction 1 as [c Hc|x y Hx (IH & Hm & Hcap) Hstep]; [|split_and!; [by eapply inv_step|done|done]].
  unfold new_cache in Hc. destruct (empty_passphrase pass); [done|].
  destruct (Z.ltb_spec max_entries 0); [done|]. destruct (Z.leb_spec capacity 0); [done|]. injection Hc as <-.
  split; [|lia]. split; cbn [fst snd sc_sessions sc_pending sc_objects sc_gate]; try done.
  - constructor.
  - cbn. lia.
Qed.

(** *** Progress *)

(** How many steps a call still needs at most. *)
Definition rank (t : thread) : nat :=
  match t with
  | TEnter _ => 4 | TLead _ _ _ => 3 | TDerive _ _ _ => 2 | TPublish _ _ _ => 1 | TWait _ _ => 1 | TDone _ _ => 0
  end.
Definition remaining (ts : list thread) : nat := foldr (λ t n, (rank t + n)%nat) 0%nat ts.

Lemma remaining_cons t ts : remaining (t :: ts) = (rank t + remaining ts)%nat.
Proof. done. Qed.

Lemma remaining_insert ts i t u : ts !! i = Some t → (rank u < rank t)%nat →
  (remaining (<[i := u]> ts) < remaining ts)%nat.
Proof.
  revert i. induction ts as [|v ts IH]; intros [|i] Hi Hr; try done.
  - injection Hi as ->. change (<[0%nat := u]> (t :: ts)) with (u :: ts). rewrite !remaining_cons. lia.
  - change (<[S i := u]> (v :: ts)) with (v :: <[i := u]> ts). rewrite !remaining_cons.
    specialize (IH i Hi Hr). lia.
Qed.

Lemma remaining_pos ts : remaining ts ≠ 0%nat → ∃ i t, ts !! i = Some t ∧ rank t ≠ 0%nat.
Proof.
  induction ts as [|t ts IH]; [done|]. rewrite remaining_cons. intros Hr.
  destruct (decide (rank t = 0%nat)) as [He|]; [|by exists 0%nat, t].
  destruct IH as (i & u & Hi & Hu); [lia|]. by exists (S i), u.
Qed.

Lemma running_pos ts : 0 < running ts → ∃ i key id state, ts !! i = Some (TDerive key id state).
Proof.
  unfold running. induction ts as [|t ts IH]; [cbn; lia|]. rewrite sumZ_cons. intros Hr.
  destruct t as [| | |key id state| |]; cbn [deriving] in Hr; [| | |by exists 0%nat, key, id, state| |];
    (destruct IH as (i & key' & id' & st & Hi); [lia|]; by exists (S i), key', id', st).
Qed.

(** A step that brings one call closer to its end. *)
Definition advances (x y : config) : Prop :=
  cache_step pass max_entries x y ∧ (remaining y.2 < remaining x.2)%nat ∧ length y.2 = length x.2.

Lemma advance_thread c ts i t c' u : ts !! i = Some t → (rank u < rank t)%nat →
  cache_step pass max_entries (c, ts) (c', <[i := u]> ts) → ∃ y, advances (c, ts) y.
Proof.
  intros Hi Hr Hs. eexists. split; [exact Hs|]. split; [by eapply remaining_insert|]. cbn. apply length_insert.
Qed.

(** Whoever leads, somebody can move. *)
Lemma leader_advances c ts i t key id : inv (c, ts) → 0 < capacity → ts !! i = Some t →
  leads t = Some (key, id) → ∃ y, advances (c, ts) y.
Proof.
  intros Hinv Hcap Hi Hl. destruct t as [| |k j state|k j state|k j derived|]; try done.
  - pose proof (ci_gate _ _ _ Hinv) as [Hg Hr]. cbn [fst snd] in *.
    destruct (decide (0 < sc_gate c)) as [Hfree|Hfull].
    + eapply (advance_thread c ts i _ _ (TDerive k j state) Hi); [cbn; lia|].
      eapply step_acquire; [done|]. unfold gate_acquire. by rewrite (proj2 (Z.ltb_lt _ _)).
    + destruct (running_pos ts) as (i' & k' & id' & state' & Hi'); [lia|].
      eapply (advance_thread c ts i' _ _ _ Hi'); [|by eapply step_derive]. cbn. lia.
  - eapply (advance_thread c ts i _ _ _ Hi); [|by eapply step_derive]. cbn. lia.
  - eapply (advance_thread c ts i _ _ _ Hi); [|by eapply step_publish]. cbn. lia.
Qed.

Lemma can_advance c ts : inv (c, ts) → 0 < capacity → remaining ts ≠ 0%nat → ∃ y, advances (c, ts) y.
Proof.
  intros Hinv Hcap Hr. destruct (remaining_pos ts Hr) as (i & t & Hi & Ht).
  destruct t as [state|key id|key id state|key id state|key id derived|];
    [| |by eapply leader_advances|by eapply leader_advances|by eapply leader_advances|done].
  - destruct (get_enter c state) as [c' u] eqn:He. eapply (advance_thread c ts i _ c' u Hi); [|by eapply step_enter].
    unfold get_enter in He. repeat case_match; simplify_eq; cbn; lia.
  - pose proof (ci_threads _ _ _ Hinv) as Hts. rewrite Forall_lookup in Hts.
    destruct (Hts i _ Hi) as (o & Ho & [[Hready _]|Hpend]).
    + eapply (advance_thread c ts i _ _ _ Hi); [|by eapply step_wake]. cbn. lia.
    + destruct (pr_pending _ _ _ (ci_protocol _ _ _ Hinv) key id Hpend) as [j Hj]. unfold lead_of in Hj.
      cbn [snd] in Hj. destruct (ts !! j) as [u|] eqn:Hju; [|done]. by eapply leader_advances.
Qed.

Lemma runs_to_end x : inv x → 0 ≤ max_entries → 0 < capacity →
  ∃ y, rtc (cache_step pass max_entries) x y ∧ length y.2 = length x.2 ∧ Forall (λ t, rank t = 0%nat) y.2.
Proof.
  remember (remaining x.2) as n eqn:Hn. revert x Hn. induction n as [n IH] using lt_wf_ind.
  intros [c ts] -> Hinv Hm Hcap. destruct (decide (remaining ts = 0%nat)) as [Hz|Hz].
  - exists (c, ts). split_and!; [done|done|]. cbn [snd]. clear -Hz. induction ts as [|t ts IHt]; [constructor|].
    rewrite remaining_cons in Hz. constructor; [lia|]. apply IHt. lia.
  - destruct (can_advance c ts Hinv Hcap Hz) as (y & Hstep & Hlt & Hlen).
    destruct (IH (remaining y.2) Hlt y eq_refl) as (z & Hrun & Hlen' & Hdone); [by eapply inv_step|done|done|].
    exists z. split_and!; [by eapply rtc_l|by rewrite Hlen', Hlen|done].
Qed.

(** ** Properties *)

(** C15. The cache is bounded, single-flight and never hands out a session for
    another object: in every reachable configuration of any number of threads,
    the cache holds at most [max_entries] sessions, one per key; at most one
    thread derives for a key, and at most [capacity] threads derive at once;
    and every session a call returned was made for a state with the key of
    the state it was called with. *)
Theorem session_cache_safe c ts : reachable pass max_entries capacity (c, ts) →
  len (sc_sessions c) ≤ max_entries ∧ NoDup (fst <$> sc_sessions c) ∧
  (∀ i j t u key id id', ts !! i = Some t → ts !! j = Some u →
     leads t = Some (key, id) → leads u = Some (key, id') → i = j) ∧
  running ts ≤ capacity ∧
  (∀ i key s, ts !! i = Some (TDone (Some key) (Ok s)) → belongs key s).
Proof.
  intros Hx. destruct (reachable_inv _ Hx) as (Hinv & Hm & Hcap).
  pose proof Hinv as [Hk Hb Hs Ht Hp Hg]. cbn [fst snd] in *. split_and!; [done|done| |lia|].
  - intros i j t u key id id' Hi Hj Hl Hl'. eapply (pr_single _ _ _ Hp i j key id id'); unfold lead_of;
      by rewrite ?Hi, ?Hj.
  - intros i key s Hi. rewrite Forall_lookup in Ht. destruct (Ht i _ Hi s eq_refl) as (k & [= <-] & Hb'). done.
Qed.

(** C37. No call is ever stuck: from every reachable configuration, whatever
    the interleaving so far (waiters, a full gate, failed derivations, an
    intervening [clear]), there is a continuation in which every call that was
    made returns or raises. *)
Theorem session_cache_no_deadlock x : reachable pass max_entries capacity x →
  ∃ y, rtc (cache_step pass max_entries) x y ∧ length y.2 = length x.2 ∧
       Forall (λ t, ∃ key r, t = TDone key r) y.2.
Proof.
  intros Hx. destruct (reachable_inv _ Hx) as (Hinv & Hm & Hcap).
  destruct (runs_to_end x Hinv Hm Hcap) as (y & Hrun & Hlen & Hdone). exists y. split_and!; [done|done|].
  eapply Forall_impl; [exact Hdone|]. intros []; cbn; try done. eauto.
Qed.
End invariance.

(** Two threads ask for one state: the second waits for the first. *)
Definition example_pass : passphrase := PassText (str "pw").
Definition example_state : age_state :=
  StateValue {| us_header := str "header"; us_payload_nonce := example_nonce; us_plaintext_size := None;
                us_format := upload_state_format |}.

Definition example_cache : ResumableAgeSessionCache :=
  {| sc_sessions := []; sc_pending := ∅; sc_objects := []; sc_gate := 1 |}.
Definition example_first : ResumableAgeSessionCache * thread := @get_enter ascii_env example_cache example_state.
Definition example_second : ResumableAgeSessionCache * thread :=
  @get_enter ascii_env example_first.1 example_state.

Lemma example_reachable :
  @reachable ascii_env tag_aead example_pass 1 1 (example_second.1, [example_first.2; example_second.2]).
Proof.
  assert (@reachable ascii_env tag_aead example_pass 1 1 (example_first.1, [example_first.2])) as Hfirst.
  { eapply reachable_step; [eapply reachable_step|].
    - apply reachable_start. reflexivity.
    - apply (step_call _ _ example_cache [] example_state).
    - apply (step_enter _ _ example_cache [TEnter example_state] 0 example_state); [done|].
      apply surjective_pairing. }
  eapply reachable_step; [eapply reachable_step; [exact Hfirst|]|].
  - apply (step_call _ _ _ _ example_state).
  - apply (step_enter _ _ example_first.1 [example_first.2; TEnter example_state] 1 example_state); [done|].
    apply surjective_pairing.
Qed.

Lemma session_cache_safe_witness :
  match example_first.2, example_second.2 with TLead _ 0 _, TWait _ 0 => true | _, _ => false end = true ∧
  len (sc_sessions example_second.1) ≤ 1 ∧ running [example_first.2; example_second.2] ≤ 1.
Proof.
  split; [vm_compute; reflexivity|].
  destruct (@session_cache_safe ascii_env tag_aead example_pass 1 1 _ _ example_reachable) as (Hlen & _ & _ & Hrun & _).
  split; [exact Hlen|exact Hrun].
Defined.

Lemma session_cache_no_deadlock_witness :
  ∃ y, rtc (@cache_step ascii_env tag_aead example_pass 1)
         (example_second.1, [example_first.2; example_second.2]) y ∧
       length y.2 = 2%nat ∧ Forall (λ t, ∃ key r, t = TDone key r) y.2.
Proof. exact (@session_cache_no_deadlock ascii_env tag_aead example_pass 1 1 _ example_reachable). Defined.
