(* ===== verification/ArchiveContracts.v ===== *)
(** * Archive documents

    [riverhog_archive_contracts/archive_manifest.py]: the plaintext documents
    that describe a sealed archive (one per volume, a terminal one, the root
    manifest), their parsers and printers, and the commitment to the ordered
    sequence of volume documents.  A [new_...] function is a data class
    constructor with its [__post_init__]; a field check of a typed field is the
    typed half of the check that the parser makes of a JSON value. *)

From S2P Require Import Prelude Text Json Sha256 Paths Domain PackIngress PackVolume RawVolume Tar Base64 IncrementalPlan.

Definition COLLECTION_ARCHIVE_MANIFEST_SCHEMA : pystr := str "collection-archive-manifest/v1".
Definition COLLECTION_ARCHIVE_VOLUME_SCHEMA : pystr := str "collection-archive-volume/v1".
Definition COLLECTION_ARCHIVE_TERMINAL_SCHEMA : pystr := str "collection-archive-terminal/v1".
Definition ARCHIVE_ROOT_DOCUMENT_BYTES_MAX : Z := 64 * 1024.
Definition ARCHIVE_VOLUME_DOCUMENT_BYTES_MAX : Z := 1024 * 1024.
Definition ARCHIVE_ENCRYPTION_FORMAT : pystr := str "age-v1-scrypt".
Definition AGE_UPLOAD_STATE_FORMAT : pystr := str "age-v1-scrypt-resumable".
Definition PACK_INDEX_FORMAT : pystr := str "riverhog-pack-index/v1".
Definition PART_DIGEST_FORMAT : pystr := str "sha256".
Definition SELECTIVE_READ_FORMAT : pystr := str "age-chunk-range/v1".

Definition manifest_error (message : pystr) : exn := Exn ArchiveManifestError message.

(** ** Fields *)

Definition _mapping (value : json) (fields : list string) (label : string) : result (list (pystr * json)) :=
  match value with
  | JObj o => when negb (keys_are o fields) raises manifest_error (str label ++ str " fields are invalid"); Ok o
  | _ => Err (manifest_error (str label ++ str " fields are invalid"))
  end.

Definition check_nonnegative (value : Z) (label : string) : result Z :=
  when value <? 0 raises manifest_error (str label ++ str " must be a non-negative integer"); Ok value.

Definition _nonnegative_int (value : json) (label : string) : result Z :=
  match value with
  | JInt z => check_nonnegative z label
  | _ => Err (manifest_error (str label ++ str " must be a non-negative integer"))
  end.

Definition check_positive (value : Z) (label : string) : result Z :=
  parsed ← check_nonnegative value label;
  when parsed <? 1 raises manifest_error (str label ++ str " must be positive"); Ok parsed.

Definition _positive_int (value : json) (label : string) : result Z :=
  parsed ← _nonnegative_int value label;
  when parsed <? 1 raises manifest_error (str label ++ str " must be positive"); Ok parsed.

(** [_SEQUENCE_RE] and [_SHA256_RE] are the same pattern. *)
Definition hex_digit (c : Z) : Z := default 0 (hex_value c).

Definition parse_archive_sequence (value : json) (label : string) : result Z :=
  match value with
  | JStr s =>
      when negb (sha256_fullmatch s) raises manifest_error (str label ++ str " is not a canonical 256-bit ordinal");
      Ok (of_digits 16 (hex_digit <$> s))
  | _ => Err (manifest_error (str label ++ str " is not a canonical 256-bit ordinal"))
  end.

Definition check_sha256 (value : pystr) (label : string) : result pystr :=
  when negb (sha256_fullmatch value) raises manifest_error (str label ++ str " is not a SHA-256 identity"); Ok value.

Definition _sha256 (value : json) (label : string) : result pystr :=
  match value with
  | JStr s => check_sha256 s label
  | _ => Err (manifest_error (str label ++ str " is not a SHA-256 identity"))
  end.

(** [str(PurePosixPath(value))] of a relative path. *)
Definition posix_str (value : pystr) : pystr :=
  match posix_parts value with [] => str "." | parts => join_on (chr "/") parts end.

Definition check_relative_path (value : pystr) (label : string) : result pystr :=
  let error := manifest_error (str label ++ str " is not a canonical relative path") in
  when bool_decide (value = []) || bool_decide (chr "\" ∈ value) raises error;
  when startswith (str "/") value
       || existsb (λ part, bool_decide (part ∈ [[]; str "."; str ".."])) (posix_parts value) raises error;
  let normalized := posix_str value in
  when negb (bool_decide (normalized = value)) raises error;
  Ok normalized.

Definition _relative_path (value : json) (label : string) : result pystr :=
  match value with
  | JStr s => check_relative_path s label
  | _ => Err (manifest_error (str label ++ str " is not a canonical relative path"))
  end.

(** [base64.b64decode(value + "=" * (-len(value) % 4))] *)
Definition padded_decode (value : pystr) : option pybytes :=
  b64decode (value ++ repeatZ (- len value mod 4) (chr "=")).

Definition check_base64 (value : pystr) (label : string) : result pystr :=
  let error := manifest_error (str label ++ str " is not canonical base64") in
  when bool_decide (value = []) raises error;
  match padded_decode value with
  | None => Err error
  | Some decoded => when negb (bool_decide (_b64_encode decoded = value)) raises error; Ok value
  end.

Definition _base64 (value : json) (label : string) : result pystr :=
  match value with
  | JStr s => check_base64 s label
  | _ => Err (manifest_error (str label ++ str " is not canonical base64"))
  end.

(** ** Tree identity *)

Record CollectionTreeIdentity := { ct_files : Z; ct_bytes : Z; ct_sha256 : pystr }.

Definition new_tree (x : CollectionTreeIdentity) : result CollectionTreeIdentity :=
  _ ← check_positive (ct_files x) "archive tree files";
  _ ← check_nonnegative (ct_bytes x) "archive tree bytes";
  _ ← check_sha256 (ct_sha256 x) "archive tree sha256";
  Ok x.

Definition tree_from_mapping (value : json) : result CollectionTreeIdentity :=
  row ← _mapping value ["files"; "bytes"; "sha256"] "archive tree";
  files ← _positive_int (get_or_null "files" row) "archive tree files";
  bytes ← _nonnegative_int (get_or_null "bytes" row) "archive tree bytes";
  sha256 ← _sha256 (get_or_null "sha256" row) "archive tree sha256";
  new_tree {| ct_files := files; ct_bytes := bytes; ct_sha256 := sha256 |}.

Definition tree_to_mapping (x : CollectionTreeIdentity) : json :=
  JObj [(str "files", JInt (ct_files x)); (str "bytes", JInt (ct_bytes x)); (str "sha256", JStr (ct_sha256 x))].

(** ** Age state *)

Record AgeUploadState := {
  ag_header_b64 : pystr;
  ag_payload_nonce_b64 : pystr;
  ag_plaintext_size : Z;
  ag_format : pystr;
}.

(** The two checks on the decoded values. *)
Definition check_age_bytes (header_b64 nonce_b64 : pystr) : result unit :=
  when bool_decide (default [] (padded_decode header_b64) = [])
    raises manifest_error (str "archive age header must not be empty");
  when negb (len (default [] (padded_decode nonce_b64)) =? 16)
    raises manifest_error (str "archive age payload nonce must be 16 bytes");
  Ok tt.

Definition new_age_state (x : AgeUploadState) : result AgeUploadState :=
  when negb (bool_decide (ag_format x = AGE_UPLOAD_STATE_FORMAT))
    raises manifest_error (str "archive age state format is unsupported");
  _ ← check_nonnegative (ag_plaintext_size x) "archive age state plaintext size";
  header_b64 ← check_base64 (ag_header_b64 x) "archive age header";
  nonce_b64 ← check_base64 (ag_payload_nonce_b64 x) "archive age payload nonce";
  _ ← check_age_bytes header_b64 nonce_b64;
  Ok x.

Definition age_state_from_mapping (value : json) (plaintext_bytes : Z) : result AgeUploadState :=
  row ← _mapping value ["format"; "header_b64"; "payload_nonce_b64"; "plaintext_size"] "archive age state";
  when negb (is_str (get_or_null "format" row) AGE_UPLOAD_STATE_FORMAT)
    raises manifest_error (str "archive age state format is unsupported");
  size ← _nonnegative_int (get_or_null "plaintext_size" row) "archive age state plaintext size";
  when negb (size =? plaintext_bytes)
    raises manifest_error (str "archive age state plaintext size does not match volume");
  header_b64 ← _base64 (get_or_null "header_b64" row) "archive age header";
  nonce_b64 ← _base64 (get_or_null "payload_nonce_b64" row) "archive age payload nonce";
  _ ← check_age_bytes header_b64 nonce_b64;
  new_age_state {| ag_header_b64 := header_b64; ag_payload_nonce_b64 := nonce_b64;
                   ag_plaintext_size := size; ag_format := AGE_UPLOAD_STATE_FORMAT |}.

Definition age_state_to_mapping (x : AgeUploadState) : json :=
  JObj [(str "format", JStr (ag_format x)); (str "header_b64", JStr (ag_header_b64 x));
        (str "payload_nonce_b64", JStr (ag_payload_nonce_b64 x));
        (str "plaintext_size", JInt (ag_plaintext_size x))].

(** ** Stored parts *)

Record StoredPartIdentity := {
  sp_number : Z;
  sp_plaintext_start : Z;
  sp_plaintext_bytes : Z;
  sp_plaintext_sha256 : pystr;
  sp_stored_bytes : Z;
  sp_stored_sha256 : pystr;
}.

Definition new_part (x : StoredPartIdentity) : result StoredPartIdentity :=
  _ ← check_positive (sp_number x) "archive part number";
  _ ← check_nonnegative (sp_plaintext_start x) "archive part plaintext start";
  _ ← check_nonnegative (sp_plaintext_bytes x) "archive part plaintext bytes";
  _ ← check_sha256 (sp_plaintext_sha256 x) "archive part plaintext sha256";
  _ ← check_positive (sp_stored_bytes x) "archive part stored bytes";
  _ ← check_sha256 (sp_stored_sha256 x) "archive part stored sha256";
  Ok x.

Definition part_from_mapping (value : json) (expected_number expected_start : Z) : result StoredPartIdentity :=
  row ← _mapping value ["number"; "plaintext_start"; "plaintext_bytes"; "plaintext_sha256";
                        "stored_bytes"; "stored_sha256"] "archive part";
  number ← _positive_int (get_or_null "number" row) "archive part number";
  start ← _nonnegative_int (get_or_null "plaintext_start" row) "archive part plaintext start";
  when negb (number =? expected_number) || negb (start =? expected_start)
    raises manifest_error (str "archive part order is not canonical");
  plaintext_bytes ← _nonnegative_int (get_or_null "plaintext_bytes" row) "archive part plaintext bytes";
  plaintext_sha256 ← _sha256 (get_or_null "plaintext_sha256" row) "archive part plaintext sha256";
  stored_bytes ← _positive_int (get_or_null "stored_bytes" row) "archive part stored bytes";
  stored_sha256 ← _sha256 (get_or_null "stored_sha256" row) "archive part stored sha256";
  new_part {| sp_number := number; sp_plaintext_start := start; sp_plaintext_bytes := plaintext_bytes;
              sp_plaintext_sha256 := plaintext_sha256; sp_stored_bytes := stored_bytes;
              sp_stored_sha256 := stored_sha256 |}.

Definition part_to_mapping (x : StoredPartIdentity) : json :=
  JObj [(str "number", JInt (sp_number x)); (str "plaintext_start", JInt (sp_plaintext_start x));
        (str "plaintext_bytes", JInt (sp_plaintext_bytes x));
        (str "plaintext_sha256", JStr (sp_plaintext_sha256 x));
        (str "stored_bytes", JInt (sp_stored_bytes x)); (str "stored_sha256", JStr (sp_stored_sha256 x))].

(** [for number, raw in enumerate(value, start=1)] *)
Fixpoint parts_loop (number expected_start : Z) (value : list json) : result (list StoredPartIdentity * Z) :=
  match value with
  | [] => Ok ([], expected_start)
  | raw :: value =>
      part ← part_from_mapping raw number expected_start;
      '(parts, stop) ← parts_loop (number + 1) (expected_start + sp_plaintext_bytes part) value;
      Ok (part :: parts, stop)
  end.

Definition _parts (value : json) (plaintext_bytes : Z) : result (list StoredPartIdentity) :=
  match value with
  | JList ((_ :: _) as l) =>
      when ARCHIVE_VOLUME_PARTS_MAX <? len l
        raises manifest_error (str "archive volume parts exceed the construction limit");
      '(parts, stop) ← parts_loop 1 0 l;
      when negb (stop =? plaintext_bytes)
        raises manifest_error (str "archive volume parts do not cover its plaintext");
      Ok parts
  | _ => Err (manifest_error (str "archive volume parts must be a non-empty list"))
  end.

Fixpoint validate_loop (number expected_start : Z) (parts : list StoredPartIdentity) : result Z :=
  match parts with
  | [] => Ok expected_start
  | part :: parts =>
      when negb (sp_number part =? number) || negb (sp_plaintext_start part =? expected_start)
        raises manifest_error (str "archive part order is not canonical");
      validate_loop (number + 1) (expected_start + sp_plaintext_bytes part) parts
  end.

Definition _validate_parts (value : list StoredPartIdentity) (plaintext_bytes : Z) :
    result (list StoredPartIdentity) :=
  when bool_decide (value = []) || (ARCHIVE_VOLUME_PARTS_MAX <? len value)
    raises manifest_error (str "archive volume parts must be a non-empty tuple");
  stop ← validate_loop 1 0 value;
  when negb (stop =? plaintext_bytes)
    raises manifest_error (str "archive volume parts do not cover its plaintext");
  Ok value.

(** ** File placements *)

Record ArchiveFileIdentity := { fi_path : pystr; fi_bytes : Z; fi_sha256 : pystr }.

Definition new_file_identity (x : ArchiveFileIdentity) : result ArchiveFileIdentity :=
  path ← check_relative_path (fi_path x) "archive file path";
  when startswith (str ".riverhog/") path raises manifest_error (str "archive file path is reserved");
  _ ← check_nonnegative (fi_bytes x) "archive file bytes";
  _ ← check_sha256 (fi_sha256 x) "archive file sha256";
  Ok x.

Record SegmentFilePlacement := {
  sf_path : pystr;
  sf_offset : Z;
  sf_bytes : Z;
  sf_file_bytes : Z;
  sf_sha256 : pystr;
}.

Definition new_placement (x : SegmentFilePlacement) : result SegmentFilePlacement :=
  path ← check_relative_path (sf_path x) "archive segment source path";
  when startswith (str ".riverhog/") path raises manifest_error (str "archive segment source path is reserved");
  offset ← check_nonnegative (sf_offset x) "archive segment file offset";
  byte_count ← check_nonnegative (sf_bytes x) "archive segment bytes";
  file_bytes ← check_nonnegative (sf_file_bytes x) "archive segment file bytes";
  when file_bytes <? offset + byte_count raises manifest_error (str "archive segment placement is invalid");
  _ ← check_sha256 (sf_sha256 x) "archive segment file sha256";
  Ok x.

Definition placement_from_mapping (value : json) (plaintext_bytes : Z) : result SegmentFilePlacement :=
  row ← _mapping value ["path"; "offset"; "bytes"; "file_bytes"; "sha256"] "archive segment file";
  path ← _relative_path (get_or_null "path" row) "archive segment source path";
  when startswith (str ".riverhog/") path raises manifest_error (str "archive segment source path is reserved");
  offset ← _nonnegative_int (get_or_null "offset" row) "archive segment file offset";
  byte_count ← _nonnegative_int (get_or_null "bytes" row) "archive segment bytes";
  file_bytes ← _nonnegative_int (get_or_null "file_bytes" row) "archive segment file bytes";
  when negb (byte_count =? plaintext_bytes) || (file_bytes <? offset + byte_count)
    raises manifest_error (str "archive segment placement is invalid");
  sha256 ← _sha256 (get_or_null "sha256" row) "archive segment file sha256";
  new_placement {| sf_path := path; sf_offset := offset; sf_bytes := byte_count; sf_file_bytes := file_bytes;
                   sf_sha256 := sha256 |}.

Definition placement_to_mapping (x : SegmentFilePlacement) : json :=
  JObj [(str "path", JStr (sf_path x)); (str "offset", JInt (sf_offset x)); (str "bytes", JInt (sf_bytes x));
        (str "file_bytes", JInt (sf_file_bytes x)); (str "sha256", JStr (sf_sha256 x))].

(** ** Volumes *)

Record PackArchiveVolume := {
  pk_id : pystr;
  pk_sequence : Z;
  pk_path : pystr;
  pk_files : Z;
  pk_source_bytes : Z;
  pk_plaintext_bytes : Z;
  pk_age_state : AgeUploadState;
  pk_index_sha256 : pystr;
  pk_plan_sha256 : pystr;
  pk_parts : list StoredPartIdentity;
  pk_kind : pystr;
}.

Record SegmentArchiveVolume := {
  sg_id : pystr;
  sg_sequence : Z;
  sg_path : pystr;
  sg_plaintext_bytes : Z;
  sg_age_state : AgeUploadState;
  sg_file : SegmentFilePlacement;
  sg_parts : list StoredPartIdentity;
  sg_kind : pystr;
}.

Inductive ArchiveVolume := PackV (v : PackArchiveVolume) | SegmentV (v : SegmentArchiveVolume).

Definition av_sequence (v : ArchiveVolume) : Z :=
  match v with PackV v => pk_sequence v | SegmentV v => sg_sequence v end.

Definition new_pack_volume (x : PackArchiveVolume) : result PackArchiveVolume :=
  sequence ← check_nonnegative (pk_sequence x) "archive volume sequence";
  when negb (bool_decide (pk_kind x = str "pack"))
    raises manifest_error (str "archive volume identity is not canonical");
  seq_text ← format_archive_sequence sequence;
  when negb (bool_decide (pk_id x = str "pack-" ++ seq_text))
    raises manifest_error (str "archive volume identity is not canonical");
  when negb (bool_decide (pk_path x = str "volumes/" ++ pk_id x ++ str ".tar.age"))
    raises manifest_error (str "archive volume path is not canonical");
  files ← check_positive (pk_files x) "archive pack files";
  when ARCHIVE_PACK_FILES_MAX <? files raises manifest_error (str "archive pack files exceed the volume limit");
  _ ← check_nonnegative (pk_source_bytes x) "archive pack source bytes";
  plaintext_bytes ← check_nonnegative (pk_plaintext_bytes x) "archive volume bytes";
  when negb (ag_plaintext_size (pk_age_state x) =? plaintext_bytes)
    raises manifest_error (str "archive age state plaintext size does not match volume");
  _ ← check_sha256 (pk_index_sha256 x) "archive pack index sha256";
  _ ← check_sha256 (pk_plan_sha256 x) "archive pack plan sha256";
  _ ← _validate_parts (pk_parts x) plaintext_bytes;
  Ok x.

Definition new_segment_volume (x : SegmentArchiveVolume) : result SegmentArchiveVolume :=
  sequence ← check_nonnegative (sg_sequence x) "archive volume sequence";
  when negb (bool_decide (sg_kind x = str "segment"))
    raises manifest_error (str "archive volume identity is not canonical");
  seq_text ← format_archive_sequence sequence;
  when negb (bool_decide (sg_id x = str "segment-" ++ seq_text))
    raises manifest_error (str "archive volume identity is not canonical");
  when negb (bool_decide (sg_path x = str "volumes/" ++ sg_id x ++ str ".bin.age"))
    raises manifest_error (str "archive volume path is not canonical");
  plaintext_bytes ← check_nonnegative (sg_plaintext_bytes x) "archive volume bytes";
  when negb (ag_plaintext_size (sg_age_state x) =? plaintext_bytes)
    raises manifest_error (str "archive age state plaintext size does not match volume");
  when negb (sf_bytes (sg_file x) =? plaintext_bytes)
    raises manifest_error (str "archive segment placement is invalid");
  _ ← _validate_parts (sg_parts x) plaintext_bytes;
  Ok x.

(** [source_file]: the constructor of the file identity may raise. *)
Definition source_file (x : SegmentArchiveVolume) : result ArchiveFileIdentity :=
  new_file_identity {| fi_path := sf_path (sg_file x); fi_bytes := sf_file_bytes (sg_file x);
                       fi_sha256 := sf_sha256 (sg_file x) |}.
Definition file_offset (x : SegmentArchiveVolume) : Z := sf_offset (sg_file x).

Definition pack_to_mapping (x : PackArchiveVolume) : result json :=
  sequence ← format_archive_sequence (pk_sequence x);
  Ok (JObj [(str "id", JStr (pk_id x)); (str "sequence", JStr sequence); (str "kind", JStr (pk_kind x));
            (str "path", JStr (pk_path x)); (str "files", JInt (pk_files x));
            (str "source_bytes", JInt (pk_source_bytes x)); (str "plaintext_bytes", JInt (pk_plaintext_bytes x));
            (str "age_state", age_state_to_mapping (pk_age_state x));
            (str "index_sha256", JStr (pk_index_sha256 x)); (str "plan_sha256", JStr (pk_plan_sha256 x));
            (str "parts", JList (part_to_mapping <$> pk_parts x))]).

Definition segment_to_mapping (x : SegmentArchiveVolume) : result json :=
  sequence ← format_archive_sequence (sg_sequence x);
  Ok (JObj [(str "id", JStr (sg_id x)); (str "sequence", JStr sequence); (str "kind", JStr (sg_kind x));
            (str "path", JStr (sg_path x)); (str "plaintext_bytes", JInt (sg_plaintext_bytes x));
            (str "age_state", age_state_to_mapping (sg_age_state x));
            (str "file", placement_to_mapping (sg_file x));
            (str "parts", JList (part_to_mapping <$> sg_parts x))]).

Definition volume_to_mapping (v : ArchiveVolume) : result json :=
  match v with PackV v => pack_to_mapping v | SegmentV v => segment_to_mapping v end.

Definition _bounded_pack_files (value : json) : result Z :=
  files ← _positive_int value "archive pack files";
  when ARCHIVE_PACK_FILES_MAX <? files raises manifest_error (str "archive pack files exceed the volume limit");
  Ok files.

Definition pack_fields : list string :=
  ["id"; "sequence"; "kind"; "path"; "files"; "source_bytes"; "plaintext_bytes"; "age_state";
   "index_sha256"; "plan_sha256"; "parts"].
Definition segment_fields : list string :=
  ["id"; "sequence"; "kind"; "path"; "plaintext_bytes"; "age_state"; "file"; "parts"].

(** [_VOLUME_ID_RE] *)
Definition volume_id_fullmatch (s : pystr) : bool :=
  (startswith (str "pack-") s && sha256_fullmatch (drop 5 s))
  || (startswith (str "segment-") s && sha256_fullmatch (drop 8 s)).

Definition _volume (value : json) (expected_sequence : Z) : result ArchiveVolume :=
  match value with
  | JObj o =>
      let kind := get_or_null "kind" o in
      let is_pack := is_str kind (str "pack") in
      let fields := if is_pack then pack_fields else if is_str kind (str "segment") then segment_fields else [] in
      row ← _mapping value fields "archive volume";
      (* an empty mapping has no [kind], and [row["sequence"]] is missing *)
      sequence_value ← match dict_get (str "sequence") row with
                       | Some v => Ok v
                       | None => Err (Exn KeyError (str "sequence"))
                       end;
      sequence ← parse_archive_sequence sequence_value "archive volume sequence";
      match get_or_null "id" row with
      | JStr volume_id =>
          when negb (sequence =? expected_sequence) || negb (volume_id_fullmatch volume_id)
            raises manifest_error (str "archive volume identity is invalid");
          seq_text ← format_archive_sequence sequence;
          when negb (bool_decide (volume_id = (if is_pack then str "pack-" else str "segment-") ++ seq_text))
            raises manifest_error (str "archive volume identity is not canonical");
          path ← _relative_path (get_or_null "path" row) "archive volume path";
          when negb (bool_decide (path = str "volumes/" ++ volume_id ++
                                         (if is_pack then str ".tar.age" else str ".bin.age")))
            raises manifest_error (str "archive volume path is not canonical");
          plaintext_bytes ← _nonnegative_int (get_or_null "plaintext_bytes" row) "archive volume bytes";
          age_state ← age_state_from_mapping (get_or_null "age_state" row) plaintext_bytes;
          parts ← _parts (get_or_null "parts" row) plaintext_bytes;
          if is_pack then
            files ← _bounded_pack_files (get_or_null "files" row);
            source_bytes ← _nonnegative_int (get_or_null "source_bytes" row) "archive pack source bytes";
            index_sha256 ← _sha256 (get_or_null "index_sha256" row) "archive pack index sha256";
            plan_sha256 ← _sha256 (get_or_null "plan_sha256" row) "archive pack plan sha256";
            v ← new_pack_volume
                  {| pk_id := volume_id; pk_sequence := sequence; pk_path := path; pk_files := files;
                     pk_source_bytes := source_bytes; pk_plaintext_bytes := plaintext_bytes;
                     pk_age_state := age_state; pk_index_sha256 := index_sha256; pk_plan_sha256 := plan_sha256;
                     pk_parts := parts; pk_kind := str "pack" |};
            Ok (PackV v)
          else
            file ← placement_from_mapping (get_or_null "file" row) plaintext_bytes;
            v ← new_segment_volume
                  {| sg_id := volume_id; sg_sequence := sequence; sg_path := path;
                     sg_plaintext_bytes := plaintext_bytes; sg_age_state := age_state; sg_file := file;
                     sg_parts := parts; sg_kind := str "segment" |};
            Ok (SegmentV v)
      | _ => Err (manifest_error (str "archive volume identity is invalid"))
      end
  | _ => Err (manifest_error (str "archive volume is not a mapping"))
  end.

(** ** Documents *)

Section documents.
Context `{PyEnv}.

Definition _canonical_json_bytes (value : json) : result pybytes := utf8_encode (dumps true value).

(** What the three [to_json_bytes] share. *)
Definition bounded_json_bytes (limit : Z) (what : string) (value : json) : result pybytes :=
  content ← _canonical_json_bytes value;
  when limit <? len content raises manifest_error (str what ++ str " exceeds its byte limit");
  Ok content.

Definition is_json_error (k : exn_kind) : bool :=
  match k with UnicodeDecodeError | UnicodeEncodeError | JSONDecodeError => true | _ => false end.

(** What the three [from_json_bytes] share. *)
Definition canonical_from_bytes {T} (limit : Z) (bound what : string)
    (parse : json → result T) (print : T → result pybytes) (encoded : pybytes) : result T :=
  when limit <? len encoded raises manifest_error (str bound ++ str " exceeds its byte limit");
  '(text, value) ← try_except (text ← utf8_decode encoded; value ← loads text; Ok (text, value)) is_json_error
                     (λ _, Err (manifest_error (str what ++ str " is not valid JSON")));
  document ← parse value;
  printed ← print document;
  again ← utf8_encode text;
  when negb (bool_decide (printed = again)) raises manifest_error (str what ++ str " JSON is not canonical");
  Ok document.

(** A [str] argument is encoded first. *)
Definition from_text {T} (parse : pybytes → result T) (content : pystr) : result T :=
  encoded ← utf8_encode content; parse encoded.

Record CollectionArchiveVolumeDocument := {
  vd_archive_generation : pystr;
  vd_archive_tree_sha256 : pystr;
  vd_volume : ArchiveVolume;
  vd_schema : pystr;
}.

Definition new_volume_document (x : CollectionArchiveVolumeDocument) : result CollectionArchiveVolumeDocument :=
  when negb (bool_decide (vd_schema x = COLLECTION_ARCHIVE_VOLUME_SCHEMA))
    raises manifest_error (str "collection archive volume schema is unsupported");
  _ ← check_sha256 (vd_archive_generation x) "collection archive generation";
  _ ← check_sha256 (vd_archive_tree_sha256 x) "collection archive volume tree sha256";
  Ok x.

Definition volume_document_from_mapping (value : json) : result CollectionArchiveVolumeDocument :=
  row ← _mapping value ["schema"; "archive_generation"; "archive_tree_sha256"; "volume"] "collection archive volume";
  when negb (is_str (get_or_null "schema" row) COLLECTION_ARCHIVE_VOLUME_SCHEMA)
    raises manifest_error (str "collection archive volume schema is unsupported");
  match get_or_null "volume" row with
  | JObj raw =>
      sequence ← parse_archive_sequence (get_or_null "sequence" raw) "archive volume sequence";
      archive_generation ← _sha256 (get_or_null "archive_generation" row) "collection archive generation";
      archive_tree_sha256 ← _sha256 (get_or_null "archive_tree_sha256" row)
                              "collection archive volume tree sha256";
      volume ← _volume (JObj raw) sequence;
      new_volume_document {| vd_archive_generation := archive_generation;
                             vd_archive_tree_sha256 := archive_tree_sha256; vd_volume := volume;
                             vd_schema := COLLECTION_ARCHIVE_VOLUME_SCHEMA |}
  | _ => Err (manifest_error (str "collection archive volume is invalid"))
  end.

Definition volume_document_to_mapping (x : CollectionArchiveVolumeDocument) : result json :=
  volume ← volume_to_mapping (vd_volume x);
  Ok (JObj [(str "schema", JStr (vd_schema x)); (str "archive_generation", JStr (vd_archive_generation x));
            (str "archive_tree_sha256", JStr (vd_archive_tree_sha256 x)); (str "volume", volume)]).

Definition volume_document_to_json_bytes (x : CollectionArchiveVolumeDocument) : result pybytes :=
  value ← volume_document_to_mapping x;
  bounded_json_bytes ARCHIVE_VOLUME_DOCUMENT_BYTES_MAX "collection archive volume" value.

Definition volume_document_from_json_bytes : pybytes → result CollectionArchiveVolumeDocument :=
  canonical_from_bytes ARCHIVE_VOLUME_DOCUMENT_BYTES_MAX "collection archive volume" "collection archive volume"
    volume_document_from_mapping volume_document_to_json_bytes.

Record CollectionArchiveTerminalDocument := {
  td_archive_generation : pystr;
  td_archive_tree_sha256 : pystr;
  td_sequence : Z;
  td_kind : pystr;
  td_schema : pystr;
}.

Definition new_terminal (x : CollectionArchiveTerminalDocument) : result CollectionArchiveTerminalDocument :=
  when negb (bool_decide (td_schema x = COLLECTION_ARCHIVE_TERMINAL_SCHEMA))
       || negb (bool_decide (td_kind x = str "terminal"))
    raises manifest_error (str "collection archive terminal schema is unsupported");
  _ ← check_sha256 (td_archive_generation x) "collection archive generation";
  _ ← check_sha256 (td_archive_tree_sha256 x) "collection archive terminal tree sha256";
  _ ← check_positive (td_sequence x) "collection archive terminal sequence";
  _ ← format_archive_sequence (td_sequence x);
  Ok x.

Definition terminal_from_mapping (value : json) : result CollectionArchiveTerminalDocument :=
  row ← _mapping value ["schema"; "archive_generation"; "archive_tree_sha256"; "sequence"; "kind"]
          "collection archive terminal";
  archive_generation ← _sha256 (get_or_null "archive_generation" row) "collection archive generation";
  archive_tree_sha256 ← _sha256 (get_or_null "archive_tree_sha256" row) "collection archive terminal tree sha256";
  sequence ← parse_archive_sequence (get_or_null "sequence" row) "collection archive terminal sequence";
  new_terminal {| td_archive_generation := archive_generation; td_archive_tree_sha256 := archive_tree_sha256;
                  td_sequence := sequence; td_kind := py_str (get_or_null "kind" row);
                  td_schema := py_str (get_or_null "schema" row) |}.

Definition terminal_to_mapping (x : CollectionArchiveTerminalDocument) : result json :=
  sequence ← format_archive_sequence (td_sequence x);
  Ok (JObj [(str "schema", JStr (td_schema x)); (str "archive_generation", JStr (td_archive_generation x));
            (str "archive_tree_sha256", JStr (td_archive_tree_sha256 x)); (str "sequence", JStr sequence);
            (str "kind", JStr (td_kind x))]).

Definition terminal_to_json_bytes (x : CollectionArchiveTerminalDocument) : result pybytes :=
  value ← terminal_to_mapping x;
  bounded_json_bytes ARCHIVE_VOLUME_DOCUMENT_BYTES_MAX "collection archive terminal" value.

Definition terminal_from_json_bytes : pybytes → result CollectionArchiveTerminalDocument :=
  canonical_from_bytes ARCHIVE_VOLUME_DOCUMENT_BYTES_MAX "collection archive terminal" "collection archive terminal"
    terminal_from_mapping terminal_to_json_bytes.

(** ** The ordered commitment *)

Inductive ArchiveSequenceDocument :=
| VolumeDoc (d : CollectionArchiveVolumeDocument)
| TerminalDoc (d : CollectionArchiveTerminalDocument).

Definition document_sequence (d : ArchiveSequenceDocument) : Z :=
  match d with VolumeDoc d => av_sequence (vd_volume d) | TerminalDoc d => td_sequence d end.
Definition is_terminal (d : ArchiveSequenceDocument) : bool :=
  match d with VolumeDoc _ => false | TerminalDoc _ => true end.
Definition document_to_json_bytes (d : ArchiveSequenceDocument) : result pybytes :=
  match d with VolumeDoc d => volume_document_to_json_bytes d | TerminalDoc d => terminal_to_json_bytes d end.

(** The digest is the bytes it was given. *)
Definition update_archive_sequence_commitment (digest : pybytes) (d : ArchiveSequenceDocument) : result pybytes :=
  content ← document_to_json_bytes d;
  sequence ← to_bytes_big 32 (document_sequence d);
  Ok (digest ++ (str "riverhog-archive-volume-sequence/v1" ++ [0]) ++ sequence ++ [0]
      ++ (if is_terminal d then str "terminal" else str "volume") ++ [0] ++ sha256 content).

Definition sequence_commitment_step (st : pybytes * Z * bool) (d : ArchiveSequenceDocument) : result (pybytes * Z * bool) :=
  let '(digest, expected_sequence, terminal) := st in
  when terminal || negb (document_sequence d =? expected_sequence)
    raises manifest_error (str "archive volume sequence is not canonical");
  digest ← update_archive_sequence_commitment digest d;
  Ok (digest, expected_sequence + 1, is_terminal d).

Definition ordered_archive_volume_commitment (documents : list ArchiveSequenceDocument) : result pystr :=
  '(digest, expected_sequence, terminal) ← foldM sequence_commitment_step ([], 0, false) documents;
  when negb terminal || (expected_sequence <? 2)
    raises manifest_error (str "archive volume sequence has no authenticated terminator");
  Ok (bytes_hex (sha256 digest)).

(** ** The root manifest *)

Record ProvenanceRootIdentity := {
  pi_id : pystr;
  pi_kind : pystr;
  pi_path : pystr;
  pi_plaintext_bytes : Z;
  pi_sha256 : pystr;
  pi_stored_bytes : Z;
  pi_stored_sha256 : pystr;
}.

Definition new_provenance_root (x : ProvenanceRootIdentity) : result ProvenanceRootIdentity :=
  when negb (bool_decide (pi_id x = str "provenance-root")) || negb (bool_decide (pi_kind x = str "provenance-root"))
    raises manifest_error (str "archive provenance root identity is invalid");
  path ← check_relative_path (pi_path x) "archive provenance root path";
  when negb (bool_decide (path = str "provenance/root.json.age"))
    raises manifest_error (str "archive provenance root path is not canonical");
  _ ← check_positive (pi_plaintext_bytes x) "archive provenance plaintext bytes";
  _ ← check_sha256 (pi_sha256 x) "archive provenance sha256";
  _ ← check_positive (pi_stored_bytes x) "archive provenance stored bytes";
  _ ← check_sha256 (pi_stored_sha256 x) "archive provenance stored sha256";
  Ok x.

Definition provenance_root_from_mapping (value : json) : result ProvenanceRootIdentity :=
  row ← _mapping value ["id"; "kind"; "path"; "plaintext_bytes"; "sha256"; "stored_bytes"; "stored_sha256"]
          "archive provenance root";
  path ← _relative_path (get_or_null "path" row) "archive provenance root path";
  plaintext_bytes ← _positive_int (get_or_null "plaintext_bytes" row) "archive provenance plaintext bytes";
  sha256 ← _sha256 (get_or_null "sha256" row) "archive provenance sha256";
  stored_bytes ← _positive_int (get_or_null "stored_bytes" row) "archive provenance stored bytes";
  stored_sha256 ← _sha256 (get_or_null "stored_sha256" row) "archive provenance stored sha256";
  new_provenance_root {| pi_id := py_str (get_or_null "id" row); pi_kind := py_str (get_or_null "kind" row);
                         pi_path := path; pi_plaintext_bytes := plaintext_bytes; pi_sha256 := sha256;
                         pi_stored_bytes := stored_bytes; pi_stored_sha256 := stored_sha256 |}.

Definition provenance_root_to_mapping (x : ProvenanceRootIdentity) : json :=
  JObj [(str "id", JStr (pi_id x)); (str "kind", JStr (pi_kind x)); (str "path", JStr (pi_path x));
        (str "plaintext_bytes", JInt (pi_plaintext_bytes x)); (str "sha256", JStr (pi_sha256 x));
        (str "stored_bytes", JInt (pi_stored_bytes x)); (str "stored_sha256", JStr (pi_stored_sha256 x))].

Record ArchiveProvenanceIdentity := { pd_identity : pystr; pd_root : ProvenanceRootIdentity }.

Definition new_provenance (x : ArchiveProvenanceIdentity) : result ArchiveProvenanceIdentity :=
  _ ← check_sha256 (pd_identity x) "archive provenance identity";
  when negb (bool_decide (pi_sha256 (pd_root x) = pd_identity x))
    raises manifest_error (str "archive provenance root identity does not match");
  Ok x.

Definition provenance_from_mapping (value : json) : result ArchiveProvenanceIdentity :=
  row ← _mapping value ["identity"; "root"] "archive provenance";
  identity ← _sha256 (get_or_null "identity" row) "archive provenance identity";
  root ← provenance_root_from_mapping (get_or_null "root" row);
  new_provenance {| pd_identity := identity; pd_root := root |}.

Definition provenance_to_mapping (x : ArchiveProvenanceIdentity) : json :=
  JObj [(str "identity", JStr (pd_identity x)); (str "root", provenance_root_to_mapping (pd_root x))].

Record CollectionArchiveManifest := {
  cm_archive_generation : pystr;
  cm_tree : CollectionTreeIdentity;
  cm_ordered_volume_sha256 : pystr;
  cm_provenance : option ArchiveProvenanceIdentity;
  cm_schema : pystr;
}.

Definition cm_files (x : CollectionArchiveManifest) : Z := ct_files (cm_tree x).
Definition cm_bytes (x : CollectionArchiveManifest) : Z := ct_bytes (cm_tree x).
Definition cm_tree_sha256 (x : CollectionArchiveManifest) : pystr := ct_sha256 (cm_tree x).

Definition new_manifest (x : CollectionArchiveManifest) : result CollectionArchiveManifest :=
  when negb (bool_decide (cm_schema x = COLLECTION_ARCHIVE_MANIFEST_SCHEMA))
    raises manifest_error (str "collection archive manifest schema is unsupported");
  _ ← check_sha256 (cm_archive_generation x) "collection archive generation";
  _ ← check_sha256 (cm_ordered_volume_sha256 x) "ordered archive volume sha256";
  Ok x.

Definition archive_format : list (pystr * json) :=
  [(str "encryption", JStr ARCHIVE_ENCRYPTION_FORMAT); (str "pack_index", JStr PACK_INDEX_FORMAT);
   (str "part_digest", JStr PART_DIGEST_FORMAT); (str "selective_read", JStr SELECTIVE_READ_FORMAT)].

(** [value == {...}] for the format dictionary. *)
Definition is_archive_format (value : json) : bool :=
  match value with
  | JObj o =>
      keys_are o ["encryption"; "pack_index"; "part_digest"; "selective_read"]
      && is_str (get_or_null "encryption" o) ARCHIVE_ENCRYPTION_FORMAT
      && is_str (get_or_null "pack_index" o) PACK_INDEX_FORMAT
      && is_str (get_or_null "part_digest" o) PART_DIGEST_FORMAT
      && is_str (get_or_null "selective_read" o) SELECTIVE_READ_FORMAT
  | _ => false
  end.

Definition manifest_fields : list string := ["schema"; "archive_generation"; "format"; "tree"; "volume_sequence"].

Definition manifest_from_mapping (value : json) : result CollectionArchiveManifest :=
  match value with
  | JObj o =>
      when negb (keys_are o manifest_fields) && negb (keys_are o (manifest_fields ++ ["provenance"%string]))
        raises manifest_error (str "collection archive manifest fields are invalid");
      when negb (is_str (get_or_null "schema" o) COLLECTION_ARCHIVE_MANIFEST_SCHEMA)
        raises manifest_error (str "collection archive manifest schema is unsupported");
      when negb (is_archive_format (get_or_null "format" o))
        raises manifest_error (str "collection archive format is unsupported");
      volume_sequence ← _mapping (get_or_null "volume_sequence" o) ["sha256"] "archive volume sequence";
      provenance ← match dict_get (str "provenance") o with
                   | Some v => x ← provenance_from_mapping v; Ok (Some x)
                   | None => Ok None
                   end;
      archive_generation ← _sha256 (get_or_null "archive_generation" o) "collection archive generation";
      tree ← tree_from_mapping (get_or_null "tree" o);
      ordered_volume_sha256 ← _sha256 (get_or_null "sha256" volume_sequence) "ordered archive volume sha256";
      new_manifest {| cm_archive_generation := archive_generation; cm_tree := tree;
                      cm_ordered_volume_sha256 := ordered_volume_sha256; cm_provenance := provenance;
                      cm_schema := COLLECTION_ARCHIVE_MANIFEST_SCHEMA |}
  | _ => Err (manifest_error (str "collection archive manifest is not a mapping"))
  end.

Definition manifest_to_mapping (x : CollectionArchiveManifest) : json :=
  JObj ([(str "schema", JStr (cm_schema x)); (str "archive_generation", JStr (cm_archive_generation x));
         (str "format", JObj archive_format); (str "tree", tree_to_mapping (cm_tree x));
         (str "volume_sequence", JObj [(str "sha256", JStr (cm_ordered_volume_sha256 x))])]
        ++ match cm_provenance x with
           | Some p => [(str "provenance", provenance_to_mapping p)]
           | None => []
           end).

Definition manifest_to_json_bytes (x : CollectionArchiveManifest) : result pybytes :=
  bounded_json_bytes ARCHIVE_ROOT_DOCUMENT_BYTES_MAX "collection archive root" (manifest_to_mapping x).

Definition manifest_from_json_bytes : pybytes → result CollectionArchiveManifest :=
  canonical_from_bytes ARCHIVE_ROOT_DOCUMENT_BYTES_MAX "collection archive root" "collection archive manifest"
    manifest_from_mapping manifest_to_json_bytes.
End documents.

(** ** Field checks *)

Lemma check_nonnegative_iff z l y : check_nonnegative z l = Ok y ↔ y = z ∧ 0 ≤ z.
Proof. unfold check_nonnegative. destruct (Z.ltb_spec z 0); split; intros Hy; [done|lia|injection Hy; lia|]. by destruct Hy as [-> _]. Qed.

Lemma check_positive_iff z l y : check_positive z l = Ok y ↔ y = z ∧ 1 ≤ z.
Proof.
  unfold check_positive. rewrite bind_Ok. setoid_rewrite check_nonnegative_iff. split.
  - intros (w & [-> Hz] & Hy). destruct (Z.ltb_spec z 1); [done|]. injection Hy. lia.
  - intros [-> Hz]. exists z. split; [lia|]. by rewrite (proj2 (Z.ltb_ge z 1)).
Qed.

Lemma check_sha256_iff s l y : check_sha256 s l = Ok y ↔ y = s ∧ sha256_fullmatch s = true.
Proof. unfold check_sha256. destruct (sha256_fullmatch s); cbn; naive_solver. Qed.

Lemma check_base64_iff s l y : check_base64 s l = Ok y ↔
  y = s ∧ s ≠ [] ∧ ∃ bs, padded_decode s = Some bs ∧ _b64_encode bs = s.
Proof.
  unfold check_base64. destruct (bool_decide_reflect (s = [])); [naive_solver|].
  destruct (padded_decode s) as [bs|]; [|naive_solver].
  destruct (bool_decide_reflect (_b64_encode bs = s)); cbn; naive_solver.
Qed.

(** A canonical relative path: the text of its own parts. *)
Definition relative_path_ok (s : pystr) : Prop :=
  s ≠ [] ∧ chr "\" ∉ s ∧ startswith (str "/") s = false ∧ posix_str s = s ∧
  existsb (λ part, bool_decide (part ∈ [[]; str "."; str ".."])) (posix_parts s) = false.

Lemma check_relative_path_iff s l y : check_relative_path s l = Ok y ↔ y = s ∧ relative_path_ok s.
Proof.
  unfold check_relative_path, relative_path_ok. cbv zeta.
  destruct (bool_decide_reflect (s = [])); [naive_solver|].
  destruct (bool_decide_reflect (chr "\" ∈ s)); [naive_solver|]. cbn [orb].
  destruct (startswith (str "/") s); [naive_solver|]. cbn [orb].
  destruct (existsb _ (posix_parts s)); [naive_solver|].
  destruct (bool_decide_reflect (posix_str s = s)) as [->|]; cbn; naive_solver.
Qed.

Lemma nonnegative_typed z l : _nonnegative_int (JInt z) l = check_nonnegative z l.
Proof. done. Qed.
Lemma positive_typed z l : _positive_int (JInt z) l = check_positive z l.
Proof. done. Qed.
Lemma sha256_typed s l : _sha256 (JStr s) l = check_sha256 s l.
Proof. done. Qed.
Lemma base64_typed s l : _base64 (JStr s) l = check_base64 s l.
Proof. done. Qed.
Lemma relative_path_typed s l : _relative_path (JStr s) l = check_relative_path s l.
Proof. done. Qed.

(** *** Sequences *)

Lemma format_sequence_iff n s : format_archive_sequence n = Ok s ↔ 0 ≤ n < 2 ^ 256 ∧ s = format_padded 16 64 n.
Proof.
  unfold format_archive_sequence. destruct (Z.ltb_spec n 0); [naive_solver lia|].
  destruct (Z.leb_spec (2 ^ 256) n); naive_solver lia.
Qed.

Lemma sequence_fullmatch n : 0 ≤ n < 2 ^ 256 → sha256_fullmatch (format_padded 16 64 n) = true.
Proof.
  intros Hn. pose proof (digits_len 16 n 64 ltac:(lia) ltac:(lia) ltac:(lia) ltac:(lia)) as Hl.
  pose proof (len_nonneg (digits 16 n)) as Hl0.
  unfold sha256_fullmatch. rewrite format_padded_digits, len_fmap, len_app, len_repeatZ by lia.
  replace (64 - len (digits 16 n) + len (digits 16 n) =? 64) with true by lia. cbn [andb].
  apply forallb_forall. intros c Hc. apply list_elem_of_In, list_elem_of_fmap in Hc as (d & -> & Hd).
  assert (0 ≤ d < 16) as Hd16.
  { apply elem_of_app in Hd as [Hd|Hd]; [apply elem_of_replicate in Hd as [-> _]; lia|].
    pose proof (digits_bound 16 n ltac:(lia) ltac:(lia)) as Hb. rewrite Forall_forall in Hb. by apply Hb. }
  clear -Hd16. assert (d ∈ rangeZ 0 16) as Hin by (apply elem_of_seqZ; lia). clear Hd16. revert d Hin.
  apply Forall_forall. apply (bool_decide_unpack _). vm_compute. exact I.
Qed.

Lemma parse_format_sequence n label : 0 ≤ n < 2 ^ 256 →
  parse_archive_sequence (JStr (format_padded 16 64 n)) label = Ok n.
Proof.
  intros Hn. unfold parse_archive_sequence. rewrite sequence_fullmatch by done. cbn [negb]. f_equal.
  apply read_padded. lia.
Qed.

(** Split a constructor's or a parser's success into the facts it checked. *)
Ltac inv_check H :=
  lazymatch type of H with
  | mbind _ _ = Ok _ =>
      let y := fresh "y" in let E := fresh "E" in
      apply bind_Ok in H as (y & E & H);
      first [ apply check_nonnegative_iff in E as [-> E] | apply check_positive_iff in E as [-> E]
            | apply check_sha256_iff in E as [-> E] | apply check_relative_path_iff in E as [-> E]
            | apply check_base64_iff in E as (-> & E) | apply format_sequence_iff in E as [E ->] | idtac ]
  | (if ?b then Err _ else _) = Ok _ => let E := fresh "E" in destruct b eqn:E; [discriminate H|]
  | Ok _ = Ok _ => injection H as H
  end.
Ltac inv_checks H := repeat inv_check H.

Lemma check_nonnegative_ok z l : 0 ≤ z → check_nonnegative z l = Ok z.
Proof. intros Hz. by apply check_nonnegative_iff. Qed.
Lemma check_positive_ok z l : 1 ≤ z → check_positive z l = Ok z.
Proof. intros Hz. by apply check_positive_iff. Qed.
Lemma check_sha256_ok s l : sha256_fullmatch s = true → check_sha256 s l = Ok s.
Proof. intros Hs. by apply check_sha256_iff. Qed.
Lemma check_relative_path_ok s l : relative_path_ok s → check_relative_path s l = Ok s.
Proof. intros Hs. by apply check_relative_path_iff. Qed.
Lemma check_base64_ok s l : (s ≠ [] ∧ ∃ bs, padded_decode s = Some bs ∧ _b64_encode bs = s) →
  check_base64 s l = Ok s.
Proof. intros Hs. by apply check_base64_iff. Qed.
Lemma format_sequence_ok n : 0 ≤ n < 2 ^ 256 → format_archive_sequence n = Ok (format_padded 16 64 n).
Proof. intros Hn. by apply format_sequence_iff. Qed.

(** Run the same checks in a goal. *)
Ltac run_checks :=
  repeat first
    [ rewrite nonnegative_typed | rewrite positive_typed | rewrite sha256_typed | rewrite base64_typed
    | rewrite relative_path_typed
    | rewrite check_nonnegative_ok by (assumption || lia)
    | rewrite check_positive_ok by (assumption || lia)
    | rewrite check_sha256_ok by assumption
    | rewrite check_base64_ok by assumption
    | rewrite check_relative_path_ok by assumption
    | rewrite format_sequence_ok by (assumption || lia)
    | rewrite parse_format_sequence by (assumption || lia)
    | rewrite ok_bind ].

(** Read the fields of a printed object. *)
Ltac open_row :=
  rewrite canon_obj; unfold _mapping;
  rewrite (keys_are_perm _ _ _ (keys_canon _)), keys_are_intro by done; cbn [negb]; rewrite ok_bind;
  unfold get_or_null; rewrite !dict_get_canon by solve_keys; dict_simpl;
  cbn [fmap option_fmap option_map canon from_option id].

(** ** The laws of the parts of a document *)

Lemma tree_law x : new_tree x = Ok x → tree_from_mapping (canon (tree_to_mapping x)) = Ok x.
Proof.
  intros Hnew. pose proof Hnew as H. unfold new_tree in H. inv_checks H.
  unfold tree_from_mapping, tree_to_mapping. open_row. run_checks. by destruct x.
Qed.

Lemma age_state_law x : new_age_state x = Ok x →
  age_state_from_mapping (canon (age_state_to_mapping x)) (ag_plaintext_size x) = Ok x.
Proof.
  intros Hnew. pose proof Hnew as Hx. unfold new_age_state in Hx. inv_checks Hx. bool_prop.
  unfold age_state_from_mapping, age_state_to_mapping. open_row. unfold is_str. rewrite bool_decide_true by done.
  cbn [negb]. run_checks. rewrite Z.eqb_refl. cbn [negb]. rewrite E3, ok_bind. rewrite <- E. by destruct x.
Qed.

Lemma part_law x : new_part x = Ok x →
  part_from_mapping (canon (part_to_mapping x)) (sp_number x) (sp_plaintext_start x) = Ok x.
Proof.
  intros Hnew. pose proof Hnew as Hx. unfold new_part in Hx. inv_checks Hx.
  unfold part_from_mapping, part_to_mapping. open_row. run_checks. rewrite !Z.eqb_refl. cbn [negb orb]. run_checks.
  by destruct x.
Qed.

Lemma validate_cons number start part parts stop : validate_loop number start (part :: parts) = Ok stop →
  sp_number part = number ∧ sp_plaintext_start part = start ∧
  validate_loop (number + 1) (start + sp_plaintext_bytes part) parts = Ok stop.
Proof.
  cbn [validate_loop]. destruct (Z.eqb_spec (sp_number part) number); [|done].
  by destruct (Z.eqb_spec (sp_plaintext_start part) start).
Qed.

Lemma parts_loop_law number start parts stop :
  Forall (λ p, new_part p = Ok p) parts → validate_loop number start parts = Ok stop →
  parts_loop number start (map canon (part_to_mapping <$> parts)) = Ok (parts, stop).
Proof.
  intros Hall. revert number start. induction Hall as [|part parts Hp Hps IH]; intros number start Hv.
  - cbn in *. by injection Hv as <-.
  - apply validate_cons in Hv as (<- & <- & Hv). rewrite fmap_cons. cbn [map parts_loop].
    rewrite part_law, ok_bind, (IH _ _ Hv), ok_bind by done. done.
Qed.

Lemma parts_list l n : l ≠ [] →
  _parts (JList l) n =
  (when ARCHIVE_VOLUME_PARTS_MAX <? len l
     raises manifest_error (str "archive volume parts exceed the construction limit");
   '(parts, stop) ← parts_loop 1 0 l;
   when negb (stop =? n) raises manifest_error (str "archive volume parts do not cover its plaintext");
   Ok parts).
Proof. by destruct l. Qed.

Lemma parts_law parts n : Forall (λ p, new_part p = Ok p) parts → _validate_parts parts n = Ok parts →
  _parts (canon (JList (part_to_mapping <$> parts))) n = Ok parts.
Proof.
  intros Hall Hv. unfold _validate_parts in Hv. inv_checks Hv. bool_prop. cbn [canon].
  rewrite parts_list by by destruct parts.
  assert (len (map canon (part_to_mapping <$> parts)) = len parts) as ->
    by (unfold len; by rewrite length_map, length_fmap).
  match goal with Hlen : (ARCHIVE_VOLUME_PARTS_MAX <? _) = false |- _ => rewrite Hlen end.
  rewrite (parts_loop_law 1 0 parts y Hall) by done. rewrite ok_bind.
  match goal with Hs : (y =? n) = true |- _ => by rewrite Hs end.
Qed.

Lemma placement_law x : new_placement x = Ok x →
  placement_from_mapping (canon (placement_to_mapping x)) (sf_bytes x) = Ok x.
Proof.
  intros Hnew. pose proof Hnew as Hx. unfold new_placement in Hx. inv_checks Hx.
  unfold placement_from_mapping, placement_to_mapping. open_row. run_checks. rewrite E0. run_checks.
  rewrite Z.eqb_refl, E4. cbn [negb orb]. run_checks. by destruct x.
Qed.

Lemma elem_of_join sep c parts : c ∈ join_on sep parts → c = sep ∨ ∃ w, w ∈ parts ∧ c ∈ w.
Proof.
  induction parts as [|w [|w' parts] IH]; intros Hc.
  - by apply not_elem_of_nil in Hc.
  - right. exists w. split; [by left|done].
  - change (join_on sep (w :: w' :: parts)) with (w ++ sep :: join_on sep (w' :: parts)) in Hc.
    apply elem_of_app in Hc as [Hc|Hc]; [right; exists w; split; [by left|done]|].
    apply elem_of_cons in Hc as [->|Hc]; [by left|]. destruct (IH Hc) as [->|(v & Hv & Hcv)]; [by left|].
    right. exists v. split; [by right|done].
Qed.

(** The parser accepts the canonical paths of the planner. *)
Lemma canonical_relative p : canonical_relpath p → relative_path_ok p.
Proof.
  intros (parts & Hne & -> & Hok). pose proof (posix_parts_join parts Hok Hne) as Hparts.
  destruct parts as [|w parts]; [done|]. pose proof Hok as Hok'. apply Forall_cons in Hok' as [(Hw & _ & _ & Hslash & _) _].
  assert (∃ c r, join_on (chr "/") (w :: parts) = c :: r ∧ c ≠ chr "/") as (c & r & Hcr & Hc).
  { destruct w as [|c w]; [done|]. exists c. apply not_elem_of_cons in Hslash as [Hc _].
    destruct parts as [|v parts]; eexists; (split; [reflexivity|]); by intros ->. }
  split_and!.
  - by rewrite Hcr.
  - intros Hin. apply elem_of_join in Hin as [Hin|(v & Hv & Hin)]; [discriminate Hin|].
    rewrite Forall_forall in Hok. by destruct (Hok v Hv) as (_ & _ & _ & _ & Hb).
  - rewrite Hcr. change (str "/") with [chr "/"]. cbn [startswith]. by rewrite (proj2 (Z.eqb_neq _ _)).
  - unfold posix_str. by rewrite Hparts.
  - rewrite Hparts. apply not_true_is_false. intros He. apply existsb_exists in He as (v & Hv & He).
    apply list_elem_of_In in Hv. rewrite Forall_forall in Hok. destruct (Hok v Hv) as (H1 & H2 & H3 & _).
    apply bool_decide_eq_true in He. rewrite !elem_of_cons, elem_of_nil in He. naive_solver.
Qed.

(** *** Volume identities and paths *)

Lemma sequence_chars n : 0 ≤ n → Forall (λ c, 48 ≤ c ≤ 57 ∨ 97 ≤ c ≤ 102) (format_padded 16 64 n).
Proof.
  intros Hn. rewrite format_padded_digits, Forall_fmap. eapply (Forall_impl (λ d, 0 ≤ d < 16)).
  - apply Forall_app. split; [by apply Forall_replicate|]. eapply Forall_impl; [apply digits_bound; lia|]. simpl. lia.
  - intros d Hd. cbn. unfold digit_char. case_match; lia.
Qed.

Lemma volume_path_ok prefix suffix n : 0 ≤ n →
  forallb (λ c, negb (c =? 47) && negb (c =? 92)) (prefix ++ suffix) = true → 3 ≤ len prefix →
  relative_path_ok (str "volumes/" ++ (prefix ++ format_padded 16 64 n) ++ suffix).
Proof.
  intros Hn Hc Hlen. apply canonical_relative.
  exists [str "volumes"; (prefix ++ format_padded 16 64 n) ++ suffix]. split; [done|]. split; [done|].
  assert (∀ c, c ∈ (prefix ++ format_padded 16 64 n) ++ suffix → c ≠ 47 ∧ c ≠ 92) as Hchars.
  { intros c Hin. rewrite !elem_of_app in Hin. rewrite forallb_forall in Hc. setoid_rewrite <- list_elem_of_In in Hc.
    setoid_rewrite elem_of_app in Hc. pose proof (sequence_chars n Hn) as Hs. rewrite Forall_forall in Hs.
    destruct Hin as [[Hin|Hin]|Hin].
    - specialize (Hc c (or_introl Hin)). lia.
    - specialize (Hs c Hin). cbn in Hs. lia.
    - specialize (Hc c (or_intror Hin)). lia. }
  assert (∀ s : pystr, len s ≤ 2 → (prefix ++ format_padded 16 64 n) ++ suffix ≠ s) as Hdiff.
  { intros s Hs He. apply (f_equal len) in He. rewrite !len_app in He.
    pose proof (len_nonneg (format_padded 16 64 n)). pose proof (len_nonneg suffix). lia. }
  constructor; [|constructor; [|constructor]].
  - apply (bool_decide_unpack _). vm_compute. exact I.
  - split_and!; try (apply Hdiff; vm_compute; discriminate); intros Hin; by destruct (Hchars _ Hin).
Qed.

Lemma volume_id_ok prefix n : 0 ≤ n < 2 ^ 256 → prefix = str "pack-" ∨ prefix = str "segment-" →
  volume_id_fullmatch (prefix ++ format_padded 16 64 n) = true.
Proof.
  intros Hn Hp. pose proof (sequence_fullmatch n Hn) as Hs. unfold volume_id_fullmatch.
  destruct Hp as [-> | ->].
  - change (drop 5 (str "pack-" ++ ?x)) with x. by rewrite startswith_app, Hs.
  - change (drop 8 (str "segment-" ++ ?x)) with x. rewrite startswith_app, Hs. apply orb_true_r.
Qed.

(** *** Volumes *)

Definition volume_valid (v : ArchiveVolume) : Prop :=
  match v with
  | PackV x => new_pack_volume x = Ok x ∧ new_age_state (pk_age_state x) = Ok (pk_age_state x) ∧
               Forall (λ p, new_part p = Ok p) (pk_parts x)
  | SegmentV x => new_segment_volume x = Ok x ∧ new_age_state (sg_age_state x) = Ok (sg_age_state x) ∧
                  Forall (λ p, new_part p = Ok p) (sg_parts x) ∧ new_placement (sg_file x) = Ok (sg_file x)
  end.

Lemma validate_parts_same parts n y : _validate_parts parts n = Ok y → y = parts.
Proof. unfold _validate_parts. intros Hv. inv_checks Hv. done. Qed.

Definition pack_object (x : PackArchiveVolume) : list (pystr * json) :=
  [(str "id", JStr (pk_id x)); (str "sequence", JStr (format_padded 16 64 (pk_sequence x)));
   (str "kind", JStr (pk_kind x)); (str "path", JStr (pk_path x)); (str "files", JInt (pk_files x));
   (str "source_bytes", JInt (pk_source_bytes x)); (str "plaintext_bytes", JInt (pk_plaintext_bytes x));
   (str "age_state", age_state_to_mapping (pk_age_state x));
   (str "index_sha256", JStr (pk_index_sha256 x)); (str "plan_sha256", JStr (pk_plan_sha256 x));
   (str "parts", JList (part_to_mapping <$> pk_parts x))].

Definition segment_object (x : SegmentArchiveVolume) : list (pystr * json) :=
  [(str "id", JStr (sg_id x)); (str "sequence", JStr (format_padded 16 64 (sg_sequence x)));
   (str "kind", JStr (sg_kind x)); (str "path", JStr (sg_path x));
   (str "plaintext_bytes", JInt (sg_plaintext_bytes x));
   (str "age_state", age_state_to_mapping (sg_age_state x)); (str "file", placement_to_mapping (sg_file x));
   (str "parts", JList (part_to_mapping <$> sg_parts x))].

Definition volume_object (v : ArchiveVolume) : list (pystr * json) :=
  match v with PackV x => pack_object x | SegmentV x => segment_object x end.

Lemma pack_law x : volume_valid (PackV x) →
  0 ≤ pk_sequence x < 2 ^ 256 ∧ pack_to_mapping x = Ok (JObj (pack_object x)) ∧
  _volume (canon (JObj (pack_object x))) (pk_sequence x) = Ok (PackV x).
Proof.
  intros (Hnew & Hage & Hparts). pose proof Hnew as Hx. unfold new_pack_volume in Hx. inv_checks Hx. bool_prop.
  pose proof (validate_parts_same _ _ _ E11) as ->. apply Z.eqb_eq in E8.
  assert (relative_path_ok (pk_path x)) as Hpath.
  { rewrite E3, E2. apply volume_path_ok; [lia|done|done]. }
  split; [done|]. split; [unfold pack_to_mapping; by rewrite format_sequence_ok by done|].
  unfold pack_object. rewrite canon_obj. unfold _volume. cbv zeta.
  match goal with |- context [get_or_null "kind" ?o] =>
    assert (get_or_null "kind" o = JStr (pk_kind x)) as Hkind
      by (unfold get_or_null; rewrite dict_get_canon by solve_keys; by dict_simpl) end.
  rewrite Hkind. unfold is_str. rewrite E0, bool_decide_true by done. rewrite <- E0. unfold _mapping.
  rewrite (keys_are_perm _ _ _ (keys_canon _)), keys_are_intro by done. cbn [negb]. rewrite ok_bind.
  unfold get_or_null. rewrite !dict_get_canon by solve_keys. dict_simpl.
  cbn [fmap option_fmap option_map canon from_option id default]. rewrite ok_bind. run_checks.
  rewrite Z.eqb_refl, E2, volume_id_ok by (done || by left). cbn [negb orb].
  rewrite <- E2. rewrite bool_decide_true by done. cbn [negb]. run_checks.
  rewrite <- E3, bool_decide_true by done. cbn [negb]. run_checks.
  rewrite <- E8, age_state_law, E8, ok_bind by done.
  change (JList (map canon (part_to_mapping <$> pk_parts x))) with (canon (JList (part_to_mapping <$> pk_parts x))).
  rewrite parts_law by done. unfold _bounded_pack_files. run_checks. rewrite E5. run_checks.
  destruct x. cbn in *. by rewrite Hnew.
Qed.

Lemma segment_law x : volume_valid (SegmentV x) →
  0 ≤ sg_sequence x < 2 ^ 256 ∧ segment_to_mapping x = Ok (JObj (segment_object x)) ∧
  _volume (canon (JObj (segment_object x))) (sg_sequence x) = Ok (SegmentV x).
Proof.
  intros (Hnew & Hage & Hparts & Hfile). pose proof Hnew as Hx. unfold new_segment_volume in Hx. inv_checks Hx.
  bool_prop. pose proof (validate_parts_same _ _ _ E7) as ->. apply Z.eqb_eq in E5, E6.
  assert (relative_path_ok (sg_path x)) as Hpath.
  { rewrite E3, E2. apply volume_path_ok; [lia|done|done]. }
  split; [done|]. split; [unfold segment_to_mapping; by rewrite format_sequence_ok by done|].
  unfold segment_object. rewrite canon_obj. unfold _volume. cbv zeta.
  match goal with |- context [get_or_null "kind" ?o] =>
    assert (get_or_null "kind" o = JStr (sg_kind x)) as Hkind
      by (unfold get_or_null; rewrite dict_get_canon by solve_keys; by dict_simpl) end.
  rewrite Hkind. unfold is_str. rewrite E0. rewrite (bool_decide_false (str "segment" = str "pack")) by done.
  rewrite bool_decide_true by done. rewrite <- E0. unfold _mapping.
  rewrite (keys_are_perm _ _ _ (keys_canon _)), keys_are_intro by done. cbn [negb]. rewrite ok_bind.
  unfold get_or_null. rewrite !dict_get_canon by solve_keys. dict_simpl.
  cbn [fmap option_fmap option_map canon from_option id default]. rewrite ok_bind. run_checks.
  rewrite Z.eqb_refl, E2, volume_id_ok by (done || by right). cbn [negb orb].
  rewrite <- E2. rewrite bool_decide_true by done. cbn [negb]. run_checks.
  rewrite <- E3, bool_decide_true by done. cbn [negb]. run_checks.
  rewrite <- E5, age_state_law, E5, ok_bind by done.
  change (JList (map canon (part_to_mapping <$> sg_parts x))) with (canon (JList (part_to_mapping <$> sg_parts x))).
  rewrite parts_law by done. rewrite ok_bind. rewrite <- E6, placement_law, E6, ok_bind by done.
  destruct x. cbn in *. by rewrite Hnew.
Qed.

Lemma volume_law v : volume_valid v →
  0 ≤ av_sequence v < 2 ^ 256 ∧ volume_to_mapping v = Ok (JObj (volume_object v)) ∧
  _volume (canon (JObj (volume_object v))) (av_sequence v) = Ok v.
Proof. destruct v; [apply pack_law|apply segment_law]. Qed.

(** ** Text of the fields *)

Lemma base64_text s : (s ≠ [] ∧ ∃ bs, padded_decode s = Some bs ∧ _b64_encode bs = s) → text_ok s.
Proof.
  intros (_ & bs & Hd & <-). apply ascii_text, b64_encode_ascii. by eapply b64decode_bytes.
Qed.

Lemma sequence_text n : 0 ≤ n < 2 ^ 256 → text_ok (format_padded 16 64 n).
Proof. intros Hn. by apply sha256_fullmatch_text, sequence_fullmatch. Qed.

Lemma json_wf_str s : text_ok s → json_wf (JStr s).
Proof. done. Qed.

Lemma text_app s t : text_ok s → text_ok t → text_ok (s ++ t).
Proof. by apply Forall_app_2. Qed.

Create HintDb field_text.
#[local] Hint Resolve json_wf_str text_app sha256_fullmatch_text base64_text sequence_text str_text : field_text.

Lemma tree_wf x : new_tree x = Ok x → json_wf (tree_to_mapping x).
Proof. intros Hx. unfold new_tree in Hx. inv_checks Hx. wf_obj. auto with field_text. Qed.

Lemma age_state_wf x : new_age_state x = Ok x → json_wf (age_state_to_mapping x).
Proof.
  intros Hx. unfold new_age_state in Hx. inv_checks Hx. bool_prop. wf_obj; [rewrite E; apply str_text|by apply base64_text..].
Qed.

Lemma part_wf x : new_part x = Ok x → json_wf (part_to_mapping x).
Proof. intros Hx. unfold new_part in Hx. inv_checks Hx. wf_obj; auto with field_text. Qed.

Lemma parts_wf parts : Forall (λ p, new_part p = Ok p) parts → json_wf (JList (part_to_mapping <$> parts)).
Proof. intros Hp. apply json_wf_list, Forall_fmap. eapply Forall_impl; [done|]. apply part_wf. Qed.

Lemma placement_wf x : new_placement x = Ok x → text_ok (sf_path x) → json_wf (placement_to_mapping x).
Proof. intros Hx Ht. unfold new_placement in Hx. inv_checks Hx. wf_obj; auto with field_text. Qed.

(** The one field whose text the documents do not restrict is the path of a
    segmented file: [json.loads] also produces unpaired surrogates. *)
Definition volume_text (v : ArchiveVolume) : Prop :=
  match v with PackV _ => True | SegmentV x => text_ok (sf_path (sg_file x)) end.

Lemma volume_wf v : volume_valid v → volume_text v → json_wf (JObj (volume_object v)).
Proof.
  destruct v as [x|x]; intros Hv Ht; cbn [volume_object].
  - destruct Hv as (Hx & Ha & Hp). unfold new_pack_volume in Hx. inv_checks Hx. bool_prop. unfold pack_object.
    wf_obj; try (auto with field_text; fail).
    + rewrite E2. auto with field_text.
    + rewrite E0. apply str_text.
    + rewrite E3, E2. auto 8 with field_text.
    + by apply age_state_wf.
    + by apply parts_wf.
  - destruct Hv as (Hx & Ha & Hp & Hf). unfold new_segment_volume in Hx. inv_checks Hx. bool_prop. unfold segment_object.
    wf_obj; try (auto with field_text; fail).
    + rewrite E2. auto with field_text.
    + rewrite E0. apply str_text.
    + rewrite E3, E2. auto 8 with field_text.
    + by apply age_state_wf.
    + by apply placement_wf.
    + by apply parts_wf.
Qed.

(** ** What a parser accepts satisfies its constructor *)

Lemma tree_sound v x : tree_from_mapping v = Ok x → new_tree x = Ok x.
Proof. unfold tree_from_mapping. intros Hv. inv_checks Hv. pose proof Hv as Hn. unfold new_tree in Hn. inv_checks Hn. by subst. Qed.

Lemma age_state_sound v n x : age_state_from_mapping v n = Ok x → new_age_state x = Ok x.
Proof.
  unfold age_state_from_mapping. intros Hv. inv_checks Hv. pose proof Hv as Hn. unfold new_age_state in Hn.
  inv_checks Hn. by subst.
Qed.

Lemma part_sound v i s x : part_from_mapping v i s = Ok x → new_part x = Ok x.
Proof.
  unfold part_from_mapping. intros Hv. inv_checks Hv. pose proof Hv as Hn. unfold new_part in Hn.
  inv_checks Hn. by subst.
Qed.

Lemma parts_loop_sound l : ∀ i s parts stop, parts_loop i s l = Ok (parts, stop) → Forall (λ p, new_part p = Ok p) parts.
Proof.
  induction l as [|v l IH]; cbn [parts_loop]; intros i s parts stop Hl; [by injection Hl as <- <-|].
  apply bind_Ok in Hl as (p & Hp & Hl). apply bind_Ok in Hl as ([ps e] & Hps & Hl). injection Hl as <- <-.
  constructor; [by eapply part_sound|by eapply IH].
Qed.

Lemma parts_sound v n parts : _parts v n = Ok parts → Forall (λ p, new_part p = Ok p) parts.
Proof.
  unfold _parts. destruct v as [| | | | |[|w l]|]; try done. intros Hv. inv_check Hv.
  apply bind_Ok in Hv as ([ps e] & Hps & Hv). inv_checks Hv. subst. by eapply parts_loop_sound.
Qed.

Lemma placement_sound v n x : placement_from_mapping v n = Ok x → new_placement x = Ok x.
Proof.
  unfold placement_from_mapping. intros Hv. inv_checks Hv. pose proof Hv as Hn. unfold new_placement in Hn.
  inv_checks Hn. by subst.
Qed.

Lemma volume_sound v n x : _volume v n = Ok x → volume_valid x.
Proof.
  unfold _volume. destruct v as [| | | | | |o]; try done. cbv zeta. intros Hv. inv_checks Hv.
  destruct (get_or_null "id" _) as [| | | |vid| |]; try done. inv_checks Hv.
  destruct (is_str (get_or_null "kind" o) (str "pack")).
  - inv_checks Hv. subst x. match goal with Hn : new_pack_volume _ = Ok ?v |- _ => rename Hn into Hnew end.
    pose proof Hnew as Hn. unfold new_pack_volume in Hn. inv_checks Hn. subst. split_and!; cbn [pk_age_state pk_parts];
      [done|by eapply age_state_sound|by eapply parts_sound].
  - inv_checks Hv. subst x. match goal with Hn : new_segment_volume _ = Ok ?v |- _ => rename Hn into Hnew end.
    pose proof Hnew as Hn. unfold new_segment_volume in Hn. inv_checks Hn. subst.
    split_and!; cbn [sg_age_state sg_parts sg_file];
      [done|by eapply age_state_sound|by eapply parts_sound|by eapply placement_sound].
Qed.

(** ** Volume documents *)

Section documents.
Context `{PyEnv}.

Definition volume_document_valid (d : CollectionArchiveVolumeDocument) : Prop :=
  new_volume_document d = Ok d ∧ volume_valid (vd_volume d).

Definition volume_document_payload (d : CollectionArchiveVolumeDocument) : json :=
  JObj [(str "schema", JStr (vd_schema d)); (str "archive_generation", JStr (vd_archive_generation d));
        (str "archive_tree_sha256", JStr (vd_archive_tree_sha256 d)); (str "volume", JObj (volume_object (vd_volume d)))].

Lemma volume_document_printed d : volume_document_valid d →
  volume_document_to_mapping d = Ok (volume_document_payload d).
Proof. intros [_ Hv]. unfold volume_document_to_mapping. by rewrite (proj1 (proj2 (volume_law _ Hv))). Qed.

Lemma volume_document_wf d : volume_document_valid d → volume_text (vd_volume d) →
  json_wf (volume_document_payload d).
Proof.
  intros [Hd Hv] Ht. unfold new_volume_document in Hd. inv_checks Hd. bool_prop. unfold volume_document_payload.
  wf_obj; try (by apply sha256_fullmatch_text); [rewrite E; apply str_text|by apply volume_wf].
Qed.

Lemma volume_sequence_field v :
  get_or_null "sequence" (map (λ kv, (kv.1, canon kv.2)) (sorted_by fst (volume_object v))) =
  JStr (format_padded 16 64 (av_sequence v)).
Proof. unfold get_or_null. destruct v; cbn [volume_object]; rewrite dict_get_canon by solve_keys; unfold pack_object, segment_object; by dict_simpl. Qed.

Lemma volume_document_law d : volume_document_valid d →
  volume_document_from_mapping (canon (volume_document_payload d)) = Ok d.
Proof.
  intros [Hd Hv]. pose proof Hd as Hx. unfold new_volume_document in Hx. inv_checks Hx. bool_prop.
  destruct (volume_law _ Hv) as (Hseq & _ & Hvol).
  unfold volume_document_from_mapping, volume_document_payload. rewrite canon_obj. unfold _mapping.
  rewrite (keys_are_perm _ _ _ (keys_canon _)), keys_are_intro by done. cbn [negb]. rewrite ok_bind.
  match goal with |- context [get_or_null "volume" ?o] =>
    assert (get_or_null "volume" o = canon (JObj (volume_object (vd_volume d)))) as ->
      by (unfold get_or_null; rewrite dict_get_canon by solve_keys; by dict_simpl) end.
  rewrite canon_obj in Hvol |- *. rewrite volume_sequence_field.
  unfold get_or_null. rewrite !dict_get_canon by solve_keys. dict_simpl.
  cbn [fmap option_fmap option_map canon from_option id default]. unfold is_str. rewrite bool_decide_true by done. cbn [negb]. run_checks. rewrite Hvol, ok_bind.
  rewrite <- E. by destruct d.
Qed.

Lemma volume_document_sound v d : volume_document_from_mapping v = Ok d → volume_document_valid d.
Proof.
  unfold volume_document_from_mapping. intros Hv. inv_checks Hv.
  destruct (get_or_null "volume" _) as [| | | | | |raw]; try done. inv_checks Hv.
  match goal with Hvol : _volume _ _ = Ok _ |- _ => apply volume_sound in Hvol as Hok end.
  pose proof Hv as Hn. unfold new_volume_document in Hn. inv_checks Hn. by subst.
Qed.
(** ** Terminal documents *)

Definition terminal_valid (d : CollectionArchiveTerminalDocument) : Prop := new_terminal d = Ok d.

Definition terminal_payload (d : CollectionArchiveTerminalDocument) : json :=
  JObj [(str "schema", JStr (td_schema d)); (str "archive_generation", JStr (td_archive_generation d));
        (str "archive_tree_sha256", JStr (td_archive_tree_sha256 d));
        (str "sequence", JStr (format_padded 16 64 (td_sequence d))); (str "kind", JStr (td_kind d))].

Lemma terminal_printed d : terminal_valid d → terminal_to_mapping d = Ok (terminal_payload d).
Proof.
  intros Hd. unfold terminal_valid, new_terminal in Hd. inv_checks Hd. unfold terminal_to_mapping.
  by rewrite format_sequence_ok.
Qed.

Lemma terminal_wf d : terminal_valid d → json_wf (terminal_payload d).
Proof.
  intros Hd. unfold terminal_valid, new_terminal in Hd. inv_checks Hd. bool_prop. unfold terminal_payload.
  match goal with Hs : td_schema d = _, Hk : td_kind d = _ |- _ => rewrite Hs, Hk end.
  wf_obj; [by apply sha256_fullmatch_text..|by apply sequence_text].
Qed.

Lemma terminal_law d : terminal_valid d → terminal_from_mapping (canon (terminal_payload d)) = Ok d.
Proof.
  intros Hd. pose proof Hd as Hx. unfold terminal_valid, new_terminal in Hx. inv_checks Hx.
  unfold terminal_from_mapping, terminal_payload. open_row. run_checks. cbn [py_str]. by destruct d.
Qed.

Lemma terminal_sound v d : terminal_from_mapping v = Ok d → terminal_valid d.
Proof.
  unfold terminal_from_mapping, terminal_valid. intros Hv. inv_checks Hv. pose proof Hv as Hn. unfold new_terminal in Hn.
  inv_checks Hn. by subst.
Qed.

(** ** The root manifest *)

Definition provenance_valid (x : ArchiveProvenanceIdentity) : Prop :=
  new_provenance x = Ok x ∧ new_provenance_root (pd_root x) = Ok (pd_root x).

Lemma provenance_root_wf x : new_provenance_root x = Ok x → json_wf (provenance_root_to_mapping x).
Proof.
  intros Hx. unfold new_provenance_root in Hx. inv_checks Hx. bool_prop. unfold provenance_root_to_mapping.
  repeat match goal with Hs : _ x = str _ |- _ => rewrite Hs; clear Hs end.
  wf_obj; by apply sha256_fullmatch_text.
Qed.

Lemma provenance_wf x : provenance_valid x → json_wf (provenance_to_mapping x).
Proof.
  intros [Hx Hr]. unfold new_provenance in Hx. inv_checks Hx.
  wf_obj; [by apply sha256_fullmatch_text|by apply provenance_root_wf].
Qed.

Lemma provenance_root_law x : new_provenance_root x = Ok x →
  provenance_root_from_mapping (canon (provenance_root_to_mapping x)) = Ok x.
Proof.
  intros Hd. pose proof Hd as Hx. unfold new_provenance_root in Hx. inv_checks Hx.
  unfold provenance_root_from_mapping, provenance_root_to_mapping. open_row. run_checks. cbn [py_str]. by destruct x.
Qed.

Lemma provenance_law x : provenance_valid x → provenance_from_mapping (canon (provenance_to_mapping x)) = Ok x.
Proof.
  intros [Hd Hr]. pose proof Hd as Hx. unfold new_provenance in Hx. inv_checks Hx.
  unfold provenance_from_mapping, provenance_to_mapping. rewrite canon_obj. unfold _mapping.
  rewrite (keys_are_perm _ _ _ (keys_canon _)), keys_are_intro by done. cbn [negb]. rewrite ok_bind.
  unfold get_or_null. rewrite !dict_get_canon by solve_keys. dict_simpl.
  cbn [fmap option_fmap option_map from_option id]. rewrite provenance_root_law by done.
  cbn [canon]. run_checks. by destruct x.
Qed.

Lemma provenance_sound v x : provenance_from_mapping v = Ok x → provenance_valid x.
Proof.
  unfold provenance_from_mapping. intros Hv. inv_checks Hv. 
  match goal with Hr : provenance_root_from_mapping _ = Ok _ |- _ => unfold provenance_root_from_mapping in Hr; inv_checks Hr; rename Hr into Hroot end.
  pose proof Hv as Hn. unfold new_provenance in Hn. inv_checks Hn. subst.
  pose proof Hroot as Hn. unfold new_provenance_root in Hn. inv_checks Hn. by subst.
Qed.

Definition manifest_valid (d : CollectionArchiveManifest) : Prop :=
  new_manifest d = Ok d ∧ new_tree (cm_tree d) = Ok (cm_tree d) ∧
  match cm_provenance d with Some p => provenance_valid p | None => True end.

Lemma manifest_wf d : manifest_valid d → json_wf (manifest_to_mapping d).
Proof.
  intros (Hd & Ht & Hp). unfold new_manifest in Hd. inv_checks Hd. bool_prop. unfold manifest_to_mapping. rewrite E.
  destruct (cm_provenance d) as [p|]; cbn [app]; wf_obj; try (by apply sha256_fullmatch_text); try (by apply tree_wf);
    try (by apply provenance_wf); wf_obj; by apply sha256_fullmatch_text.
Qed.

Lemma archive_format_canon : is_archive_format (canon (JObj archive_format)) = true.
Proof. by vm_compute. Qed.

Lemma manifest_fields_law d o : manifest_valid d → manifest_to_mapping d = JObj o → NoDup (keys o) →
    keys_are o manifest_fields || keys_are o (manifest_fields ++ ["provenance"%string]) = true →
    dict_get (str "schema") o = Some (JStr (cm_schema d)) →
    dict_get (str "archive_generation") o = Some (JStr (cm_archive_generation d)) →
    dict_get (str "format") o = Some (JObj archive_format) →
    dict_get (str "tree") o = Some (tree_to_mapping (cm_tree d)) →
    dict_get (str "volume_sequence") o = Some (JObj [(str "sha256", JStr (cm_ordered_volume_sha256 d))]) →
    dict_get (str "provenance") o = provenance_to_mapping <$> cm_provenance d →
    manifest_from_mapping (canon (manifest_to_mapping d)) = Ok d.
Proof.
  intros Hvalid -> Hnd Hkeys H1 H2 H3 H4 H5 H6. destruct Hvalid as (Hd & Ht & Hp).
  pose proof Hd as Hx. unfold new_manifest in Hx. inv_checks Hx. bool_prop. rewrite canon_obj. unfold manifest_from_mapping, get_or_null.
  rewrite !(keys_are_perm _ _ _ (keys_canon o)), <- negb_orb, Hkeys. cbn [negb].
  rewrite !dict_get_canon by done. rewrite H1, H2, H3, H4, H5, H6.
  cbn [fmap option_fmap option_map from_option id]. rewrite archive_format_canon, tree_law by done.
  cbn [canon]. unfold is_str. rewrite bool_decide_true by done. cbn [negb]. unfold _mapping at 1.
  rewrite keys_are_intro by done. cbn [negb]. rewrite ok_bind. 
  assert (match canon <$> (provenance_to_mapping <$> cm_provenance d) with
          | Some v => x ← provenance_from_mapping v; Ok (Some x)
          | None => Ok None
          end = Ok (cm_provenance d)) as ->.
  { destruct (cm_provenance d) as [p|]; [|done]. cbn [fmap option_fmap option_map]. by rewrite provenance_law. }
  run_checks. change (sorted_by fst (map ?f [?x])) with [f x]. cbn [fst snd canon]. dict_simpl.
  cbn [from_option id]. run_checks.
  rewrite <- E. by destruct d.
Qed.

Lemma manifest_law d : manifest_valid d → manifest_from_mapping (canon (manifest_to_mapping d)) = Ok d.
Proof.
  intros Hd. pose proof (λ o, manifest_fields_law d o Hd) as Hgen. clear Hd.
  unfold manifest_to_mapping in *. destruct (cm_provenance d) as [p|] eqn:Hprov; cbn [app] in *.
  - eapply Hgen; [done|solve_keys|rewrite orb_true_iff; right; by apply keys_are_intro|by dict_simpl..].
  - eapply Hgen; [done|solve_keys|rewrite orb_true_iff; left; by apply keys_are_intro|by dict_simpl..].
Qed.

Lemma manifest_sound v d : manifest_from_mapping v = Ok d → manifest_valid d.
Proof.
  unfold manifest_from_mapping. destruct v as [| | | | | |o]; try done. intros Hv. inv_checks Hv.
  match goal with Ht : tree_from_mapping _ = Ok _ |- _ => apply tree_sound in Ht as Htree end.
  match goal with Hp : match dict_get _ _ with _ => _ end = Ok ?p |- _ =>
    assert (match p with Some p => provenance_valid p | None => True end) as Hprov end.
  { destruct (dict_get _ _) as [w|]; [|by simplify_eq]. inv_checks E3. subst. by eapply provenance_sound. }
  pose proof Hv as Hn. unfold new_manifest in Hn. inv_checks Hn. by subst.
Qed.
End documents.

Section reading.
Context `{PyEnv} {T : Type}.
Context (limit : Z) (bound what : string) (parse : json → result T) (print : T → result pybytes).

(** What is read is printed as it was. *)
Lemma canonical_read_printed bs d : bytes_ok bs → canonical_from_bytes limit bound what parse print bs = Ok d →
  (∃ v, parse v = Ok d) ∧ print d = Ok bs ∧ len bs ≤ limit.
Proof.
  intros Hb Hd. unfold canonical_from_bytes in Hd. destruct (Z.ltb_spec limit (len bs)); [done|].
  destruct (try_except _ _ _) as [[text value]|] eqn:Ht; [|done]. cbn [mbind result_bind] in Hd.
  apply bind_Ok in Hd as (d' & Hparse & Hd). apply bind_Ok in Hd as (printed & Hprint & Hd).
  apply bind_Ok in Hd as (again & Hagain & Hd). 
  destruct (bool_decide_reflect (printed = again)) as [->|]; [|done]. cbn in Hd. injection Hd as ->.
  split; [by eexists|]. split; [|done]. rewrite Hprint. f_equal.
  destruct (utf8_decode bs) as [text'|e] eqn:Hdec.
  - cbn [mbind result_bind] in Ht. destruct (loads text') as [v|e]; cbn in Ht.
    + injection Ht as -> ->. rewrite (utf8_decode_encode _ _ Hb Hdec) in Hagain. by injection Hagain.
    + destruct e as [k m]. cbn in Ht. by destruct (is_json_error k).
  - cbn in Ht. destruct e as [k m]. cbn in Ht. by destruct (is_json_error k).
Qed.

(** What is printed is read as it was. *)
Lemma canonical_print_read label payload d bs :
  json_wf payload → parse (canon payload) = Ok d → print d = bounded_json_bytes limit label payload →
  print d = Ok bs → canonical_from_bytes limit bound what parse print bs = Ok d.
Proof.
  intros Hwf Hparse Hprint Hbs. pose proof Hbs as Hb. rewrite Hprint in Hb. unfold bounded_json_bytes, _canonical_json_bytes in Hb.
  apply bind_Ok in Hb as (content & Henc & Hb). destruct (Z.ltb_spec limit (len content)); [done|]. injection Hb as ->.
  unfold canonical_from_bytes. rewrite (proj2 (Z.ltb_ge _ _)) by done.
  pose proof (dumps_text true payload Hwf) as Ht.
  rewrite (utf8_roundtrip _ _ (Forall_impl _ _ _ Ht (λ c Hc, proj1 Hc)) Henc), ok_bind, loads_dumps by done.
  cbn [mbind result_bind try_except]. rewrite Hparse, ok_bind, Hbs, ok_bind, Henc, ok_bind, bool_decide_true by done. done.
Qed.
End reading.

Section commitment.
Context `{PyEnv}.

(** What one document adds to the commitment, before the digest of its text. *)
Definition frame_head (sequence : Z) (terminal : bool) : pybytes :=
  (str "riverhog-archive-volume-sequence/v1" ++ [0]) ++ be_bytes 32 sequence ++ [0]
  ++ (if terminal then str "terminal" else str "volume") ++ [0].

Definition framed (d : ArchiveSequenceDocument) (content : pybytes) : pybytes :=
  frame_head (document_sequence d) (is_terminal d) ++ sha256 content.

Lemma document_sequence_range d content : document_to_json_bytes d = Ok content → 0 ≤ document_sequence d < 2 ^ 256.
Proof.
  destruct d as [d|d]; cbn [document_to_json_bytes document_sequence].
  - unfold volume_document_to_json_bytes, volume_document_to_mapping. intros Hc.
    apply bind_Ok in Hc as (j & Hj & _). apply bind_Ok in Hj as (w & Hw & _).
    destruct (vd_volume d) as [v|v]; cbn [volume_to_mapping av_sequence] in *;
      [unfold pack_to_mapping in Hw|unfold segment_to_mapping in Hw]; by inv_checks Hw.
  - unfold terminal_to_json_bytes, terminal_to_mapping. intros Hc.
    apply bind_Ok in Hc as (j & Hj & _). by inv_checks Hj.
Qed.

Lemma update_frames digest d digest' : update_archive_sequence_commitment digest d = Ok digest' ↔
  ∃ content, document_to_json_bytes d = Ok content ∧ digest' = digest ++ framed d content.
Proof.
  unfold update_archive_sequence_commitment, framed, frame_head. rewrite bind_Ok. split.
  - intros (content & Hc & Hd). exists content. split; [done|]. unfold to_bytes_big in Hd.
    pose proof (document_sequence_range _ _ Hc).
    rewrite (proj2 (Z.ltb_ge _ 0)), (proj2 (Z.leb_gt _ _)) in Hd by lia. cbn [orb mbind result_bind] in Hd.
    injection Hd as <-. by rewrite <- !app_assoc.
  - intros (content & Hc & ->). exists content. split; [done|]. unfold to_bytes_big.
    pose proof (document_sequence_range _ _ Hc).
    rewrite (proj2 (Z.ltb_ge _ 0)), (proj2 (Z.leb_gt _ _)) by lia. cbn [orb mbind result_bind].
    by rewrite <- !app_assoc.
Qed.

(** The contents of the documents, if all can be printed. *)
Definition printed (docs : list ArchiveSequenceDocument) (contents : list pybytes) : Prop :=
  Forall2 (λ d c, document_to_json_bytes d = Ok c) docs contents.

Definition numbered (start : Z) (docs : list ArchiveSequenceDocument) : Prop :=
  document_sequence <$> docs = rangeZ start (start + len docs).

Lemma commitment_after_terminal digest n docs r :
  foldM sequence_commitment_step (digest, n, true) docs = Ok r → docs = [] ∧ r = (digest, n, true).
Proof. destruct docs as [|d docs]; cbn; [by intros [= <-]|done]. Qed.

Lemma sequence_commitment_step_iff digest n d r : sequence_commitment_step (digest, n, false) d = Ok r ↔
  document_sequence d = n ∧ ∃ content, document_to_json_bytes d = Ok content ∧
    r = (digest ++ framed d content, n + 1, is_terminal d).
Proof.
  unfold sequence_commitment_step. destruct (Z.eqb_spec (document_sequence d) n) as [<-|]; cbn [orb negb]; [|naive_solver].
  rewrite bind_Ok. setoid_rewrite update_frames. split.
  - intros (digest' & (content & Hc & ->) & [= <-]). split; [done|]. by exists content.
  - intros (_ & content & Hc & ->). eexists. split; [by exists content|]. done.
Qed.

Lemma numbered_nil n : numbered n [].
Proof. unfold numbered. by rewrite len_nil, Z.add_0_r, rangeZ_empty. Qed.

Lemma numbered_cons n d docs : numbered n (d :: docs) ↔ document_sequence d = n ∧ numbered (n + 1) docs.
Proof.
  unfold numbered. rewrite fmap_cons, len_cons. pose proof (len_nonneg docs). rewrite (rangeZ_cons n) by lia.
  replace (n + (1 + len docs)) with (n + 1 + len docs) by lia. split; [by intros [= <- ->]|]. by intros [-> ->].
Qed.

Lemma volumes_loop digest n ds r :
  foldM sequence_commitment_step (digest, n, false) (VolumeDoc <$> ds) = Ok r ↔
  ∃ contents, printed (VolumeDoc <$> ds) contents ∧ numbered n (VolumeDoc <$> ds) ∧
    r = (digest ++ concat (zip_with framed (VolumeDoc <$> ds) contents), n + len ds, false).
Proof.
  revert digest n. induction ds as [|d ds IH]; intros digest n.
  - rewrite fmap_nil, len_nil, Z.add_0_r. cbn [foldM]. split.
    + intros [= <-]. exists []. split_and!; [constructor|apply numbered_nil|]. cbn. by rewrite app_nil_r.
    + intros (contents & Hp & _ & ->). apply Forall2_nil_inv_l in Hp as ->. cbn. by rewrite app_nil_r.
  - rewrite fmap_cons. cbn [foldM]. rewrite bind_Ok, len_cons. setoid_rewrite numbered_cons. split.
    + intros (r' & Hs & Hr). apply sequence_commitment_step_iff in Hs as (Hn & content & Hc & ->). apply IH in Hr as (contents & Hp & Hnum & ->).
      exists (content :: contents). split_and!; [by constructor|done|done|]. cbn [zip_with concat].
      rewrite <- app_assoc. f_equal. f_equal. lia.
    + intros (contents & Hp & [Hn Hnum] & ->). apply Forall2_cons_inv_l in Hp as (content & contents' & Hc & Hp & ->).
      eexists. split; [apply sequence_commitment_step_iff; split; [done|]; by exists content|]. apply IH. exists contents'. split_and!; [done|done|].
      cbn [zip_with concat]. rewrite <- app_assoc. f_equal. f_equal. lia.
Qed.

Lemma terminal_last digest n docs digest' n' :
  foldM sequence_commitment_step (digest, n, false) docs = Ok (digest', n', true) →
  ∃ ds t, docs = (VolumeDoc <$> ds) ++ [TerminalDoc t].
Proof.
  revert digest n. induction docs as [|d docs IH]; intros digest n Hf; [done|]. cbn [foldM] in Hf.
  apply bind_Ok in Hf as (r & Hr & Hf). apply sequence_commitment_step_iff in Hr as (_ & content & _ & ->).
  destruct d as [d|d]; cbn [is_terminal] in Hf.
  - destruct (IH _ _ Hf) as (ds & t & ->). by exists (d :: ds), t.
  - apply commitment_after_terminal in Hf as [-> _]. by exists [], d.
Qed.

(** An archive: volumes 0, 1, ... in order, then the one terminal document. *)
Definition archive_sequence (docs : list ArchiveSequenceDocument) : Prop :=
  ∃ ds t, docs = (VolumeDoc <$> ds) ++ [TerminalDoc t] ∧ ds ≠ [] ∧ numbered 0 docs.

(** The bytes that the commitment hashes. *)
Definition commitment_bytes (docs : list ArchiveSequenceDocument) (contents : list pybytes) : pybytes :=
  concat (zip_with framed docs contents).

Lemma numbered_app n docs docs' : numbered n (docs ++ docs') ↔ numbered n docs ∧ numbered (n + len docs) docs'.
Proof.
  revert n. induction docs as [|d docs IH]; intros n; cbn [app].
  - rewrite len_nil, Z.add_0_r. split; [|by intros []]. intros Hn. split; [apply numbered_nil|done].
  - rewrite !numbered_cons, IH, len_cons. replace (n + 1 + len docs) with (n + (1 + len docs)) by lia. tauto.
Qed.

Lemma commitment_bytes_snoc docs contents d content : printed docs contents →
  commitment_bytes (docs ++ [d]) (contents ++ [content]) = commitment_bytes docs contents ++ framed d content.
Proof.
  intros Hp. unfold commitment_bytes. rewrite zip_with_app by by eapply Forall2_length.
  rewrite concat_app. cbn [zip_with concat]. by rewrite app_nil_r.
Qed.

Lemma commitment_accepts docs h : ordered_archive_volume_commitment docs = Ok h ↔
  archive_sequence docs ∧ ∃ contents, printed docs contents ∧ h = bytes_hex (sha256 (commitment_bytes docs contents)).
Proof.
  unfold ordered_archive_volume_commitment. rewrite bind_Ok. split.
  - intros ([[digest n] terminal] & Hf & Hh). destruct terminal; [|done]. cbn [negb orb] in Hh.
    destruct (Z.ltb_spec n 2) as [|Hn2]; [done|]. injection Hh as <-. pose proof (terminal_last _ _ _ _ _ Hf) as (ds & t & ->).
    rewrite foldM_app in Hf. apply bind_Ok in Hf as (r & Hr & Hf).
    apply volumes_loop in Hr as (contents & Hp & Hnum & ->). cbn [foldM] in Hf. apply bind_Ok in Hf as (r & Hr & Hf).
    apply sequence_commitment_step_iff in Hr as (Hseq & content & Hc & ->). injection Hf as <- <-.
    split.
    + exists ds, t. split; [done|]. split; [intros ->; change (len []) with 0 in Hn2; lia|]. apply numbered_app. split; [done|].
      apply numbered_cons. rewrite len_fmap. split; [done|apply numbered_nil].
    + exists (contents ++ [content]). split; [apply Forall2_app; [done|by repeat constructor]|].
      by rewrite commitment_bytes_snoc.
  - intros ((ds & t & -> & Hne & Hnum) & contents & Hp & ->).
    apply numbered_app in Hnum as [Hnum Ht]. apply numbered_cons in Ht as [Ht _]. rewrite len_fmap in Ht.
    apply Forall2_app_inv_l in Hp as (contents' & last & Hp & Hl & ->).
    apply Forall2_cons_inv_l in Hl as (content & l' & Hc & Hl & ->). apply Forall2_nil_inv_l in Hl as ->.
    eexists. split.
    + rewrite foldM_app, bind_Ok. eexists. split; [apply volumes_loop; by exists contents'|].
      cbn [foldM]. rewrite bind_Ok. eexists. split; [apply sequence_commitment_step_iff; split; [done|]; by exists content|]. done.
    + cbn [is_terminal negb orb]. rewrite (proj2 (Z.ltb_ge _ _)).
      * by rewrite commitment_bytes_snoc.
      * destruct ds as [|? ds]; [done|]. rewrite len_cons. pose proof (len_nonneg ds). lia.
Qed.
Lemma len_framed d content : len (framed d content) = if is_terminal d then 110 else 108.
Proof.
  unfold framed, frame_head. rewrite !len_app, (proj1 (sha256_shape _)).
  unfold len at 3. rewrite length_be_bytes. by destruct d.
Qed.

Lemma commitment_bytes_cons d docs c contents :
  commitment_bytes (d :: docs) (c :: contents) = framed d c ++ commitment_bytes docs contents.
Proof. done. Qed.

Lemma len_commitment_volumes ds contents : printed (VolumeDoc <$> ds) contents →
  len (commitment_bytes (VolumeDoc <$> ds) contents) = 108 * len ds.
Proof.
  revert contents. induction ds as [|d ds IH]; intros contents Hp.
  - by apply Forall2_nil_inv_l in Hp as ->.
  - apply Forall2_cons_inv_l in Hp as (c & contents' & _ & Hp & ->).
    rewrite fmap_cons, commitment_bytes_cons, len_app, len_framed, (IH _ Hp), len_cons. cbn [is_terminal]. lia.
Qed.

Lemma len_commitment_bytes docs contents : archive_sequence docs → printed docs contents →
  len (commitment_bytes docs contents) = 108 * len docs + 2.
Proof.
  intros (ds & t & -> & _ & _) Hp. apply Forall2_app_inv_l in Hp as (contents' & last & Hp & Hl & ->).
  apply Forall2_cons_inv_l in Hl as (content & l' & Hc & Hl & ->). apply Forall2_nil_inv_l in Hl as ->.
  rewrite commitment_bytes_snoc, len_app, len_commitment_volumes, len_framed, len_app, len_fmap by done.
  cbn [is_terminal]. rewrite len_cons, len_nil. lia.
Qed.

(** The framing of a document: its number and its kind. *)
Definition heads (docs : list ArchiveSequenceDocument) : list pybytes :=
  (λ d, frame_head (document_sequence d) (is_terminal d)) <$> docs.

Lemma printed_det docs contents contents' : printed docs contents → printed docs contents' → contents = contents'.
Proof.
  unfold printed. rewrite <- !mapM_result_Forall2. congruence.
Qed.

Lemma archive_sequence_kinds docs1 docs2 : archive_sequence docs1 → archive_sequence docs2 →
  len docs1 = len docs2 → is_terminal <$> docs1 = is_terminal <$> docs2.
Proof.
  intros (ds1 & t1 & -> & _) (ds2 & t2 & -> & _) Hlen.
  assert (∀ ds, is_terminal ∘ VolumeDoc <$> ds = replicate (length ds) false) as Hr.
  { intros ds. induction ds as [|? ds IHds]; [done|]. cbn. f_equal. apply IHds. }
  rewrite !len_app, !len_fmap in Hlen. rewrite !fmap_app, <- !list_fmap_compose, !Hr. f_equal. f_equal.
  unfold len in Hlen. cbn in Hlen. lia.
Qed.

Lemma archive_sequence_heads docs1 docs2 : archive_sequence docs1 → archive_sequence docs2 →
  len docs1 = len docs2 → heads docs1 = heads docs2.
Proof.
  intros Ha1 Ha2 Hlen. pose proof (archive_sequence_kinds _ _ Ha1 Ha2 Hlen) as Ht.
  destruct Ha1 as (_ & _ & _ & _ & Hn1), Ha2 as (_ & _ & _ & _ & Hn2). unfold numbered in *.
  rewrite Hlen, <- Hn2 in Hn1. clear Hn2 Hlen. unfold heads. revert docs2 Hn1 Ht.
  induction docs1 as [|d1 l1 IH]; intros [|d2 l2]; try done. rewrite !fmap_cons.
  intros [Hs Hn]%cons_eq [Hk Ht]%cons_eq. rewrite Hs, Hk. f_equal. by apply IH.
Qed.

(** Equal framed bytes carry equal digests, document by document. *)
Lemma commitment_bytes_digests docs1 docs2 contents1 contents2 :
  heads docs1 = heads docs2 → length docs1 = length contents1 → length docs2 = length contents2 →
  commitment_bytes docs1 contents1 = commitment_bytes docs2 contents2 → sha256 <$> contents1 = sha256 <$> contents2.
Proof.
  revert docs2 contents1 contents2. induction docs1 as [|d1 docs1 IH]; intros [|d2 docs2] [|c1 contents1] [|c2 contents2]; try done.
  unfold heads. rewrite !fmap_cons. intros [Hh Hheads]%cons_eq [= Hl1] [= Hl2] Hb. rewrite !commitment_bytes_cons in Hb. unfold framed in Hb. rewrite Hh, <- !app_assoc in Hb.
  apply app_inv_head in Hb. apply app_inj_1 in Hb as [Hs Hb].
  2: { pose proof (proj1 (sha256_shape c1)). pose proof (proj1 (sha256_shape c2)). unfold len in *. lia. }
  rewrite Hs. f_equal. by eapply IH.
Qed.

Lemma digests_or_collision (contents1 contents2 : list pybytes) : sha256 <$> contents1 = sha256 <$> contents2 →
  contents1 = contents2 ∨ ∃ x y, x ∈ contents1 ∧ y ∈ contents2 ∧ x ≠ y ∧ sha256 x = sha256 y.
Proof.
  revert contents2. induction contents1 as [|c1 contents1 IH]; intros [|c2 contents2]; try done; [by left|].
  intros [= Hs Hr]. destruct (decide (c1 = c2)) as [->|].
  - destruct (IH _ Hr) as [->|(x & y & Hx & Hy & Hne)]; [by left|]. right. exists x, y. by rewrite !elem_of_cons; auto.
  - right. exists c1, c2. by split_and!; [left|left|..].
Qed.

(** Two archives with one commitment have the same documents, unless two of the
    texts that were hashed for them collide. *)
Lemma commitment_binds docs1 docs2 contents1 contents2 :
  archive_sequence docs1 → archive_sequence docs2 → printed docs1 contents1 → printed docs2 contents2 →
  bytes_hex (sha256 (commitment_bytes docs1 contents1)) = bytes_hex (sha256 (commitment_bytes docs2 contents2)) →
  contents1 = contents2 ∨
  ∃ x y, x ∈ commitment_bytes docs1 contents1 :: contents1 ∧ y ∈ commitment_bytes docs2 contents2 :: contents2 ∧
    x ≠ y ∧ sha256 x = sha256 y.
Proof.
  intros Ha1 Ha2 Hp1 Hp2 Hh. apply bytes_hex_inj in Hh; [|apply sha256_shape..].
  destruct (decide (commitment_bytes docs1 contents1 = commitment_bytes docs2 contents2)) as [Hb|].
  - pose proof (f_equal len Hb) as Hl. rewrite !len_commitment_bytes in Hl by done.
    apply commitment_bytes_digests in Hb; [|apply archive_sequence_heads; [done|done|lia]|by eapply Forall2_length..].
    destruct (digests_or_collision _ _ Hb) as [->|(x & y & Hx & Hy & Hne)]; [by left|].
    right. exists x, y. rewrite !elem_of_cons. auto.
  - right. eexists _, _. by split_and!; [left|left|..].
Qed.
End commitment.

Section documents.
Context `{PyEnv}.

Lemma volume_document_reads d bs : volume_document_valid d → volume_text (vd_volume d) →
  volume_document_to_json_bytes d = Ok bs → volume_document_from_json_bytes bs = Ok d.
Proof.
  intros Hd Ht. apply (canonical_print_read _ _ _ _ _ "collection archive volume" (volume_document_payload d));
    [by apply volume_document_wf|by apply volume_document_law|].
  unfold volume_document_to_json_bytes. by rewrite volume_document_printed.
Qed.

Lemma terminal_reads d bs : terminal_valid d → terminal_to_json_bytes d = Ok bs → terminal_from_json_bytes bs = Ok d.
Proof.
  intros Hd. apply (canonical_print_read _ _ _ _ _ "collection archive terminal" (terminal_payload d)); [by apply terminal_wf|by apply terminal_law|].
  unfold terminal_to_json_bytes. by rewrite terminal_printed.
Qed.

Lemma manifest_reads d bs : manifest_valid d → manifest_to_json_bytes d = Ok bs → manifest_from_json_bytes bs = Ok d.
Proof.
  intros Hd. apply (canonical_print_read _ _ _ _ _ "collection archive root" (manifest_to_mapping d)); [by apply manifest_wf|by apply manifest_law|done].
Qed.

(** A document built by the constructors reads back from the bytes it is printed
    as.  The path of a segmented file has to be encodable text: the other fields are
    by their own checks. *)
Theorem documents_roundtrip bs :
  (∀ d, volume_document_valid d → volume_text (vd_volume d) → volume_document_to_json_bytes d = Ok bs →
    volume_document_from_json_bytes bs = Ok d) ∧
  (∀ d, terminal_valid d → terminal_to_json_bytes d = Ok bs → terminal_from_json_bytes bs = Ok d) ∧
  (∀ d, manifest_valid d → manifest_to_json_bytes d = Ok bs → manifest_from_json_bytes bs = Ok d).
Proof.
  split_and!; intros d.
  - apply volume_document_reads.
  - apply terminal_reads.
  - apply manifest_reads.
Qed.

(** ** The parts of a volume *)

Definition av_parts (v : ArchiveVolume) : list StoredPartIdentity :=
  match v with PackV v => pk_parts v | SegmentV v => sg_parts v end.
Definition av_plaintext_bytes (v : ArchiveVolume) : Z :=
  match v with PackV v => pk_plaintext_bytes v | SegmentV v => sg_plaintext_bytes v end.
Definition av_age_state (v : ArchiveVolume) : AgeUploadState :=
  match v with PackV v => pk_age_state v | SegmentV v => sg_age_state v end.

Lemma validate_loop_tiles parts : ∀ number start stop, validate_loop number start parts = Ok stop →
  stop = start + sumZ sp_plaintext_bytes parts ∧
  ∀ i p, parts !! i = Some p → sp_number p = number + Z.of_nat i ∧
    sp_plaintext_start p = start + sumZ sp_plaintext_bytes (take i parts).
Proof.
  induction parts as [|p parts IH]; intros number start stop Hv.
  - injection Hv as <-. split; [change (sumZ sp_plaintext_bytes []) with 0; lia|done].
  - apply validate_cons in Hv as (Hn & Hs & Hv). destruct (IH _ _ _ Hv) as [-> Hparts]. rewrite sumZ_cons.
    split; [lia|]. intros [|i] q Hq; cbn [lookup list_lookup] in Hq.
    + injection Hq as <-. cbn [take]. change (sumZ sp_plaintext_bytes []) with 0. lia.
    + destruct (Hparts i q Hq) as [-> ->]. cbn [take]. rewrite sumZ_cons. lia.
Qed.

Lemma validate_parts_tile parts n y : _validate_parts parts n = Ok y →
  parts ≠ [] ∧ len parts ≤ ARCHIVE_VOLUME_PARTS_MAX ∧ sumZ sp_plaintext_bytes parts = n ∧
  ∀ i p, parts !! i = Some p → sp_number p = Z.of_nat i + 1 ∧
    sp_plaintext_start p = sumZ sp_plaintext_bytes (take i parts).
Proof.
  unfold _validate_parts. intros Hv. inv_checks Hv. bool_prop.
  match goal with Hl : validate_loop _ _ _ = Ok _ |- _ => destruct (validate_loop_tiles _ _ _ _ Hl) as [-> Hp] end.
  split_and!; [done|lia|lia|]. intros i p Hi. destruct (Hp i p Hi). lia.
Qed.

Lemma valid_parts_tile parts n y : _validate_parts parts n = Ok y → Forall (λ p, new_part p = Ok p) parts →
  1 ≤ len parts ≤ ARCHIVE_VOLUME_PARTS_MAX ∧ sumZ sp_plaintext_bytes parts = n ∧
  ∀ i p, parts !! i = Some p → sp_number p = Z.of_nat i + 1 ∧
    sp_plaintext_start p = sumZ sp_plaintext_bytes (take i parts) ∧
    0 ≤ sp_plaintext_bytes p ∧ 1 ≤ sp_stored_bytes p.
Proof.
  intros Hy Hall. apply validate_parts_tile in Hy as (Hne & Hmax & Hsum & Hp). split.
  - destruct parts; [done|]. rewrite len_cons in *. pose proof (len_nonneg parts). lia.
  - split; [done|]. intros i p Hi. destruct (Hp i p Hi) as [? ?]. rewrite Forall_lookup in Hall.
    specialize (Hall i p Hi). unfold new_part in Hall. inv_checks Hall. by split_and!.
Qed.

(** The parts of an accepted volume are numbered from one, start where the
    previous one ends and cover exactly the plaintext that the age state announces;
    there is at least one and at most [ARCHIVE_VOLUME_PARTS_MAX]. *)
Theorem accepted_volume_tiles bs d : bytes_ok bs → volume_document_from_json_bytes bs = Ok d →
  let v := vd_volume d in
  0 ≤ av_sequence v < 2 ^ 256 ∧ ag_plaintext_size (av_age_state v) = av_plaintext_bytes v ∧
  1 ≤ len (av_parts v) ≤ ARCHIVE_VOLUME_PARTS_MAX ∧
  sumZ sp_plaintext_bytes (av_parts v) = av_plaintext_bytes v ∧
  ∀ i p, av_parts v !! i = Some p → sp_number p = Z.of_nat i + 1 ∧
    sp_plaintext_start p = sumZ sp_plaintext_bytes (take i (av_parts v)) ∧
    0 ≤ sp_plaintext_bytes p ∧ 1 ≤ sp_stored_bytes p.
Proof.
  intros Hb Hd v. apply canonical_read_printed in Hd as ((j & Hj) & _); [|done].
  apply volume_document_sound in Hj as [_ Hv]. fold v in Hv. destruct (volume_law _ Hv) as [Hseq _].
  split; [done|].
  destruct v as [x|x]; cbn [volume_valid av_parts av_plaintext_bytes av_age_state] in *.
  - destruct Hv as (Hx & _ & Hparts). unfold new_pack_volume in Hx. inv_checks Hx. bool_prop. split; [lia|]. by eapply valid_parts_tile.
  - destruct Hv as (Hx & _ & Hparts & _). unfold new_segment_volume in Hx. inv_checks Hx. bool_prop. split; [lia|].
    by eapply valid_parts_tile.
Qed.
End documents.

Section commitment.
Context `{PyEnv}.

Definition document_valid (d : ArchiveSequenceDocument) : Prop :=
  match d with
  | VolumeDoc d => volume_document_valid d ∧ volume_text (vd_volume d)
  | TerminalDoc d => terminal_valid d
  end.

Lemma printed_same_document d1 d2 content : document_valid d1 → document_valid d2 → is_terminal d1 = is_terminal d2 →
  document_to_json_bytes d1 = Ok content → document_to_json_bytes d2 = Ok content → d1 = d2.
Proof.
  destruct d1 as [d1|d1], d2 as [d2|d2]; cbn [document_valid is_terminal document_to_json_bytes]; try done.
  - intros [Hv1 Ht1] [Hv2 Ht2] _ H1 H2. apply volume_document_reads in H1, H2; try done. congruence.
  - intros Hv1 Hv2 _ H1 H2. apply terminal_reads in H1, H2; try done. congruence.
Qed.

Lemma printed_same_documents docs1 docs2 contents : Forall document_valid docs1 → Forall document_valid docs2 →
  is_terminal <$> docs1 = is_terminal <$> docs2 → printed docs1 contents → printed docs2 contents → docs1 = docs2.
Proof.
  intros Hv1 Hv2 Hk Hp1. revert docs2 Hv2 Hk.
  induction Hp1 as [|d1 content docs1 contents Hd1 Hp1 IH]; intros docs2 Hv2 Hk Hp2.
  - by apply Forall2_nil_inv_r in Hp2 as ->.
  - apply Forall2_cons_inv_r in Hp2 as (d2 & docs2' & Hd2 & Hp2 & ->). apply Forall_cons in Hv1 as [? Hv1].
    apply Forall_cons in Hv2 as [? Hv2]. injection Hk as Hk1 Hk. f_equal; [by eapply printed_same_document|by apply IH].
Qed.

(** C16. A commitment exists exactly for a sequence of volumes numbered 0, 1, ...
    ended by one terminal document, and is the digest of the framed documents.  It
    binds the archive: sequences of valid documents with the same commitment are
    equal, unless two of the texts that were hashed for them collide. *)
Theorem archive_commitment_binds docs :
  (∀ h, ordered_archive_volume_commitment docs = Ok h ↔ archive_sequence docs ∧
     ∃ contents, printed docs contents ∧ h = bytes_hex (sha256 (commitment_bytes docs contents))) ∧
  (∀ docs' h contents contents', Forall document_valid docs → Forall document_valid docs' →
     ordered_archive_volume_commitment docs = Ok h → ordered_archive_volume_commitment docs' = Ok h →
     printed docs contents → printed docs' contents' →
     docs = docs' ∨
     ∃ x y, x ∈ commitment_bytes docs contents :: contents ∧ y ∈ commitment_bytes docs' contents' :: contents' ∧
       x ≠ y ∧ sha256 x = sha256 y).
Proof.
  split; [intros h; apply commitment_accepts|]. intros docs' h contents contents' Hv Hv' Hc Hc' Hp Hp'.
  apply commitment_accepts in Hc as (Ha & c & Hpc & ->), Hc' as (Ha' & c' & Hpc' & Hh).
  pose proof (printed_det _ _ _ Hp Hpc) as <-. pose proof (printed_det _ _ _ Hp' Hpc') as <-.
  destruct (commitment_binds _ _ _ _ Ha Ha' Hp Hp' Hh) as [->|]; [|by right]. left.
  apply (printed_same_documents _ _ contents'); try done. apply archive_sequence_kinds; try done.
  apply Forall2_length in Hp, Hp'. unfold len. lia.
Qed.
End commitment.

(** ** An archive of one volume *)

Definition sample_sha : pystr := repeatZ 64 (chr "a").

Definition sample_pack : PackArchiveVolume :=
  {| pk_id := str "pack-" ++ repeatZ 64 (chr "0"); pk_sequence := 0;
     pk_path := str "volumes/pack-" ++ repeatZ 64 (chr "0") ++ str ".tar.age"; pk_files := 2; pk_source_bytes := 10;
     pk_plaintext_bytes := 30;
     pk_age_state := {| ag_header_b64 := str "YWdl"; ag_payload_nonce_b64 := repeatZ 22 (chr "A");
                        ag_plaintext_size := 30; ag_format := AGE_UPLOAD_STATE_FORMAT |};
     pk_index_sha256 := sample_sha; pk_plan_sha256 := sample_sha;
     pk_parts := [{| sp_number := 1; sp_plaintext_start := 0; sp_plaintext_bytes := 20; sp_plaintext_sha256 := sample_sha;
                     sp_stored_bytes := 25; sp_stored_sha256 := sample_sha |};
                  {| sp_number := 2; sp_plaintext_start := 20; sp_plaintext_bytes := 10; sp_plaintext_sha256 := sample_sha;
                     sp_stored_bytes := 12; sp_stored_sha256 := sample_sha |}];
     pk_kind := str "pack" |}.

Definition sample_volume : CollectionArchiveVolumeDocument :=
  {| vd_archive_generation := sample_sha; vd_archive_tree_sha256 := sample_sha; vd_volume := PackV sample_pack;
     vd_schema := COLLECTION_ARCHIVE_VOLUME_SCHEMA |}.

Definition sample_terminal : CollectionArchiveTerminalDocument :=
  {| td_archive_generation := sample_sha; td_archive_tree_sha256 := sample_sha; td_sequence := 1;
     td_kind := str "terminal"; td_schema := COLLECTION_ARCHIVE_TERMINAL_SCHEMA |}.

Definition sample_content : pybytes :=
  Eval vm_compute in match @volume_document_to_json_bytes ascii_env sample_volume with Ok bs => bs | Err _ => [] end.
Definition sample_end : pybytes :=
  Eval vm_compute in match @terminal_to_json_bytes ascii_env sample_terminal with Ok bs => bs | Err _ => [] end.

Lemma sample_volume_valid : volume_document_valid sample_volume.
Proof. split; [by vm_compute|]. split_and!; [by vm_compute..|]. repeat constructor. Qed.

Lemma sample_terminal_valid : terminal_valid sample_terminal.
Proof. by vm_compute. Qed.

Lemma documents_roundtrip_witness :
  volume_document_valid sample_volume ∧ @volume_document_to_json_bytes ascii_env sample_volume = Ok sample_content ∧
  @volume_document_from_json_bytes ascii_env sample_content = Ok sample_volume.
Proof.
  assert (@volume_document_to_json_bytes ascii_env sample_volume = Ok sample_content) as Hprint by (vm_compute; reflexivity).
  split; [exact sample_volume_valid|]. split; [exact Hprint|].
  apply (proj1 (@documents_roundtrip ascii_env sample_content)); [exact sample_volume_valid|exact I|exact Hprint].
Defined.

Lemma accepted_volume_tiles_witness :
  @volume_document_from_json_bytes ascii_env sample_content = Ok sample_volume ∧
  sumZ sp_plaintext_bytes (pk_parts sample_pack) = 30.
Proof.
  assert (@volume_document_from_json_bytes ascii_env sample_content = Ok sample_volume) as Hread by (vm_compute; reflexivity).
  split; [exact Hread|].
  refine (proj1 (proj2 (proj2 (proj2 (@accepted_volume_tiles ascii_env sample_content sample_volume _ Hread))))).
  apply (bool_decide_unpack _). vm_compute. exact I.
Defined.

Lemma archive_commitment_binds_witness :
  ∃ h, @ordered_archive_volume_commitment ascii_env [VolumeDoc sample_volume; TerminalDoc sample_terminal] = Ok h.
Proof.
  eexists. apply (proj1 (@archive_commitment_binds ascii_env [VolumeDoc sample_volume; TerminalDoc sample_terminal])).
  split; [|exists [sample_content; sample_end]; split; [|reflexivity]].
  - exists [sample_volume], sample_terminal. split; [reflexivity|]. split; [discriminate|vm_compute; reflexivity].
  - repeat constructor; vm_compute; reflexivity.
Defined.
