(* ===== verification/ArchiveDocuments.v ===== *)
(** * Well-formed archive documents

    What the documents of [archive_contracts] promise to whoever reads an
    archive, said of their fields alone: no constructor or check of the code
    occurs in these predicates.  The theorem shows that the parsers accept exactly
    the canonical encodings of the documents that satisfy them. *)

From S2P Require Import Prelude Text Json Sha256 Paths Domain Base64 ArchiveContracts.

(** ** Fields *)

(** 64 lower-case hexadecimal digits. *)
Definition digest_text (s : pystr) : Prop := len s = 64 ∧ Forall (λ c, 48 ≤ c ≤ 57 ∨ 97 ≤ c ≤ 102) s.

(** [s] is the base64 text of [bs] without its padding. *)
Definition base64_text_of (s : pystr) (bs : pybytes) : Prop :=
  s ≠ [] ∧ b64decode (s ++ repeatZ (- len s mod 4) (chr "=")) = Some bs ∧ _b64_encode bs = s.

Definition ordinal_ok (n : Z) : Prop := 0 ≤ n < 2 ^ 256.

Record well_formed_age_state (plaintext_bytes : Z) (x : AgeUploadState) : Prop := {
  wa_format : ag_format x = str "age-v1-scrypt-resumable";
  wa_size : ag_plaintext_size x = plaintext_bytes;
  wa_header : ∃ header, base64_text_of (ag_header_b64 x) header ∧ header ≠ [];
  wa_nonce : ∃ nonce, base64_text_of (ag_payload_nonce_b64 x) nonce ∧ len nonce = 16;
}.

Record well_formed_part (p : StoredPartIdentity) : Prop := {
  wp_plaintext : 0 ≤ sp_plaintext_bytes p;
  wp_plaintext_digest : digest_text (sp_plaintext_sha256 p);
  wp_stored : 1 ≤ sp_stored_bytes p;
  wp_stored_digest : digest_text (sp_stored_sha256 p);
}.

(** Parts numbered from 1 that tile the plaintext. *)
Record parts_tile (plaintext_bytes : Z) (parts : list StoredPartIdentity) : Prop := {
  pt_count : 1 ≤ len parts ≤ 1024;
  pt_cover : sumZ sp_plaintext_bytes parts = plaintext_bytes;
  pt_place : ∀ i p, parts !! i = Some p → sp_number p = Z.of_nat i + 1 ∧
    sp_plaintext_start p = sumZ sp_plaintext_bytes (take i parts);
  pt_parts : Forall well_formed_part parts;
}.

Record well_formed_placement (plaintext_bytes : Z) (x : SegmentFilePlacement) : Prop := {
  wl_path : relative_path_ok (sf_path x);
  wl_reserved : startswith (str ".riverhog/") (sf_path x) = false;
  wl_offset : 0 ≤ sf_offset x;
  wl_bytes : sf_bytes x = plaintext_bytes;
  wl_inside : sf_offset x + sf_bytes x ≤ sf_file_bytes x;
  wl_digest : digest_text (sf_sha256 x);
}.

(** ** Volumes and documents *)

Definition well_formed_volume (v : ArchiveVolume) : Prop :=
  match v with
  | PackV x =>
      ordinal_ok (pk_sequence x) ∧ pk_kind x = str "pack" ∧
      pk_id x = str "pack-" ++ format_padded 16 64 (pk_sequence x) ∧
      pk_path x = str "volumes/" ++ pk_id x ++ str ".tar.age" ∧
      1 ≤ pk_files x ≤ 50000 ∧ 0 ≤ pk_source_bytes x ∧ 0 ≤ pk_plaintext_bytes x ∧
      well_formed_age_state (pk_plaintext_bytes x) (pk_age_state x) ∧
      digest_text (pk_index_sha256 x) ∧ digest_text (pk_plan_sha256 x) ∧
      parts_tile (pk_plaintext_bytes x) (pk_parts x)
  | SegmentV x =>
      ordinal_ok (sg_sequence x) ∧ sg_kind x = str "segment" ∧
      sg_id x = str "segment-" ++ format_padded 16 64 (sg_sequence x) ∧
      sg_path x = str "volumes/" ++ sg_id x ++ str ".bin.age" ∧ 0 ≤ sg_plaintext_bytes x ∧
      well_formed_age_state (sg_plaintext_bytes x) (sg_age_state x) ∧
      well_formed_placement (sg_plaintext_bytes x) (sg_file x) ∧
      parts_tile (sg_plaintext_bytes x) (sg_parts x)
  end.

Definition well_formed_volume_document (d : CollectionArchiveVolumeDocument) : Prop :=
  vd_schema d = str "collection-archive-volume/v1" ∧ digest_text (vd_archive_generation d) ∧
  digest_text (vd_archive_tree_sha256 d) ∧ well_formed_volume (vd_volume d).

Definition well_formed_terminal (d : CollectionArchiveTerminalDocument) : Prop :=
  td_schema d = str "collection-archive-terminal/v1" ∧ td_kind d = str "terminal" ∧
  digest_text (td_archive_generation d) ∧ digest_text (td_archive_tree_sha256 d) ∧ 1 ≤ td_sequence d < 2 ^ 256.

Definition well_formed_provenance (x : ArchiveProvenanceIdentity) : Prop :=
  digest_text (pd_identity x) ∧ pi_sha256 (pd_root x) = pd_identity x ∧
  pi_id (pd_root x) = str "provenance-root" ∧ pi_kind (pd_root x) = str "provenance-root" ∧
  pi_path (pd_root x) = str "provenance/root.json.age" ∧ 1 ≤ pi_plaintext_bytes (pd_root x) ∧
  1 ≤ pi_stored_bytes (pd_root x) ∧ digest_text (pi_stored_sha256 (pd_root x)).

Definition well_formed_manifest (d : CollectionArchiveManifest) : Prop :=
  cm_schema d = str "collection-archive-manifest/v1" ∧ digest_text (cm_archive_generation d) ∧
  digest_text (cm_ordered_volume_sha256 d) ∧
  1 ≤ ct_files (cm_tree d) ∧ 0 ≤ ct_bytes (cm_tree d) ∧ digest_text (ct_sha256 (cm_tree d)) ∧
  match cm_provenance d with Some p => well_formed_provenance p | None => True end.

(** ** The constructors check exactly this *)

Lemma digest_text_iff s : sha256_fullmatch s = true ↔ digest_text s.
Proof.
  unfold sha256_fullmatch, digest_text. rewrite andb_true_iff, Z.eqb_eq, forallb_forall, Forall_forall.
  setoid_rewrite list_elem_of_In. unfold is_lower_hex. split; intros [Hl Hs]; (split; [done|]);
    intros c Hc; specialize (Hs c Hc); lia.
Qed.

Lemma check_base64_text s : (s ≠ [] ∧ ∃ bs, padded_decode s = Some bs ∧ _b64_encode bs = s) ↔
  ∃ bs, base64_text_of s bs.
Proof. unfold padded_decode, base64_text_of. naive_solver. Qed.

Lemma check_age_bytes_iff header_b64 nonce_b64 header nonce :
  base64_text_of header_b64 header → base64_text_of nonce_b64 nonce →
  check_age_bytes header_b64 nonce_b64 = Ok tt ↔ header ≠ [] ∧ len nonce = 16.
Proof.
  intros (_ & Hh & _) (_ & Hn & _). unfold check_age_bytes, padded_decode. rewrite Hh, Hn. cbn [from_option id].
  destruct (bool_decide_reflect (header = [])) as [->|Hne]; [split; [done|by intros [? _]]|].
  destruct (Z.eqb_spec (len nonce) 16) as [->|Hlen]; cbn [negb]; split; [done|done|done|by intros [_ ?]].
Qed.

Lemma age_state_iff n x : 0 ≤ n →
  (new_age_state x = Ok x ∧ ag_plaintext_size x = n) ↔ well_formed_age_state n x.
Proof.
  intros Hn. split.
  - intros [Hx <-]. unfold new_age_state in Hx. inv_checks Hx. bool_prop.
    match goal with Hh : ag_header_b64 x ≠ [] ∧ _ |- _ => apply check_base64_text in Hh as [header Hh] end.
    match goal with Hh : ag_payload_nonce_b64 x ≠ [] ∧ _ |- _ => apply check_base64_text in Hh as [nonce Hnonce] end.
    match goal with Hc : check_age_bytes _ _ = Ok ?u |- _ =>
      destruct u; apply (check_age_bytes_iff _ _ header nonce) in Hc as [? ?]; [|done..] end.
    split; [done|done|by exists header|by exists nonce].
  - intros [Hf Hs (header & Hh & Hne) (nonce & Hnonce & Hlen)]. split; [|done]. unfold new_age_state.
    rewrite bool_decide_true by done. cbn [negb]. rewrite Hs. run_checks.
    rewrite !check_base64_ok by (apply check_base64_text; eauto). run_checks.
    by rewrite (proj2 (check_age_bytes_iff _ _ header nonce Hh Hnonce)).
Qed.

Lemma part_iff p : new_part p = Ok p ↔ 1 ≤ sp_number p ∧ 0 ≤ sp_plaintext_start p ∧ well_formed_part p.
Proof.
  split.
  - intros Hp. unfold new_part in Hp. inv_checks Hp. split_and!; [done..|]. by split; try apply digest_text_iff.
  - intros (Hn & Hs & [Hb Hd Hst Hsd]). apply digest_text_iff in Hd, Hsd. unfold new_part. by run_checks.
Qed.

Lemma validate_loop_ok parts : ∀ number start,
  (∀ i p, parts !! i = Some p → sp_number p = number + Z.of_nat i ∧
    sp_plaintext_start p = start + sumZ sp_plaintext_bytes (take i parts)) →
  validate_loop number start parts = Ok (start + sumZ sp_plaintext_bytes parts).
Proof.
  induction parts as [|p parts IH]; intros number start Hp; cbn [validate_loop].
  { change (sumZ sp_plaintext_bytes []) with 0. by rewrite Z.add_0_r. }
  destruct (Hp 0%nat p eq_refl) as [Hn Hs]. cbn [take] in Hs. change (sumZ sp_plaintext_bytes []) with 0 in Hs.
  rewrite (proj2 (Z.eqb_eq (sp_number p) number)), (proj2 (Z.eqb_eq (sp_plaintext_start p) start)) by lia. cbn [negb orb].
  rewrite IH, sumZ_cons; [f_equal; lia|]. intros i q Hi. destruct (Hp (S i) q Hi) as [Hqn Hqs].
  cbn [take] in Hqs. rewrite sumZ_cons in Hqs. lia.
Qed.

Lemma parts_iff n parts : (_validate_parts parts n = Ok parts ∧ Forall (λ p, new_part p = Ok p) parts) ↔
  parts_tile n parts.
Proof.
  split.
  - intros [Hv Hall]. destruct (validate_parts_tile _ _ _ Hv) as (_ & _ & Hsum & Hplace).
    destruct (valid_parts_tile _ _ _ Hv Hall) as (Hlen & _). split; [done|done|done|].
    eapply Forall_impl; [exact Hall|]. by intros p (_ & _ & Hp)%part_iff.
  - intros [Hlen Hsum Hplace Hall]. split.
    + unfold _validate_parts, ARCHIVE_VOLUME_PARTS_MAX. rewrite bool_decide_false by (intros ->; rewrite len_nil in Hlen; lia).
      rewrite (proj2 (Z.ltb_ge _ _)) by lia. cbn [orb].
      rewrite validate_loop_ok by (intros i p Hi; destruct (Hplace i p Hi); lia).
      rewrite ok_bind, Z.add_0_l, Hsum, Z.eqb_refl. done.
    + rewrite Forall_lookup in Hall |- *. intros i p Hi. destruct (Hplace i p Hi) as [Hn Hs].
      apply part_iff. split_and!; [lia| |by eapply Hall]. rewrite Hs. apply sumZ_nonneg, Forall_take, Forall_lookup.
      intros j q Hq. by destruct (Hall j q Hq).
Qed.

Lemma placement_iff n x : 0 ≤ n →
  (new_placement x = Ok x ∧ sf_bytes x = n) ↔ well_formed_placement n x.
Proof.
  intros Hn. split.
  - intros [Hx <-]. unfold new_placement in Hx. inv_checks Hx. bool_prop. split; try done; [lia|by apply digest_text_iff].
  - intros [Hp Hr Ho Hb Hi Hd%digest_text_iff]. split; [|done]. unfold new_placement. run_checks. rewrite Hr. run_checks.
    by rewrite (proj2 (Z.ltb_ge _ _)).
Qed.

Lemma volume_iff v : volume_valid v ↔ well_formed_volume v.
Proof.
  destruct v as [x|x]; cbn [volume_valid well_formed_volume]; unfold ordinal_ok.
  - split.
    + intros (Hx & Hage & Hparts). unfold new_pack_volume in Hx. inv_checks Hx. bool_prop. unfold ARCHIVE_PACK_FILES_MAX in *.
      match goal with Hv : _validate_parts _ _ = Ok ?y |- _ => pose proof (validate_parts_same _ _ _ Hv) as ->; rename Hv into Htile end.
      split_and!; try done; try lia; try (by apply digest_text_iff); [by apply age_state_iff; [|split; [|lia]]|by apply parts_iff].
    + intros (Hs & Hk & Hid & Hpath & Hf & Hsrc & Hn & Hage & Hi%digest_text_iff & Hp%digest_text_iff & Hparts).
      apply age_state_iff in Hage as [Hage Hsize]; [|done]. apply parts_iff in Hparts as [Htile Hparts].
      split_and!; [|done|done]. unfold new_pack_volume, ARCHIVE_PACK_FILES_MAX. run_checks. rewrite Hk, bool_decide_true by done. cbn [negb].
      run_checks. rewrite !bool_decide_true by done. cbn [negb]. run_checks.
      rewrite (proj2 (Z.ltb_ge _ _)) by lia. run_checks. rewrite (proj2 (Z.eqb_eq _ _)) by done. cbn [negb]. run_checks.
      by rewrite Htile.
  - split.
    + intros (Hx & Hage & Hparts & Hfile). unfold new_segment_volume in Hx. inv_checks Hx. bool_prop.
      match goal with Hv : _validate_parts _ _ = Ok ?y |- _ => pose proof (validate_parts_same _ _ _ Hv) as ->; rename Hv into Htile end.
      split_and!; try done; try lia;
        [by apply age_state_iff; [|split; [|lia]]|by apply placement_iff; [|split; [|lia]]|by apply parts_iff].
    + intros (Hs & Hk & Hid & Hpath & Hn & Hage & Hfile & Hparts).
      apply age_state_iff in Hage as [Hage Hsize]; [|done]. apply placement_iff in Hfile as [Hfile Hbytes]; [|done].
      apply parts_iff in Hparts as [Htile Hparts]. split_and!; [|done..]. unfold new_segment_volume. run_checks.
      rewrite Hk, bool_decide_true by done. cbn [negb]. run_checks. rewrite !bool_decide_true by done. cbn [negb]. run_checks.
      rewrite (proj2 (Z.eqb_eq _ _)) by done. cbn [negb]. rewrite (proj2 (Z.eqb_eq _ _)) by done. cbn [negb]. by rewrite Htile.
Qed.

Lemma volume_document_iff d : volume_document_valid d ↔ well_formed_volume_document d.
Proof.
  unfold volume_document_valid, well_formed_volume_document. rewrite volume_iff. split.
  - intros [Hd Hv]. unfold new_volume_document in Hd. inv_checks Hd. bool_prop.
    split_and!; try done; by apply digest_text_iff.
  - intros (Hs & Hg%digest_text_iff & Ht%digest_text_iff & Hv). split; [|done]. unfold new_volume_document.
    rewrite bool_decide_true by done. cbn [negb]. by run_checks.
Qed.

Lemma terminal_iff d : terminal_valid d ↔ well_formed_terminal d.
Proof.
  unfold terminal_valid, well_formed_terminal, new_terminal. split.
  - intros Hd. inv_checks Hd. bool_prop. split_and!; try done; try lia; by apply digest_text_iff.
  - intros (Hs & Hk & Hg%digest_text_iff & Ht%digest_text_iff & Hn).
    rewrite !bool_decide_true by done. cbn [negb orb]. by run_checks.
Qed.

Lemma provenance_path_ok : relative_path_ok (str "provenance/root.json.age").
Proof. split_and!; try done; [|vm_compute; reflexivity..]. apply (bool_decide_unpack _). vm_compute. exact I. Qed.

Lemma provenance_iff x : provenance_valid x ↔ well_formed_provenance x.
Proof.
  unfold provenance_valid, well_formed_provenance, new_provenance, new_provenance_root. split.
  - intros [Hx Hr]. inv_checks Hx. inv_checks Hr. bool_prop. split_and!; try done; by apply digest_text_iff.
  - intros (Hi%digest_text_iff & Hs & Hid & Hk & Hp & Hb & Hst & Hsd%digest_text_iff).
    pose proof provenance_path_ok as Hpath. rewrite <- Hp in Hpath. run_checks.
    rewrite !bool_decide_true by done. cbn [negb orb]. run_checks. rewrite Hs. by run_checks.
Qed.

Lemma manifest_iff d : manifest_valid d ↔ well_formed_manifest d.
Proof.
  unfold manifest_valid, well_formed_manifest, new_manifest, new_tree. split.
  - intros (Hd & Ht & Hp). inv_checks Hd. inv_checks Ht. bool_prop. split_and!; try done; try (by apply digest_text_iff).
    destruct (cm_provenance d); [by apply provenance_iff|done].
  - intros (Hs & Hg%digest_text_iff & Ho%digest_text_iff & Hf & Hb & Ht%digest_text_iff & Hp).
    rewrite bool_decide_true by done. cbn [negb]. run_checks. split_and!; [done..|].
    destruct (cm_provenance d); [by apply provenance_iff|done].
Qed.

(** The check of a relative path accepts the directory itself: a path of no parts
    has no part to refuse, and its text is the dot it was given as. *)
Lemma dot_path_accepted label : check_relative_path (str ".") label = Ok (str ".").
Proof. reflexivity. Qed.

(** ** Properties *)

Section documents.
Context `{PyEnv}.

(** C34. The parsers of the archive documents accept exactly the canonical
    encodings of well-formed documents: whatever bytes a parser accepts are the
    bytes its printer gives for the parsed document, within the size limit, and
    the document is well formed (digests of 64 hexadecimal digits, ordinals of
    256 bits with the identifiers and paths made of them, counts within their
    limits, an age state whose header is not empty, whose nonce has 16 bytes and
    whose size is the volume's, and at most 1024 parts that are numbered from 1,
    tile the plaintext and carry digests); and the printed bytes of any
    well-formed document (with an encodable file path in a segment) are
    accepted. *)
Theorem accepted_documents_canonical bs : bytes_ok bs →
  (∀ d, volume_document_from_json_bytes bs = Ok d →
    well_formed_volume_document d ∧ volume_document_to_json_bytes d = Ok bs ∧ len bs ≤ 1024 * 1024) ∧
  (∀ d, well_formed_volume_document d → volume_text (vd_volume d) → volume_document_to_json_bytes d = Ok bs →
    volume_document_from_json_bytes bs = Ok d) ∧
  (∀ d, terminal_from_json_bytes bs = Ok d ↔ well_formed_terminal d ∧ terminal_to_json_bytes d = Ok bs) ∧
  (∀ d, manifest_from_json_bytes bs = Ok d ↔ well_formed_manifest d ∧ manifest_to_json_bytes d = Ok bs).
Proof.
  intros Hb. split_and!.
  - intros d Hd. apply canonical_read_printed in Hd as ((v & Hv) & ? & ?); [|done].
    split; [|done]. by eapply volume_document_iff, volume_document_sound.
  - intros d Hd%volume_document_iff. by apply volume_document_reads.
  - intros d. split; [|intros [Hd%terminal_iff ?]; by apply terminal_reads].
    intros Hd. apply canonical_read_printed in Hd as ((v & Hv) & ? & ?); [|done]. split; [|done].
    by eapply terminal_iff, terminal_sound.
  - intros d. split; [|intros [Hd%manifest_iff ?]; by apply manifest_reads].
    intros Hd. apply canonical_read_printed in Hd as ((v & Hv) & ? & ?); [|done]. split; [|done].
    by eapply manifest_iff, manifest_sound.
Qed.
End documents.

Lemma accepted_documents_canonical_witness :
  @volume_document_from_json_bytes ascii_env sample_content = Ok sample_volume ∧
  well_formed_volume_document sample_volume ∧
  @volume_document_to_json_bytes ascii_env sample_volume = Ok sample_content.
Proof.
  assert (@volume_document_from_json_bytes ascii_env sample_content = Ok sample_volume) as Hread by (vm_compute; reflexivity).
  split; [exact Hread|].
  destruct (@accepted_documents_canonical ascii_env sample_content) as [Hv _];
    [apply (bool_decide_unpack _); vm_compute; exact I|].
  destruct (Hv _ Hread) as (Hvalid & Hprint & _). split; assumption.
Defined.
