(* ===== verification/RawVerification.v ===== *)
(** * Verification of sealed raw files

    [riverhog_core/raw_verification.py]: the commitment to the ordered volumes
    of one raw file, the receipt of a verified file, and the two ways to obtain
    one: from the digest summary of the client, or by reading the stored volumes
    again, checking every stored part, decrypting, checking every plaintext part
    and hashing the whole file, all as composed streams.

    A hash object is the bytes it was given.  [read_ciphertext_chunks] is a
    parameter: for a path it raises, or gives a stream of chunks with its end. *)

From S2P Require Import Prelude Text Json Sha256 Paths Domain PackIngress RawIngress Crypto Base64 Age ArchiveContracts.

Definition RAW_FILE_VOLUME_SEQUENCE_SCHEMA : pystr := str "raw-file-volume-sequence/v1".
Definition RAW_FILE_VERIFICATION_SCHEMA : pystr := str "raw-file-verification/v1".

(** ** Validation *)

Definition _normalized_raw_file `{UnicodeData} (file : ArchiveFile) : result ArchiveFile :=
  path ← normalize_relpath (af_path file);
  when startswith RESERVED_ARCHIVE_PREFIX path raise ValueError "raw file uses the reserved archive namespace";
  when (af_bytes file <? 0) || negb (sha256_fullmatch (af_sha256 file))
    raise ValueError "raw file identity is invalid";
  Ok {| af_path := path; af_bytes := af_bytes file; af_sha256 := af_sha256 file |}.

(** One turn of [for expected_number, part in enumerate(parts, start=1)]. *)
Definition part_receipt_step (st : Z * Z) (part : StoredArchivePart) : result (Z * Z) :=
  let '(expected_number, expected_start) := st in
  when negb (sap_number part =? expected_number) || negb (sap_plaintext_start part =? expected_start)
       || (sap_plaintext_bytes part <? 0) || (sap_stored_bytes part <? 1)
       || negb (sha256_fullmatch (sap_plaintext_sha256 part)) || negb (sha256_fullmatch (sap_stored_sha256 part))
    raise ValueError "raw volume part receipt is invalid";
  Ok (expected_number + 1, expected_start + sap_plaintext_bytes part).

Definition _validate_part_receipts (parts : list StoredArchivePart) (plaintext_bytes : Z) : result unit :=
  when bool_decide (parts = []) raise ValueError "raw volume requires at least one stored part";
  '(_, expected_start) ← foldM part_receipt_step (1, 0) parts;
  when negb (expected_start =? plaintext_bytes) raise ValueError "raw volume parts do not cover its plaintext";
  Ok tt.

Definition segment_id (sequence : Z) : pystr := str "segment-" ++ format_padded 16 64 sequence.

Definition _validate_raw_volume `{UnicodeData} (file : ArchiveFile) (volume : SealedRawVolume)
    (expected_offset previous_sequence : Z) : result unit :=
  source_path ← normalize_relpath (srv_source_path volume);
  let expected_relative_path := str "volumes/" ++ srv_volume_id volume ++ str ".bin.age" in
  relative_path ← normalize_relpath (srv_relative_path volume);
  when negb (bool_decide (source_path = af_path file)) || negb (srv_file_bytes volume =? af_bytes file)
       || negb (bool_decide (srv_file_sha256 volume = af_sha256 file))
       || negb (srv_file_offset volume =? expected_offset) || (srv_plaintext_bytes volume <? 0)
       || (srv_sequence volume <=? previous_sequence) || (Z.shiftl 1 256 <=? srv_sequence volume)
       || negb (bool_decide (srv_volume_id volume = segment_id (srv_sequence volume)))
       || negb (bool_decide (relative_path = expected_relative_path))
    raise ValueError "sealed raw volumes do not form the requested file";
  state ← from_json_text (srv_age_state_json volume);
  when negb (bool_decide (us_plaintext_size state = Some (srv_plaintext_bytes volume)))
    raise ValueError "raw volume age state plaintext size mismatch";
  _validate_part_receipts (srv_parts volume) (srv_plaintext_bytes volume).

(** ** Identities and the commitment to them *)

Definition _part_identity (part : StoredArchivePart) : json :=
  JObj [(str "number", JInt (sap_number part)); (str "plaintext_start", JInt (sap_plaintext_start part));
        (str "plaintext_bytes", JInt (sap_plaintext_bytes part));
        (str "plaintext_sha256", JStr (sap_plaintext_sha256 part));
        (str "stored_bytes", JInt (sap_stored_bytes part)); (str "stored_sha256", JStr (sap_stored_sha256 part))].

(** [json.loads(UploadState.from_json_bytes(text).to_json_bytes())] *)
Definition age_state_identity `{PyEnv} (age_state_json : pystr) : result json :=
  state ← from_json_text age_state_json;
  content ← to_json_bytes state;
  text ← utf8_decode content;
  loads text.

Definition _volume_identity `{PyEnv} (volume : SealedRawVolume) : result json :=
  path ← normalize_relpath (srv_relative_path volume);
  age_state ← age_state_identity (srv_age_state_json volume);
  Ok (JObj [(str "id", JStr (srv_volume_id volume)); (str "sequence", JInt (srv_sequence volume));
            (str "path", JStr path); (str "file_offset", JInt (srv_file_offset volume));
            (str "plaintext_bytes", JInt (srv_plaintext_bytes volume)); (str "age_state", age_state);
            (str "parts", JList (_part_identity <$> srv_parts volume))]).

Definition file_identity (file : ArchiveFile) : json :=
  JObj [(str "schema", JStr RAW_FILE_VOLUME_SEQUENCE_SCHEMA);
        (str "file", JObj [(str "path", JStr (af_path file)); (str "bytes", JInt (af_bytes file));
                           (str "sha256", JStr (af_sha256 file))])].

(** [digest.update(len(encoded).to_bytes(8, "big")); digest.update(encoded)] *)
Definition update_framed `{PyEnv} (digest : pybytes) (value : json) : result pybytes :=
  encoded ← canonical_json_bytes value;
  size ← to_bytes_big 8 (len encoded);
  Ok (digest ++ size ++ encoded).

(** One volume: the digest, the expected offset, the previous sequence, the count. *)
Definition sequence_step `{PyEnv} (file : ArchiveFile) (st : pybytes * Z * Z * Z) (volume : SealedRawVolume) :
    result (pybytes * Z * Z * Z) :=
  let '(digest, expected_offset, previous_sequence, volume_count) := st in
  _ ← _validate_raw_volume file volume expected_offset previous_sequence;
  identity ← _volume_identity volume;
  digest ← update_framed digest identity;
  Ok (digest, expected_offset + srv_plaintext_bytes volume, srv_sequence volume, volume_count + 1).

Definition raw_file_ordered_volume_commitment `{PyEnv} (file : ArchiveFile) (volumes : list SealedRawVolume) :
    result pystr :=
  normalized ← _normalized_raw_file file;
  header ← update_framed [] (file_identity normalized);
  '(digest, expected_offset, _, volume_count) ← foldM (sequence_step normalized) (header, 0, -1, 0) volumes;
  when (volume_count <? 1) || negb (expected_offset =? af_bytes normalized)
    raise ValueError "sealed raw volume sequence does not cover the requested file";
  Ok (sha256_hex digest).

(** ** Receipts *)

Definition raw_file_verification_payload `{UnicodeData} (receipt : VerifiedRawFile) : result json :=
  path ← normalize_relpath (vrf_path receipt);
  when startswith RESERVED_ARCHIVE_PREFIX path
    raise ValueError "raw verification path uses the reserved archive namespace";
  when (vrf_bytes receipt <? 0) || negb (sha256_fullmatch (vrf_sha256 receipt))
    raise ValueError "raw verification file identity is invalid";
  when negb (sha256_fullmatch (vrf_ordered_volume_sha256 receipt)) || bool_decide (vrf_verified_at receipt = [])
    raise ValueError "raw verification receipt identity is invalid";
  Ok (JObj [(str "schema", JStr RAW_FILE_VERIFICATION_SCHEMA); (str "path", JStr path);
            (str "bytes", JInt (vrf_bytes receipt)); (str "sha256", JStr (vrf_sha256 receipt));
            (str "ordered_volume_sha256", JStr (vrf_ordered_volume_sha256 receipt));
            (str "verified_at", JStr (vrf_verified_at receipt))]).

Definition receipt_for (file : ArchiveFile) (commitment verified_at : pystr) : VerifiedRawFile :=
  {| vrf_path := af_path file; vrf_bytes := af_bytes file; vrf_sha256 := af_sha256 file;
     vrf_ordered_volume_sha256 := commitment; vrf_verified_at := verified_at |}.

Definition verify_raw_file_from_digest_summary `{PyEnv} (file : ArchiveFile) (volumes : list SealedRawVolume)
    (summary : RawSourceDigestSummary) (verified_at : pystr) : result VerifiedRawFile :=
  normalized_file ← _normalized_raw_file file;
  when bool_decide (verified_at = []) raise ValueError "raw verification timestamp is required";
  when negb (bool_decide (rs_path summary = af_path normalized_file))
       || negb (rs_bytes summary =? af_bytes normalized_file)
       || negb (bool_decide (rs_sha256 summary = af_sha256 normalized_file))
    raise ValueError "raw source digest summary does not match the file";
  commitment ← raw_file_ordered_volume_commitment normalized_file volumes;
  Ok (receipt_for normalized_file commitment verified_at).

(** ** Reading parts from a stream *)

(** [while remaining: ...] of both readers: the pieces taken for one part and
    what is left of the buffer and of the source.  A turn that does not finish
    the part empties the buffer, so the next one pulls a chunk (and again while
    chunks are empty); a source that is exhausted raises [ended] unless it ends
    with an exception of its own. *)
Fixpoint read_part (ended : exn) (ending : result unit) (remaining : Z) (buffer : pybytes)
    (source : list pybytes) : list pybytes * result (pybytes * list pybytes) :=
  let size := Z.min remaining (len buffer) in
  let current := if size =? 0 then [] else [take (Z.to_nat size) buffer] in
  if remaining =? size then (current, Ok (drop (Z.to_nat size) buffer, source))
  else match source with
       | [] => (current, _ ← ending; Err ended)
       | chunk :: source' =>
           let '(out, r) := read_part ended ending (remaining - size) chunk source' in (current ++ out, r)
       end.

(** [if buffer: raise ...; for current in source: if bytes(current): raise ...] *)
Fixpoint drained (longer : exn) (ending : result unit) (buffer : pybytes) (source : list pybytes) : result unit :=
  match buffer with
  | _ :: _ => Err longer
  | [] => match source with [] => ending | chunk :: source' => drained longer ending chunk source' end
  end.

(** [_iter_verified_stored_parts] from part [expected_number] on. *)
Fixpoint stored_parts (ending : result unit) (expected_number : Z) (parts : list StoredArchivePart)
    (buffer : pybytes) (source : list pybytes) : stream :=
  match parts with
  | [] => ([], drained (Exn ValueError (str "raw ciphertext is longer than its recorded parts")) ending buffer source)
  | part :: parts' =>
      if negb (sap_number part =? expected_number) || (sap_stored_bytes part <=? 0)
      then stop (Exn ValueError (str "raw stored part order is invalid"))
      else
        let '(pieces, r) := read_part (Exn ValueError (str "raw ciphertext ended before its recorded parts"))
                              ending (sap_stored_bytes part) buffer source in
        match r with
        | Err e => (pieces, Err e)
        | Ok (buffer, source) =>
            if negb (bool_decide (sha256_hex (concat pieces) = sap_stored_sha256 part))
            then (pieces, Err (Exn ValueError (str "raw stored part sha256 mismatch")))
            else let '(rest, r) := stored_parts ending (expected_number + 1) parts' buffer source in
                 (pieces ++ rest, r)
        end
  end.

Definition _iter_verified_stored_parts (chunks : stream) (parts : list StoredArchivePart) : stream :=
  stored_parts chunks.2 1 parts [] chunks.1.

(** [_consume_verified_plaintext_parts] from part [expected_number] on; it
    returns the total and the bytes [file_digest] has received. *)
Fixpoint plaintext_parts (ending : result unit) (expected_number : Z) (parts : list StoredArchivePart)
    (buffer : pybytes) (source : list pybytes) (total : Z) (file_digest : pybytes) : result (Z * pybytes) :=
  match parts with
  | [] =>
      _ ← drained (Exn ValueError (str "raw plaintext is longer than its recorded parts")) ending buffer source;
      Ok (total, file_digest)
  | part :: parts' =>
      when negb (sap_number part =? expected_number) || (sap_plaintext_bytes part <? 0)
        raise ValueError "raw plaintext part order is invalid";
      let '(pieces, r) := read_part (Exn ValueError (str "raw plaintext ended before its recorded parts"))
                            ending (sap_plaintext_bytes part) buffer source in
      '(buffer, source) ← r;
      when negb (bool_decide (sha256_hex (concat pieces) = sap_plaintext_sha256 part))
        raise ValueError "raw plaintext part sha256 mismatch";
      plaintext_parts ending (expected_number + 1) parts' buffer source (total + len (concat pieces))
        (file_digest ++ concat pieces)
  end.

Definition _consume_verified_plaintext_parts (chunks : stream) (parts : list StoredArchivePart)
    (file_digest : pybytes) : result (Z * pybytes) :=
  plaintext_parts chunks.2 1 parts [] chunks.1 0 file_digest.

(** ** Reading a file back *)

Section verify.
Context `{PyEnv} `{Aead}.

(** One turn of [for volume in volumes]: the two digests, the bytes so far, the
    previous sequence, the count. *)
Definition verify_step (file : ArchiveFile) (pass : pystr) (read_ciphertext_chunks : pystr → result stream)
    (st : pybytes * pybytes * Z * Z * Z) (volume : SealedRawVolume) : result (pybytes * pybytes * Z * Z * Z) :=
  let '(sequence_digest, file_digest, file_bytes, previous_sequence, volume_count) := st in
  _ ← _validate_raw_volume file volume file_bytes previous_sequence;
  identity ← _volume_identity volume;
  sequence_digest ← update_framed sequence_digest identity;
  chunks ← read_ciphertext_chunks (srv_relative_path volume);
  let ciphertext := _iter_verified_stored_parts chunks (srv_parts volume) in
  let plaintext := iter_decrypt_age_scrypt ciphertext (PassText pass) None in
  '(segment_bytes, file_digest) ← _consume_verified_plaintext_parts plaintext (srv_parts volume) file_digest;
  when negb (segment_bytes =? srv_plaintext_bytes volume)
    raise ValueError "decrypted raw volume byte count mismatch";
  Ok (sequence_digest, file_digest, file_bytes + segment_bytes, srv_sequence volume, volume_count + 1).

Definition verify_raw_file (file : ArchiveFile) (volumes : list SealedRawVolume) (pass : pystr)
    (read_ciphertext_chunks : pystr → result stream) (verified_at : pystr) : result VerifiedRawFile :=
  normalized_file ← _normalized_raw_file file;
  when bool_decide (pass = []) || bool_decide (verified_at = [])
    raise ValueError "raw verification requires a passphrase and verification timestamp";
  header ← update_framed [] (file_identity normalized_file);
  '(sequence_digest, file_digest, file_bytes, _, volume_count) ←
     foldM (verify_step normalized_file pass read_ciphertext_chunks) (header, [], 0, -1, 0) volumes;
  when (volume_count <? 1) || negb (file_bytes =? af_bytes normalized_file)
       || negb (bool_decide (sha256_hex file_digest = af_sha256 normalized_file))
    raise ValueError "sealed raw file verification failed";
  Ok (receipt_for normalized_file (sha256_hex sequence_digest) verified_at).
End verify.

(** ** Parts of a byte sequence *)

(** [data] is cut into consecutive pieces with the sizes and digests that the
    parts record. *)
Definition cut_into (size : StoredArchivePart → Z) (sha : StoredArchivePart → pystr)
    (parts : list StoredArchivePart) (data : pybytes) : Prop :=
  ∃ pieces, Forall2 (λ part piece, len piece = size part ∧ sha256_hex piece = sha part) parts pieces ∧
    data = concat pieces.

Definition stored_as := cut_into sap_stored_bytes sap_stored_sha256.
Definition plaintext_as := cut_into sap_plaintext_bytes sap_plaintext_sha256.

Lemma len_app_le {A} (l k : list A) : len l ≤ len (l ++ k).
Proof. rewrite len_app. pose proof (len_nonneg k). lia. Qed.

Lemma cut_into_nil size sha data : cut_into size sha [] data ↔ data = [].
Proof.
  split.
  - intros (pieces & Hp & ->). by apply Forall2_nil_inv_l in Hp as ->.
  - intros ->. exists []. split; [constructor|done].
Qed.

Lemma cut_into_cons size sha part parts data : 0 ≤ size part →
  cut_into size sha (part :: parts) data ↔
  size part ≤ len data ∧ sha256_hex (take (Z.to_nat (size part)) data) = sha part ∧
  cut_into size sha parts (drop (Z.to_nat (size part)) data).
Proof.
  intros Hs. split.
  - intros (pieces & Hp & ->). apply Forall2_cons_inv_l in Hp as (p & ps & [Hl Hh] & Hps & ->). cbn [concat].
    assert (Z.to_nat (size part) = length p) as -> by (unfold len in Hl; lia).
    rewrite take_app_length, drop_app_length. split_and!; [rewrite <- Hl; apply len_app_le|done|by exists ps].
  - intros (Hl & Hh & ps & Hps & Hd). exists (take (Z.to_nat (size part)) data :: ps). split.
    + constructor; [split; [len_lia|done]|done].
    + cbn [concat]. by rewrite <- Hd, take_drop.
Qed.

Lemma cut_into_len size sha parts data : cut_into size sha parts data → len data = sumZ size parts.
Proof.
  intros (pieces & Hp & ->). rewrite len_concat. induction Hp as [|part p parts ps [Hl _] _ IH]; [done|].
  rewrite !sumZ_cons. lia.
Qed.

(** One part is read exactly when the source is long enough; what was read and
    what is left are the two parts of its bytes, however it is chunked. *)
Lemma read_part_spec ended ending remaining buffer source :
  0 ≤ remaining → let data := buffer ++ concat source in
  if remaining <=? len data then
    ∃ pieces buffer' source', read_part ended ending remaining buffer source = (pieces, Ok (buffer', source')) ∧
      concat pieces = take (Z.to_nat remaining) data ∧ buffer' ++ concat source' = drop (Z.to_nat remaining) data
  else ∃ pieces, read_part ended ending remaining buffer source = (pieces, _ ← ending; Err ended).
Proof.
  revert remaining buffer. induction source as [|chunk source IH]; intros remaining buffer Hr data;
    cbn [read_part]; remember (Z.min remaining (len buffer)) as size eqn:Hmin; pose proof (len_nonneg buffer) as Hb;
    set (current := if size =? 0 then [] else _);
    assert (concat current = take (Z.to_nat size) buffer) as Hc by
      (unfold current; destruct (Z.eqb_spec size 0) as [->|]; [done|cbn; by rewrite app_nil_r]).
  all: destruct (Z.eqb_spec remaining size) as [Heq|Hne].
  1, 3: rewrite (proj2 (Z.leb_le _ _)) by (etrans; [|apply len_app_le]; lia); eexists _, _, _; split; [done|];
    unfold data, len in *; rewrite take_app_le, drop_app_le by lia; by rewrite Heq.
  all: assert (size = len buffer) as Hsize by lia.
  - rewrite (proj2 (Z.leb_gt _ _)); [by eexists|]. unfold data. rewrite app_nil_r. lia.
  - specialize (IH (remaining - size) chunk ltac:(lia)). cbv zeta in IH.
    assert (∀ P, (remaining - size <=? len (chunk ++ concat source)) = P → (remaining <=? len data) = P) as Hlen.
    { intros P <-. unfold data. cbn [concat]. rewrite (len_app buffer).
      destruct (Z.leb_spec remaining (len buffer + len (chunk ++ concat source))),
        (Z.leb_spec (remaining - size) (len (chunk ++ concat source))); lia || done. }
    destruct (remaining - size <=? len (chunk ++ concat source)) eqn:E; rewrite (Hlen _ eq_refl).
    + destruct IH as (pieces & b & s & -> & Hp & Hs). eexists _, b, s. split; [done|].
      rewrite concat_app, Hc, Hp, Hs. unfold data, len in *. cbn [concat].
      assert (Z.to_nat remaining = length buffer + Z.to_nat (remaining - size))%nat as -> by lia.
      rewrite take_app_add, drop_app_add. rewrite (take_ge buffer) by lia. done.
    + destruct IH as (pieces & ->). by eexists.
Qed.

Lemma drained_spec longer ending buffer source :
  drained longer ending buffer source = Ok tt ↔ ending = Ok tt ∧ buffer ++ concat source = [].
Proof.
  revert buffer. induction source as [|chunk source IH]; intros [|b buffer]; cbn [drained concat app]; try naive_solver.
Qed.

(** Parts numbered from [n] with sizes the readers accept. *)
Definition parts_numbered (n : Z) (parts : list StoredArchivePart) : Prop := sap_number <$> parts = rangeZ n (n + len parts).

Lemma parts_numbered_cons n part parts : parts_numbered n (part :: parts) ↔ sap_number part = n ∧ parts_numbered (n + 1) parts.
Proof.
  unfold parts_numbered. rewrite len_cons, rangeZ_cons, fmap_cons by len_lia. rewrite Z.add_assoc.
  split; [by intros [? ?]%cons_eq|]. by intros [-> ->].
Qed.

(** The verifying stream ends well exactly when the stored bytes are the
    recorded parts, and then it has yielded all of them. *)
Lemma stored_parts_spec ending n parts buffer source :
  parts_numbered n parts → Forall (λ p, 1 ≤ sap_stored_bytes p) parts →
  ((stored_parts ending n parts buffer source).2 = Ok tt ↔
     ending = Ok tt ∧ stored_as parts (buffer ++ concat source)) ∧
  ((stored_parts ending n parts buffer source).2 = Ok tt →
     concat (stored_parts ending n parts buffer source).1 = buffer ++ concat source).
Proof.
  unfold stored_as. revert n buffer source. induction parts as [|part parts IH]; intros n buffer source Hn Hs; cbn [stored_parts].
  { cbn [fst snd]. rewrite drained_spec, cut_into_nil. split; [done|]. by intros [_ ->]. }
  apply parts_numbered_cons in Hn as [Hn Hns]. apply Forall_cons in Hs as [Hp Hps].
  rewrite Hn, Z.eqb_refl, (proj2 (Z.leb_gt _ _)) by lia. cbn [negb orb].
  rewrite cut_into_cons by lia. set (data := buffer ++ concat source).
  set (ended := Exn ValueError _).
  pose proof (read_part_spec ended ending (sap_stored_bytes part) buffer source ltac:(lia)) as Hread.
  cbv zeta in Hread. fold data in Hread. destruct (Z.leb_spec (sap_stored_bytes part) (len data)) as [Hl|Hl].
  - destruct Hread as (pieces & b & s & -> & Hpieces & Hrest). rewrite Hpieces.
    destruct (bool_decide _) eqn:E; bool_prop; cbn [negb]; [|cbn; naive_solver].
    destruct (IH (n + 1) b s Hns Hps) as [Hiff Hout].
    destruct (stored_parts ending (n + 1) parts b s) as [rest r]. cbn [fst snd] in *.
    rewrite Hrest in Hiff, Hout. split; [rewrite Hiff; naive_solver|].
    intros Hr. by rewrite concat_app, Hpieces, (Hout Hr), take_drop.
  - destruct Hread as (pieces & ->). destruct ending; cbn; split; naive_solver lia.
Qed.

(** The same for the consumer of the plaintext. *)
Lemma plaintext_parts_spec ending n parts buffer source total digest r :
  parts_numbered n parts → Forall (λ p, 0 ≤ sap_plaintext_bytes p) parts →
  plaintext_parts ending n parts buffer source total digest = Ok r ↔
  ending = Ok tt ∧ plaintext_as parts (buffer ++ concat source) ∧
  r = (total + len (buffer ++ concat source), digest ++ buffer ++ concat source).
Proof.
  unfold plaintext_as. revert n buffer source total digest. induction parts as [|part parts IH]; intros n buffer source total digest Hn Hs;
    cbn [plaintext_parts].
  { rewrite bind_Ok, cut_into_nil. split.
    - intros ([] & (-> & Hd)%drained_spec & [= <-]). rewrite Hd, app_nil_r. cbn [len length Z.of_nat]. by rewrite Z.add_0_r.
    - intros (-> & Hd & ->). exists tt. rewrite drained_spec, Hd, app_nil_r. cbn [len length Z.of_nat]. by rewrite Z.add_0_r. }
  apply parts_numbered_cons in Hn as [Hn Hns]. apply Forall_cons in Hs as [Hp Hps].
  rewrite Hn, Z.eqb_refl, (proj2 (Z.ltb_ge _ _)) by lia. cbn [negb orb].
  rewrite cut_into_cons by lia. set (data := buffer ++ concat source). set (ended := Exn ValueError _).
  pose proof (read_part_spec ended ending (sap_plaintext_bytes part) buffer source ltac:(lia)) as Hread.
  cbv zeta in Hread. fold data in Hread. destruct (Z.leb_spec (sap_plaintext_bytes part) (len data)) as [Hl|Hl].
  - destruct Hread as (pieces & b & s & -> & Hpieces & Hrest). rewrite ok_bind, Hpieces.
    destruct (bool_decide _) eqn:E; bool_prop; cbn [negb]; [|naive_solver].
    rewrite IH by done. rewrite Hrest, <- app_assoc, <- Z.add_assoc, <- len_app, take_drop. naive_solver.
  - destruct Hread as (pieces & ->). destruct ending; cbn; split; naive_solver lia.
Qed.

(** ** Validated volumes *)

(** Parts whose plaintext ranges follow each other from [s] on. *)
Fixpoint parts_start (s : Z) (parts : list StoredArchivePart) : Prop :=
  match parts with
  | [] => True
  | part :: parts' => sap_plaintext_start part = s ∧ parts_start (s + sap_plaintext_bytes part) parts'
  end.

Lemma part_receipt_steps n s parts n' s' :
  foldM part_receipt_step (n, s) parts = Ok (n', s') →
  parts_numbered n parts ∧ parts_start s parts ∧ s' = s + sumZ sap_plaintext_bytes parts ∧
  Forall (λ p, 0 ≤ sap_plaintext_bytes p ∧ 1 ≤ sap_stored_bytes p ∧
    sha256_fullmatch (sap_plaintext_sha256 p) = true ∧ sha256_fullmatch (sap_stored_sha256 p) = true) parts.
Proof.
  revert n s. induction parts as [|part parts IH]; intros n s Hf; cbn [foldM] in Hf.
  - injection Hf as <- <-. split_and!; [unfold parts_numbered; by rewrite Z.add_0_r, rangeZ_empty|done|cbn; lia|constructor].
  - apply bind_Ok in Hf as ([n1 s1] & Hstep & Hf). apply IH in Hf as (Hn & Hst & -> & Hf).
    unfold part_receipt_step in Hstep. inv_ok Hstep. bool_prop. subst n1 s1.
    rewrite sumZ_cons, parts_numbered_cons. cbn [parts_start]. split_and!; [lia|done|lia|done|lia|].
    constructor; [|done]. split_and!; [lia|lia|done|done].
Qed.

(** What the checks of a volume establish of its parts. *)
Record volume_checked (volume : SealedRawVolume) : Prop := {
  vc_parts : srv_parts volume ≠ [];
  vc_numbered : parts_numbered 1 (srv_parts volume);
  vc_starts : parts_start 0 (srv_parts volume);
  vc_cover : sumZ sap_plaintext_bytes (srv_parts volume) = srv_plaintext_bytes volume;
  vc_plaintext : Forall (λ p, 0 ≤ sap_plaintext_bytes p) (srv_parts volume);
  vc_stored : Forall (λ p, 1 ≤ sap_stored_bytes p) (srv_parts volume);
  vc_digests : Forall (λ p, sha256_fullmatch (sap_plaintext_sha256 p) = true ∧
                            sha256_fullmatch (sap_stored_sha256 p) = true) (srv_parts volume);
}.

Lemma validated_parts parts n : _validate_part_receipts parts n = Ok tt →
  parts ≠ [] ∧ parts_numbered 1 parts ∧ parts_start 0 parts ∧ sumZ sap_plaintext_bytes parts = n ∧
  Forall (λ p, 0 ≤ sap_plaintext_bytes p ∧ 1 ≤ sap_stored_bytes p ∧
    sha256_fullmatch (sap_plaintext_sha256 p) = true ∧ sha256_fullmatch (sap_stored_sha256 p) = true) parts.
Proof.
  unfold _validate_part_receipts. intros Hv. inv_step Hv. apply bind_Ok in Hv as ([n' s'] & Hf & Hv).
  inv_ok Hv. bool_prop. apply part_receipt_steps in Hf as (Hn & Hst & -> & Hf). split_and!; [done|done|done|lia|done].
Qed.

Lemma validated_volume `{UnicodeData} file volume offset previous :
  _validate_raw_volume file volume offset previous = Ok tt →
  volume_checked volume ∧ srv_file_offset volume = offset ∧ 0 ≤ srv_plaintext_bytes volume ∧
  previous < srv_sequence volume < 2 ^ 256 ∧ srv_volume_id volume = segment_id (srv_sequence volume) ∧
  srv_file_bytes volume = af_bytes file ∧ srv_file_sha256 volume = af_sha256 file ∧
  normalize_relpath (srv_source_path volume) = Ok (af_path file) ∧
  normalize_relpath (srv_relative_path volume) = Ok (str "volumes/" ++ srv_volume_id volume ++ str ".bin.age") ∧
  ∃ state, from_json_text (srv_age_state_json volume) = Ok state ∧
    us_plaintext_size state = Some (srv_plaintext_bytes volume).
Proof.
  unfold _validate_raw_volume. intros Hv. apply bind_Ok in Hv as (source & Hsource & Hv).
  apply bind_Ok in Hv as (rel & Hrel & Hv). inv_step Hv. apply bind_Ok in Hv as (state & Hstate & Hv).
  inv_step Hv. bool_prop. change (Z.shiftl 1 256) with (2 ^ 256) in *. subst source rel.
  apply validated_parts in Hv as (Hne & Hn & Hst & Hsum & Hf). rewrite !Forall_and in Hf. destruct Hf as (? & ? & ? & ?).
  split; [by split; try (apply Forall_and; split)|]. split_and!; try done; try lia. by exists state.
Qed.

Section verified.
Context `{PyEnv} `{Aead}.

(** The stored object of a volume is its recorded parts, decrypts as a whole to
    [p], and [p] is its recorded plaintext parts. *)
Definition reads_back (pass : pystr) (read : pystr → result stream) (volume : SealedRawVolume) (p : pybytes) : Prop :=
  ∃ chunks, read (srv_relative_path volume) = Ok (chunks, Ok tt) ∧
    stored_as (srv_parts volume) (concat chunks) ∧
    decrypt_age_scrypt (concat chunks) (PassText pass) None = Ok p ∧
    plaintext_as (srv_parts volume) p.

Lemma decoders_agree_ok s m p : decoders_agree s m → (s.2 = Ok tt ∧ concat s.1 = p) ↔ m = Ok p.
Proof.
  destruct s as [out [[]|e]]; unfold decoders_agree, agrees; cbn [fst snd].
  - intros [Ha|(-> & e & [=] & _)]. destruct m; naive_solver.
  - intros [Ha|(-> & _)]; [destruct m|]; naive_solver.
Qed.

(** The composed streams compute the whole-file specification. *)
Lemma consume_decrypted chunks parts pass digest r :
  parts_numbered 1 parts → Forall (λ p, 1 ≤ sap_stored_bytes p) parts → Forall (λ p, 0 ≤ sap_plaintext_bytes p) parts →
  _consume_verified_plaintext_parts (iter_decrypt_age_scrypt (_iter_verified_stored_parts chunks parts) (PassText pass) None)
    parts digest = Ok r ↔
  ∃ p, chunks.2 = Ok tt ∧ stored_as parts (concat chunks.1) ∧
    decrypt_age_scrypt (concat chunks.1) (PassText pass) None = Ok p ∧ plaintext_as parts p ∧
    r = (len p, digest ++ p).
Proof.
  intros Hn Hs Hp. unfold _consume_verified_plaintext_parts. rewrite plaintext_parts_spec by done. cbn [app].
  unfold _iter_verified_stored_parts. destruct (stored_parts_spec chunks.2 1 parts [] chunks.1 Hn Hs) as [Hiff Hout].
  destruct (stored_parts chunks.2 1 parts [] chunks.1) as [out [[]|e]]; cbn [fst snd app] in *.
  - specialize (Hout eq_refl). destruct (proj1 Hiff eq_refl) as [He Hst]. rewrite <- Hout in Hst |- *.
    pose proof (decoders_agree_any out (PassText pass) None) as Hag. rewrite He. split.
    + intros (Hok & Hpl & ->). eexists. split_and!; [done|done| |exact Hpl|done].
      by apply (decoders_agree_ok _ _ _ Hag).
    + intros (p & _ & _ & Hd & Hpl & ->). apply (decoders_agree_ok _ _ _ Hag) in Hd as [Hok <-]. done.
  - destruct (failing_source_fails out e (PassText pass) None) as [e' He]. rewrite He. split; [naive_solver|].
    intros (p & Hok & Hst & _). discriminate (proj2 Hiff (conj Hok Hst)).
Qed.

Lemma sequence_step_iff file digest offset previous count volume r :
  sequence_step file (digest, offset, previous, count) volume = Ok r ↔
  _validate_raw_volume file volume offset previous = Ok tt ∧
  ∃ identity digest', _volume_identity volume = Ok identity ∧ update_framed digest identity = Ok digest' ∧
    r = (digest', offset + srv_plaintext_bytes volume, srv_sequence volume, count + 1).
Proof.
  unfold sequence_step. split.
  - intros Hs. apply bind_Ok in Hs as ([] & Hv & Hs). apply bind_Ok in Hs as (identity & Hi & Hs).
    apply bind_Ok in Hs as (digest' & Hd & [= <-]). split; [done|]. by exists identity, digest'.
  - intros (Hv & identity & digest' & Hi & Hd & ->). by rewrite Hv, ok_bind, Hi, ok_bind, Hd.
Qed.

Lemma verify_step_iff file pass read sd fd offset previous count volume r :
  verify_step file pass read (sd, fd, offset, previous, count) volume = Ok r ↔
  ∃ sd' p, sequence_step file (sd, offset, previous, count) volume =
      Ok (sd', offset + srv_plaintext_bytes volume, srv_sequence volume, count + 1) ∧
    reads_back pass read volume p ∧
    r = (sd', fd ++ p, offset + srv_plaintext_bytes volume, srv_sequence volume, count + 1).
Proof.
  unfold verify_step. setoid_rewrite sequence_step_iff. split.
  - intros Hr. apply bind_Ok in Hr as ([] & Hv & Hr). apply bind_Ok in Hr as (identity & Hi & Hr).
    apply bind_Ok in Hr as (sd' & Hd & Hr). apply bind_Ok in Hr as (chunks & Hread & Hr). cbv zeta in Hr.
    apply bind_Ok in Hr as ([n digest] & Hc & Hr). pose proof Hv as [Hck _]%validated_volume. destruct Hck as [Hne Hn _ Hcov Hp Hs _].
    apply consume_decrypted in Hc as (p & Hend & Hst & Hdec & Hpl & [= -> ->]); [|done..].
    inv_ok Hr. subst r. bool_prop. rewrite (cut_into_len _ _ _ _ Hpl), Hcov.
    exists sd', p. split; [split; [done|by exists identity, sd']|]. split; [|done].
    exists chunks.1. split_and!; [|done..]. rewrite Hread. destruct chunks as [? ?]. cbn in *. by subst.
  - intros (sd' & p & (Hv & identity & sd'' & Hi & Hd & [= ->]) & (chunks & Hread & Hst & Hdec & Hpl) & ->).
    pose proof Hv as [Hck _]%validated_volume. destruct Hck as [Hne Hn _ Hcov Hp Hs _].
    rewrite Hv, ok_bind, Hi, ok_bind, Hd, ok_bind, Hread, ok_bind. cbv zeta.
    rewrite (proj2 (consume_decrypted (chunks, Ok tt) _ pass fd (len p, fd ++ p) Hn Hs Hp)) by eauto 10.
    rewrite ok_bind, (cut_into_len _ _ _ _ Hpl), Hcov, Z.eqb_refl. done.
Qed.

(** The loop that reads back is the loop of the commitment next to the
    plaintexts of the volumes. *)
Lemma verify_steps_iff file pass read volumes sd fd offset previous count sd' fd' offset' previous' count' :
  foldM (verify_step file pass read) (sd, fd, offset, previous, count) volumes = Ok (sd', fd', offset', previous', count') ↔
  foldM (sequence_step file) (sd, offset, previous, count) volumes = Ok (sd', offset', previous', count') ∧
  ∃ plaintexts, Forall2 (reads_back pass read) volumes plaintexts ∧ fd' = fd ++ concat plaintexts.
Proof.
  revert sd fd offset previous count. induction volumes as [|v volumes IH]; intros sd fd offset previous count; cbn [foldM].
  { split.
    - intros [= <- <- <- <- <-]. split; [done|]. exists []. split; [constructor|]. by rewrite app_nil_r.
    - intros ([= <- <- <- <-] & ps & ->%Forall2_nil_inv_l & ->). by rewrite app_nil_r. }
  rewrite !bind_Ok. split.
  - intros (r & (sd1 & p & Hs & Hr & ->)%verify_step_iff & (Hf & ps & Hps & ->)%IH).
    split; [eauto|]. exists (p :: ps). split; [by constructor|]. cbn [concat]. by rewrite app_assoc.
  - intros ((r & Hs & Hf) & ps & (p & ps' & Hp & Hps & ->)%Forall2_cons_inv_l & ->).
    pose proof Hs as (_ & i & sd1 & _ & _ & ->)%sequence_step_iff. eexists. split.
    + apply verify_step_iff. by exists sd1, p.
    + apply IH. split; [done|]. exists ps'. cbn [concat]. by rewrite app_assoc.
Qed.
End verified.

(** ** Frames *)

Lemma canonical_json_inj `{PyEnv} v w bs : json_wf v → json_wf w →
  canonical_json_bytes v = Ok bs → canonical_json_bytes w = Ok bs → canon v = canon w.
Proof.
  unfold canonical_json_bytes. intros Hv Hw Hbv Hbw.
  assert (∀ x, json_wf x → Forall is_code_point (dumps false x)) as Hcp
    by (intros x Hx; eapply Forall_impl; [by apply (dumps_text false)|by intros ? []]).
  pose proof (utf8_roundtrip _ _ (Hcp v Hv) Hbv) as Hdv. pose proof (utf8_roundtrip _ _ (Hcp w Hw) Hbw) as Hdw.
  rewrite Hdv in Hdw. injection Hdw as Hd. pose proof (loads_dumps false v Hv) as Hl.
  rewrite Hd, loads_dumps in Hl by done. by injection Hl.
Qed.

Definition frame (encoded : pybytes) : pybytes := be_bytes 8 (len encoded) ++ encoded.

Lemma update_framed_iff `{PyEnv} digest v digest' : update_framed digest v = Ok digest' ↔
  ∃ encoded, canonical_json_bytes v = Ok encoded ∧ len encoded < 256 ^ 8 ∧ digest' = digest ++ frame encoded.
Proof.
  unfold update_framed, frame, to_bytes_big. rewrite bind_Ok. apply exist_proper. intros encoded.
  pose proof (len_nonneg encoded). split; intros [Hc Hr]; (split; [done|]).
  - inv_ok Hr. bool_prop. subst. split; [by apply Z.leb_gt|done].
  - destruct Hr as [Hl ->]. by rewrite (proj2 (Z.ltb_ge _ _)), (proj2 (Z.leb_gt _ _)).
Qed.

(** Length-prefixed sequences are uniquely readable. *)
Lemma frames_inj l k : Forall (λ e, len e < 256 ^ 8) l → Forall (λ e, len e < 256 ^ 8) k →
  concat (frame <$> l) = concat (frame <$> k) → l = k.
Proof.
  revert k. induction l as [|a l IH]; intros [|b k] Hl Hk; cbn [fmap list_fmap concat]; try done.
  unfold frame at 1 3. rewrite <- !app_assoc. apply Forall_cons in Hl as [Ha Hl], Hk as [Hb Hk].
  intros Heq. apply app_inj_1 in Heq as [Hn Heq]; [|by rewrite !length_be_bytes].
  apply (f_equal from_bytes_big) in Hn. rewrite !from_be_bytes in Hn by (split; [apply len_nonneg|done]).
  apply app_inj_1 in Heq as [-> Heq]; [|unfold len in Hn; lia]. f_equal. by apply IH.
Qed.

(** ** The identity of a volume determines what it records *)

Lemma b64_field_bytes key o bs : b64_field key o = Ok bs → bytes_ok bs.
Proof.
  unfold b64_field. destruct (dict_get _ o) as [[| | | |s|l|d]|]; try done.
  - unfold _b64_decode. intros Hb. inv_step Hb. destruct (b64decode _) as [raw|] eqn:Hd; [|done].
    inv_ok Hb. subst. by apply b64decode_bytes in Hd.
  - by destruct (existsb _ _).
  - by destruct (bool_decide _).
Qed.

Lemma upload_state_read_valid raw s : upload_state_of_payload raw = Ok s → upload_state_valid s.
Proof.
  destruct raw as [| | | | | |o]; try done. unfold upload_state_of_payload. intros Hs. inv_step Hs.
  apply bind_Ok in Hs as (header & Hh%b64_field_bytes & Hs). apply bind_Ok in Hs as (nonce & Hn%b64_field_bytes & Hs).
  apply bind_Ok in Hs as (size & Hsize & Hs). inv_ok Hs. bool_prop. subst s. unfold PAYLOAD_NONCE_SIZE in *.
  split_and!; try done; [cbn; lia|]. cbn [us_plaintext_size].
  destruct (get_or_null "plaintext_size" o); try destruct (as_int _); inv_ok Hsize; subst; cbn; lia || done.
Qed.

Section identities.
Context `{PyEnv}.

Lemma upload_payload_canon s : canon (upload_state_payload s) = upload_state_payload s.
Proof. destruct s as [header nonce [n|] fmt]; reflexivity. Qed.

Lemma upload_text_valid text s : from_json_text text = Ok s → upload_state_valid s.
Proof. intros Hs. apply bind_Ok in Hs as (raw & _ & Hs). by eapply upload_state_read_valid. Qed.

Lemma upload_payload_inj s t : upload_state_valid s → upload_state_valid t →
  upload_state_payload s = upload_state_payload t → s = t.
Proof.
  intros Hs%rebuild_upload_payload Ht%rebuild_upload_payload Heq. rewrite Heq, Ht in Hs. by injection Hs.
Qed.

Lemma age_state_identity_eq text state : from_json_text text = Ok state →
  age_state_identity text = Ok (upload_state_payload state).
Proof.
  intros Hs. unfold age_state_identity. rewrite Hs, ok_bind. pose proof (upload_text_valid _ _ Hs) as Hv.
  pose proof (upload_payload_wf _ Hv) as Hwf. pose proof (dumps_text true _ Hwf) as Ht.
  destruct (utf8_encode_ok _ Ht) as [bs Hbs]. unfold to_json_bytes. rewrite Hbs, ok_bind.
  rewrite (utf8_roundtrip _ _ (Forall_impl _ _ _ Ht (λ c Hc, proj1 Hc)) Hbs), ok_bind, loads_dumps by done.
  by rewrite upload_payload_canon.
Qed.

(** What [_volume_identity] puts into the commitment, as values. *)
Definition volume_key (v : SealedRawVolume) : pystr * Z * Z * Z * result UploadState * list StoredArchivePart :=
  (srv_volume_id v, srv_sequence v, srv_file_offset v, srv_plaintext_bytes v,
   from_json_text (srv_age_state_json v), srv_parts v).

Lemma part_identity_canon part : canon (_part_identity part) =
  JObj [(str "number", JInt (sap_number part)); (str "plaintext_bytes", JInt (sap_plaintext_bytes part));
        (str "plaintext_sha256", JStr (sap_plaintext_sha256 part));
        (str "plaintext_start", JInt (sap_plaintext_start part));
        (str "stored_bytes", JInt (sap_stored_bytes part)); (str "stored_sha256", JStr (sap_stored_sha256 part))].
Proof. reflexivity. Qed.

Lemma part_identity_inj p q : canon (_part_identity p) = canon (_part_identity q) → p = q.
Proof. rewrite !part_identity_canon. intros [= ? ? ? ? ? ?]. destruct p, q; cbn in *. congruence. Qed.

Lemma part_identities_inj ps qs : map canon (_part_identity <$> ps) = map canon (_part_identity <$> qs) → ps = qs.
Proof.
  revert qs. induction ps as [|p ps IH]; intros [|q qs]; rewrite ?fmap_cons; try done. cbn [map].
  intros [Hp%part_identity_inj Hps%IH]%cons_eq. by subst.
Qed.

Lemma volume_identity_canon id seq path offset n state parts :
  canon (JObj [(str "id", JStr id); (str "sequence", JInt seq); (str "path", JStr path);
      (str "file_offset", JInt offset); (str "plaintext_bytes", JInt n); (str "age_state", state);
      (str "parts", JList parts)]) =
  JObj [(str "age_state", canon state); (str "file_offset", JInt offset); (str "id", JStr id);
        (str "parts", JList (map canon parts)); (str "path", JStr path); (str "plaintext_bytes", JInt n);
        (str "sequence", JInt seq)].
Proof. reflexivity. Qed.

Section pair.
Context (file : ArchiveFile) (v : SealedRawVolume) (offset previous : Z).
Context (Hv : _validate_raw_volume file v offset previous = Ok tt) (Hprev : -1 ≤ previous).

Lemma volume_identity_eq : ∃ state, from_json_text (srv_age_state_json v) = Ok state ∧
  _volume_identity v =
    Ok (JObj [(str "id", JStr (srv_volume_id v)); (str "sequence", JInt (srv_sequence v));
              (str "path", JStr (str "volumes/" ++ srv_volume_id v ++ str ".bin.age"));
              (str "file_offset", JInt (srv_file_offset v)); (str "plaintext_bytes", JInt (srv_plaintext_bytes v));
              (str "age_state", upload_state_payload state); (str "parts", JList (_part_identity <$> srv_parts v))]).
Proof.
  destruct (validated_volume _ _ _ _ Hv) as (_ & _ & _ & _ & _ & _ & _ & _ & Hrel & state & Hs & _).
  exists state. split; [done|]. unfold _volume_identity. by rewrite Hrel, ok_bind, (age_state_identity_eq _ _ Hs).
Qed.

Lemma part_identity_wf part : sha256_fullmatch (sap_plaintext_sha256 part) = true →
  sha256_fullmatch (sap_stored_sha256 part) = true → json_wf (_part_identity part).
Proof. intros. unfold _part_identity. wf_obj; by apply sha256_fullmatch_text. Qed.

Lemma volume_identity_wf i : _volume_identity v = Ok i → json_wf i.
Proof.
  destruct volume_identity_eq as (state & Hs & ->). intros [= <-].
  destruct (validated_volume _ _ _ _ Hv) as ([_ _ _ _ _ _ Hd] & _ & _ & Hseq & Hid & _).
  assert (text_ok (srv_volume_id v)) as Htext.
  { rewrite Hid. unfold segment_id. apply Forall_app. split; [apply str_text|]. apply sequence_text. lia. }
  assert (text_ok (str "volumes/" ++ srv_volume_id v ++ str ".bin.age")) as Hpath
    by (apply Forall_app; split; [apply str_text|]; apply Forall_app; split; [done|apply str_text]).
  wf_obj; [done|done|by apply upload_payload_wf, (upload_text_valid _ _ Hs)|].
  apply json_wf_list, Forall_fmap. eapply Forall_impl; [exact Hd|]. intros part [? ?]. by apply part_identity_wf.
Qed.
End pair.

(** Equal encoded identities record the same volume. *)
Lemma volume_identity_inj file file' v w offset offset' previous previous' i j bs :
  _validate_raw_volume file v offset previous = Ok tt → _validate_raw_volume file' w offset' previous' = Ok tt →
  -1 ≤ previous → -1 ≤ previous' → _volume_identity v = Ok i → _volume_identity w = Ok j →
  canonical_json_bytes i = Ok bs → canonical_json_bytes j = Ok bs → volume_key v = volume_key w.
Proof.
  intros Hv Hw Hp Hp' Hi Hj Hbi Hbj.
  pose proof (canonical_json_inj _ _ _ (volume_identity_wf _ _ _ _ Hv Hp _ Hi) (volume_identity_wf _ _ _ _ Hw Hp' _ Hj)
    Hbi Hbj) as Heq.
  destruct (volume_identity_eq _ _ _ _ Hv) as (s & Hs & Hei), (volume_identity_eq _ _ _ _ Hw) as (t & Ht & Hej).
  rewrite Hi in Hei. rewrite Hj in Hej. injection Hei as ->. injection Hej as ->.
  rewrite !volume_identity_canon, !upload_payload_canon in Heq.
  remember (upload_state_payload s) as ps eqn:Hps. remember (upload_state_payload t) as pt eqn:Hpt.
  injection Heq as Hst Hoff Hid Hparts _ Hn Hseq.
  apply part_identities_inj in Hparts. unfold volume_key.
  rewrite Hs, Ht, Hoff, Hid, Hparts, Hn, Hseq. do 3 f_equal.
  apply upload_payload_inj; [by eapply upload_text_valid..|]. congruence.
Qed.
End identities.

(** ** The commitment *)

Section commitment.
Context `{PyEnv}.

(** The bytes that the commitment hashes: a length-prefixed header and a
    length-prefixed identity per volume. *)
Definition encoded_identity (v : SealedRawVolume) : result pybytes :=
  identity ← _volume_identity v; canonical_json_bytes identity.

Definition sequence_input (f : ArchiveFile) (volumes : list SealedRawVolume) : result pybytes :=
  header ← canonical_json_bytes (file_identity f);
  encodings ← mapM_result encoded_identity volumes;
  Ok (concat (frame <$> header :: encodings)).

(** The volumes the loop accepts, from [offset] on and after volume [previous]. *)
Fixpoint tiles_from (f : ArchiveFile) (offset previous : Z) (volumes : list SealedRawVolume) : Prop :=
  match volumes with
  | [] => offset = af_bytes f
  | v :: volumes' =>
      -1 ≤ previous ∧ _validate_raw_volume f v offset previous = Ok tt ∧
      tiles_from f (offset + srv_plaintext_bytes v) (srv_sequence v) volumes'
  end.

(** What it is for volumes to be a file, said of their fields alone. *)
Record volume_of_file (f : ArchiveFile) (v : SealedRawVolume) : Prop := {
  vf_source : normalize_relpath (srv_source_path v) = Ok (af_path f);
  vf_size : srv_file_bytes v = af_bytes f;
  vf_digest : srv_file_sha256 v = af_sha256 f;
  vf_sequence : 0 ≤ srv_sequence v < 2 ^ 256;
  vf_id : srv_volume_id v = str "segment-" ++ format_padded 16 64 (srv_sequence v);
  vf_path : normalize_relpath (srv_relative_path v) = Ok (str "volumes/" ++ srv_volume_id v ++ str ".bin.age");
  vf_state : ∃ state, from_json_text (srv_age_state_json v) = Ok state ∧
    us_plaintext_size state = Some (srv_plaintext_bytes v);
  vf_parts : volume_checked v;
}.

(** The volumes continue the file from [offset] to its end, without gap or
    overlap, in growing sequence after [previous]. *)
Fixpoint raw_tiling (f : ArchiveFile) (offset previous : Z) (volumes : list SealedRawVolume) : Prop :=
  match volumes with
  | [] => offset = af_bytes f
  | v :: volumes' =>
      volume_of_file f v ∧ srv_file_offset v = offset ∧ 0 ≤ srv_plaintext_bytes v ∧ previous < srv_sequence v ∧
      raw_tiling f (offset + srv_plaintext_bytes v) (srv_sequence v) volumes'
  end.

Lemma tiles_raw_tiling f offset previous volumes :
  tiles_from f offset previous volumes → raw_tiling f offset previous volumes.
Proof.
  revert offset previous. induction volumes as [|v volumes IH]; intros offset previous; [done|].
  intros (Hp & Hv & Ht). cbn [raw_tiling].
  destruct (validated_volume _ _ _ _ Hv) as (Hck & Ho & Hn & Hseq & Hid & Hfb & Hfs & Hsrc & Hrel & Hstate).
  split_and!; [|exact Ho|exact Hn|lia|by apply IH]. split; try done. lia.
Qed.

Lemma sequence_steps f volumes digest offset previous count digest' offset' previous' count' :
  -1 ≤ previous → offset' = af_bytes f →
  foldM (sequence_step f) (digest, offset, previous, count) volumes = Ok (digest', offset', previous', count') →
  tiles_from f offset previous volumes ∧ count' = count + len volumes ∧
  ∃ encodings, mapM_result encoded_identity volumes = Ok encodings ∧ Forall (λ e, len e < 256 ^ 8) encodings ∧
    digest' = digest ++ concat (frame <$> encodings).
Proof.
  intros Hp Hend. revert digest offset previous count Hp. induction volumes as [|v volumes IH];
    intros digest offset previous count Hp Hf; cbn [foldM] in Hf.
  { injection Hf as <- <- <- <-. split_and!; [done|rewrite len_nil; lia|]. exists []. split_and!; [done|constructor|].
    by rewrite app_nil_r. }
  apply bind_Ok in Hf as (r & (Hv & i & d & Hi & Hd & ->)%sequence_step_iff & Hf).
  pose proof (validated_volume _ _ _ _ Hv) as (_ & _ & _ & Hseq & _).
  apply IH in Hf as (Ht & -> & es & Hes & Hsmall & ->); [|lia].
  apply update_framed_iff in Hd as (e & He & Hl & ->).
  split_and!; [done|rewrite len_cons; lia|]. exists (e :: es). cbn [mapM_result].
  assert (encoded_identity v = Ok e) as -> by (unfold encoded_identity; by rewrite Hi).
  rewrite ok_bind, Hes. split_and!; [done|by constructor|].
  cbn [fmap list_fmap concat]. by rewrite app_assoc.
Qed.

Lemma commitment_input file volumes h : raw_file_ordered_volume_commitment file volumes = Ok h →
  ∃ f header encodings, _normalized_raw_file file = Ok f ∧ volumes ≠ [] ∧ tiles_from f 0 (-1) volumes ∧
    canonical_json_bytes (file_identity f) = Ok header ∧ mapM_result encoded_identity volumes = Ok encodings ∧
    Forall (λ e, len e < 256 ^ 8) (header :: encodings) ∧ h = sha256_hex (concat (frame <$> header :: encodings)).
Proof.
  unfold raw_file_ordered_volume_commitment. intros Hh. apply bind_Ok in Hh as (f & Hf & Hh).
  apply bind_Ok in Hh as (d & (header & Hc & Hl & ->)%update_framed_iff & Hh).
  apply bind_Ok in Hh as ([[[digest offset] previous] count] & Hfold & Hh). inv_ok Hh. bool_prop. subst h.
  apply sequence_steps in Hfold as (Ht & -> & es & Hes & Hsmall & ->); [|lia|lia].
  exists f, header, es. split_and!; try done; [|by constructor].
  intros ->. done.
Qed.

Lemma tiles_keys f g volumes volumes' offset previous encodings :
  tiles_from f offset previous volumes → tiles_from g offset previous volumes' →
  mapM_result encoded_identity volumes = Ok encodings → mapM_result encoded_identity volumes' = Ok encodings →
  volume_key <$> volumes = volume_key <$> volumes'.
Proof.
  revert volumes' offset previous encodings. induction volumes as [|v volumes IH]; intros [|w volumes'] offset previous encodings Ht Ht' He He';
    cbn [mapM_result] in *; inv_ok He; inv_ok He'; subst; try done.
  destruct Ht as (Hp & Hv & Ht), Ht' as (_ & Hw & Ht'). injection He' as -> ->.
  apply bind_Ok in E as (i & Hi & Hbi), E1 as (j & Hj & Hbj).
  pose proof (volume_identity_inj _ _ _ _ _ _ _ _ _ _ _ Hv Hw Hp Hp Hi Hj Hbi Hbj) as Hkey.
  rewrite !fmap_cons, Hkey. f_equal. unfold volume_key in Hkey. injection Hkey as _ Hseq _ Hn _ _. rewrite Hseq, Hn in Ht.
  by eapply IH.
Qed.

Lemma file_identity_inj f g bs : text_ok (af_path f) → text_ok (af_path g) →
  sha256_fullmatch (af_sha256 f) = true → sha256_fullmatch (af_sha256 g) = true →
  canonical_json_bytes (file_identity f) = Ok bs → canonical_json_bytes (file_identity g) = Ok bs → f = g.
Proof.
  intros Hf Hg Hsf Hsg Hbf Hbg.
  assert (∀ x, text_ok (af_path x) → sha256_fullmatch (af_sha256 x) = true → json_wf (file_identity x)) as Hwf.
  { intros x Hx Hs. unfold file_identity. wf_obj. wf_obj; [done|by apply sha256_fullmatch_text]. }
  pose proof (canonical_json_inj _ _ _ (Hwf f Hf Hsf) (Hwf g Hg Hsg) Hbf Hbg) as Heq.
  assert (∀ x, canon (file_identity x) =
    JObj [(str "file", JObj [(str "bytes", JInt (af_bytes x)); (str "path", JStr (af_path x));
                             (str "sha256", JStr (af_sha256 x))]);
          (str "schema", JStr RAW_FILE_VOLUME_SEQUENCE_SCHEMA)]) as Hcanon by reflexivity.
  rewrite !Hcanon in Heq. injection Heq as Hn Hpath Hsha. destruct f, g; cbn in *. congruence.
Qed.
End commitment.

Lemma normalized_raw_file_iff `{UnicodeData} file f : _normalized_raw_file file = Ok f ↔
  ∃ path, normalize_relpath (af_path file) = Ok path ∧ startswith RESERVED_ARCHIVE_PREFIX path = false ∧
    (af_bytes file <? 0) || negb (sha256_fullmatch (af_sha256 file)) = false ∧
    f = {| af_path := path; af_bytes := af_bytes file; af_sha256 := af_sha256 file |}.
Proof.
  unfold _normalized_raw_file. rewrite bind_Ok. apply exist_proper. intros path. split; intros (Hp & Hr); (split; [done|]).
  - repeat inv_step Hr. by subst.
  - destruct Hr as (-> & -> & ->). done.
Qed.

Section reading.
Context `{PyEnv}.

(** Reading a file back computes its specification. *)
Lemma verify_raw_file_iff `{Aead} file volumes pass read verified_at v :
  verify_raw_file file volumes pass read verified_at = Ok v ↔
  pass ≠ [] ∧ verified_at ≠ [] ∧ ∃ f commitment plaintexts,
    _normalized_raw_file file = Ok f ∧ raw_file_ordered_volume_commitment file volumes = Ok commitment ∧
    Forall2 (reads_back pass read) volumes plaintexts ∧ sha256_hex (concat plaintexts) = af_sha256 f ∧
    v = receipt_for f commitment verified_at.
Proof.
  unfold verify_raw_file, raw_file_ordered_volume_commitment. split.
  - intros Hv. apply bind_Ok in Hv as (f & Hf & Hv). inv_step Hv. bool_prop.
    apply bind_Ok in Hv as (header & Hh & Hv).
    apply bind_Ok in Hv as ([[[[sd fd] n] previous] count] & Hfold & Hv). inv_ok Hv. subst v.
    apply orb_false_iff in E as [E Hsha%negb_false_iff%bool_decide_eq_true].
    apply verify_steps_iff in Hfold as (Hfold & ps & Hps & ->). cbn [app] in *.
    split_and!; [done..|]. exists f, (sha256_hex sd), ps. split_and!; try done.
    rewrite Hf, ok_bind, Hh, ok_bind, Hfold, ok_bind. by rewrite E.
  - intros (Hpass & Hat & f & h & ps & Hf & Hc & Hps & Hsha & ->). rewrite Hf, ok_bind in Hc. rewrite Hf, ok_bind.
    rewrite !bool_decide_false by done. cbn [orb]. apply bind_Ok in Hc as (header & Hh & Hc). rewrite Hh, ok_bind.
    apply bind_Ok in Hc as ([[[sd n] previous] count] & Hfold & Hc). inv_ok Hc. subst h.
    rewrite (proj2 (verify_steps_iff _ _ _ _ _ _ _ _ _ sd (concat ps) n previous count)) by eauto.
    rewrite ok_bind, E, bool_decide_true by done. done.
Qed.

End reading.

(** ** Properties *)

Section raw_properties.
Context `{PyEnv}.

(** C4. Reading a raw file back is exact: the composed streams (stored parts,
    age decoder, plaintext parts, file digest) accept precisely the volumes that
    form the file and whose stored bytes are the recorded stored parts, decrypt
    as whole age files to the recorded plaintext parts, and together hash to the
    registered digest; the receipt then carries the commitment of the volume
    sequence.  Nothing is assumed of how the store chunks or ends a stream. *)
Theorem verify_raw_file_exact `{Aead} file volumes pass read verified_at v :
  verify_raw_file file volumes pass read verified_at = Ok v ↔
  pass ≠ [] ∧ verified_at ≠ [] ∧ ∃ f commitment plaintexts,
    _normalized_raw_file file = Ok f ∧ raw_file_ordered_volume_commitment file volumes = Ok commitment ∧
    Forall2 (reads_back pass read) volumes plaintexts ∧ sha256_hex (concat plaintexts) = af_sha256 f ∧
    v = receipt_for f commitment verified_at.
Proof. apply verify_raw_file_iff. Qed.

(** C22. The commitment to the volumes of a raw file: a committed sequence is
    not empty and tiles the file, that is, each volume names the file's path, size
    and digest, starts where the one before it ends, the first at offset 0 and the
    last ending with the file, with growing sequence numbers, identifiers and
    object paths of these, and part receipts that are numbered from 1 and tile its
    plaintext; and the commitment binds the sequence: for equal commitments the
    hashed inputs are equal only if file, identifiers, offsets, sizes, age states
    and part receipts are all the same. *)
Theorem raw_commitment_binds file file' f f' volumes volumes' h :
  raw_file_ordered_volume_commitment file volumes = Ok h →
  raw_file_ordered_volume_commitment file' volumes' = Ok h →
  _normalized_raw_file file = Ok f → _normalized_raw_file file' = Ok f' →
  text_ok (af_path f) → text_ok (af_path f') →
  volumes ≠ [] ∧ raw_tiling f 0 (-1) volumes ∧
  ∃ x y, sequence_input f volumes = Ok x ∧ sequence_input f' volumes' = Ok y ∧ sha256_hex x = h ∧ sha256_hex y = h ∧
    (x = y → f = f' ∧ volume_key <$> volumes = volume_key <$> volumes').
Proof.
  intros Hc Hc' Hf Hf' Ht Ht'.
  apply commitment_input in Hc as (f1 & header & es & Hf1 & Hne & Hv & Hh & Hes & Hl & ->).
  apply commitment_input in Hc' as (f2 & header' & es' & Hf2 & Hne' & Hv' & Hh' & Hes' & Hl' & Heq).
  rewrite Hf1 in Hf. rewrite Hf2 in Hf'. injection Hf as ->. injection Hf' as ->.
  split; [done|]. split; [by apply tiles_raw_tiling|]. eexists _, _. unfold sequence_input. rewrite Hh, Hh', !ok_bind, Hes, Hes', !ok_bind.
  split_and!; [done..|]. intros Hx. apply frames_inj in Hx as [-> ->]%cons_eq; [|done..].
  split; [|by eapply tiles_keys].
  assert (∀ g g', _normalized_raw_file g = Ok g' → sha256_fullmatch (af_sha256 g') = true) as Hsha.
  { intros g g' (path & _ & _ & Hid & ->)%normalized_raw_file_iff. by bool_prop. }
  eapply file_identity_inj; eauto.
Qed.

(** Both ways to verify a file give one receipt: when reading the stored
    volumes back succeeds and the client's summary (a constructed one) is about
    this file, verification from the summary succeeds with the same receipt. *)
Theorem verifications_agree `{Aead} file volumes pass read verified_at v summary :
  verify_raw_file file volumes pass read verified_at = Ok v → new_RawSourceDigestSummary summary = Ok summary →
  rs_path summary = vrf_path v → rs_bytes summary = vrf_bytes v → rs_sha256 summary = vrf_sha256 v →
  verify_raw_file_from_digest_summary file volumes summary verified_at = Ok v.
Proof.
  intros Hv Hsum Hpath Hbytes Hsha. apply verify_raw_file_iff in Hv as (_ & Hat & f & h & ps & Hf & Hc & _ & _ & ->).
  cbn [receipt_for vrf_path vrf_bytes vrf_sha256] in *.
  unfold verify_raw_file_from_digest_summary. rewrite Hf, ok_bind, Hpath, Hbytes, Hsha, Z.eqb_refl.
  rewrite (bool_decide_false (verified_at = [])), !bool_decide_true by done. cbn [negb orb].
  assert (_normalized_raw_file f = Ok f) as Hff.
  { unfold new_RawSourceDigestSummary in Hsum. apply bind_Ok in Hsum as (path & Hp & Hsum). inv_step Hsum. bool_prop.
    subst path. rewrite Hpath in Hp. apply normalized_raw_file_iff in Hf as (path & _ & Hres & Hid & ->).
    apply normalized_raw_file_iff. by exists path. }
  unfold raw_file_ordered_volume_commitment in Hc |- *. rewrite Hf in Hc. rewrite Hff. rewrite Hc. done.
Qed.
End raw_properties.

(** ** A sealed file *)

Definition sample_ciphertext : pybytes :=
  Eval vm_compute in match @encrypt_age_scrypt tag_aead (str "hello") (PassText (str "pw")) 1 None
                             example_key example_salt example_nonce with Ok c => c | Err _ => [] end.

Definition sample_part : StoredArchivePart :=
  Eval vm_compute in
  {| sap_number := 1; sap_plaintext_start := 0; sap_plaintext_bytes := 5;
     sap_plaintext_sha256 := sha256_hex (str "hello"); sap_stored_bytes := len sample_ciphertext;
     sap_stored_sha256 := sha256_hex sample_ciphertext |}.

Definition sample_file : ArchiveFile :=
  {| af_path := str "a"; af_bytes := 5; af_sha256 := sap_plaintext_sha256 sample_part |}.

Definition sample_volume : SealedRawVolume :=
  Eval vm_compute in
  {| srv_volume_id := segment_id 0; srv_sequence := 0;
     srv_relative_path := str "volumes/" ++ segment_id 0 ++ str ".bin.age"; srv_source_path := str "a";
     srv_file_offset := 0; srv_plaintext_bytes := 5; srv_file_bytes := 5;
     srv_file_sha256 := sap_plaintext_sha256 sample_part;
     srv_age_state_json := @dumps ascii_env true (upload_state_payload
       {| us_header := take 149 sample_ciphertext; us_payload_nonce := example_nonce;
          us_plaintext_size := Some 5; us_format := upload_state_format |});
     srv_parts := [sample_part]; srv_revision := None; srv_completed_at := str "t"; srv_retrieval_cache := None |}.

Definition sample_read (path : pystr) : result stream :=
  Ok ([take 100 sample_ciphertext; []; drop 100 sample_ciphertext], Ok tt).

Definition sample_summary : RawSourceDigestSummary :=
  {| rs_path := str "a"; rs_bytes := 5; rs_sha256 := af_sha256 sample_file; rs_part_plaintext_bytes := 65536;
     rs_part_count := 1; rs_ordered_part_sha256 := af_sha256 sample_file; rs_schema := RAW_SOURCE_DIGEST_SUMMARY_SCHEMA |}.

Definition sample_commitment : pystr :=
  Eval vm_compute in match @raw_file_ordered_volume_commitment ascii_env sample_file [sample_volume] with
                     | Ok h => h | Err _ => [] end.

Lemma raw_commitment_binds_witness :
  ∃ x, @sequence_input ascii_env sample_file [sample_volume] = Ok x ∧ sha256_hex x = sample_commitment.
Proof.
  destruct (@raw_commitment_binds ascii_env sample_file sample_file sample_file sample_file [sample_volume] [sample_volume]
              sample_commitment) as (_ & _ & x & _ & Hx & _ & Hh & _);
    [vm_compute; reflexivity..|apply str_text|apply str_text|].
  exists x. split; [exact Hx|exact Hh].
Defined.

Lemma verifications_agree_witness :
  @verify_raw_file_from_digest_summary ascii_env sample_file [sample_volume] sample_summary (str "t") =
  Ok (receipt_for sample_file sample_commitment (str "t")).
Proof.
  apply (@verifications_agree ascii_env tag_aead sample_file [sample_volume] (str "pw") sample_read (str "t"));
    vm_compute; reflexivity.
Defined.
