(* ===== verification/ArchiveAuthority.v ===== *)
(** * Building the archive's documents

    The builders of [riverhog_core/archive_manifest.py]: from the plans of a
    collection, the receipts of its sealed volumes and the receipts of its
    verified raw files to the volume documents, the terminal document and the
    root manifest.  A Python dictionary that becomes a document is the list of
    its items; the documents are parsed by [ArchiveContracts].  The theorems show
    that what is published describes the receipts it was built from, reads back,
    and is not built unless every raw file is verified. *)

From stdpp Require Import gmap sorting.
From S2P Require Import Prelude Text Json Sha256 Paths Domain PackIngress Tar PackVolume RawVolume CollectionPlan ArchivePlan.
From S2P Require Import IncrementalPlan Crypto Base64 Age ArchiveContracts ArchiveDocuments RawVerification.

(** ** Rows *)

Definition row : Type := list (pystr * json).

Definition _stored_int (value : json) (label : string) : result Z :=
  match value with
  | JInt z => when z <? 0 raises Exn ValueError (str label ++ str " must be a non-negative integer"); Ok z
  | _ => Err (Exn ValueError (str label ++ str " must be a non-negative integer"))
  end.

Definition _part_row (current : StoredArchivePart) : json :=
  JObj [(str "number", JInt (sap_number current)); (str "plaintext_start", JInt (sap_plaintext_start current));
        (str "plaintext_bytes", JInt (sap_plaintext_bytes current));
        (str "plaintext_sha256", JStr (sap_plaintext_sha256 current));
        (str "stored_bytes", JInt (sap_stored_bytes current)); (str "stored_sha256", JStr (sap_stored_sha256 current))].

Definition age_error (k : exn_kind) : bool := is_value_error k || bool_decide (k = TypeError).

Section rows.
Context `{PyEnv}.

Definition _normalized_age_state (value : json) (plaintext_bytes : Z) : result json :=
  match value with
  | JObj o =>
      when negb (keys_are o ["format"; "header_b64"; "payload_nonce_b64"; "plaintext_size"])
        raise ValueError "collection archive volume age state is invalid";
      content ← canonical_json_bytes value;
      canonical ← utf8_decode content;
      state ← try_except (from_json_text canonical) age_error
                (λ _, Err (Exn ValueError (str "collection archive volume age state is invalid")));
      when negb (bool_decide (us_plaintext_size state = Some plaintext_bytes))
        raise ValueError "collection archive volume age state size mismatch";
      printed ← to_json_bytes state;
      text ← utf8_decode printed;
      normalized ← loads text;
      match normalized with
      | JObj _ =>
          again ← canonical_json_bytes normalized;
          when negb (bool_decide (again = content))
            raise ValueError "collection archive volume age state is not canonical";
          Ok normalized
      | _ => Err (Exn ValueError (str "collection archive volume age state is invalid"))
      end
  | _ => Err (Exn ValueError (str "collection archive volume age state is invalid"))
  end.

Definition _age_state_row (age_state_json : pystr) (plaintext_bytes : Z) : result json :=
  value ← try_except (loads age_state_json) (λ k, bool_decide (k = JSONDecodeError))
            (λ _, Err (Exn ValueError (str "sealed archive volume age state is not valid JSON")));
  _normalized_age_state value plaintext_bytes.

Definition _pack_volume_row (receipt : SealedPackVolume) : result row :=
  let expected_path := str "volumes/" ++ spv_volume_id receipt ++ str ".tar.age" in
  path ← normalize_relpath (spv_relative_path receipt);
  when negb (bool_decide (path = expected_path)) raise ValueError "sealed pack receipt path is not canonical";
  age_state ← _age_state_row (spv_age_state_json receipt) (spv_plaintext_bytes receipt);
  Ok [(str "id", JStr (spv_volume_id receipt)); (str "sequence", JInt (spv_sequence receipt));
      (str "kind", JStr (str "pack")); (str "path", JStr expected_path); (str "files", JInt (spv_files receipt));
      (str "source_bytes", JInt (spv_source_bytes receipt)); (str "plaintext_bytes", JInt (spv_plaintext_bytes receipt));
      (str "age_state", age_state); (str "index_sha256", JStr (spv_index_sha256 receipt));
      (str "plan_sha256", JStr (spv_plan_sha256 receipt)); (str "parts", JList (_part_row <$> spv_parts receipt))].

Definition _raw_volume_row (receipt : SealedRawVolume) : result row :=
  source_path ← normalize_relpath (srv_source_path receipt);
  when startswith RESERVED_ARCHIVE_PREFIX source_path
    raise ValueError "raw volume source uses the reserved archive namespace";
  let expected_path := str "volumes/" ++ srv_volume_id receipt ++ str ".bin.age" in
  path ← normalize_relpath (srv_relative_path receipt);
  when negb (bool_decide (path = expected_path)) raise ValueError "sealed raw receipt path is not canonical";
  when (Z.shiftl 1 256 <=? srv_sequence receipt)
       || negb (bool_decide (srv_volume_id receipt = segment_id (srv_sequence receipt)))
    raise ValueError "sealed raw receipt identity is not canonical";
  age_state ← _age_state_row (srv_age_state_json receipt) (srv_plaintext_bytes receipt);
  Ok [(str "id", JStr (srv_volume_id receipt)); (str "sequence", JInt (srv_sequence receipt));
      (str "kind", JStr (str "segment")); (str "path", JStr expected_path);
      (str "plaintext_bytes", JInt (srv_plaintext_bytes receipt)); (str "age_state", age_state);
      (str "file", JObj [(str "path", JStr source_path); (str "offset", JInt (srv_file_offset receipt));
                         (str "bytes", JInt (srv_plaintext_bytes receipt));
                         (str "file_bytes", JInt (srv_file_bytes receipt));
                         (str "sha256", JStr (srv_file_sha256 receipt))]);
      (str "parts", JList (_part_row <$> srv_parts receipt))].

Definition _provenance_object_row (item : SealedProvenanceObject) : result json :=
  path ← normalize_relpath (spo_relative_path item);
  Ok (JObj [(str "id", JStr (spo_object_id item)); (str "kind", JStr (spo_kind item)); (str "path", JStr path);
            (str "plaintext_bytes", JInt (spo_plaintext_bytes item)); (str "sha256", JStr (spo_plaintext_sha256 item));
            (str "stored_bytes", JInt (spo_stored_bytes item)); (str "stored_sha256", JStr (spo_stored_sha256 item))]).

(** ** Receipts *)

Definition stored_part_step (st : Z * Z) (current : StoredArchivePart) : result (Z * Z) :=
  let '(index, expected_plaintext_start) := st in
  when negb (sap_number current =? index) raise ValueError "sealed archive volume part order is invalid";
  when negb (sap_plaintext_start current =? expected_plaintext_start) || (sap_plaintext_bytes current <? 0)
    raise ValueError "sealed archive volume plaintext ranges are not contiguous";
  when sap_stored_bytes current <=? 0 raise ValueError "sealed archive volume stored part must not be empty";
  when negb (sha256_fullmatch (sap_plaintext_sha256 current))
    raise ValueError "sealed archive volume plaintext part sha256 is invalid";
  when negb (sha256_fullmatch (sap_stored_sha256 current))
    raise ValueError "sealed archive volume stored part sha256 is invalid";
  Ok (index + 1, expected_plaintext_start + sap_plaintext_bytes current).

Definition _validate_part_receipts (parts : list StoredArchivePart) (plaintext_bytes : Z) : result unit :=
  when bool_decide (parts = []) raise ValueError "sealed archive volume requires at least one part";
  '(_, expected_plaintext_start) ← foldM stored_part_step (1, 0) parts;
  when negb (expected_plaintext_start =? plaintext_bytes)
    raise ValueError "sealed archive volume parts do not cover its plaintext";
  Ok tt.

Definition pack_id (sequence : Z) : pystr := str "pack-" ++ format_padded 16 64 sequence.

Definition _validate_pack_receipt (plan : PackVolumePlan) (receipt : SealedPackVolume) : result unit :=
  when negb (bool_decide (spv_volume_id receipt = pv_volume_id plan)) || negb (spv_sequence receipt =? pv_sequence plan)
       || (Z.shiftl 1 256 <=? spv_sequence receipt)
       || negb (bool_decide (spv_volume_id receipt = pack_id (spv_sequence receipt)))
    raise ValueError "sealed pack receipt does not match its plan";
  when negb (spv_files receipt =? len (pv_members plan)) raise ValueError "sealed pack receipt file count mismatch";
  when negb (spv_source_bytes receipt =? sumZ pm_bytes (pv_members plan))
    raise ValueError "sealed pack receipt source byte count mismatch";
  when negb (spv_plaintext_bytes receipt =? pv_plaintext_bytes plan)
    raise ValueError "sealed pack receipt plaintext byte count mismatch";
  when negb (bool_decide (spv_index_sha256 receipt = pv_index_sha256 plan))
       || negb (bool_decide (spv_plan_sha256 receipt = pv_plan_sha256 plan))
    raise ValueError "sealed pack receipt identity mismatch";
  _validate_part_receipts (spv_parts receipt) (pv_plaintext_bytes plan).

(** The dictionary [out] of [_verified_raw_files], in the order of insertion. *)
Definition verified_step (out : list (pystr * VerifiedRawFile)) (current : VerifiedRawFile) :
    result (list (pystr * VerifiedRawFile)) :=
  path ← normalize_relpath (vrf_path current);
  when startswith RESERVED_ARCHIVE_PREFIX path || bool_decide (path ∈ out.*1)
    raise ValueError "raw file verification path is invalid";
  when (vrf_bytes current <? 0) || negb (sha256_fullmatch (vrf_sha256 current))
       || negb (sha256_fullmatch (vrf_ordered_volume_sha256 current)) || bool_decide (vrf_verified_at current = [])
    raise ValueError "raw file verification identity is invalid";
  Ok (out ++ [(path, {| vrf_path := path; vrf_bytes := vrf_bytes current; vrf_sha256 := vrf_sha256 current;
                        vrf_ordered_volume_sha256 := vrf_ordered_volume_sha256 current;
                        vrf_verified_at := vrf_verified_at current |})]).

Definition _verified_raw_files (files : list VerifiedRawFile) : result (list (pystr * VerifiedRawFile)) :=
  foldM verified_step [] files.

(** ** Documents *)

Definition build_collection_archive_terminal_document (archive_generation tree_sha256 : pystr) (sequence : Z) :
    result CollectionArchiveTerminalDocument :=
  text ← format_archive_sequence sequence;
  terminal_from_mapping
    (JObj [(str "schema", JStr COLLECTION_ARCHIVE_TERMINAL_SCHEMA); (str "archive_generation", JStr archive_generation);
           (str "archive_tree_sha256", JStr tree_sha256); (str "sequence", JStr text);
           (str "kind", JStr (str "terminal"))]).

(** [volume["sequence"] = value] on a dictionary that has the key. *)
Definition set_sequence (value : json) (r : row) : row :=
  (λ kv, if bool_decide (kv.1 = str "sequence") then (kv.1, value) else kv) <$> r.

Definition _archive_volume_document (archive_generation tree_sha256 : pystr) (r : row) :
    result CollectionArchiveVolumeDocument :=
  sequence ← _stored_int (get_or_null "sequence" r) "archive volume sequence";
  text ← format_archive_sequence sequence;
  volume_document_from_mapping
    (JObj [(str "schema", JStr COLLECTION_ARCHIVE_VOLUME_SCHEMA); (str "archive_generation", JStr archive_generation);
           (str "archive_tree_sha256", JStr tree_sha256); (str "volume", JObj (set_sequence (JStr text) r))]).

(** [SealedPackVolume | SealedRawVolume] *)
Inductive VolumeReceipt := PackReceipt (r : SealedPackVolume) | RawReceipt (r : SealedRawVolume).

Definition build_collection_archive_volume_document (archive_generation tree_sha256 : pystr)
    (plan : option PackVolumePlan) (receipt : VolumeReceipt) : result CollectionArchiveVolumeDocument :=
  when negb (sha256_fullmatch tree_sha256) raise ValueError "archive tree identity is invalid";
  r ← match receipt, plan with
      | PackReceipt r, None => Err (Exn ValueError (str "sealed pack volume requires its canonical plan"))
      | PackReceipt r, Some plan => _ ← _validate_pack_receipt plan r; _pack_volume_row r
      | RawReceipt r, Some _ => Err (Exn ValueError (str "sealed raw volume does not accept a pack plan"))
      | RawReceipt r, None => _ ← _validate_part_receipts (srv_parts r) (srv_plaintext_bytes r); _raw_volume_row r
      end;
  _archive_volume_document archive_generation tree_sha256 r.

Definition build_collection_archive_root_manifest (archive_generation : pystr) (tree : CollectionPlan.CollectionTreeIdentity)
    (ordered_volume_sha256 : pystr) (provenance_identity : option pystr)
    (provenance_objects : list SealedProvenanceObject) : result pybytes :=
  when negb (sha256_fullmatch archive_generation) raise ValueError "archive generation is invalid";
  when (ti_files tree <? 1) || (ti_bytes tree <? 0) || negb (sha256_fullmatch (ti_sha256 tree))
    raise ValueError "archive tree identity is invalid";
  when negb (sha256_fullmatch ordered_volume_sha256) raise ValueError "archive ordered volume commitment is invalid";
  let payload :=
    [(str "schema", JStr COLLECTION_ARCHIVE_MANIFEST_SCHEMA); (str "archive_generation", JStr archive_generation);
     (str "format", JObj archive_format);
     (str "tree", JObj [(str "files", JInt (ti_files tree)); (str "bytes", JInt (ti_bytes tree));
                        (str "sha256", JStr (ti_sha256 tree))]);
     (str "volume_sequence", JObj [(str "sha256", JStr ordered_volume_sha256)])] in
  payload ← match provenance_identity with
            | None => Ok payload
            | Some identity =>
                when negb (sha256_fullmatch identity) raise ValueError "archive provenance identity is invalid";
                let roots := filter (λ item, spo_kind item = str "provenance-root") provenance_objects in
                match provenance_objects, roots with
                | [_], [root] =>
                    r ← _provenance_object_row root;
                    Ok (payload ++ [(str "provenance", JObj [(str "identity", JStr identity); (str "root", r)])])
                | _, _ => Err (Exn ValueError (str "archive provenance requires exactly one small root"))
                end
            end;
  manifest ← manifest_from_mapping (JObj payload);
  manifest_to_json_bytes manifest.

(** ** The authority of a collection *)

Definition row_sequence (r : row) : result Z := _stored_int (get_or_null "sequence" r) "volume sequence".

(** [rows.sort(key=...)]: the keys first, then a stable sort on them. *)
Definition sort_rows (rows : list row) : result (list row) :=
  keyed ← mapM_result (λ r, k ← row_sequence r; Ok (k, r)) rows;
  Ok ((sorted_byZ fst keyed).*2).

Definition pack_row_step (rows : list row) (current : PackVolumePlan * SealedPackVolume) : result (list row) :=
  _ ← _validate_pack_receipt current.1 current.2;
  r ← _pack_volume_row current.2;
  Ok (rows ++ [r]).

(** [raw_by_path.setdefault(normalize_relpath(current.source_path), []).append(current)] *)
Definition group_step (raw_by_path : gmap pystr (list SealedRawVolume)) (current : SealedRawVolume) :
    result (gmap pystr (list SealedRawVolume)) :=
  path ← normalize_relpath (srv_source_path current);
  Ok (<[path := default [] (raw_by_path !! path) ++ [current]]> raw_by_path).

Definition check_verified (expected : gmap pystr ArchiveFile) (raw_by_path : gmap pystr (list SealedRawVolume))
    (_ : unit) (current : pystr * VerifiedRawFile) : result unit :=
  let '(path, verified) := current in
  let error := Exn ValueError (str "raw file verification does not match sealed volumes: " ++ path) in
  match expected !! path with
  | None => Err error
  | Some f =>
      when negb (vrf_bytes verified =? af_bytes f) || negb (bool_decide (vrf_sha256 verified = af_sha256 f)) raises error;
      match raw_by_path !! path with
      | None => Err (Exn KeyError path)
      | Some volumes =>
          commitment ← raw_file_ordered_volume_commitment f volumes;
          when negb (bool_decide (vrf_ordered_volume_sha256 verified = commitment)) raises error;
          Ok tt
      end
  end.

Definition raw_row_step (expected : gmap pystr ArchiveFile) (rows : list row) (raw_receipt : SealedRawVolume) :
    result (list row) :=
  source_path ← normalize_relpath (srv_source_path raw_receipt);
  match expected !! source_path with
  | None => Err (Exn ValueError (str "raw volume references an unknown collection path: " ++ source_path))
  | Some f =>
      when (srv_file_offset raw_receipt <? 0) || (srv_plaintext_bytes raw_receipt <? 0)
        raise ValueError "raw volume placement is invalid";
      when negb (srv_file_bytes raw_receipt =? af_bytes f) || negb (bool_decide (srv_file_sha256 raw_receipt = af_sha256 f))
        raises Exn ValueError (str "raw volume file identity mismatch: " ++ source_path);
      when af_bytes f <? srv_file_offset raw_receipt + srv_plaintext_bytes raw_receipt
        raises Exn ValueError (str "raw volume exceeds its collection file: " ++ source_path);
      _ ← _validate_part_receipts (srv_parts raw_receipt) (srv_plaintext_bytes raw_receipt);
      r ← _raw_volume_row raw_receipt;
      Ok (rows ++ [r])
  end.

Definition row_text (key : string) (r : row) : pystr := py_str (get_or_null key r).

Definition build_collection_archive_authority (archive_generation : pystr) (files : list ArchiveFile)
    (packs : list (PackVolumePlan * SealedPackVolume)) (raw_volumes : list SealedRawVolume)
    (verified_raw_files : list VerifiedRawFile) (provenance_identity : option pystr)
    (provenance_objects : list SealedProvenanceObject) : result (pybytes * list CollectionArchiveVolumeDocument) :=
  normalized_files ← validate_collection_archive_plan files (packs.*1) (RawSealed <$> raw_volumes);
  let expected := expected_by_path normalized_files in
  volume_rows ← foldM pack_row_step [] packs;
  verified_by_path ← _verified_raw_files verified_raw_files;
  raw_by_path ← foldM group_step ∅ raw_volumes;
  when negb (bool_decide (dom raw_by_path = (list_to_set verified_by_path.*1 : gset pystr)))
    raise ValueError "every raw file must be verified exactly once before root publication";
  _ ← foldM (check_verified expected raw_by_path) tt verified_by_path;
  volume_rows ← foldM (raw_row_step expected) volume_rows raw_volumes;
  volume_rows ← sort_rows volume_rows;
  sequences ← mapM_result row_sequence volume_rows;
  when negb (bool_decide (sequences = rangeZ 0 (len volume_rows)))
    raise ValueError "archive volume sequence must be canonical and contiguous";
  when negb (bool_decide (NoDup (row_text "id" <$> volume_rows))) raise ValueError "archive volume ids must be unique";
  when negb (bool_decide (NoDup (row_text "path" <$> volume_rows))) raise ValueError "archive volume paths must be unique";
  tree ← collection_tree_identity normalized_files;
  documents ← mapM_result (_archive_volume_document archive_generation (ti_sha256 tree)) volume_rows;
  terminal ← build_collection_archive_terminal_document archive_generation (ti_sha256 tree) (len documents);
  commitment ← ordered_archive_volume_commitment ((VolumeDoc <$> documents) ++ [TerminalDoc terminal]);
  manifest ← build_collection_archive_root_manifest archive_generation tree commitment provenance_identity
               provenance_objects;
  Ok (manifest, documents).

Definition build_collection_archive_manifest (archive_generation : pystr) (files : list ArchiveFile)
    (packs : list (PackVolumePlan * SealedPackVolume)) (raw_volumes : list SealedRawVolume)
    (verified_raw_files : list VerifiedRawFile) (provenance_identity : option pystr)
    (provenance_objects : list SealedProvenanceObject) : result pybytes :=
  '(manifest, _) ← build_collection_archive_authority archive_generation files packs raw_volumes verified_raw_files
                     provenance_identity provenance_objects;
  Ok manifest.
End rows.

(** ** What a row becomes *)

Definition stored_identity (p : StoredArchivePart) : StoredPartIdentity :=
  {| sp_number := sap_number p; sp_plaintext_start := sap_plaintext_start p;
     sp_plaintext_bytes := sap_plaintext_bytes p; sp_plaintext_sha256 := sap_plaintext_sha256 p;
     sp_stored_bytes := sap_stored_bytes p; sp_stored_sha256 := sap_stored_sha256 p |}.

Definition age_identity (s : UploadState) (plaintext_bytes : Z) : AgeUploadState :=
  {| ag_header_b64 := _b64_encode (us_header s); ag_payload_nonce_b64 := _b64_encode (us_payload_nonce s);
     ag_plaintext_size := plaintext_bytes; ag_format := AGE_UPLOAD_STATE_FORMAT |}.

(** The volume that a receipt describes, with the age state its text encodes
    and, for a raw volume, the normalised path of its source. *)
Definition pack_volume_of (r : SealedPackVolume) (s : UploadState) : PackArchiveVolume :=
  {| pk_id := spv_volume_id r; pk_sequence := spv_sequence r;
     pk_path := str "volumes/" ++ spv_volume_id r ++ str ".tar.age"; pk_files := spv_files r;
     pk_source_bytes := spv_source_bytes r; pk_plaintext_bytes := spv_plaintext_bytes r;
     pk_age_state := age_identity s (spv_plaintext_bytes r); pk_index_sha256 := spv_index_sha256 r;
     pk_plan_sha256 := spv_plan_sha256 r; pk_parts := stored_identity <$> spv_parts r; pk_kind := str "pack" |}.

Definition segment_volume_of (r : SealedRawVolume) (s : UploadState) (source_path : pystr) : SegmentArchiveVolume :=
  {| sg_id := srv_volume_id r; sg_sequence := srv_sequence r;
     sg_path := str "volumes/" ++ srv_volume_id r ++ str ".bin.age"; sg_plaintext_bytes := srv_plaintext_bytes r;
     sg_age_state := age_identity s (srv_plaintext_bytes r);
     sg_file := {| sf_path := source_path; sf_offset := srv_file_offset r; sf_bytes := srv_plaintext_bytes r;
                   sf_file_bytes := srv_file_bytes r; sf_sha256 := srv_file_sha256 r |};
     sg_parts := stored_identity <$> srv_parts r; sg_kind := str "segment" |}.

(** Invert one check of a parser on a value of known shape. *)
Ltac inv_field H :=
  first [ rewrite relative_path_typed in H | rewrite nonnegative_typed in H | rewrite positive_typed in H
        | rewrite sha256_typed in H | rewrite base64_typed in H | idtac ];
  inv_check H.
Ltac inv_fields H := repeat inv_field H.

Lemma part_row_read p i s x : part_from_mapping (_part_row p) i s = Ok x → x = stored_identity p.
Proof.
  unfold part_from_mapping, _part_row, _mapping. intros Hx. apply bind_Ok in Hx as (o & Ho & Hx). inv_checks Ho. subst o.
  unfold get_or_null in Hx. revert Hx. dict_simpl. cbn [from_option id default]. intros Hx.
  inv_fields Hx. unfold new_part in Hx. inv_checks Hx. by subst x.
Qed.

Lemma part_rows_read ps i s l stop : parts_loop i s (_part_row <$> ps) = Ok (l, stop) → l = stored_identity <$> ps.
Proof.
  revert i s l stop. induction ps as [|p ps IH]; intros i s l stop; rewrite ?fmap_cons; cbn [parts_loop].
  - by intros [= <- <-].
  - intros Hl. apply bind_Ok in Hl as (x & Hx%part_row_read & Hl). apply bind_Ok in Hl as ([l' e] & Hl'%IH & Hl).
    injection Hl as <- <-. by subst.
Qed.

Lemma parts_read ps n l : _parts (JList (_part_row <$> ps)) n = Ok l → l = stored_identity <$> ps.
Proof.
  intros Hl. destruct ps as [|p ps]; [done|]. rewrite parts_list in Hl by done. inv_step Hl.
  apply bind_Ok in Hl as ([l' e] & Hl'%part_rows_read & Hl). inv_ok Hl. by subst.
Qed.

Lemma age_state_read s n x : age_state_from_mapping (upload_state_payload s) n = Ok x → x = age_identity s n.
Proof.
  unfold age_state_from_mapping, upload_state_payload, _mapping. intros Hx. apply bind_Ok in Hx as (o & Ho & Hx).
  inv_checks Ho. subst o. unfold get_or_null in Hx. revert Hx. dict_simpl. cbn [from_option id default]. intros Hx.
  inv_step Hx. apply bind_Ok in Hx as (size & Hsize & Hx). inv_step Hx. bool_prop.
  inv_fields Hx. unfold new_age_state in Hx. inv_checks Hx. subst x.
  unfold age_identity. f_equal. by apply Z.eqb_eq.
Qed.

Section built.
Context `{PyEnv}.

(** The age state in a row is the canonical payload of the state that the text
    of the receipt encodes. *)
Definition records_state (text : pystr) (n : Z) (s : UploadState) : Prop :=
  us_plaintext_size s = Some n ∧ upload_state_valid s ∧
  ∃ value, loads text = Ok value ∧ canonical_json_bytes value = canonical_json_bytes (upload_state_payload s).

Lemma age_state_row_built text n v : _age_state_row text n = Ok v →
  ∃ s, v = upload_state_payload s ∧ records_state text n s.
Proof.
  unfold _age_state_row. intros Hv. apply bind_Ok in Hv as (value & Hl%try_except_Ok & Hv).
  unfold _normalized_age_state in Hv. destruct value as [| | | | | |o]; try done. inv_step Hv.
  apply bind_Ok in Hv as (content & Hc & Hv). apply bind_Ok in Hv as (canonical & Hd & Hv).
  apply bind_Ok in Hv as (s & Hs%try_except_Ok & Hv). inv_step Hv. bool_prop.
  apply bind_Ok in Hv as (printed & Hp & Hv). apply bind_Ok in Hv as (text' & Ht & Hv).
  apply bind_Ok in Hv as (normalized & Hn & Hv).
  pose proof (age_state_identity_eq _ _ Hs) as Hid. unfold age_state_identity in Hid.
  rewrite Hs, ok_bind, Hp, ok_bind, Ht, ok_bind, Hn in Hid. injection Hid as ->.
  unfold upload_state_payload at 1 in Hv. apply bind_Ok in Hv as (again & Ha & Hv). inv_ok Hv. bool_prop. subst again.
  exists s. split; [by symmetry|]. split_and!; [done|by eapply upload_text_valid|]. exists (JObj o). split; [done|].
  by rewrite Hc, <- Ha.
Qed.

Lemma pack_volume_read r s n v :
  _volume (JObj [(str "id", JStr (spv_volume_id r)); (str "sequence", JStr (format_padded 16 64 (spv_sequence r)));
      (str "kind", JStr (str "pack")); (str "path", JStr (str "volumes/" ++ spv_volume_id r ++ str ".tar.age"));
      (str "files", JInt (spv_files r)); (str "source_bytes", JInt (spv_source_bytes r));
      (str "plaintext_bytes", JInt (spv_plaintext_bytes r)); (str "age_state", upload_state_payload s);
      (str "index_sha256", JStr (spv_index_sha256 r)); (str "plan_sha256", JStr (spv_plan_sha256 r));
      (str "parts", JList (_part_row <$> spv_parts r))]) n = Ok v → 0 ≤ spv_sequence r < 2 ^ 256 →
  v = PackV (pack_volume_of r s).
Proof.
  unfold _volume. cbv zeta. intros Hv Hseq.
  match type of Hv with context [get_or_null "kind" ?o] =>
    assert (get_or_null "kind" o = JStr (str "pack")) as Hkind by (unfold get_or_null; by dict_simpl) end.
  rewrite Hkind in Hv. unfold is_str in Hv. rewrite bool_decide_true in Hv by done. unfold _mapping in Hv.
  rewrite keys_are_intro in Hv by done. cbn [negb] in Hv. rewrite ok_bind in Hv.
  unfold get_or_null in Hv. revert Hv. dict_simpl. cbn [from_option id default]. rewrite ok_bind, parse_format_sequence, ok_bind by done.
  intros Hv. inv_step Hv. apply bind_Ok in Hv as (text & Ht & Hv). inv_step Hv.
  inv_field Hv. inv_field Hv. inv_field Hv.
  apply bind_Ok in Hv as (age & Hage%age_state_read & Hv). apply bind_Ok in Hv as (parts & Hparts%parts_read & Hv).
  unfold _bounded_pack_files in Hv.
  apply bind_Ok in Hv as (files & Hfiles & Hv). inv_fields Hfiles. subst files.
  inv_fields Hv. subst v age parts. f_equal.
  match goal with Hn : new_pack_volume _ = Ok _ |- _ => unfold new_pack_volume in Hn; inv_checks Hn; by subst end.
Qed.

Lemma segment_volume_read r s path n v :
  _volume (JObj [(str "id", JStr (srv_volume_id r)); (str "sequence", JStr (format_padded 16 64 (srv_sequence r)));
      (str "kind", JStr (str "segment")); (str "path", JStr (str "volumes/" ++ srv_volume_id r ++ str ".bin.age"));
      (str "plaintext_bytes", JInt (srv_plaintext_bytes r)); (str "age_state", upload_state_payload s);
      (str "file", JObj [(str "path", JStr path); (str "offset", JInt (srv_file_offset r));
                         (str "bytes", JInt (srv_plaintext_bytes r)); (str "file_bytes", JInt (srv_file_bytes r));
                         (str "sha256", JStr (srv_file_sha256 r))]);
      (str "parts", JList (_part_row <$> srv_parts r))]) n = Ok v → 0 ≤ srv_sequence r < 2 ^ 256 →
  v = SegmentV (segment_volume_of r s path).
Proof.
  unfold _volume. cbv zeta. intros Hv Hseq.
  match type of Hv with context [get_or_null "kind" ?o] =>
    assert (get_or_null "kind" o = JStr (str "segment")) as Hkind by (unfold get_or_null; by dict_simpl) end.
  rewrite Hkind in Hv. unfold is_str in Hv. rewrite (bool_decide_false (str "segment" = str "pack")) in Hv by done.
  rewrite bool_decide_true in Hv by done. unfold _mapping in Hv.
  rewrite keys_are_intro in Hv by done. cbn [negb] in Hv. rewrite ok_bind in Hv.
  unfold get_or_null in Hv. revert Hv. dict_simpl. cbn [from_option id default]. rewrite ok_bind, parse_format_sequence, ok_bind by done.
  intros Hv. inv_step Hv. apply bind_Ok in Hv as (text & Ht & Hv). inv_step Hv.
  inv_field Hv. inv_field Hv. inv_field Hv.
  apply bind_Ok in Hv as (age & Hage%age_state_read & Hv). apply bind_Ok in Hv as (parts & Hparts%parts_read & Hv).
  apply bind_Ok in Hv as (file & Hfile & Hv).
  assert (file = {| sf_path := path; sf_offset := srv_file_offset r; sf_bytes := srv_plaintext_bytes r;
                    sf_file_bytes := srv_file_bytes r; sf_sha256 := srv_file_sha256 r |}) as ->.
  { unfold placement_from_mapping, _mapping in Hfile. apply bind_Ok in Hfile as (o & Ho & Hfile). inv_checks Ho. subst o.
    unfold get_or_null in Hfile. revert Hfile. dict_simpl. cbn [from_option id default]. intros Hfile.
    inv_fields Hfile.
    unfold new_placement in Hfile. inv_checks Hfile. by subst file. }
  inv_checks Hv. subst v age parts. f_equal.
  match goal with Hn : new_segment_volume _ = Ok _ |- _ => unfold new_segment_volume in Hn; inv_checks Hn; by subst end.
Qed.

Lemma stored_int_iff z label n : _stored_int (JInt z) label = Ok n ↔ n = z ∧ 0 ≤ z.
Proof. unfold _stored_int. destruct (Z.ltb_spec z 0); [naive_solver lia|]. naive_solver. Qed.

(** A document parsed from a dictionary with a given volume. *)
Lemma volume_document_read gen tree o d text :
  volume_document_from_mapping
    (JObj [(str "schema", JStr COLLECTION_ARCHIVE_VOLUME_SCHEMA); (str "archive_generation", JStr gen);
           (str "archive_tree_sha256", JStr tree); (str "volume", JObj o)]) = Ok d →
  get_or_null "sequence" o = JStr text →
  well_formed_volume_document d ∧ vd_archive_generation d = gen ∧ vd_archive_tree_sha256 d = tree ∧
  ∃ n, _volume (JObj o) n = Ok (vd_volume d).
Proof.
  intros Hd Hseq. pose proof (proj1 (volume_document_iff _) (volume_document_sound _ _ Hd)) as Hvalid. split; [done|].
  unfold volume_document_from_mapping, _mapping in Hd. rewrite keys_are_intro in Hd by done. cbn [negb] in Hd.
  rewrite ok_bind in Hd. inv_step Hd.
  match type of Hd with context [get_or_null "volume" ?l] =>
    assert (get_or_null "volume" l = JObj o) as Hvol by (unfold get_or_null; by dict_simpl) end.
  rewrite Hvol, Hseq in Hd. apply bind_Ok in Hd as (n & Hn & Hd).
  unfold get_or_null in Hd. revert Hd. dict_simpl. cbn [from_option id default]. intros Hd.
  inv_field Hd. inv_field Hd. apply bind_Ok in Hd as (v & Hv & Hd). unfold new_volume_document in Hd. inv_checks Hd.
  subst d. cbn [vd_archive_generation vd_archive_tree_sha256 vd_volume]. split_and!; [done..|]. by exists n.
Qed.

(** A document of an archive describes a receipt: the same identity, sizes,
    digests and parts, and the age state that the receipt's text encodes. *)
Definition describes (gen tree : pystr) (receipt : VolumeReceipt) (d : CollectionArchiveVolumeDocument) : Prop :=
  well_formed_volume_document d ∧ vd_archive_generation d = gen ∧ vd_archive_tree_sha256 d = tree ∧
  match receipt with
  | PackReceipt r => ∃ s, records_state (spv_age_state_json r) (spv_plaintext_bytes r) s ∧
      vd_volume d = PackV (pack_volume_of r s)
  | RawReceipt r => ∃ s path, records_state (srv_age_state_json r) (srv_plaintext_bytes r) s ∧
      normalize_relpath (srv_source_path r) = Ok path ∧ vd_volume d = SegmentV (segment_volume_of r s path)
  end.

Definition receipt_sequence (receipt : VolumeReceipt) : Z :=
  match receipt with PackReceipt r => spv_sequence r | RawReceipt r => srv_sequence r end.

Definition receipt_row (receipt : VolumeReceipt) : result row :=
  match receipt with PackReceipt r => _pack_volume_row r | RawReceipt r => _raw_volume_row r end.

Lemma pack_document_built gen tree r o d : _pack_volume_row r = Ok o → _archive_volume_document gen tree o = Ok d →
  describes gen tree (PackReceipt r) d ∧ row_sequence o = Ok (spv_sequence r).
Proof.
  unfold _pack_volume_row, _archive_volume_document, row_sequence. cbv zeta. intros Ho Hd.
  apply bind_Ok in Ho as (path & Hp & Ho). inv_step Ho. apply bind_Ok in Ho as (age & (s & -> & Hs)%age_state_row_built & Ho).
  injection Ho as <-. unfold get_or_null in Hd |- *. revert Hd. dict_simpl. cbn [from_option id default]. intros Hd.
  apply bind_Ok in Hd as (n & [-> Hn]%stored_int_iff & Hd). apply bind_Ok in Hd as (text & Ht & Hd).
  apply format_sequence_iff in Ht as [Hr ->].
  split; [|by apply stored_int_iff].
  apply volume_document_read with (text := format_padded 16 64 (spv_sequence r)) in Hd as (Hvalid & Hg & Htree & m & Hv);
    [|reflexivity].
  split_and!; [done..|]. exists s. split; [done|]. by eapply pack_volume_read.
Qed.

Lemma raw_document_built gen tree r o d : _raw_volume_row r = Ok o → _archive_volume_document gen tree o = Ok d →
  describes gen tree (RawReceipt r) d ∧ row_sequence o = Ok (srv_sequence r).
Proof.
  unfold _raw_volume_row, _archive_volume_document, row_sequence. cbv zeta. intros Ho Hd.
  apply bind_Ok in Ho as (source & Hsource & Ho). inv_step Ho. apply bind_Ok in Ho as (path & Hp & Ho). inv_step Ho. inv_step Ho.
  apply bind_Ok in Ho as (age & (s & -> & Hs)%age_state_row_built & Ho).
  injection Ho as <-. unfold get_or_null in Hd |- *. revert Hd. dict_simpl. cbn [from_option id default]. intros Hd.
  apply bind_Ok in Hd as (n & [-> Hn]%stored_int_iff & Hd). apply bind_Ok in Hd as (text & Ht & Hd).
  apply format_sequence_iff in Ht as [Hr ->].
  split; [|by apply stored_int_iff].
  apply volume_document_read with (text := format_padded 16 64 (srv_sequence r)) in Hd as (Hvalid & Hg & Htree & m & Hv);
    [|reflexivity].
  split_and!; [done..|]. exists s, source. split_and!; [done..|]. by eapply segment_volume_read.
Qed.

Lemma document_built gen tree receipt o d : receipt_row receipt = Ok o → _archive_volume_document gen tree o = Ok d →
  describes gen tree receipt d ∧ row_sequence o = Ok (receipt_sequence receipt).
Proof. destruct receipt; [apply pack_document_built|apply raw_document_built]. Qed.
End built.

(** ** The loops *)

Section loops.
Context `{PyEnv}.

(** A loop that appends one element per turn. *)
Lemma foldM_append {A B} (step : list B → A → result (list B)) (f : A → result B) rows l rows' :
  (∀ rows x rows', step rows x = Ok rows' → ∃ y, f x = Ok y ∧ rows' = rows ++ [y]) →
  foldM step rows l = Ok rows' → ∃ new, Forall2 (λ x y, f x = Ok y) l new ∧ rows' = rows ++ new.
Proof.
  intros Hstep. revert rows. induction l as [|x l IH]; intros rows Hf; cbn [foldM] in Hf.
  - injection Hf as <-. exists []. split; [constructor|]. by rewrite app_nil_r.
  - apply bind_Ok in Hf as (r1 & (y & Hy & ->)%Hstep & (new & Hnew & ->)%IH). exists (y :: new).
    split; [by constructor|]. by rewrite <- app_assoc.
Qed.

Lemma pack_rows_built packs rows : foldM pack_row_step [] packs = Ok rows →
  Forall2 (λ p o, receipt_row (PackReceipt p.2) = Ok o) packs rows ∧
  Forall (λ p, _validate_pack_receipt p.1 p.2 = Ok tt) packs.
Proof.
  intros Hf. apply (foldM_append _ (λ p, _ ← _validate_pack_receipt p.1 p.2; _pack_volume_row p.2)) in Hf as (new & Hnew & ->).
  - cbn [app]. split.
    + eapply Forall2_impl; [exact Hnew|]. intros p o Ho. cbv beta in Ho. by apply bind_Ok in Ho as ([] & _ & Ho).
    + eapply Forall2_Forall_l; [exact Hnew|]. apply Forall_true. intros o p Ho. by apply bind_Ok in Ho as ([] & Ho & _).
  - clear. intros rows p rows' Hs. unfold pack_row_step in Hs. apply bind_Ok in Hs as ([] & Hv & Hs).
    apply bind_Ok in Hs as (o & Ho & [= <-]). exists o. split; [by rewrite Hv|done].
Qed.

Lemma raw_rows_built expected raws rows rows' : foldM (raw_row_step expected) rows raws = Ok rows' →
  ∃ new, Forall2 (λ r o, receipt_row (RawReceipt r) = Ok o) raws new ∧ rows' = rows ++ new.
Proof.
  apply foldM_append. clear. intros rows r rows' Hs. unfold raw_row_step in Hs. apply bind_Ok in Hs as (source & _ & Hs).
  destruct (expected !! source) as [f|]; [|done]. do 3 inv_step Hs. apply bind_Ok in Hs as ([] & _ & Hs).
  apply bind_Ok in Hs as (o & Ho & [= <-]). by exists o.
Qed.

Lemma sort_rows_perm rows sorted : sort_rows rows = Ok sorted → sorted ≡ₚ rows.
Proof.
  unfold sort_rows. intros Hs. apply bind_Ok in Hs as (keyed & Hk & [= <-]).
  assert (keyed.*2 = rows) as <-.
  { apply mapM_result_Forall2 in Hk. induction Hk as [|r k rows keyed Hr _ IH]; [done|].
    apply bind_Ok in Hr as (n & _ & [= <-]). by rewrite fmap_cons, IH. }
  apply fmap_Permutation, sorted_byZ_perm.
Qed.

(** ** The terminal document and the root *)

Definition terminal_of (gen tree : pystr) (n : Z) : CollectionArchiveTerminalDocument :=
  {| td_archive_generation := gen; td_archive_tree_sha256 := tree; td_sequence := n; td_kind := str "terminal";
     td_schema := COLLECTION_ARCHIVE_TERMINAL_SCHEMA |}.

Lemma terminal_built gen tree n t : build_collection_archive_terminal_document gen tree n = Ok t →
  t = terminal_of gen tree n ∧ terminal_valid t.
Proof.
  unfold build_collection_archive_terminal_document. intros Ht. apply bind_Ok in Ht as (text & [Hn ->]%format_sequence_iff & Ht).
  split; [|by eapply terminal_sound]. unfold terminal_from_mapping, _mapping in Ht.
  rewrite keys_are_intro in Ht by done. cbn [negb] in Ht. rewrite ok_bind in Ht.
  unfold get_or_null in Ht. revert Ht. dict_simpl. cbn [from_option id default]. intros Ht.
  inv_field Ht. inv_field Ht. rewrite parse_format_sequence, ok_bind in Ht by done. unfold new_terminal in Ht.
  inv_checks Ht. by subst t.
Qed.

Definition tree_of (t : CollectionPlan.CollectionTreeIdentity) : CollectionTreeIdentity :=
  {| ct_files := ti_files t; ct_bytes := ti_bytes t; ct_sha256 := ti_sha256 t |}.

Lemma manifest_read o m gen tree h : manifest_from_mapping (JObj o) = Ok m →
  dict_get (str "archive_generation") o = Some (JStr gen) →
  dict_get (str "tree") o = Some (tree_to_mapping tree) →
  dict_get (str "volume_sequence") o = Some (JObj [(str "sha256", JStr h)]) →
  cm_archive_generation m = gen ∧ cm_tree m = tree ∧ cm_ordered_volume_sha256 m = h ∧
  match dict_get (str "provenance") o with
  | Some v => ∃ p, cm_provenance m = Some p ∧ provenance_from_mapping v = Ok p
  | None => cm_provenance m = None
  end.
Proof.
  unfold manifest_from_mapping, get_or_null. intros Hm Hgen Htree Hseq. do 3 inv_step Hm. rewrite Hgen, Htree, Hseq in Hm.
  cbn [from_option id] in Hm. apply bind_Ok in Hm as (vs & Hvs & Hm). unfold _mapping in Hvs. inv_checks Hvs. subst vs.
  apply bind_Ok in Hm as (prov & Hprov & Hm). inv_field Hm. apply bind_Ok in Hm as (t & Ht & Hm).
  assert (t = tree) as ->.
  { unfold tree_from_mapping, tree_to_mapping, _mapping in Ht. apply bind_Ok in Ht as (r & Hr & Ht). inv_checks Hr. subst r.
    unfold get_or_null in Ht. revert Ht. dict_simpl. cbn [from_option id]. intros Ht. inv_fields Ht.
    unfold new_tree in Ht. inv_checks Ht. subst t. by destruct tree. }
  revert Hm. dict_simpl. cbn [from_option id]. intros Hm. inv_field Hm. unfold new_manifest in Hm. inv_checks Hm. subst m.
  cbn [cm_archive_generation cm_tree cm_ordered_volume_sha256 cm_provenance]. split_and!; [done..|].
  destruct (dict_get (str "provenance") o) as [v|]; [|by injection Hprov].
  apply bind_Ok in Hprov as (x & Hx & [= <-]). by exists x.
Qed.

Lemma provenance_identity_read identity r p :
  provenance_from_mapping (JObj [(str "identity", JStr identity); (str "root", r)]) = Ok p → pd_identity p = identity.
Proof.
  unfold provenance_from_mapping, _mapping. intros Hp. apply bind_Ok in Hp as (o & Ho & Hp). inv_checks Ho. subst o.
  unfold get_or_null in Hp. revert Hp. dict_simpl. cbn [from_option id]. intros Hp. inv_field Hp.
  apply bind_Ok in Hp as (root & _ & Hp). unfold new_provenance in Hp. inv_checks Hp. by subst p.
Qed.

(** The root that is built reads back as the manifest it was built for. *)
Lemma root_built gen tree h identity objects bs :
  build_collection_archive_root_manifest gen tree h identity objects = Ok bs →
  ∃ m, manifest_from_json_bytes bs = Ok m ∧ cm_archive_generation m = gen ∧ cm_tree m = tree_of tree ∧
    cm_ordered_volume_sha256 m = h ∧ pd_identity <$> cm_provenance m = identity.
Proof.
  unfold build_collection_archive_root_manifest. cbv zeta. intros Hb. do 3 inv_step Hb.
  apply bind_Ok in Hb as (payload & Hpayload & Hb). apply bind_Ok in Hb as (m & Hm & Hb).
  exists m. split.
  - pose proof (manifest_sound _ _ Hm) as Hvalid.
    eapply (canonical_print_read _ _ _ _ _ "collection archive root" (manifest_to_mapping m)); [|by apply manifest_law|done|done].
    by apply manifest_wf.
  - destruct identity as [identity|].
    + inv_step Hpayload. destruct objects as [|x []]; try done. destruct (filter _ [x]) as [|root []]; try done.
      apply bind_Ok in Hpayload as (r & _ & [= <-]).
      apply (manifest_read _ _ gen (tree_of tree) h) in Hm as (-> & -> & -> & Hprov); [|by dict_simpl..].
      split_and!; [done..|]. revert Hprov. cbn [app]. dict_simpl. intros (p & -> & Hp%provenance_identity_read).
      cbn. by rewrite Hp.
    + injection Hpayload as <-.
      apply (manifest_read _ _ gen (tree_of tree) h) in Hm as (-> & -> & -> & Hprov); [|by dict_simpl..].
      split_and!; [done..|]. cbn in Hprov. by rewrite Hprov.
Qed.
End loops.

(** ** The authority *)

Section authority.
Context `{PyEnv}.

Lemma Forall2_perm_l {A B} (P : A → B → Prop) l k k' : Forall2 P l k → k' ≡ₚ k → ∃ l', l' ≡ₚ l ∧ Forall2 P l' k'.
Proof.
  intros HP Hk. apply Forall2_flip in HP. symmetry in Hk.
  destruct (Permutation_Forall2 Hk HP) as (l' & Hl & HP'). exists l'. split; [done|]. by apply Forall2_flip.
Qed.

Lemma documents_built gen tree receipts rows docs :
  Forall2 (λ r o, receipt_row r = Ok o) receipts rows →
  mapM_result (_archive_volume_document gen tree) rows = Ok docs →
  Forall2 (describes gen tree) receipts docs ∧ mapM_result row_sequence rows = Ok (receipt_sequence <$> receipts).
Proof.
  intros Hr Hd%mapM_result_Forall2. revert docs Hd. induction Hr as [|r o receipts rows Ho Hr IH]; intros docs Hd.
  - apply Forall2_nil_inv_l in Hd as ->. split; [constructor|done].
  - apply Forall2_cons_inv_l in Hd as (d & ds & Hd & Hds & ->).
    destruct (document_built _ _ _ _ _ Ho Hd) as [Hdesc Hseq]. destruct (IH _ Hds) as [Hall Hseqs].
    split; [by constructor|]. cbn [mapM_result]. by rewrite Hseq, ok_bind, Hseqs.
Qed.

Lemma describes_sequence gen tree r d : describes gen tree r d → document_sequence (VolumeDoc d) = receipt_sequence r.
Proof.
  intros (_ & _ & _ & Hd). destruct r; [destruct Hd as (s & _ & Hd)|destruct Hd as (s & path & _ & _ & Hd)];
    cbn [document_sequence]; by rewrite Hd.
Qed.

(** What a built authority consists of. *)
Record authority_of (gen : pystr) (packs : list (PackVolumePlan * SealedPackVolume)) (raws : list SealedRawVolume)
    (identity : option pystr) (tree : CollectionPlan.CollectionTreeIdentity) (manifest : pybytes)
    (docs : list CollectionArchiveVolumeDocument) : Prop := {
  ao_documents : ∃ receipts, receipts ≡ₚ (PackReceipt <$> packs.*2) ++ (RawReceipt <$> raws) ∧
    Forall2 (describes gen (ti_sha256 tree)) receipts docs ∧ receipt_sequence <$> receipts = rangeZ 0 (len docs);
  ao_root : ∃ m, manifest_from_json_bytes manifest = Ok m ∧ cm_archive_generation m = gen ∧ cm_tree m = tree_of tree ∧
    pd_identity <$> cm_provenance m = identity ∧
    ordered_archive_volume_commitment
      ((VolumeDoc <$> docs) ++ [TerminalDoc (terminal_of gen (ti_sha256 tree) (len docs))]) =
      Ok (cm_ordered_volume_sha256 m);
  ao_read : ∃ contents content,
    Forall2 (λ d c, volume_document_to_json_bytes d = Ok c ∧
      (volume_text (vd_volume d) → volume_document_from_json_bytes c = Ok d)) docs contents ∧
    terminal_to_json_bytes (terminal_of gen (ti_sha256 tree) (len docs)) = Ok content ∧
    terminal_from_json_bytes content = Ok (terminal_of gen (ti_sha256 tree) (len docs));
}.

(** What the commitment covers can be read again. *)
Lemma committed_documents_read docs t h : Forall well_formed_volume_document docs → terminal_valid t →
  ordered_archive_volume_commitment ((VolumeDoc <$> docs) ++ [TerminalDoc t]) = Ok h →
  ∃ contents content,
    Forall2 (λ d c, volume_document_to_json_bytes d = Ok c ∧
      (volume_text (vd_volume d) → volume_document_from_json_bytes c = Ok d)) docs contents ∧
    terminal_to_json_bytes t = Ok content ∧ terminal_from_json_bytes content = Ok t.
Proof.
  intros Hd Ht (_ & all & Hp & _)%commitment_accepts.
  apply Forall2_app_inv_l in Hp as (contents & last & Hp & Hl & ->).
  apply Forall2_cons_inv_l in Hl as (content & ? & Hc & _ & _). cbn [document_to_json_bytes] in Hc.
  exists contents, content. split_and!; [|done|by apply terminal_reads].
  rewrite Forall2_fmap_l in Hp. clear -Hd Hp. induction Hp as [|d c docs contents Hc Hp IH]; [constructor|].
  apply Forall_cons in Hd as [Hd1 Hd]. constructor; [|by apply IH]. cbn [document_to_json_bytes] in Hc.
  split; [done|]. intros Htext. apply volume_document_reads; [by apply volume_document_iff|done|done].
Qed.

Lemma authority_built gen files packs raws verified identity objects manifest docs :
  build_collection_archive_authority gen files packs raws verified identity objects = Ok (manifest, docs) →
  ∃ normalized tree, validate_collection_archive_plan files packs.*1 (RawSealed <$> raws) = Ok normalized ∧
    collection_tree_identity normalized = Ok tree ∧ authority_of gen packs raws identity tree manifest docs ∧
    Forall (λ p, _validate_pack_receipt p.1 p.2 = Ok tt) packs.
Proof.
  unfold build_collection_archive_authority. cbv zeta. intros Hb.
  apply bind_Ok in Hb as (normalized & Hval & Hb). apply bind_Ok in Hb as (rows & Hrows & Hb).
  apply bind_Ok in Hb as (vs & _ & Hb). apply bind_Ok in Hb as (by_path & _ & Hb). inv_step Hb.
  apply bind_Ok in Hb as ([] & _ & Hb). apply bind_Ok in Hb as (rows' & Hraws & Hb).
  apply bind_Ok in Hb as (sorted & Hsort & Hb). apply bind_Ok in Hb as (seqs & Hseqs & Hb). inv_step Hb.
  inv_step Hb. inv_step Hb. apply bind_Ok in Hb as (tree & Htree & Hb). apply bind_Ok in Hb as (docs' & Hdocs & Hb).
  apply bind_Ok in Hb as (t & Ht & Hb). apply bind_Ok in Hb as (h & Hh & Hb). apply bind_Ok in Hb as (root & Hroot & [= -> ->]).
  apply pack_rows_built in Hrows as [Hp Hvalid]. apply raw_rows_built in Hraws as (new & Hr & ->).
  apply sort_rows_perm in Hsort.
  assert (Forall2 (λ r o, receipt_row r = Ok o) ((PackReceipt <$> packs.*2) ++ (RawReceipt <$> raws)) (rows ++ new)) as Hall.
  { apply Forall2_app; rewrite !Forall2_fmap_l; [exact Hp|exact Hr]. }
  destruct (Forall2_perm_l _ _ _ _ Hall Hsort) as (receipts & Hperm & Hrec).
  destruct (documents_built _ _ _ _ _ Hrec Hdocs) as [Hdesc Hseq]. rewrite Hseq in Hseqs. injection Hseqs as <-.
  apply terminal_built in Ht as [-> Htv]. apply root_built in Hroot as (m & Hread & Hgen & Ht & Hc & Hid). bool_prop.
  exists normalized, tree. split_and!; [done..| |done]. split.
  - exists receipts. split_and!; [done..|]. rewrite E0. f_equal. unfold len. f_equal.
    by rewrite (mapM_result_length _ _ _ Hdocs).
  - exists m. split_and!; [done..|]. by rewrite Hc.
  - eapply committed_documents_read; [|exact Htv|exact Hh].
    eapply Forall2_Forall_r; [exact Hdesc|]. apply Forall_true. by intros r d [? _].
Qed.

(** ** Verified raw files *)

Definition with_path (v : VerifiedRawFile) (path : pystr) : VerifiedRawFile :=
  {| vrf_path := path; vrf_bytes := vrf_bytes v; vrf_sha256 := vrf_sha256 v;
     vrf_ordered_volume_sha256 := vrf_ordered_volume_sha256 v; vrf_verified_at := vrf_verified_at v |}.

Lemma verified_step_iff out v out' : verified_step out v = Ok out' →
  ∃ path, normalize_relpath (vrf_path v) = Ok path ∧ path ∉ out.*1 ∧ out' = out ++ [(path, with_path v path)].
Proof.
  unfold verified_step. intros Hs. apply bind_Ok in Hs as (path & Hp & Hs). inv_step Hs. inv_step Hs. injection Hs as <-.
  apply orb_false_iff in E as [_ E]. bool_prop. by exists path.
Qed.

Lemma verified_built vs out : _verified_raw_files vs = Ok out →
  NoDup out.*1 ∧ Forall2 (λ v e, normalize_relpath (vrf_path v) = Ok e.1 ∧ e.2 = with_path v e.1) vs out.
Proof.
  intros Ho. split.
  - eapply (foldM_inv _ (λ out, NoDup out.*1)); [exact Ho|constructor|].
    clear. intros out v out' _ Hnd (path & _ & Hnew & ->)%verified_step_iff. rewrite fmap_app. apply NoDup_app. cbn.
    split_and!; [done| |apply NoDup_singleton]. intros x Hx ->%list_elem_of_singleton. done.
  - apply (foldM_append _ (λ v, path ← normalize_relpath (vrf_path v); Ok (path, with_path v path))) in Ho as (new & Hnew & ->).
    + eapply Forall2_impl; [exact Hnew|]. intros v e He. cbv beta in He. by apply bind_Ok in He as (path & Hp & [= <-]).
    + clear. intros out v out' (path & Hp & _ & ->)%verified_step_iff. eexists. by rewrite Hp.
Qed.

(** The volumes of one source. *)
Definition volumes_of (path : pystr) (raws : list SealedRawVolume) : list SealedRawVolume :=
  filter (λ r, normalize_relpath (srv_source_path r) = Ok path) raws.

Lemma group_built raws m m' : foldM group_step m raws = Ok m' → ∀ path,
  m' !! path = match volumes_of path raws with [] => m !! path | l => Some (default [] (m !! path) ++ l) end.
Proof.
  revert m. induction raws as [|r raws IH]; intros m Hf path; cbn [foldM] in Hf; [by injection Hf as <-|].
  apply bind_Ok in Hf as (m1 & Hstep & Hf). unfold group_step in Hstep. apply bind_Ok in Hstep as (p & Hp & [= <-]).
  rewrite (IH _ Hf). unfold volumes_of. rewrite filter_cons. destruct (decide (normalize_relpath (srv_source_path r) = Ok path)) as [He|Hne].
  - rewrite Hp in He. injection He as ->. rewrite lookup_insert_eq. destruct (filter _ raws); [done|]. cbn. by rewrite <- app_assoc.
  - assert (p ≠ path) by congruence. by rewrite lookup_insert_ne.
Qed.

Lemma check_verified_iff expected by_path path v : check_verified expected by_path tt (path, v) = Ok tt →
  ∃ f volumes, expected !! path = Some f ∧ by_path !! path = Some volumes ∧ vrf_bytes v = af_bytes f ∧
    vrf_sha256 v = af_sha256 f ∧ raw_file_ordered_volume_commitment f volumes = Ok (vrf_ordered_volume_sha256 v).
Proof.
  unfold check_verified. destruct (expected !! path) as [f|] eqn:Hf; [|done]. intros Hc. inv_step Hc.
  destruct (by_path !! path) as [volumes|]; [|done]. apply bind_Ok in Hc as (h & Hh & Hc). inv_step Hc. bool_prop.
  exists f, volumes. subst h. split_and!; try done. by apply Z.eqb_eq.
Qed.

(** Each raw volume belongs to a file with one verification, whose commitment is
    that of all the volumes of the file. *)
Lemma raw_files_verified gen files packs raws verified identity objects out raw :
  build_collection_archive_authority gen files packs raws verified identity objects = Ok out → raw ∈ raws →
  ∃ normalized f i v, validate_collection_archive_plan files packs.*1 (RawSealed <$> raws) = Ok normalized ∧
    f ∈ normalized ∧ verified !! i = Some v ∧ normalize_relpath (srv_source_path raw) = Ok (af_path f) ∧
    normalize_relpath (vrf_path v) = Ok (af_path f) ∧
    (∀ j w, verified !! j = Some w → normalize_relpath (vrf_path w) = Ok (af_path f) → j = i) ∧ vrf_bytes v = af_bytes f ∧ vrf_sha256 v = af_sha256 f ∧
    raw_file_ordered_volume_commitment f (volumes_of (af_path f) raws) = Ok (vrf_ordered_volume_sha256 v).
Proof.
  unfold build_collection_archive_authority. cbv zeta. intros Hb Hin.
  apply bind_Ok in Hb as (normalized & Hval & Hb). apply bind_Ok in Hb as (rows & _ & Hb).
  apply bind_Ok in Hb as (vs & Hvs & Hb). apply bind_Ok in Hb as (by_path & Hgroup & Hb). inv_step Hb.
  apply bind_Ok in Hb as ([] & Hcheck & Hb). apply bind_Ok in Hb as (rows' & Hraws & _). bool_prop.
  pose proof (tree_files_nodup _ _ (proj1 (proj1 (validate_iff _ _ _ _) Hval))) as Hnd.
  assert (∃ path, normalize_relpath (srv_source_path raw) = Ok path) as [path Hpath].
  { destruct (raw_rows_built _ _ _ _ Hraws) as (new & Hnew & _).
    apply list_elem_of_lookup in Hin as [i Hi]. apply (Forall2_lookup_l _ _ _ _ _ Hnew) in Hi as (o & _ & Ho).
    cbn [receipt_row] in Ho. unfold _raw_volume_row in Ho. apply bind_Ok in Ho as (path & Hp & _). by exists path. }
  assert (raw ∈ volumes_of path raws) as Hv by by apply list_elem_of_filter.
  pose proof (group_built _ _ _ Hgroup path) as Hlook. rewrite lookup_empty in Hlook. cbn [default app] in Hlook.
  destruct (volumes_of path raws) as [|r0 l] eqn:Hvols; [by apply not_elem_of_nil in Hv|].
  assert (path ∈ vs.*1) as Hpv.
  { rewrite <- (elem_of_list_to_set (C := gset pystr)), <- E. apply elem_of_dom. by rewrite Hlook. }
  apply list_elem_of_fmap in Hpv as ([p v'] & -> & Hpv).
  destruct (verified_built _ _ Hvs) as [Hvnd Hall]. apply list_elem_of_lookup in Hpv as Hi. destruct Hi as [i Hi].
  destruct (Forall2_lookup_r _ _ _ _ _ Hall Hi) as (v & Hvi & Hp & Heq). cbn [fst snd] in *. subst v'.
  assert (check_verified (expected_by_path normalized) by_path tt (p, with_path v p) = Ok tt) as Hone.
  { clear -Hcheck Hpv. revert Hcheck. induction vs as [|e vs IH]; [by apply not_elem_of_nil in Hpv|]. cbn [foldM]. intros Hf.
    apply bind_Ok in Hf as ([] & He & Hf). apply elem_of_cons in Hpv as [<-|Hpv]; [done|by apply IH]. }
  apply check_verified_iff in Hone as (f & volumes & Hf & Hbp & Hbytes & Hsha & Hc).
  rewrite Hlook in Hbp. injection Hbp as <-. apply lookup_expected in Hf as [Hfin <-]; [|done].
  exists normalized, f, i, v. rewrite Hvols. split_and!; try done. intros j w Hj Hw.
  destruct (Forall2_lookup_l _ _ _ _ _ Hall Hj) as (e & He & Hpe & _). rewrite Hw in Hpe. injection Hpe as Hpe.
  eapply NoDup_lookup; [exact Hvnd| |]; rewrite list_lookup_fmap; [rewrite He|rewrite Hi]; cbn; [reflexivity|by rewrite Hpe].
Qed.
End authority.

(** ** Properties *)

Section authority_properties.
Context `{PyEnv}.

(** C9. The published authority describes what was sealed: there is one
    well-formed document per receipt, numbered 0, 1, ... in order, with the
    identity, sizes, digests, parts and age state of that receipt and the identity
    of the tree of the accepted files; every document can be printed and reads
    back from its bytes (a segment's when its file path is encodable text), and so
    does the terminal document that ends the sequence; the root manifest reads
    back, names that tree and generation, and its commitment is the one of these
    documents followed by their terminal document. *)
Theorem authority_describes_receipts gen files packs raws verified identity objects manifest docs :
  build_collection_archive_authority gen files packs raws verified identity objects = Ok (manifest, docs) →
  ∃ normalized tree, validate_collection_archive_plan files packs.*1 (RawSealed <$> raws) = Ok normalized ∧
    collection_tree_identity normalized = Ok tree ∧ authority_of gen packs raws identity tree manifest docs ∧
    Forall (λ p, _validate_pack_receipt p.1 p.2 = Ok tt) packs.
Proof. apply authority_built. Qed.

(** C11. No root without verification: for every raw volume of a published
    archive there is a registered file and exactly one verification receipt whose
    path is that file's, with the same size and digest; the receipt commits to
    exactly the volumes of that file, and these tile it: each names the file's
    path, size and digest and continues where the one before it ended, from offset
    0 to the last byte. *)
Theorem root_requires_verification gen files packs raws verified identity objects out raw :
  build_collection_archive_authority gen files packs raws verified identity objects = Ok out → raw ∈ raws →
  ∃ normalized f f' i v, validate_collection_archive_plan files packs.*1 (RawSealed <$> raws) = Ok normalized ∧
    f ∈ normalized ∧ verified !! i = Some v ∧ normalize_relpath (srv_source_path raw) = Ok (af_path f) ∧
    normalize_relpath (vrf_path v) = Ok (af_path f) ∧
    (∀ j w, verified !! j = Some w → normalize_relpath (vrf_path w) = Ok (af_path f) → j = i) ∧
    vrf_bytes v = af_bytes f ∧ vrf_sha256 v = af_sha256 f ∧
    raw_file_ordered_volume_commitment f (volumes_of (af_path f) raws) = Ok (vrf_ordered_volume_sha256 v) ∧
    _normalized_raw_file f = Ok f' ∧ raw_tiling f' 0 (-1) (volumes_of (af_path f) raws).
Proof.
  intros Hb Hin. destruct (raw_files_verified _ _ _ _ _ _ _ _ _ Hb Hin)
    as (normalized & f & i & v & Hval & Hf & Hv & Hs & Hp & Hu & Hn & Hh & Hc).
  pose proof (commitment_input _ _ _ Hc) as (f' & _ & _ & Hf' & _ & Ht%tiles_raw_tiling & _). by exists normalized, f, f', i, v.
Qed.
End authority_properties.

Definition sample_generation : pystr := repeatZ 64 97.
Definition sample_receipts : list VerifiedRawFile := [receipt_for sample_file sample_commitment (str "t")].

Definition sample_build : result (pybytes * list CollectionArchiveVolumeDocument) :=
  @build_collection_archive_authority ascii_env sample_generation [sample_file] [] [RawVerification.sample_volume]
    sample_receipts None [].

Lemma sample_built : is_ok sample_build = true.
Proof. vm_compute. reflexivity. Qed.

Lemma authority_describes_receipts_witness : ∃ tree manifest docs, sample_build = Ok (manifest, docs) ∧
  @authority_of ascii_env sample_generation [] [RawVerification.sample_volume] None tree manifest docs.
Proof.
  destruct (proj1 (is_ok_true _) sample_built) as [[manifest docs] Hb].
  destruct (@authority_describes_receipts ascii_env sample_generation [sample_file] [] [RawVerification.sample_volume]
              sample_receipts None [] manifest docs Hb) as (normalized & tree & _ & _ & Ha & _). exists tree, manifest, docs.
  split; [exact Hb|exact Ha].
Defined.

Lemma root_requires_verification_witness : ∃ f i v, sample_receipts !! i = Some v ∧ vrf_sha256 v = af_sha256 f ∧
  normalize_relpath (H := @env_unicode ascii_env) (srv_source_path RawVerification.sample_volume) = Ok (af_path f).
Proof.
  destruct (proj1 (is_ok_true _) sample_built) as [out Hb].
  destruct (@root_requires_verification ascii_env sample_generation [sample_file] [] [RawVerification.sample_volume]
              sample_receipts None [] out RawVerification.sample_volume Hb)
    as (normalized & f & f' & i & v & _ & _ & Hv & Hs & _ & _ & _ & Hsha & _); [by left|].
  exists f, i, v. split_and!; [exact Hv|exact Hsha|exact Hs].
Defined.
