(* ===== verification/RawCheckpoint.v ===== *)
(** * Checkpoints of raw uploads

    The persistent state of [riverhog_core/raw_upload.py]: the checkpoint of one
    resumable raw-volume write, its JSON form, and the merge of checkpoints that
    concurrent acknowledgements produce; the receipts of
    [retrieval_cache_receipts.py] and [ports/archive_objects.py]; and the row in
    which [stores/sqlalchemy_archive_upload_checkpoints.py] keeps a checkpoint,
    under its row lock.  The theorems show that the order of acknowledgements
    does not matter, that a checkpoint survives its JSON form, and that the
    counters of the row agree with it. *)

From stdpp Require Import gmap.
From S2P Require Import Prelude Text Json Sha256 Paths Domain PackIngress Base64 Age ArchiveContracts RawVerification.

(** ** Receipts of the object store *)

Record WriteSegmentReceipt := {
  wr_number : Z;
  wr_segment_token : pystr;
  wr_bytes : Z;
  wr_sha256 : option pystr;
}.

Record WriteSession := {
  wn_object_path : pystr;
  wn_write_token : pystr;
  wn_expected_bytes : Z;
}.

Record CompletedObjectReceipt := {
  co_object_path : pystr;
  co_revision : option pystr;
  co_entity_token : option pystr;
  co_bytes : Z;
  co_completed_at : pystr;
  co_retrieval_cache : option RetrievalCacheReceipt;
}.

Record CompletedRawObject := {
  cr_revision : option pystr;
  cr_entity_token : option pystr;
  cr_bytes : Z;
  cr_completed_at : pystr;
  cr_retrieval_cache : option RetrievalCacheReceipt;
}.

#[export] Instance StoredArchivePart_eq_dec : EqDecision StoredArchivePart.
Proof. solve_decision. Defined.
#[export] Instance WriteSegmentReceipt_eq_dec : EqDecision WriteSegmentReceipt.
Proof. solve_decision. Defined.
#[export] Instance RetrievalCacheReceipt_eq_dec : EqDecision RetrievalCacheReceipt.
Proof. solve_decision. Defined.
#[export] Instance CompletedRawObject_eq_dec : EqDecision CompletedRawObject.
Proof. solve_decision. Defined.

(** [str | None] in a payload. *)
Definition opt_str (o : option pystr) : json := from_option JStr JNull o.

Definition retrieval_cache_receipt_payload (receipt : option RetrievalCacheReceipt) : json :=
  match receipt with
  | None => JNull
  | Some r =>
      JObj [(str "cache_store", JStr (rcr_cache_store r)); (str "object_path", JStr (rcr_object_path r));
            (str "revision", opt_str (rcr_revision r)); (str "stored_bytes", JInt (rcr_stored_bytes r));
            (str "stored_sha256", opt_str (rcr_stored_sha256 r)); (str "cached_at", JStr (rcr_cached_at r));
            (str "verified_at", JStr (rcr_verified_at r))]
  end.

(** [str(value.get(key, ""))] *)
Definition get_text `{PyEnv} (key : string) (o : list (pystr * json)) : pystr :=
  from_option py_str [] (dict_get (str key) o).

(** [str(v) if v is not None else None] *)
Definition text_or_none `{PyEnv} (v : json) : option pystr :=
  match v with JNull => None | _ => Some (py_str v) end.

Definition parse_retrieval_cache_receipt `{PyEnv} (value : json) : result (option RetrievalCacheReceipt) :=
  match value with
  | JNull => Ok None
  | JObj o =>
      let object_path := get_text "object_path" o in
      let cache_store := get_text "cache_store" o in
      let stored_sha256 := text_or_none (get_or_null "stored_sha256" o) in
      let cached_at := get_text "cached_at" o in
      let verified_at := get_text "verified_at" o in
      let error := Exn ValueError (str "retrieval cache receipt fields are invalid") in
      when bool_decide (cache_store = []) || bool_decide (object_path = []) raises error;
      match get_or_null "stored_bytes" o with
      | JInt stored_bytes =>
          when (stored_bytes <? 1)
               || match stored_sha256 with
                  | Some s => negb (len s =? 64) || existsb (λ c, negb (is_lower_hex c)) s
                  | None => false
                  end
               || bool_decide (cached_at = []) || bool_decide (verified_at = []) raises error;
          Ok (Some {| rcr_cache_store := cache_store; rcr_object_path := object_path;
                      rcr_revision := text_or_none (get_or_null "revision" o); rcr_stored_bytes := stored_bytes;
                      rcr_stored_sha256 := stored_sha256; rcr_cached_at := cached_at;
                      rcr_verified_at := verified_at |})
      | _ => Err error
      end
  | _ => Err (Exn ValueError (str "retrieval cache receipt is invalid"))
  end.

(** ** The checkpoint *)

Definition RAW_UPLOAD_CHECKPOINT_SCHEMA : pystr := str "raw-upload-checkpoint/v1".

Record RawUploadCheckpoint := {
  rk_collection_id : Z;
  rk_volume_id : pystr;
  rk_object_path : pystr;
  rk_relative_path : pystr;
  rk_source_path : pystr;
  rk_file_offset : Z;
  rk_plaintext_bytes : Z;
  rk_file_bytes : Z;
  rk_file_sha256 : pystr;
  rk_target_part_plaintext_bytes : Z;
  rk_expected_part_sha256s : list pystr;
  rk_write_token : pystr;
  rk_age_state_json : pystr;
  rk_next_part : Z;
  rk_archive_parts : list StoredArchivePart;
  rk_write_segments : list WriteSegmentReceipt;
  rk_completed : option CompletedRawObject;
}.

(** [replace(checkpoint, next_part=..., archive_parts=..., write_segments=..., completed=...)] *)
Definition with_progress (c : RawUploadCheckpoint) (next_part : Z) (parts : list StoredArchivePart)
    (segments : list WriteSegmentReceipt) (completed : option CompletedRawObject) : RawUploadCheckpoint :=
  {| rk_collection_id := rk_collection_id c; rk_volume_id := rk_volume_id c; rk_object_path := rk_object_path c;
     rk_relative_path := rk_relative_path c; rk_source_path := rk_source_path c; rk_file_offset := rk_file_offset c;
     rk_plaintext_bytes := rk_plaintext_bytes c; rk_file_bytes := rk_file_bytes c; rk_file_sha256 := rk_file_sha256 c;
     rk_target_part_plaintext_bytes := rk_target_part_plaintext_bytes c;
     rk_expected_part_sha256s := rk_expected_part_sha256s c; rk_write_token := rk_write_token c;
     rk_age_state_json := rk_age_state_json c; rk_next_part := next_part; rk_archive_parts := parts;
     rk_write_segments := segments; rk_completed := completed |}.

Definition _archive_part_payload (current : StoredArchivePart) : json := _part_identity current.

Definition _write_segment_payload (current : WriteSegmentReceipt) : json :=
  JObj [(str "number", JInt (wr_number current)); (str "segment_token", JStr (wr_segment_token current));
        (str "stored_bytes", JInt (wr_bytes current)); (str "stored_sha256", opt_str (wr_sha256 current))].

Definition completed_payload (completed : option CompletedRawObject) : json :=
  match completed with
  | None => JNull
  | Some c =>
      JObj [(str "revision", opt_str (cr_revision c)); (str "entity_token", opt_str (cr_entity_token c));
            (str "bytes", JInt (cr_bytes c)); (str "completed_at", JStr (cr_completed_at c));
            (str "retrieval_cache", retrieval_cache_receipt_payload (cr_retrieval_cache c))]
  end.

(** [while current in numbers: current += 1]: at most one turn per part. *)
Fixpoint missing_loop (fuel : nat) (numbers : list Z) (current : Z) : Z :=
  match fuel with
  | O => current
  | S fuel => if bool_decide (current ∈ numbers) then missing_loop fuel numbers (current + 1) else current
  end.

Definition _first_missing_part (parts : list StoredArchivePart) : Z :=
  missing_loop (length parts) (sap_number <$> parts) 1 - 1.

Definition _part_by_number (parts : list StoredArchivePart) (number : Z) : option StoredArchivePart :=
  head (filter (λ p, sap_number p = number) parts).

Definition coverage_part_step (st : Z * Z) (part : StoredArchivePart) : result (Z * Z) :=
  let '(expected_number, expected_start) := st in
  when negb (sap_number part =? expected_number) || negb (sap_plaintext_start part =? expected_start)
    raise ValueError "completed raw upload parts are not contiguous";
  Ok (expected_number + 1, expected_start + sap_plaintext_bytes part).

Definition _require_complete_coverage (parts : list StoredArchivePart) (plaintext_bytes : Z) : result unit :=
  '(_, expected_start) ← foldM coverage_part_step (1, 0) parts;
  when negb (expected_start =? plaintext_bytes) raise ValueError "completed raw upload does not cover its plaintext";
  Ok tt.

(** ** Merging *)

(** A dictionary from numbers, filled in the order of the list. *)
Definition by_number {A} (key : A → Z) (l : list A) : gmap Z A := foldl (λ m x, <[key x := x]> m) ∅ l.

Definition merge_step {A} `{EqDecision A} (key : A → Z) (conflict : exn) (merged : gmap Z A) (x : A) : result (gmap Z A) :=
  when match merged !! key x with Some existing => negb (bool_decide (existing = x)) | None => false end raises conflict;
  Ok (<[key x := x]> merged).

(** [tuple(sorted(merged.values(), key=...))] *)
Definition ordered_values {A} (key : A → Z) (m : gmap Z A) : list A := sorted_byZ key (map_to_list m).*2.

Definition merge_by {A} `{EqDecision A} (key : A → Z) (conflict : exn) (current candidate : list A) : result (list A) :=
  merged ← foldM (merge_step key conflict) (by_number key current) candidate;
  Ok (ordered_values key merged).

Definition segment_conflict : exn :=
  Exn RuntimeError (str "raw upload checkpoint contains conflicting write segments").
Definition part_conflict : exn :=
  Exn RuntimeError (str "raw upload checkpoint contains conflicting part receipts").

Definition _merge_write_segments : list WriteSegmentReceipt → list WriteSegmentReceipt → result (list WriteSegmentReceipt) :=
  merge_by wr_number segment_conflict.

(** The static fields of a checkpoint. *)
Definition static_fields (c : RawUploadCheckpoint) : Z * pystr * pystr * pystr * pystr * Z * Z * Z * pystr * Z
    * list pystr * pystr * pystr :=
  (rk_collection_id c, rk_volume_id c, rk_object_path c, rk_relative_path c, rk_source_path c, rk_file_offset c,
   rk_plaintext_bytes c, rk_file_bytes c, rk_file_sha256 c, rk_target_part_plaintext_bytes c,
   rk_expected_part_sha256s c, rk_write_token c, rk_age_state_json c).

Definition merge_raw_upload_checkpoints (current candidate : RawUploadCheckpoint) : result RawUploadCheckpoint :=
  when negb (bool_decide (static_fields current = static_fields candidate))
    raise ValueError "raw upload checkpoints do not describe the same resumable write";
  ordered ← merge_by sap_number part_conflict (rk_archive_parts current) (rk_archive_parts candidate);
  segments ← _merge_write_segments (rk_write_segments current) (rk_write_segments candidate);
  let completed := match rk_completed current with Some c => Some c | None => rk_completed candidate end in
  when match rk_completed current, rk_completed candidate with
       | Some c, Some d => negb (bool_decide (c = d))
       | _, _ => false
       end
    raise RuntimeError "raw upload checkpoint completion receipt changed";
  let merged := with_progress current (_first_missing_part ordered) ordered segments completed in
  match completed with
  | None => Ok merged
  | Some c =>
      _ ← _require_complete_coverage ordered (rk_plaintext_bytes merged);
      when negb (cr_bytes c =? sumZ sap_stored_bytes ordered)
        raise RuntimeError "completed raw checkpoint does not match its merged parts";
      Ok merged
  end.

(** ** JSON *)

Section json_form.
Context `{PyEnv}.

(** [str(value or "")] for a digest: a falsy value is no digest, nor is the text
    of a float. *)
Definition _sha (value : json) (label : string) : result pystr :=
  let candidate := match value with
                   | JStr s => s
                   | JInt z => if z =? 0 then [] else str_of_Z z
                   | JBool true => str "True"
                   | JList (_ :: _) | JObj (_ :: _) => container_str value
                   | _ => []
                   end in
  when negb (sha256_fullmatch candidate) raises Exn ValueError (str label ++ str " sha256 is invalid");
  Ok candidate.

Definition _uint (value : json) (label : string) : result Z := canonical_nonnegative_int value (str label).

Definition checkpoint_payload (c : RawUploadCheckpoint) (age_state : json) : json :=
  let ordered := sorted_byZ sap_number (rk_archive_parts c) in
  let ordered_segments := sorted_byZ wr_number (rk_write_segments c) in
  JObj [(str "schema", JStr RAW_UPLOAD_CHECKPOINT_SCHEMA); (str "collection_id", JInt (rk_collection_id c));
        (str "volume_id", JStr (rk_volume_id c)); (str "object_path", JStr (rk_object_path c));
        (str "relative_path", JStr (rk_relative_path c)); (str "source_path", JStr (rk_source_path c));
        (str "file_offset", JInt (rk_file_offset c)); (str "plaintext_bytes", JInt (rk_plaintext_bytes c));
        (str "file_bytes", JInt (rk_file_bytes c)); (str "file_sha256", JStr (rk_file_sha256 c));
        (str "target_part_plaintext_bytes", JInt (rk_target_part_plaintext_bytes c));
        (str "expected_part_sha256s", JList (JStr <$> rk_expected_part_sha256s c));
        (str "write_token", JStr (rk_write_token c)); (str "age_state", age_state);
        (str "next_part", JInt (rk_next_part c)); (str "archive_parts", JList (_archive_part_payload <$> ordered));
        (str "write_segments", JList (_write_segment_payload <$> ordered_segments));
        (str "completed", completed_payload (rk_completed c))].

Definition to_json (c : RawUploadCheckpoint) : result pystr :=
  age_state ← loads (rk_age_state_json c);
  content ← canonical_json_bytes (checkpoint_payload c age_state);
  utf8_decode content.

Definition checkpoint_fields : list string :=
  ["schema"; "collection_id"; "volume_id"; "object_path"; "relative_path"; "source_path"; "file_offset";
   "plaintext_bytes"; "file_bytes"; "file_sha256"; "target_part_plaintext_bytes"; "expected_part_sha256s";
   "write_token"; "age_state"; "next_part"; "archive_parts"; "write_segments"; "completed"].

(** One turn of the loop of [_parts_from_payload]. *)
Definition part_payload_step (st : list StoredArchivePart * Z * Z) (raw : json) : result (list StoredArchivePart * Z * Z) :=
  let '(parts, previous_number, previous_end) := st in
  match raw with
  | JObj o =>
      number ← _uint (get_or_null "number" o) "part number";
      plaintext_start ← _uint (get_or_null "plaintext_start" o) "part plaintext start";
      plaintext_bytes ← _uint (get_or_null "plaintext_bytes" o) "part plaintext bytes";
      plaintext_sha256 ← _sha (get_or_null "plaintext_sha256" o) "part plaintext";
      stored_bytes ← _uint (get_or_null "stored_bytes" o) "part stored bytes";
      stored_sha256 ← _sha (get_or_null "stored_sha256" o) "part stored";
      when (number <=? previous_number) || (plaintext_start <? previous_end) || (stored_bytes <? 1)
        raise ValueError "raw upload part order is invalid";
      Ok (parts ++ [{| sap_number := number; sap_plaintext_start := plaintext_start;
                       sap_plaintext_bytes := plaintext_bytes; sap_plaintext_sha256 := plaintext_sha256;
                       sap_stored_bytes := stored_bytes; sap_stored_sha256 := stored_sha256 |}],
          number, plaintext_start + plaintext_bytes)
  | _ => Err (Exn ValueError (str "raw upload part is invalid"))
  end.

Definition _parts_from_payload (value : list json) : result (list StoredArchivePart) :=
  '(parts, _, _) ← foldM part_payload_step ([], 0, 0) value; Ok parts.

Definition segment_from_payload (raw : json) : result WriteSegmentReceipt :=
  match raw with
  | JObj o =>
      number ← _uint (get_or_null "number" o) "segment number";
      bytes ← _uint (get_or_null "stored_bytes" o) "segment bytes";
      sha256 ← match get_or_null "stored_sha256" o with
               | JNull => Ok None
               | v => s ← _sha v "segment stored"; Ok (Some s)
               end;
      let segment := {| wr_number := number; wr_segment_token := get_text "segment_token" o; wr_bytes := bytes;
                        wr_sha256 := sha256 |} in
      when (number <? 1) || (bytes <? 1) || bool_decide (wr_segment_token segment = [])
        raise ValueError "raw upload write-segment receipt is invalid";
      Ok segment
  | _ => Err (Exn ValueError (str "raw upload write segment is invalid"))
  end.

Definition _segments_from_payload (raw_segments : list json) : result (list WriteSegmentReceipt) :=
  segments ← mapM_result segment_from_payload raw_segments;
  let ordered := sorted_byZ wr_number segments in
  when negb (bool_decide (NoDup (wr_number <$> ordered))) raise ValueError "raw upload write segment numbers are duplicated";
  Ok ordered.

Definition _completed_from_payload (value : json) : result (option CompletedRawObject) :=
  match value with
  | JNull => Ok None
  | JObj o =>
      byte_count ← _uint (get_or_null "bytes" o) "completed bytes";
      let completed_at := get_text "completed_at" o in
      when (byte_count <? 1) || bool_decide (completed_at = []) raise ValueError "raw upload completion receipt is invalid";
      retrieval_cache ← parse_retrieval_cache_receipt (get_or_null "retrieval_cache" o);
      Ok (Some {| cr_revision := text_or_none (get_or_null "revision" o);
                  cr_entity_token := text_or_none (get_or_null "entity_token" o); cr_bytes := byte_count;
                  cr_completed_at := completed_at; cr_retrieval_cache := retrieval_cache |})
  | _ => Err (Exn ValueError (str "raw upload completion is invalid"))
  end.

(** [_SEGMENT_ID_RE.fullmatch(s) is not None] *)
Definition segment_id_fullmatch (s : pystr) : bool := startswith (str "segment-") s && sha256_fullmatch (drop 8 s).

Definition check_completed (completed : option CompletedRawObject) (parts : list StoredArchivePart)
    (segments : list WriteSegmentReceipt) (plaintext_bytes : Z) : result unit :=
  match completed with
  | None => Ok tt
  | Some c =>
      _ ← _require_complete_coverage parts plaintext_bytes;
      when negb (cr_bytes c =? sumZ sap_stored_bytes parts)
        raise ValueError "completed raw upload stored byte count mismatch";
      when negb (cr_bytes c =? sumZ wr_bytes segments)
        raise ValueError "completed raw write-segment byte count mismatch";
      Ok tt
  end.

(** [from_json] after [json.loads]. *)
Definition checkpoint_of_payload (payload : json) : result RawUploadCheckpoint :=
  match payload with
  | JObj o =>
      when negb (is_str (get_or_null "schema" o) RAW_UPLOAD_CHECKPOINT_SCHEMA)
        raise ValueError "raw upload checkpoint schema mismatch";
      when negb (keys_are o checkpoint_fields) raise ValueError "raw upload checkpoint fields are invalid";
      match get_or_null "age_state" o, get_or_null "archive_parts" o, get_or_null "expected_part_sha256s" o,
            get_or_null "write_segments" o with
      | JObj age_state, JList raw_parts, JList raw_expected, JList raw_segments =>
          content ← canonical_json_bytes (JObj age_state);
          age_state_json ← utf8_decode content;
          state ← from_json_text age_state_json;
          plaintext_bytes ← _uint (get_or_null "plaintext_bytes" o) "plaintext bytes";
          when negb (bool_decide (us_plaintext_size state = Some plaintext_bytes))
            raise ValueError "raw upload age state plaintext size mismatch";
          expected_part_sha256s ← mapM_result (λ v, _sha v "expected part plaintext") raw_expected;
          parts ← _parts_from_payload raw_parts;
          segments ← _segments_from_payload raw_segments;
          next_part ← _uint (get_or_null "next_part" o) "next part";
          when negb (next_part =? _first_missing_part parts)
            raise ValueError "raw upload next part does not match its receipts";
          completed ← _completed_from_payload (get_or_null "completed" o);
          _ ← check_completed completed parts segments plaintext_bytes;
          collection_id ← _uint (get_or_null "collection_id" o) "collection id";
          when collection_id <? 1 raise ValueError "collection id must be positive";
          let volume_id := get_text "volume_id" o in
          when negb (segment_id_fullmatch volume_id) raise ValueError "raw upload volume id is invalid";
          file_offset ← _uint (get_or_null "file_offset" o) "file offset";
          file_bytes ← _uint (get_or_null "file_bytes" o) "file bytes";
          when file_bytes <? file_offset + plaintext_bytes raise ValueError "raw upload file range is invalid";
          file_sha256 ← _sha (get_or_null "file_sha256" o) "raw upload file";
          let object_path := get_text "object_path" o in
          let write_token := get_text "write_token" o in
          when bool_decide (object_path = []) || bool_decide (write_token = [])
            raise ValueError "raw upload storage identity is invalid";
          target_part_plaintext_bytes ← _uint (get_or_null "target_part_plaintext_bytes" o) "target part plaintext bytes";
          when (target_part_plaintext_bytes <? CHUNK_SIZE) || negb (target_part_plaintext_bytes mod CHUNK_SIZE =? 0)
            raise ValueError "raw upload part target must be a positive age-chunk multiple";
          relative_path ← normalize_relpath (get_text "relative_path" o);
          source_path ← normalize_relpath (get_text "source_path" o);
          Ok {| rk_collection_id := collection_id; rk_volume_id := volume_id; rk_object_path := object_path;
                rk_relative_path := relative_path; rk_source_path := source_path; rk_file_offset := file_offset;
                rk_plaintext_bytes := plaintext_bytes; rk_file_bytes := file_bytes; rk_file_sha256 := file_sha256;
                rk_target_part_plaintext_bytes := target_part_plaintext_bytes;
                rk_expected_part_sha256s := expected_part_sha256s; rk_write_token := write_token;
                rk_age_state_json := age_state_json; rk_next_part := next_part; rk_archive_parts := parts;
                rk_write_segments := segments; rk_completed := completed |}
      | _, _, _, _ => Err (Exn ValueError (str "raw upload checkpoint structure is invalid"))
      end
  | _ => Err (Exn ValueError (str "raw upload checkpoint schema mismatch"))
  end.

Definition from_json (content : pystr) : result RawUploadCheckpoint :=
  payload ← try_except (loads content) (λ k, bool_decide (k = JSONDecodeError))
              (λ _, Err (Exn ValueError (str "raw upload checkpoint is not valid JSON")));
  checkpoint_of_payload payload.
End json_form.

(** ** The row that keeps a checkpoint *)

(** The fields of [CollectionArchiveObjectUploadRecord] that the store writes,
    and the payload counter of the upload that owns the row, when there is one. *)
Record UploadRow := {
  ur_kind : pystr;
  ur_checkpoint_json : option pystr;
  ur_uploaded_bytes : Z;
  ur_uploaded_units : Z;
  ur_state : pystr;
  ur_payload_bytes : option Z;
}.

Section store.
Context `{PyEnv}.

Definition load_raw_upload_checkpoint (row : option UploadRow) : option pystr :=
  match row with
  | Some r => if bool_decide (ur_kind r = str "segment") then ur_checkpoint_json r else None
  | None => None
  end.

(** [parse(record.checkpoint_json) if record.checkpoint_json else None] *)
Definition row_checkpoint (r : UploadRow) : result (option RawUploadCheckpoint) :=
  match ur_checkpoint_json r with
  | Some ((_ :: _) as text) => c ← from_json text; Ok (Some c)
  | _ => Ok None
  end.

(** The plaintext bytes in the parts of a checkpoint. *)
Definition payload_bytes (c : RawUploadCheckpoint) : Z := sumZ sap_plaintext_bytes (rk_archive_parts c).

(** [_merge] in one transaction: a raised exception rolls it back. *)
Definition merge_raw_upload_checkpoint (row : option UploadRow) (volume_id checkpoint_json : pystr) :
    result (pystr * UploadRow) :=
  incoming ← from_json checkpoint_json;
  let not_found := Exn LookupError (str "archive upload volume not found: " ++ volume_id) in
  match row with
  | Some r =>
      when negb (bool_decide (ur_kind r = str "segment")) raises not_found;
      previous ← row_checkpoint r;
      merged ← merge_raw_upload_checkpoints (default incoming previous) incoming;
      let previous_payload_bytes := from_option payload_bytes 0 previous in
      let merged_payload_bytes := payload_bytes merged in
      encoded ← to_json merged;
      Ok (encoded,
          {| ur_kind := ur_kind r; ur_checkpoint_json := Some encoded;
             ur_uploaded_bytes := sumZ sap_stored_bytes (rk_archive_parts merged);
             ur_uploaded_units := len (rk_archive_parts merged);
             ur_state := if rk_completed merged then str "sealed" else str "uploading";
             ur_payload_bytes := (λ n, n + (merged_payload_bytes - previous_payload_bytes)) <$> ur_payload_bytes r |})
  | None => Err not_found
  end.

Definition delete_raw_upload_checkpoint (row : option UploadRow) : option UploadRow :=
  match row with
  | Some r =>
      if bool_decide (ur_kind r = str "segment")
      then Some {| ur_kind := ur_kind r; ur_checkpoint_json := None; ur_uploaded_bytes := 0; ur_uploaded_units := 0;
                   ur_state := str "planned"; ur_payload_bytes := ur_payload_bytes r |}
      else Some r
  | None => None
  end.
End store.

(** ** The first missing part *)

Lemma missing_loop_spec fuel numbers current :
  let stop := missing_loop fuel numbers current in
  current ≤ stop ≤ current + Z.of_nat fuel ∧ (∀ i, current ≤ i < stop → i ∈ numbers) ∧
  (stop < current + Z.of_nat fuel → stop ∉ numbers).
Proof.
  revert current. induction fuel as [|fuel IH]; intros current; cbn [missing_loop].
  - split_and!; [lia|lia|lia|lia].
  - destruct (bool_decide_reflect (current ∈ numbers)) as [Hin|Hout]; [|split_and!; [lia|lia|lia|done]].
    destruct (IH (current + 1)) as ((Hle & Hge) & Hall & Hstop). split_and!; [lia|lia| |intros; apply Hstop; lia].
    intros i Hi. destruct (decide (i = current)) as [->|]; [done|]. apply Hall. lia.
Qed.

(** The loop stops before its fuel ends: [length parts] numbers cannot contain
    one number more. *)
Lemma first_missing_spec parts n : _first_missing_part parts = n →
  0 ≤ n ∧ (∀ i, 1 ≤ i ≤ n → i ∈ sap_number <$> parts) ∧ n + 1 ∉ sap_number <$> parts.
Proof.
  unfold _first_missing_part. intros <-. set (numbers := sap_number <$> parts).
  assert (length parts = length numbers) as -> by (unfold numbers; by rewrite length_fmap).
  destruct (missing_loop_spec (length numbers) numbers 1) as ((Hle & Hge) & Hall & Hstop).
  set (stop := missing_loop _ numbers 1) in *. split_and!; [lia|intros; apply Hall; lia|].
  replace (stop - 1 + 1) with stop by lia. intros Hin.
  destruct (decide (stop < 1 + Z.of_nat (length numbers))) as [Hlt|Hnot]; [by apply Hstop|].
  assert (stop = 1 + Z.of_nat (length numbers)) as Hs by lia.
  assert (rangeZ 1 (stop + 1) ⊆+ numbers) as Hsub.
  { apply NoDup_submseteq; [apply NoDup_seqZ|]. intros i Hi%elem_of_seqZ.
    destruct (decide (i = stop)) as [->|]; [done|]. apply Hall. lia. }
  apply submseteq_length in Hsub. unfold rangeZ in Hsub. rewrite length_seqZ in Hsub. lia.
Qed.

Lemma first_missing_unique parts n : 0 ≤ n → (∀ i, 1 ≤ i ≤ n → i ∈ sap_number <$> parts) → n + 1 ∉ sap_number <$> parts →
  _first_missing_part parts = n.
Proof.
  intros Hn Hall Hnot. destruct (first_missing_spec parts _ eq_refl) as (Hm & Hall' & Hnot').
  set (m := _first_missing_part parts) in *. destruct (Z.lt_trichotomy m n) as [Hlt|[He|Hlt]]; [|done|].
  - destruct Hnot'. apply Hall. lia.
  - destruct Hnot. apply Hall'. lia.
Qed.

#[export] Instance first_missing_proper : Proper ((≡ₚ) ==> (=)) _first_missing_part.
Proof.
  intros l k Hp. destruct (first_missing_spec k _ eq_refl) as (Hm & Hall & Hnot).
  apply first_missing_unique; [done| |]; setoid_rewrite Hp; done.
Qed.

(** ** Merging ordered receipts *)

Section merging.
Context {A : Type} `{EqDecision A} (key : A → Z) (conflict : exn).

Definition keyed (m : gmap Z A) : Prop := ∀ k x, m !! k = Some x → key x = k.

(** Receipts with one number are one receipt. *)
Definition compatible (c d : list A) : Prop := ∀ x y, x ∈ c → y ∈ d → key x = key y → x = y.

(** The ordered union. *)
Definition joins (c d e : list A) : Prop := increasing key e ∧ ∀ z, z ∈ e ↔ z ∈ c ∨ z ∈ d.

Lemma insert_keyed m x : keyed m → keyed (<[key x := x]> m).
Proof. intros Hm k y [[<- <-]|[_ Hy]]%lookup_insert_Some; [done|by apply Hm]. Qed.

Lemma by_number_spec l : NoDup (key <$> l) → keyed (by_number key l) ∧
  ∀ z, by_number key l !! key z = Some z ↔ z ∈ l.
Proof.
  unfold by_number. intros Hnd.
  assert (∀ m, keyed m → keyed (foldl (λ m x, <[key x := x]> m) m l) ∧
    ∀ z, foldl (λ m x, <[key x := x]> m) m l !! key z = Some z ↔
      z ∈ l ∨ (m !! key z = Some z ∧ key z ∉ key <$> l)) as Hgen.
  { induction l as [|x l IH]; intros m Hm; cbn [foldl]; [set_solver|].
    rewrite fmap_cons in *. apply NoDup_cons in Hnd as [Hx Hnd].
    destruct (IH Hnd _ (insert_keyed m x Hm)) as [Hk Hz]. split; [done|]. intros z. rewrite Hz, !elem_of_cons.
    assert (z ∈ l → key z ∈ key <$> l) as Hin by (intros; by apply list_elem_of_fmap_2).
    destruct (decide (key x = key z)) as [He|Hne].
    - rewrite He, lookup_insert_eq. rewrite He in Hx. naive_solver.
    - rewrite lookup_insert_ne by done. naive_solver. }
  destruct (Hgen ∅) as [Hk Hz]; [by intros k x ?%lookup_empty_Some|]. split; [done|]. intros z. rewrite Hz, lookup_empty. naive_solver.
Qed.

Lemma ordered_values_spec m : keyed m →
  increasing key (ordered_values key m) ∧ ∀ z, z ∈ ordered_values key m ↔ m !! key z = Some z.
Proof.
  intros Hm. unfold ordered_values. split.
  - apply sorted_byZ_increasing. assert (key <$> (map_to_list m).*2 = (map_to_list m).*1) as ->.
    { rewrite <- list_fmap_compose. apply list_fmap_ext. intros i [k x] Hi. cbn.
      apply Hm, elem_of_map_to_list. by eapply list_elem_of_lookup_2. }
    apply NoDup_fst_map_to_list.
  - intros z. rewrite sorted_byZ_perm, list_elem_of_fmap. split.
    + intros ([k x] & -> & Hx%elem_of_map_to_list). cbn. by rewrite (Hm _ _ Hx).
    + intros Hz. exists (key z, z). by rewrite elem_of_map_to_list.
Qed.

Lemma merge_step_iff m x m' : merge_step key conflict m x = Ok m' ↔
  (∀ y, m !! key x = Some y → y = x) ∧ m' = <[key x := x]> m.
Proof.
  unfold merge_step. destruct (m !! key x) as [y|] eqn:Hy; [|naive_solver].
  destruct (bool_decide_reflect (y = x)); cbn [negb]; naive_solver.
Qed.

Lemma merge_steps_spec l m : keyed m → NoDup (key <$> l) →
  (∀ m', foldM (merge_step key conflict) m l = Ok m' →
     keyed m' ∧ (∀ x, x ∈ l → ∀ y, m !! key x = Some y → y = x) ∧
     ∀ z, m' !! key z = Some z ↔ m !! key z = Some z ∨ z ∈ l) ∧
  ((∀ x, x ∈ l → ∀ y, m !! key x = Some y → y = x) → ∃ m', foldM (merge_step key conflict) m l = Ok m').
Proof.
  revert m. induction l as [|x l IH]; intros m Hm Hnd; cbn [foldM].
  { split; [|by eexists]. intros m' [= <-]. split_and!; [done|set_solver|set_solver]. }
  rewrite fmap_cons in Hnd. apply NoDup_cons in Hnd as [Hx Hnd].
  assert (∀ z, z ∈ l → key z ≠ key x) as Hne by (intros z Hz He; apply Hx; rewrite <- He; by apply list_elem_of_fmap_2).
  destruct (IH _ (insert_keyed m x Hm) Hnd) as [IH1 IH2]. split.
  - intros m' Hf. apply bind_Ok in Hf as (m1 & [Hmx ->]%merge_step_iff & Hf).
    apply IH1 in Hf as (Hk & Hc & Hz). split; [done|]. split.
    + intros w Hw y Hy. apply elem_of_cons in Hw as [->|Hw]; [by apply Hmx|].
      apply (Hc w Hw). rewrite lookup_insert_ne by (symmetry; by apply Hne). done.
    + intros z. rewrite Hz, elem_of_cons. destruct (decide (key x = key z)) as [He|Hn].
      * rewrite He, lookup_insert_eq. split; [intros [[= ->]|]; naive_solver|].
        intros [Hmz|[->|Hzl]]; [|by left|by right]. left. f_equal. symmetry. apply Hmx. by rewrite He.
      * rewrite lookup_insert_ne by done. naive_solver.
  - intros Hc. rewrite (proj2 (merge_step_iff m x (<[key x := x]> m))), ok_bind; [|split; [by apply (Hc x); left|done]].
    apply IH2. intros w Hw y. rewrite lookup_insert_ne by (symmetry; by apply Hne). intros Hy.
    apply (Hc w); [by right|done].
Qed.

Lemma joins_unique c d e e' : joins c d e → joins c d e' → e = e'.
Proof.
  intros [Hi Hz] [Hi' Hz']. eapply increasing_unique; [done|done|]. apply NoDup_Permutation.
  - by eapply NoDup_fmap_1, increasing_nodup.
  - by eapply NoDup_fmap_1, increasing_nodup.
  - intros z. by rewrite Hz, Hz'.
Qed.

Lemma merge_by_iff c d e : increasing key c → increasing key d →
  merge_by key conflict c d = Ok e ↔ compatible c d ∧ joins c d e.
Proof.
  intros Hc%increasing_nodup Hd%increasing_nodup. destruct (by_number_spec c Hc) as [Hk Hz].
  destruct (merge_steps_spec d (by_number key c) Hk Hd) as [H1 H2].
  assert (compatible c d ↔ ∀ x, x ∈ d → ∀ y, by_number key c !! key x = Some y → y = x) as Hcomp.
  { split.
    - intros Hcd x Hx y Hy. apply Hcd; [|done|by apply Hk in Hy]. apply Hz. by rewrite (Hk _ _ Hy).
    - intros Hcd x y Hx Hy He. apply (Hcd y Hy). rewrite <- He. by apply Hz. }
  assert (∀ e', merge_by key conflict c d = Ok e' → compatible c d ∧ joins c d e') as Hfwd.
  { unfold merge_by. intros e' He. apply bind_Ok in He as (m & Hm & [= <-]). destruct (H1 _ Hm) as (Hkm & Hcm & Hzm).
    split; [by apply Hcomp|]. destruct (ordered_values_spec m Hkm) as [Hi Ho]. split; [done|].
    intros z. by rewrite Ho, Hzm, Hz. }
  split; [apply Hfwd|]. intros [Hcd Hj]. destruct (H2 (proj1 Hcomp Hcd)) as [m Hm].
  assert (merge_by key conflict c d = Ok (ordered_values key m)) as He by (unfold merge_by; by rewrite Hm).
  rewrite He. f_equal. destruct (Hfwd _ He) as [_ Hj']. by eapply joins_unique.
Qed.

Lemma merge_by_ok c d : increasing key c → increasing key d → compatible c d →
  ∃ e, merge_by key conflict c d = Ok e.
Proof.
  intros Hc Hd Hcd. destruct (by_number_spec c (increasing_nodup _ _ Hc)) as [Hk Hz].
  destruct (merge_steps_spec d (by_number key c) Hk (increasing_nodup _ _ Hd)) as [_ H2]. destruct H2 as [m Hm].
  { intros x Hx y Hy. apply Hcd; [|done|by apply Hk in Hy]. apply Hz. by rewrite (Hk _ _ Hy). }
  exists (ordered_values key m). unfold merge_by. by rewrite Hm.
Qed.
End merging.

(** ** Merging checkpoints *)

Definition completed_ok (c : RawUploadCheckpoint) : Prop :=
  match rk_completed c with
  | None => True
  | Some k => _require_complete_coverage (rk_archive_parts c) (rk_plaintext_bytes c) = Ok tt ∧
              cr_bytes k = sumZ sap_stored_bytes (rk_archive_parts c)
  end.

(** The invariant of the progress in a checkpoint. *)
Record progress_valid (c : RawUploadCheckpoint) : Prop := {
  pg_parts : increasing sap_number (rk_archive_parts c);
  pg_stored : Forall (λ p, 1 ≤ sap_stored_bytes p) (rk_archive_parts c);
  pg_segments : increasing wr_number (rk_write_segments c);
  pg_next : rk_next_part c = _first_missing_part (rk_archive_parts c);
  pg_completed : completed_ok c;
}.

(** [current.completed or candidate.completed] *)
Definition or_else {A} (x y : option A) : option A := match x with Some a => Some a | None => y end.

(** What [merge_raw_upload_checkpoints] computes. *)
Record merges (c d e : RawUploadCheckpoint) : Prop := {
  mg_same : static_fields c = static_fields d;
  mg_static : static_fields e = static_fields c;
  mg_parts_agree : compatible sap_number (rk_archive_parts c) (rk_archive_parts d);
  mg_parts : joins sap_number (rk_archive_parts c) (rk_archive_parts d) (rk_archive_parts e);
  mg_segments_agree : compatible wr_number (rk_write_segments c) (rk_write_segments d);
  mg_segments : joins wr_number (rk_write_segments c) (rk_write_segments d) (rk_write_segments e);
  mg_completed_agree : ∀ k k', rk_completed c = Some k → rk_completed d = Some k' → k = k';
  mg_completed : rk_completed e = or_else (rk_completed c) (rk_completed d);
  mg_next : rk_next_part e = _first_missing_part (rk_archive_parts e);
  mg_done : completed_ok e;
}.

Lemma checkpoint_ext c d : static_fields c = static_fields d → rk_next_part c = rk_next_part d →
  rk_archive_parts c = rk_archive_parts d → rk_write_segments c = rk_write_segments d →
  rk_completed c = rk_completed d → c = d.
Proof. destruct c, d. unfold static_fields. cbn. intros. simplify_eq. done. Qed.

Lemma completed_conflict_iff (c d : option CompletedRawObject) :
  match c, d with Some x, Some y => negb (bool_decide (x = y)) | _, _ => false end = false ↔
  ∀ k k', c = Some k → d = Some k' → k = k'.
Proof.
  destruct c as [x|], d as [y|]; try naive_solver. rewrite negb_false_iff, bool_decide_eq_true. naive_solver.
Qed.

Lemma merge_iff c d e : progress_valid c → progress_valid d →
  merge_raw_upload_checkpoints c d = Ok e ↔ merges c d e.
Proof.
  intros Hc Hd. pose proof (pg_parts _ Hc) as Hpc. pose proof (pg_parts _ Hd) as Hpd.
  pose proof (pg_segments _ Hc) as Hsc. pose proof (pg_segments _ Hd) as Hsd.
  unfold merge_raw_upload_checkpoints, _merge_write_segments. cbv zeta. split.
  - intros Hm. inv_step Hm. bool_prop. apply bind_Ok in Hm as (ordered & Ho & Hm). apply bind_Ok in Hm as (segments & Hs & Hm).
    apply merge_by_iff in Ho as [Hpa Hpj]; [|done..]. apply merge_by_iff in Hs as [Hsa Hsj]; [|done..].
    inv_step Hm. pose proof (proj1 (completed_conflict_iff (rk_completed c) (rk_completed d)) E0) as Hca.
    assert (e = with_progress c (_first_missing_part ordered) ordered segments (or_else (rk_completed c) (rk_completed d)) ∧
      completed_ok e) as [-> Hdone].
    { fold (or_else (rk_completed c) (rk_completed d)) in Hm |- *. unfold completed_ok.
      destruct (or_else (rk_completed c) (rk_completed d)) as [k|] eqn:Hk; [|injection Hm as <-; cbn; by rewrite ?Hk].
      apply bind_Ok in Hm as ([] & Hcov & Hm). inv_step Hm. injection Hm as <-. cbn. split; [done|]. bool_prop.
      split; [done|]. by apply Z.eqb_eq. }
    by split.
  - intros [Hsame Hst Hpa Hpj Hsa Hsj Hca Hco Hn Hdone]. rewrite bool_decide_true by done. cbn [negb].
    rewrite (proj2 (merge_by_iff _ _ _ _ _ Hpc Hpd) (conj Hpa Hpj)), ok_bind.
    rewrite (proj2 (merge_by_iff _ _ _ _ _ Hsc Hsd) (conj Hsa Hsj)), ok_bind.
    rewrite (proj2 (completed_conflict_iff (rk_completed c) (rk_completed d)) Hca).
    fold (or_else (rk_completed c) (rk_completed d)). rewrite <- Hco.
    assert (with_progress c (_first_missing_part (rk_archive_parts e)) (rk_archive_parts e) (rk_write_segments e)
              (rk_completed e) = e) as He by (apply checkpoint_ext; try done; by rewrite Hn).
    unfold completed_ok in Hdone. destruct (rk_completed e) as [k|] eqn:Hk; [|by rewrite He].
    destruct Hdone as [Hcov Hbytes]. rewrite He, Hcov, ok_bind, Hbytes, Z.eqb_refl. done.
Qed.

Lemma joins_stored c d e : joins sap_number c d e → Forall (λ p, 1 ≤ sap_stored_bytes p) c →
  Forall (λ p, 1 ≤ sap_stored_bytes p) d → Forall (λ p, 1 ≤ sap_stored_bytes p) e.
Proof. rewrite !Forall_forall. intros [_ Hz] Hc Hd p Hp. apply Hz in Hp as []; auto. Qed.

Lemma merges_valid c d e : progress_valid c → progress_valid d → merges c d e → progress_valid e.
Proof.
  intros Hc Hd []. split; try done; [apply mg_parts0| |apply mg_segments0].
  eapply joins_stored; [done|apply Hc|apply Hd].
Qed.

(** ** Acknowledgements in any order *)

Lemma increasing_elements {A} (key : A → Z) l k : increasing key l → increasing key k → (∀ z, z ∈ l ↔ z ∈ k) → l = k.
Proof.
  intros Hl Hk Hz. eapply increasing_unique; [done|done|].
  apply NoDup_Permutation; [by eapply NoDup_fmap_1, increasing_nodup..|done].
Qed.

(** Parts whose stored bytes add up to those of some of them are these. *)
Lemma stored_sum_fixed l k : increasing sap_number l → increasing sap_number k → (∀ z, z ∈ l → z ∈ k) →
  Forall (λ p, 1 ≤ sap_stored_bytes p) k → sumZ sap_stored_bytes k = sumZ sap_stored_bytes l → k = l.
Proof.
  intros Hl Hk Hsub Hpos Hsum. assert (l ⊆+ k) as [r Hr]%submseteq_Permutation
    by (apply NoDup_submseteq; [by eapply NoDup_fmap_1, increasing_nodup|done]).
  rewrite (sumZ_Permutation _ _ _ Hr), sumZ_app in Hsum. rewrite Hr, Forall_app in Hpos. destruct Hpos as [_ Hpos].
  apply sumZ_lower in Hpos as Hlow. pose proof (len_nonneg r) as Hlen.
  assert (r = []) as -> by (apply len_0_nil; lia). rewrite app_nil_r in Hr. by eapply increasing_unique.
Qed.

(** A completed checkpoint already has all the parts of anything it merges into. *)
Lemma completed_has_all c y k : progress_valid c → progress_valid y → rk_completed c = Some k →
  rk_completed y = Some k → (∀ z, z ∈ rk_archive_parts c → z ∈ rk_archive_parts y) →
  rk_archive_parts y = rk_archive_parts c.
Proof.
  intros [Hc _ _ _ Hkc] [Hy Hsy _ _ Hky] Ec Ey Hsub. unfold completed_ok in *. rewrite Ec in Hkc. rewrite Ey in Hky.
  apply stored_sum_fixed; try done. by rewrite <- (proj2 Hky), <- (proj2 Hkc).
Qed.

Lemma merges_ok c d : progress_valid c → progress_valid d → static_fields c = static_fields d →
  compatible sap_number (rk_archive_parts c) (rk_archive_parts d) →
  compatible wr_number (rk_write_segments c) (rk_write_segments d) →
  (∀ k k', rk_completed c = Some k → rk_completed d = Some k' → k = k') →
  (∀ e, joins sap_number (rk_archive_parts c) (rk_archive_parts d) (rk_archive_parts e) →
        static_fields e = static_fields c → rk_completed e = or_else (rk_completed c) (rk_completed d) → completed_ok e) →
  ∃ e, merges c d e.
Proof.
  intros Hc Hd Hst Hp Hs Hk Hdone.
  destruct (merge_by_ok sap_number part_conflict _ _ (pg_parts _ Hc) (pg_parts _ Hd) Hp) as [parts Hparts].
  destruct (merge_by_ok wr_number segment_conflict _ _ (pg_segments _ Hc) (pg_segments _ Hd) Hs) as [segments Hsegs].
  apply merge_by_iff in Hparts as [_ Hparts]; [|apply Hc|apply Hd].
  apply merge_by_iff in Hsegs as [_ Hsegs]; [|apply Hc|apply Hd].
  exists (with_progress c (_first_missing_part parts) parts segments (or_else (rk_completed c) (rk_completed d))).
  split; try done. by apply Hdone.
Qed.

Lemma compatible_sub {A} (key : A → Z) c d c' d' : compatible key c d → (∀ z, z ∈ c' → z ∈ c) → (∀ z, z ∈ d' → z ∈ d) →
  compatible key c' d'.
Proof. intros H Hc Hd x y Hx Hy. apply H; auto. Qed.

Lemma compatible_sym {A} (key : A → Z) c d : compatible key c d → compatible key d c.
Proof. intros H x y Hx Hy He. symmetry. by apply H. Qed.

(** The elements of a join are compatible with what its sides are. *)
Lemma compatible_join {A} (key : A → Z) c d e b : joins key c d e →
  compatible key e b ↔ compatible key c b ∧ compatible key d b.
Proof.
  intros [_ Hz]. split.
  - intros H. split; eapply compatible_sub; try done; intros z Hin; apply Hz; auto.
  - intros [H1 H2] x y Hx Hy. apply Hz in Hx as []; [by apply H1|by apply H2].
Qed.

Lemma joins_swap {A} (key : A → Z) c a b x y x' : joins key c a x → joins key x b y → joins key c b x' → joins key x' a y.
Proof. intros [_ Hx] [Hi Hy] [_ Hx']. split; [done|]. intros z. rewrite Hy, Hx, Hx'. tauto. Qed.

Section swap.
Context (c a b x y : RawUploadCheckpoint).
Context (Hc : progress_valid c) (Ha : progress_valid a) (Hb : progress_valid b).
Context (Hx : merges c a x) (Hy : merges x b y).

Lemma swap_compatible :
  compatible sap_number (rk_archive_parts c) (rk_archive_parts b) ∧
  compatible sap_number (rk_archive_parts a) (rk_archive_parts b) ∧
  compatible wr_number (rk_write_segments c) (rk_write_segments b) ∧
  compatible wr_number (rk_write_segments a) (rk_write_segments b).
Proof.
  pose proof (proj1 (compatible_join _ _ _ _ _ (mg_parts _ _ _ Hx)) (mg_parts_agree _ _ _ Hy)) as [? ?].
  pose proof (proj1 (compatible_join _ _ _ _ _ (mg_segments _ _ _ Hx)) (mg_segments_agree _ _ _ Hy)) as [? ?]. done.
Qed.

Lemma swap_completed k k' : rk_completed c = Some k → rk_completed b = Some k' → k = k'.
Proof.
  intros Hk Hk'. apply (mg_completed_agree _ _ _ Hy); [|done]. by rewrite (mg_completed _ _ _ Hx), Hk.
Qed.

(** Whoever is completed first fixes the parts of the result. *)
Lemma swap_done e : joins sap_number (rk_archive_parts c) (rk_archive_parts b) (rk_archive_parts e) →
  static_fields e = static_fields c → rk_completed e = or_else (rk_completed c) (rk_completed b) → completed_ok e.
Proof.
  intros [Hi Hz] Hst He. unfold completed_ok. destruct (rk_completed e) as [k|] eqn:Ek; [|done].
  pose proof (merges_valid _ _ _ (merges_valid _ _ _ Hc Ha Hx) Hb Hy) as Hvy.
  pose proof (proj2 (mg_parts _ _ _ Hx)) as Hzx. pose proof (proj2 (mg_parts _ _ _ Hy)) as Hzy.
  assert (rk_completed y = Some k) as Ey.
  { rewrite (mg_completed _ _ _ Hy), (mg_completed _ _ _ Hx). destruct (rk_completed c) as [kc|] eqn:Ec; [done|].
    cbn in He |- *. destruct (rk_completed a) as [ka|] eqn:Ea; cbn; [|done]. f_equal.
    apply (mg_completed_agree _ _ _ Hy); [|done]. by rewrite (mg_completed _ _ _ Hx), Ec, Ea. }
  assert (rk_archive_parts e = rk_archive_parts y) as ->.
  { apply (increasing_elements sap_number); [done|apply Hvy|]. intros z. rewrite Hz, Hzy, Hzx.
    split; [tauto|]. intros Hin. destruct (rk_completed c) as [kc|] eqn:Ec; cbn in He.
    - injection He as ->. left. rewrite <- (completed_has_all c y kc Hc Hvy Ec Ey); [by apply Hzy; rewrite Hzx|].
      intros w Hw. apply Hzy. rewrite Hzx. tauto.
    - right. rewrite <- (completed_has_all b y k Hb Hvy (eq_sym He) Ey); [by apply Hzy; rewrite Hzx|].
      intros w Hw. apply Hzy. tauto. }
  pose proof (mg_done _ _ _ Hy) as Hdone. unfold completed_ok in Hdone. rewrite Ey in Hdone.
  assert (static_fields e = static_fields y) as Hsy by by rewrite Hst, (mg_static _ _ _ Hy), (mg_static _ _ _ Hx).
  assert (rk_plaintext_bytes e = rk_plaintext_bytes y) as -> by (unfold static_fields in Hsy; by simplify_eq). done.
Qed.

Lemma merges_swap : ∃ x', merges c b x' ∧ merges x' a y.
Proof.
  destruct swap_compatible as (Hpcb & Hpab & Hscb & Hsab).
  destruct (merges_ok c b Hc Hb) as [x' Hx']; [|done|done|apply swap_completed|apply swap_done|].
  { by rewrite <- (mg_same _ _ _ Hy), (mg_static _ _ _ Hx). }
  exists x'. split; [done|]. pose proof (mg_static _ _ _ Hx') as Hst. split.
  - by rewrite Hst, (mg_same _ _ _ Hx).
  - by rewrite Hst, (mg_static _ _ _ Hy), (mg_static _ _ _ Hx).
  - apply (compatible_join _ _ _ _ _ (mg_parts _ _ _ Hx')). split; [apply Hx|by apply compatible_sym].
  - eapply joins_swap; [apply Hx|apply Hy|apply Hx'].
  - apply (compatible_join _ _ _ _ _ (mg_segments _ _ _ Hx')). split; [apply Hx|by apply compatible_sym].
  - eapply joins_swap; [apply Hx|apply Hy|apply Hx'].
  - intros k k'. rewrite (mg_completed _ _ _ Hx'). destruct (rk_completed c) as [kc|] eqn:Ec; cbn.
    + intros [= ->] Hk'. by apply (mg_completed_agree _ _ _ Hx).
    + intros Hk Hk'. symmetry. apply (mg_completed_agree _ _ _ Hy); [|done]. by rewrite (mg_completed _ _ _ Hx), Ec.
  - rewrite (mg_completed _ _ _ Hy), (mg_completed _ _ _ Hx), (mg_completed _ _ _ Hx').
    destruct (rk_completed c) eqn:Ec, (rk_completed a) as [ka|] eqn:Ea, (rk_completed b) as [kb|] eqn:Eb; try done. cbn.
    f_equal. apply (mg_completed_agree _ _ _ Hy); [|done]. by rewrite (mg_completed _ _ _ Hx), Ec, Ea.
  - apply Hy.
  - apply Hy.
Qed.
End swap.

Lemma merge_valid c d e : progress_valid c → progress_valid d → merge_raw_upload_checkpoints c d = Ok e → progress_valid e.
Proof. intros Hc Hd Hm. apply merge_iff in Hm; [|done..]. exact (merges_valid c d e Hc Hd Hm). Qed.

Lemma merges_fold_valid c cs r : progress_valid c → Forall progress_valid cs →
  foldM merge_raw_upload_checkpoints c cs = Ok r → progress_valid r.
Proof.
  intros Hc Hcs Hf. eapply (foldM_inv _ progress_valid); [exact Hf|done|]. rewrite Forall_forall in Hcs.
  intros x b y Hb Hx Hm. eapply merge_valid; [done| |done]. by apply Hcs.
Qed.

Lemma merge_fold_perm c cs cs' r : cs ≡ₚ cs' → progress_valid c → Forall progress_valid cs →
  foldM merge_raw_upload_checkpoints c cs = Ok r → foldM merge_raw_upload_checkpoints c cs' = Ok r.
Proof.
  intros Hp. revert c. induction Hp as [|x l l' Hp IH|b a l|l1 l2 l3 Hp1 IH1 Hp2 IH2]; intros c Hc Hcs; cbn [foldM].
  - done.
  - apply Forall_cons in Hcs as [Hx Hcs]. rewrite !bind_Ok. intros (d & Hd & Hf). exists d. split; [done|].
    apply IH; [exact (merge_valid _ _ _ Hc Hx Hd)|done|done].
  - apply Forall_cons in Hcs as [Ha Hcs]. apply Forall_cons in Hcs as [Hb Hcs]. intros Hf.
    apply bind_Ok in Hf as (x & Hx & Hf). apply bind_Ok in Hf as (y & Hy & Hf).
    pose proof (merge_valid _ _ _ Hc Ha Hx) as Hvx. apply merge_iff in Hx; [|done..]. apply merge_iff in Hy; [|done..].
    destruct (merges_swap c a b x y Hc Ha Hb Hx Hy) as (x' & Hx' & Hy').
    rewrite (proj2 (merge_iff c b x' Hc Hb) Hx'), ok_bind.
    rewrite (proj2 (merge_iff x' a y (merges_valid _ _ _ Hc Hb Hx') Ha) Hy'), ok_bind. done.
  - intros Hf. apply IH2; [done|by rewrite <- Hp1|]. by apply IH1.
Qed.

(** The order of progress: [d] knows all that [c] knows. *)
Record below (c d : RawUploadCheckpoint) : Prop := {
  bw_static : static_fields c = static_fields d;
  bw_parts : ∀ z, z ∈ rk_archive_parts c → z ∈ rk_archive_parts d;
  bw_segments : ∀ z, z ∈ rk_write_segments c → z ∈ rk_write_segments d;
  bw_completed : ∀ k, rk_completed c = Some k → rk_completed d = Some k;
}.

#[export] Instance below_preorder : PreOrder below.
Proof.
  split; [by intros c; split|]. intros c d e [] []. split; [congruence|auto..].
Qed.

Lemma merges_below c d e : merges c d e → below c e ∧ below d e.
Proof.
  intros [Hsame Hst _ [_ Hp] _ [_ Hs] Hca Hco _ _]. split; split; try (intros z Hz; apply Hp; auto);
    try (intros z Hz; apply Hs; auto); try congruence.
  - intros k Hk. by rewrite Hco, Hk.
  - intros k Hk. rewrite Hco. destruct (rk_completed c) as [kc|] eqn:Ec; [|done]. cbn. f_equal. by apply Hca.
Qed.

Lemma increasing_key_inj {A} (key : A → Z) l x y : increasing key l → x ∈ l → y ∈ l → key x = key y → x = y.
Proof.
  intros Hl%increasing_nodup Hx Hy He. apply list_elem_of_lookup in Hx as [i Hi], Hy as [j Hj].
  assert (i = j) as ->; [|congruence]. apply (NoDup_lookup _ i j (key x) Hl); rewrite list_lookup_fmap; [by rewrite Hi|by rewrite Hj, He].
Qed.

(** Merging what is already known changes nothing. *)
Lemma merge_known c r : progress_valid c → progress_valid r → below c r → merge_raw_upload_checkpoints r c = Ok r.
Proof.
  intros Hc Hr [Hst Hp Hs Hk]. apply merge_iff; [done..|]. split; try done.
  - intros x y Hx Hy. apply (increasing_key_inj sap_number (rk_archive_parts r)); [apply Hr|done|by apply Hp].
  - split; [apply Hr|]. intros z. split; [tauto|]. intros [|]; auto.
  - intros x y Hx Hy. apply (increasing_key_inj wr_number (rk_write_segments r)); [apply Hr|done|by apply Hs].
  - split; [apply Hr|]. intros z. split; [tauto|]. intros [|]; auto.
  - intros k k' Hkr Hkc%Hk. congruence.
  - destruct (rk_completed r) as [k|] eqn:Er; [done|]. cbn. destruct (rk_completed c) as [k|]; [|done]. by specialize (Hk k eq_refl).
  - apply Hr.
  - apply Hr.
Qed.

Lemma merge_fold_below c cs r : progress_valid c → Forall progress_valid cs →
  foldM merge_raw_upload_checkpoints c cs = Ok r → Forall (λ d, below d r) (c :: cs).
Proof.
  revert c. induction cs as [|d cs IH]; intros c Hc Hcs Hf; cbn [foldM] in Hf.
  - injection Hf as ->. by constructor.
  - apply Forall_cons in Hcs as [Hd Hcs]. apply bind_Ok in Hf as (x & Hx & Hf).
    pose proof (merge_valid _ _ _ Hc Hd Hx) as Hvx. specialize (IH x Hvx Hcs Hf). apply Forall_cons in IH as [Hxr Hall].
    apply merge_iff in Hx; [|done..]. destruct (merges_below _ _ _ Hx) as [Hcx Hdx].
    constructor; [by etrans|]. constructor; [by etrans|done].
Qed.

(** ** The JSON form *)

Lemma startswith_take m s : startswith m s = true → take (length m) s = m.
Proof.
  revert s. induction m as [|c m IH]; intros s Hs; [done|]. destruct s as [|d s]; [done|]. cbn in Hs.
  apply andb_true_iff in Hs as [->%Z.eqb_eq Hs]. cbn. f_equal. by apply IH.
Qed.

Section roundtrip.
Context `{PyEnv}.

Definition text_opt_ok (o : option pystr) : Prop := from_option text_ok True o.

(** Parts in the order that the parser requires. *)
Fixpoint parts_in_order (previous_number previous_end : Z) (parts : list StoredArchivePart) : Prop :=
  match parts with
  | [] => True
  | p :: parts' =>
      previous_number < sap_number p ∧ previous_end ≤ sap_plaintext_start p ∧ 0 ≤ sap_plaintext_bytes p ∧
      1 ≤ sap_stored_bytes p ∧ sha256_fullmatch (sap_plaintext_sha256 p) = true ∧
      sha256_fullmatch (sap_stored_sha256 p) = true ∧
      parts_in_order (sap_number p) (sap_plaintext_start p + sap_plaintext_bytes p) parts'
  end.

Definition segment_valid (s : WriteSegmentReceipt) : Prop :=
  1 ≤ wr_number s ∧ 1 ≤ wr_bytes s ∧ wr_segment_token s ≠ [] ∧ text_ok (wr_segment_token s) ∧
  from_option (λ h, sha256_fullmatch h = true) True (wr_sha256 s).

Definition cache_receipt_valid (r : RetrievalCacheReceipt) : Prop :=
  (rcr_cache_store r ≠ [] ∧ text_ok (rcr_cache_store r)) ∧ (rcr_object_path r ≠ [] ∧ text_ok (rcr_object_path r)) ∧
  text_opt_ok (rcr_revision r) ∧ 1 ≤ rcr_stored_bytes r ∧
  from_option (λ h, sha256_fullmatch h = true) True (rcr_stored_sha256 r) ∧
  (rcr_cached_at r ≠ [] ∧ text_ok (rcr_cached_at r)) ∧ (rcr_verified_at r ≠ [] ∧ text_ok (rcr_verified_at r)).

Definition completed_valid (c : CompletedRawObject) : Prop :=
  text_opt_ok (cr_revision c) ∧ text_opt_ok (cr_entity_token c) ∧ 1 ≤ cr_bytes c ∧
  (cr_completed_at c ≠ [] ∧ text_ok (cr_completed_at c)) ∧ from_option cache_receipt_valid True (cr_retrieval_cache c).

(** What the uploader writes: canonical paths, the canonical text of an age
    state of the right size, ordered receipts. *)
Record checkpoint_valid (c : RawUploadCheckpoint) : Prop := {
  kv_progress : progress_valid c;
  kv_collection : 1 ≤ rk_collection_id c;
  kv_volume : segment_id_fullmatch (rk_volume_id c) = true;
  kv_object : rk_object_path c ≠ [] ∧ text_ok (rk_object_path c);
  kv_relative : normalize_relpath (rk_relative_path c) = Ok (rk_relative_path c) ∧ text_ok (rk_relative_path c);
  kv_source : normalize_relpath (rk_source_path c) = Ok (rk_source_path c) ∧ text_ok (rk_source_path c);
  kv_range : 0 ≤ rk_file_offset c ∧ 0 ≤ rk_plaintext_bytes c ∧
             rk_file_offset c + rk_plaintext_bytes c ≤ rk_file_bytes c;
  kv_sha256 : sha256_fullmatch (rk_file_sha256 c) = true;
  kv_target : CHUNK_SIZE ≤ rk_target_part_plaintext_bytes c ∧ rk_target_part_plaintext_bytes c mod CHUNK_SIZE = 0;
  kv_expected : Forall (λ h, sha256_fullmatch h = true) (rk_expected_part_sha256s c);
  kv_token : rk_write_token c ≠ [] ∧ text_ok (rk_write_token c);
  kv_age : ∃ state, upload_state_valid state ∧ us_plaintext_size state = Some (rk_plaintext_bytes c) ∧
           rk_age_state_json c = dumps false (upload_state_payload state);
  kv_parts : parts_in_order 0 0 (rk_archive_parts c);
  kv_segments : Forall segment_valid (rk_write_segments c);
  kv_completed : from_option (λ k, completed_valid k ∧ cr_bytes k = sumZ wr_bytes (rk_write_segments c)) True
                   (rk_completed c);
}.

Lemma sha_ok s label : sha256_fullmatch s = true → _sha (JStr s) label = Ok s.
Proof. unfold _sha. by intros ->. Qed.

Lemma uint_ok z label : 0 ≤ z → _uint (JInt z) label = Ok z.
Proof. apply canonical_int_ok. Qed.

(** Run the readers of fields of known shape. *)
Ltac read_fields :=
  repeat first [ rewrite uint_ok by lia | rewrite sha_ok by assumption | rewrite ok_bind ].

Lemma part_payload_read p acc n e : n < sap_number p → e ≤ sap_plaintext_start p → 0 ≤ n → 0 ≤ e →
  0 ≤ sap_plaintext_bytes p → 1 ≤ sap_stored_bytes p → sha256_fullmatch (sap_plaintext_sha256 p) = true →
  sha256_fullmatch (sap_stored_sha256 p) = true →
  part_payload_step (acc, n, e) (canon (_part_identity p)) =
  Ok (acc ++ [p], sap_number p, sap_plaintext_start p + sap_plaintext_bytes p).
Proof.
  intros. rewrite part_identity_canon. unfold part_payload_step, get_or_null. dict_simpl. cbn [from_option id].
  read_fields. rewrite (proj2 (Z.leb_gt (sap_number p) n)), (proj2 (Z.ltb_ge (sap_plaintext_start p) e)),
    (proj2 (Z.ltb_ge (sap_stored_bytes p) 1)) by lia. cbn [orb]. by destruct p.
Qed.

Lemma parts_payload_read parts acc n e : 0 ≤ n → 0 ≤ e → parts_in_order n e parts →
  ∃ n' e', foldM part_payload_step (acc, n, e) (map canon (_part_identity <$> parts)) = Ok (acc ++ parts, n', e').
Proof.
  revert acc n e. induction parts as [|p parts IH]; intros acc n e Hn He Hp; [exists n, e; by rewrite app_nil_r|].
  destruct Hp as (Hnum & Hstart & Hbytes & Hstored & Hs1 & Hs2 & Hp). rewrite fmap_cons. cbn [map foldM].
  destruct (IH (acc ++ [p]) (sap_number p) (sap_plaintext_start p + sap_plaintext_bytes p)) as (n' & e' & Hf); [lia|lia|done|].
  exists n', e'. rewrite part_payload_read by done. rewrite ok_bind, Hf, <- app_assoc. done.
Qed.

Lemma segment_payload_canon s : canon (_write_segment_payload s) = _write_segment_payload s.
Proof. destruct s as [n t b [h|]]; reflexivity. Qed.

Lemma segment_payload_read s : segment_valid s → segment_from_payload (_write_segment_payload s) = Ok s.
Proof.
  intros (Hn & Hb & Ht & _ & Hs). unfold segment_from_payload, _write_segment_payload, get_or_null, get_text. dict_simpl.
  cbn [from_option id py_str]. read_fields.
  assert (match opt_str (wr_sha256 s) with JNull => Ok None | v => h ← _sha v "segment stored"; Ok (Some h) end =
    Ok (wr_sha256 s)) as -> by (destruct (wr_sha256 s) as [h|]; cbn [opt_str from_option]; [by rewrite sha_ok|done]).
  rewrite ok_bind. cbv zeta. cbn [wr_segment_token].
  rewrite (proj2 (Z.ltb_ge (wr_number s) 1)), (proj2 (Z.ltb_ge (wr_bytes s) 1)), bool_decide_false by done. by destruct s.
Qed.

Lemma segments_payload_read segments : increasing wr_number segments → Forall segment_valid segments →
  _segments_from_payload (map canon (_write_segment_payload <$> segments)) = Ok segments.
Proof.
  intros Hi Hv. unfold _segments_from_payload. rewrite map_canon_fix by apply segment_payload_canon.
  assert (mapM_result segment_from_payload (_write_segment_payload <$> segments) = Ok segments) as ->.
  { clear Hi. induction Hv as [|s segments Hs Hv IH]; [done|]. rewrite fmap_cons. cbn [mapM_result].
    by rewrite segment_payload_read, ok_bind, IH. }
  rewrite ok_bind. cbv zeta. rewrite (sorted_byZ_id _ _ Hi), bool_decide_true by by apply increasing_nodup. done.
Qed.

Lemma expected_payload_read l : Forall (λ h, sha256_fullmatch h = true) l →
  mapM_result (λ v, _sha v "expected part plaintext") (map canon (JStr <$> l)) = Ok l.
Proof.
  intros Hl. rewrite map_canon_fix by done. induction Hl as [|h l Hh Hl IH]; [done|]. rewrite fmap_cons. cbn [mapM_result].
  by rewrite sha_ok, ok_bind, IH.
Qed.

Lemma opt_str_read o : text_or_none (opt_str o) = o.
Proof. by destruct o. Qed.

Lemma cache_payload_canon r : canon (retrieval_cache_receipt_payload (Some r)) =
  JObj [(str "cache_store", JStr (rcr_cache_store r)); (str "cached_at", JStr (rcr_cached_at r));
        (str "object_path", JStr (rcr_object_path r)); (str "revision", opt_str (rcr_revision r));
        (str "stored_bytes", JInt (rcr_stored_bytes r)); (str "stored_sha256", opt_str (rcr_stored_sha256 r));
        (str "verified_at", JStr (rcr_verified_at r))].
Proof. destruct r as [a b [c|] d [e|] f g]; reflexivity. Qed.

Lemma cache_payload_read o : from_option cache_receipt_valid True o →
  parse_retrieval_cache_receipt (canon (retrieval_cache_receipt_payload o)) = Ok o.
Proof.
  destruct o as [r|]; [|done]. intros ((Hs & _) & (Hp & _) & _ & Hb & Hh & (Hc & _) & (Hv & _)).
  rewrite cache_payload_canon. unfold parse_retrieval_cache_receipt, get_text, get_or_null. dict_simpl.
  cbn [from_option id py_str]. cbv zeta. rewrite !opt_str_read, !bool_decide_false by done. cbn [orb].
  rewrite (proj2 (Z.ltb_ge _ _)) by done. cbn [orb].
  assert (match rcr_stored_sha256 r with
          | Some s => negb (len s =? 64) || existsb (λ c, negb (is_lower_hex c)) s
          | None => false end = false) as ->.
  { destruct (rcr_stored_sha256 r) as [h|]; [|done]. cbn in Hh. apply andb_true_iff in Hh as [Hl Hf]. rewrite Hl. cbn [negb orb].
    apply not_true_is_false. intros Hx. apply existsb_exists in Hx as (ch & Hin & Hx). rewrite forallb_forall in Hf.
    by rewrite (Hf _ Hin) in Hx. }
  by destruct r.
Qed.

Lemma completed_payload_canon k : canon (completed_payload (Some k)) =
  JObj [(str "bytes", JInt (cr_bytes k)); (str "completed_at", JStr (cr_completed_at k));
        (str "entity_token", opt_str (cr_entity_token k));
        (str "retrieval_cache", canon (retrieval_cache_receipt_payload (cr_retrieval_cache k)));
        (str "revision", opt_str (cr_revision k))].
Proof. destruct k as [[a|] [b|] c d e]; reflexivity. Qed.

Lemma completed_payload_read o : from_option completed_valid True o →
  _completed_from_payload (canon (completed_payload o)) = Ok o.
Proof.
  destruct o as [k|]; [|done]. intros (_ & _ & Hb & (Ha & _) & Hc). rewrite completed_payload_canon.
  unfold _completed_from_payload, get_text, get_or_null. dict_simpl. cbn [from_option id py_str].
  rewrite uint_ok, ok_bind by lia. cbv zeta. rewrite (proj2 (Z.ltb_ge _ _)), bool_decide_false by done. cbn [orb].
  rewrite cache_payload_read, ok_bind, !opt_str_read by done. by destruct k.
Qed.

Lemma opt_text_wf o : text_opt_ok o → json_wf (opt_str o).
Proof. by destruct o. Qed.

Lemma sha_opt_text o : from_option (λ h, sha256_fullmatch h = true) True o → text_opt_ok o.
Proof. destruct o; [apply sha256_fullmatch_text|done]. Qed.

Lemma segment_payload_wf s : segment_valid s → json_wf (_write_segment_payload s).
Proof. intros (_ & _ & _ & Ht & Hs). unfold _write_segment_payload. wf_obj; [done|by apply opt_text_wf, sha_opt_text]. Qed.

Lemma completed_payload_wf o : from_option completed_valid True o → json_wf (completed_payload o).
Proof.
  destruct o as [k|]; [|done]. intros (Hr & He & _ & (_ & Ha) & Hc). cbn [completed_payload].
  wf_obj; [by apply opt_text_wf|by apply opt_text_wf|done|]. destruct (cr_retrieval_cache k) as [r|]; [|done].
  destruct Hc as ((_ & Hs) & (_ & Hp) & Hrev & _ & Hh & (_ & Hca) & (_ & Hv)). cbn [retrieval_cache_receipt_payload].
  wf_obj; try done; apply opt_text_wf; [done|by apply sha_opt_text].
Qed.

Lemma parts_order_digests n e parts : parts_in_order n e parts → Forall (λ p, json_wf (_part_identity p)) parts.
Proof.
  revert n e. induction parts as [|p parts IH]; intros n e Hp; [constructor|].
  destruct Hp as (_ & _ & _ & _ & Hs1 & Hs2 & Hp). constructor; [by apply part_identity_wf|by eapply IH].
Qed.

Lemma raw_checkpoint_payload_wf c state : checkpoint_valid c → upload_state_valid state →
  json_wf (checkpoint_payload c (upload_state_payload state)).
Proof.
  intros [Hg _ Hvol Hobj Hrel Hsrc _ Hsha _ Hexp Htok _ Hparts Hsegs Hcomp] Hs. unfold checkpoint_payload. cbv zeta.
  rewrite (sorted_byZ_id _ _ (pg_parts _ Hg)), (sorted_byZ_id _ _ (pg_segments _ Hg)).
  assert (text_ok (rk_volume_id c)) as Ht.
  { apply andb_true_iff in Hvol as [Hst Hm]. rewrite <- (take_drop 8 (rk_volume_id c)). apply Forall_app.
    split; [|by apply sha256_fullmatch_text]. assert (take 8 (rk_volume_id c) = str "segment-") as ->; [|apply str_text].
    apply startswith_take in Hst. done. }
  wf_obj; try done; try (by apply Hobj); try (by apply Hrel); try (by apply Hsrc); try (by apply Htok).
  - by apply sha256_fullmatch_text.
  - apply json_wf_list, Forall_fmap. eapply Forall_impl; [exact Hexp|]. intros h. apply sha256_fullmatch_text.
  - by apply upload_payload_wf.
  - apply json_wf_list, Forall_fmap. by eapply parts_order_digests.
  - apply json_wf_list, Forall_fmap. eapply Forall_impl; [exact Hsegs|]. apply segment_payload_wf.
  - apply completed_payload_wf. destruct (rk_completed c); [apply Hcomp|done].
Qed.

(** The text of a state that is read back as a part of another document. *)
Lemma age_text_read state : upload_state_valid state →
  ∃ content, canonical_json_bytes (upload_state_payload state) = Ok content ∧
    utf8_decode content = Ok (dumps false (upload_state_payload state)) ∧
    from_json_text (dumps false (upload_state_payload state)) = Ok state.
Proof.
  intros Hs. pose proof (upload_payload_wf _ Hs) as Hwf. pose proof (dumps_text false _ Hwf) as Ht.
  destruct (utf8_encode_ok _ Ht) as [content Hc]. exists content. split; [done|]. split.
  - by apply (utf8_roundtrip _ _ (Forall_impl _ _ _ Ht (λ c Hc, proj1 Hc)) Hc).
  - unfold from_json_text. rewrite loads_dumps, ok_bind by done. by apply rebuild_upload_payload.
Qed.

Lemma check_completed_ok c : checkpoint_valid c →
  check_completed (rk_completed c) (rk_archive_parts c) (rk_write_segments c) (rk_plaintext_bytes c) = Ok tt.
Proof.
  intros Hc. pose proof (pg_completed _ (kv_progress _ Hc)) as Hdone. pose proof (kv_completed _ Hc) as Hk.
  unfold check_completed, completed_ok in *. destruct (rk_completed c) as [k|]; [|done]. destruct Hdone as [-> Hb], Hk as [_ Hs].
  rewrite ok_bind, <- Hb, <- Hs, !Z.eqb_refl. done.
Qed.

Lemma checkpoint_law c state : checkpoint_valid c → upload_state_valid state →
  us_plaintext_size state = Some (rk_plaintext_bytes c) → rk_age_state_json c = dumps false (upload_state_payload state) →
  checkpoint_of_payload (canon (checkpoint_payload c (upload_state_payload state))) = Ok c.
Proof.
  intros Hc Hs Hsize Hage. destruct (age_text_read state Hs) as (content & Hcontent & Hdec & Hread).
  pose proof (check_completed_ok c Hc) as Hcheck.
  destruct Hc as [Hg Hcol Hvol [Hobj _] [Hrel _] [Hsrc _] (Ho & Hpl & Hr) Hsha [Ht1 Ht2] Hexp [Htok _] _ Hparts Hsegs Hcomp].
  pose proof (pg_next _ Hg) as Hnext. pose proof (first_missing_spec _ _ (eq_sym Hnext)) as [Hn0 _].
  assert (0 ≤ rk_target_part_plaintext_bytes c) as Ht0 by (unfold CHUNK_SIZE in Ht1; lia).
  unfold checkpoint_payload. cbv zeta. rewrite (sorted_byZ_id _ _ (pg_parts _ Hg)), (sorted_byZ_id _ _ (pg_segments _ Hg)).
  rewrite canon_obj. unfold checkpoint_of_payload, get_or_null, get_text.
  rewrite (keys_are_perm _ _ _ (keys_canon _)), keys_are_intro by done. cbn [negb].
  rewrite !dict_get_canon by solve_keys. dict_simpl. cbn [fmap option_fmap option_map from_option id].
  rewrite upload_payload_canon, completed_payload_read
    by (destruct (rk_completed c); [apply Hcomp|done]).
  cbn [canon py_str]. unfold is_str. rewrite bool_decide_true by done. cbn [negb].
  assert (∃ age, upload_state_payload state = JObj age) as [age Hj] by by eexists.
  rewrite Hj in *. rewrite Hcontent, ok_bind, Hdec, ok_bind, Hread, ok_bind. read_fields.
  rewrite Hsize, bool_decide_true by done. cbn [negb].
  rewrite expected_payload_read, ok_bind by done. unfold _parts_from_payload.
  destruct (parts_payload_read (rk_archive_parts c) [] 0 0 ltac:(lia) ltac:(lia) Hparts) as (n' & e' & Hread').
  change (_archive_part_payload <$> rk_archive_parts c) with (_part_identity <$> rk_archive_parts c).
  rewrite Hread', ok_bind. cbn [app]. rewrite ok_bind, segments_payload_read by (apply Hg || done). read_fields.
  rewrite <- Hnext, Z.eqb_refl. cbn [negb]. read_fields. rewrite Hcheck. read_fields.
  rewrite (proj2 (Z.ltb_ge (rk_collection_id c) 1)), Hvol by lia. cbn [negb]. read_fields.
  rewrite (proj2 (Z.ltb_ge _ _)) by lia. read_fields.
  rewrite !bool_decide_false by done. cbn [orb]. unfold CHUNK_SIZE in *. read_fields.
  rewrite (proj2 (Z.ltb_ge _ _)), Ht2, Z.eqb_refl by lia. cbn [negb orb]. rewrite Hrel, ok_bind, Hsrc, ok_bind, <- Hage.
  by destruct c.
Qed.

Lemma checkpoint_text c : checkpoint_valid c → ∃ text, to_json c = Ok text ∧ from_json text = Ok c.
Proof.
  intros Hc. destruct (kv_age _ Hc) as (state & Hs & Hsize & Hage).
  pose proof (raw_checkpoint_payload_wf c state Hc Hs) as Hwf. pose proof (dumps_text false _ Hwf) as Ht.
  destruct (utf8_encode_ok _ Ht) as [content Henc]. unfold to_json. rewrite Hage, loads_dumps, ok_bind, upload_payload_canon by by apply upload_payload_wf.
  unfold canonical_json_bytes. rewrite Henc, ok_bind, (utf8_roundtrip _ _ (Forall_impl _ _ _ Ht (λ c Hc, proj1 Hc)) Henc).
  eexists. split; [done|]. unfold from_json. rewrite loads_dumps by done. cbn [try_except]. rewrite ok_bind.
  by apply checkpoint_law.
Qed.
End roundtrip.

(** ** Every accepted text is a valid checkpoint *)

Section parsing.
Context `{PyEnv}.

Lemma uint_inv v label z : _uint v label = Ok z → 0 ≤ z.
Proof. intros Hz. by apply canonical_int_inv in Hz as [? _]. Qed.

Lemma sha_inv v label s : _sha v label = Ok s → sha256_fullmatch s = true.
Proof. unfold _sha. intros Hs. inv_ok Hs. subst. bool_prop. done. Qed.

Lemma part_step_inv acc n e raw parts' n' e' : part_payload_step (acc, n, e) raw = Ok (parts', n', e') →
  ∃ p, parts' = acc ++ [p] ∧ n' = sap_number p ∧ e' = sap_plaintext_start p + sap_plaintext_bytes p ∧
    ∀ l, parts_in_order n' e' l → parts_in_order n e (p :: l).
Proof.
  unfold part_payload_step. destruct raw; try done. intros Hs.
  apply bind_Ok in Hs as (number & Hn & Hs). apply bind_Ok in Hs as (start & Hst & Hs).
  apply bind_Ok in Hs as (bytes & Hb & Hs). apply bind_Ok in Hs as (ps & Hps & Hs).
  apply bind_Ok in Hs as (stored & Hsb & Hs). apply bind_Ok in Hs as (ss & Hss & Hs).
  inv_step Hs. injection Hs as <- <- <-. bool_prop. eexists. split_and!; [done|done|done|].
  intros l Hl. apply uint_inv in Hb. apply sha_inv in Hps, Hss. cbn. split_and!; try done; lia.
Qed.

Lemma parts_parse_order raws acc n e parts n' e' : foldM part_payload_step (acc, n, e) raws = Ok (parts, n', e') →
  ∃ l, parts = acc ++ l ∧ parts_in_order n e l.
Proof.
  revert acc n e. induction raws as [|raw raws IH]; intros acc n e Hf; cbn [foldM] in Hf.
  - injection Hf as <- _ _. exists []. by rewrite app_nil_r.
  - apply bind_Ok in Hf as ([[acc' n1] e1] & Hs & Hf). apply part_step_inv in Hs as (p & -> & -> & -> & Hp).
    apply IH in Hf as (l & -> & Hl). exists (p :: l). rewrite <- app_assoc. split; [done|by apply Hp].
Qed.

Lemma parts_order_increasing n e parts : parts_in_order n e parts →
  increasing sap_number parts ∧ Forall (λ p, n < sap_number p ∧ 1 ≤ sap_stored_bytes p ∧ 0 ≤ sap_plaintext_bytes p) parts.
Proof.
  revert n e. induction parts as [|p parts IH]; intros n e Hp; [by split; [constructor|]|].
  destruct Hp as (Hn & _ & Hb & Hs & _ & _ & Hp). apply IH in Hp as [Hi Hall]. split.
  - apply increasing_cons. split; [|done]. eapply Forall_impl; [exact Hall|]. cbn. lia.
  - constructor; [lia|]. eapply Forall_impl; [exact Hall|]. cbn. lia.
Qed.

Lemma segments_parse_increasing raws segments : _segments_from_payload raws = Ok segments → increasing wr_number segments.
Proof.
  unfold _segments_from_payload. intros Hs. apply bind_Ok in Hs as (l & _ & Hs). cbv zeta in Hs. inv_step Hs.
  injection Hs as <-. bool_prop. apply sorted_byZ_increasing. by rewrite <- (sorted_byZ_perm wr_number l).
Qed.

Lemma check_completed_inv completed parts segments n : check_completed completed parts segments n = Ok tt →
  match completed with
  | None => True
  | Some k => _require_complete_coverage parts n = Ok tt ∧ cr_bytes k = sumZ sap_stored_bytes parts ∧
              cr_bytes k = sumZ wr_bytes segments
  end.
Proof.
  destruct completed as [k|]; [|done]. unfold check_completed. intros Hc. apply bind_Ok in Hc as ([] & Hcov & Hc).
  inv_ok Hc. bool_prop. split_and!; [done|lia|lia].
Qed.

Lemma parsed_checkpoint payload c : checkpoint_of_payload payload = Ok c →
  progress_valid c ∧ parts_in_order 0 0 (rk_archive_parts c) ∧ 1 ≤ rk_collection_id c ∧
  rk_file_offset c + rk_plaintext_bytes c ≤ rk_file_bytes c ∧
  (∃ state, from_json_text (rk_age_state_json c) = Ok state ∧ us_plaintext_size state = Some (rk_plaintext_bytes c)) ∧
  match rk_completed c with Some k => cr_bytes k = sumZ wr_bytes (rk_write_segments c) | None => True end.
Proof.
  destruct payload as [| | | | | |o]; try done. unfold checkpoint_of_payload. intros Hp. do 2 inv_step Hp.
  destruct (get_or_null "age_state" o); try done. destruct (get_or_null "archive_parts" o); try done.
  destruct (get_or_null "expected_part_sha256s" o); try done. destruct (get_or_null "write_segments" o); try done.
  apply bind_Ok in Hp as (content & _ & Hp). apply bind_Ok in Hp as (age & _ & Hp).
  apply bind_Ok in Hp as (state & Hstate & Hp). apply bind_Ok in Hp as (bytes & _ & Hp). inv_step Hp.
  apply bind_Ok in Hp as (expected & _ & Hp). apply bind_Ok in Hp as (parts & Hparts & Hp).
  apply bind_Ok in Hp as (segments & Hsegments & Hp). apply bind_Ok in Hp as (next & _ & Hp). inv_step Hp.
  apply bind_Ok in Hp as (completed & _ & Hp). apply bind_Ok in Hp as ([] & Hdone & Hp).
  apply bind_Ok in Hp as (collection & _ & Hp). cbv zeta in Hp. do 2 inv_step Hp.
  apply bind_Ok in Hp as (offset & _ & Hp). apply bind_Ok in Hp as (file_bytes & _ & Hp). inv_step Hp.
  apply bind_Ok in Hp as (sha & _ & Hp). inv_step Hp. apply bind_Ok in Hp as (target & _ & Hp). inv_step Hp.
  apply bind_Ok in Hp as (relative & _ & Hp). apply bind_Ok in Hp as (source & _ & Hp). injection Hp as <-. bool_prop.
  unfold _parts_from_payload in Hparts. apply bind_Ok in Hparts as ([[read n'] e'] & Hparts & [= <-]).
  apply parts_parse_order in Hparts as (l' & -> & Horder). cbn [app] in *.
  destruct (parts_order_increasing _ _ _ Horder) as [Hi Hall]. apply check_completed_inv in Hdone.
  apply segments_parse_increasing in Hsegments. split_and!; cbn; try done; try lia.
  - split; cbn; try done; [|lia|].
    + eapply Forall_impl; [exact Hall|]. cbn. tauto.
    + unfold completed_ok. cbn. destruct completed; [|done]. tauto.
  - eauto.
  - destruct completed; [|done]. tauto.
Qed.
End parsing.

(** ** The row agrees with its checkpoint *)

Section rows.
Context `{PyEnv}.

(** The counters and the state of a row that keeps [c]. *)
Record row_describes (r : UploadRow) (c : RawUploadCheckpoint) : Prop := {
  rd_kind : ur_kind r = str "segment";
  rd_text : ∃ text, to_json c = Ok text ∧ ur_checkpoint_json r = Some text;
  rd_valid : progress_valid c;
  rd_bytes : ur_uploaded_bytes r = sumZ sap_stored_bytes (rk_archive_parts c);
  rd_units : ur_uploaded_units r = len (rk_archive_parts c);
  rd_state : ur_state r = if rk_completed c then str "sealed" else str "uploading";
}.

Lemma from_json_inv text c : from_json text = Ok c → ∃ payload, checkpoint_of_payload payload = Ok c.
Proof. unfold from_json. intros Hf. apply bind_Ok in Hf as (payload & _ & Hf). by exists payload. Qed.

Lemma from_json_payload text c : from_json text = Ok c →
  progress_valid c ∧ Forall (λ p, 0 ≤ sap_plaintext_bytes p) (rk_archive_parts c).
Proof.
  intros Hf. apply from_json_inv in Hf as [payload Hf]. apply parsed_checkpoint in Hf as (Hc & Ho & _). split; [done|].
  apply parts_order_increasing in Ho as [_ Ho]. eapply Forall_impl; [exact Ho|]. cbn. tauto.
Qed.

(** More parts, more bytes. *)
Lemma payload_mono c d : progress_valid c → below c d →
  Forall (λ p, 0 ≤ sap_plaintext_bytes p) (rk_archive_parts d) → payload_bytes c ≤ payload_bytes d.
Proof.
  intros Hc Hb Hd. unfold payload_bytes. assert (rk_archive_parts c ⊆+ rk_archive_parts d) as [r Hr]%submseteq_Permutation.
  { apply NoDup_submseteq; [by eapply NoDup_fmap_1, increasing_nodup, pg_parts|apply Hb]. }
  rewrite Hr, Forall_app in Hd. rewrite (sumZ_Permutation _ _ _ Hr), sumZ_app.
  pose proof (sumZ_nonneg sap_plaintext_bytes r (proj2 Hd)). lia.
Qed.

Lemma row_checkpoint_payload r c : row_checkpoint r = Ok (Some c) →
  progress_valid c ∧ Forall (λ p, 0 ≤ sap_plaintext_bytes p) (rk_archive_parts c).
Proof.
  unfold row_checkpoint. destruct (ur_checkpoint_json r) as [[|x text]|]; try done. intros Hr.
  apply bind_Ok in Hr as (d & Hd & [= ->]). by eapply from_json_payload.
Qed.

(** The merge of the row's checkpoint with an incoming one. *)
Lemma merge_previous r previous text incoming merged : row_checkpoint r = Ok previous → from_json text = Ok incoming →
  merge_raw_upload_checkpoints (default incoming previous) incoming = Ok merged →
  progress_valid merged ∧ below incoming merged ∧ from_option (λ c, below c merged) (merged = incoming) previous ∧
  from_option payload_bytes 0 previous ≤ payload_bytes merged ∧
  ∀ p, p ∈ rk_archive_parts merged →
    p ∈ rk_archive_parts incoming ∨ p ∈ from_option rk_archive_parts [] previous.
Proof.
  intros Hr Hi Hm. apply from_json_payload in Hi as [Hvi Hpi]. destruct previous as [c|]; cbn [from_option default] in *.
  - apply row_checkpoint_payload in Hr as [Hvc Hpc]. pose proof (merge_valid _ _ _ Hvc Hvi Hm) as Hv.
    apply merge_iff in Hm; [|done..]. destruct (merges_below _ _ _ Hm) as [Hc Hd]. destruct (mg_parts _ _ _ Hm) as [_ Hz].
    split_and!; [done|done|done| |intros p Hp%Hz; tauto]. apply payload_mono; [done|done|].
    rewrite Forall_forall in *. intros p [Hp|Hp]%Hz; auto.
  - rewrite (merge_known incoming incoming Hvi Hvi (reflexivity _)) in Hm. injection Hm as <-.
    split_and!; [done|reflexivity|done| |intros p Hp; by left]. by apply sumZ_nonneg.
Qed.

Lemma merge_row r volume_id text encoded r' : merge_raw_upload_checkpoint (Some r) volume_id text = Ok (encoded, r') →
  ∃ previous incoming merged,
    row_checkpoint r = Ok previous ∧ from_json text = Ok incoming ∧
    merge_raw_upload_checkpoints (default incoming previous) incoming = Ok merged ∧
    (progress_valid merged → row_describes r' merged) ∧ ur_checkpoint_json r' = Some encoded ∧
    ur_payload_bytes r' = (λ n, n + (payload_bytes merged - from_option payload_bytes 0 previous)) <$> ur_payload_bytes r.
Proof.
  unfold merge_raw_upload_checkpoint. intros Hm. apply bind_Ok in Hm as (incoming & Hi & Hm). cbv zeta in Hm. inv_step Hm. bool_prop.
  apply bind_Ok in Hm as (previous & Hp & Hm). apply bind_Ok in Hm as (merged & Hmerge & Hm). cbv zeta in Hm.
  apply bind_Ok in Hm as (text' & Ht & Hm). injection Hm as <- <-. exists previous, incoming, merged.
  split_and!; try done. intros Hv. split; try done. by exists text'.
Qed.
End rows.

(** ** Claims *)

Section claims.
Context `{PyEnv}.

(** C40. The loop of [_first_missing_part] stops, whatever numbers the parts have:
    all parts up to its result are there and the next one is not, so a resumed
    upload goes on with exactly the first part that was not acknowledged. *)
Theorem first_missing_exact parts n :
  _first_missing_part parts = n ↔
  0 ≤ n ∧ (∀ i, 1 ≤ i ≤ n → i ∈ sap_number <$> parts) ∧ n + 1 ∉ sap_number <$> parts.
Proof.
  split; [apply first_missing_spec|]. intros (Hn & Hall & Hnot). by apply first_missing_unique.
Qed.

(** C10. The order in which concurrent acknowledgements are merged does not
    matter: if one order is accepted then every order is, with the same result;
    the result is valid, knows everything that was acknowledged, and merging an
    acknowledgement again changes nothing. *)
Theorem acknowledgements_converge c cs r :
  progress_valid c → Forall progress_valid cs →
  foldM merge_raw_upload_checkpoints c cs = Ok r →
  progress_valid r ∧ Forall (λ d, below d r) (c :: cs) ∧
  (∀ cs', cs ≡ₚ cs' → foldM merge_raw_upload_checkpoints c cs' = Ok r) ∧
  Forall (λ d, merge_raw_upload_checkpoints r d = Ok r) (c :: cs).
Proof.
  intros Hc Hcs Hf. pose proof (merges_fold_valid c cs r Hc Hcs Hf) as Hr.
  pose proof (merge_fold_below c cs r Hc Hcs Hf) as Hb. split_and!; [done|done| |].
  - intros cs' Hp. by eapply merge_fold_perm.
  - rewrite Forall_forall in *. intros d Hd. apply merge_known; [|done|by apply Hb].
    apply elem_of_cons in Hd as [->|Hd]; [done|by apply Hcs].
Qed.

(** C39. Whatever text is given to [from_json], a checkpoint that it returns has
    ordered and disjoint parts, ordered segments, the first missing part as its
    next one, an age state of the size of its range, and a completion only if the
    parts cover the range and both byte counts agree with it. *)
Theorem accepted_checkpoint_valid text c : from_json text = Ok c →
  progress_valid c ∧ parts_in_order 0 0 (rk_archive_parts c) ∧ 1 ≤ rk_collection_id c ∧
  rk_file_offset c + rk_plaintext_bytes c ≤ rk_file_bytes c ∧
  (∃ state, from_json_text (rk_age_state_json c) = Ok state ∧ us_plaintext_size state = Some (rk_plaintext_bytes c)) ∧
  match rk_completed c with Some k => cr_bytes k = sumZ wr_bytes (rk_write_segments c) | None => True end.
Proof. intros Hf. apply from_json_inv in Hf as [payload Hf]. by apply parsed_checkpoint in Hf. Qed.

(** A valid checkpoint survives its JSON form: it is printed, and the text is
    read back as the same checkpoint. *)
Theorem raw_checkpoint_roundtrip c : checkpoint_valid c → ∃ text, to_json c = Ok text ∧ from_json text = Ok c.
Proof. apply checkpoint_text. Qed.

(** C23. A merge into the row keeps the row and the counter of its upload in step
    with the checkpoint: the row describes the merged checkpoint, which knows all
    that the row and the message knew and has no part of another origin; the
    payload counter grows by exactly the plaintext of the new parts. *)
Theorem merge_keeps_row r volume_id text encoded r' : merge_raw_upload_checkpoint (Some r) volume_id text = Ok (encoded, r') →
  ∃ previous incoming merged,
    row_checkpoint r = Ok previous ∧ from_json text = Ok incoming ∧
    row_describes r' merged ∧ ur_checkpoint_json r' = Some encoded ∧
    below incoming merged ∧ from_option (λ c, below c merged) (merged = incoming) previous ∧
    (∀ p, p ∈ rk_archive_parts merged → p ∈ rk_archive_parts incoming ∨ p ∈ from_option rk_archive_parts [] previous) ∧
    from_option payload_bytes 0 previous ≤ payload_bytes merged ∧
    ur_payload_bytes r' = (λ n, n + (payload_bytes merged - from_option payload_bytes 0 previous)) <$> ur_payload_bytes r.
Proof.
  intros Hm. apply merge_row in Hm as (previous & incoming & merged & Hp & Hi & Hm & Hd & Ht & Hu).
  destruct (merge_previous _ _ _ _ _ Hp Hi Hm) as (Hv & Hbi & Hbp & Hle & Hor).
  exists previous, incoming, merged. split_and!; try done. by apply Hd.
Qed.
End claims.

(** ** Witnesses *)

Definition sample_segment : WriteSegmentReceipt :=
  {| wr_number := 1; wr_segment_token := str "s1"; wr_bytes := sap_stored_bytes sample_part; wr_sha256 := None |}.

Definition sample_checkpoint (parts : list StoredArchivePart) (segments : list WriteSegmentReceipt)
    (completed : option CompletedRawObject) : RawUploadCheckpoint :=
  {| rk_collection_id := 1; rk_volume_id := srv_volume_id sample_volume; rk_object_path := str "o"; rk_relative_path := str "a";
     rk_source_path := str "a"; rk_file_offset := 0; rk_plaintext_bytes := 5; rk_file_bytes := 5;
     rk_file_sha256 := af_sha256 sample_file; rk_target_part_plaintext_bytes := 65536;
     rk_expected_part_sha256s := [af_sha256 sample_file]; rk_write_token := str "w";
     rk_age_state_json := srv_age_state_json sample_volume; rk_next_part := len parts; rk_archive_parts := parts;
     rk_write_segments := segments; rk_completed := completed |}.

Definition sample_open : RawUploadCheckpoint := sample_checkpoint [] [] None.
Definition sample_uploaded : RawUploadCheckpoint := sample_checkpoint [sample_part] [sample_segment] None.
Definition sample_completion : CompletedRawObject :=
  {| cr_revision := None; cr_entity_token := Some (str "e"); cr_bytes := sap_stored_bytes sample_part;
     cr_completed_at := str "t"; cr_retrieval_cache := None |}.
Definition sample_sealed : RawUploadCheckpoint := sample_checkpoint [sample_part] [sample_segment] (Some sample_completion).

Definition sample_state : UploadState :=
  Eval vm_compute in {| us_header := take 149 sample_ciphertext; us_payload_nonce := example_nonce; us_plaintext_size := Some 5;
                        us_format := upload_state_format |}.

Lemma sample_progress : progress_valid sample_open ∧ progress_valid sample_uploaded ∧ progress_valid sample_sealed.
Proof. split_and!; split; try (repeat constructor; fail); try by vm_compute. all: by repeat constructor. Qed.

Lemma acknowledgements_converge_witness :
  foldM merge_raw_upload_checkpoints sample_open [sample_sealed; sample_uploaded] = Ok sample_sealed ∧
  merge_raw_upload_checkpoints sample_sealed sample_uploaded = Ok sample_sealed.
Proof.
  destruct sample_progress as (Ho & Hu & Hs).
  destruct (acknowledgements_converge sample_open [sample_uploaded; sample_sealed] sample_sealed) as (_ & _ & Hp & Hk).
  - exact Ho.
  - repeat constructor; done.
  - vm_compute. reflexivity.
  - split; [apply Hp; apply Permutation_swap|]. rewrite Forall_forall in Hk. apply Hk. set_solver.
Defined.

Definition sample_text : pystr :=
  Eval vm_compute in match @to_json ascii_env sample_sealed with Ok t => t | Err _ => [] end.

Lemma accepted_checkpoint_valid_witness : progress_valid sample_sealed.
Proof. apply (@accepted_checkpoint_valid ascii_env sample_text). vm_compute. reflexivity. Defined.

Lemma raw_checkpoint_roundtrip_witness :
  ∃ text, @to_json ascii_env sample_sealed = Ok text ∧ @from_json ascii_env text = Ok sample_sealed.
Proof.
  apply (@raw_checkpoint_roundtrip ascii_env). split.
  - apply sample_progress.
  - cbn. lia.
  - vm_compute. reflexivity.
  - split; [discriminate|apply str_text].
  - split; [vm_compute; reflexivity|apply str_text].
  - split; [vm_compute; reflexivity|apply str_text].
  - cbn. lia.
  - vm_compute. reflexivity.
  - cbn. unfold CHUNK_SIZE. split; [lia|reflexivity].
  - repeat constructor.
  - split; [discriminate|apply str_text].
  - exists sample_state. split_and!; [|reflexivity|vm_compute; reflexivity].
    apply (upload_text_valid (srv_age_state_json sample_volume)). vm_compute. reflexivity.
  - cbn. split_and!; try lia; vm_compute; reflexivity.
  - repeat constructor; cbn; try lia; discriminate.
  - cbn. split_and!; [|vm_compute; reflexivity]. split_and!; cbn; try done; try lia. all: apply str_text.
Defined.

Definition sample_row : UploadRow :=
  {| ur_kind := str "segment"; ur_checkpoint_json := None; ur_uploaded_bytes := 0; ur_uploaded_units := 0;
     ur_state := str "planned"; ur_payload_bytes := Some 7 |}.

Lemma merge_keeps_row_witness :
  ∃ encoded r' merged, @merge_raw_upload_checkpoint ascii_env (Some sample_row) (rk_volume_id sample_open) sample_text = Ok (encoded, r') ∧
    @row_describes ascii_env r' merged ∧ ur_payload_bytes r' = Some 12.
Proof.
  eexists _, _. destruct (@merge_keeps_row ascii_env sample_row (rk_volume_id sample_open) sample_text sample_text
    {| ur_kind := str "segment"; ur_checkpoint_json := Some sample_text; ur_uploaded_bytes := sap_stored_bytes sample_part;
       ur_uploaded_units := 1; ur_state := str "sealed"; ur_payload_bytes := Some 12 |})
    as (previous & incoming & merged & _ & _ & Hd & _).
  - vm_compute. reflexivity.
  - exists merged. split; [|split; [exact Hd|reflexivity]]. vm_compute. reflexivity.
Defined.
