(* ===== verification/RawUpload.v ===== *)
(** * Uploading a raw volume

    [RawVolumeUploader] of [riverhog_core/raw_upload.py]: opening or resuming a
    write, uploading units in any order and from any number of callers, sealing,
    aborting.  The object store is the port of [ports/archive_objects.py], a class
    of operations on an abstract state; what an adapter promises is a second
    class of laws.  The world is the object store and the row of the volume.

    A call runs to its end before the next one starts, but it works on the
    checkpoint that its caller holds, which may be stale.  Gates and the byte
    budget delay a call or refuse an amount over the capacity; they keep no
    other state.  Timings are left out.  The session cache returns what
    [session_from_state] derives from the text ([SessionCache]). *)

From stdpp Require Import gmap.
From S2P Require Import Prelude Text Json WriteSegments Sha256 Paths Domain PackIngress RawVolume Crypto Base64.
From S2P Require Import Age AgeUnits AgeRange StreamingAge ArchiveContracts RawVerification RawCheckpoint.

(** ** The object store *)

Definition metadata : Type := list (pystr * pystr).

Class ObjectStore := {
  ost : Type;
  write_constraints : ResumableWriteConstraints;
  begin_write : ∀ (object_path : pystr) (expected_bytes : Z) (content_type : pystr) (m : metadata),
    ost → result WriteSession * ost;
  write_segment : ∀ (session : WriteSession) (number : Z) (content : pybytes), ost → result WriteSegmentReceipt * ost;
  list_segments : ∀ (session : WriteSession), ost → result (list WriteSegmentReceipt) * ost;
  complete_write : ∀ (session : WriteSession) (segments : list WriteSegmentReceipt) (expected_bytes : Z)
    (expected_content_type : pystr) (expected_metadata : metadata), ost → result CompletedObjectReceipt * ost;
  find_completed_write : ∀ (object_path : pystr) (expected_bytes : Z) (expected_content_type : pystr)
    (expected_metadata : metadata), ost → result (option CompletedObjectReceipt) * ost;
  abort_write : ∀ (session : WriteSession), ost → result unit * ost;
}.

(** ** Effects *)

Section effects.
Context `{ObjectStore}.

Record world := { w_store : ost; w_row : option UploadRow }.

(** A call: it returns or raises, and in both cases leaves a world. *)
Definition effect (A : Type) : Type := world → result A * world.

#[global] Instance effect_ret : MRet effect := λ A a w, (Ok a, w).
#[global] Instance effect_bind : MBind effect := λ A B f m w,
  match m w with
  | (Ok a, w) => f a w
  | (Err e, w) => (Err e, w)
  end.

Definition lift {A} (r : result A) : effect A := λ w, (r, w).

(** A call of the object store. *)
Definition ask {A} (call : ost → result A * ost) : effect A := λ w,
  let '(r, s) := call (w_store w) in (r, {| w_store := s; w_row := w_row w |}).

(** [load_raw_upload_checkpoint], [merge_raw_upload_checkpoint] and
    [delete_raw_upload_checkpoint] on the row of the volume. *)
Definition load_checkpoint : effect (option pystr) := λ w, (Ok (load_raw_upload_checkpoint (w_row w)), w).

Definition merge_checkpoint `{PyEnv} (volume_id checkpoint_json : pystr) : effect pystr := λ w,
  match merge_raw_upload_checkpoint (w_row w) volume_id checkpoint_json with
  | Ok (encoded, row) => (Ok encoded, {| w_store := w_store w; w_row := Some row |})
  | Err e => (Err e, w)
  end.

Definition delete_checkpoint : effect unit := λ w,
  (Ok tt, {| w_store := w_store w; w_row := delete_raw_upload_checkpoint (w_row w) |}).
End effects.

Definition RAW_VOLUME_CONTENT_TYPE : pystr := str "application/vnd.riverhog.raw-segment+age".
Definition RAW_VOLUME_STORAGE_FORMAT : pystr := str "riverhog-raw-volume/v1".

(** [s.endswith(suffix)] *)
Definition endswith (suffix s : pystr) : bool :=
  (len suffix <=? len s) && bool_decide (drop (length s - length suffix) s = suffix).

(** ** The uploader *)

Section uploader.
Context `{PyEnv} `{Aead} `{ObjectStore}.

(** The configuration of the uploader: [__init__] requires a passphrase and
    [source_read_chunk_bytes] of at least 64 KiB. *)
Context (passphrase : pystr) (scrypt_log_n source_read_chunk_bytes max_inflight_bytes : Z).

(** [self._session_cache.get(text)] *)
Definition cached_session (age_state_json : pystr) : result ResumableAgeScryptSession :=
  session_from_state (PassText passphrase) (StateText age_state_json) None.

(** [WeightedByteSemaphore.acquire], but for the waiting. *)
Definition acquire_bytes (amount : Z) : result unit :=
  when amount <=? 0 raise ValueError "byte semaphore amount must be positive";
  when max_inflight_bytes <? amount
    raises Exn ValueError (str "single transfer buffer (" ++ str_of_Z amount ++
             str " bytes) exceeds the configured in-flight budget (" ++ str_of_Z max_inflight_bytes ++ str " bytes)");
  Ok tt.

Definition _metadata (plan : RawVolumePlan) (age_state_json : option pystr) : result metadata :=
  path ← utf8_encode (rv_source_path plan);
  let base := [(str "riverhog-format", RAW_VOLUME_STORAGE_FORMAT);
               (str "riverhog-source-path-sha256", sha256_hex path);
               (str "riverhog-file-offset", str_of_Z (rv_file_offset plan));
               (str "riverhog-plaintext-bytes", str_of_Z (rv_plaintext_bytes plan));
               (str "riverhog-file-sha256", rv_file_sha256 plan)] in
  match age_state_json with
  | None => Ok base
  | Some text =>
      state ← from_json_text text;
      content ← to_json_bytes state;
      Ok (base ++ [(str "riverhog-age-state-sha256", sha256_hex content)])
  end.

(** [int(volume_id.removeprefix("segment-"), 16)]; every checkpoint has an id
    that [_SEGMENT_ID_RE] matches. *)
Definition segment_sequence (volume_id : pystr) : result Z :=
  when negb (segment_id_fullmatch volume_id) raise ValueError "invalid literal for int() with base 16";
  Ok (of_digits 16 (hex_digit <$> drop 8 volume_id)).

Definition _checkpoint_plan (c : RawUploadCheckpoint) : result RawVolumePlan :=
  sequence ← segment_sequence (rk_volume_id c);
  Ok {| rv_volume_id := rk_volume_id c; rv_sequence := sequence; rv_source_path := rk_source_path c;
        rv_file_offset := rk_file_offset c; rv_plaintext_bytes := rk_plaintext_bytes c; rv_file_bytes := rk_file_bytes c;
        rv_file_sha256 := rk_file_sha256 c |}.

Definition _stored_archive_part (part : AgeAlignedUnitPlan) (prepared : PreparedAgePart) : StoredArchivePart :=
  {| sap_number := au_unit_number part; sap_plaintext_start := au_plaintext_start part;
     sap_plaintext_bytes := pp_plaintext_bytes prepared; sap_plaintext_sha256 := pp_plaintext_sha256 prepared;
     sap_stored_bytes := stored_bytes prepared; sap_stored_sha256 := pp_stored_sha256 prepared |}.

(** [expected_part_sha256s[number - 1]]: the callers give numbers from one to the
    number of planned parts, and there are as many digests. *)
Definition _expected_part_digest (c : RawUploadCheckpoint) (number : Z) : result (option pystr) :=
  match rk_expected_part_sha256s c with
  | [] => Ok None
  | digests =>
      match digests !! Z.to_nat (number - 1) with
      | Some digest => Ok (Some digest)
      | None => Err (Exn IndexError (str "tuple index out of range"))
      end
  end.

Definition _stored_bytes_for_state (value : pystr) : result Z :=
  state ← from_json_text value;
  match us_plaintext_size state with
  | None => Err (Exn ValueError (str "raw upload plaintext size is missing"))
  | Some n => age_ciphertext_len_for_plaintext_len n (len (us_header state) + len (us_payload_nonce state))
  end.

(** [WriteSession(object_path, write_token, _stored_bytes_for_state(age_state_json))] *)
Definition write_session (c : RawUploadCheckpoint) : result WriteSession :=
  expected ← _stored_bytes_for_state (rk_age_state_json c);
  Ok {| wn_object_path := rk_object_path c; wn_write_token := rk_write_token c; wn_expected_bytes := expected |}.

Definition _planned_parts (plan : RawVolumePlan) (c : RawUploadCheckpoint) : result (list AgeAlignedUnitPlan) :=
  session ← cached_session (rk_age_state_json c);
  raw_age_aligned_unit_plans plan session (rk_target_part_plaintext_bytes c).

Definition _write_segment_plans (c : RawUploadCheckpoint) : result (list WriteSegmentPlan) :=
  plan ← _checkpoint_plan c;
  archive_parts ← _planned_parts plan c;
  plan_write_segments (ciphertext_len <$> archive_parts) write_constraints.

(** One turn of the loop of [_validate]. *)
Definition validate_part (c : RawUploadCheckpoint) (planned_parts : list AgeAlignedUnitPlan) (_ : unit)
    (part : StoredArchivePart) : result unit :=
  when match list_find (λ u, au_unit_number u = sap_number part) planned_parts with
       | None => true
       | Some (_, planned) =>
           negb (sap_plaintext_start part =? au_plaintext_start planned)
           || negb (sap_plaintext_bytes part =? plaintext_len planned)
       end
    raise ValueError "raw upload checkpoint part does not match the plan";
  expected_digest ← _expected_part_digest c (sap_number part);
  when match expected_digest with
       | Some digest => negb (bool_decide (sap_plaintext_sha256 part = digest))
       | None => false
       end
    raise ValueError "raw upload checkpoint part digest does not match its manifest";
  Ok tt.

Definition _validate (plan : RawVolumePlan) (c : RawUploadCheckpoint) : result unit :=
  when negb (bool_decide (rk_volume_id c = rv_volume_id plan)) || negb (bool_decide (rk_source_path c = rv_source_path plan))
       || negb (rk_file_offset c =? rv_file_offset plan) || negb (rk_plaintext_bytes c =? rv_plaintext_bytes plan)
       || negb (rk_file_bytes c =? rv_file_bytes plan) || negb (bool_decide (rk_file_sha256 c = rv_file_sha256 plan))
    raise ValueError "raw upload checkpoint does not match its plan";
  state ← from_json_text (rk_age_state_json c);
  when negb (bool_decide (us_plaintext_size state = Some (rv_plaintext_bytes plan)))
    raise ValueError "raw upload checkpoint age state does not match its plan";
  planned_parts ← _planned_parts plan c;
  when negb (bool_decide (rk_expected_part_sha256s c = []))
       && negb (len (rk_expected_part_sha256s c) =? len planned_parts)
    raise ValueError "raw upload expected part digest count is invalid";
  _ ← foldM (validate_part c planned_parts) tt (rk_archive_parts c);
  segment_plans ← _write_segment_plans c;
  let expected_segments :=
    filter (λ p, ws_archive_part_number p ∈ sap_number <$> rk_archive_parts c) segment_plans in
  when negb (bool_decide ((λ s, (wr_number s, wr_bytes s)) <$> rk_write_segments c =
                          (λ p, (ws_number p, ws_stored_bytes p)) <$> expected_segments))
    raise ValueError "raw upload checkpoint write segments do not match its archive parts";
  when negb (rk_next_part c =? _first_missing_part (rk_archive_parts c))
    raise ValueError "raw upload checkpoint next part is invalid";
  when match rk_completed c with Some _ => negb (len (rk_archive_parts c) =? len planned_parts) | None => false end
    raise ValueError "completed raw upload checkpoint has pending parts";
  Ok tt.

(** One turn of the loop of [_reconcile_recorded_parts]; a later receipt of a
    number replaces an earlier one. *)
Definition reconcile_step (remote : gmap Z WriteSegmentReceipt) (_ : unit) (current : WriteSegmentReceipt) : result unit :=
  when match remote !! wr_number current with
       | None => true
       | Some found => negb (bool_decide (wr_segment_token found = wr_segment_token current))
                       || negb (wr_bytes found =? wr_bytes current)
       end
    raise RuntimeError "resumable store no longer contains a recorded write segment";
  Ok tt.

Definition _reconcile_recorded_parts (c : RawUploadCheckpoint) : effect unit :=
  session ← lift (write_session c);
  listed ← ask (list_segments session);
  lift (foldM (reconcile_step (by_number wr_number listed)) tt (rk_write_segments c)).

Definition _save (c : RawUploadCheckpoint) : effect RawUploadCheckpoint :=
  checkpoint_json ← lift (to_json c);
  persisted ← merge_checkpoint (rk_volume_id c) checkpoint_json;
  lift (from_json persisted).

Definition _mark_completed (c : RawUploadCheckpoint) (completed : CompletedObjectReceipt) : effect RawUploadCheckpoint :=
  _ ← lift (when negb (co_bytes completed =? sumZ sap_stored_bytes (rk_archive_parts c))
              raise RuntimeError "completed raw object byte count mismatch";
            when negb (bool_decide (co_object_path completed = rk_object_path c))
              raise RuntimeError "completed raw object path mismatch"; Ok tt);
  _save (with_progress c (rk_next_part c) (sorted_byZ sap_number (rk_archive_parts c))
           (sorted_byZ wr_number (rk_write_segments c))
           (Some {| cr_revision := co_revision completed; cr_entity_token := co_entity_token completed;
                    cr_bytes := co_bytes completed; cr_completed_at := co_completed_at completed;
                    cr_retrieval_cache := co_retrieval_cache completed |})).

Definition _complete (c : RawUploadCheckpoint) : effect RawUploadCheckpoint :=
  match rk_completed c with
  | Some _ => mret c
  | None =>
      plan ← lift (_checkpoint_plan c);
      expected_parts ← lift (_planned_parts plan c);
      let parts := sorted_byZ sap_number (rk_archive_parts c) in
      _ ← lift (when negb (bool_decide (sap_number <$> parts = au_unit_number <$> expected_parts))
                  raise RuntimeError "cannot complete a raw volume with pending parts"; Ok tt);
      session ← lift (write_session c);
      m ← lift (_metadata plan (Some (rk_age_state_json c)));
      completed ← ask (complete_write session (sorted_byZ wr_number (rk_write_segments c)) (sumZ sap_stored_bytes parts)
                         RAW_VOLUME_CONTENT_TYPE m);
      _mark_completed c completed
  end.

Definition _record_part (c : RawUploadCheckpoint) (part : StoredArchivePart) (write_segments : list WriteSegmentReceipt) :
    effect RawUploadCheckpoint :=
  let existing := _part_by_number (rk_archive_parts c) (sap_number part) in
  _ ← lift (when match existing with Some e => negb (bool_decide (e = part)) | None => false end
              raise RuntimeError "raw upload part receipt changed for an immutable part number"; Ok tt);
  let parts := match existing with Some _ => rk_archive_parts c | None => rk_archive_parts c ++ [part] end in
  segments ← lift (_merge_write_segments (rk_write_segments c) write_segments);
  _save (with_progress c (_first_missing_part parts) (sorted_byZ sap_number parts) segments (rk_completed c)).

(** The loop over the segments of a part. *)
Fixpoint write_segments (session : WriteSession) (ciphertext : pybytes) (plans : list WriteSegmentPlan) :
    effect (list WriteSegmentReceipt) :=
  match plans with
  | [] => mret []
  | p :: plans =>
      let content := slice (ws_archive_part_offset p) (ws_archive_part_offset p + ws_stored_bytes p) ciphertext in
      remote ← ask (write_segment session (ws_number p) content);
      _ ← lift (when negb (wr_number remote =? ws_number p) || negb (wr_bytes remote =? len content)
                  raise RuntimeError "resumable store returned an inconsistent write-segment receipt"; Ok tt);
      rest ← write_segments session ciphertext plans;
      mret ({| wr_number := wr_number remote; wr_segment_token := wr_segment_token remote; wr_bytes := wr_bytes remote;
               wr_sha256 := Some (sha256_hex content) |} :: rest)
  end.

Definition _prepare_and_write_archive_part (plan : RawVolumePlan) (c : RawUploadCheckpoint) (part : AgeAlignedUnitPlan)
    (plaintext_chunks : list pybytes) : effect (StoredArchivePart * list WriteSegmentReceipt) :=
  session ← lift (cached_session (rk_age_state_json c));
  let working_bytes := ciphertext_len part + Z.min source_read_chunk_bytes (Z.max 1 (plaintext_len part)) + CHUNK_SIZE in
  _ ← lift (acquire_bytes working_bytes);
  chunks ← lift (iter_rechunk plaintext_chunks source_read_chunk_bytes);
  prepared ← lift (prepare_age_part session part (rv_plaintext_bytes plan) chunks);
  expected_digest ← lift (_expected_part_digest c (au_unit_number part));
  _ ← lift (when match expected_digest with
                 | Some digest => negb (bool_decide (pp_plaintext_sha256 prepared = digest))
                 | None => false
                 end
              raise ValueError "raw upload part does not match its registered digest manifest"; Ok tt);
  segment_plans ← lift (_write_segment_plans c);
  write ← lift (write_session c);
  receipts ← write_segments write (pp_ciphertext prepared)
               (filter (λ p, ws_archive_part_number p = au_unit_number part) segment_plans);
  mret (_stored_archive_part part prepared, receipts).

Definition upload_unit (plan : RawVolumePlan) (c : RawUploadCheckpoint) (unit_number : Z) (plaintext : list pybytes) :
    effect RawUploadCheckpoint :=
  _ ← lift (_validate plan c);
  match rk_completed c with
  | Some _ => mret c
  | None =>
      planned ← lift (_planned_parts plan c);
      match (if unit_number <? 1 then None else planned !! Z.to_nat (unit_number - 1)) with
      | None => lift (Err (Exn ValueError (str "raw upload part number is outside the plan")))
      | Some part =>
          match _part_by_number (rk_archive_parts c) unit_number with
          | Some _ => mret c
          | None =>
              '(receipt, receipts) ← _prepare_and_write_archive_part plan c part plaintext;
              c ← _record_part c receipt receipts;
              if len (rk_archive_parts c) =? len planned then _complete c else mret c
          end
      end
  end.

Definition upload_next_unit (plan : RawVolumePlan) (c : RawUploadCheckpoint) (plaintext : list pybytes) :
    effect RawUploadCheckpoint :=
  match rk_completed c with
  | Some _ => mret c
  | None =>
      plans ← lift (_planned_parts plan c);
      if len plans <=? rk_next_part c then _complete c else upload_unit plan c (rk_next_part c + 1) plaintext
  end.

Definition sealed_receipt (c : RawUploadCheckpoint) : result SealedRawVolume :=
  plan ← _checkpoint_plan c;
  _ ← _validate plan c;
  match rk_completed c with
  | None => Err (Exn RuntimeError (str "raw volume is not sealed"))
  | Some completed =>
      Ok {| srv_volume_id := rk_volume_id c; srv_sequence := rv_sequence plan; srv_relative_path := rk_relative_path c;
            srv_source_path := rk_source_path c; srv_file_offset := rk_file_offset c;
            srv_plaintext_bytes := rk_plaintext_bytes c; srv_file_bytes := rk_file_bytes c;
            srv_file_sha256 := rk_file_sha256 c; srv_age_state_json := rk_age_state_json c;
            srv_parts := sorted_byZ sap_number (rk_archive_parts c); srv_revision := cr_revision completed;
            srv_completed_at := cr_completed_at completed; srv_retrieval_cache := cr_retrieval_cache completed |}
  end.

Definition abort (c : RawUploadCheckpoint) : effect unit :=
  match rk_completed c with
  | Some _ => lift (Err (Exn ValueError (str "cannot abort a completed raw object")))
  | None =>
      session ← lift (write_session c);
      _ ← ask (abort_write session);
      delete_checkpoint
  end.
(** The checks that [open] makes of its arguments. *)
Definition check_request (collection_id : Z) (plan : RawVolumePlan) (object_path relative_path : pystr)
    (target_part_plaintext_bytes : Z) (expected_part_sha256s : list pystr) : result (pystr * list pystr) :=
  when (collection_id <? 1) || bool_decide (object_path = [])
    raise ValueError "raw upload collection and object identities are required";
  normalized_relative_path ← normalize_relpath relative_path;
  when negb (bool_decide (normalized_relative_path = str "volumes/" ++ rv_volume_id plan ++ str ".bin.age"))
    raise ValueError "raw volume relative path is not canonical";
  when negb (endswith (str "/" ++ normalized_relative_path) object_path)
    raise ValueError "raw volume object path does not contain its relative path";
  when (target_part_plaintext_bytes <? CHUNK_SIZE) || negb (target_part_plaintext_bytes mod CHUNK_SIZE =? 0)
    raise ValueError "raw upload part target must be a positive age-chunk multiple";
  expected_digests ← mapM_result (λ d, _sha (JStr d) "expected part plaintext") expected_part_sha256s;
  Ok (normalized_relative_path, expected_digests).

(** [open] when there is a checkpoint. *)
Definition resume (collection_id : Z) (plan : RawVolumePlan) (object_path relative_path : pystr)
    (target_part_plaintext_bytes : Z) (expected_digests : list pystr) (existing : pystr) : effect RawUploadCheckpoint :=
  c ← lift (from_json existing);
  _ ← lift (_validate plan c);
  _ ← lift (when negb (rk_collection_id c =? collection_id) || negb (bool_decide (rk_object_path c = object_path))
                 || negb (bool_decide (rk_relative_path c = relative_path))
                 || negb (rk_target_part_plaintext_bytes c =? target_part_plaintext_bytes)
                 || negb (bool_decide (rk_expected_part_sha256s c = expected_digests))
              raise ValueError "raw upload checkpoint does not match the requested upload"; Ok tt);
  match rk_completed c with
  | Some _ => mret c
  | None =>
      expected ← lift (_stored_bytes_for_state (rk_age_state_json c));
      m ← lift (_metadata plan (Some (rk_age_state_json c)));
      completed ← ask (find_completed_write object_path expected RAW_VOLUME_CONTENT_TYPE m);
      match completed with
      | Some completed => _mark_completed c completed
      | None => _ ← _reconcile_recorded_parts c; mret c
      end
  end.

(** [open] when there is none; [create] draws the last three arguments. *)
Definition start (collection_id : Z) (plan : RawVolumePlan) (object_path relative_path : pystr)
    (target_part_plaintext_bytes : Z) (expected_digests : list pystr) (file_key scrypt_salt payload_nonce : pybytes) :
    effect RawUploadCheckpoint :=
  session ← lift (create (PassText passphrase) scrypt_log_n file_key scrypt_salt payload_nonce None);
  planned_parts ← lift (raw_age_aligned_unit_plans plan session target_part_plaintext_bytes);
  _ ← lift (when negb (bool_decide (expected_digests = [])) && negb (len expected_digests =? len planned_parts)
              raise ValueError "raw upload expected part digest count does not match the plan"; Ok tt);
  state ← lift (export_state session (Some (rv_plaintext_bytes plan)));
  content ← lift (to_json_bytes state);
  age_state_json ← lift (utf8_decode content);
  expected_stored_bytes ← lift (age_ciphertext_len_for_plaintext_len (rv_plaintext_bytes plan) (len (age_prefix session)));
  m ← lift (_metadata plan None);
  completed ← ask (find_completed_write object_path expected_stored_bytes RAW_VOLUME_CONTENT_TYPE m);
  _ ← lift (when bool_decide (is_Some completed)
              raise RuntimeError "completed raw object exists without its durable checkpoint"; Ok tt);
  m ← lift (_metadata plan (Some age_state_json));
  write ← ask (begin_write object_path expected_stored_bytes RAW_VOLUME_CONTENT_TYPE m);
  _save {| rk_collection_id := collection_id; rk_volume_id := rv_volume_id plan; rk_object_path := object_path;
           rk_relative_path := relative_path; rk_source_path := rv_source_path plan; rk_file_offset := rv_file_offset plan;
           rk_plaintext_bytes := rv_plaintext_bytes plan; rk_file_bytes := rv_file_bytes plan;
           rk_file_sha256 := rv_file_sha256 plan; rk_target_part_plaintext_bytes := target_part_plaintext_bytes;
           rk_expected_part_sha256s := expected_digests; rk_write_token := wn_write_token write;
           rk_age_state_json := age_state_json; rk_next_part := 0; rk_archive_parts := []; rk_write_segments := [];
           rk_completed := None |}.

Definition open (collection_id : Z) (plan : RawVolumePlan) (object_path relative_path : pystr)
    (target_part_plaintext_bytes : Z) (expected_part_sha256s : list pystr) (file_key scrypt_salt payload_nonce : pybytes) :
    effect RawUploadCheckpoint :=
  '(relative_path, expected_digests) ← lift (check_request collection_id plan object_path relative_path
                                               target_part_plaintext_bytes expected_part_sha256s);
  existing ← load_checkpoint;
  match existing with
  | Some text => resume collection_id plan object_path relative_path target_part_plaintext_bytes expected_digests text
  | None => start collection_id plan object_path relative_path target_part_plaintext_bytes expected_digests
              file_key scrypt_salt payload_nonce
  end.
End uploader.

(** ** What an adapter promises *)

Record write_view := {
  wv_path : pystr;
  wv_content_type : pystr;
  wv_metadata : metadata;
  wv_segments : gmap Z pybytes;
}.

Record object_view := {
  ov_content : pybytes;
  ov_content_type : pystr;
  ov_metadata : metadata;
}.

Definition with_segments (v : write_view) (segments : gmap Z pybytes) : write_view :=
  {| wv_path := wv_path v; wv_content_type := wv_content_type v; wv_metadata := wv_metadata v; wv_segments := segments |}.

(** Tokens, and the texts of a completion receipt, as the adapter protocol
    declares them. *)
Definition token_ok (t : pystr) : Prop := t ≠ [] ∧ text_ok t.
Definition completion_ok (r : CompletedObjectReceipt) : Prop :=
  text_opt_ok (co_revision r) ∧ text_opt_ok (co_entity_token r) ∧ token_ok (co_completed_at r) ∧
  from_option cache_receipt_valid True (co_retrieval_cache r).

(** The writes and the finished objects of a store.  A token is never reused: a
    finished or aborted write stays in the view. *)
Class StoreView `{ObjectStore} := {
  writes : ost → gmap pystr write_view;
  objects : ost → gmap pystr object_view;
}.

Section views.
Context `{StoreView}.

Definition unchanged (s s' : ost) : Prop := writes s' = writes s ∧ objects s' = objects s.

Definition begun (path content_type : pystr) (m : metadata) (token : pystr) (s s' : ost) : Prop :=
  writes s !! token = None ∧ objects s' = objects s ∧
  writes s' = <[token := {| wv_path := path; wv_content_type := content_type; wv_metadata := m; wv_segments := ∅ |}]>
                (writes s).

Definition written (session : WriteSession) (number : Z) (content : pybytes) (s s' : ost) : Prop :=
  ∃ v, writes s !! wn_write_token session = Some v ∧ objects s' = objects s ∧
    writes s' = <[wn_write_token session := with_segments v (<[number := content]> (wv_segments v))]> (writes s).

(** The object is the listed segments in their order. *)
Definition published (session : WriteSession) (segments : list WriteSegmentReceipt) (s s' : ost) : Prop :=
  ∃ v contents, writes s !! wn_write_token session = Some v ∧ wv_path v = wn_object_path session ∧
    Forall2 (λ r content, wv_segments v !! wr_number r = Some content) segments contents ∧
    objects s !! wn_object_path session = None ∧ writes s' = writes s ∧
    objects s' = <[wn_object_path session := {| ov_content := concat contents; ov_content_type := wv_content_type v;
                                                ov_metadata := wv_metadata v |}]> (objects s).

Definition discarded (session : WriteSession) (s s' : ost) : Prop :=
  ∃ v, writes s !! wn_write_token session = Some v ∧ objects s' = objects s ∧
    writes s' = <[wn_write_token session := with_segments v ∅]> (writes s).

(** The receipt is of an object with this identity. *)
Definition matches (path content_type : pystr) (m : metadata) (receipt : CompletedObjectReceipt) (s : ost) : Prop :=
  ∃ o, objects s !! path = Some o ∧ ov_content_type o = content_type ∧ ov_metadata o ≡ₚ m ∧
    co_bytes receipt = len (ov_content o).
End views.

(** The promises.  An operation that raises may have had its effect; a write of
    the same identity may be given again by [begin_write]. *)
Class StoreContract `{StoreView} := {
  begin_law path n content_type m s r s' : begin_write path n content_type m s = (r, s') →
    match r with
    | Ok w => token_ok (wn_write_token w) ∧
        (begun path content_type m (wn_write_token w) s s' ∨
         unchanged s s' ∧ ∃ v, writes s !! wn_write_token w = Some v ∧ wv_metadata v ≡ₚ m)
    | Err _ => unchanged s s' ∨ ∃ t, begun path content_type m t s s'
    end;
  write_law session number content s r s' : write_segment session number content s = (r, s') →
    match r with
    | Ok receipt => token_ok (wr_segment_token receipt) ∧ written session number content s s'
    | Err _ => unchanged s s' ∨ written session number content s s'
    end;
  list_law session s r s' : list_segments session s = (r, s') → unchanged s s';
  complete_law session segments n content_type m s r s' : complete_write session segments n content_type m s = (r, s') →
    (unchanged s s' ∨ published session segments s s') ∧
    match r with
    | Ok receipt => completion_ok receipt ∧ matches (wn_object_path session) content_type m receipt s'
    | Err _ => True
    end;
  find_law path n content_type m s r s' : find_completed_write path n content_type m s = (r, s') →
    unchanged s s' ∧
    match r with
    | Ok (Some receipt) => completion_ok receipt ∧ matches path content_type m receipt s
    | _ => True
    end;
  abort_law session s r s' : abort_write session s = (r, s') → unchanged s s' ∨ discarded session s s';
}.
