(* ===== verification/MemoryStore.v ===== *)
(** * An object store in memory

    The smallest adapter that keeps the promises of [StoreContract]; the
    concrete runs use it. *)

From stdpp Require Import gmap.
From S2P Require Import Prelude Text Json WriteSegments Sha256 Paths Domain PackIngress RawVolume Crypto Base64.
From S2P Require Import Age AgeUnits AgeRange StreamingAge ArchiveContracts RawVerification RawCheckpoint.
From S2P Require Import RawUpload.

Record memory := { mem_writes : gmap pystr write_view; mem_objects : gmap pystr object_view }.

Definition store_error {A} : result A := Err (Exn RuntimeError (str "object store refused the call")).

(** A token longer than every other. *)
Definition next_token (s : memory) : pystr :=
  replicate (S (max_list (length ∘ fst <$> map_to_list (mem_writes s)))) 119.

Definition memory_begin (path : pystr) (n : Z) (content_type : pystr) (m : metadata) (s : memory) :
    result WriteSession * memory :=
  (Ok {| wn_object_path := path; wn_write_token := next_token s; wn_expected_bytes := n |},
   {| mem_writes := <[next_token s := {| wv_path := path; wv_content_type := content_type; wv_metadata := m;
                                        wv_segments := ∅ |}]> (mem_writes s); mem_objects := mem_objects s |}).

Definition segment_receipt (number : Z) (content : pybytes) : WriteSegmentReceipt :=
  {| wr_number := number; wr_segment_token := sha256_hex content; wr_bytes := len content; wr_sha256 := None |}.

Definition memory_write (session : WriteSession) (number : Z) (content : pybytes) (s : memory) :
    result WriteSegmentReceipt * memory :=
  match mem_writes s !! wn_write_token session with
  | None => (store_error, s)
  | Some v =>
      (Ok (segment_receipt number content),
       {| mem_writes := <[wn_write_token session := with_segments v (<[number := content]> (wv_segments v))]> (mem_writes s);
          mem_objects := mem_objects s |})
  end.

Definition memory_list (session : WriteSession) (s : memory) : result (list WriteSegmentReceipt) * memory :=
  (match mem_writes s !! wn_write_token session with
   | None => store_error
   | Some v => Ok ((λ '(n, content), segment_receipt n content) <$> map_to_list (wv_segments v))
   end, s).

Definition object_receipt (path : pystr) (o : object_view) : CompletedObjectReceipt :=
  {| co_object_path := path; co_revision := None; co_entity_token := None; co_bytes := len (ov_content o);
     co_completed_at := str "now"; co_retrieval_cache := None |}.

(** The object at a path, if it has this identity. *)
Definition identified (path : pystr) (n : Z) (content_type : pystr) (m : metadata) (s : memory) : option object_view :=
  match mem_objects s !! path with
  | Some o => if bool_decide (ov_content_type o = content_type ∧ ov_metadata o = m ∧ len (ov_content o) = n)
              then Some o else None
  | None => None
  end.

Definition memory_find (path : pystr) (n : Z) (content_type : pystr) (m : metadata) (s : memory) :
    result (option CompletedObjectReceipt) * memory := (Ok (object_receipt path <$> identified path n content_type m s), s).

(** The listed segments, each as it was acknowledged. *)
Definition gather (v : write_view) (segments : list WriteSegmentReceipt) : option (list pybytes) :=
  mapM (λ r, content ← wv_segments v !! wr_number r;
             if bool_decide (wr_segment_token r = sha256_hex content ∧ wr_bytes r = len content) then Some content else None)
    segments.

Definition memory_complete (session : WriteSession) (segments : list WriteSegmentReceipt) (n : Z) (content_type : pystr)
    (m : metadata) (s : memory) : result CompletedObjectReceipt * memory :=
  let path := wn_object_path session in
  match mem_writes s !! wn_write_token session, mem_objects s !! path with
  | Some v, None =>
      match gather v segments with
      | Some contents =>
          let o := {| ov_content := concat contents; ov_content_type := wv_content_type v; ov_metadata := wv_metadata v |} in
          if bool_decide (wv_path v = path ∧ wv_content_type v = content_type ∧ wv_metadata v = m ∧ len (concat contents) = n)
          then (Ok (object_receipt path o), {| mem_writes := mem_writes s; mem_objects := <[path := o]> (mem_objects s) |})
          else (store_error, s)
      | None => (store_error, s)
      end
  | _, Some _ =>
      (match identified path n content_type m s with Some o => Ok (object_receipt path o) | None => store_error end, s)
  | _, _ => (store_error, s)
  end.

Definition memory_abort (session : WriteSession) (s : memory) : result unit * memory :=
  match mem_writes s !! wn_write_token session with
  | None => (Ok tt, s)
  | Some v =>
      (Ok tt, {| mem_writes := <[wn_write_token session := with_segments v ∅]> (mem_writes s); mem_objects := mem_objects s |})
  end.

Section memory.
Context (constraints : ResumableWriteConstraints).

#[global] Instance memory_store : ObjectStore := {
  ost := memory;
  write_constraints := constraints;
  begin_write := memory_begin;
  write_segment := memory_write;
  list_segments := memory_list;
  complete_write := memory_complete;
  find_completed_write := memory_find;
  abort_write := memory_abort;
}.

#[global] Instance memory_view : StoreView := { writes := mem_writes : ost → _; objects := mem_objects : ost → _ }.

Lemma identified_matches path n content_type m s o : identified path n content_type m s = Some o →
  mem_objects s !! path = Some o ∧ ov_content_type o = content_type ∧ ov_metadata o = m ∧ len (ov_content o) = n.
Proof. unfold identified. destruct (mem_objects s !! path) as [o'|]; [|done]. case_bool_decide; [|done]. intros [= <-]. done. Qed.

Lemma object_receipt_ok path o : completion_ok (object_receipt path o).
Proof. split_and!; [done|done| |done]. split; [done|apply str_text]. Qed.

Lemma gather_segments v segments contents : gather v segments = Some contents →
  Forall2 (λ r content, wv_segments v !! wr_number r = Some content) segments contents.
Proof.
  intros Hg%mapM_Some. eapply Forall2_impl; [exact Hg|]. intros r content Hr. cbn in Hr.
  destruct (wv_segments v !! wr_number r) as [x|]; [|done]. cbn in Hr. case_bool_decide; [|done]. by injection Hr as <-.
Qed.

Lemma next_token_fresh s : mem_writes s !! next_token s = None.
Proof.
  destruct (mem_writes s !! next_token s) as [v|] eqn:Hv; [|done]. exfalso. apply elem_of_map_to_list in Hv.
  assert (length (next_token s) ∈ length ∘ fst <$> map_to_list (mem_writes s)) as Hin
    by by apply (list_elem_of_fmap_2 (length ∘ fst) _ (next_token s, v)).
  apply max_list_elem_of_le in Hin. unfold next_token in Hin at 1. rewrite length_replicate in Hin. lia.
Qed.

Lemma next_token_ok s : token_ok (next_token s).
Proof.
  split; [done|]. apply Forall_replicate. unfold is_scalar, is_code_point, is_surrogate. lia.
Qed.

#[global] Instance memory_contract : StoreContract.
Proof.
  split.
  - intros path n content_type m s r s'. cbn. unfold memory_begin. intros [= <- <-]. split; [apply next_token_ok|].
    left. split; [apply next_token_fresh|done].
  - intros session number content s r s'. cbn. unfold memory_write.
    destruct (mem_writes s !! wn_write_token session) as [v|] eqn:Hv; intros [= <- <-]; [|by left].
    split; [|by exists v]. split; [|apply sha256_hex_text]. intros He.
    pose proof (sha256_hex_fullmatch content) as Hf. cbn [wr_segment_token segment_receipt] in He. by rewrite He in Hf.
  - intros session s r s'. cbn. unfold memory_list. by intros [= _ <-].
  - intros session segments n content_type m s r s'. cbn. unfold memory_complete.
    destruct (mem_writes s !! wn_write_token session) as [v|] eqn:Hv, (mem_objects s !! wn_object_path session) as [o|] eqn:Ho.
    2: { destruct (gather v segments) as [contents|] eqn:Hg; [|intros [= <- <-]; by split; [left|]].
         case_bool_decide as Hd; intros [= <- <-]; [|by split; [left|]]. destruct Hd as (Hp & Hct & Hm & Hn).
         split; [right; exists v, contents; split_and!; try done; by apply gather_segments|].
         split; [apply object_receipt_ok|]. eexists. cbn. rewrite lookup_insert_eq. split; [done|]. by rewrite <- Hm. }
    3: { intros [= <- <-]. by split; [left|]. }
    all: destruct (identified _ _ _ _ _) as [o'|] eqn:Hi; intros [= <- <-]; (split; [by left|]); [|done].
    all: apply identified_matches in Hi as (Hi & Hct & Hm & Hn).
    all: split; [apply object_receipt_ok|]; exists o'; split_and!; try done; by rewrite Hm.
  - intros path n content_type m s r s'. cbn. unfold memory_find. intros [= <- <-]. split; [done|].
    destruct (identified _ _ _ _ _) as [o'|] eqn:Hi; [|done]. cbn. apply identified_matches in Hi as (Hi & Hct & Hm & Hn).
    split; [apply object_receipt_ok|]. exists o'. split_and!; try done. by rewrite Hm.
  - intros session s r s'. cbn. unfold memory_abort. destruct (mem_writes s !! wn_write_token session) as [v|] eqn:Hv;
      intros [= <- <-]; [right; by exists v|by left].
Qed.
End memory.
