(* ===== verification/UploadLayout.v ===== *)
(** * The layout of an upload

    What a plaintext, the session of an upload and the adapter's constraints
    determine: the units with their stored bytes, the planned segments, the
    receipts of both, and the checkpoints that record only such receipts.  Good
    checkpoints are closed under merging ([merge_good]). *)

From stdpp Require Import gmap.
From S2P Require Import Prelude Text Json WriteSegments Sha256 Paths Domain PackIngress RawVolume Crypto Base64.
From S2P Require Import Age AgeUnits AgeRange StreamingAge ArchiveContracts RawVerification RawCheckpoint.
From S2P Require Import RawUpload.

(** ** The text of a session *)

Lemma dump_string_ascii s : Forall (λ c, 0 ≤ c < 127) s → dump_string true s = dump_string false s.
Proof.
  intros Hs. unfold dump_string. do 2 f_equal. f_equal. induction Hs as [|c s Hc _ IH]; [done|]. rewrite !fmap_cons. f_equal; [|done].
  unfold escape_char. by rewrite (proj2 (Z.ltb_lt c 127)) by lia.
Qed.

Lemma b64_printable bs : bytes_ok bs → Forall (λ c, 0 ≤ c < 127) (_b64_encode bs).
Proof.
  intros Hb. eapply Forall_impl; [by apply b64_encode_alphabet|]. unfold b64_alphabet. simpl. lia.
Qed.

(** The persisted state is ASCII: both forms of [json.dumps] print it alike. *)
Lemma state_text_forms `{PyEnv} state : upload_state_valid state →
  dumps true (upload_state_payload state) = dumps false (upload_state_payload state).
Proof.
  intros (Hh & Hn & _ & Hf & _). unfold upload_state_payload. cbn [dumps map fst snd].
  rewrite (dump_string_ascii _ (b64_printable _ Hh)), (dump_string_ascii _ (b64_printable _ Hn)), Hf.
  by destruct (us_plaintext_size state).
Qed.

Lemma Ok_eq {A} (x y : A) : Ok x = Ok y → x = y.
Proof. by intros [= ->]. Qed.

(** ** The layout of an upload *)

Section layout.
Context `{PyEnv} `{Aead} (passphrase : pystr) (scrypt_log_n : Z) (p : pybytes) (target : Z).
Context (Hlimit : len p ≤ 2 ^ 53) (Htarget : CHUNK_SIZE ≤ target ∧ target mod CHUNK_SIZE = 0).

(** The chunks in a unit. *)
Definition unit_chunks : Z := Z.max 1 (target / CHUNK_SIZE).

Definition plain (u : AgeAlignedUnitPlan) : pybytes := slice (au_plaintext_start u) (au_plaintext_end u) p.
Definition stored (file : pybytes) (u : AgeAlignedUnitPlan) : pybytes := slice (au_ciphertext_start u) (au_ciphertext_end u) file.

(** Units with the plaintext ranges that the units of every session have. *)
Definition plain_units : list AgeAlignedUnitPlan :=
  unit_loop (Z.to_nat (chunk_count (len p))) (len p) PAYLOAD_NONCE_SIZE unit_chunks (chunk_count (len p)) 0 1 0.

(** The digests that a client registers: one for each unit. *)
Definition unit_digests : list pystr := (λ u, sha256_hex (plain u)) <$> plain_units.

(** Each unit starts where the one before it ends. *)
Fixpoint contiguous (start : Z) (us : list AgeAlignedUnitPlan) : Prop :=
  match us with
  | [] => True
  | u :: us => au_plaintext_start u = start ∧ contiguous (au_plaintext_end u) us
  end.

(** The text of a session that was created for the plaintext. *)
Definition session_text (text : pystr) (s : ResumableAgeScryptSession) : Prop :=
  ∃ file_key salt nonce state,
    create (PassText passphrase) scrypt_log_n file_key salt nonce None = Ok s ∧
    bytes_ok file_key ∧ bytes_ok salt ∧ bytes_ok nonce ∧
    upload_state_valid state ∧ us_plaintext_size state = Some (len p) ∧
    text = dumps false (upload_state_payload state) ∧
    us_header state = ss_header s ∧ us_payload_nonce state = ss_payload_nonce s ∧
    cached_session passphrase text = Ok s.

(** The units of a raw volume. *)
Definition raw_units (s : ResumableAgeScryptSession) : result (list AgeAlignedUnitPlan) :=
  age_aligned_unit_plans s (len p) unit_chunks.

(** What the units that [units] gives a session are to the plaintext and to the
    file. *)
Record laid (units : ResumableAgeScryptSession → result (list AgeAlignedUnitPlan)) (s : ResumableAgeScryptSession)
    (us : list AgeAlignedUnitPlan) (file : pybytes) : Prop := {
  ld_units : units s = Ok us;
  ld_file : encrypt_plaintext s p = Ok file;
  ld_numbers : au_unit_number <$> us = rangeZ 1 (1 + len us);
  ld_plain : concat (plain <$> us) = p;
  ld_stored : concat (stored file <$> us) = file;
  ld_lengths : Forall (λ u, len (stored file u) = ciphertext_len u ∧ 1 ≤ ciphertext_len u ∧
                            len (plain u) = plaintext_len u ∧ 0 ≤ au_plaintext_start u) us;
  ld_order : ∀ i j u v, us !! i = Some u → us !! j = Some v → (i < j)%nat → au_plaintext_end u ≤ au_plaintext_start v;
  ld_positive : ∀ i u, us !! i = Some u → (0 < i)%nat → 1 ≤ plaintext_len u;
  ld_contiguous : contiguous 0 us;
  ld_nonempty : us ≠ [];
}.

Lemma units_later n pre per count first number offset us i u : 0 < per → 0 ≤ first →
  units_from n pre per count first number offset us → us !! i = Some u → (0 < i)%nat → 1 ≤ au_first_chunk u.
Proof.
  intros Hper Hf Hu Hi Hpos. destruct us as [|v us]; [done|]. destruct i as [|i]; [lia|]. cbn in Hi.
  cbn [units_from] in Hu. destruct Hu as (_ & _ & Hu). pose proof (units_start _ _ _ _ _ _ _ _ Hper Hu) as Hs.
  rewrite Forall_forall in Hs. destruct (Hs u (list_elem_of_lookup_2 _ _ _ Hi)) as (_ & ? & _). lia.
Qed.

Lemma unit_chunks_positive : 0 < unit_chunks.
Proof. unfold unit_chunks. lia. Qed.

Lemma spans_plain (us vs : list AgeAlignedUnitPlan) : unit_span <$> us = unit_span <$> vs → plain <$> us = plain <$> vs.
Proof.
  revert vs. induction us as [|u us IH]; intros [|v vs] Hs; try done. rewrite !fmap_cons in *.
  injection Hs as _ Ha Hb Hs. f_equal; [|by apply IH]. unfold plain. by rewrite Ha, Hb.
Qed.

Lemma units_contiguous n pre per count first number offset us : 0 < per → 0 ≤ first → count = chunk_count n → 0 ≤ n →
  units_from n pre per count first number offset us → contiguous (if n =? 0 then 0 else first * CHUNK_SIZE) us.
Proof.
  intros Hper Hf Hc Hn. pose proof (chunk_last n Hn) as Hl. rewrite <- Hc in Hl. revert first number offset Hf.
  induction us as [|u us IH]; intros first number offset Hf Hu; [done|]. cbn [units_from] in Hu.
  destruct Hu as (Hlt & Hw & Hu). cbn [contiguous]. split; [by rewrite Hw|].
  destruct us as [|v us]; [done|]. pose proof Hu as [Hlt' _]. specialize (IH (first + per) _ _ ltac:(lia) Hu).
  replace (au_plaintext_end u) with (if n =? 0 then 0 else (first + per) * CHUNK_SIZE); [done|].
  rewrite Hw. unfold unit_plan. cbn [au_plaintext_end]. destruct (Z.eqb_spec n 0); [done|]. unfold CHUNK_SIZE in *. lia.
Qed.

Lemma units_lengths s us : units_from (len p) (len (age_prefix s)) unit_chunks (chunk_count (len p)) 0 1 0 us →
  Forall (λ u, 1 ≤ ciphertext_len u ∧ len (plain u) = plaintext_len u ∧ 0 ≤ au_plaintext_start u ∧
               (1 ≤ au_first_chunk u → 1 ≤ plaintext_len u)) us.
Proof.
  intros Hu. pose proof (len_nonneg p) as Hn. pose proof (len_nonneg (age_prefix s)) as Hpre.
  pose proof (chunk_last (len p) Hn) as Hl. pose proof unit_chunks_positive as Hper.
  assert (∀ first number offset vs, 0 ≤ first →
    units_from (len p) (len (age_prefix s)) unit_chunks (chunk_count (len p)) first number offset vs →
    Forall (λ u, 1 ≤ ciphertext_len u ∧ len (plain u) = plaintext_len u ∧ 0 ≤ au_plaintext_start u ∧
               (1 ≤ au_first_chunk u → 1 ≤ plaintext_len u)) vs) as Hgen; [|by apply (Hgen 0 1 0)].
  clear us Hu. intros first number offset vs. revert first number offset.
  induction vs as [|v vs IH]; intros first number offset Hf Hv; [constructor|].
  cbn [units_from] in Hv. destruct Hv as (Hlt & Hv & Hrest). constructor; [|by apply (IH (first + unit_chunks) _ _ ltac:(lia) Hrest)].
  assert (0 ≤ au_plaintext_start v ≤ au_plaintext_end v ∧ au_plaintext_end v ≤ len p) as Hb.
  { rewrite Hv. unfold unit_plan. cbn [au_plaintext_start au_plaintext_end].
    destruct (Z.eqb_spec (len p) 0); [lia|]. unfold CHUNK_SIZE in *. lia. }
  split_and!; [| |lia|].
  - unfold ciphertext_len. rewrite Hv. unfold unit_plan.
    cbn [au_ciphertext_start au_ciphertext_end au_plaintext_start au_plaintext_end]. rewrite Hv in Hb. unfold unit_plan in Hb.
    cbn [au_plaintext_start au_plaintext_end] in Hb. unfold AEAD_TAG_SIZE. destruct (first =? 0); lia.
  - unfold plain, plaintext_len. rewrite len_slice; lia.
  - rewrite Hv. unfold plaintext_len, unit_plan. cbn [au_first_chunk au_plaintext_start au_plaintext_end]. intros H1.
    destruct (Z.eqb_spec (len p) 0) as [He|He]; [|unfold CHUNK_SIZE in *; lia].
    rewrite He in Hlt. change (chunk_count 0) with 1 in Hlt. lia.
Qed.

Lemma raw_units_from s us : raw_units s = Ok us →
  units_from (len p) (len (age_prefix s)) unit_chunks (chunk_count (len p)) 0 1 0 us.
Proof.
  intros Hus. pose proof (len_nonneg p). unfold raw_units, age_aligned_unit_plans, make_age_aligned_unit_plans in Hus.
  do 3 inv_step Hus. rewrite chunk_count_exact, ok_bind in Hus by lia. apply Ok_eq in Hus as <-.
  apply unit_loop_spec; [apply unit_chunks_positive|lia].
Qed.

Lemma raw_spans s us : raw_units s = Ok us → unit_span <$> us = unit_span <$> plain_units.
Proof.
  intros Hu%raw_units_from. pose proof (len_nonneg p). unfold plain_units. eapply units_same_spans; [exact Hu|].
  apply unit_loop_spec; [apply unit_chunks_positive|lia].
Qed.

Lemma session_units text s : session_text text s → ∃ us file, laid raw_units s us file.
Proof.
  intros (file_key & salt & nonce & state & Hc & _). pose proof (len_nonneg p) as Hn.
  apply create_inv in Hc as (pb & wk & Hl & Hf16 & Hs16 & Hn16 & Hpb & Hwk & Hs).
  assert (16 ≤ len (age_prefix s)) as Hpre.
  { rewrite Hs. unfold age_prefix, session_of. cbn [ss_header ss_payload_nonce]. rewrite len_app, Hn16.
    pose proof (len_nonneg (wrapped_header wk file_key salt scrypt_log_n)). lia. }
  destruct (units_of_file s p unit_chunks Hlimit unit_chunks_positive Hpre) as (us & file & Hus & Hfile & _ & Hst & Hnum & _).
  exists us, file. destruct (units_planned s p unit_chunks us file Hlimit Hus Hfile) as [_ Hplanned].
  pose proof (raw_units_from s us Hus) as Hu.
  pose proof (units_lengths s us Hu) as Hlens. split; try done.
  - transitivity (slice (0 * CHUNK_SIZE) (len p) p); [|apply slice_full].
    by apply (units_plaintext p _ unit_chunks 0 1 0 us unit_chunks_positive ltac:(lia) Hu).
  - rewrite Forall_forall in *. intros u Hin. destruct (Hlens u Hin) as (H1 & H2 & H3 & _). split_and!; try done.
    destruct (Hplanned u Hin) as [(first & number & offset & Hf & ->) Hb]. unfold stored. rewrite <- Hb.
    by apply planned_len; [apply unit_chunks_positive|].
  - intros i j u v. by apply (units_ordered _ _ _ _ _ _ _ _ i j u v unit_chunks_positive Hu).
  - intros i u Hi Hpos. rewrite Forall_forall in Hlens. destruct (Hlens u (list_elem_of_lookup_2 _ _ _ Hi)) as (_ & _ & _ & Hp).
    apply Hp. by apply (units_later _ _ _ _ _ _ _ _ i u unit_chunks_positive (Z.le_refl 0) Hu Hi).
  - pose proof (units_contiguous _ _ _ _ _ _ _ _ unit_chunks_positive (Z.le_refl 0) eq_refl Hn Hu) as Hcon.
    rewrite Z.mul_0_l in Hcon. by destruct (len p =? 0).
  - intros ->. cbn in Hu. pose proof (chunk_count_bounds (len p) ltac:(lia)). lia.
Qed.

(** What [open] persists of a session that it created. *)
Lemma created_text file_key salt nonce s state content text :
  create (PassText passphrase) scrypt_log_n file_key salt nonce None = Ok s →
  bytes_ok file_key → bytes_ok salt → bytes_ok nonce →
  Age.export_state s (Some (len p)) = Ok state → to_json_bytes state = Ok content → utf8_decode content = Ok text →
  session_text text s.
Proof.
  intros Hc Hf Hs Hn Hexp Hto Hdec. pose proof (len_nonneg p) as Hp.
  destruct (resume_created _ _ _ _ _ _ s (Some (len p)) Hc Hf Hs Hn Hp) as (state' & bs & Hexp' & Hto' & Hread & Hsize & Hres).
  rewrite Hexp in Hexp'. apply Ok_eq in Hexp' as <-. rewrite Hto in Hto'. apply Ok_eq in Hto' as <-.
  unfold from_json_bytes in Hread. rewrite Hdec, ok_bind in Hread. pose proof (upload_text_valid _ _ Hread) as Hv.
  exists file_key, salt, nonce, state. split_and!; try done.
  - rewrite <- (state_text_forms state Hv). unfold to_json_bytes in Hto.
    apply utf8_roundtrip in Hto; [congruence|]. eapply Forall_impl; [by apply dumps_text, upload_payload_wf|]. by intros c [].
  - unfold Age.export_state in Hexp. inv_step Hexp. apply Ok_eq in Hexp as <-. done.
  - unfold Age.export_state in Hexp. inv_step Hexp. apply Ok_eq in Hexp as <-. done.
  - unfold cached_session, session_from_state in *. cbn [_upload_state] in *. unfold from_json_bytes in Hres.
    rewrite Hdec, ok_bind in Hres. exact Hres.
Qed.

(** The file of a session opens with the passphrase. *)
Lemma session_decrypts units text s us file : session_text text s → laid units s us file →
  decrypt_age_scrypt file (PassText passphrase) None = Ok p.
Proof.
  intros (file_key & salt & nonce & state & Hc & Hfk & Hsalt & _) Hl.
  apply create_inv in Hc as (pb & wk & Hln & Hf16 & Hs16 & Hn16 & Hpb & Hwk & Hs).
  pose proof (ld_file _ _ _ _ Hl) as Hf. rewrite encrypt_plaintext_spec in Hf by exact Hlimit. apply Ok_eq in Hf as <-.
  rewrite Hs. apply (decrypt_created (PassText passphrase) pb wk file_key salt nonce scrypt_log_n None p); assumption.
Qed.
End layout.

(** ** Receipts of units *)

Section receipts.
Context `{PyEnv} `{Aead} (p : pybytes) (units : ResumableAgeScryptSession → result (list AgeAlignedUnitPlan)).
Context (s : ResumableAgeScryptSession) (us : list AgeAlignedUnitPlan) (file : pybytes) (Hlaid : laid p units s us file).

(** The receipt of a unit. *)
Definition part_of (u : AgeAlignedUnitPlan) : StoredArchivePart :=
  {| sap_number := au_unit_number u; sap_plaintext_start := au_plaintext_start u; sap_plaintext_bytes := plaintext_len u;
     sap_plaintext_sha256 := sha256_hex (plain p u); sap_stored_bytes := ciphertext_len u;
     sap_stored_sha256 := sha256_hex (stored file u) |}.

Definition parts_of_units (parts : list StoredArchivePart) : Prop := Forall (λ part, ∃ u, u ∈ us ∧ part = part_of u) parts.

Lemma unit_index u : u ∈ us → ∃ i, us !! i = Some u ∧ au_unit_number u = 1 + Z.of_nat i.
Proof.
  intros Hu. apply list_elem_of_lookup in Hu as [i Hi]. exists i. split; [done|].
  pose proof (ld_numbers _ _ _ _ _ Hlaid) as Hn. apply (f_equal (λ l, l !! i)) in Hn.
  rewrite list_lookup_fmap, Hi in Hn. cbn in Hn. unfold rangeZ in Hn.
  symmetry in Hn. apply lookup_seqZ in Hn as [-> _]. lia.
Qed.

Lemma unit_at i u : us !! i = Some u → au_unit_number u = 1 + Z.of_nat i.
Proof.
  intros Hi. destruct (unit_index u (list_elem_of_lookup_2 _ _ _ Hi)) as (j & Hj & Hn).
  pose proof (ld_numbers _ _ _ _ _ Hlaid) as Hnum. apply (f_equal (λ l, l !! i)) in Hnum.
  rewrite list_lookup_fmap, Hi in Hnum. cbn in Hnum. symmetry in Hnum. apply lookup_seqZ in Hnum as [-> _]. lia.
Qed.

Lemma unit_of_number u v : u ∈ us → v ∈ us → au_unit_number u = au_unit_number v → u = v.
Proof.
  intros Hu Hv He. destruct (unit_index u Hu) as (i & Hi & Hn), (unit_index v Hv) as (j & Hj & Hm).
  assert (i = j) as -> by lia. congruence.
Qed.

Lemma units_ordered_by_number u v : u ∈ us → v ∈ us → au_unit_number u < au_unit_number v →
  au_plaintext_end u ≤ au_plaintext_start v.
Proof.
  intros Hu Hv Hlt. destruct (unit_index u Hu) as (i & Hi & Hn), (unit_index v Hv) as (j & Hj & Hm).
  apply (ld_order _ _ _ _ _ Hlaid i j); [done|done|lia].
Qed.

(** Receipts in the order of their numbers are in the order of their ranges. *)
Lemma units_parts_order parts : increasing sap_number parts → parts_of_units parts → parts_in_order 0 0 parts.
Proof.
  intros Hi Hparts.
  assert (∀ n e, Forall (λ part, n < sap_number part ∧ e ≤ sap_plaintext_start part) parts →
    parts_in_order n e parts) as Hgen.
  2: { apply Hgen. eapply Forall_impl; [exact Hparts|]. intros part (u & Hu & ->). cbn.
       destruct (unit_index u Hu) as (i & _ & Hn). pose proof (ld_lengths _ _ _ _ _ Hlaid) as Hl.
       rewrite Forall_forall in Hl. destruct (Hl u Hu) as (_ & _ & _ & Hz). lia. }
  induction parts as [|part parts IH]; intros n e Hb; [done|].
  apply increasing_cons in Hi as [Hlt Hi]. apply Forall_cons in Hparts as [(u & Hu & ->) Hparts].
  apply Forall_cons in Hb as [[Hn He] Hb]. pose proof (ld_lengths _ _ _ _ _ Hlaid) as Hl. rewrite Forall_forall in Hl.
  destruct (Hl u Hu) as (_ & H1 & H2 & H3). pose proof (len_nonneg (plain p u)) as H4. cbn in Hn, He |- *.
  split_and!; try done; [lia|apply sha256_hex_fullmatch|apply sha256_hex_fullmatch|].
  apply IH; [done|done|]. rewrite Forall_forall in *. intros q Hq. specialize (Hlt q Hq). cbn in Hlt. split; [done|].
  destruct (Hparts q Hq) as (v & Hv & ->). cbn in *. pose proof (units_ordered_by_number u v Hu Hv Hlt).
  unfold plaintext_len. lia.
Qed.

Lemma coverage_prefix parts n start n' start' : foldM coverage_part_step (n, start) parts = Ok (n', start') →
  sap_number <$> parts = rangeZ n (n + len parts) ∧ n' = n + len parts ∧
  start' = start + sumZ sap_plaintext_bytes parts.
Proof.
  revert n start. induction parts as [|part parts IH]; intros n start Hf; cbn [foldM] in Hf.
  - injection Hf as <- <-. rewrite len_nil, Z.add_0_r, rangeZ_empty. split_and!; [done|done|]. change (sumZ _ []) with 0. lia.
  - apply bind_Ok in Hf as ([n1 start1] & Hs & Hf). unfold coverage_part_step in Hs. inv_step Hs. injection Hs as <- <-.
    bool_prop. apply IH in Hf as (Hn & -> & ->). rewrite fmap_cons, len_cons, sumZ_cons, Hn.
    pose proof (len_nonneg parts). rewrite (rangeZ_cons n) by lia. split_and!; [f_equal; [lia|f_equal; lia]|lia|lia].
Qed.

(** Contiguous receipts are those of the first units. *)
Lemma contiguous_units parts : parts_of_units parts → sap_number <$> parts = rangeZ 1 (1 + len parts) →
  parts = part_of <$> take (length parts) us.
Proof.
  intros Hparts Hn. apply list_eq. intros i. destruct (parts !! i) as [part|] eqn:Hi.
  - pose proof (lookup_lt_Some _ _ _ Hi) as Hlt. rewrite list_lookup_fmap, lookup_take_lt by done.
    pose proof Hparts as Hp. unfold parts_of_units in Hp. rewrite Forall_forall in Hp.
    destruct (Hp part (list_elem_of_lookup_2 _ _ _ Hi)) as (u & Hu & ->).
    apply (f_equal (λ l, l !! i)) in Hn. rewrite list_lookup_fmap, Hi in Hn. cbn in Hn. symmetry in Hn.
    apply lookup_seqZ in Hn as [Hn _]. destruct (unit_index u Hu) as (j & Hj & Hm).
    assert (j = i) as -> by lia. by rewrite Hj.
  - symmetry. rewrite list_lookup_fmap. destruct (take _ us !! i) eqn:Ht; [|done].
    apply lookup_take_Some in Ht as [_ Ht]. apply lookup_ge_None in Hi. lia.
Qed.

Lemma units_length parts : parts_of_units parts → NoDup (sap_number <$> parts) → len parts ≤ len us.
Proof.
  intros Hparts Hnd. assert (sap_number <$> parts ⊆+ au_unit_number <$> us) as Hs.
  { apply NoDup_submseteq; [done|]. intros n Hn. apply list_elem_of_fmap in Hn as (part & -> & Hin).
    unfold parts_of_units in Hparts. rewrite Forall_forall in Hparts. destruct (Hparts part Hin) as (u & Hu & ->). cbn.
    by apply list_elem_of_fmap_2. }
  apply submseteq_length in Hs. rewrite !length_fmap in Hs. unfold len. lia.
Qed.

(** All receipts together have the bytes of the file. *)
Lemma stored_total : sumZ sap_stored_bytes (part_of <$> us) = len file.
Proof.
  transitivity (len (concat (stored file <$> us))); [|by rewrite (ld_stored _ _ _ _ _ Hlaid)].
  pose proof (ld_lengths _ _ _ _ _ Hlaid) as Hlens. clear Hlaid. induction Hlens as [|u l (Hu & _) _ IH]; [done|].
  rewrite !fmap_cons. cbn [concat]. rewrite sumZ_cons, len_app, IH, Hu. done.
Qed.

Lemma plain_sum l : l ⊆ us → sumZ plaintext_len l = len (concat (plain p <$> l)).
Proof.
  induction l as [|u l IH]; intros Hsub; [done|]. rewrite fmap_cons. cbn [concat]. rewrite sumZ_cons, len_app, IH by set_solver.
  pose proof (ld_lengths _ _ _ _ _ Hlaid) as Hl. rewrite Forall_forall in Hl. destruct (Hl u ltac:(set_solver)) as (_ & _ & -> & _). done.
Qed.

(** Receipts that cover the plaintext are those of all units. *)
Lemma coverage_all parts : parts_of_units parts → parts ≠ [] → _require_complete_coverage parts (len p) = Ok tt →
  parts = part_of <$> us.
Proof.
  intros Hparts Hne Hcov. unfold _require_complete_coverage in Hcov. apply bind_Ok in Hcov as ([n start] & Hf & Hcov).
  inv_step Hcov. bool_prop. apply coverage_prefix in Hf as (Hn & _ & Hstart).
  pose proof (contiguous_units parts Hparts Hn) as Heq.
  assert (length parts = length us) as Hlen; [|by rewrite Heq at 1; rewrite take_ge by lia].
  pose proof (units_length parts Hparts ltac:(rewrite Hn; apply NoDup_seqZ)) as Hle. unfold len in Hle.
  destruct (decide (length parts < length us)%nat) as [Hlt|]; [|lia]. exfalso.
  destruct (lookup_lt_is_Some_2 us (length parts) Hlt) as [u Hu].
  pose proof (ld_positive _ _ _ _ _ Hlaid (length parts) u Hu ltac:(destruct parts; [done|cbn; lia])) as Hpos.
  assert (sumZ plaintext_len (take (length parts) us) = len p) as Hs1.
  { assert (sumZ sap_plaintext_bytes parts = sumZ plaintext_len (take (length parts) us)) as <-; [|lia].
    rewrite Heq at 1. unfold sumZ. clear. induction (take (length parts) us) as [|v l IH]; [done|]. cbn. by rewrite IH. }
  assert (sumZ plaintext_len us = len p) as Hs2.
  { rewrite plain_sum by done. by rewrite (ld_plain _ _ _ _ _ Hlaid). }
  rewrite <- (take_drop (length parts) us), sumZ_app, Hs1 in Hs2.
  rewrite (drop_S _ u _ Hu), sumZ_cons in Hs2.
  assert (0 ≤ sumZ plaintext_len (drop (S (length parts)) us)) as Hz; [|lia].
  rewrite plain_sum; [apply len_nonneg|]. intros v Hv. apply list_elem_of_lookup in Hv as [i Hi].
  rewrite lookup_drop in Hi. by eapply list_elem_of_lookup_2.
Qed.
End receipts.

(** ** Segments of recorded parts *)

Definition seg_pair (r : WriteSegmentReceipt) : Z * Z := (wr_number r, wr_bytes r).
Definition plan_pair (pl : WriteSegmentPlan) : Z * Z := (ws_number pl, ws_stored_bytes pl).

(** The recorded segments are the planned ones of the recorded parts. *)
Definition recorded (plans : list WriteSegmentPlan) (parts : list StoredArchivePart)
    (segments : list WriteSegmentReceipt) : Prop :=
  seg_pair <$> segments = plan_pair <$> filter (λ pl, ws_archive_part_number pl ∈ sap_number <$> parts) plans.

Lemma increasing_sublist {A} (key : A → Z) l k : l `sublist_of` k → increasing key k → increasing key l.
Proof.
  intros Hs. induction Hs as [|x l k Hs IH|x l k Hs IH]; intros Hk; [done| |].
  - apply increasing_cons in Hk as [Hx Hk]. apply increasing_cons. split; [|by apply IH].
    rewrite Forall_forall in *. intros y Hy. apply Hx. by eapply elem_of_submseteq, sublist_submseteq.
  - apply IH. by apply increasing_cons in Hk as [_ Hk].
Qed.

Lemma increasing_range {A} (key : A → Z) a n l : key <$> l = seqZ a n → increasing key l.
Proof.
  revert a n. induction l as [|x l IH]; intros a n Hl; [constructor|].
  destruct (decide (0 < n)) as [Hn|]; [|rewrite seqZ_nil in Hl by lia; done].
  rewrite fmap_cons, seqZ_cons in Hl by done. injection Hl as Hx Hl. apply increasing_cons. split; [|by eapply IH].
  apply Forall_forall. intros y Hy. assert (key y ∈ seqZ (Z.succ a) (Z.pred n)) as Hin%elem_of_seqZ
    by (rewrite <- Hl; by apply list_elem_of_fmap_2). lia.
Qed.

Lemma increasing_fmap {A B} (f : A → B) (key : B → Z) l : increasing key (f <$> l) ↔ increasing (λ x, key (f x)) l.
Proof. unfold increasing. by rewrite <- list_fmap_compose. Qed.

Section segments.
Context (plans : list WriteSegmentPlan) (Hplans : increasing ws_number plans).

Lemma recorded_increasing parts segments : recorded plans parts segments → increasing wr_number segments.
Proof.
  intros Hr. apply (increasing_fmap seg_pair fst). unfold recorded in Hr. rewrite Hr.
  apply (increasing_fmap plan_pair fst). eapply increasing_sublist; [apply sublist_filter|done].
Qed.

Lemma recorded_elem parts segments x : recorded plans parts segments →
  x ∈ seg_pair <$> segments ↔ ∃ pl, x = plan_pair pl ∧ pl ∈ plans ∧ ws_archive_part_number pl ∈ sap_number <$> parts.
Proof.
  intros ->. rewrite list_elem_of_fmap. setoid_rewrite list_elem_of_filter. naive_solver.
Qed.

(** Joining receipts joins what they record. *)
Lemma recorded_join pc sc pd sd pe se : recorded plans pc sc → recorded plans pd sd → joins wr_number sc sd se →
  (∀ n, n ∈ sap_number <$> pe ↔ n ∈ sap_number <$> pc ∨ n ∈ sap_number <$> pd) → recorded plans pe se.
Proof.
  intros Hc Hd [Hi Hz] Hn.
  assert (increasing fst (seg_pair <$> se)) as Hinc by by apply increasing_fmap.
  assert (increasing fst (plan_pair <$> filter (λ pl, ws_archive_part_number pl ∈ sap_number <$> pe) plans)) as Hinc'.
  { apply increasing_fmap. eapply increasing_sublist; [apply sublist_filter|done]. }
  apply (increasing_unique fst); [done|done|]. apply NoDup_Permutation.
  - by eapply NoDup_fmap_1, increasing_nodup.
  - by eapply NoDup_fmap_1, increasing_nodup.
  - intros x. transitivity (x ∈ seg_pair <$> sc ∨ x ∈ seg_pair <$> sd).
    + rewrite !list_elem_of_fmap. setoid_rewrite Hz. naive_solver.
    + rewrite (recorded_elem _ _ _ Hc), (recorded_elem _ _ _ Hd), list_elem_of_fmap. setoid_rewrite list_elem_of_filter.
      setoid_rewrite Hn. naive_solver.
Qed.
End segments.

(** ** Progress that records units *)

(** The planned segments of the stored units. *)
Definition segment_plans `{ObjectStore} (us : list AgeAlignedUnitPlan) : result (list WriteSegmentPlan) :=
  plan_write_segments (ciphertext_len <$> us) write_constraints.

Definition segments_ok `{ObjectStore} (us : list AgeAlignedUnitPlan) (parts : list StoredArchivePart)
    (segments : list WriteSegmentReceipt) : Prop :=
  (parts = [] ∧ segments = []) ∨ ∃ plans, segment_plans us = Ok plans ∧ recorded plans parts segments.

Lemma segments_recorded `{ObjectStore} us parts segments plans : segments_ok us parts segments → segment_plans us = Ok plans →
  recorded plans parts segments.
Proof.
  intros [[-> ->]|(plans' & Hp & Hr)] Hp'; [|by rewrite Hp in Hp'; injection Hp' as <-].
  unfold recorded. rewrite fmap_nil. clear. induction plans as [|pl plans IH]; [done|]. by rewrite filter_cons_False by set_solver.
Qed.

Lemma laid_unique `{Aead} p units s us us' file file' : laid p units s us file → laid p units s us' file' → us = us' ∧ file = file'.
Proof.
  intros Ha Hb. pose proof (ld_units _ _ _ _ _ Ha). pose proof (ld_units _ _ _ _ _ Hb).
  pose proof (ld_file _ _ _ _ _ Ha). pose proof (ld_file _ _ _ _ _ Hb). split; congruence.
Qed.

Lemma session_unique `{PyEnv} `{Aead} passphrase scrypt_log_n p text s s' : session_text passphrase scrypt_log_n p text s →
  session_text passphrase scrypt_log_n p text s' → s = s'.
Proof. intros (? & ? & ? & ? & _ & _ & _ & _ & _ & _ & _ & _ & _ & Ha) (? & ? & ? & ? & _ & _ & _ & _ & _ & _ & _ & _ & _ & Hb). congruence. Qed.

Section session.
Context `{PyEnv} `{Aead} `{ObjectStore} (p : pybytes) (units : ResumableAgeScryptSession → result (list AgeAlignedUnitPlan)).
Context (s : ResumableAgeScryptSession) (us : list AgeAlignedUnitPlan) (file : pybytes) (Hlaid : laid p units s us file).

Lemma contents_lengths : len <$> (stored file <$> us) = ciphertext_len <$> us.
Proof.
  pose proof (ld_lengths _ _ _ _ _ Hlaid) as Hl. clear -Hl. induction Hl as [|u us (Hu & _) _ IH]; [done|].
  rewrite !fmap_cons. by rewrite Hu, IH.
Qed.

Lemma plans_increasing plans : segment_plans us = Ok plans → increasing ws_number plans.
Proof.
  intros Hp. destruct (plan_write_segments_spec _ _ _ _ Hp contents_lengths) as (_ & Hn & _). by eapply increasing_range.
Qed.

Lemma plan_number plans pl : segment_plans us = Ok plans → pl ∈ plans → 1 ≤ ws_number pl.
Proof.
  intros Hp Hin. destruct (plan_write_segments_spec _ _ _ _ Hp contents_lengths) as (_ & Hn & _).
  assert (ws_number pl ∈ seqZ 1 (len plans)) as Hr%elem_of_seqZ by (rewrite <- Hn; by apply list_elem_of_fmap_2). lia.
Qed.

Lemma plans_concat plans : segment_plans us = Ok plans →
  concat (segment_bytes (stored file <$> us) <$> plans) = file.
Proof.
  intros Hp. destruct (plan_write_segments_spec _ _ _ _ Hp contents_lengths) as (-> & _). apply Hlaid.
Qed.

(** A planned segment is a range of one stored unit. *)
Lemma plan_unit plans pl : segment_plans us = Ok plans → pl ∈ plans →
  ∃ u, u ∈ us ∧ ws_archive_part_number pl = au_unit_number u ∧
    segment_bytes (stored file <$> us) pl =
      slice (ws_archive_part_offset pl) (ws_archive_part_offset pl + ws_stored_bytes pl) (stored file u) ∧
    len (segment_bytes (stored file <$> us) pl) = ws_stored_bytes pl ∧ 1 ≤ ws_stored_bytes pl.
Proof.
  intros Hp Hin. pose proof (plan_segments_inside _ _ _ Hp) as Hall. rewrite Forall_forall in Hall.
  destruct (Hall pl Hin) as (i & total & Hi & Hn & Hs & Ho & Ht). rewrite list_lookup_fmap in Hi.
  destruct (us !! i) as [u|] eqn:Hu; [|done]. injection Hi as <-. exists u.
  pose proof (ld_lengths _ _ _ _ _ Hlaid) as Hl. rewrite Forall_forall in Hl.
  destruct (Hl u (list_elem_of_lookup_2 _ _ _ Hu)) as (Hlen & _).
  assert (segment_bytes (stored file <$> us) pl =
    slice (ws_archive_part_offset pl) (ws_archive_part_offset pl + ws_stored_bytes pl) (stored file u)) as Hb.
  { unfold segment_bytes. rewrite Hn. replace (Z.to_nat (1 + Z.of_nat i - 1)) with i by lia. f_equal.
    apply nth_lookup_Some. by rewrite list_lookup_fmap, Hu. }
  split_and!; [by eapply list_elem_of_lookup_2| |done|rewrite Hb, len_slice; lia|done].
  by rewrite (unit_at _ _ _ _ _ Hlaid i u Hu).
Qed.

Lemma recorded_all plans segments : segment_plans us = Ok plans → recorded plans (part_of p file <$> us) segments →
  seg_pair <$> segments = plan_pair <$> plans.
Proof.
  intros Hp ->. f_equal. apply filter_all, Forall_forall. intros pl Hin.
  destruct (plan_unit plans pl Hp Hin) as (u & Hu & -> & _). rewrite <- list_fmap_compose.
  by apply (list_elem_of_fmap_2 (sap_number ∘ part_of p file) us u).
Qed.

(** All segments together have the bytes of all parts. *)
Lemma sealed_sums plans segments : segment_plans us = Ok plans → recorded plans (part_of p file <$> us) segments →
  sumZ wr_bytes segments = sumZ sap_stored_bytes (part_of p file <$> us).
Proof.
  intros Hp Hr. pose proof (recorded_all plans segments Hp Hr) as Hall.
  assert (sumZ wr_bytes segments = sumZ ws_stored_bytes plans) as ->.
  { apply (f_equal (fmap snd)) in Hall. rewrite <- !list_fmap_compose in Hall.
    assert (∀ A (f : A → Z) l, sumZ f l = sumZ (λ x, x) (f <$> l)) as Hs by (intros A f l; induction l as [|x l IH]; [done|];
      rewrite fmap_cons, !sumZ_cons; lia).
    rewrite (Hs _ wr_bytes), (Hs _ ws_stored_bytes). f_equal. exact Hall. }
  assert (∀ l, (∀ pl, pl ∈ l → pl ∈ plans) → sumZ ws_stored_bytes l = len (concat (segment_bytes (stored file <$> us) <$> l))) as Hl.
  { induction l as [|pl l IH]; intros Hsub; [done|]. rewrite fmap_cons. cbn [concat]. rewrite sumZ_cons, len_app, IH by set_solver.
    by destruct (plan_unit plans pl Hp ltac:(set_solver)) as (_ & _ & _ & _ & -> & _). }
  rewrite (Hl plans) by done. rewrite (plans_concat plans Hp). symmetry. by apply (stored_total _ _ _ _ _ Hlaid).
Qed.
Lemma file_nonempty : 1 ≤ len file.
Proof.
  rewrite <- (ld_stored _ _ _ _ _ Hlaid). pose proof (ld_nonempty _ _ _ _ _ Hlaid) as Hn. pose proof (ld_lengths _ _ _ _ _ Hlaid) as Hlens.
  destruct us as [|u us']; [done|]. apply Forall_cons in Hlens as [(Hu & Hone & _) _]. rewrite fmap_cons. cbn [concat].
  rewrite len_app. pose proof (len_nonneg (concat (stored file <$> us'))). lia.
Qed.

Lemma coverage_chain l n start : au_unit_number <$> l = rangeZ n (n + len l) → contiguous start l →
  foldM coverage_part_step (n, start) (part_of p file <$> l) = Ok (n + len l, start + sumZ plaintext_len l).
Proof.
  clear Hlaid. revert n start. induction l as [|u l IH]; intros n start Hn Hc.
  - rewrite len_nil. cbn [fmap list_fmap foldM]. change (sumZ _ []) with 0. by rewrite !Z.add_0_r.
  - rewrite fmap_cons, len_cons, rangeZ_cons in Hn by (pose proof (len_nonneg l); lia). injection Hn as Hu Hn.
    destruct Hc as [Hs Hc]. rewrite fmap_cons. cbn [foldM]. unfold coverage_part_step at 2. cbn [sap_number sap_plaintext_start sap_plaintext_bytes part_of].
    rewrite Hu, Hs, !Z.eqb_refl. cbn [negb orb]. rewrite ok_bind, len_cons, sumZ_cons.
    replace (start + plaintext_len u) with (au_plaintext_end u) by (unfold plaintext_len; lia).
    rewrite (IH (n + 1) (au_plaintext_end u)); [do 2 f_equal; unfold plaintext_len; lia| |exact Hc]. rewrite Hn. f_equal. lia.
Qed.

Lemma all_covered : _require_complete_coverage (part_of p file <$> us) (len p) = Ok tt.
Proof.
  unfold _require_complete_coverage. rewrite (coverage_chain us 1 0), ok_bind by apply Hlaid.
  rewrite Z.add_0_l, (plain_sum p units s us file Hlaid us) by done. by rewrite (ld_plain _ _ _ _ _ Hlaid), Z.eqb_refl.
Qed.

(** The receipts describe the file and the plaintext. *)
Lemma stored_as_file : stored_as (part_of p file <$> us) file.
Proof.
  exists (stored file <$> us). split; [|by rewrite (ld_stored _ _ _ _ _ Hlaid)]. apply Forall2_fmap, Forall_Forall2_diag.
  eapply Forall_impl; [exact (ld_lengths _ _ _ _ _ Hlaid)|]. by intros u (Hu & _).
Qed.

Lemma plaintext_as_file : plaintext_as (part_of p file <$> us) p.
Proof.
  exists (plain p <$> us). split; [|by rewrite (ld_plain _ _ _ _ _ Hlaid)]. apply Forall2_fmap, Forall_Forall2_diag.
  eapply Forall_impl; [exact (ld_lengths _ _ _ _ _ Hlaid)|]. by intros u (_ & _ & Hu & _).
Qed.

(** A checkpoint whose progress consists of receipts of these units. *)
Record lays (c : RawUploadCheckpoint) : Prop := {
  ly_progress : progress_valid c;
  ly_bytes : rk_plaintext_bytes c = len p;
  ly_parts : parts_of_units p us file (rk_archive_parts c);
  ly_segments : segments_ok us (rk_archive_parts c) (rk_write_segments c);
  ly_receipts : Forall segment_valid (rk_write_segments c);
  ly_completed : ∀ k, rk_completed c = Some k → completed_valid k;
}.

Lemma lays_order c : lays c → parts_in_order 0 0 (rk_archive_parts c).
Proof. intros Hc. apply (units_parts_order p units s us file Hlaid); apply Hc. Qed.

(** Completed receipts cover all units. *)
Lemma lays_units c k : lays c → rk_completed c = Some k → rk_archive_parts c = part_of p file <$> us ∧ cr_bytes k = len file.
Proof.
  intros Hc Hk. pose proof (pg_completed _ (ly_progress _ Hc)) as Hdone. unfold completed_ok in Hdone.
  rewrite Hk, (ly_bytes _ Hc) in Hdone. destruct Hdone as [Hcov Hsum]. destruct (ly_completed _ Hc k Hk) as (_ & _ & Hone & _).
  assert (rk_archive_parts c = part_of p file <$> us) as Hall.
  { apply (coverage_all _ _ _ _ _ Hlaid); [apply Hc| |done]. intros He. rewrite He in Hsum. change (sumZ _ []) with 0 in Hsum. lia. }
  split; [done|]. rewrite Hsum, Hall. by apply (stored_total _ _ _ _ _ Hlaid).
Qed.

(** All recorded segments of a checkpoint with all parts. *)
Lemma lays_plans c : lays c → rk_archive_parts c = part_of p file <$> us →
  ∃ plans, segment_plans us = Ok plans ∧ recorded plans (part_of p file <$> us) (rk_write_segments c).
Proof.
  intros Hc Hall. destruct (ly_segments _ Hc) as [[Hnil _]|(plans & Hp & Hr)]; [|rewrite Hall in Hr; by exists plans].
  pose proof (ld_nonempty _ _ _ _ _ Hlaid). destruct us; [done|by rewrite Hnil in Hall].
Qed.

Lemma lays_sums c k : lays c → rk_completed c = Some k → cr_bytes k = sumZ wr_bytes (rk_write_segments c).
Proof.
  intros Hc Hk. destruct (lays_units c k Hc Hk) as [Hall ->]. destruct (lays_plans c Hc Hall) as (plans & Hp & Hr).
  rewrite (sealed_sums plans _ Hp Hr). symmetry. by apply (stored_total _ _ _ _ _ Hlaid).
Qed.

(** As many stored bytes as the file has: all parts. *)
Lemma lays_all c : lays c → sumZ sap_stored_bytes (rk_archive_parts c) = len file → rk_archive_parts c = part_of p file <$> us.
Proof.
  intros Hc Hsum. pose proof (ly_parts _ Hc) as Hparts. symmetry. apply stored_sum_fixed.
  - apply Hc.
  - apply increasing_fmap. eapply increasing_range. exact (ld_numbers _ _ _ _ _ Hlaid).
  - intros part Hin. unfold parts_of_units in Hparts. rewrite Forall_forall in Hparts.
    destruct (Hparts part Hin) as (u & Hu & ->). by apply list_elem_of_fmap_2.
  - apply Forall_fmap. eapply Forall_impl; [exact (ld_lengths _ _ _ _ _ Hlaid)|]. intros u (_ & Hu & _). done.
  - rewrite Hsum. by apply (stored_total _ _ _ _ _ Hlaid).
Qed.

(** Numbers of all units: all parts. *)
Lemma lays_numbers c : lays c → sap_number <$> rk_archive_parts c = au_unit_number <$> us →
  rk_archive_parts c = part_of p file <$> us.
Proof.
  intros Hc E. assert (len (rk_archive_parts c) = len us) as Hlen by (apply (f_equal len) in E; by rewrite !len_fmap in E).
  rewrite (contiguous_units p units s us file Hlaid (rk_archive_parts c) (ly_parts _ Hc)) at 1.
  - f_equal. apply take_ge. unfold len in Hlen. lia.
  - by rewrite E, (ld_numbers _ _ _ _ _ Hlaid), Hlen.
Qed.

(** Merging. *)
Lemma lays_merge c d e : lays c → lays d → merges c d e → lays e.
Proof.
  intros Hc Hd Hm. destruct (mg_parts _ _ _ Hm) as [_ Hzp]. destruct (mg_segments _ _ _ Hm) as [_ Hzs]. split.
  - exact (merges_valid c d e (ly_progress _ Hc) (ly_progress _ Hd) Hm).
  - rewrite <- (ly_bytes _ Hc). pose proof (mg_static _ _ _ Hm) as Hst. destruct c, e. unfold static_fields in Hst. cbn in *. by simplify_eq.
  - pose proof (ly_parts _ Hc) as Hp. pose proof (ly_parts _ Hd) as Hp'. unfold parts_of_units in *.
    rewrite Forall_forall in *. intros part [Hin|Hin]%Hzp; auto.
  - assert (∀ n, n ∈ sap_number <$> rk_archive_parts e ↔
      n ∈ sap_number <$> rk_archive_parts c ∨ n ∈ sap_number <$> rk_archive_parts d) as Hn.
    { intros n. rewrite !list_elem_of_fmap. setoid_rewrite Hzp. naive_solver. }
    pose proof (ly_segments _ Hc) as Hsegs. pose proof (ly_segments _ Hd) as Hsegs'.
    destruct (segment_plans us) as [plans|err] eqn:Hp.
    + right. exists plans. split; [done|]. eapply (recorded_join plans); [by eapply plans_increasing| | |apply Hm|exact Hn].
      * by apply (segments_recorded us).
      * by apply (segments_recorded us).
    + left. destruct Hsegs as [[Ha Hb]|(? & ? & _)]; [|congruence]. destruct Hsegs' as [[Ha' Hb']|(? & ? & _)]; [|congruence].
      rewrite Ha, Ha' in Hzp. rewrite Hb, Hb' in Hzs.
      split; apply elem_of_nil_inv; intros z Hz; [apply Hzp in Hz|apply Hzs in Hz]; set_solver.
  - pose proof (ly_receipts _ Hc) as Hv. pose proof (ly_receipts _ Hd) as Hv'.
    rewrite Forall_forall in *. intros r [Hin|Hin]%Hzs; auto.
  - intros k Hk. rewrite (mg_completed _ _ _ Hm) in Hk.
    destruct (rk_completed c) eqn:Hkc; cbn in Hk; [injection Hk as ->; by apply (ly_completed _ Hc)|by apply (ly_completed _ Hd)].
Qed.

(** Completing. *)
Definition sealed_with (c : RawUploadCheckpoint) (receipt : CompletedObjectReceipt) : RawUploadCheckpoint :=
  with_progress c (rk_next_part c) (rk_archive_parts c) (rk_write_segments c)
    (Some {| cr_revision := co_revision receipt; cr_entity_token := co_entity_token receipt; cr_bytes := co_bytes receipt;
             cr_completed_at := co_completed_at receipt; cr_retrieval_cache := co_retrieval_cache receipt |}).

Lemma lays_mark c receipt : lays c → completion_ok receipt → co_bytes receipt = len file →
  sumZ sap_stored_bytes (rk_archive_parts c) = len file → lays (sealed_with c receipt).
Proof.
  intros Hc (Hrev & Hent & Hat & Hcache) Hbytes Hsum. pose proof (lays_all c Hc Hsum) as Hall. pose proof (ly_progress _ Hc) as Hg.
  split; try apply Hc.
  - split; try apply Hg. unfold completed_ok, sealed_with. cbn [rk_completed with_progress rk_archive_parts rk_plaintext_bytes cr_bytes].
    rewrite (ly_bytes _ Hc), Hall, Hbytes. split; [apply all_covered|]. symmetry. by apply (stored_total _ _ _ _ _ Hlaid).
  - intros k [= <-]. pose proof file_nonempty. destruct Hat. split_and!; cbn; try done; lia.
Qed.

(** A new part with its segments. *)
Definition extended (c : RawUploadCheckpoint) (u : AgeAlignedUnitPlan) (segments : list WriteSegmentReceipt) : RawUploadCheckpoint :=
  let parts := rk_archive_parts c ++ [part_of p file u] in
  with_progress c (_first_missing_part parts) (sorted_byZ sap_number parts) segments (rk_completed c).

Lemma lays_record c u receipts segments plans : lays c → rk_completed c = None → u ∈ us →
  au_unit_number u ∉ sap_number <$> rk_archive_parts c → segment_plans us = Ok plans →
  recorded plans [part_of p file u] receipts → Forall segment_valid receipts →
  _merge_write_segments (rk_write_segments c) receipts = Ok segments → lays (extended c u segments).
Proof.
  intros Hc Hnone Hu Hnew Hp Hr Hvalid Hm. pose proof (ly_progress _ Hc) as Hg. unfold _merge_write_segments in Hm.
  apply merge_by_iff in Hm as [_ Hj]; [|apply Hg|by eapply recorded_increasing; [eapply plans_increasing|]].
  unfold extended. set (parts := rk_archive_parts c ++ [part_of p file u]). cbv zeta.
  pose proof (sorted_byZ_perm sap_number parts) as Hperm. split; cbn; try apply Hc.
  - split; cbn [rk_archive_parts with_progress rk_write_segments rk_next_part].
    + apply sorted_byZ_increasing. unfold parts. rewrite fmap_app. apply NoDup_app. split_and!.
      * apply increasing_nodup, Hg.
      * intros n Hn Hn'. cbn in Hn'. apply list_elem_of_singleton in Hn' as ->. by apply Hnew.
      * apply NoDup_singleton.
    + rewrite Hperm. apply Forall_app. split; [apply Hg|]. repeat constructor. cbn.
      pose proof (ld_lengths _ _ _ _ _ Hlaid) as Hlens. rewrite Forall_forall in Hlens. by destruct (Hlens u Hu) as (_ & ? & _).
    + apply Hj.
    + by rewrite Hperm.
    + unfold completed_ok. cbn. by rewrite Hnone.
  - unfold parts_of_units. rewrite Hperm. apply Forall_app. split; [apply Hc|]. repeat constructor. by exists u.
  - right. exists plans. split; [done|]. eapply (recorded_join plans); [by eapply plans_increasing| |exact Hr|exact Hj|].
    + apply (segments_recorded us); [apply Hc|done].
    + intros n. rewrite Hperm. unfold parts. rewrite fmap_app, elem_of_app. done.
  - pose proof (ly_receipts _ Hc) as Hv. rewrite Forall_forall in *. intros r [Hin|Hin]%(proj2 Hj); auto.
Qed.
(** ** One unit after the other *)

Lemma expected_bytes_ok prefix : ∃ n, age_ciphertext_len_for_plaintext_len (len p) prefix = Ok n.
Proof.
  pose proof (ld_file _ _ _ _ _ Hlaid) as Hf. unfold encrypt_plaintext in Hf. apply bind_Ok in Hf as (chunks & Hc & _).
  unfold age_ciphertext_len_for_plaintext_len. rewrite (proj2 (Z.ltb_ge (len p) 0)) by apply len_nonneg.
  rewrite Hc, ok_bind. by eexists.
Qed.

Lemma unit_new i u : us !! i = Some u → au_unit_number u ∉ sap_number <$> (part_of p file <$> take i us).
Proof.
  intros Hi Hin. rewrite <- list_fmap_compose in Hin. apply list_elem_of_fmap in Hin as (v & Hn & Hv). cbn in Hn.
  apply list_elem_of_lookup in Hv as [j Hj]. apply lookup_take_Some in Hj as [Hj Hlt].
  pose proof (unit_at p units s us file Hlaid i u Hi). pose proof (unit_at p units s us file Hlaid j v Hj). lia.
Qed.

Lemma next_after i u : us !! i = Some u → _first_missing_part (part_of p file <$> take i us) = Z.of_nat i.
Proof.
  intros Hi. pose proof (unit_at p units s us file Hlaid i u Hi) as Hn. apply first_missing_unique; [lia| |].
  - intros n Hrange. destruct (lookup_lt_is_Some_2 us (Z.to_nat (n - 1))) as [x Hx]; [apply lookup_lt_Some in Hi; lia|].
    rewrite <- list_fmap_compose. apply list_elem_of_fmap. exists x.
    pose proof (unit_at p units s us file Hlaid _ x Hx) as Hnx. split; [cbn; lia|].
    apply list_elem_of_lookup. exists (Z.to_nat (n - 1)). rewrite lookup_take_lt by lia. done.
  - replace (Z.of_nat i + 1) with (au_unit_number u) by lia. by apply unit_new.
Qed.

Lemma new_segments plans c i u receipts : segment_plans us = Ok plans → lays c → us !! i = Some u →
  rk_archive_parts c = part_of p file <$> take i us → recorded plans [part_of p file u] receipts →
  ∀ r, r ∈ rk_write_segments c → wr_number r ∉ wr_number <$> receipts.
Proof.
  intros Hplans Hc Hi Hparts Hrec r Hr Hin.
  pose proof (segments_recorded _ _ _ _ (ly_segments _ Hc) Hplans) as Hold. apply list_elem_of_fmap in Hin as (r' & Hn & Hr').
  apply (list_elem_of_fmap_2 seg_pair) in Hr, Hr'. apply (recorded_elem _ _ _ _ Hold) in Hr as (pl & He & Hpl & Hpart).
  apply (recorded_elem _ _ _ _ Hrec) in Hr' as (pl' & He' & Hpl' & Hpart'). injection He as He _. injection He' as He' _.
  assert (pl = pl') as <- by (apply (increasing_key_inj ws_number plans); [by eapply plans_increasing|done|done|lia]).
  rewrite Hparts in Hpart. apply list_elem_of_singleton in Hpart'. cbn in Hpart'. rewrite Hpart' in Hpart.
  by apply (unit_new i u).
Qed.

Lemma extended_parts c i u segments : us !! i = Some u → rk_archive_parts c = part_of p file <$> take i us →
  rk_archive_parts (extended c u segments) = part_of p file <$> take (S i) us.
Proof.
  intros Hi Hparts. unfold extended. cbn [rk_archive_parts with_progress]. cbv zeta. rewrite Hparts.
  replace ((part_of p file <$> take i us) ++ [part_of p file u]) with (part_of p file <$> take (S i) us)
    by by rewrite (take_S_r _ _ _ Hi), fmap_app.
  apply sorted_byZ_id, increasing_fmap. eapply increasing_sublist; [apply sublist_take|].
  eapply increasing_range. exact (ld_numbers _ _ _ _ _ Hlaid).
Qed.
End session.

(** ** Good checkpoints *)

(** The arguments of [open]. *)
Record Request := {
  rq_collection_id : Z;
  rq_plan : RawVolumePlan;
  rq_object_path : pystr;
  rq_relative_path : pystr;
  rq_target : Z;
  rq_expected : list pystr;
}.

Record request_ok `{PyEnv} (q : Request) (p : pybytes) : Prop := {
  ro_collection : 1 ≤ rq_collection_id q;
  ro_sequence : segment_sequence (rv_volume_id (rq_plan q)) = Ok (rv_sequence (rq_plan q));
  ro_object : rq_object_path q ≠ [] ∧ text_ok (rq_object_path q);
  ro_relative : normalize_relpath (rq_relative_path q) = Ok (rq_relative_path q) ∧ text_ok (rq_relative_path q);
  ro_source : normalize_relpath (rv_source_path (rq_plan q)) = Ok (rv_source_path (rq_plan q)) ∧
              text_ok (rv_source_path (rq_plan q));
  ro_range : 0 ≤ rv_file_offset (rq_plan q) ∧
             rv_file_offset (rq_plan q) + rv_plaintext_bytes (rq_plan q) ≤ rv_file_bytes (rq_plan q);
  ro_sha256 : sha256_fullmatch (rv_file_sha256 (rq_plan q)) = true;
  ro_target : CHUNK_SIZE ≤ rq_target q ∧ rq_target q mod CHUNK_SIZE = 0;
  ro_bytes : rv_plaintext_bytes (rq_plan q) = len p;
  ro_limit : len p ≤ 2 ^ 53;
  ro_digests : rq_expected q = [] ∨ rq_expected q = unit_digests p (rq_target q);
}.

Section good.
Context `{PyEnv} `{Aead} `{ObjectStore} (passphrase : pystr) (scrypt_log_n : Z) (q : Request) (p : pybytes).
Context (Hq : request_ok q p).

Notation laid := (laid p (raw_units p (rq_target q))).
Notation session_text := (session_text passphrase scrypt_log_n p).

Definition static_of (c : RawUploadCheckpoint) : Prop :=
  rk_collection_id c = rq_collection_id q ∧ rk_volume_id c = rv_volume_id (rq_plan q) ∧
  rk_object_path c = rq_object_path q ∧ rk_relative_path c = rq_relative_path q ∧
  rk_source_path c = rv_source_path (rq_plan q) ∧ rk_file_offset c = rv_file_offset (rq_plan q) ∧
  rk_plaintext_bytes c = rv_plaintext_bytes (rq_plan q) ∧ rk_file_bytes c = rv_file_bytes (rq_plan q) ∧
  rk_file_sha256 c = rv_file_sha256 (rq_plan q) ∧ rk_target_part_plaintext_bytes c = rq_target q ∧
  rk_expected_part_sha256s c = rq_expected q.

(** A checkpoint of this upload, with receipts of the units that the plaintext
    has under its session. *)
Record good (c : RawUploadCheckpoint) : Prop := {
  gd_valid : checkpoint_valid c;
  gd_static : static_of c;
  gd_layout : ∃ s us file, session_text (rk_age_state_json c) s ∧ laid s us file ∧ lays p us file c;
}.

(** What is left to show of a checkpoint with the static fields of a good one. *)
Lemma static_transfer c e : static_fields e = static_fields c → checkpoint_valid c → progress_valid e →
  parts_in_order 0 0 (rk_archive_parts e) → Forall segment_valid (rk_write_segments e) →
  from_option (λ k, completed_valid k ∧ cr_bytes k = sumZ wr_bytes (rk_write_segments e)) True (rk_completed e) →
  checkpoint_valid e.
Proof.
  intros Hst Hc Hg Hp Hs Hk. destruct Hc. destruct c, e. unfold static_fields in Hst. cbn in *. simplify_eq. by split.
Qed.

Lemma static_of_eq c e : static_fields e = static_fields c → static_of c → static_of e.
Proof. destruct c, e. unfold static_fields, static_of. cbn. intros. by simplify_eq. Qed.

Lemma static_text c e : static_fields e = static_fields c → rk_age_state_json e = rk_age_state_json c.
Proof. destruct c, e. unfold static_fields. cbn. intros. by simplify_eq. Qed.

Lemma good_intro c e s us file : good c → static_fields e = static_fields c → session_text (rk_age_state_json c) s →
  laid s us file → lays p us file e → good e.
Proof.
  intros [Hv Hst _] Hse Hs Hl He. split; [|by eapply static_of_eq|].
  2: { exists s, us, file. by rewrite (static_text _ _ Hse). }
  apply (static_transfer c e); [done|done|apply He|by apply (lays_order p _ s us file Hl)|apply He|].
  destruct (rk_completed e) as [k|] eqn:Hk; [|done]. cbn. split; [by apply (ly_completed _ _ _ _ He)|].
  by apply (lays_sums p _ s us file Hl).
Qed.

(** Merging good checkpoints gives a good checkpoint. *)
Lemma merge_good c d e : good c → good d → merge_raw_upload_checkpoints c d = Ok e → good e.
Proof.
  intros Hc Hd Hm. apply merge_iff in Hm; [|apply (kv_progress _ (gd_valid _ Hc))|apply (kv_progress _ (gd_valid _ Hd))].
  destruct (gd_layout _ Hc) as (s & us & file & Hs & Hl & Hlc). destruct (gd_layout _ Hd) as (s' & us' & file' & Hs' & Hl' & Hld).
  rewrite <- (static_text _ _ (mg_same _ _ _ Hm)) in Hs'. pose proof (session_unique _ _ _ _ _ _ Hs Hs') as <-.
  destruct (laid_unique _ _ _ _ _ _ _ Hl Hl') as [<- <-].
  apply (good_intro c e s us file); [done|apply Hm|done|done|]. by apply (lays_merge p _ s us file Hl c d e).
Qed.
End good.
