(* ===== verification/UploadStore.v ===== *)
(** * What the object store holds for an upload

    The part of the safety argument that raw and pack uploads share: an upload is
    a plaintext with its units, a path, the metadata of its writes and a kind of
    checkpoints.  The invariant says that whatever segments the store has are
    planned ranges of the age file and that an object at the path is that file;
    triples say that a call keeps it, and each operation of the store has one. *)

From stdpp Require Import gmap.
From S2P Require Import Prelude Text Json WriteSegments Sha256 Paths Domain PackIngress RawVolume Crypto Base64.
From S2P Require Import Age AgeUnits AgeRange StreamingAge ArchiveContracts RawVerification RawCheckpoint.
From S2P Require Import RawUpload UploadLayout.

(** One volume and its checkpoints of type [C]. *)
Record upload (C : Type) := {
  up_passphrase : pystr;
  up_log_n : Z;
  up_plain : pybytes;
  up_units : ResumableAgeScryptSession → result (list AgeAlignedUnitPlan);
  up_path : pystr;
  up_content_type : pystr;
  up_meta : pystr → result metadata;
  up_good : C → Prop;
  up_token : C → pystr;
  up_text : C → pystr;
  up_done : C → Prop;
  up_row : UploadRow → C → Prop;
}.
Arguments up_passphrase {C}.
Arguments up_log_n {C}.
Arguments up_plain {C}.
Arguments up_units {C}.
Arguments up_path {C}.
Arguments up_content_type {C}.
Arguments up_meta {C}.
Arguments up_good {C}.
Arguments up_token {C}.
Arguments up_text {C}.
Arguments up_done {C}.
Arguments up_row {C}.

(** The metadata of two writes differ only in the digest of the state. *)
Definition meta_determined {C} (up : upload C) : Prop := ∀ text text' m m',
  up_meta up text = Ok m → up_meta up text' = Ok m' → m ≡ₚ m' → m = m'.

Section store.
Context `{PyEnv} `{Aead} `{StoreContract} {C : Type} (up : upload C) (Hmeta : meta_determined up).

Notation p := (up_plain up).
Notation laid := (laid p (up_units up)).
Notation session_text := (session_text (up_passphrase up) (up_log_n up) p).
Notation object_path := (up_path up).
Notation meta_of := (up_meta up).

(** ** The invariant *)

(** The age file of the plaintext under the session of [text]. *)
Definition file_at (text : pystr) (file : pybytes) : Prop := ∃ s us, session_text text s ∧ laid s us file.

(** Whatever segment the store has is the planned one. *)
Definition right_segments (text : pystr) (segments : gmap Z pybytes) : Prop :=
  ∀ n content, segments !! n = Some content → ∃ s us file plans pl,
    session_text text s ∧ laid s us file ∧ segment_plans us = Ok plans ∧ pl ∈ plans ∧ ws_number pl = n ∧
    content = segment_bytes (stored file <$> us) pl.

(** [tokens] gives the session that a write was begun for. *)
Record store_inv (tokens : gmap pystr pystr) (st : ost) : Prop := {
  iv_tokens : ∀ t text, tokens !! t = Some text → (∃ s, session_text text s) ∧
    ∃ v, writes st !! t = Some v ∧ wv_path v = object_path ∧ meta_of text = Ok (wv_metadata v) ∧
      right_segments text (wv_segments v);
  iv_unique : ∀ t t' text text', tokens !! t = Some text → tokens !! t' = Some text' →
    meta_of text = meta_of text' → text = text';
  iv_object : ∀ o, objects st !! object_path = Some o → ∃ t text,
    tokens !! t = Some text ∧ file_at text (ov_content o) ∧ meta_of text = Ok (ov_metadata o);
}.

Definition sealed (st : ost) (text : pystr) : Prop :=
  ∃ o, objects st !! object_path = Some o ∧ file_at text (ov_content o).

(** What is known of a checkpoint that a caller holds. *)
Record held (tokens : gmap pystr pystr) (st : ost) (c : C) : Prop := {
  hd_good : up_good up c;
  hd_token : tokens !! up_token up c = Some (up_text up c);
  hd_sealed : up_done up c → sealed st (up_text up c);
}.

Record inv (tokens : gmap pystr pystr) (w : world) : Prop := {
  iv_store : store_inv tokens (w_store w);
  iv_row : ∀ r c, w_row w = Some r → up_row up r c → held tokens (w_store w) c;
}.

(** An object that is there stays. *)
Definition stays (st st' : ost) : Prop := ∀ o, objects st !! object_path = Some o → objects st' !! object_path = Some o.

#[export] Instance stays_preorder : PreOrder stays.
Proof. split; [by intros st o|]. intros a b c Hab Hbc o Ho. auto. Qed.

Lemma sealed_stays st st' text : stays st st' → sealed st text → sealed st' text.
Proof. intros Hs (o & Ho & Hf). exists o. auto. Qed.

Lemma held_stays tokens st st' c : stays st st' → held tokens st c → held tokens st' c.
Proof. intros Hs [Hg Ht Hd]. split; [done|done|]. intros Hk. by eapply sealed_stays; [|apply Hd]. Qed.

Lemma held_tokens tokens tokens' st c : tokens ⊆ tokens' → held tokens st c → held tokens' st c.
Proof. intros Hs [Hg Ht Hd]. split; [done| |done]. by eapply lookup_weaken. Qed.

Lemma unchanged_stays st st' : unchanged st st' → stays st st'.
Proof. intros [_ Ho] o. by rewrite Ho. Qed.

Lemma unchanged_inv tokens st st' : unchanged st st' → store_inv tokens st → store_inv tokens st'.
Proof. intros [Hw Ho] []. split; rewrite ?Hw, ?Ho; done. Qed.

(** A receipt of an object with the metadata of a session is of its file. *)
Lemma matches_sealed tokens st t text content_type m receipt : store_inv tokens st → tokens !! t = Some text →
  meta_of text = Ok m → matches object_path content_type m receipt st →
  ∃ o, objects st !! object_path = Some o ∧ file_at text (ov_content o) ∧ co_bytes receipt = len (ov_content o).
Proof.
  intros Hi Ht Hm (o & Ho & _ & Hp & Hb). exists o. destruct (iv_object _ _ Hi o Ho) as (t' & text' & Ht' & Hf & Hm').
  pose proof (Hmeta _ _ _ _ Hm' Hm Hp) as He. assert (text' = text) as ->; [|done].
  apply (iv_unique _ _ Hi t' t); [done|done|]. by rewrite Hm, Hm', He.
Qed.

(** ** The store operations keep the invariant *)

(** One write changes, its path and metadata do not. *)
Lemma update_inv tokens st st' t v segments : store_inv tokens st → writes st !! t = Some v → objects st' = objects st →
  writes st' = <[t := with_segments v segments]> (writes st) →
  (∀ text, tokens !! t = Some text → right_segments text segments) → store_inv tokens st'.
Proof.
  intros Hi Hv Ho Hw Hright. split.
  - intros t' text Ht'. destruct (iv_tokens _ _ Hi t' text Ht') as (Hs & v' & Hv' & Hp & Hm & Hr). split; [done|].
    rewrite Hw. destruct (decide (t = t')) as [<-|Hne]; [|rewrite lookup_insert_ne by done; eauto].
    rewrite lookup_insert_eq. assert (v' = v) as -> by congruence. eexists. split; [done|]. cbn. auto.
  - apply Hi.
  - rewrite Ho. apply Hi.
Qed.

Lemma written_inv tokens session number content st st' : store_inv tokens st → written session number content st st' →
  (∀ text, tokens !! wn_write_token session = Some text → right_segments text {[number := content]}) →
  store_inv tokens st' ∧ stays st st'.
Proof.
  intros Hi (v & Hv & Ho & Hw) Hright. split; [|intros o; by rewrite Ho].
  apply (update_inv tokens st st' _ v _ Hi Hv Ho Hw). intros text Ht n x Hx.
  apply lookup_insert_Some in Hx as [[<- <-]|[_ Hx]].
  - apply (Hright text Ht). apply lookup_singleton_eq.
  - destruct (iv_tokens _ _ Hi _ _ Ht) as (_ & v' & Hv' & _ & _ & Hr). assert (v' = v) as -> by congruence. by apply Hr.
Qed.

Lemma discarded_inv tokens session st st' : store_inv tokens st → discarded session st st' →
  store_inv tokens st' ∧ stays st st'.
Proof.
  intros Hi (v & Hv & Ho & Hw). split; [|intros o; by rewrite Ho].
  by apply (update_inv tokens st st' _ v _ Hi Hv Ho Hw).
Qed.

Lemma begun_inv tokens content_type m t text s st st' : store_inv tokens st → begun object_path content_type m t st st' →
  session_text text s → meta_of text = Ok m → (∀ t v, writes st !! t = Some v → ¬ wv_metadata v ≡ₚ m) →
  tokens ⊆ <[t := text]> tokens ∧ store_inv (<[t := text]> tokens) st' ∧ stays st st'.
Proof.
  intros Hi (Hnew & Ho & Hw) Hs Hm Hfresh. assert (tokens !! t = None) as Hnone.
  { destruct (tokens !! t) as [x|] eqn:Ht; [|done]. destruct (iv_tokens _ _ Hi t x Ht) as (_ & v & Hv & _). congruence. }
  assert (∀ t' text', tokens !! t' = Some text' → meta_of text' ≠ meta_of text) as Hdiff.
  { intros t' text' Ht' He. destruct (iv_tokens _ _ Hi t' text' Ht') as (_ & v & Hv & _ & Hm' & _).
    apply (Hfresh t' v Hv). assert (wv_metadata v = m) as -> by congruence. done. }
  split; [by apply insert_subseteq|]. split; [|intros o; by rewrite Ho]. split.
  - intros t' text' Ht'. rewrite Hw. apply lookup_insert_Some in Ht' as [[<- <-]|[Hne Ht']].
    + split; [by exists s|]. rewrite lookup_insert_eq. eexists. split; [done|]. cbn. split_and!; [done|done|]. intros n x Hx.
      by apply lookup_empty_Some in Hx.
    + rewrite lookup_insert_ne by done. by apply Hi.
  - intros t1 t2 x y Hx Hy He. apply lookup_insert_Some in Hx as [[<- <-]|[_ Hx]], Hy as [[<- <-]|[_ Hy]].
    + done.
    + by destruct (Hdiff t2 y Hy).
    + by destruct (Hdiff t1 x Hx).
    + by apply (iv_unique _ _ Hi t1 t2).
  - intros o. rewrite Ho. intros Hobj. destruct (iv_object _ _ Hi o Hobj) as (t' & text' & Ht' & Hf). exists t', text'.
    split; [|done]. rewrite lookup_insert_ne; [done|]. intros <-. congruence.
Qed.

(** All planned segments, in order, are the file. *)
Lemma segments_concat text s us file plans segments v contents : session_text text s → laid s us file →
  segment_plans us = Ok plans → right_segments text (wv_segments v) → seg_pair <$> segments = plan_pair <$> plans →
  Forall2 (λ r content, wv_segments v !! wr_number r = Some content) segments contents → concat contents = file.
Proof.
  intros Hs Hl Hp Hright Hpairs Hall. rewrite <- (plans_concat p _ s us file Hl plans Hp). f_equal.
  pose proof (plans_increasing p _ s us file Hl plans Hp) as Hinc.
  assert (∀ pl, pl ∈ plans → ∀ content, wv_segments v !! ws_number pl = Some content →
    content = segment_bytes (stored file <$> us) pl) as Hseg.
  { intros pl Hin content Hc. destruct (Hright _ _ Hc) as (s' & us' & file' & plans' & pl' & Hs' & Hl' & Hp' & Hin' & Hn & ->).
    pose proof (session_unique _ _ _ _ _ _ Hs Hs') as <-. destruct (laid_unique _ _ _ _ _ _ _ Hl Hl') as [<- <-].
    assert (plans' = plans) as -> by congruence. f_equal. by apply (increasing_key_inj ws_number plans). }
  clear Hinc Hright Hp. revert plans Hpairs Hseg. induction Hall as [|r content segments contents Hr _ IH];
    intros [|pl plans] Hpairs Hseg; try done. rewrite !fmap_cons in *. injection Hpairs as Hn Hb Hpairs. f_equal.
  - apply Hseg; [by left|]. by rewrite <- Hn.
  - apply IH; [done|]. intros pl' Hin. apply Hseg. by right.
Qed.

Lemma published_inv tokens session segments text s us file plans st st' : store_inv tokens st →
  published session segments st st' → wn_object_path session = object_path →
  tokens !! wn_write_token session = Some text → session_text text s → laid s us file → segment_plans us = Ok plans →
  seg_pair <$> segments = plan_pair <$> plans → store_inv tokens st' ∧ stays st st'.
Proof.
  intros Hi (v & contents & Hv & _ & Hall & Hnone & Hw & Ho) Hpath Ht Hs Hl Hp Hpairs. rewrite Hpath in *.
  destruct (iv_tokens _ _ Hi _ _ Ht) as (_ & v' & Hv' & _ & Hm & Hright). assert (v' = v) as -> by congruence.
  split; [|intros o Hobj; congruence]. split; try (rewrite Hw; apply Hi); [apply Hi|].
  intros o. rewrite Ho, lookup_insert_eq. intros [= <-]. exists (wn_write_token session), text. split; [done|]. cbn.
  split; [|done]. exists s, us. split; [done|].
  by rewrite (segments_concat text s us file plans segments v contents Hs Hl Hp Hright Hpairs Hall).
Qed.

(** ** Triples *)

(** From a world with the invariant and [P], the call keeps the invariant and
    the object; if it returns, [Q] holds. *)
Definition triple {A : Type} (tokens : gmap pystr pystr) (P : ost → Prop) (m : effect A) (Q : A → ost → Prop) : Prop :=
  ∀ w r w', inv tokens w → P (w_store w) → m w = (r, w') →
    inv tokens w' ∧ stays (w_store w) (w_store w') ∧ match r with Ok a => Q a (w_store w') | Err _ => True end.

Lemma triple_ret {A : Type} tokens (P : ost → Prop) (a : A) (Q : A → ost → Prop) : (∀ st, P st → Q a st) → triple tokens P (mret a) Q.
Proof. intros HQ w r w' Hi HP [= <- <-]. split; [done|]. split; [by intros o|]. by apply HQ. Qed.

Lemma triple_lift {A : Type} tokens (P : ost → Prop) (x : result A) (Q : A → ost → Prop) : (∀ a st, x = Ok a → P st → Q a st) →
  triple tokens P (lift x) Q.
Proof. intros HQ w r w' Hi HP [= <- <-]. split; [done|]. split; [by intros o|]. destruct x; [by apply HQ|done]. Qed.

Lemma triple_bind {A B : Type} tokens (P : ost → Prop) (m : effect A) (f : A → effect B) R Q : triple tokens P m R →
  (∀ a, triple tokens (R a) (f a) Q) → triple tokens P (m ≫= f) Q.
Proof.
  intros Hm Hf w r w' Hi HP Hrun. unfold mbind, effect_bind in Hrun. destruct (m w) as [[a|e] w1] eqn:Hw.
  - destruct (Hm _ _ _ Hi HP Hw) as (Hi1 & Hs1 & HR). destruct (Hf a _ _ _ Hi1 HR Hrun) as (Hi' & Hs' & HQ).
    split; [done|]. split; [by etrans|done].
  - injection Hrun as <- <-. destruct (Hm _ _ _ Hi HP Hw) as (Hi1 & Hs1 & _). done.
Qed.

Lemma triple_seq {A B : Type} tokens (P : ost → Prop) (m : effect A) (f : A → effect B) (R : A → Prop) Q :
  triple tokens P m (λ a _, R a) → (∀ a, R a → triple tokens (λ _, True) (f a) Q) → triple tokens P (m ≫= f) Q.
Proof.
  intros Hm Hf. eapply triple_bind; [exact Hm|]. intros a w r w' Hi Ha. by apply (Hf a Ha).
Qed.

(** A pure step first. *)
Lemma triple_pure {A B : Type} tokens (P : ost → Prop) (x : result A) (f : A → effect B) Q :
  (∀ a, x = Ok a → triple tokens P (f a) Q) → triple tokens P (lift x ≫= f) Q.
Proof.
  intros Hf. eapply (triple_bind _ _ _ _ (λ a st, x = Ok a ∧ P st)); [by apply triple_lift|].
  intros a w r w' Hi [Hx HP]. by apply Hf.
Qed.

Lemma triple_pre {A : Type} tokens (P P' : ost → Prop) (m : effect A) Q : (∀ st, P st → P' st) → triple tokens P' m Q → triple tokens P m Q.
Proof. intros HP Hm w r w' Hi Hw. apply Hm; [done|by apply HP]. Qed.

(** A call of the store: the row stays, and what is held too. *)
Lemma triple_ask {A : Type} tokens (P : ost → Prop) (call : ost → result A * ost) (Q : A → ost → Prop) :
  (∀ st r st', store_inv tokens st → P st → call st = (r, st') →
     store_inv tokens st' ∧ stays st st' ∧ match r with Ok a => Q a st' | Err _ => True end) →
  triple tokens P (ask call) Q.
Proof.
  intros Hc w r w' Hi HP Hrun. unfold ask in Hrun. destruct (call (w_store w)) as [x st'] eqn:Hcall. injection Hrun as <- <-.
  destruct (Hc _ _ _ (iv_store _ _ Hi) HP Hcall) as (Hi' & Hs & HQ). split; [|done]. split; [done|].
  intros row c Hr Hc'. eapply held_stays; [done|]. by eapply iv_row.
Qed.

Lemma triple_post {A : Type} tokens (P : ost → Prop) (m : effect A) (Q Q' : A → ost → Prop) : (∀ a st, Q' a st → Q a st) →
  triple tokens P m Q' → triple tokens P m Q.
Proof.
  intros HQ Hm w r w' Hi HP Hrun. destruct (Hm _ _ _ Hi HP Hrun) as (Hi' & Hs & Hr). split; [done|]. split; [done|].
  destruct r; [by apply HQ|done].
Qed.

Lemma triple_fact {A : Type} tokens (P : ost → Prop) (F : Prop) (m : effect A) Q : (∀ st, P st → F) →
  (F → triple tokens P m Q) → triple tokens P m Q.
Proof. intros HF Hm w r w' Hi HP. apply Hm; [by eapply HF|done|done]. Qed.

(** ** Saving *)

(** A merge into the row whose result is read back: the row then keeps what the
    caller is given. *)
Lemma triple_merge tokens (P : ost → Prop) (merge : option UploadRow → result (pystr * UploadRow)) (read : pystr → result C)
    (R : C → Prop) :
  (∀ w encoded row, inv tokens w → P (w_store w) → merge (w_row w) = Ok (encoded, row) →
     ∃ e, read encoded = Ok e ∧ held tokens (w_store w) e ∧ R e ∧ ∀ c, up_row up row c → c = e) →
  triple tokens P
    (persisted ← ((λ w, match merge (w_row w) with
                       | Ok (encoded, row) => (Ok encoded, {| w_store := w_store w; w_row := Some row |})
                       | Err e => (Err e, w)
                       end) : effect pystr);
     lift (read persisted)) (λ e st, held tokens st e ∧ R e).
Proof.
  intros Hm w r w' Hi HP Hrun. unfold mbind, effect_bind in Hrun.
  destruct (merge (w_row w)) as [[encoded row]|x] eqn:He; [|injection Hrun as <- <-; split; [done|split; [by intros o|done]]].
  destruct (Hm w encoded row Hi HP He) as (e & Hr & Hh & HR & Hrow). unfold lift in Hrun. rewrite Hr in Hrun.
  injection Hrun as <- <-. split; [|split; [by intros o|done]]. split; [apply Hi|]. cbn [w_row w_store].
  intros row' c [= <-] Hc. by rewrite (Hrow c Hc).
Qed.

(** ** Calls of the store *)

Section calls.
Context (tokens : gmap pystr pystr) (token text : pystr) (s : ResumableAgeScryptSession).
Context (us : list AgeAlignedUnitPlan) (file : pybytes).
Context (Ht : tokens !! token = Some text) (Hs : session_text text s) (Hl : laid s us file).

Lemma receipt_file st receipt content_type m : store_inv tokens st → meta_of text = Ok m →
  matches object_path content_type m receipt st → sealed st text ∧ co_bytes receipt = len file.
Proof.
  intros Hi Hm Hmatch. destruct (matches_sealed tokens st _ _ _ _ _ Hi Ht Hm Hmatch) as (o & Ho & Hf & Hb).
  split; [by exists o|]. destruct Hf as (s' & us' & Hs' & Hl'). pose proof (session_unique _ _ _ _ _ _ Hs Hs') as <-.
  by destruct (laid_unique _ _ _ _ _ _ _ Hl Hl') as [_ ->].
Qed.

(** What a store that has the object says of it. *)
Definition completes (receipt : CompletedObjectReceipt) (st : ost) : Prop :=
  completion_ok receipt ∧ sealed st text ∧ co_bytes receipt = len file.

Lemma complete_triple write segments plans m n : wn_object_path write = object_path → wn_write_token write = token →
  segment_plans us = Ok plans → seg_pair <$> segments = plan_pair <$> plans → meta_of text = Ok m →
  triple tokens (λ _, True) (ask (complete_write write segments n (up_content_type up) m)) completes.
Proof.
  intros Hpath Htok Hp Hpairs Hm. apply triple_ask. intros st r st' Hi _ Hrun. apply complete_law in Hrun as [Hstep Hr].
  assert (store_inv tokens st' ∧ stays st st') as [Hi' Hst'].
  { destruct Hstep as [Hu|Hu]; [split; [by eapply unchanged_inv|by apply unchanged_stays]|].
    apply (published_inv tokens write segments text s us file plans st st'); try done. by rewrite Htok. }
  split_and!; [done|done|]. destruct r as [receipt|]; [|done]. destruct Hr as [Hok Hmatch]. rewrite Hpath in Hmatch.
  by destruct (receipt_file st' receipt _ m Hi' Hm Hmatch).
Qed.

Lemma find_triple c n m : meta_of text = Ok m →
  triple tokens (λ st, held tokens st c) (ask (find_completed_write object_path n (up_content_type up) m))
    (λ found st, held tokens st c ∧ from_option (λ receipt, completes receipt st) True found).
Proof.
  intros Hm. apply triple_ask. intros st r st' Hi Hh Hrun. apply find_law in Hrun as [Hu Hr].
  pose proof (unchanged_stays _ _ Hu) as Hst. split; [by eapply unchanged_inv|]. split; [done|].
  destruct r as [[receipt|]|]; [|by split; [eapply held_stays|]|done]. split; [by eapply held_stays|].
  destruct Hr as [Hok Hmatch]. destruct (receipt_file st receipt _ m Hi Hm Hmatch) as [Hse Hb].
  split; [done|]. split; [by eapply sealed_stays|done].
Qed.

(** Writing a planned segment. *)
Lemma write_triple write plans pl : wn_write_token write = token → segment_plans us = Ok plans → pl ∈ plans →
  triple tokens (λ _, True) (ask (write_segment write (ws_number pl) (segment_bytes (stored file <$> us) pl)))
    (λ receipt _, token_ok (wr_segment_token receipt)).
Proof.
  intros Htok Hp Hin. set (content := segment_bytes (stored file <$> us) pl). apply triple_ask. intros st r st' Hi _ Hrun.
  apply write_law in Hrun.
  assert (unchanged st st' ∨ written write (ws_number pl) content st st') as Hstep by (destruct r; tauto).
  assert (store_inv tokens st' ∧ stays st st') as [Hi' Hst'].
  { destruct Hstep as [Hx|Hx]; [split; [by eapply unchanged_inv|by apply unchanged_stays]|].
    apply (written_inv tokens write (ws_number pl) content st st' Hi Hx). rewrite Htok, Ht. intros text' [= <-] n x Hlook.
    apply lookup_singleton_Some in Hlook as [<- <-]. by exists s, us, file, plans, pl. }
  split_and!; [done|done|]. destruct r; [apply Hrun|done].
Qed.
End calls.

Lemma list_triple tokens c session : triple tokens (λ st, held tokens st c) (ask (list_segments session)) (λ _ st, held tokens st c).
Proof.
  apply triple_ask. intros st r st' Hi Hh Hrun. apply list_law in Hrun as Hu. split; [by eapply unchanged_inv|].
  split; [by apply unchanged_stays|]. destruct r; [|done]. by eapply held_stays; [apply unchanged_stays|].
Qed.

Lemma discard_triple tokens P session : triple tokens P (ask (abort_write session)) (λ _ _, True).
Proof.
  apply triple_ask. intros st r st' Hi _ Hrun. apply abort_law in Hrun as [Hu|Hd].
  - split; [by eapply unchanged_inv|]. split; [by apply unchanged_stays|by destruct r].
  - destruct (discarded_inv _ _ _ _ Hi Hd). split_and!; [done|done|by destruct r].
Qed.

(** The row loses its checkpoint or stays. *)
Lemma delete_triple tokens (delete : option UploadRow → option UploadRow) :
  (∀ row r, delete row = Some r → (∀ c, ¬ up_row up r c) ∨ row = Some r) →
  triple tokens (λ _, True) (λ w, (Ok tt, {| w_store := w_store w; w_row := delete (w_row w) |})) (λ _ _, True).
Proof.
  intros Hd w r w' Hi _ [= <- <-]. split; [|split; [by intros o|done]]. split; [apply Hi|]. cbn [w_row w_store].
  intros row e Hr He. destruct (Hd _ _ Hr) as [Hnone|Hsame]; [by destruct (Hnone e)|]. by apply (iv_row _ _ Hi row).
Qed.

(** ** Beginning a write *)

(** A call that may begin a write: the invariant holds for more tokens. *)
Definition grows {A : Type} (tokens : gmap pystr pystr) (P : ost → Prop) (m : effect A)
    (Q : gmap pystr pystr → A → ost → Prop) : Prop :=
  ∀ w r w', inv tokens w → P (w_store w) → m w = (r, w') →
    ∃ tokens', tokens ⊆ tokens' ∧ inv tokens' w' ∧ stays (w_store w) (w_store w') ∧
      match r with Ok a => Q tokens' a (w_store w') | Err _ => True end.

Lemma grows_triple {A : Type} tokens P (m : effect A) Q : triple tokens P m (Q tokens) → grows tokens P m Q.
Proof. intros Hm w r w' Hi HP Hrun. exists tokens. split; [done|]. by apply (Hm w r w'). Qed.

Lemma grows_bind {A B : Type} tokens (P : ost → Prop) (m : effect A) (f : A → effect B) R Q : triple tokens P m R →
  (∀ a, grows tokens (R a) (f a) Q) → grows tokens P (m ≫= f) Q.
Proof.
  intros Hm Hf w r w' Hi HP Hrun. unfold mbind, effect_bind in Hrun. destruct (m w) as [[a|e] w1] eqn:Hw.
  - destruct (Hm _ _ _ Hi HP Hw) as (Hi1 & Hs1 & HR).
    destruct (Hf a _ _ _ Hi1 HR Hrun) as (tokens' & Ht & Hi' & Hs' & HQ). exists tokens'. split_and!; try done. by etrans.
  - injection Hrun as <- <-. destruct (Hm _ _ _ Hi HP Hw) as (Hi1 & Hs1 & _). by exists tokens.
Qed.

Lemma grows_pure {A B : Type} tokens (P : ost → Prop) (x : result A) (f : A → effect B) Q :
  (∀ a, x = Ok a → grows tokens P (f a) Q) → grows tokens P (lift x ≫= f) Q.
Proof.
  intros Hf. eapply (grows_bind _ _ _ _ (λ a st, x = Ok a ∧ P st)); [by apply triple_lift|].
  intros a w r w' Hi [Hx HP]. by apply Hf.
Qed.

(** The row of a world with another store. *)
Lemma inv_store tokens tokens' w st' : inv tokens w → tokens ⊆ tokens' → store_inv tokens' st' →
  stays (w_store w) st' → inv tokens' {| w_store := st'; w_row := w_row w |}.
Proof.
  intros Hi Ht Hst Hs. split; [done|]. intros r c Hr Hc. eapply held_stays; [exact Hs|]. eapply held_tokens; [done|].
  by eapply iv_row.
Qed.

(** No write of the store was begun with this metadata. *)
Definition unused (m : metadata) (st : ost) : Prop := ∀ t v, writes st !! t = Some v → ¬ wv_metadata v ≡ₚ m.

(** Beginning a write and saving its first checkpoint. *)
Lemma begin_grows tokens expected text s m (save : WriteSession → effect C) : session_text text s → meta_of text = Ok m →
  (∀ tokens' write, token_ok (wn_write_token write) → tokens' !! wn_write_token write = Some text →
     triple tokens' (λ _, True) (save write) (λ e st, held tokens' st e)) →
  grows tokens (unused m) (write ← ask (begin_write object_path expected (up_content_type up) m); save write)
    (λ tokens' e st, held tokens' st e).
Proof.
  intros Hs Hm Hsave w r w' Hi Hfresh Hrun. unfold mbind, effect_bind, ask in Hrun.
  destruct (begin_write object_path expected (up_content_type up) m (w_store w)) as [[write|e] st'] eqn:Hb;
    apply begin_law in Hb.
  - destruct Hb as [Htok [Hb|[_ (v & Hv & Hsame)]]]; [|by destruct (Hfresh _ _ Hv)].
    destruct (begun_inv tokens _ _ _ text s _ _ (iv_store _ _ Hi) Hb Hs Hm Hfresh) as (Hsub & Hst' & Hstays).
    pose proof (inv_store _ _ _ _ Hi Hsub Hst' Hstays) as Hi'.
    destruct (Hsave _ write Htok (lookup_insert_eq _ _ _) _ r w' Hi' I Hrun) as (Hi2 & Hs2 & Hr).
    eexists. split; [exact Hsub|]. split; [done|]. split; [by etrans|done].
  - injection Hrun as <- <-. destruct Hb as [Hu|[t Hb]].
    + exists tokens. split; [done|]. pose proof (unchanged_stays _ _ Hu). split_and!; try done.
      apply (inv_store tokens); try done. eapply unchanged_inv; [done|apply Hi].
    + destruct (begun_inv tokens _ _ _ text s _ _ (iv_store _ _ Hi) Hb Hs Hm Hfresh) as (Hsub & Hst' & Hstays).
      eexists. split; [exact Hsub|]. split_and!; try done. by apply (inv_store tokens).
Qed.

(** ** Systems *)

(** Other users of the store leave the path and the writes to it alone. *)
Definition elsewhere (st st' : ost) : Prop :=
  objects st' !! object_path = objects st !! object_path ∧
  ∀ t v, writes st !! t = Some v → wv_path v = object_path → writes st' !! t = Some v.

Lemma other_inv tokens st st' : elsewhere st st' → store_inv tokens st → store_inv tokens st' ∧ stays st st'.
Proof.
  intros [Ho Hw] []. split; [|intros o; by rewrite Ho]. split; [|done|by rewrite Ho].
  intros t text Ht. destruct (iv_tokens0 t text Ht) as (Hs & v & Hv & Hpath & Hrest). split; [done|]. exists v.
  split; [by apply Hw|done].
Qed.

(** The world and the checkpoints in the hands of callers. *)
Definition system_inv (σ : world * list C) : Prop :=
  ∃ tokens, inv tokens σ.1 ∧ Forall (held tokens (w_store σ.1)) σ.2.

Lemma grown_inv w w' cs cs' tokens tokens' : tokens ⊆ tokens' → inv tokens' w' →
  stays (w_store w) (w_store w') → Forall (held tokens (w_store w)) cs →
  (∀ c, c ∈ cs' → c ∈ cs ∨ held tokens' (w_store w') c) → system_inv (w', cs').
Proof.
  intros Ht Hi Hs Hcs Hnew. exists tokens'. split; [done|]. apply Forall_forall. intros c Hc. rewrite Forall_forall in Hcs.
  destruct (Hnew c Hc) as [Hin|Hh]; [|done]. eapply held_tokens; [done|]. eapply held_stays; [done|]. by apply Hcs.
Qed.

Definition kept (r : result C) (cs : list C) : list C := match r with Ok c => c :: cs | Err _ => cs end.

Lemma kept_cases r cs c : c ∈ kept r cs → c ∈ cs ∨ r = Ok c.
Proof. destruct r; cbn; [|by left]. rewrite elem_of_cons. naive_solver. Qed.

(** A call on a checkpoint that some caller holds. *)
Lemma call_inv tokens w r w' cs c (m : effect C) : c ∈ cs → triple tokens (λ st, held tokens st c) m (λ e st, held tokens st e) →
  inv tokens w → Forall (held tokens (w_store w)) cs → m w = (r, w') → system_inv (w', kept r cs).
Proof.
  intros Hin Hm Hi Hcs Hrun. destruct (Hm w r w') as (Hi' & Hs & Hr); [done|rewrite Forall_forall in Hcs; by apply Hcs|done|].
  eapply grown_inv; try done. intros e [He| ->]%kept_cases; auto.
Qed.
End store.
