(* ===== verification/UploadSafety.v ===== *)
(** * Uploads seal the file they were given

    Safety of [RawUpload]: whatever callers do with the checkpoints they were
    given, in whatever order, and wherever the object store raises, a sealed
    checkpoint stands for an object that is exactly the age file of the
    plaintext, with receipts that a later verification accepts.  The store side
    of the argument is in [UploadStore]. *)

From stdpp Require Import gmap.
From S2P Require Import Prelude Text Json WriteSegments Sha256 Paths Domain PackIngress RawVolume Crypto Base64.
From S2P Require Import Age AgeUnits AgeRange StreamingAge ArchiveContracts RawVerification RawCheckpoint.
From S2P Require Import RawUpload UploadLayout UploadStore.

Section safety.
Context `{PyEnv} `{Aead} `{StoreContract} (passphrase : pystr) (scrypt_log_n : Z) (q : Request) (p : pybytes).
Context (Hq : request_ok q p).

(** The upload of a raw volume. *)
Definition raw_upload : upload RawUploadCheckpoint :=
  {| up_passphrase := passphrase; up_log_n := scrypt_log_n; up_plain := p; up_units := raw_units p (rq_target q);
     up_path := rq_object_path q; up_content_type := RAW_VOLUME_CONTENT_TYPE;
     up_meta := λ text, _metadata (rq_plan q) (Some text); up_good := good passphrase scrypt_log_n q p;
     up_token := rk_write_token; up_text := rk_age_state_json; up_done := λ c, is_Some (rk_completed c);
     up_row := λ r c, row_checkpoint r = Ok (Some c) |}.

Notation laid := (laid p (raw_units p (rq_target q))).
Notation session_text := (session_text passphrase scrypt_log_n p).
Notation good := (good passphrase scrypt_log_n q p).
Notation object_path := (rq_object_path q).
Notation held := (held raw_upload).
Notation inv := (inv raw_upload).
Notation triple := (triple raw_upload).
Notation grows := (grows raw_upload).
Notation sealed := (sealed raw_upload).

Definition meta_of (text : pystr) : result metadata := _metadata (rq_plan q) (Some text).

(** The metadata of two sessions differ in the digest of the state. *)
Lemma meta_perm : meta_determined raw_upload.
Proof.
  intros text text' m m'. cbn. unfold _metadata. intros Hm Hm' Hp. apply bind_Ok in Hm as (path & Hpath & Hm). rewrite Hpath, ok_bind in Hm'.
  cbv zeta in Hm, Hm'. apply bind_Ok in Hm as (st & _ & Hm). apply bind_Ok in Hm as (x & _ & Hm).
  apply bind_Ok in Hm' as (st' & _ & Hm'). apply bind_Ok in Hm' as (x' & _ & Hm').
  apply Ok_eq in Hm as <-. apply Ok_eq in Hm' as <-. apply Permutation_app_inv_l, Permutation_singleton_r in Hp. by rewrite Hp.
Qed.

(** ** Saving *)

Lemma static_token c e : static_fields e = static_fields c → rk_write_token e = rk_write_token c.
Proof. destruct c, e. unfold static_fields. cbn. intros. by simplify_eq. Qed.

Lemma encoded_checkpoint c : good c → ∃ text, to_json c = Ok text ∧ from_json text = Ok c.
Proof. intros Hc. apply checkpoint_text, Hc. Qed.

(** The merge into the row gives back a checkpoint of this upload. *)
Lemma merged_held tokens c text w encoded row : good c → tokens !! rk_write_token c = Some (rk_age_state_json c) →
  from_json text = Ok c → inv tokens w → (is_Some (rk_completed c) → sealed (w_store w) (rk_age_state_json c)) →
  merge_raw_upload_checkpoint (w_row w) (rk_volume_id c) text = Ok (encoded, row) →
  ∃ e, from_json encoded = Ok e ∧ held tokens (w_store w) e ∧ static_fields e = static_fields c ∧
    ∀ c', row_checkpoint row = Ok (Some c') → c' = e.
Proof.
  intros Hc Ht Hfrom Hi Hsealed Hmerge.
  destruct (w_row w) as [old|] eqn:Hrow; [|unfold merge_raw_upload_checkpoint in Hmerge; rewrite Hfrom in Hmerge; done].
  apply merge_row in Hmerge as (previous & incoming & merged & Hp & Hi' & Hm & Hd & He & _).
  assert (incoming = c) as -> by congruence.
  assert (held tokens (w_store w) merged ∧ static_fields merged = static_fields c) as [Hh Hst].
  { destruct previous as [d|]; cbn in Hm.
    - pose proof (iv_row _ _ _ Hi old d Hrow Hp) as [Hgd Htd Hsd]. pose proof (merge_good _ _ _ _ d c merged Hgd Hc Hm) as Hg.
      apply merge_iff in Hm; [|apply (gd_valid _ _ _ _ _ Hgd)|apply (gd_valid _ _ _ _ _ Hc)].
      assert (static_fields merged = static_fields c) as Hst by by rewrite (mg_static _ _ _ Hm), (mg_same _ _ _ Hm).
      split; [|done]. pose proof (static_text _ _ Hst) as Htext. split; cbn; [done|by rewrite Htext, (static_token _ _ Hst)|].
      rewrite Htext. intros Hk. rewrite (mg_completed _ _ _ Hm) in Hk. destruct (rk_completed d) as [k|] eqn:Hkd; [|exact (Hsealed Hk)].
      rewrite <- (static_text _ _ (mg_same _ _ _ Hm)). apply Hsd. cbn. by rewrite Hkd.
    - pose proof (kv_progress _ (gd_valid _ _ _ _ _ Hc)) as Hv. rewrite (merge_known c c Hv Hv (reflexivity _)) in Hm.
      injection Hm as <-. done. }
  destruct (encoded_checkpoint merged (hd_good _ _ _ _ Hh)) as (text' & Hto' & Hfrom').
  destruct (rd_text _ _ (Hd (kv_progress _ (gd_valid _ _ _ _ _ (hd_good _ _ _ _ Hh))))) as (text'' & Hto'' & He').
  assert (from_json encoded = Ok merged) as Henc by congruence. exists merged. split_and!; [done|done|done|].
  intros c' Hc'. unfold row_checkpoint in Hc'. rewrite He in Hc'. destruct encoded as [|x encoded]; [done|].
  rewrite Henc, ok_bind in Hc'. by injection Hc' as <-.
Qed.

Lemma save_triple tokens c : good c → tokens !! rk_write_token c = Some (rk_age_state_json c) →
  triple tokens (λ st, is_Some (rk_completed c) → sealed st (rk_age_state_json c)) (_save c)
    (λ e st, held tokens st e ∧ static_fields e = static_fields c).
Proof.
  intros Hc Ht. unfold _save. destruct (encoded_checkpoint c Hc) as (text & Hto & Hfrom). apply triple_pure.
  intros x Hx. assert (x = text) as -> by congruence.
  apply (triple_merge raw_upload tokens _ (λ row, merge_raw_upload_checkpoint row (rk_volume_id c) text) from_json).
  intros w encoded row Hi Hsealed. by apply merged_held.
Qed.

(** ** The steps of an upload *)

Context (source_read_chunk_bytes max_inflight_bytes : Z).

Section laid_out.
Context (tokens : gmap pystr pystr) (c : RawUploadCheckpoint) (s : ResumableAgeScryptSession).
Context (us : list AgeAlignedUnitPlan) (file : pybytes).
Context (Hc : good c) (Ht : tokens !! rk_write_token c = Some (rk_age_state_json c)).
Context (Hs : session_text (rk_age_state_json c) s) (Hl : laid s us file).

Lemma layout_of_good : lays p us file c.
Proof.
  destruct (gd_layout _ _ _ _ _ Hc) as (s' & us' & file' & Hs' & Hl' & Hy).
  pose proof (session_unique _ _ _ _ _ _ Hs Hs') as <-. by destruct (laid_unique _ _ _ _ _ _ _ Hl Hl') as [<- <-].
Qed.

Lemma good_layout e : static_fields e = static_fields c → lays p us file e → good e.
Proof. intros Hst. by apply (good_intro _ _ _ _ c e s us file). Qed.

Lemma mark_triple receipt : completion_ok receipt → co_bytes receipt = len file →
  triple tokens (λ st, sealed st (rk_age_state_json c)) (_mark_completed c receipt) (λ e st, held tokens st e).
Proof.
  intros Hok Hbytes. unfold _mark_completed. apply triple_pure. intros [] Hx. do 2 inv_step Hx. bool_prop. apply Z.eqb_eq in E.
  pose proof (ly_progress _ _ _ _ layout_of_good) as Hg.
  rewrite (sorted_byZ_id _ _ (pg_parts _ Hg)), (sorted_byZ_id _ _ (pg_segments _ Hg)). fold (sealed_with c receipt).
  pose proof (lays_mark p _ s us file Hl c receipt layout_of_good Hok Hbytes ltac:(lia)) as Hy.
  apply good_layout in Hy as Hge; [|done].
  eapply triple_post; [|eapply triple_pre; [|apply (save_triple tokens _ Hge Ht)]].
  - by intros e' st [He' _].
  - by intros st Hseal _.
Qed.

Lemma checkpoint_plan_good : _checkpoint_plan c = Ok (rq_plan q).
Proof.
  destruct (gd_static _ _ _ _ _ Hc) as (_ & Hv & _ & _ & Hsrc & Hoff & Hpl & Hfb & Hsha & _).
  unfold _checkpoint_plan. rewrite Hv, (ro_sequence _ _ Hq), ok_bind, Hsrc, Hoff, Hpl, Hfb, Hsha. by destruct (rq_plan q).
Qed.

Lemma planned_session : raw_age_aligned_unit_plans (rq_plan q) s (rq_target q) = Ok us.
Proof.
  destruct (ro_target _ _ Hq) as [H1t H2t]. unfold raw_age_aligned_unit_plans. unfold CHUNK_SIZE in H1t.
  rewrite (proj2 (Z.leb_gt _ _)), H2t, (ro_bytes _ _ Hq) by lia. exact (ld_units _ _ _ _ _ Hl).
Qed.

Lemma session_cached : cached_session passphrase (rk_age_state_json c) = Ok s.
Proof. destruct Hs as (? & ? & ? & ? & _ & _ & _ & _ & _ & _ & _ & _ & _ & Hcs). done. Qed.

Lemma planned_good : _planned_parts passphrase (rq_plan q) c = Ok us.
Proof.
  unfold _planned_parts. rewrite session_cached, ok_bind.
  destruct (gd_static _ _ _ _ _ Hc) as (_ & _ & _ & _ & _ & _ & _ & _ & _ & -> & _). apply planned_session.
Qed.

Lemma segment_plans_good : _write_segment_plans passphrase c = segment_plans us.
Proof. unfold _write_segment_plans. by rewrite checkpoint_plan_good, ok_bind, planned_good, ok_bind. Qed.

Lemma write_session_good write : write_session c = Ok write →
  wn_object_path write = object_path ∧ wn_write_token write = rk_write_token c.
Proof.
  unfold write_session. intros Hw. apply bind_Ok in Hw as (n & _ & Hw). apply Ok_eq in Hw as <-.
  by destruct (gd_static _ _ _ _ _ Hc) as (_ & _ & -> & _).
Qed.

Lemma pending_triple : rk_completed c = None →
  triple tokens (λ _, True) (_complete passphrase c) (λ e st, held tokens st e).
Proof.
  intros Hnone. unfold _complete. rewrite Hnone. apply triple_pure. rewrite checkpoint_plan_good. intros plan [= <-].
  apply triple_pure. rewrite planned_good. intros parts Hparts. apply Ok_eq in Hparts as <-.
  pose proof layout_of_good as Hy. pose proof (ly_progress _ _ _ _ Hy) as Hg.
  rewrite (sorted_byZ_id _ _ (pg_parts _ Hg)), (sorted_byZ_id _ _ (pg_segments _ Hg)). cbv zeta.
  apply triple_pure. intros [] Hnum. inv_step Hnum. bool_prop.
  pose proof (lays_numbers p _ s us file Hl c Hy E) as Hall.
  destruct (lays_plans p _ s us file Hl c Hy Hall) as (plans & Hp & Hr).
  apply triple_pure. intros write Hw. apply write_session_good in Hw as [Hpath Htok]. apply triple_pure. intros m Hm.
  eapply triple_bind.
  - apply (complete_triple raw_upload meta_perm tokens _ _ s us file Ht Hs Hl write (rk_write_segments c) plans); try done.
    by apply (recorded_all p _ s us file Hl).
  - intros receipt w r w' Hi (Hok & Hseal & Hb). by apply mark_triple.
Qed.

Lemma no_part u : au_unit_number u ∉ sap_number <$> rk_archive_parts c →
  _part_by_number (rk_archive_parts c) (sap_number (part_of p file u)) = None.
Proof.
  intros Hnew. unfold _part_by_number. destruct (filter _ (rk_archive_parts c)) as [|x l] eqn:Hf; [done|]. exfalso. apply Hnew.
  assert (x ∈ filter (λ x, sap_number x = sap_number (part_of p file u)) (rk_archive_parts c)) as [Hx Hin]%list_elem_of_filter
    by (rewrite Hf; by left). change (au_unit_number u) with (sap_number (part_of p file u)). rewrite <- Hx.
  by apply list_elem_of_fmap_2.
Qed.

Lemma record_triple u receipts plans : rk_completed c = None → u ∈ us → au_unit_number u ∉ sap_number <$> rk_archive_parts c →
  segment_plans us = Ok plans → recorded plans [part_of p file u] receipts → Forall segment_valid receipts →
  triple tokens (λ _, True) (_record_part c (part_of p file u) receipts)
    (λ e st, held tokens st e ∧ static_fields e = static_fields c).
Proof.
  intros Hnone Hu Hnew Hp Hr Hvalid. unfold _record_part. rewrite (no_part u Hnew). apply triple_pure. intros [] _. cbv zeta.
  apply triple_pure. intros segments Hm.
  pose proof (lays_record p _ s us file Hl c u receipts segments plans layout_of_good Hnone Hu Hnew Hp Hr Hvalid Hm) as Hy.
  apply good_layout in Hy as Hge; [|done].
  fold (extended p file c u segments). eapply triple_pre; [|apply (save_triple tokens _ Hge Ht)].
  intros st _ [k Hk]. cbn in Hk. congruence.
Qed.

Lemma segments_triple write plans u l : write_session c = Ok write → segment_plans us = Ok plans → u ∈ us →
  (∀ pl, pl ∈ l → pl ∈ plans ∧ ws_archive_part_number pl = au_unit_number u) →
  triple tokens (λ _, True) (write_segments write (stored file u) l)
    (λ receipts _, seg_pair <$> receipts = plan_pair <$> l ∧ Forall segment_valid receipts).
Proof.
  intros Hw Hp Hu. apply write_session_good in Hw as [Hpath Htok].
  induction l as [|pl l IH]; intros Hl'; cbn [write_segments]; [by apply triple_ret|].
  destruct (Hl' pl) as [Hin Hn]; [by left|].
  destruct (plan_unit p _ s us file Hl plans pl Hp Hin) as (u' & Hu' & Hn' & Hbytes & Hlen & Hone).
  assert (u' = u) as -> by (apply (unit_of_number p _ s us file Hl); congruence).
  rewrite <- Hbytes. set (content := segment_bytes (stored file <$> us) pl) in *.
  eapply (triple_seq _ _ _ _ _ (λ receipt, token_ok (wr_segment_token receipt))).
  - apply (write_triple raw_upload tokens _ _ s us file Ht Hs Hl write plans pl Htok Hp Hin).
  - intros receipt Htoken. apply triple_pure. intros [] Hx. inv_step Hx. bool_prop. eapply triple_seq; [apply IH; intros pl' Hpl; apply Hl'; by right|].
    intros rest [Hpairs Hvalid]. apply triple_ret. intros st _. rewrite !fmap_cons. split.
    + f_equal; [|done]. unfold seg_pair, plan_pair. cbn. f_equal; lia.
    + constructor; [|done]. pose proof (plan_number p _ s us file Hl plans pl Hp Hin). destruct Htoken as [Hne Htext].
      split_and!; cbn; try done; [lia|lia|apply sha256_hex_fullmatch].
Qed.

(** What the callers may stream for a unit.  With registered digests: anything
    but a collision with the digest of the unit.  Without them the code has
    nothing to compare with and takes the bytes it is sent: then [p] is what the
    callers send, and a stream of the unit's length is the unit's bytes.  Streams
    of any other length are always allowed. *)
Definition stream_ok (number : Z) (chunks : list pybytes) : Prop :=
  ∀ u, plain_units p (rq_target q) !! Z.to_nat (number - 1) = Some u →
    (rq_expected q = [] → len (concat chunks) = len (plain p u) → concat chunks = plain p u) ∧
    (sha256_hex (concat chunks) = sha256_hex (plain p u) → concat chunks = plain p u).

Lemma plain_unit i u : us !! i = Some u → ∃ v, plain_units p (rq_target q) !! i = Some v ∧ plain p v = plain p u.
Proof.
  intros Hi. pose proof (spans_plain p _ _ (raw_spans p (rq_target q) (ro_limit _ _ Hq) (ro_target _ _ Hq) _ _ (ld_units _ _ _ _ _ Hl))) as Hpl. apply (f_equal (λ l, l !! i)) in Hpl.
  rewrite !list_lookup_fmap, Hi in Hpl. destruct (plain_units p (rq_target q) !! i) as [v|]; [|done]. exists v.
  split; [done|]. by injection Hpl.
Qed.

(** The digest that a client may have registered. *)
Lemma registered_digest i u : us !! i = Some u →
  rq_expected q = [] ∧ _expected_part_digest c (au_unit_number u) = Ok None ∨
  _expected_part_digest c (au_unit_number u) = Ok (Some (sha256_hex (plain p u))).
Proof.
  intros Hi. destruct (gd_static _ _ _ _ _ Hc) as (_ & _ & _ & _ & _ & _ & _ & _ & _ & _ & Hexp).
  unfold _expected_part_digest. rewrite Hexp, (unit_at p _ s us file Hl i u Hi).
  replace (Z.to_nat (1 + Z.of_nat i - 1)) with i by lia.
  destruct (ro_digests _ _ Hq) as [->|Hd]; [by left|]. right. destruct (plain_unit i u Hi) as (v & Hv & Hplain).
  assert (unit_digests p (rq_target q) !! i = Some (sha256_hex (plain p u))) as Hlook.
  { unfold unit_digests. rewrite list_lookup_fmap, Hv. cbn. by rewrite Hplain. }
  rewrite <- Hd in Hlook. destruct (rq_expected q) as [|d ds]; [done|]. by rewrite Hlook.
Qed.

Lemma prepare_triple i u chunks : us !! i = Some u → stream_ok (au_unit_number u) chunks →
  triple tokens (λ _, True)
    (_prepare_and_write_archive_part passphrase source_read_chunk_bytes max_inflight_bytes (rq_plan q) c u chunks)
    (λ out _, out.1 = part_of p file u ∧ ∃ plans, segment_plans us = Ok plans ∧ recorded plans [part_of p file u] out.2 ∧
       Forall segment_valid out.2).
Proof.
  intros Hi Hstream. pose proof (list_elem_of_lookup_2 _ _ _ Hi) as Hu. unfold _prepare_and_write_archive_part.
  apply triple_pure. rewrite session_cached. intros session Hx. apply Ok_eq in Hx as <-. cbv zeta.
  apply triple_pure. intros [] _. apply triple_pure. intros cut Hcut. apply rechunk_canonical in Hcut as (_ & Hcat & _).
  apply triple_pure. intros prepared Hprep. rewrite (ro_bytes _ _ Hq) in Hprep.
  apply triple_pure. intros expected Hexp. apply triple_pure. intros [] Hx. inv_step Hx.
  destruct (prepare_any s p _ us file u cut prepared (ro_limit _ _ Hq) (ld_units _ _ _ _ _ Hl) (ld_file _ _ _ _ _ Hl) Hu Hprep)
    as [Hsent Hsha]. rewrite Hcat in Hsha, Hsent.
  assert (concat chunks = plain p u) as Hplain.
  { destruct (plain_unit i u Hi) as (v & Hv & Hpv). rewrite <- Hpv. unfold stream_ok in Hstream.
    rewrite (unit_at p _ s us file Hl i u Hi) in Hstream.
    replace (Z.to_nat (1 + Z.of_nat i - 1)) with i in Hstream by lia. destruct (Hstream v Hv) as [Hnone Hsome].
    destruct (registered_digest i u Hi) as [[He _]|He].
    { apply Hnone; [done|]. pose proof (ld_lengths _ _ _ _ _ Hl) as Hlens. rewrite Forall_forall in Hlens.
      destruct (Hlens u Hu) as (_ & _ & Hpl & _). by rewrite Hsent, Hpv, Hpl. } rewrite He in Hexp. injection Hexp as <-.
    apply Hsome. rewrite Hpv. bool_prop. by rewrite <- E, Hsha. }
  destruct (prepare_unit s p _ us file u cut (ro_limit _ _ Hq) (ld_units _ _ _ _ _ Hl) (ld_file _ _ _ _ _ Hl) Hu) as [Hgood _].
  rewrite Hgood in Hprep by by rewrite Hcat. apply Ok_eq in Hprep as <-. cbn [pp_ciphertext].
  apply triple_pure. rewrite segment_plans_good. intros plans Hp. apply triple_pure. intros write Hw.
  eapply triple_seq.
  - apply (segments_triple write plans u _ Hw Hp Hu). intros pl [Hn Hin]%list_elem_of_filter. done.
  - intros receipts [Hpairs Hvalid]. apply triple_ret. intros st _. cbn [fst snd]. split.
    + pose proof (ld_lengths _ _ _ _ _ Hl) as Hlens. rewrite Forall_forall in Hlens. destruct (Hlens u Hu) as (Hlen & _).
      unfold _stored_archive_part, part_of, stored_bytes. cbn. f_equal. exact Hlen.
    + exists plans. split_and!; [done| |done]. unfold recorded. rewrite Hpairs. f_equal. apply list_filter_iff. intros pl. cbn.
      rewrite list_elem_of_singleton. done.
Qed.
End laid_out.

(** ** The operations *)

Lemma not_recorded parts n : _part_by_number parts n = None → n ∉ sap_number <$> parts.
Proof.
  unfold _part_by_number. intros Hn Hin. apply list_elem_of_fmap in Hin as (x & -> & Hx).
  assert (x ∈ filter (λ y, sap_number y = sap_number x) parts) as Hf by by apply list_elem_of_filter.
  destruct (filter _ parts); [by apply not_elem_of_nil in Hf|done].
Qed.

Lemma complete_held tokens c : triple tokens (λ st, held tokens st c) (_complete passphrase c) (λ e st, held tokens st e).
Proof.
  destruct (rk_completed c) as [k|] eqn:Hk; [unfold _complete; rewrite Hk; by apply triple_ret|].
  apply (triple_fact _ _ _ (good c ∧ tokens !! rk_write_token c = Some (rk_age_state_json c))); [by intros st []|].
  intros [Hc Ht]. destruct (gd_layout _ _ _ _ _ Hc) as (s & us & file & Hs & Hl & _).
  eapply triple_pre; [|by apply (pending_triple tokens c s us file)]. done.
Qed.

(** Every unit of the plan, whatever the caller knows of the others. *)
Lemma upload_unit_triple tokens c number chunks : stream_ok number chunks →
  triple tokens (λ st, held tokens st c)
    (upload_unit passphrase source_read_chunk_bytes max_inflight_bytes (rq_plan q) c number chunks) (λ e st, held tokens st e).
Proof.
  intros Hstream. unfold upload_unit. apply triple_pure. intros [] _.
  destruct (rk_completed c) as [k|] eqn:Hk; [by apply triple_ret|].
  apply (triple_fact _ _ _ (good c ∧ tokens !! rk_write_token c = Some (rk_age_state_json c))); [by intros st []|].
  intros [Hc Ht]. destruct (gd_layout _ _ _ _ _ Hc) as (s & us & file & Hs & Hl & _).
  apply triple_pure. rewrite (planned_good c s us file Hc Hs Hl). intros planned Hx. apply Ok_eq in Hx as <-.
  destruct (Z.ltb_spec number 1) as [Hlt|Hge]; [by apply triple_lift|].
  destruct (us !! Z.to_nat (number - 1)) as [u|] eqn:Hi; [|by apply triple_lift].
  pose proof (unit_at p _ s us file Hl _ u Hi) as Hnum. rewrite Z2Nat.id in Hnum by lia.
  replace (1 + (number - 1)) with number in Hnum by lia. subst number.
  destruct (_part_by_number (rk_archive_parts c) (au_unit_number u)) as [part|] eqn:Hpart; [by apply triple_ret|].
  eapply triple_seq.
  - eapply triple_pre; [|by apply (prepare_triple tokens c s us file Hc Ht Hs Hl _ u chunks Hi Hstream)]. done.
  - intros [part receipts] [Heq (plans & Hp & Hr & Hv)]. cbn [fst snd] in *. subst part.
    eapply (triple_bind _ _ _ _ _ (λ e st, held tokens st e)).
    + apply (triple_post _ _ _ _ _ (λ e st, held tokens st e ∧ static_fields e = static_fields c)); [by intros e st [He _]|].
      apply (record_triple tokens c s us file Hc Ht Hs Hl u receipts plans Hk); try done; [by eapply list_elem_of_lookup_2|].
      by apply not_recorded.
    + intros e. destruct (len (rk_archive_parts e) =? len us); [apply complete_held|by apply triple_ret].
Qed.

Lemma upload_next_triple tokens c chunks : stream_ok (rk_next_part c + 1) chunks →
  triple tokens (λ st, held tokens st c)
    (upload_next_unit passphrase source_read_chunk_bytes max_inflight_bytes (rq_plan q) c chunks) (λ e st, held tokens st e).
Proof.
  intros Hstream. unfold upload_next_unit. destruct (rk_completed c) as [k|] eqn:Hk; [by apply triple_ret|].
  apply triple_pure. intros plans _. destruct (len plans <=? rk_next_part c); [apply complete_held|].
  by apply upload_unit_triple.
Qed.

Lemma abort_triple tokens c : triple tokens (λ st, held tokens st c) (abort c) (λ _ _, True).
Proof.
  unfold abort. destruct (rk_completed c) as [k|] eqn:Hk; [by apply triple_lift|].
  apply triple_pure. intros session _. eapply (triple_bind _ _ _ _ _ (λ _ _, True)); [apply discard_triple|].
  intros []. apply (delete_triple raw_upload). intros [r|] r'; [|done]. cbn. case_bool_decide; intros [= <-]; [left|by right].
  by intros e.
Qed.

(** [open] on a volume with a checkpoint. *)
Lemma resume_triple tokens collection_id relative_path target digests existing :
  triple tokens (λ st, ∀ c, from_json existing = Ok c → held tokens st c)
    (resume passphrase collection_id (rq_plan q) object_path relative_path target digests existing)
    (λ e st, held tokens st e).
Proof.
  unfold resume. apply triple_pure. intros c Hx. apply (triple_pre _ _ _ (λ st, held tokens st c)); [auto|].
  apply triple_pure. intros [] _. apply triple_pure. intros [] _.
  destruct (rk_completed c) as [k|] eqn:Hk; [by apply triple_ret|].
  apply (triple_fact _ _ _ (good c ∧ tokens !! rk_write_token c = Some (rk_age_state_json c))); [by intros st []|].
  intros [Hc Ht]. destruct (gd_layout _ _ _ _ _ Hc) as (s & us & file & Hs & Hl & _).
  apply triple_pure. intros expected _. apply triple_pure. intros m Hm.
  eapply triple_bind; [by apply (find_triple raw_upload meta_perm tokens _ _ s us file Ht Hs Hl)|]. intros [receipt|].
  - intros w r w' Hi (_ & Hok & Hse & Hb). by apply (mark_triple tokens c s us file Hc Ht Hs Hl receipt Hok Hb).
  - unfold _reconcile_recorded_parts. eapply (triple_bind _ _ _ _ _ (λ _ st, held tokens st c)); [|by intros []; apply triple_ret].
    eapply triple_pre; [by intros st [Hh _]; exact Hh|]. apply triple_pure. intros session _.
    eapply triple_bind; [apply list_triple|]. intros listed. by apply triple_lift.
Qed.

(** The checkpoint of a write that has just begun. *)
Definition first_checkpoint (token text : pystr) : RawUploadCheckpoint :=
  {| rk_collection_id := rq_collection_id q; rk_volume_id := rv_volume_id (rq_plan q); rk_object_path := object_path;
     rk_relative_path := rq_relative_path q; rk_source_path := rv_source_path (rq_plan q);
     rk_file_offset := rv_file_offset (rq_plan q); rk_plaintext_bytes := rv_plaintext_bytes (rq_plan q);
     rk_file_bytes := rv_file_bytes (rq_plan q); rk_file_sha256 := rv_file_sha256 (rq_plan q);
     rk_target_part_plaintext_bytes := rq_target q; rk_expected_part_sha256s := rq_expected q; rk_write_token := token;
     rk_age_state_json := text; rk_next_part := 0; rk_archive_parts := []; rk_write_segments := []; rk_completed := None |}.

Lemma first_good token text s : token_ok token → session_text text s → good (first_checkpoint token text).
Proof.
  intros Htok Hs. destruct (session_units passphrase scrypt_log_n p (rq_target q) (ro_limit _ _ Hq) (ro_target _ _ Hq) text s Hs) as (us & file & Hl).
  assert (progress_valid (first_checkpoint token text)) as Hpv by (split; cbn; [constructor|constructor|constructor|done|done]).
  split; [|by repeat split|exists s, us, file; split_and!; [done|done|split; cbn; [done|apply Hq|constructor|by left|constructor|done]]].
  pose proof (ro_range _ _ Hq) as [Hr1 Hr2]. pose proof (ro_bytes _ _ Hq) as Hb. pose proof (len_nonneg p) as Hp.
  split; try done; try (by apply Hq); cbn.
  - pose proof (ro_sequence _ _ Hq) as Hseq. unfold segment_sequence in Hseq. by destruct (segment_id_fullmatch _).
  - split_and!; lia.
  - destruct (ro_digests _ _ Hq) as [->| ->]; [constructor|]. unfold unit_digests. apply Forall_fmap, Forall_forall.
    intros u _. apply sha256_hex_fullmatch.
  - destruct Hs as (_ & _ & _ & state & _ & _ & _ & _ & Hv & Hz & -> & _). exists state. by rewrite Hb.
Qed.

(** ** Opening *)

(** The metadata of the write that [start] begins with these random bytes. *)
Definition drawn_metadata (file_key scrypt_salt payload_nonce : pybytes) : result metadata :=
  session ← create (PassText passphrase) scrypt_log_n file_key scrypt_salt payload_nonce None;
  state ← Age.export_state session (Some (rv_plaintext_bytes (rq_plan q)));
  content ← to_json_bytes state;
  text ← utf8_decode content;
  meta_of text.

(** Random bytes whose session no write of the store was begun with. *)
Definition fresh (file_key scrypt_salt payload_nonce : pybytes) (st : ost) : Prop :=
  bytes_ok file_key ∧ bytes_ok scrypt_salt ∧ bytes_ok payload_nonce ∧
  ∀ m, drawn_metadata file_key scrypt_salt payload_nonce = Ok m → unused m st.

Lemma start_grows tokens file_key salt nonce :
  grows tokens (fresh file_key salt nonce)
    (start passphrase scrypt_log_n (rq_collection_id q) (rq_plan q) object_path (rq_relative_path q) (rq_target q)
       (rq_expected q) file_key salt nonce) (λ tokens' e st, held tokens' st e).
Proof.
  unfold start. apply grows_pure. intros s Hs. apply grows_pure. intros planned _. apply grows_pure. intros [] _.
  apply grows_pure. intros state Hstate. apply grows_pure. intros content Hcontent. apply grows_pure. intros text Htext.
  apply grows_pure. intros expected _. apply grows_pure. intros base _.
  eapply (grows_bind _ _ _ _ _ (λ _, fresh file_key salt nonce)).
  - apply triple_ask. intros st r st' Hi Hf Hrun. apply find_law in Hrun as [Hu _]. split; [by eapply unchanged_inv|].
    split; [by apply unchanged_stays|]. destruct r; [|done]. destruct Hu as [Hw _]. destruct Hf as (? & ? & ? & Hf).
    unfold fresh, unused. by rewrite Hw.
  - intros found. apply grows_pure. intros [] _. apply grows_pure. intros m Hm.
    assert (drawn_metadata file_key salt nonce = Ok m) as Hd.
    { unfold drawn_metadata. by rewrite Hs, ok_bind, Hstate, ok_bind, Hcontent, ok_bind, Htext, ok_bind. }
    intros w r w' Hi (Hk & Hsalt & Hn & Hfresh) Hrun. rewrite (ro_bytes _ _ Hq) in Hstate.
    pose proof (created_text passphrase scrypt_log_n p _ _ _ _ _ _ _ Hs Hk Hsalt Hn Hstate Hcontent Htext) as Hst.
    refine (begin_grows raw_upload tokens expected text s m
      (λ write, _save (first_checkpoint (wn_write_token write) text)) Hst Hm _ w r w' Hi (Hfresh m Hd) Hrun).
    intros tokens' write Htok Hlook. eapply triple_post; [|eapply triple_pre; [|exact (save_triple tokens' _ (first_good _ _ _ Htok Hst) Hlook)]].
    + by intros e st'' [He _].
    + by intros st'' _ [].
Qed.

Lemma sha_exact l l' : mapM_result (λ d, _sha (JStr d) "expected part plaintext") l = Ok l' → l' = l.
Proof.
  intros Hm%mapM_result_Forall2. induction Hm as [|x y l l' Hx _ IH]; [done|]. rewrite IH. f_equal.
  unfold _sha in Hx. inv_step Hx. by apply Ok_eq in Hx.
Qed.

(** The call with the arguments of the request. *)
Definition open_request (file_key salt nonce : pybytes) : effect RawUploadCheckpoint :=
  open passphrase scrypt_log_n (rq_collection_id q) (rq_plan q) object_path (rq_relative_path q) (rq_target q)
    (rq_expected q) file_key salt nonce.

Lemma checked_request relative digests : check_request (rq_collection_id q) (rq_plan q) object_path (rq_relative_path q)
  (rq_target q) (rq_expected q) = Ok (relative, digests) → relative = rq_relative_path q ∧ digests = rq_expected q.
Proof.
  unfold check_request. intros Hc. inv_step Hc. rewrite (proj1 (ro_relative _ _ Hq)), ok_bind in Hc. do 3 inv_step Hc.
  apply bind_Ok in Hc as (l & Hl & Hc). apply sha_exact in Hl as ->. by injection Hc as <- <-.
Qed.

Lemma loaded_row (row : option UploadRow) text c : load_raw_upload_checkpoint row = Some text → from_json text = Ok c →
  ∃ r, row = Some r ∧ row_checkpoint r = Ok (Some c).
Proof.
  unfold load_raw_upload_checkpoint. destruct row as [r|]; [|done]. case_bool_decide; [|done]. intros Ht Hc. exists r.
  split; [done|]. unfold row_checkpoint. rewrite Ht. destruct text as [|x text]; [done|]. by rewrite Hc.
Qed.

Lemma open_grows tokens file_key salt nonce :
  grows tokens (fresh file_key salt nonce) (open_request file_key salt nonce) (λ tokens' e st, held tokens' st e).
Proof.
  unfold open_request, open. apply grows_pure. intros [relative digests] [-> ->]%checked_request.
  intros w r w' Hi Hf Hrun. unfold mbind at 1, effect_bind at 1, load_checkpoint in Hrun.
  destruct (load_raw_upload_checkpoint (w_row w)) as [text|] eqn:Hload; [|by apply (start_grows tokens file_key salt nonce w r w')].
  refine (grows_triple raw_upload tokens _ _ (λ tokens' e st, held tokens' st e) (resume_triple tokens _ _ _ _ text) w r w' Hi _ Hrun).
  intros c Hc. destruct (loaded_row _ _ _ Hload Hc) as (row & Hrow & Hr). by eapply iv_row.
Qed.
End safety.
