(* ===== verification/UploadSystem.v ===== *)
(** * The upload of a volume as a system

    The states that callers, the object store and other users of the store can
    reach from an empty path, the invariant of these states, and the receipt that a
    completed checkpoint gives. *)

From stdpp Require Import gmap.
From S2P Require Import Prelude Text Json WriteSegments Sha256 Paths Domain PackIngress RawVolume Crypto Base64.
From S2P Require Import Age AgeUnits AgeRange StreamingAge ArchiveContracts RawVerification RawCheckpoint.
From S2P Require Import RawUpload UploadLayout UploadStore UploadSafety.

Section system.
Context `{PyEnv} `{Aead} `{StoreContract} (passphrase : pystr) (scrypt_log_n : Z).
Context (source_read_chunk_bytes max_inflight_bytes : Z) (q : Request) (p : pybytes).

Notation laid := (laid p (raw_units p (rq_target q))).
Notation session_text := (session_text passphrase scrypt_log_n p).
Notation good := (good passphrase scrypt_log_n q p).
Notation raw_upload := (raw_upload passphrase scrypt_log_n q p).
Notation held := (held raw_upload).
Notation object_path := (rq_object_path q).

(** ** Sealed checkpoints *)

Section sealed.
Context (Hq : request_ok q p) (c : RawUploadCheckpoint) (s : ResumableAgeScryptSession).
Context (us : list AgeAlignedUnitPlan) (file : pybytes).
Context (Hc : good c) (Hs : session_text (rk_age_state_json c) s) (Hl : laid s us file).

Lemma state_read : ∃ state, from_json_text (rk_age_state_json c) = Ok state ∧ us_plaintext_size state = Some (len p).
Proof.
  destruct Hs as (_ & _ & _ & state & _ & _ & _ & _ & Hv & Hz & -> & _). exists state. split; [|done]. by destruct (age_text_read state Hv) as (_ & _ & _ & ?).
Qed.

(** A recorded part passes the checks of [_validate]. *)
Lemma part_validates part : part ∈ rk_archive_parts c → validate_part c us tt part = Ok tt.
Proof.
  intros Hin. pose proof (ly_parts _ _ _ _ (layout_of_good passphrase scrypt_log_n q p c s us file Hc Hs Hl)) as Hparts.
  unfold parts_of_units in Hparts. rewrite Forall_forall in Hparts. destruct (Hparts part Hin) as (u & Hu & ->).
  destruct (unit_index p _ s us file Hl u Hu) as (i & Hi & Hn). unfold validate_part. cbn [sap_number part_of].
  destruct (list_find_elem_of (λ v, au_unit_number v = au_unit_number u) us u Hu eq_refl) as [[j v] Hf]. rewrite Hf.
  apply list_find_Some in Hf as (Hj & Hv & _).
  assert (v = u) as -> by by apply (unit_of_number p _ s us file Hl); [eapply list_elem_of_lookup_2| |].
  cbn [sap_plaintext_start sap_plaintext_bytes sap_plaintext_sha256]. rewrite !Z.eqb_refl. cbn [negb orb].
  destruct (registered_digest passphrase scrypt_log_n q p Hq c s us file Hc Hl i u Hi) as [[_ ->]| ->]; rewrite ok_bind; [done|].
  by rewrite bool_decide_eq_true_2.
Qed.

Lemma validate_good plans : segment_plans us = Ok plans →
  (is_Some (rk_completed c) → len (rk_archive_parts c) = len us) → _validate passphrase (rq_plan q) c = Ok tt.
Proof.
  intros Hp Hdone. pose proof (ly_segments _ _ _ _ (layout_of_good passphrase scrypt_log_n q p c s us file Hc Hs Hl)) as Hsegs.
  destruct (gd_static _ _ _ _ _ Hc) as (_ & Hv & _ & _ & Hsrc & Hoff & Hpb & Hfb & Hsha & _ & Hexp).
  unfold _validate. rewrite Hv, Hsrc, Hoff, Hpb, Hfb, Hsha, !Z.eqb_refl, !bool_decide_eq_true_2 by done. cbn [negb orb].
  destruct state_read as (state & -> & Hz). rewrite ok_bind, Hz, (ro_bytes _ _ Hq), bool_decide_eq_true_2 by done. cbn [negb].
  rewrite (planned_good passphrase scrypt_log_n q p Hq c s us file Hc Hs Hl), ok_bind.
  assert (negb (bool_decide (rk_expected_part_sha256s c = [])) && negb (len (rk_expected_part_sha256s c) =? len us) = false) as ->.
  { rewrite Hexp. destruct (ro_digests _ _ Hq) as [->| ->]; [done|]. apply andb_false_intro2. unfold unit_digests.
    pose proof (f_equal len (raw_spans p (rq_target q) (ro_limit _ _ Hq) (ro_target _ _ Hq) _ _ (ld_units _ _ _ _ _ Hl))) as Hlen. rewrite !len_fmap in Hlen. by rewrite len_fmap, <- Hlen, Z.eqb_refl. }
  assert (foldM (validate_part c us) tt (rk_archive_parts c) = Ok tt) as ->.
  { pose proof part_validates as Hall. revert Hall. generalize (rk_archive_parts c). intros parts.
    induction parts as [|part parts IH]; intros Hall; [done|]. cbn [foldM].
    rewrite Hall by by left. rewrite ok_bind. apply IH. intros x Hx. apply Hall. by right. }
  rewrite ok_bind, (segment_plans_good passphrase scrypt_log_n q p Hq c s us file Hc Hs Hl), Hp, ok_bind. cbv zeta.
  rewrite (bool_decide_eq_true_2 (seg_pair <$> _ = _)) by exact (segments_recorded _ _ _ _ Hsegs Hp). cbn [negb].
  rewrite (pg_next _ (kv_progress _ (gd_valid _ _ _ _ _ Hc))), Z.eqb_refl. cbn [negb].
  destruct (rk_completed c) as [k|]; [|done]. by rewrite (Hdone ltac:(done)), Z.eqb_refl.
Qed.

Lemma sealed_units k : rk_completed c = Some k →
  rk_archive_parts c = part_of p file <$> us ∧ cr_bytes k = len file ∧ ∃ plans, segment_plans us = Ok plans.
Proof.
  intros Hk. pose proof (layout_of_good passphrase scrypt_log_n q p c s us file Hc Hs Hl) as Hy.
  destruct (lays_units p _ s us file Hl c k Hy Hk) as [Hall Hb]. split_and!; [done|done|].
  destruct (lays_plans p _ s us file Hl c Hy Hall) as (plans & Hp & _). by exists plans.
Qed.

(** The receipt of a sealed checkpoint. *)
Definition sealed_volume (k : CompletedRawObject) : SealedRawVolume :=
  {| srv_volume_id := rv_volume_id (rq_plan q); srv_sequence := rv_sequence (rq_plan q);
     srv_relative_path := rq_relative_path q; srv_source_path := rv_source_path (rq_plan q);
     srv_file_offset := rv_file_offset (rq_plan q); srv_plaintext_bytes := len p;
     srv_file_bytes := rv_file_bytes (rq_plan q); srv_file_sha256 := rv_file_sha256 (rq_plan q);
     srv_age_state_json := rk_age_state_json c; srv_parts := part_of p file <$> us; srv_revision := cr_revision k;
     srv_completed_at := cr_completed_at k; srv_retrieval_cache := cr_retrieval_cache k |}.

Lemma sealed_receipt_ok k : rk_completed c = Some k → sealed_receipt passphrase c = Ok (sealed_volume k).
Proof.
  intros Hk. destruct (sealed_units k Hk) as (Hall & _ & plans & Hp). unfold sealed_receipt.
  rewrite (checkpoint_plan_good passphrase scrypt_log_n q p Hq c Hc), ok_bind, (validate_good plans), ok_bind by
    (try done; intros _; by rewrite Hall, len_fmap).
  rewrite Hk, (sorted_byZ_id _ _ (pg_parts _ (kv_progress _ (gd_valid _ _ _ _ _ Hc)))), Hall.
  destruct (gd_static _ _ _ _ _ Hc) as (_ & -> & _ & -> & -> & -> & -> & -> & -> & _). by rewrite (ro_bytes _ _ Hq).
Qed.

Lemma sealed_reads_back k read chunks : read (rq_relative_path q) = Ok (chunks, Ok tt) → concat chunks = file →
  reads_back passphrase read (sealed_volume k) p.
Proof.
  intros Hread Hcat. exists chunks. rewrite Hcat. split_and!; [done|by apply (stored_as_file p _ s us file Hl)| |by apply (plaintext_as_file p _ s us file Hl)].
  by apply (session_decrypts passphrase scrypt_log_n p (ro_limit _ _ Hq) (raw_units p (rq_target q)) (rk_age_state_json c) s us).
Qed.
End sealed.

(** ** The system *)

(** The world and the checkpoints that callers hold. *)
Definition system : Type := world * list RawUploadCheckpoint.

(** A call that raises leaves what the store and the row did until then.
    Callers may go on with any checkpoint they were ever given. *)
Inductive ustep : system → system → Prop :=
  | step_open w r w' cs file_key salt nonce :
      fresh passphrase scrypt_log_n q file_key salt nonce (w_store w) →
      open_request passphrase scrypt_log_n q file_key salt nonce w = (r, w') →
      ustep (w, cs) (w', kept r cs)
  | step_load w cs text c : load_raw_upload_checkpoint (w_row w) = Some text → from_json text = Ok c →
      ustep (w, cs) (w, c :: cs)
  | step_unit w r w' cs c number chunks : c ∈ cs → stream_ok q p number chunks →
      upload_unit passphrase source_read_chunk_bytes max_inflight_bytes (rq_plan q) c number chunks w = (r, w') →
      ustep (w, cs) (w', kept r cs)
  | step_next w r w' cs c chunks : c ∈ cs → stream_ok q p (rk_next_part c + 1) chunks →
      upload_next_unit passphrase source_read_chunk_bytes max_inflight_bytes (rq_plan q) c chunks w = (r, w') →
      ustep (w, cs) (w', kept r cs)
  | step_abort w r w' cs c : c ∈ cs → abort c w = (r, w') → ustep (w, cs) (w', cs)
  | step_other w st' cs : elsewhere raw_upload (w_store w) st' →
      ustep (w, cs) ({| w_store := st'; w_row := w_row w |}, cs).

(** Nothing at the path yet, and no checkpoint in the row. *)
Definition initial (w : world) : Prop :=
  objects (w_store w) !! object_path = None ∧ ∀ r, w_row w = Some r → ur_checkpoint_json r = None.

Definition reachable (σ : system) : Prop := ∃ w, initial w ∧ rtc ustep (w, []) σ.

(** ** The invariant of the system *)

Lemma initial_inv w : initial w → system_inv raw_upload (w, []).
Proof.
  intros (Ho & Hr). exists ∅. split; [|constructor].
  split; [|by intros r c Hrow; cbn; unfold row_checkpoint; rewrite (Hr r Hrow)].
  split; cbn; try (intros *; by rewrite lookup_empty). by rewrite Ho.
Qed.

Lemma step_inv (Hq : request_ok q p) σ σ' : ustep σ σ' → system_inv raw_upload σ → system_inv raw_upload σ'.
Proof.
  intros Hstep (tokens & Hi & Hcs). destruct Hstep; cbn [fst snd] in *.
  - destruct (open_grows passphrase scrypt_log_n q p Hq tokens file_key salt nonce w r w') as (tokens' & Ht & Hi' & Hs & Hr); try done.
    eapply grown_inv; try done. intros c [Hc| ->]%kept_cases; auto.
  - exists tokens. split; [done|]. constructor; [|done].
    destruct (loaded_row _ _ _ ltac:(eassumption) ltac:(eassumption)) as (row & Hrow & Hr). by eapply iv_row.
  - eapply (call_inv raw_upload tokens w r w' cs c); [done| |done|done|eassumption]. by apply upload_unit_triple.
  - eapply (call_inv raw_upload tokens w r w' cs c); [done| |done|done|eassumption]. by apply upload_next_triple.
  - destruct (abort_triple passphrase scrypt_log_n q p tokens c w r w') as (Hi' & Hs & _); try done;
      [by rewrite Forall_forall in Hcs; apply Hcs|]. eapply grown_inv; try done. auto.
  - destruct (other_inv raw_upload tokens _ _ ltac:(eassumption) (iv_store _ _ _ Hi)) as [Hst Hs].
    apply (grown_inv raw_upload w _ cs cs tokens tokens); auto. by eapply inv_store.
Qed.

Lemma system_reachable_inv (Hq : request_ok q p) σ : reachable σ → system_inv raw_upload σ.
Proof.
  intros (w & Hw & Hrun). apply initial_inv in Hw. revert Hw. induction Hrun as [|a b c Hab _ IH]; [done|]. intros Ha.
  by apply IH, (step_inv Hq a).
Qed.

(** What a completed checkpoint promises of the store: the object at the path is
    an age file of the recorded size that decrypts to the plaintext, the
    checkpoint gives a receipt, and the receipt passes the part-by-part
    verification of the object, however a reader chunks it. *)
Definition stands_for (st : ost) (c : RawUploadCheckpoint) (k : CompletedRawObject) : Prop :=
  ∃ o v, objects st !! object_path = Some o ∧ len (ov_content o) = cr_bytes k ∧
    decrypt_age_scrypt (ov_content o) (PassText passphrase) None = Ok p ∧
    sealed_receipt passphrase c = Ok v ∧ srv_relative_path v = rq_relative_path q ∧
    ∀ read chunks, read (rq_relative_path q) = Ok (chunks, Ok tt) → concat chunks = ov_content o →
      reads_back passphrase read v p.

Lemma sealed_stands (Hq : request_ok q p) w cs c k : reachable (w, cs) → c ∈ cs → rk_completed c = Some k →
  stands_for (w_store w) c k.
Proof.
  intros Hr Hin Hk. apply (system_reachable_inv Hq) in Hr as (tokens & Hi & Hcs). cbn [fst snd] in *.
  rewrite Forall_forall in Hcs. destruct (Hcs c Hin) as [Hc Ht Hd].
  destruct (Hd ltac:(cbn; by rewrite Hk)) as (o & Ho & s & us & Hs & Hl). exists o, (sealed_volume c us (ov_content o) k).
  destruct (sealed_units c s us _ Hc Hs Hl k Hk) as (_ & Hb & _). split_and!; try done.
  - by apply (session_decrypts passphrase scrypt_log_n p (ro_limit _ _ Hq) (raw_units p (rq_target q)) (rk_age_state_json c) s us).
  - by apply (sealed_receipt_ok Hq c s us _ Hc Hs Hl).
  - intros read chunks. by apply (sealed_reads_back Hq c s us).
Qed.

(** ** Wrong bytes *)

Lemma lift_stops {A B : Type} (x : result A) (f : A → effect B) w :
  (∀ a, x = Ok a → ∃ e, f a w = (Err e, w)) → ∃ e, (lift x ≫= f) w = (Err e, w).
Proof. destruct x as [a|e]; intros Hf; [by apply Hf|by exists e]. Qed.

(** A stream with another digest than the registered one is refused before the
    store is asked for anything. *)
Lemma wrong_part_refused (Hq : request_ok q p) c s us file w i u chunks : good c → session_text (rk_age_state_json c) s →
  laid s us file → us !! i = Some u → rq_expected q ≠ [] → sha256_hex (concat chunks) ≠ sha256_hex (plain p u) →
  ∃ e, _prepare_and_write_archive_part passphrase source_read_chunk_bytes max_inflight_bytes (rq_plan q) c u chunks w = (Err e, w).
Proof.
  intros Hc Hs Hl Hi Hexp Hwrong. pose proof (list_elem_of_lookup_2 _ _ _ Hi) as Hu. unfold _prepare_and_write_archive_part.
  apply lift_stops. rewrite (session_cached passphrase scrypt_log_n p c s Hs). intros session Hx. apply Ok_eq in Hx as <-. cbv zeta.
  apply lift_stops. intros [] _. apply lift_stops. intros cut Hcut. apply rechunk_canonical in Hcut as (_ & Hcat & _).
  apply lift_stops. intros prepared Hprep. rewrite (ro_bytes _ _ Hq) in Hprep.
  destruct (prepare_any s p _ us file u cut prepared (ro_limit _ _ Hq) (ld_units _ _ _ _ _ Hl) (ld_file _ _ _ _ _ Hl) Hu Hprep)
    as [_ Hsha]. rewrite Hcat in Hsha. apply lift_stops.
  destruct (registered_digest passphrase scrypt_log_n q p Hq c s us file Hc Hl i u Hi) as [[He _]| ->]; [done|].
  intros expected Hx. apply Ok_eq in Hx as <-. apply lift_stops. intros [] Hx. inv_step Hx. bool_prop.
  destruct Hwrong. by rewrite <- E, Hsha.
Qed.

Lemma wrong_unit_refused (Hq : request_ok q p) c w number u chunks : good c → rk_completed c = None → rq_expected q ≠ [] →
  1 ≤ number → plain_units p (rq_target q) !! Z.to_nat (number - 1) = Some u → _part_by_number (rk_archive_parts c) number = None →
  sha256_hex (concat chunks) ≠ sha256_hex (plain p u) →
  ∃ e, upload_unit passphrase source_read_chunk_bytes max_inflight_bytes (rq_plan q) c number chunks w = (Err e, w).
Proof.
  intros Hc Hopen Hexp Hone Hu Hpart Hwrong. destruct (gd_layout _ _ _ _ _ Hc) as (s & us & file & Hs & Hl & _).
  unfold upload_unit. apply lift_stops. intros [] _. rewrite Hopen. apply lift_stops.
  rewrite (planned_good passphrase scrypt_log_n q p Hq c s us file Hc Hs Hl). intros planned Hx. apply Ok_eq in Hx as <-.
  rewrite (proj2 (Z.ltb_ge number 1)) by lia. destruct (us !! Z.to_nat (number - 1)) as [v|] eqn:Hv; [|by eexists].
  rewrite Hpart. destruct (plain_unit q p Hq s us file Hl _ v Hv) as (u' & Hu' & Hplain). assert (u' = u) as -> by congruence.
  destruct (wrong_part_refused Hq c s us file w _ v chunks Hc Hs Hl Hv Hexp) as [e He]; [by rewrite <- Hplain|].
  exists e. unfold mbind, effect_bind. by rewrite He.
Qed.
End system.
