(* ===== verification/UploadProgress.v ===== *)
(** * Uploads finish

    With a store that serves every call, opening an upload and sending the units
    one after the other ends in a sealed checkpoint; together with the invariant
    of [UploadSystem] this gives what a sealed checkpoint stands for. *)

From stdpp Require Import gmap.
From S2P Require Import Prelude Text Json WriteSegments Sha256 Paths Domain PackIngress RawVolume Crypto Base64.
From S2P Require Import Age AgeUnits AgeRange StreamingAge ArchiveContracts RawVerification RawCheckpoint.
From S2P Require Import RawUpload MemoryStore UploadLayout UploadStore UploadSafety UploadSystem.

(** ** A store that serves *)

(** [current] receipts are those of the segments as they are now. *)
Class StoreServes `{StoreContract} := {
  current : ost → WriteSession → WriteSegmentReceipt → Prop;
  current_token s session r r' : wr_number r' = wr_number r → wr_segment_token r' = wr_segment_token r →
    wr_bytes r' = wr_bytes r → current s session r → current s session r';
  current_kept session number content s r s' receipt : write_segment session number content s = (r, s') →
    wr_number receipt ≠ number → current s session receipt → current s' session receipt;
  serve_begin path n content_type m s : ∃ w s', begin_write path n content_type m s = (Ok w, s');
  serve_find path n content_type m s : ∃ r s', find_completed_write path n content_type m s = (Ok r, s');
  serve_write session number content s v : writes s !! wn_write_token session = Some v →
    ∃ r s', write_segment session number content s = (Ok r, s') ∧ wr_number r = number ∧ wr_bytes r = len content ∧
      current s' session r;
  serve_complete session segments n content_type m s v : writes s !! wn_write_token session = Some v →
    wv_path v = wn_object_path session → wv_content_type v = content_type → wv_metadata v = m →
    Forall (current s session) segments → sumZ wr_bytes segments = n → objects s !! wn_object_path session = None →
    ∃ r s', complete_write session segments n content_type m s = (Ok r, s') ∧ co_object_path r = wn_object_path session;
}.

(** ** Running *)

Section running.
Context `{ObjectStore}.

Lemma run_lift {A B : Type} (x : result A) a (f : A → effect B) w : x = Ok a → (lift x ≫= f) w = f a w.
Proof. by intros ->. Qed.

Lemma run_bind {A B : Type} (m : effect A) a (f : A → effect B) w w' : m w = (Ok a, w') → (m ≫= f) w = f a w'.
Proof. unfold mbind, effect_bind. by intros ->. Qed.

Lemma run_ask {A B : Type} (call : ost → result A * ost) a s' (f : A → effect B) w : call (w_store w) = (Ok a, s') →
  (ask call ≫= f) w = f a {| w_store := s'; w_row := w_row w |}.
Proof. intros Hc. unfold mbind, effect_bind, ask. by rewrite Hc. Qed.
End running.

Lemma merge_below c d : progress_valid c → progress_valid d → below c d → merge_raw_upload_checkpoints c d = Ok d.
Proof.
  intros Hc Hd Hb. pose proof Hb as [Hst Hp Hs Hk].
  pose proof (proj1 (merge_iff d c d Hd Hc) (merge_known c d Hc Hd Hb)) as Hm. apply merge_iff; [done..|]. destruct Hm. split; try done.
  - intros x y Hx Hy He. symmetry. by apply mg_parts_agree.
  - split; [apply Hd|]. intros z. split; [tauto|]. intros [|]; auto.
  - intros x y Hx Hy He. symmetry. by apply mg_segments_agree.
  - split; [apply Hd|]. intros z. split; [tauto|]. intros [|]; auto.
  - intros k k' Hc' Hd'. apply Hk in Hc'. congruence.
  - destruct (rk_completed c) as [k|]; [by rewrite (Hk k eq_refl)|done].
Qed.

Section progress.
Context `{PyEnv} `{Aead} `{StoreServes} (passphrase : pystr) (scrypt_log_n : Z).
Context (source_read_chunk_bytes max_inflight_bytes : Z) (q : Request) (p : pybytes) (Hq : request_ok q p).

Notation laid := (laid p (raw_units p (rq_target q))).
Notation session_text := (session_text passphrase scrypt_log_n p).
Notation good := (good passphrase scrypt_log_n q p).
Notation raw_upload := (raw_upload passphrase scrypt_log_n q p).
Notation held := (held raw_upload).
Notation inv := (inv raw_upload).
Notation object_path := (rq_object_path q).

(** The calls of a client that sends one unit after the other. *)
Fixpoint upload_units (c : RawUploadCheckpoint) (streams : list (list pybytes)) : effect RawUploadCheckpoint :=
  match streams with
  | [] => mret c
  | chunks :: streams =>
      c ← upload_next_unit passphrase source_read_chunk_bytes max_inflight_bytes (rq_plan q) c chunks;
      upload_units c streams
  end.

Definition send (file_key salt nonce : pybytes) (streams : list (list pybytes)) : effect RawUploadCheckpoint :=
  c ← open_request passphrase scrypt_log_n q file_key salt nonce; upload_units c streams.

Notation ustep := (ustep passphrase scrypt_log_n source_read_chunk_bytes max_inflight_bytes q p).

(** What the row must be for a checkpoint to be saved as it is. *)
Definition row_below (w : world) (c : RawUploadCheckpoint) : Prop :=
  ∃ r previous, w_row w = Some r ∧ ur_kind r = str "segment" ∧ row_checkpoint r = Ok previous ∧
    ∀ d, previous = Some d → good d ∧ below d c.

Definition row_is (w : world) (c : RawUploadCheckpoint) : Prop :=
  ∃ r, w_row w = Some r ∧ ur_kind r = str "segment" ∧ row_checkpoint r = Ok (Some c).

Lemma save_returns w c : good c → row_below w c → ∃ w', _save c w = (Ok c, w') ∧ w_store w' = w_store w ∧ row_is w' c.
Proof.
  intros Hc (r & previous & Hr & Hkind & Hprev & Hbelow). destruct (encoded_checkpoint _ _ _ _ c Hc) as (text & Hto & Hfrom).
  pose proof (kv_progress _ (gd_valid _ _ _ _ _ Hc)) as Hv.
  assert (merge_raw_upload_checkpoints (default c previous) c = Ok c) as Hmerge.
  { destruct previous as [d|]; cbn; [|by apply merge_known]. destruct (Hbelow d eq_refl) as [Hd Hb].
    apply merge_below; [apply (gd_valid _ _ _ _ _ Hd)|done|done]. }
  unfold _save. setoid_rewrite (run_lift _ _ _ w Hto). unfold mbind, effect_bind, merge_checkpoint, merge_raw_upload_checkpoint.
  rewrite Hr, Hfrom, ok_bind. cbv zeta. rewrite Hkind. rewrite (bool_decide_eq_true_2 (str "segment" = str "segment")) by done. cbn [negb].
  rewrite Hprev, ok_bind, Hmerge, ok_bind, Hto, ok_bind. unfold lift. rewrite Hfrom. eexists. split; [done|]. split; [done|].
  eexists. split; [done|]. split; [done|]. unfold row_checkpoint. cbn [ur_checkpoint_json].
  destruct text as [|x text]; [done|]. by rewrite Hfrom.
Qed.

Lemma save_keeps tokens w c : good c → row_below w c → tokens !! rk_write_token c = Some (rk_age_state_json c) →
  inv tokens w → (is_Some (rk_completed c) → sealed raw_upload (w_store w) (rk_age_state_json c)) →
  ∃ w', _save c w = (Ok c, w') ∧ w_store w' = w_store w ∧ row_is w' c ∧ inv tokens w' ∧ held tokens (w_store w') c.
Proof.
  intros Hc Hrow Ht Hi Hseal. destruct (save_returns w c Hc Hrow) as (w' & Hrun & Hst & Hrow').
  destruct (save_triple passphrase scrypt_log_n q p tokens c Hc Ht w (Ok c) w' Hi Hseal Hrun) as (Hi' & _ & Hh & _).
  exists w'. done.
Qed.

(** ** Writing the segments of a part *)

Lemma write_returns session content l w v : increasing ws_number l → writes (w_store w) !! wn_write_token session = Some v →
  ∃ receipts w' v', write_segments session content l w = (Ok receipts, w') ∧ w_row w' = w_row w ∧
    objects (w_store w') = objects (w_store w) ∧ writes (w_store w') !! wn_write_token session = Some v' ∧
    wv_content_type v' = wv_content_type v ∧ Forall (current (w_store w') session) receipts ∧
    ∀ r, wr_number r ∉ ws_number <$> l → current (w_store w) session r → current (w_store w') session r.
Proof.
  revert w v. induction l as [|pl l IH]; intros w v Hinc Hv; cbn [write_segments].
  { by exists [], w, v. }
  apply increasing_cons in Hinc as [Hlt Hinc]. set (piece := slice _ _ content).
  destruct (serve_write session (ws_number pl) piece (w_store w) v Hv) as (r & s1 & Hrun & Hn & Hb & Hcur).
  rewrite (run_ask _ r s1) by exact Hrun. pose proof (write_law _ _ _ _ _ _ Hrun) as [_ (v1 & Hv1 & Ho1 & Hw1)].
  set (w1 := {| w_store := s1; w_row := w_row w |}).
  destruct (IH w1 (with_segments v1 (<[ws_number pl := piece]> (wv_segments v1))) Hinc) as
    (receipts & w' & v' & Hrest & Hrow & Ho & Hv' & Hct & Hall & Hkept).
  { cbn [w1 w_store]. by rewrite Hw1, lookup_insert_eq. }
  rewrite Hn, Hb, !Z.eqb_refl. cbn [negb orb]. rewrite (run_lift _ tt) by done. rewrite (run_bind _ _ _ _ _ Hrest).
  assert (ws_number pl ∉ ws_number <$> l) as Hnot.
  { intros (x & Hx & Hin)%list_elem_of_fmap. rewrite Forall_forall in Hlt. specialize (Hlt x Hin). lia. }
  eexists _, w', v'. split; [done|]. split_and!; [done|by rewrite Ho|done|rewrite Hct; cbn; congruence| |].
  - constructor; [|done]. apply (current_token _ _ r); cbn; [done|done|done|]. apply Hkept; [by rewrite Hn|done].
  - intros r' [Hne Hnin]%not_elem_of_cons Hr'. apply Hkept; [done|]. by eapply current_kept.
Qed.

Section laid_out.
Context (tokens : gmap pystr pystr) (s : ResumableAgeScryptSession) (us : list AgeAlignedUnitPlan) (file : pybytes).
Context (plans : list WriteSegmentPlan) (Hl : laid s us file) (Hplans : segment_plans us = Ok plans).
Context (Hread : 64 * 1024 ≤ source_read_chunk_bytes).

(** The budget admits the buffers of every unit. *)
Context (Hbudget : ∀ u, u ∈ us → ciphertext_len u + source_read_chunk_bytes + CHUNK_SIZE ≤ max_inflight_bytes).

(** A checkpoint with the first [i] units, in the row, of a write that goes on. *)
Record live (w : world) (c : RawUploadCheckpoint) (i : nat) : Prop := {
  lv_inv : inv tokens w;
  lv_held : held tokens (w_store w) c;
  lv_session : session_text (rk_age_state_json c) s;
  lv_open : rk_completed c = None;
  lv_row : row_is w c;
  lv_parts : rk_archive_parts c = part_of p file <$> take i us;
  lv_current : ∀ session, write_session c = Ok session → Forall (current (w_store w) session) (rk_write_segments c);
  lv_object : objects (w_store w) !! object_path = None;
  lv_write : ∃ v, writes (w_store w) !! rk_write_token c = Some v ∧ wv_content_type v = RAW_VOLUME_CONTENT_TYPE;
}.

Lemma live_good w c i : live w c i → good c.
Proof. intros Hw. apply (lv_held _ _ _ Hw). Qed.

Lemma write_session_ok c : session_text (rk_age_state_json c) s → ∃ session, write_session c = Ok session.
Proof.
  intros (_ & _ & _ & state & _ & _ & _ & _ & Hv & Hz & He & _). unfold write_session, _stored_bytes_for_state.
  destruct (age_text_read state Hv) as (_ & _ & _ & Hread'). rewrite He, Hread', ok_bind, Hz.
  destruct (expected_bytes_ok p _ s us file Hl (len (us_header state) + len (us_payload_nonce state))) as [n ->]. rewrite ok_bind. by eexists.
Qed.

(** ** One unit *)

(** Up to the writes nothing can fail. *)
Lemma prepare_runs w c i u chunks session : good c → session_text (rk_age_state_json c) s → us !! i = Some u →
  concat chunks = plain p u → write_session c = Ok session →
  _prepare_and_write_archive_part passphrase source_read_chunk_bytes max_inflight_bytes (rq_plan q) c u chunks w =
  (receipts ← write_segments session (stored file u) (filter (λ pl, ws_archive_part_number pl = au_unit_number u) plans);
   mret (part_of p file u, receipts)) w.
Proof.
  intros Hc Hs Hi Hchunks Hsession. pose proof (list_elem_of_lookup_2 _ _ _ Hi) as Hu.
  pose proof (ld_lengths _ _ _ _ _ Hl) as Hlens. rewrite Forall_forall in Hlens. destruct (Hlens u Hu) as (Hlen & Hone & Hpl & _).
  pose proof (len_nonneg (plain p u)) as Hnn. specialize (Hbudget u Hu). unfold _prepare_and_write_archive_part.
  rewrite (run_lift _ s) by exact (session_cached passphrase scrypt_log_n p c s Hs). cbv zeta.
  rewrite (run_lift _ tt) by (unfold acquire_bytes, CHUNK_SIZE in *; rewrite (proj2 (Z.leb_gt _ _)), (proj2 (Z.ltb_ge _ _)) by lia; done).
  assert (∃ cut, iter_rechunk chunks source_read_chunk_bytes = Ok cut) as [cut Hcut].
  { unfold iter_rechunk. rewrite (proj2 (Z.ltb_ge _ _)) by lia. by eexists. }
  rewrite (run_lift _ cut) by done. pose proof (rechunk_canonical _ _ _ Hcut) as (_ & Hcat & _). rewrite Hchunks in Hcat.
  destruct (prepare_unit s p _ us file u cut (ro_limit _ _ Hq) (ld_units _ _ _ _ _ Hl) (ld_file _ _ _ _ _ Hl) Hu) as [Hgood _].
  specialize (Hgood Hcat). rewrite (run_lift _ _ _ _ (eq_trans (f_equal (λ n, prepare_age_part s u n cut) (ro_bytes _ _ Hq)) Hgood)).
  destruct (registered_digest passphrase scrypt_log_n q p Hq c s us file Hc Hl i u Hi) as [[_ Hd]|Hd]; rewrite (run_lift _ _ _ _ Hd).
  all: rewrite (run_lift _ tt) by (cbn [pp_plaintext_sha256]; rewrite ?bool_decide_eq_true_2 by done; done).
  all: rewrite (run_lift _ plans) by by rewrite (segment_plans_good passphrase scrypt_log_n q p Hq c s us file Hc Hs Hl).
  all: rewrite (run_lift _ session) by done; cbn [pp_ciphertext].
  all: replace (_stored_archive_part u _) with (part_of p file u); [done|].
  all: unfold _stored_archive_part, part_of, stored_bytes; cbn; f_equal; symmetry; exact Hlen.
Qed.

Lemma unit_stream i u chunks : us !! i = Some u → concat chunks = plain p u → stream_ok q p (au_unit_number u) chunks.
Proof.
  intros Hi Hchunks x Hx. rewrite (unit_at p _ s us file Hl i u Hi) in Hx.
  replace (Z.to_nat (1 + Z.of_nat i - 1)) with i in Hx by lia.
  destruct (plain_unit q p Hq s us file Hl i u Hi) as (x' & Hx' & He). rewrite Hx in Hx'. injection Hx' as <-. by rewrite He.
Qed.

Lemma prepare_returns w c i u chunks : live w c i → us !! i = Some u → concat chunks = plain p u →
  ∃ receipts w' v, _prepare_and_write_archive_part passphrase source_read_chunk_bytes max_inflight_bytes (rq_plan q) c u chunks w =
      (Ok (part_of p file u, receipts), w') ∧
    w_row w' = w_row w ∧ objects (w_store w') = objects (w_store w) ∧
    writes (w_store w') !! rk_write_token c = Some v ∧ wv_content_type v = RAW_VOLUME_CONTENT_TYPE ∧
    recorded plans [part_of p file u] receipts ∧ Forall segment_valid receipts ∧ inv tokens w' ∧
    ∀ session, write_session c = Ok session → Forall (current (w_store w') session) receipts ∧
      ∀ r, wr_number r ∉ wr_number <$> receipts → current (w_store w) session r → current (w_store w') session r.
Proof.
  intros Hw Hi Hchunks. pose proof (live_good _ _ _ Hw) as Hc. pose proof (lv_session _ _ _ Hw) as Hs.
  pose proof (list_elem_of_lookup_2 _ _ _ Hi) as Hu. pose proof (hd_token _ _ _ _ (lv_held _ _ _ Hw) : tokens !! rk_write_token c = Some (rk_age_state_json c)) as Ht.
  pose proof (unit_stream i u chunks Hi Hchunks) as Hstream.
  pose proof (prepare_triple passphrase scrypt_log_n q p Hq source_read_chunk_bytes max_inflight_bytes tokens c s us file Hc Ht Hs Hl
    i u chunks Hi Hstream) as Htriple.
  destruct (write_session_ok c Hs) as (session & Hsession). destruct (lv_write _ _ _ Hw) as (v & Hv & Hct).
  pose proof (write_session_good _ _ _ _ c Hc session Hsession) as [_ Htok]. rewrite <- Htok in Hv.
  assert (increasing ws_number (filter (λ pl, ws_archive_part_number pl = au_unit_number u) plans)) as Hinc.
  { eapply increasing_sublist; [apply sublist_filter|]. by eapply plans_increasing. }
  destruct (write_returns session (stored file u) _ w v Hinc Hv) as (receipts & w' & v' & Hrun & Hrow & Ho & Hv' & Hct' & Hall & Hkept).
  pose proof (prepare_runs w c i u chunks session Hc Hs Hi Hchunks Hsession) as Hexec. rewrite (run_bind _ _ _ _ _ Hrun) in Hexec.
  destruct (Htriple w _ w' (lv_inv _ _ _ Hw) I Hexec) as (Hinv & _ & _ & plans' & Hp' & Hrec & Hvalid). cbn [snd] in *.
  assert (plans' = plans) as -> by congruence.
  exists receipts, w', v'. split; [exact Hexec|]. split_and!; try done; [by rewrite <- Htok|congruence|].
  intros session' Hsession'. assert (session' = session) as -> by congruence. split; [done|]. intros r Hr. apply Hkept.
  intros (pl & Hn & Hin)%list_elem_of_fmap. apply Hr. rewrite Hn. unfold recorded in Hrec.
  assert (plan_pair pl ∈ seg_pair <$> receipts) as (r' & He & Hr')%list_elem_of_fmap.
  { rewrite Hrec. apply list_elem_of_fmap_2. rewrite list_elem_of_filter in Hin |- *. destruct Hin as [Hn' Hin]. split; [|done].
    rewrite Hn'. cbn. by left. }
  injection He as He _. rewrite He. by apply list_elem_of_fmap_2.
Qed.

Lemma record_returns w w1 v c i u receipts : live w c i → us !! i = Some u → w_row w1 = w_row w →
  objects (w_store w1) = objects (w_store w) → writes (w_store w1) !! rk_write_token c = Some v →
  wv_content_type v = RAW_VOLUME_CONTENT_TYPE → recorded plans [part_of p file u] receipts → Forall segment_valid receipts →
  inv tokens w1 →
  (∀ session, write_session c = Ok session → Forall (current (w_store w1) session) receipts ∧
      ∀ r, wr_number r ∉ wr_number <$> receipts → current (w_store w) session r → current (w_store w1) session r) →
  ∃ e w', _record_part c (part_of p file u) receipts w1 = (Ok e, w') ∧ live w' e (S i).
Proof.
  intros Hw Hi Hrow Ho Hv Hct Hrec Hvalid Hinv Hcur. pose proof (live_good _ _ _ Hw) as Hc.
  pose proof (lv_session _ _ _ Hw) as Hs. pose proof (lv_open _ _ _ Hw) as Hopen. pose proof (lv_parts _ _ _ Hw) as Hparts.
  pose proof (list_elem_of_lookup_2 _ _ _ Hi) as Hu. pose proof (hd_token _ _ _ _ (lv_held _ _ _ Hw) : tokens !! rk_write_token c = Some (rk_age_state_json c)) as Ht.
  assert (au_unit_number u ∉ sap_number <$> rk_archive_parts c) as Hnew by (rewrite Hparts; by apply (unit_new p _ s us file Hl)).
  pose proof (new_segments p _ s us file Hl plans c i u receipts Hplans (layout_of_good _ _ _ _ c s us file Hc Hs Hl) Hi Hparts Hrec) as Hdisj.
  pose proof (kv_progress _ (gd_valid _ _ _ _ _ Hc)) as Hg.
  assert (increasing wr_number receipts) as Hinc by (eapply recorded_increasing; [eapply plans_increasing|]; eassumption).
  destruct (merge_by_ok wr_number segment_conflict (rk_write_segments c) receipts (pg_segments _ Hg) Hinc) as (segments & Hm).
  { intros x y Hx Hy He. exfalso. apply (Hdisj x Hx). rewrite He. by apply list_elem_of_fmap_2. }
  pose proof (proj1 (merge_by_iff _ _ _ _ _ (pg_segments _ Hg) Hinc) Hm) as [_ [_ Hz]].
  pose proof (layout_of_good _ _ _ _ c s us file Hc Hs Hl) as Hy.
  pose proof (lays_record p _ s us file Hl c u receipts segments plans Hy Hopen Hu Hnew Hplans Hrec Hvalid Hm) as Hy'.
  apply (good_layout _ _ _ _ c s us file Hc Hs Hl) in Hy' as Hge; [|done].
  destruct (save_keeps tokens w1 (extended p file c u segments) Hge) as (w' & Hrun & Hst & Hrow' & Hinv' & Hheld);
    [|done|done|cbn; rewrite Hopen; by intros []|].
  { destruct (lv_row _ _ _ Hw) as (r & Hr & Hkind & Hrc). exists r, (Some c). rewrite Hrow. split_and!; try done.
    intros d [= <-]. split; [done|]. split; try done; cbn.
    - intros z Hin. rewrite (sorted_byZ_perm sap_number). apply elem_of_app. by left.
    - intros z Hin. apply Hz. by left. }
  exists (extended p file c u segments), w'.
  split.
  - unfold _record_part. rewrite (no_part p c file u Hnew). cbv zeta. by rewrite (run_lift _ tt), (run_lift _ segments) by done.
  - split; try done; [by apply (extended_parts p _ s us file Hl)| | |].
    + intros session Hsession. rewrite Hst. destruct (Hcur session Hsession) as [Hnew' Hkept].
      pose proof (lv_current _ _ _ Hw session Hsession) as Hold. rewrite Forall_forall in *. intros r [Hin|Hin]%Hz; [|auto].
      apply Hkept; [by apply Hdisj|auto].
    + rewrite Hst, Ho. apply (lv_object _ _ _ Hw).
    + exists v. by rewrite Hst.
Qed.

(** ** Sealing *)

Lemma complete_served w c i session v m : live w c i → take i us = us → write_session c = Ok session →
  writes (w_store w) !! rk_write_token c = Some v → meta_of q (rk_age_state_json c) = Ok m → wv_metadata v = m →
  wv_path v = object_path → wv_content_type v = RAW_VOLUME_CONTENT_TYPE →
  ∃ r st', complete_write session (rk_write_segments c) (sumZ sap_stored_bytes (rk_archive_parts c)) RAW_VOLUME_CONTENT_TYPE m
      (w_store w) = (Ok r, st') ∧ co_object_path r = object_path.
Proof.
  intros Hw Htake Hsession Hv Hm Hmeta Hpath Hct. pose proof (live_good _ _ _ Hw) as Hc. pose proof (lv_session _ _ _ Hw) as Hs.
  destruct (write_session_good _ _ _ _ c Hc session Hsession) as [Hspath Htok]. rewrite <- Hspath. rewrite <- Htok in Hv.
  pose proof (lv_parts _ _ _ Hw) as Hparts. rewrite Htake in Hparts.
  pose proof (ly_segments _ _ _ _ (layout_of_good _ _ _ _ c s us file Hc Hs Hl)) as Hsegs. pose proof (segments_recorded _ _ _ _ Hsegs Hplans) as Hrec.
  rewrite Hparts in Hrec. apply (serve_complete session _ _ _ m _ v); try done.
  - by rewrite Hspath.
  - by apply (lv_current _ _ _ Hw).
  - rewrite Hparts. by apply (sealed_sums p _ s us file Hl plans).
  - rewrite Hspath. apply (lv_object _ _ _ Hw).
Qed.

Lemma complete_returns w c i : live w c i → take i us = us →
  ∃ e w', _complete passphrase c w = (Ok e, w') ∧ is_Some (rk_completed e).
Proof.
  intros Hw Htake. pose proof (live_good _ _ _ Hw) as Hc. pose proof (lv_session _ _ _ Hw) as Hs.
  pose proof (lv_parts _ _ _ Hw) as Hparts. rewrite Htake in Hparts. pose proof (kv_progress _ (gd_valid _ _ _ _ _ Hc)) as Hg.
  pose proof (hd_token _ _ _ _ (lv_held _ _ _ Hw) : tokens !! rk_write_token c = Some (rk_age_state_json c)) as Ht. pose proof (iv_store _ _ _ (lv_inv _ _ _ Hw)) as Hi.
  destruct (write_session_ok c Hs) as (session & Hsession). destruct (lv_write _ _ _ Hw) as (v & Hv & Hct).
  destruct (iv_tokens _ _ _ Hi _ _ Ht) as (_ & v' & Hv' & Hpath & Hm & _). assert (v' = v) as -> by congruence.
  destruct (complete_served w c i session v _ Hw Htake Hsession Hv Hm eq_refl Hpath Hct) as (receipt & st' & Hrun & Hrp).
  set (w1 := {| w_store := st'; w_row := w_row w |}). pose proof (layout_of_good _ _ _ _ c s us file Hc Hs Hl) as Hy.
  destruct (write_session_good _ _ _ _ c Hc session Hsession) as [Hsp Hst].
  pose proof (segments_recorded _ _ _ _ (ly_segments _ _ _ _ Hy) Hplans) as Hrec. rewrite Hparts in Hrec.
  destruct (complete_triple raw_upload (meta_perm _ _ _ _) tokens _ _ s us file Ht Hs Hl session (rk_write_segments c) plans _ (sumZ sap_stored_bytes (rk_archive_parts c)) Hsp Hst Hplans
    (recorded_all p _ s us file Hl plans _ Hplans Hrec) Hm w (Ok receipt) w1 (lv_inv _ _ _ Hw) I) as (Hinv & _ & Hok & Hseal & Hb).
  { unfold ask. cbn. by rewrite Hrun. }
  assert (sumZ sap_stored_bytes (rk_archive_parts c) = len file) as Hsum by (rewrite Hparts; by apply (stored_total _ _ _ _ _ Hl)).
  pose proof (lays_mark p _ s us file Hl c receipt Hy Hok Hb Hsum) as Hy'.
  apply (good_layout _ _ _ _ c s us file Hc Hs Hl) in Hy' as Hge; [|done].
  destruct (save_keeps tokens w1 (sealed_with c receipt) Hge) as (w' & Hsave & _); [|done|done|done|].
  { destruct (lv_row _ _ _ Hw) as (r & Hr & Hkind & Hrc). exists r, (Some c). split_and!; try done. intros d [= <-].
    split; [done|]. split; try done. intros k. by rewrite (lv_open _ _ _ Hw). }
  exists (sealed_with c receipt), w'. split; [|done]. unfold _complete. rewrite (lv_open _ _ _ Hw).
  rewrite (run_lift _ (rq_plan q)) by exact (checkpoint_plan_good passphrase scrypt_log_n q p Hq c Hc).
  rewrite (run_lift _ us) by exact (planned_good passphrase scrypt_log_n q p Hq c s us file Hc Hs Hl). cbv zeta.
  rewrite (sorted_byZ_id _ _ (pg_parts _ Hg)), (sorted_byZ_id _ _ (pg_segments _ Hg)).
  rewrite (run_lift _ tt) by (rewrite bool_decide_eq_true_2; [done|]; by rewrite Hparts, <- list_fmap_compose).
  rewrite (run_lift _ session) by done. rewrite (run_lift _ _ _ _ Hm), (run_ask _ _ _ _ _ Hrun). unfold _mark_completed.
  rewrite (sorted_byZ_id _ _ (pg_parts _ Hg)), (sorted_byZ_id _ _ (pg_segments _ Hg)). fold w1 (sealed_with c receipt).
  rewrite (run_lift _ tt); [exact Hsave|]. destruct (gd_static _ _ _ _ _ Hc) as (_ & _ & -> & _).
  rewrite Hb, Hparts, <- (stored_total _ _ _ _ _ Hl), Hrp, Z.eqb_refl. by rewrite bool_decide_eq_true_2.
Qed.

(** ** All units *)

Lemma live_next w c i u : live w c i → us !! i = Some u → rk_next_part c + 1 = au_unit_number u ∧ rk_next_part c = Z.of_nat i.
Proof.
  intros Hw Hi. pose proof (live_good _ _ _ Hw) as Hc. pose proof (unit_at p _ s us file Hl i u Hi) as Hn.
  assert (rk_next_part c = Z.of_nat i) as ->; [|lia].
  rewrite (pg_next _ (kv_progress _ (gd_valid _ _ _ _ _ Hc))), (lv_parts _ _ _ Hw). by apply (next_after p _ s us file Hl _ u).
Qed.

Lemma unit_returns w c i u chunks : live w c i → us !! i = Some u → concat chunks = plain p u →
  ∃ e w', upload_unit passphrase source_read_chunk_bytes max_inflight_bytes (rq_plan q) c (au_unit_number u) chunks w = (Ok e, w') ∧
    if (S i =? length us)%nat then is_Some (rk_completed e) else live w' e (S i).
Proof.
  intros Hw Hi Hchunks. pose proof (live_good _ _ _ Hw) as Hc. pose proof (lv_session _ _ _ Hw) as Hs.
  destruct (prepare_returns w c i u chunks Hw Hi Hchunks) as (receipts & w1 & v & Hprep & Hrow & Ho & Hv & Hct & Hrec & Hvalid & Hi1 & Hcur).
  destruct (record_returns w w1 v c i u receipts Hw Hi Hrow Ho Hv Hct Hrec Hvalid Hi1 Hcur) as (e & w2 & Hrun & Hlive).
  assert (len (rk_archive_parts e) = Z.of_nat (S i)) as Hlen.
  { rewrite (lv_parts _ _ _ Hlive), len_fmap. unfold len. apply lookup_lt_Some in Hi. rewrite length_take. lia. }
  assert (upload_unit passphrase source_read_chunk_bytes max_inflight_bytes (rq_plan q) c (au_unit_number u) chunks w =
    (if len (rk_archive_parts e) =? len us then _complete passphrase e else mret e) w2) as ->.
  { unfold upload_unit. rewrite (run_lift _ tt) by (apply (validate_good passphrase scrypt_log_n q p Hq c s us file Hc Hs Hl plans Hplans);
      rewrite (lv_open _ _ _ Hw); by intros []). rewrite (lv_open _ _ _ Hw).
    rewrite (run_lift _ us) by exact (planned_good passphrase scrypt_log_n q p Hq c s us file Hc Hs Hl).
    pose proof (unit_at p _ s us file Hl i u Hi) as Hn. rewrite (proj2 (Z.ltb_ge (au_unit_number u) 1)) by lia.
    replace (Z.to_nat (au_unit_number u - 1)) with i by lia. rewrite Hi.
    pose proof (no_part p c file u) as Hnone. cbn [sap_number part_of] in Hnone.
    rewrite Hnone by (rewrite (lv_parts _ _ _ Hw); by apply (unit_new p _ s us file Hl)).
    by rewrite (run_bind _ _ _ _ _ Hprep), (run_bind _ _ _ _ _ Hrun). }
  rewrite Hlen. unfold len. destruct (Nat.eqb_spec (S i) (length us)) as [He|He].
  - rewrite (proj2 (Z.eqb_eq _ _)) by lia. apply (complete_returns w2 e (S i) Hlive). by apply take_ge; lia.
  - rewrite (proj2 (Z.eqb_neq _ _)) by lia. by exists e, w2.
Qed.

Lemma next_returns w c i u chunks : live w c i → us !! i = Some u → concat chunks = plain p u →
  ∃ e w', upload_next_unit passphrase source_read_chunk_bytes max_inflight_bytes (rq_plan q) c chunks w = (Ok e, w') ∧
    if (S i =? length us)%nat then is_Some (rk_completed e) else live w' e (S i).
Proof.
  intros Hw Hi Hchunks. destruct (live_next w c i u Hw Hi) as [Hn Hz].
  destruct (unit_returns w c i u chunks Hw Hi Hchunks) as (e & w' & Hrun & Hpost). exists e, w'. split; [|done].
  unfold upload_next_unit. rewrite (lv_open _ _ _ Hw).
  rewrite (run_lift _ us) by exact (planned_good passphrase scrypt_log_n q p Hq c s us file (live_good _ _ _ Hw) (lv_session _ _ _ Hw) Hl).
  apply lookup_lt_Some in Hi. rewrite (proj2 (Z.leb_gt _ _)) by (unfold len; lia). by rewrite Hn.
Qed.

Lemma units_return streams w cs c i : live w c i → c ∈ cs → (i < length us)%nat →
  Forall2 (λ u chunks, concat chunks = plain p u) (drop i us) streams →
  ∃ e w' cs', upload_units c streams w = (Ok e, w') ∧ is_Some (rk_completed e) ∧ rtc ustep (w, cs) (w', cs') ∧ e ∈ cs'.
Proof.
  revert w cs c i. induction streams as [|chunks streams IH]; intros w cs c i Hw Hc Hlt Hall.
  { apply Forall2_nil_inv_r in Hall. apply (f_equal length) in Hall. rewrite length_drop in Hall. cbn in Hall. lia. }
  destruct (lookup_lt_is_Some_2 us i Hlt) as [u Hi]. rewrite (drop_S _ _ _ Hi) in Hall. apply Forall2_cons in Hall as [Hchunks Hall].
  destruct (next_returns w c i u chunks Hw Hi Hchunks) as (e & w1 & Hrun & Hpost).
  assert (ustep (w, cs) (w1, e :: cs)) as Hstep.
  { apply (step_next _ _ _ _ _ _ w (Ok e) w1 cs c chunks Hc); [|done]. rewrite (proj1 (live_next w c i u Hw Hi)).
    by apply (unit_stream i u). }
  cbn [upload_units]. rewrite (run_bind _ _ _ _ _ Hrun). destruct (Nat.eqb_spec (S i) (length us)) as [He|Hne].
  - rewrite drop_ge in Hall by lia. apply Forall2_nil_inv_l in Hall as ->. exists e, w1, (e :: cs). split; [done|].
    split; [done|]. split; [by apply rtc_once|by left].
  - destruct (IH w1 (e :: cs) e (S i) Hpost ltac:(by left) ltac:(lia) Hall) as (e' & w' & cs' & Hrest & Hdone & Hrtc & Hin).
    exists e', w', cs'. split_and!; try done. by eapply rtc_l.
Qed.
End laid_out.

(** ** Opening *)

Lemma metadata_ok text s : session_text text s → ∃ base m, _metadata (rq_plan q) None = Ok base ∧ meta_of q text = Ok m.
Proof.
  intros (_ & _ & _ & state & _ & _ & _ & _ & Hv & _ & -> & _). unfold meta_of, _metadata.
  destruct (utf8_encode_ok _ (proj2 (ro_source _ _ Hq))) as [path ->]. rewrite !ok_bind. cbv zeta.
  destruct (age_text_read state Hv) as (_ & _ & _ & ->). rewrite ok_bind.
  destruct (utf8_encode_ok (dumps true (upload_state_payload state))) as [content Hc]; [by apply dumps_text, upload_payload_wf|].
  unfold to_json_bytes. rewrite Hc, ok_bind. by eexists _, _.
Qed.

(** Nothing fails before the store is asked to begin. *)
Lemma start_runs w s us file file_key salt nonce : create (PassText passphrase) scrypt_log_n file_key salt nonce None = Ok s →
  laid s us file → objects (w_store w) !! object_path = None → bytes_ok file_key → bytes_ok salt → bytes_ok nonce →
  ∃ text m n st, session_text text s ∧ meta_of q text = Ok m ∧ drawn_metadata passphrase scrypt_log_n q file_key salt nonce = Ok m ∧
    unchanged (w_store w) st ∧
    start passphrase scrypt_log_n (rq_collection_id q) (rq_plan q) object_path (rq_relative_path q) (rq_target q)
      (rq_expected q) file_key salt nonce w =
    (write ← ask (begin_write object_path n RAW_VOLUME_CONTENT_TYPE m);
     _save (first_checkpoint q (wn_write_token write) text)) {| w_store := st; w_row := w_row w |}.
Proof.
  intros Hs Hl Hnone Hk Hsalt Hn. pose proof (len_nonneg p) as Hp.
  destruct (resume_created _ _ _ _ _ _ s (Some (len p)) Hs Hk Hsalt Hn Hp) as (state & content & Hexp & Hto & Hfrom & _).
  unfold from_json_bytes in Hfrom. apply bind_Ok in Hfrom as (text & Hdec & _).
  pose proof (created_text passphrase scrypt_log_n p _ _ _ _ _ _ _ Hs Hk Hsalt Hn Hexp Hto Hdec) as Ht.
  destruct (metadata_ok text s Ht) as (base & m & Hbase & Hm). destruct (expected_bytes_ok p _ s us file Hl (len (age_prefix s))) as [n Hlen].
  destruct (serve_find object_path n RAW_VOLUME_CONTENT_TYPE base (w_store w)) as (found & st & Hfind).
  pose proof (find_law _ _ _ _ _ _ _ Hfind) as [Hu Hr].
  assert (found = None) as ->.
  { destruct found as [receipt|]; [|done]. destruct Hr as [_ (o & Ho & _)]. congruence. }
  exists text, m, n, st. split_and!; try done.
  { unfold drawn_metadata. by rewrite Hs, ok_bind, (ro_bytes _ _ Hq), Hexp, ok_bind, Hto, ok_bind, Hdec, ok_bind. }
  unfold start. rewrite (run_lift _ _ _ _ Hs).
  rewrite (run_lift _ us) by exact (planned_session q p Hq s us file Hl).
  rewrite (run_lift _ tt).
  2: { destruct (ro_digests _ _ Hq) as [->| ->]; [done|]. unfold unit_digests.
       pose proof (f_equal len (raw_spans p (rq_target q) (ro_limit _ _ Hq) (ro_target _ _ Hq) _ _ (ld_units _ _ _ _ _ Hl))) as Hlen'. rewrite !len_fmap in Hlen'. rewrite len_fmap, <- Hlen', Z.eqb_refl.
       by rewrite andb_false_r. }
  rewrite (ro_bytes _ _ Hq). rewrite (run_lift _ _ _ _ Hexp), (run_lift _ _ _ _ Hto), (run_lift _ _ _ _ Hdec), (run_lift _ _ _ _ Hlen).
  rewrite (run_lift _ _ _ _ Hbase), (run_ask _ _ _ _ _ Hfind), (run_lift _ tt) by done. rewrite (run_lift _ _ _ _ Hm).
  unfold first_checkpoint. by rewrite (ro_bytes _ _ Hq).
Qed.

Lemma start_returns w r s us file file_key salt nonce : initial q w → w_row w = Some r → ur_kind r = str "segment" →
  fresh passphrase scrypt_log_n q file_key salt nonce (w_store w) →
  create (PassText passphrase) scrypt_log_n file_key salt nonce None = Ok s → laid s us file →
  ∃ tokens c w', start passphrase scrypt_log_n (rq_collection_id q) (rq_plan q) object_path (rq_relative_path q) (rq_target q)
      (rq_expected q) file_key salt nonce w = (Ok c, w') ∧ live tokens s us file w' c 0.
Proof.
  intros [Hobj Hempty] Hr Hkind (Hk & Hsalt & Hn & Hfresh) Hs Hl.
  destruct (start_runs w s us file file_key salt nonce Hs Hl Hobj Hk Hsalt Hn) as (text & m & n & st & Ht & Hm & Hd & Hu & Hrun).
  destruct (serve_begin object_path n RAW_VOLUME_CONTENT_TYPE m st) as (write & st' & Hb).
  pose proof (begin_law _ _ _ _ _ _ _ Hb) as [Htok Hcase]. specialize (Hfresh m Hd). destruct Hu as [Hwr Hob]. unfold unused in Hfresh. rewrite <- Hwr in Hfresh.
  destruct Hcase as [Hbegun|[_ (v & Hv & Hsame)]]; [|by destruct (Hfresh _ _ Hv)].
  destruct (initial_inv passphrase scrypt_log_n q p w (conj Hobj Hempty)) as (tokens & Hinv & _). cbn [fst] in Hinv.
  pose proof (unchanged_inv _ tokens _ _ (conj Hwr Hob) (iv_store _ _ _ Hinv)) as Hst.
  destruct (begun_inv raw_upload tokens _ _ _ text s _ _ Hst Hbegun Ht Hm Hfresh) as (Hsub & Hst' & Hstays).
  pose proof (unchanged_stays raw_upload _ _ (conj Hwr Hob)) as Hstays0.
  pose proof (inv_store raw_upload _ _ w st' Hinv Hsub Hst' ltac:(by etrans)) as Hinv'.
  destruct Hbegun as (Hnew & Ho & Hw). set (c := first_checkpoint q (wn_write_token write) text).
  destruct (save_keeps (<[wn_write_token write := text]> tokens) {| w_store := st'; w_row := w_row w |} c) as
    (w' & Hsave & Hsame & Hrow & Hi' & Hheld); [by eapply first_good| |apply lookup_insert_eq|done|by intros []|].
  { exists r, None. split_and!; try done. unfold row_checkpoint. by rewrite (Hempty r Hr). }
  exists (<[wn_write_token write := text]> tokens), c, w'. split.
  { rewrite Hrun. by rewrite (run_ask _ write st' _ {| w_store := st; w_row := w_row w |} Hb). }
  split; try done; rewrite Hsame; cbn [w_store].
  - by rewrite Ho, Hob.
  - rewrite Hw. cbn [c first_checkpoint rk_write_token]. rewrite lookup_insert_eq. by eexists.
Qed.

Lemma created_laid s file_key salt nonce : create (PassText passphrase) scrypt_log_n file_key salt nonce None = Ok s →
  bytes_ok file_key → bytes_ok salt → bytes_ok nonce → ∃ us file, laid s us file.
Proof.
  intros Hs Hk Hsalt Hn. pose proof (len_nonneg p) as Hp.
  destruct (resume_created _ _ _ _ _ _ s (Some (len p)) Hs Hk Hsalt Hn Hp) as (state & content & Hexp & Hto & Hfrom & _).
  unfold from_json_bytes in Hfrom. apply bind_Ok in Hfrom as (text & Hdec & _).
  apply (session_units passphrase scrypt_log_n p (rq_target q) (ro_limit _ _ Hq) (ro_target _ _ Hq) text s).
  exact (created_text passphrase scrypt_log_n p _ _ _ _ _ _ _ Hs Hk Hsalt Hn Hexp Hto Hdec).
Qed.

Lemma open_returns w r s us file_key salt nonce :
  check_request (rq_collection_id q) (rq_plan q) object_path (rq_relative_path q) (rq_target q) (rq_expected q) =
    Ok (rq_relative_path q, rq_expected q) →
  initial q w → w_row w = Some r → ur_kind r = str "segment" →
  fresh passphrase scrypt_log_n q file_key salt nonce (w_store w) →
  create (PassText passphrase) scrypt_log_n file_key salt nonce None = Ok s →
  raw_age_aligned_unit_plans (rq_plan q) s (rq_target q) = Ok us →
  ∃ tokens file c w', laid s us file ∧ open_request passphrase scrypt_log_n q file_key salt nonce w = (Ok c, w') ∧
    live tokens s us file w' c 0.
Proof.
  intros Hcheck Hinit Hr Hkind Hfresh Hs Hus. pose proof Hfresh as (Hk & Hsalt & Hn & _).
  destruct (created_laid s file_key salt nonce Hs Hk Hsalt Hn) as (us' & file & Hl).
  rewrite (planned_session q p Hq s us' file Hl) in Hus. apply Ok_eq in Hus as <-.
  destruct (start_returns w r s us' file file_key salt nonce Hinit Hr Hkind Hfresh Hs Hl) as (tokens & c & w1 & Hstart & Hlive).
  exists tokens, file, c, w1. split_and!; try done. unfold open_request, open. rewrite (run_lift _ _ _ _ Hcheck). cbv beta iota.
  unfold mbind at 1, effect_bind at 1, load_checkpoint. rewrite Hr. unfold load_raw_upload_checkpoint.
  rewrite (proj2 Hinit r Hr). by destruct (bool_decide _).
Qed.

Notation reachable := (reachable passphrase scrypt_log_n source_read_chunk_bytes max_inflight_bytes q p).

Lemma send_returns w r s us plans streams file_key salt nonce :
  check_request (rq_collection_id q) (rq_plan q) object_path (rq_relative_path q) (rq_target q) (rq_expected q) =
    Ok (rq_relative_path q, rq_expected q) →
  initial q w → w_row w = Some r → ur_kind r = str "segment" →
  fresh passphrase scrypt_log_n q file_key salt nonce (w_store w) →
  create (PassText passphrase) scrypt_log_n file_key salt nonce None = Ok s →
  raw_age_aligned_unit_plans (rq_plan q) s (rq_target q) = Ok us →
  plan_write_segments (ciphertext_len <$> us) write_constraints = Ok plans →
  64 * 1024 ≤ source_read_chunk_bytes →
  (∀ u, u ∈ us → ciphertext_len u + source_read_chunk_bytes + CHUNK_SIZE ≤ max_inflight_bytes) →
  Forall2 (λ u chunks, concat chunks = slice (au_plaintext_start u) (au_plaintext_end u) p) us streams →
  ∃ c k w' cs, send file_key salt nonce streams w = (Ok c, w') ∧ rk_completed c = Some k ∧ reachable (w', cs) ∧ c ∈ cs.
Proof.
  intros Hcheck Hinit Hr Hkind Hfresh Hs Hus Hplans Hread Hbudget Hstreams.
  destruct (open_returns w r s us file_key salt nonce Hcheck Hinit Hr Hkind Hfresh Hs Hus) as (tokens & file & c & w1 & Hl & Hopen & Hlive).
  assert (0 < length us)%nat as Hpos by (pose proof (ld_nonempty _ _ _ _ _ Hl); destruct us; [done|cbn; lia]).
  destruct (units_return tokens s us file plans Hl Hplans Hread Hbudget streams w1 [c] c 0 Hlive) as
    (e & w' & cs & Hrun & [k Hdone] & Hrtc & Hin); [by left|done|by rewrite drop_0|].
  exists e, k, w', cs. split_and!; [|done| |done].
  - unfold send. by rewrite (run_bind _ _ _ _ _ Hopen).
  - exists w. split; [done|]. eapply rtc_l; [|exact Hrtc].
    exact (step_open _ _ _ _ _ _ w (Ok c) w1 [] file_key salt nonce Hfresh Hopen).
Qed.
End progress.

(** ** Properties *)

Section upload_properties.
Context `{PyEnv} `{Aead} (passphrase : pystr) (scrypt_log_n : Z).
Context (source_read_chunk_bytes max_inflight_bytes : Z) (q : Request) (p : pybytes).

(** C1. What a sealed checkpoint stands for: in every reachable state of the
    system (any number of openings, stale or current checkpoints, units in any
    order, repeated or aborted, a store that may raise at any call with or
    without its effect, other users of the store), a completed checkpoint in any
    caller's hands means that the object at the path is an age file of exactly
    the recorded size that decrypts under the passphrase to the plaintext [p] of
    the volume, that [sealed_receipt] accepts the checkpoint, and that the receipt
    passes the part-by-part verification of the object, however a reader chunks
    it.  Where the client registered the digests of its units, callers may stream
    any bytes at all for a unit but a SHA-256 collision with its digest.  Where it
    registered none, the code takes the bytes it is sent; there [p] is whatever
    plaintext of the planned length the callers send, and the statement is about
    runs in which no two bodies of a unit's length differ (bodies of any other
    length may be sent at any time). *)
Theorem sealed_upload_is_the_file `{StoreContract} w cs c k : request_ok q p →
  reachable passphrase scrypt_log_n source_read_chunk_bytes max_inflight_bytes q p (w, cs) → c ∈ cs →
  rk_completed c = Some k → stands_for passphrase q p (w_store w) c k.
Proof. intros Hq. by apply sealed_stands. Qed.

(** C35. A unit with other bytes than registered changes nothing: for an open
    checkpoint in the hands of any caller of a reachable system, and a unit that
    it has not recorded yet, a stream whose digest is not the one that was
    registered for the unit makes [upload_unit] raise, and neither the store nor
    the row is touched, whatever the state of the store. *)
Theorem wrong_unit_changes_nothing `{StoreContract} w cs c number u chunks : request_ok q p →
  reachable passphrase scrypt_log_n source_read_chunk_bytes max_inflight_bytes q p (w, cs) → c ∈ cs → rk_completed c = None →
  rq_expected q ≠ [] → 1 ≤ number → plain_units p (rq_target q) !! Z.to_nat (number - 1) = Some u →
  _part_by_number (rk_archive_parts c) number = None → sha256_hex (concat chunks) ≠ sha256_hex (plain p u) →
  ∃ e, upload_unit passphrase source_read_chunk_bytes max_inflight_bytes (rq_plan q) c number chunks w = (Err e, w).
Proof.
  intros Hq Hr Hin. destruct (system_reachable_inv _ _ _ _ _ _ Hq _ Hr) as (tokens & _ & Hcs). cbn [snd] in Hcs.
  rewrite Forall_forall in Hcs. apply (wrong_unit_refused passphrase scrypt_log_n); [done|]. apply (Hcs c Hin).
Qed.

(** C5. Uploads finish: with a store that serves its calls, opening a volume
    whose row and path are empty and sending the units in order, each in chunks
    of any sizes, returns a completed checkpoint, and the object it stands for is
    there.  The hypotheses are those under which the code raises nothing: an
    acceptable request, a session that can be created, a segment plan that the
    adapter's constraints allow, a budget that admits the buffers of a unit. *)
Theorem upload_completes `{StoreServes} w r s us plans streams file_key salt nonce : request_ok q p →
  check_request (rq_collection_id q) (rq_plan q) (rq_object_path q) (rq_relative_path q) (rq_target q) (rq_expected q) =
    Ok (rq_relative_path q, rq_expected q) →
  initial q w → w_row w = Some r → ur_kind r = str "segment" →
  fresh passphrase scrypt_log_n q file_key salt nonce (w_store w) →
  create (PassText passphrase) scrypt_log_n file_key salt nonce None = Ok s →
  raw_age_aligned_unit_plans (rq_plan q) s (rq_target q) = Ok us →
  plan_write_segments (ciphertext_len <$> us) write_constraints = Ok plans →
  64 * 1024 ≤ source_read_chunk_bytes →
  (∀ u, u ∈ us → ciphertext_len u + source_read_chunk_bytes + CHUNK_SIZE ≤ max_inflight_bytes) →
  Forall2 (λ u chunks, concat chunks = slice (au_plaintext_start u) (au_plaintext_end u) p) us streams →
  ∃ c k w', send passphrase scrypt_log_n source_read_chunk_bytes max_inflight_bytes q file_key salt nonce streams w = (Ok c, w') ∧
    rk_completed c = Some k ∧ stands_for passphrase q p (w_store w') c k.
Proof.
  intros Hq Hcheck Hinit Hr Hkind Hfresh Hs Hus Hplans Hread Hbudget Hstreams.
  destruct (send_returns passphrase scrypt_log_n source_read_chunk_bytes max_inflight_bytes q p Hq w r s us plans streams
    file_key salt nonce) as (c & k & w' & cs & Hrun & Hk & Hreach & Hin); try done.
  exists c, k, w'. split; [done|]. split; [done|]. by eapply sealed_stands.
Qed.
End upload_properties.

(** ** An upload in memory *)

Definition memory_current (s : memory) (session : WriteSession) (r : WriteSegmentReceipt) : Prop :=
  ∃ v content, mem_writes s !! wn_write_token session = Some v ∧ wv_segments v !! wr_number r = Some content ∧
    wr_segment_token r = sha256_hex content ∧ wr_bytes r = len content.

Lemma gather_current v segments : Forall (λ r, ∃ content, wv_segments v !! wr_number r = Some content ∧
    wr_segment_token r = sha256_hex content ∧ wr_bytes r = len content) segments →
  ∃ contents, gather v segments = Some contents ∧ len (concat contents) = sumZ wr_bytes segments.
Proof.
  intros Hall. assert (∃ contents, Forall2 (λ r content, wv_segments v !! wr_number r = Some content ∧
    wr_segment_token r = sha256_hex content ∧ wr_bytes r = len content) segments contents) as [contents Hc]
    by by apply Forall_exists_Forall2_l.
  exists contents. split.
  - apply mapM_Some. eapply Forall2_impl; [exact Hc|]. intros r content (Hl & Ht & Hb). cbn. rewrite Hl. cbn.
    by rewrite bool_decide_eq_true_2.
  - clear Hall. induction Hc as [|r content segments contents (_ & _ & Hb) _ IH]; [done|]. cbn [concat].
    rewrite len_app, sumZ_cons. lia.
Qed.

#[global] Instance memory_serves constraints : @StoreServes _ _ (memory_contract constraints).
Proof.
  refine {| current := memory_current : @ost (memory_store constraints) → _ |}.
  - intros s session r r' Hn Ht Hb (v & content & Hv & Hc & Htoken & Hbytes). exists v, content. by rewrite Hn, Ht, Hb.
  - intros session number content s r s' receipt. cbn. unfold memory_write. intros Hrun Hne (v & x & Hv & Hx & Hr).
    rewrite Hv in Hrun. injection Hrun as _ <-. eexists _, x. cbn. rewrite lookup_insert_eq. split; [done|]. cbn.
    by rewrite lookup_insert_ne.
  - intros path n content_type m s. cbn. by eexists _, _.
  - intros path n content_type m s. cbn. by eexists _, _.
  - intros session number content s v Hv. cbn. unfold memory_write. cbn in Hv. rewrite Hv. eexists _, _. split; [done|].
    split_and!; try done. eexists _, content. cbn [mem_writes]. rewrite lookup_insert_eq. split; [done|]. cbn [wv_segments with_segments wr_number segment_receipt].
    by rewrite lookup_insert_eq.
  - intros session segments n content_type m s v Hv Hpath Hct Hm Hall Hn Hnone. cbn in *. unfold memory_complete.
    rewrite Hv, Hnone. destruct (gather_current v segments) as (contents & Hg & Hlen).
    { eapply Forall_impl; [exact Hall|]. intros r (v' & content & Hv' & Hr). exists content. by replace v with v' by congruence. }
    rewrite Hg, bool_decide_eq_true_2 by (split_and!; try done; by rewrite Hlen). by eexists _, _.
Defined.

Definition sample_constraints : ResumableWriteConstraints :=
  {| minimum_nonfinal_segment_bytes := 1; maximum_segment_bytes := Some 100; maximum_segment_count := None |}.

Definition sample_request : Request :=
  {| rq_collection_id := 1;
     rq_plan := {| rv_volume_id := srv_volume_id sample_volume; rv_sequence := 0; rv_source_path := str "a"; rv_file_offset := 0;
                   rv_plaintext_bytes := 5; rv_file_bytes := 5; rv_file_sha256 := af_sha256 sample_file |};
     rq_object_path := str "c/" ++ srv_relative_path sample_volume; rq_relative_path := srv_relative_path sample_volume;
     rq_target := 65536; rq_expected := [af_sha256 sample_file] |}.

Definition empty_row : UploadRow :=
  {| ur_kind := str "segment"; ur_checkpoint_json := None; ur_uploaded_bytes := 0; ur_uploaded_units := 0;
     ur_state := str "planned"; ur_payload_bytes := Some 0 |}.

Section in_memory.
#[local] Existing Instance ascii_env.
#[local] Existing Instance tag_aead.
#[local] Instance sample_store : ObjectStore := memory_store sample_constraints.
#[local] Instance sample_view : StoreView := memory_view sample_constraints.
#[local] Instance sample_contract : StoreContract := memory_contract sample_constraints.
#[local] Instance sample_serves : StoreServes := memory_serves sample_constraints.

Definition empty_world : world := {| w_store := {| mem_writes := ∅; mem_objects := ∅ |} : ost; w_row := Some empty_row |}.

Definition sample_session : ResumableAgeScryptSession :=
  Eval vm_compute in match create (PassText (str "pw")) 1 example_key example_salt example_nonce None with
                     | Ok s => s
                     | Err _ => example_session
                     end.

Definition sample_units : list AgeAlignedUnitPlan :=
  Eval vm_compute in match raw_age_aligned_unit_plans (rq_plan sample_request) sample_session 65536 with Ok us => us | Err _ => [] end.

Definition sample_plans : list WriteSegmentPlan :=
  Eval vm_compute in match plan_write_segments (ciphertext_len <$> sample_units) sample_constraints with Ok l => l | Err _ => [] end.

Lemma sample_path_text : text_ok (srv_relative_path sample_volume).
Proof. repeat (apply Forall_cons; split; [split; [split; [discriminate|reflexivity]|reflexivity]|]). apply Forall_nil. done. Qed.

Lemma sample_request_ok : request_ok sample_request (str "hello").
Proof.
  split.
  - discriminate.
  - vm_compute. reflexivity.
  - split; [discriminate|]. apply Forall_app. split; [apply str_text|apply sample_path_text].
  - split; [vm_compute; reflexivity|apply sample_path_text].
  - split; [vm_compute; reflexivity|apply str_text].
  - split; discriminate.
  - vm_compute. reflexivity.
  - split; [discriminate|reflexivity].
  - reflexivity.
  - discriminate.
  - right. vm_compute. reflexivity.
Qed.

Lemma sample_fresh : fresh (str "pw") 1 sample_request example_key example_salt example_nonce (w_store empty_world).
Proof.
  split_and!; [..|by intros m _ t v]; repeat (apply Forall_cons; split; [split; [discriminate|reflexivity]|]); by apply Forall_nil.
Qed.

Definition sample_stream : list (list pybytes) := [[str "hel"; []; str "lo"]].

(** The hypotheses of the two theorems. *)
Lemma sample_ready :
  check_request 1 (rq_plan sample_request) (rq_object_path sample_request) (rq_relative_path sample_request) 65536
    (rq_expected sample_request) = Ok (rq_relative_path sample_request, rq_expected sample_request) ∧
  initial sample_request empty_world ∧
  create (PassText (str "pw")) 1 example_key example_salt example_nonce None = Ok sample_session ∧
  raw_age_aligned_unit_plans (rq_plan sample_request) sample_session 65536 = Ok sample_units ∧
  plan_write_segments (ciphertext_len <$> sample_units) sample_constraints = Ok sample_plans ∧
  (∀ u, u ∈ sample_units → ciphertext_len u + 65536 + CHUNK_SIZE ≤ 1000000) ∧
  Forall2 (λ u chunks, concat chunks = slice (au_plaintext_start u) (au_plaintext_end u) (str "hello")) sample_units sample_stream.
Proof.
  split_and!.
  - vm_compute. reflexivity.
  - split; [reflexivity|]. by intros r [= <-].
  - vm_compute. reflexivity.
  - vm_compute. reflexivity.
  - vm_compute. reflexivity.
  - intros u Hu. apply list_elem_of_singleton in Hu as ->. vm_compute. discriminate.
  - repeat constructor.
Qed.

Lemma sealed_upload_is_the_file_witness : ∃ w cs c k,
  reachable (str "pw") 1 65536 1000000 sample_request (str "hello") (w, cs) ∧ c ∈ cs ∧ rk_completed c = Some k ∧
  stands_for (str "pw") sample_request (str "hello") (w_store w) c k.
Proof.
  destruct sample_ready as (Hcheck & Hinit & Hs & Hus & Hplans & Hbudget & Hstream).
  destruct (send_returns (str "pw") 1 65536 1000000 sample_request (str "hello") sample_request_ok empty_world empty_row
    sample_session sample_units sample_plans sample_stream example_key example_salt example_nonce Hcheck Hinit eq_refl eq_refl
    sample_fresh Hs Hus Hplans (Z.le_refl _) Hbudget Hstream) as (c & k & w' & cs & _ & Hk & Hr & Hin).
  exists w', cs, c, k. split; [exact Hr|]. split; [exact Hin|]. split; [exact Hk|].
  exact (sealed_upload_is_the_file (str "pw") 1 65536 1000000 sample_request (str "hello") w' cs c k sample_request_ok Hr Hin Hk).
Defined.

Lemma wrong_unit_changes_nothing_witness : ∃ c w e,
  open_request (str "pw") 1 sample_request example_key example_salt example_nonce empty_world = (Ok c, w) ∧
  upload_unit (str "pw") 65536 1000000 (rq_plan sample_request) c 1 [str "hella"] w = (Err e, w).
Proof.
  destruct sample_ready as (Hcheck & Hinit & Hs & Hus & _).
  destruct (open_returns (str "pw") 1 sample_request (str "hello") sample_request_ok empty_world empty_row
    sample_session sample_units example_key example_salt example_nonce Hcheck Hinit eq_refl eq_refl sample_fresh Hs Hus)
    as (tokens & file & c & w & Hl & Hrun & Hlive). exists c, w.
  assert (∃ u, plain_units (str "hello") 65536 !! 0%nat = Some u ∧
    sha256_hex (concat [str "hella"]) ≠ sha256_hex (plain (str "hello") u)) as (u & Hu & Hwrong).
  { eexists. split; [reflexivity|]. vm_compute. discriminate. }
  destruct (wrong_unit_changes_nothing (str "pw") 1 65536 1000000 sample_request (str "hello") w [c] c 1 u [str "hella"]
    sample_request_ok) as [e He].
  - exists empty_world. split; [exact Hinit|]. apply rtc_once.
    exact (step_open _ _ _ _ _ _ empty_world (Ok c) w [] example_key example_salt example_nonce sample_fresh Hrun).
  - by left.
  - apply (lv_open _ _ _ _ _ _ _ _ _ _ _ Hlive).
  - discriminate.
  - lia.
  - exact Hu.
  - rewrite (lv_parts _ _ _ _ _ _ _ _ _ _ _ Hlive). reflexivity.
  - exact Hwrong.
  - exists e. split; [exact Hrun|exact He].
Defined.

Lemma upload_completes_witness : ∃ c k w',
  send (str "pw") 1 65536 1000000 sample_request example_key example_salt example_nonce sample_stream empty_world = (Ok c, w') ∧
  rk_completed c = Some k ∧ stands_for (str "pw") sample_request (str "hello") (w_store w') c k.
Proof.
  destruct sample_ready as (Hcheck & Hinit & Hs & Hus & Hplans & Hbudget & Hstream).
  exact (upload_completes (str "pw") 1 65536 1000000 sample_request (str "hello") empty_world empty_row
    sample_session sample_units sample_plans sample_stream example_key example_salt example_nonce sample_request_ok Hcheck Hinit
    eq_refl eq_refl sample_fresh Hs Hus Hplans (Z.le_refl _) Hbudget Hstream).
Defined.
End in_memory.
