(* ===== verification/RawRetrieval.v ===== *)
(** * Reading raw volumes back in ranges

    [raw_retrieval.py]: the parts of a volume that a range touches are fetched by
    a pool of workers, ahead of the consumer as far as the byte budget admits,
    authenticated, decrypted and delivered in order; a file is the sequence of its
    volumes.

    A worker computes the result of its part from the store and nothing else, so a
    future is its result.  The budget is shared: a call that does not wait may be
    admitted or not, and this is given by a list of answers.  The consumer may
    close the generator after any chunk.  The model keeps what a call holds of the
    budget.  Timings and the gate of concurrent requests are left out. *)

From S2P Require Import Prelude Text Json Sha256 Paths Domain RawVolume Crypto Base64 Age AgeUnits AgeRange.
From S2P Require Import StreamingAge RawVerification.

(** ** Sources *)

Record RawVolumeRetrievalSource := {
  rt_volume_id : pystr;
  rt_object_path : pystr;
  rt_revision : option pystr;
  rt_source_path : pystr;
  rt_file_offset : Z;
  rt_plaintext_bytes : Z;
  rt_file_bytes : Z;
  rt_file_sha256 : pystr;
  rt_age_state_json : pystr;
  rt_parts : list StoredArchivePart;
}.

(** One turn of the loop of [__post_init__]: the expected number and start. *)
Definition source_part_step (st : Z * Z) (part : StoredArchivePart) : result (Z * Z) :=
  let '(expected_number, expected_start) := st in
  when negb (sap_number part =? expected_number) || negb (sap_plaintext_start part =? expected_start)
       || (sap_plaintext_bytes part <? 0) || (sap_stored_bytes part <=? 0)
    raise ValueError "raw retrieval part layout is invalid";
  Ok (expected_number + 1, expected_start + sap_plaintext_bytes part).

Definition new_retrieval_source `{UnicodeData} (s : RawVolumeRetrievalSource) : result RawVolumeRetrievalSource :=
  when negb (startswith (str "segment-") (rt_volume_id s)) || bool_decide (rt_object_path s = [])
    raise ValueError "raw retrieval volume identity is invalid";
  path ← normalize_relpath (rt_source_path s);
  when negb (bool_decide (path = rt_source_path s)) raise ValueError "raw retrieval source path is not canonical";
  when (rt_file_offset s <? 0) || (rt_plaintext_bytes s <? 0) || (rt_file_bytes s <? 0)
    raise ValueError "raw retrieval byte range is invalid";
  when rt_file_bytes s <? rt_file_offset s + rt_plaintext_bytes s
    raise ValueError "raw retrieval volume exceeds its source file";
  state ← from_json_text (rt_age_state_json s);
  when negb (bool_decide (us_plaintext_size state = Some (rt_plaintext_bytes s)))
    raise ValueError "raw retrieval age state plaintext size mismatch";
  '(_, expected_start) ← foldM source_part_step (1, 0) (rt_parts s);
  when negb (expected_start =? rt_plaintext_bytes s) raise ValueError "raw retrieval parts do not cover the volume";
  Ok s.

(** ** The budget, the pool and the generator *)

Record RetrievedRawPart := { rp_number : Z; rp_content : pybytes }.

(** How a generator ends: it returns, raises, or is closed at a [yield]. *)
Inductive outcome := Returned | Raised (e : exn) | Closed.

(** [pending], [reservations] and [next_submit] of one call, what it holds of the
    budget, and the coming answers of [try_acquire]. *)
Record reader := {
  rd_pending : list (nat * result RetrievedRawPart);
  rd_reservations : list (nat * Z);
  rd_next : nat;
  rd_held : Z;
  rd_answers : list bool;
}.

Definition has_key {A} (k : nat) (l : list (nat * A)) : bool := existsb (λ kv, (kv.1 =? k)%nat) l.
Definition find_key {A} (k : nat) (l : list (nat * A)) : option A :=
  match filter (λ kv, kv.1 = k) l with kv :: _ => Some kv.2 | [] => None end.
Definition remove_key {A} (k : nat) (l : list (nat * A)) : list (nat * A) := filter (λ kv, kv.1 ≠ k) l.

Section retrieval.
Context `{UnicodeData} `{Aead}.

(** [iter_object_range(object_path, revision, expected_bytes, offset, size)] of the
    store, the passphrase and the limits of the reader. *)
Context (iter_object_range : pystr → option pystr → Z → Z → Z → stream).
Context (pass : passphrase) (request_concurrency : nat) (read_working_bytes capacity : Z).

(** [payload_chunks]: what is yielded after the prefix and how much of the prefix
    is missing when the source ends. *)
Fixpoint skip_age_prefix (skip : Z) (source_chunks : list pybytes) : list pybytes * Z :=
  match source_chunks with
  | [] => ([], skip)
  | data :: source_chunks =>
      if len data <=? skip then skip_age_prefix (skip - len data) source_chunks
      else let '(out, missing) := skip_age_prefix 0 source_chunks in (drop (Z.to_nat skip) data :: out, missing)
  end.

(** A decoder on a source that raises: it raises the exception of the source
    where it would have found it exhausted, in the middle of a chunk or at the end
    when it looks for trailing bytes. *)
Definition source_ends (ending : result unit) (decoded : stream) : stream :=
  match ending, decoded.2 with
  | Ok _, _ => decoded
  | Err e, Ok _ => (decoded.1, Err e)
  | Err e, Err x => (decoded.1, Err (if bool_decide (x = range_ended) then e else x))
  end.

Definition _read_part (source : RawVolumeRetrievalSource) (state : UploadState) (session : ResumableAgeScryptSession)
    (part : StoredArchivePart) (stored_offset : Z) : result RetrievedRawPart :=
  let raw := iter_object_range (rt_object_path source) (rt_revision source) (sumZ sap_stored_bytes (rt_parts source))
               stored_offset (sap_stored_bytes part) in
  let prefix_bytes := if sap_number part =? 1 then len (us_header state) + len (us_payload_nonce state) else 0 in
  age_plan ← plan_age_plaintext_range (StateValue state) (rt_plaintext_bytes source) (sap_plaintext_start part)
               (sap_plaintext_bytes part);
  when negb (pr_ciphertext_offset age_plan - prefix_bytes =? stored_offset)
    raise ValueError "raw retrieval stored part offset does not match its age range";
  let '(chunks, missing) := skip_age_prefix prefix_bytes raw.1 in
  let ending := _ ← raw.2; if missing =? 0 then Ok tt
                else Err (Exn ValueError (str "raw retrieval first part ended inside the age prefix")) in
  let decoded := source_ends ending (iter_decrypt_age_plaintext_range (StateValue state) age_plan chunks None (Some session)) in
  _ ← decoded.2;
  let content := concat decoded.1 in
  when negb (len (concat raw.1) =? sap_stored_bytes part) raise ValueError "raw retrieval stored part byte count mismatch";
  when negb (bool_decide (sha256_hex (concat raw.1) = sap_stored_sha256 part))
    raise ValueError "raw retrieval stored part sha256 mismatch";
  when negb (len content =? sap_plaintext_bytes part) raise ValueError "raw retrieval plaintext part byte count mismatch";
  when negb (bool_decide (sha256_hex content = sap_plaintext_sha256 part))
    raise ValueError "raw retrieval plaintext part sha256 mismatch";
  Ok {| rp_number := sap_number part; rp_content := content |}.

(** [part_offsets] of the parts: the stored bytes before each. *)
Fixpoint part_offsets (cursor : Z) (parts : list StoredArchivePart) : list (StoredArchivePart * Z) :=
  match parts with
  | [] => []
  | part :: parts => (part, cursor) :: part_offsets (cursor + sap_stored_bytes part) parts
  end.

(** The parts that overlap the range. *)
Definition overlaps (offset requested_end : Z) (part : StoredArchivePart) : Prop :=
  offset < sap_plaintext_start part + sap_plaintext_bytes part ∧ sap_plaintext_start part < requested_end.

Definition reserve_bytes (part : StoredArchivePart) : Z :=
  Z.max 1 (sap_plaintext_bytes part + Z.min (sap_stored_bytes part) read_working_bytes).

(** [range(start, stop, step)] *)
Fixpoint range_step (fuel : nat) (start stop step : Z) : list Z :=
  match fuel with
  | O => []
  | S fuel => if start <? stop then start :: range_step fuel (start + step) stop step else []
  end.

(** The chunks of a part that are yielded; every turn advances by at least one
    byte. *)
Definition part_chunks (offset requested_end : Z) (part : StoredArchivePart) (content : pybytes) : list pybytes :=
  let local_start := Z.max offset (sap_plaintext_start part) - sap_plaintext_start part in
  let local_end := Z.min requested_end (sap_plaintext_start part + sap_plaintext_bytes part) - sap_plaintext_start part in
  (λ o, slice o (Z.min local_end (o + read_working_bytes)) content) <$>
    range_step (Z.to_nat (local_end - local_start)) local_start local_end read_working_bytes.

Section call.
Context (source : RawVolumeRetrievalSource) (state : UploadState) (session : ResumableAgeScryptSession).
Context (selected : list (StoredArchivePart * Z)).

(** The work of a future. *)
Definition future (entry : StoredArchivePart * Z) : result RetrievedRawPart := _read_part source state session entry.1 entry.2.

(** [acquire] and [try_acquire] refuse an amount over the capacity. *)
Definition over_capacity (amount : Z) : exn :=
  Exn ValueError (str "single transfer buffer (" ++ str_of_Z amount ++
    str " bytes) exceeds the configured in-flight budget (" ++ str_of_Z capacity ++ str " bytes)").

Definition submit (index : nat) (block : bool) (st : reader) : result bool * reader :=
  match selected !! index with
  | None => (Err (Exn IndexError (str "tuple index out of range")), st)
  | Some entry =>
      let amount := reserve_bytes entry.1 in
      if capacity <? amount then (Err (over_capacity amount), st)
      else
        let '(admitted, answers) := if block then (true, rd_answers st)
                                    else match rd_answers st with a :: l => (a, l) | [] => (true, []) end in
        if admitted
        then (Ok true, {| rd_pending := rd_pending st ++ [(index, future entry)];
                          rd_reservations := rd_reservations st ++ [(index, amount)]; rd_next := rd_next st;
                          rd_held := rd_held st + amount; rd_answers := answers |})
        else (Ok false, {| rd_pending := rd_pending st; rd_reservations := rd_reservations st; rd_next := rd_next st;
                           rd_held := rd_held st; rd_answers := answers |})
  end.

Definition advance (st : reader) : reader :=
  {| rd_pending := rd_pending st; rd_reservations := rd_reservations st; rd_next := S (rd_next st);
     rd_held := rd_held st; rd_answers := rd_answers st |}.

(** [fill]; every turn but the last submits a part. *)
Fixpoint fill_pool (fuel : nat) (st : reader) : result unit * reader :=
  match fuel with
  | O => (Ok tt, st)
  | S fuel =>
      if (rd_next st <? length selected)%nat && (length (rd_pending st) <? request_concurrency)%nat then
        match submit (rd_next st) false st with
        | (Err e, st) => (Err e, st)
        | (Ok false, st) => (Ok tt, st)
        | (Ok true, st) => fill_pool fuel (advance st)
        end
      else (Ok tt, st)
  end.

Definition fill (st : reader) : result unit * reader := fill_pool (length selected) st.

(** [if expected_index not in pending: ...] *)
Definition await (index : nat) (st : reader) : result unit * reader :=
  if has_key index (rd_pending st) then (Ok tt, st)
  else match submit index true st with
       | (Err e, st) => (Err e, st)
       | (Ok _, st) => (Ok tt, if (rd_next st =? index)%nat then advance st else st)
       end.

(** [pending.pop(expected_index)] *)
Definition pop_pending (index : nat) (st : reader) : reader :=
  {| rd_pending := remove_key index (rd_pending st); rd_reservations := rd_reservations st; rd_next := rd_next st;
     rd_held := rd_held st; rd_answers := rd_answers st |}.

(** [release(reservations.pop(expected_index))] *)
Definition release (index : nat) (st : reader) : reader :=
  {| rd_pending := rd_pending st; rd_reservations := remove_key index (rd_reservations st); rd_next := rd_next st;
     rd_held := rd_held st - default 0 (find_key index (rd_reservations st)); rd_answers := rd_answers st |}.

(** The loop over the selected parts, from [index] on.  [limit] is the number of
    chunks after which the consumer closes the generator, if it does. *)
Fixpoint deliver (offset requested_end : Z) (index : nat) (entries : list (StoredArchivePart * Z)) (limit : option nat)
    (st : reader) : list pybytes * outcome * reader :=
  match entries with
  | [] => ([], Returned, st)
  | (part, _) :: entries =>
      match await index st with
      | (Err e, st) => ([], Raised e, st)
      | (Ok _, st) =>
          match find_key index (rd_pending st) with
          | None => ([], Raised (Exn KeyError (str "pending part")), st)
          | Some (Err e) => ([], Raised e, pop_pending index st)
          | Some (Ok retrieved) =>
              let st := pop_pending index st in
              if negb (rp_number retrieved =? sap_number part)
              then ([], Raised (Exn RuntimeError (str "raw retrieval returned an unexpected part number")), st)
              else
                let chunks := part_chunks offset requested_end part (rp_content retrieved) in
                if match limit with Some n => (n <=? length chunks)%nat | None => false end
                then (take (default 0%nat limit) chunks, Closed, release index st)
                else
                  match fill (release index st) with
                  | (Err e, st) => (chunks, Raised e, st)
                  | (Ok _, st) =>
                      let '(out, o, st) :=
                        deliver offset requested_end (S index) entries ((λ n, n - length chunks)%nat <$> limit) st in
                      (chunks ++ out, o, st)
                  end
          end
      end
  end.

(** The [finally] block around the loop. *)
Definition release_all (st : reader) : Z := rd_held st - sumZ snd (rd_reservations st).
End call.

(** The chunks that [iter_volume_range] yields, how it ends and what it then still
    holds of the budget. *)
Definition iter_volume_range (source : RawVolumeRetrievalSource) (offset size : Z) (answers : list bool)
    (limit : option nat) : list pybytes * outcome * Z :=
  if bool_decide (limit = Some 0%nat) then ([], Closed, 0)
  else if (offset <? 0) || (size <? 0) || (rt_plaintext_bytes source <? offset + size)
  then ([], Raised (Exn ValueError (str "raw volume requested range is invalid")), 0)
  else if size =? 0 then ([], Returned, 0)
  else
    match (state ← from_json_text (rt_age_state_json source);
           session ← session_from_state pass (StateValue state) None;
           Ok (state, session)) with
    | Err e => ([], Raised e, 0)
    | Ok (state, session) =>
        let requested_end := offset + size in
        let selected := filter (λ entry, overlaps offset requested_end entry.1) (part_offsets 0 (rt_parts source)) in
        match selected with
        | [] => ([], Raised (Exn RuntimeError (str "raw retrieval range has no archive parts")), 0)
        | _ =>
            match submit source state session selected 0 true
                    {| rd_pending := []; rd_reservations := []; rd_next := 0; rd_held := 0; rd_answers := answers |} with
            | (Err e, st) => ([], Raised e, rd_held st)
            | (Ok _, st) =>
                match fill source state session selected (advance st) with
                | (Err e, st) => ([], Raised e, rd_held st)
                | (Ok _, st) =>
                    let '(out, o, st) := deliver source state session selected offset requested_end 0 selected limit st in
                    match o with
                    | Returned => if negb (sumZ len out =? size)
                                  then (out, Raised (Exn RuntimeError (str "raw retrieval emitted an unexpected byte count")),
                                        release_all st)
                                  else (out, Returned, release_all st)
                    | _ => (out, o, release_all st)
                    end
                end
            end
        end
    end.

Definition iter_volume (source : RawVolumeRetrievalSource) : list bool → option nat → list pybytes * outcome * Z :=
  iter_volume_range source 0 (rt_plaintext_bytes source).

(** ** Files *)

(** One turn of the loop that checks the volumes: the expected offset. *)
Definition file_volume_step (first : RawVolumeRetrievalSource) (expected_offset : Z) (volume : RawVolumeRetrievalSource) :
    result Z :=
  when negb (bool_decide (rt_source_path volume = rt_source_path first)) || negb (rt_file_bytes volume =? rt_file_bytes first)
       || negb (bool_decide (rt_file_sha256 volume = rt_file_sha256 first)) || negb (rt_file_offset volume =? expected_offset)
    raise ValueError "raw file retrieval volumes are not one contiguous file";
  Ok (expected_offset + rt_plaintext_bytes volume).

(** The loop that reads them; [answers] are those of each volume's reader. *)
Fixpoint file_loop (offset requested_end : Z) (answers : nat → list bool) (index : nat)
    (volumes : list RawVolumeRetrievalSource) (limit : option nat) : list pybytes * outcome * Z :=
  match volumes with
  | [] => ([], Returned, 0)
  | volume :: volumes =>
      let volume_start := rt_file_offset volume in
      let volume_end := volume_start + rt_plaintext_bytes volume in
      if (volume_end <=? offset) || (requested_end <=? volume_start)
      then file_loop offset requested_end answers (S index) volumes limit
      else
        let local_start := Z.max offset volume_start - volume_start in
        let local_end := Z.min requested_end volume_end - volume_start in
        let volume_size := local_end - local_start in
        let '(chunks, o, held) := iter_volume_range volume local_start volume_size (answers index) limit in
        match o with
        | Returned =>
            if negb (sumZ len chunks =? volume_size)
            then (chunks, Raised (Exn ValueError (str "raw volume ended before the requested range")), held)
            else
              let '(out, o, held') :=
                file_loop offset requested_end answers (S index) volumes ((λ n, n - length chunks)%nat <$> limit) in
              (chunks ++ out, o, held + held')
        | _ => (chunks, o, held)
        end
  end.

(** What is checked before the first volume is read: the volumes in order and the
    resolved size. *)
Definition file_request (volumes : list RawVolumeRetrievalSource) (offset : Z) (size : option Z) :
    result (list RawVolumeRetrievalSource * RawVolumeRetrievalSource * Z) :=
  match sorted_byZ rt_file_offset volumes with
  | [] => Err (Exn ValueError (str "raw file retrieval requires at least one volume"))
  | (first :: _) as ordered =>
      expected_offset ← foldM (file_volume_step first) 0 ordered;
      when negb (expected_offset =? rt_file_bytes first) raise ValueError "raw file retrieval volumes do not cover the file";
      let resolved_size := match size with None => rt_file_bytes first - offset | Some n => n end in
      when (offset <? 0) || (resolved_size <? 0) || (rt_file_bytes first <? offset + resolved_size)
        raise ValueError "raw file requested range is invalid";
      Ok (ordered, first, resolved_size)
  end.

Definition iter_file_range (volumes : list RawVolumeRetrievalSource) (offset : Z) (size : option Z)
    (answers : nat → list bool) (limit : option nat) : list pybytes * outcome * Z :=
  if bool_decide (limit = Some 0%nat) then ([], Closed, 0)
  else
    match file_request volumes offset size with
    | Err e => ([], Raised e, 0)
    | Ok (ordered, first, resolved_size) =>
        let '(out, o, held) := file_loop offset (offset + resolved_size) answers 0 ordered limit in
        match o with
        | Returned =>
            if negb (sumZ len out =? resolved_size)
            then (out, Raised (Exn ValueError (str "raw file retrieval emitted an unexpected byte count")), held)
            else if (offset =? 0) && (resolved_size =? rt_file_bytes first)
                    && negb (bool_decide (sha256_hex (concat out) = rt_file_sha256 first))
            then (out, Raised (Exn ValueError (str "raw file retrieval verification failed")), held)
            else (out, Returned, held)
        | _ => (out, o, held)
        end
    end.

Definition iter_file (volumes : list RawVolumeRetrievalSource) : (nat → list bool) → option nat → list pybytes * outcome * Z :=
  iter_file_range volumes 0 None.
End retrieval.

(** ** The bookkeeping of a call *)

Lemma zip_seq_S {A} (l : list A) n k x : length l = k → zip (seq n (S k)) (l ++ [x]) = zip (seq n k) l ++ [((n + k)%nat, x)].
Proof.
  intros <-. revert n. induction l as [|y l IH]; intros n; [cbn; by rewrite Nat.add_0_r|].
  cbn [length app]. change (seq n (S (S (length l)))) with (n :: seq (S n) (S (length l))).
  change (seq n (S (length l))) with (n :: seq (S n) (length l)). cbn [zip zip_with app]. f_equal.
  change (zip (seq (S n) (S (length l))) (l ++ [x]) = zip (seq (S n) (length l)) l ++ [((n + S (length l))%nat, x)]).
  rewrite (IH (S n)). do 3 f_equal. lia.
Qed.

Lemma has_key_seq {A} k n (l : list A) : (k < n)%nat → has_key k (zip (seq n (length l)) l) = false.
Proof.
  revert n. induction l as [|x l IH]; intros n Hn; [done|]. cbn [length seq zip zip_with has_key existsb fst].
  rewrite (proj2 (Nat.eqb_neq n k)) by lia. apply IH. lia.
Qed.

Lemma remove_key_seq {A} k n (l : list A) : (k < n)%nat → remove_key k (zip (seq n (length l)) l) = zip (seq n (length l)) l.
Proof.
  unfold remove_key. revert n. induction l as [|x l IH]; intros n Hn; [done|]. cbn [length seq zip zip_with].
  rewrite filter_cons_True by (cbn; lia). f_equal. apply IH. lia.
Qed.

Lemma find_key_head {A} k (x : A) l : find_key k ((k, x) :: l) = Some x.
Proof. unfold find_key. by rewrite filter_cons_True. Qed.

Lemma remove_key_head {A} k n (x : A) (l : list A) : length l = n →
  remove_key k ((k, x) :: zip (seq (S k) n) l) = zip (seq (S k) n) l.
Proof.
  intros <-. rewrite <- (remove_key_seq k (S k) l) at 2 by lia. unfold remove_key. by rewrite filter_cons_False by (cbn; lia).
Qed.

Section bookkeeping.
Context `{UnicodeData} `{Aead} (iter_object_range : pystr → option pystr → Z → Z → Z → stream).
Context (request_concurrency : nat) (read_working_bytes capacity : Z).
Context (source : RawVolumeRetrievalSource) (state : UploadState) (session : ResumableAgeScryptSession).
Context (selected : list (StoredArchivePart * Z)).

Notation future := (future iter_object_range source state session).
Notation amount := (reserve_bytes read_working_bytes).
Notation submit := (submit iter_object_range read_working_bytes capacity source state session selected).
Notation fill_pool := (fill_pool iter_object_range request_concurrency read_working_bytes capacity source state session selected).
Notation fill := (fill iter_object_range request_concurrency read_working_bytes capacity source state session selected).
Notation await := (await iter_object_range read_working_bytes capacity source state session selected).
Notation deliver := (deliver iter_object_range request_concurrency read_working_bytes capacity source state session selected).

(** The reservations add up to what is held. *)
Definition settled (st : reader) : Prop := rd_held st = sumZ snd (rd_reservations st).

(** Submitted are the parts from [index] on, [k] of them. *)
Record booked (index k : nat) (st : reader) : Prop := {
  bk_next : rd_next st = (index + k)%nat;
  bk_room : (index + k ≤ length selected)%nat;
  bk_pending : rd_pending st = zip (seq index k) (future <$> take k (drop index selected));
  bk_reservations : rd_reservations st = zip (seq index k) ((λ e, amount e.1) <$> take k (drop index selected));
  bk_settled : settled st;
}.

Context (Hfits : ∀ e, e ∈ selected → amount e.1 ≤ capacity).

Lemma window_length index k : (index + k ≤ length selected)%nat → length (take k (drop index selected)) = k.
Proof. intros Hr. rewrite length_take, length_drop. lia. Qed.

Lemma submit_booked index k block st : booked index k st → (index + k < length selected)%nat →
  ∃ b st', submit (index + k) block st = (Ok b, st') ∧ (block = true → b = true) ∧
    if b then rd_next st' = rd_next st ∧ booked index (S k) (advance st') else booked index k st'.
Proof.
  intros [Hn Hr Hp Hs Ht] Hlt. unfold RawRetrieval.submit. destruct (lookup_lt_is_Some_2 selected (index + k) Hlt) as [e He].
  rewrite He. rewrite (proj2 (Z.ltb_ge _ _)) by (apply Hfits; by eapply list_elem_of_lookup_2).
  set (answer := if block then _ else _). assert (block = true → answer.1 = true) as Ha by by intros ->.
  destruct answer as [admitted answers]. cbn [fst] in Ha. assert (drop index selected !! k = Some e) as Hk by by rewrite lookup_drop.
  destruct admitted; eexists _, _; (split; [done|]); (split; [done|]); [|by split].
  split; [done|]. split; unfold advance; cbn [rd_next rd_pending rd_reservations rd_held]; try lia.
  - rewrite Hp, (take_S_r _ _ _ Hk), fmap_app. change (future <$> [e]) with [future e]. rewrite zip_seq_S; [done|]. rewrite length_fmap. by apply window_length.
  - rewrite Hs, (take_S_r _ _ _ Hk), fmap_app. change ((λ e, amount e.1) <$> [e]) with [amount e.1]. rewrite zip_seq_S; [done|]. rewrite length_fmap. by apply window_length.
  - unfold settled in *. cbn [rd_held rd_reservations]. rewrite sumZ_app, Ht, sumZ_cons. change (sumZ snd []) with 0. cbn [snd]. lia.
Qed.

Lemma fill_booked fuel index k st : booked index k st → ∃ k' st', fill_pool fuel st = (Ok tt, st') ∧ (k ≤ k')%nat ∧ booked index k' st'.
Proof.
  revert k st. induction fuel as [|fuel IH]; intros k st Hb; cbn [RawRetrieval.fill_pool]; [by eexists _, _|].
  destruct ((rd_next st <? length selected)%nat && _) eqn:Hc; [|by eexists _, _].
  apply andb_prop in Hc as [Hlt%Nat.ltb_lt _]. rewrite (bk_next _ _ _ Hb) in Hlt |- *.
  destruct (submit_booked index k false st Hb Hlt) as (b & st' & -> & _ & Hpost). destruct b; [|by eexists _, _].
  destruct Hpost as [_ Hb']. destruct (IH (S k) _ Hb') as (k' & st2 & -> & Hle & Hb2). exists k', st2. split_and!; [done|lia|done].
Qed.

Lemma await_booked index k st : booked index k st → (index < length selected)%nat →
  ∃ k' st', await index st = (Ok tt, st') ∧ booked index (S k') st'.
Proof.
  intros Hb Hlt. unfold RawRetrieval.await. destruct k as [|k].
  - rewrite (bk_pending _ _ _ Hb). cbn [seq zip zip_with has_key existsb].
    destruct (submit_booked index 0 true st Hb) as (b & st' & Hrun & Htrue & Hpost); [lia|]. rewrite Nat.add_0_r in Hrun. rewrite Hrun.
    rewrite (Htrue eq_refl) in Hpost. destruct Hpost as [Hn Hpost]. rewrite Hn, (bk_next _ _ _ Hb), Nat.add_0_r, Nat.eqb_refl.
    by exists 0%nat, (advance st').
  - assert (has_key index (rd_pending st) = true) as ->; [|by exists k, st]. rewrite (bk_pending _ _ _ Hb).
    pose proof (window_length _ _ (bk_room _ _ _ Hb)) as Hw. destruct (take (S k) (drop index selected)) as [|e l]; [done|].
    cbn. by rewrite Nat.eqb_refl.
Qed.

(** The first submitted part is taken and its reservation returned. *)
Lemma taken_booked index k st e : booked index (S k) st → selected !! index = Some e →
  find_key index (rd_pending st) = Some (future e) ∧ settled (pop_pending index st) ∧
  booked (S index) k (release index (pop_pending index st)).
Proof.
  intros [Hn Hr Hp Hs Ht] He.
  assert (take (S k) (drop index selected) = e :: take k (drop (S index) selected)) as Hw by by rewrite (drop_S _ _ _ He).
  rewrite Hw in Hp, Hs. cbn [fmap list_fmap seq zip zip_with] in Hp, Hs.
  pose proof (window_length (S index) k ltac:(lia)) as Hlen.
  split; [rewrite Hp; apply find_key_head|]. split; [exact Ht|].
  split; unfold release, pop_pending; cbn [rd_next rd_pending rd_reservations rd_held].
  - lia.
  - lia.
  - rewrite Hp. apply remove_key_head. by rewrite length_fmap.
  - rewrite Hs. apply remove_key_head. by rewrite length_fmap.
  - unfold settled in *. cbn [rd_held rd_reservations]. rewrite Ht, Hs, find_key_head. cbn [default].
    rewrite remove_key_head, sumZ_cons by by rewrite length_fmap. cbn [snd from_option id]. lia.
Qed.

(** ** One part after the other *)

(** The reference: no pool and no budget. *)
Fixpoint in_order (offset requested_end : Z) (entries : list (StoredArchivePart * Z)) : list pybytes * outcome :=
  match entries with
  | [] => ([], Returned)
  | entry :: entries =>
      match future entry with
      | Err e => ([], Raised e)
      | Ok retrieved =>
          if negb (rp_number retrieved =? sap_number entry.1)
          then ([], Raised (Exn RuntimeError (str "raw retrieval returned an unexpected part number")))
          else
            let '(out, o) := in_order offset requested_end entries in
            (part_chunks read_working_bytes offset requested_end entry.1 (rp_content retrieved) ++ out, o)
      end
  end.

(** A consumer that closes a generator after [limit] chunks. *)
Definition closed_at (limit : option nat) (g : list pybytes * outcome) : list pybytes * outcome :=
  match limit with
  | Some n => if (n <=? length g.1)%nat then (take n g.1, Closed) else g
  | None => g
  end.

Lemma closed_at_app limit chunks out o : match limit with Some n => (n <=? length chunks)%nat | None => false end = false →
  closed_at limit (chunks ++ out, o) =
  (chunks ++ (closed_at ((λ n, n - length chunks)%nat <$> limit) (out, o)).1, (closed_at ((λ n, n - length chunks)%nat <$> limit) (out, o)).2).
Proof.
  destruct limit as [n|]; [|done]. intros Hn%Nat.leb_gt. cbn. rewrite length_app. destruct (Nat.leb_spec n (length chunks + length out)) as [Hle|Hgt].
  - rewrite (proj2 (Nat.leb_le (n - length chunks) (length out))) by lia. cbn. f_equal. rewrite take_app. f_equal. apply take_ge. lia.
  - by rewrite (proj2 (Nat.leb_gt (n - length chunks) (length out))) by lia.
Qed.

Lemma closed_at_now limit chunks out o : match limit with Some n => (n <=? length chunks)%nat | None => false end = true →
  closed_at limit (chunks ++ out, o) = (take (default 0%nat limit) chunks, Closed).
Proof.
  destruct limit as [n|]; [|done]. intros Hn%Nat.leb_le. cbn. rewrite length_app, (proj2 (Nat.leb_le _ _)) by lia.
  by rewrite take_app_le by lia.
Qed.

Lemma deliver_in_order offset requested_end entries index k limit st : booked index k st → entries = drop index selected →
  limit ≠ Some 0%nat → ∃ st', settled st' ∧
    deliver offset requested_end index entries limit st =
    ((closed_at limit (in_order offset requested_end entries)).1, (closed_at limit (in_order offset requested_end entries)).2, st').
Proof.
  revert index k limit st. induction entries as [|[part stored] entries IH]; intros index k limit st Hb He Hlimit;
    cbn [RawRetrieval.deliver in_order].
  { exists st. split; [apply Hb|]. by destruct limit as [[|n]|]. }
  assert (selected !! index = Some (part, stored)) as Hi.
  { pose proof (lookup_drop selected index 0) as Hd. rewrite <- He, Nat.add_0_r in Hd. done. }
  assert (entries = drop (S index) selected) as Hrest by (rewrite (drop_S _ _ _ Hi) in He; by injection He).
  destruct (await_booked index k st Hb (lookup_lt_Some _ _ _ Hi)) as (k' & st1 & -> & Hb1).
  destruct (taken_booked index k' st1 _ Hb1 Hi) as (-> & Hsettled & Hb2).
  destruct (future (part, stored)) as [retrieved|e]; [|exists (pop_pending index st1); split; [done|]; by destruct limit as [[|n]|]].
  cbn [fst]. destruct (negb _); [exists (pop_pending index st1); split; [done|]; by destruct limit as [[|n]|]|].
  set (chunks := part_chunks _ _ _ _ _). destruct (in_order offset requested_end entries) as [out o] eqn:Hin. cbv zeta.
  destruct (match limit with Some n => (n <=? length chunks)%nat | None => false end) eqn:Hclose.
  - rewrite (closed_at_now _ _ _ _ Hclose). eexists. split; [apply Hb2|done].
  - rewrite (closed_at_app _ _ _ _ Hclose). unfold RawRetrieval.fill.
    destruct (fill_booked (length selected) (S index) k' _ Hb2) as (k2 & st2 & -> & _ & Hb3).
    destruct (IH (S index) k2 ((λ n, n - length chunks)%nat <$> limit) st2 Hb3 Hrest) as (st' & Hs' & ->).
    { destruct limit as [n|]; [|done]. cbn. apply Nat.leb_gt in Hclose. intros [= Hz]. lia. }
    exists st'. done.
Qed.
End bookkeeping.

Lemma part_offsets_fst cursor parts : (part_offsets cursor parts).*1 = parts.
Proof. revert cursor. induction parts as [|part parts IH]; intros cursor; [done|]. cbn. by rewrite IH. Qed.

Section volume.
Context `{UnicodeData} `{Aead} (iter_object_range : pystr → option pystr → Z → Z → Z → stream).
Context (pass : passphrase) (request_concurrency : nat) (read_working_bytes capacity : Z).

(** A range of a volume, its parts read one after the other. *)
Definition read_in_order (source : RawVolumeRetrievalSource) (offset size : Z) : list pybytes * outcome :=
  if (offset <? 0) || (size <? 0) || (rt_plaintext_bytes source <? offset + size)
  then ([], Raised (Exn ValueError (str "raw volume requested range is invalid")))
  else if size =? 0 then ([], Returned)
  else
    match (state ← from_json_text (rt_age_state_json source);
           session ← session_from_state pass (StateValue state) None;
           Ok (state, session)) with
    | Err e => ([], Raised e)
    | Ok (state, session) =>
        match filter (λ entry, overlaps offset (offset + size) entry.1) (part_offsets 0 (rt_parts source)) with
        | [] => ([], Raised (Exn RuntimeError (str "raw retrieval range has no archive parts")))
        | selected =>
            let '(out, o) := in_order iter_object_range read_working_bytes source state session offset (offset + size) selected in
            match o with
            | Returned => if negb (sumZ len out =? size)
                          then (out, Raised (Exn RuntimeError (str "raw retrieval emitted an unexpected byte count")))
                          else (out, Returned)
            | _ => (out, o)
            end
        end
    end.

Lemma volume_in_order source offset size answers limit :
  (∀ part, part ∈ rt_parts source → reserve_bytes read_working_bytes part ≤ capacity) →
  iter_volume_range iter_object_range pass request_concurrency read_working_bytes capacity source offset size answers limit =
  (closed_at limit (read_in_order source offset size), 0).
Proof.
  intros Hfits. unfold iter_volume_range, read_in_order.
  destruct (bool_decide_reflect (limit = Some 0%nat)) as [->|Hlimit]; [by repeat case_match; cbn|].
  assert (∀ o, closed_at limit ([], o) = ([], o)) as Hnil by (intros o; by destruct limit as [[|n]|]).
  destruct (_ || _); [by rewrite Hnil|]. destruct (size =? 0); [by rewrite Hnil|].
  destruct (state ← _; _) as [[state session]|e]; [|by rewrite Hnil]. cbv zeta.
  destruct (filter _ _) as [|entry rest] eqn:Hsel; [by rewrite Hnil|]. set (selected := entry :: rest) in *.
  assert (∀ e, e ∈ selected → reserve_bytes read_working_bytes e.1 ≤ capacity) as Hall.
  { intros e. rewrite <- Hsel. intros [_ Hin]%list_elem_of_filter. apply Hfits.
    rewrite <- (part_offsets_fst 0 (rt_parts source)). by apply list_elem_of_fmap_2. }
  set (st := {| rd_pending := [] |}).
  assert (booked iter_object_range read_working_bytes source state session selected 0 0 st) as Hb by (split; cbn; lia || done).
  destruct (submit_booked _ _ _ _ _ _ _ Hall 0 0 true st Hb) as (b & st1 & Hsubmit & Htrue & Hpost); [cbn; lia|].
  cbn [Nat.add] in Hsubmit. rewrite Hsubmit, (Htrue eq_refl) in *. destruct Hpost as [_ Hb1]. unfold fill.
  destruct (fill_booked _ request_concurrency _ _ _ _ _ _ Hall (length selected) 0 1 _ Hb1) as (k & st2 & -> & _ & Hb2).
  destruct (deliver_in_order _ request_concurrency _ _ _ _ _ _ Hall offset (offset + size) selected 0 k limit st2 Hb2 eq_refl Hlimit)
    as (st' & Hs & ->).
  assert (release_all st' = 0) as Hz by (unfold release_all; unfold settled in Hs; lia).
  destruct (in_order _ _ _ _ _ _ _ _) as [out o]. rewrite !Hz.
  destruct limit as [n|]; cbn [closed_at fst snd]; [|by destruct o; [destruct (negb (sumZ len out =? size))|..]].
  destruct (n <=? length out)%nat eqn:Hn; (destruct o; [destruct (negb (sumZ len out =? size)) eqn:Hsum|..]);
    cbn [closed_at fst snd]; by rewrite ?Hn, ?Hsum.
Qed.
End volume.

(** ** What is delivered *)

(** The bytes of a part that a range asks for. *)
Definition clip (offset requested_end : Z) (part : StoredArchivePart) (content : pybytes) : pybytes :=
  slice (Z.max offset (sap_plaintext_start part) - sap_plaintext_start part)
        (Z.min requested_end (sap_plaintext_start part + sap_plaintext_bytes part) - sap_plaintext_start part) content.

(** A content with the recorded size and digest of its part. *)
Definition verified_content (part : StoredArchivePart) (content : pybytes) : Prop :=
  len content = sap_plaintext_bytes part ∧ sha256_hex content = sap_plaintext_sha256 part.

Lemma range_step_concat fuel start stop step (content : pybytes) : 1 ≤ step → 0 ≤ start → stop - start ≤ Z.of_nat fuel →
  concat ((λ o, slice o (Z.min stop (o + step)) content) <$> range_step fuel start stop step) = slice start stop content.
Proof.
  intros Hstep. revert start. induction fuel as [|fuel IH]; intros start Hs Hf; cbn [range_step].
  - by rewrite slice_none by lia.
  - destruct (Z.ltb_spec start stop); [|by rewrite slice_none by lia]. rewrite fmap_cons. cbn [concat].
    rewrite IH by lia. destruct (Z.le_ge_cases stop (start + step)).
    + by rewrite Z.min_l, (slice_none (start + step)), app_nil_r by lia.
    + rewrite Z.min_r by lia. by apply slice_app; lia.
Qed.

Lemma part_chunks_clip read_working_bytes offset requested_end part content : 1 ≤ read_working_bytes →
  concat (part_chunks read_working_bytes offset requested_end part content) = clip offset requested_end part content.
Proof. intros Hr. unfold part_chunks, clip. by apply range_step_concat; lia. Qed.

Section delivered.
Context `{UnicodeData} `{Aead} (iter_object_range : pystr → option pystr → Z → Z → Z → stream).
Context (read_working_bytes : Z) (Hworking : 1 ≤ read_working_bytes).
Context (source : RawVolumeRetrievalSource) (state : UploadState) (session : ResumableAgeScryptSession).

Notation future := (future iter_object_range source state session).
Notation in_order := (in_order iter_object_range read_working_bytes source state session).

Lemma read_part_verified entry r : future entry = Ok r →
  rp_number r = sap_number entry.1 ∧ verified_content entry.1 (rp_content r).
Proof.
  unfold RawRetrieval.future, _read_part. intros Hr. cbv zeta in Hr. inv_step Hr.
  destruct (skip_age_prefix _ _) as [chunks missing]. inv_ok Hr. subst r. bool_prop. by unfold verified_content; cbn [rp_number rp_content]; split_and!; [|apply Z.eqb_eq|].
Qed.

Lemma in_order_verified offset requested_end entries :
  let '(out, o) := in_order offset requested_end entries in
  ∃ k contents, Forall2 verified_content (take k entries.*1) contents ∧
    concat out = concat (zip_with (clip offset requested_end) (take k entries.*1) contents) ∧ o ≠ Closed.
Proof.
  induction entries as [|entry entries IH]; cbn [RawRetrieval.in_order]; [by exists 0%nat, []|].
  destruct (future entry) as [r|e] eqn:Hr; [|by exists 0%nat, []].
  destruct (read_part_verified _ _ Hr) as [Hn Hv]. rewrite Hn, Z.eqb_refl. cbn [negb].
  destruct (in_order offset requested_end entries) as [out o]. destruct IH as (k & contents & Hf & Hc & Ho).
  exists (S k), (rp_content r :: contents). cbn [fmap list_fmap take zip_with concat]. split_and!; [by constructor| |done].
  by rewrite concat_app, part_chunks_clip, Hc.
Qed.

(** Parts that all read as the ranges of one plaintext. *)
Lemma in_order_genuine (p : pybytes) offset requested_end entries :
  (∀ entry, entry ∈ entries → ∃ r, future entry = Ok r ∧ rp_number r = sap_number entry.1 ∧
     rp_content r = slice (sap_plaintext_start entry.1) (sap_plaintext_start entry.1 + sap_plaintext_bytes entry.1) p) →
  ∃ out, in_order offset requested_end entries = (out, Returned) ∧
    concat out = concat ((λ part, clip offset requested_end part
      (slice (sap_plaintext_start part) (sap_plaintext_start part + sap_plaintext_bytes part) p)) <$> entries.*1).
Proof.
  induction entries as [|entry entries IH]; intros Hall; cbn [RawRetrieval.in_order]; [by exists []|].
  destruct (Hall entry) as (r & -> & -> & Hc); [by left|]. rewrite Z.eqb_refl. cbn [negb].
  destruct IH as (out & -> & Hout); [by intros e He; apply Hall; right|]. eexists. split; [done|].
  rewrite concat_app, part_chunks_clip, Hc, Hout by done. done.
Qed.
End delivered.

(** ** Parts that tile a plaintext *)

Fixpoint parts_from (start : Z) (parts : list StoredArchivePart) : Prop :=
  match parts with
  | [] => True
  | part :: parts => sap_plaintext_start part = start ∧ 0 ≤ sap_plaintext_bytes part ∧ parts_from (start + sap_plaintext_bytes part) parts
  end.

Lemma clip_none offset requested_end part content : 0 ≤ sap_plaintext_bytes part → offset ≤ requested_end →
  ¬ overlaps offset requested_end part → clip offset requested_end part content = [].
Proof. intros Hb Hr Hno. unfold clip. apply slice_none. unfold overlaps in Hno. lia. Qed.

(** The clips of all parts are those of the parts that overlap. *)
Lemma clips_selected offset requested_end (f : StoredArchivePart → pybytes) parts : offset ≤ requested_end →
  Forall (λ part, 0 ≤ sap_plaintext_bytes part) parts →
  concat ((λ part, clip offset requested_end part (f part)) <$> filter (overlaps offset requested_end) parts) =
  concat ((λ part, clip offset requested_end part (f part)) <$> parts).
Proof.
  intros Hr. induction 1 as [|part parts Hb _ IH]; [done|]. destruct (decide (overlaps offset requested_end part)).
  - rewrite filter_cons_True, !fmap_cons by done. cbn [concat]. by rewrite IH.
  - rewrite filter_cons_False, fmap_cons by done. cbn [concat]. by rewrite IH, clip_none.
Qed.

(** What a range asks for of two adjacent pieces. *)
Lemma slice_clips (lo hi a b c : Z) (l : pybytes) : 0 ≤ a → a ≤ b → b ≤ c →
  slice (Z.max lo a) (Z.min hi b) l ++ slice (Z.max lo b) (Z.min hi c) l = slice (Z.max lo a) (Z.min hi c) l.
Proof.
  intros. destruct (Z.le_ge_cases hi b).
  - by rewrite (slice_none (Z.max lo b)), app_nil_r, !Z.min_l by lia.
  - rewrite (Z.min_r hi b) by lia. destruct (Z.le_ge_cases b lo).
    + by rewrite slice_none, !Z.max_l by lia.
    + rewrite (Z.max_r lo b) by lia. apply slice_app; lia.
Qed.

Lemma clips_tile offset requested_end (p : pybytes) start parts : 0 ≤ start → 0 ≤ offset → parts_from start parts →
  start + sumZ sap_plaintext_bytes parts ≤ len p →
  concat ((λ part, clip offset requested_end part
    (slice (sap_plaintext_start part) (sap_plaintext_start part + sap_plaintext_bytes part) p)) <$> parts) =
  slice (Z.max offset start) (Z.min requested_end (start + sumZ sap_plaintext_bytes parts)) p.
Proof.
  intros Hs Ho. revert start Hs. induction parts as [|part parts IH]; intros start Hs Hp Hl.
  - change (sumZ _ []) with 0. by rewrite slice_none by lia.
  - cbn [parts_from] in Hp. destruct Hp as (Hps & Hb & Hp). rewrite sumZ_cons in *. rewrite fmap_cons. cbn [concat].
    assert (0 ≤ sumZ sap_plaintext_bytes parts) as Hz.
    { clear -Hp. revert Hp. generalize (start + sap_plaintext_bytes part). intros z. revert z. induction parts as [|q parts IH]; intros z Hp;
        [done|]. rewrite sumZ_cons. cbn [parts_from] in Hp. destruct Hp as (_ & Hq & Hp). specialize (IH _ Hp). lia. }
    rewrite (IH (start + sap_plaintext_bytes part)) by (done || lia). replace (start + sap_plaintext_bytes part + sumZ sap_plaintext_bytes parts) with
      (start + (sap_plaintext_bytes part + sumZ sap_plaintext_bytes parts)) by lia.
    set (stop := start + (sap_plaintext_bytes part + sumZ sap_plaintext_bytes parts)) in *. unfold clip.
    rewrite Hps. set (n := sap_plaintext_bytes part) in *. assert (slice (Z.max offset start - start) (Z.min requested_end (start + n) - start) (slice start (start + n) p) =
      slice (Z.max offset start) (Z.min requested_end (start + n)) p) as ->.
    { destruct (Z.le_ge_cases (Z.min requested_end (start + n)) (Z.max offset start)); [by rewrite !slice_none by lia|].
      rewrite slice_slice by lia. f_equal; lia. }
    apply slice_clips; lia.
Qed.

(** ** Ranges of a volume *)

Lemma selected_fst offset requested_end cursor parts :
  (filter (λ entry, overlaps offset requested_end entry.1) (part_offsets cursor parts)).*1 = filter (overlaps offset requested_end) parts.
Proof.
  revert cursor. induction parts as [|part parts IH]; intros cursor; [done|]. cbn [part_offsets].
  destruct (decide (overlaps offset requested_end part)).
  - rewrite !filter_cons_True, fmap_cons by done. by rewrite IH.
  - rewrite !filter_cons_False by done. by rewrite IH.
Qed.

Lemma source_layout `{UnicodeData} source : new_retrieval_source source = Ok source →
  parts_from 0 (rt_parts source) ∧ sumZ sap_plaintext_bytes (rt_parts source) = rt_plaintext_bytes source.
Proof.
  unfold new_retrieval_source. intros Hs. inv_ok Hs. match goal with Hf : foldM _ _ _ = Ok ?st |- _ => destruct st as [number stop] end. inv_ok Hs. bool_prop.
  assert (∀ parts n start n' stop, foldM source_part_step (n, start) parts = Ok (n', stop) →
    parts_from start parts ∧ stop = start + sumZ sap_plaintext_bytes parts) as Hgen.
  { clear. induction parts as [|part parts IH]; intros n start n' stop Hf; cbn [foldM] in Hf.
    - injection Hf as _ <-. split; [done|]. change (sumZ _ []) with 0. lia.
    - apply bind_Ok in Hf as ([n1 start1] & Hs & Hf). unfold source_part_step in Hs. inv_step Hs. injection Hs as <- <-. bool_prop.
      apply IH in Hf as [Hf ->]. rewrite sumZ_cons. split; [|lia]. cbn [parts_from]. split_and!; [lia|lia|done]. }
  match goal with Hf : foldM _ _ _ = _ |- _ => apply Hgen in Hf as [? ->] end. split; [done|lia].
Qed.

Lemma sum_len_concat (out : list pybytes) : sumZ len out = len (concat out).
Proof. induction out as [|x out IH]; [done|]. cbn [concat]. by rewrite sumZ_cons, len_app, IH. Qed.

Lemma closed_prefix limit out o out' o' : closed_at limit (out, o) = (out', o') →
  concat out' `prefix_of` concat out ∧ (o' ≠ Closed → out' = out ∧ o' = o).
Proof.
  unfold closed_at. destruct limit as [n|]; [|by intros [= <- <-]]. cbn [fst]. destruct (n <=? length out)%nat; intros [= <- <-]; [|done].
  split; [|done]. exists (concat (drop n out)). by rewrite <- concat_app, take_drop.
Qed.

Lemma parts_nonneg start parts : parts_from start parts → Forall (λ part, 0 ≤ sap_plaintext_bytes part) parts.
Proof.
  revert start. induction parts as [|part parts IH]; intros start Hp; [constructor|]. cbn [parts_from] in Hp.
  destruct Hp as (_ & Hb & Hp). constructor; [done|by eapply IH].
Qed.

Section ranges.
Context `{UnicodeData} `{Aead} (iter_object_range : pystr → option pystr → Z → Z → Z → stream).
Context (pass : passphrase) (request_concurrency : nat) (read_working_bytes capacity : Z).
Context (Hworking : 1 ≤ read_working_bytes).
Notation read_in_order := (read_in_order iter_object_range pass read_working_bytes).

Lemma read_verified source offset size : let '(out, o) := read_in_order source offset size in
  ∃ k contents, Forall2 verified_content (take k (filter (overlaps offset (offset + size)) (rt_parts source))) contents ∧
    concat out = concat (zip_with (clip offset (offset + size)) (take k (filter (overlaps offset (offset + size)) (rt_parts source))) contents) ∧
    o ≠ Closed ∧ (o = Returned → len (concat out) = size).
Proof.
  unfold RawRetrieval.read_in_order. destruct (_ || _); [by exists 0%nat, []|].
  destruct (Z.eqb_spec size 0) as [->|_]; [by exists 0%nat, []|]. destruct (state ← _; _) as [[state session]|e]; [|by exists 0%nat, []].
  rewrite <- (selected_fst offset (offset + size) 0 (rt_parts source)). destruct (filter _ _) as [|entry rest]; [by exists 0%nat, []|].
  pose proof (in_order_verified iter_object_range read_working_bytes Hworking source state session offset (offset + size) (entry :: rest)) as Hin.
  destruct (in_order _ _ _ _ _ _ _ _) as [out o]. destruct Hin as (k & contents & Hf & Hc & Ho).
  destruct o; [|by exists k, contents|done]. rewrite sum_len_concat.
  destruct (Z.eqb_spec (len (concat out)) size); by exists k, contents.
Qed.

Lemma read_genuine source (p : pybytes) state session offset size : parts_from 0 (rt_parts source) →
  sumZ sap_plaintext_bytes (rt_parts source) = len p → rt_plaintext_bytes source = len p →
  from_json_text (rt_age_state_json source) = Ok state → session_from_state pass (StateValue state) None = Ok session →
  0 ≤ offset → 0 ≤ size → offset + size ≤ len p →
  (0 < size → ∀ entry, entry ∈ part_offsets 0 (rt_parts source) →
     ∃ r, future iter_object_range source state session entry = Ok r ∧ rp_number r = sap_number entry.1 ∧
       rp_content r = slice (sap_plaintext_start entry.1) (sap_plaintext_start entry.1 + sap_plaintext_bytes entry.1) p) →
  ∃ out, read_in_order source offset size = (out, Returned) ∧ concat out = slice offset (offset + size) p.
Proof.
  intros Hparts Hsum Hbytes Hstate Hsession Ho Hz Hend Hall. unfold RawRetrieval.read_in_order.
  rewrite (proj2 (Z.ltb_ge offset 0)), (proj2 (Z.ltb_ge size 0)), (proj2 (Z.ltb_ge _ (offset + size))) by lia. cbn [orb].
  destruct (Z.eqb_spec size 0) as [->|Hpos]; [exists []; by rewrite Z.add_0_r, slice_empty|].
  rewrite Hstate, ok_bind, Hsession, ok_bind. set (selected := filter _ _).
  destruct (in_order_genuine iter_object_range read_working_bytes Hworking source state session p offset (offset + size) selected)
    as (out & Hrun & Hout); [by intros entry [_ He]%list_elem_of_filter; apply Hall; [lia|]|].
  assert (Forall (λ part, 0 ≤ sap_plaintext_bytes part) (rt_parts source)) as Hnn by by apply (parts_nonneg 0).
  unfold selected in Hout. rewrite selected_fst, clips_selected, (clips_tile _ _ _ 0) in Hout by (done || lia).
  rewrite Hsum, Z.max_l, Z.min_l in Hout by lia. exists out. split; [|done].
  assert (len (concat out) = size) as Hlen by (rewrite Hout, len_slice; lia).
  destruct selected as [|entry rest]; [injection Hrun as <-; change (len (concat [])) with 0 in Hlen; lia|].
  by rewrite Hrun, sum_len_concat, Hlen, Z.eqb_refl.
Qed.
End ranges.

(** ** Honest stores *)

(** The store serves every range of the object, in chunks of its choice. *)
Definition serves (iter_object_range : pystr → option pystr → Z → Z → Z → stream) (object_path : pystr) (revision : option pystr)
    (file : pybytes) : Prop :=
  ∀ offset size, 0 ≤ offset → 0 ≤ size → offset + size ≤ len file →
    ∃ chunks, iter_object_range object_path revision (len file) offset size = (chunks, Ok tt) ∧
      concat chunks = slice offset (offset + size) file.

(** The decoder on the ciphertext of a range. *)
Lemma decode_range `{UnicodeData} `{Aead} p s file offset size chunks : len p ≤ 2 ^ 53 → 0 ≤ offset → 0 < size → offset + size ≤ len p →
  encrypt_plaintext s p = Ok file →
  concat chunks = slice (pr_ciphertext_offset (the_range s p offset size)) (ciphertext_end (the_range s p offset size)) file →
  ∃ out, iter_decrypt_age_plaintext_range (StateValue (state_of s p)) (the_range s p offset size) chunks None (Some s) = (out, Ok tt) ∧
    concat out = slice offset (offset + size) p.
Proof.
  intros Hp Ho Hs He Hf Hc. pose proof (len_nonneg p) as Hn.
  destruct (exact_range s p offset size file chunks Hp Ho ltac:(lia) He Hf) as (state & plan & Hstate & Hplan & Hgood & _).
  assert (state = state_of s p) as ->.
  { unfold Age.export_state in Hstate. rewrite (proj2 (Z.ltb_ge (len p) 0)) in Hstate by lia. by injection Hstate as <-. }
  rewrite plan_is_the_range in Hplan by lia. injection Hplan as <-. by apply Hgood.
Qed.

(** ** The claims *)

Section claims.
Context `{UnicodeData} `{Aead} (iter_object_range : pystr → option pystr → Z → Z → Z → stream).
Context (pass : passphrase) (request_concurrency : nat) (read_working_bytes capacity : Z).
Notation iter_volume_range := (iter_volume_range iter_object_range pass request_concurrency read_working_bytes capacity).

(** C8. Reading ahead is invisible: whatever the store serves or raises, whatever
    the other users of the byte budget leave, however many workers there are and
    wherever the consumer stops, a range reader yields the chunks and ends the way
    reading the parts one after the other does, and it returns to the budget all
    that it took; if no part needs more than the capacity. *)
Theorem prefetch_transparent source offset size answers limit :
  (∀ part, part ∈ rt_parts source → reserve_bytes read_working_bytes part ≤ capacity) →
  iter_volume_range source offset size answers limit =
  (closed_at limit (read_in_order iter_object_range pass read_working_bytes source offset size), 0).
Proof. apply volume_in_order. Qed.

(** C25. Nothing unverified is delivered: whatever the store serves, if no part
    exceeds the byte budget, the bytes that a range reader yields are those that
    the range asks for of contents which have the recorded plaintext size and
    digest of the first parts in the range; a reader that returns has yielded all
    of them, as many bytes as asked for. *)
Theorem retrieval_delivers_verified source offset size answers limit out o held : 1 ≤ read_working_bytes →
  (∀ part, part ∈ rt_parts source → reserve_bytes read_working_bytes part ≤ capacity) →
  iter_volume_range source offset size answers limit = (out, o, held) →
  ∃ k contents, let selected := take k (filter (overlaps offset (offset + size)) (rt_parts source)) in
    Forall2 verified_content selected contents ∧
    concat out `prefix_of` concat (zip_with (clip offset (offset + size)) selected contents) ∧
    (o = Returned → concat out = concat (zip_with (clip offset (offset + size)) selected contents) ∧ len (concat out) = size).
Proof.
  intros Hr Hfits Hrun. rewrite volume_in_order in Hrun by done. injection Hrun as Hclosed <-.
  pose proof (read_verified iter_object_range pass read_working_bytes Hr source offset size) as Hv.
  destruct (read_in_order _ _ _ _ _ _) as [out1 o1]. destruct Hv as (k & contents & Hf & Hc & _ & Hlen).
  apply closed_prefix in Hclosed as [Hpre Heq]. exists k, contents. cbv zeta. rewrite <- Hc. split_and!; [done|done|].
  intros ->. destruct Heq as [-> <-]; [done|]. auto.
Qed.
End claims.

(** ** A stored volume *)

Definition sample_source : RawVolumeRetrievalSource :=
  {| rt_volume_id := srv_volume_id sample_volume; rt_object_path := str "o"; rt_revision := None; rt_source_path := str "a";
     rt_file_offset := 0; rt_plaintext_bytes := 5; rt_file_bytes := 5; rt_file_sha256 := sap_plaintext_sha256 sample_part;
     rt_age_state_json := srv_age_state_json sample_volume; rt_parts := [sample_part] |}.

(** A store that sends single bytes. *)
Definition byte_store (_ : pystr) (_ : option pystr) (_ offset size : Z) : stream :=
  ((λ b, [b]) <$> slice offset (offset + size) sample_ciphertext, Ok tt).

Lemma sample_fits part : part ∈ rt_parts sample_source → reserve_bytes 65536 part ≤ 1000.
Proof. intros ->%list_elem_of_singleton. vm_compute. discriminate. Qed.

Lemma prefetch_transparent_witness :
  @iter_volume_range ascii_data tag_aead byte_store (PassText (str "pw")) 4 65536 1000 sample_source 1 3 [true] None =
  (([str "ell"], Returned), 0).
Proof.
  rewrite (@prefetch_transparent ascii_data tag_aead byte_store (PassText (str "pw")) 4 65536 1000 sample_source 1 3 [true] None sample_fits).
  vm_compute. reflexivity.
Defined.

Lemma retrieval_delivers_verified_witness :
  ∃ out o held, @iter_volume_range ascii_data tag_aead byte_store (PassText (str "pw")) 4 65536 1000 sample_source 1 3 [] (Some 1%nat) =
    (out, o, held) ∧
  ∃ k contents, let selected := take k (filter (overlaps 1 4) (rt_parts sample_source)) in
    Forall2 verified_content selected contents ∧ concat out `prefix_of` concat (zip_with (clip 1 4) selected contents) ∧
    (o = Returned → concat out = concat (zip_with (clip 1 4) selected contents) ∧ len (concat out) = 3).
Proof.
  destruct (@iter_volume_range ascii_data tag_aead byte_store (PassText (str "pw")) 4 65536 1000 sample_source 1 3 [] (Some 1%nat))
    as [[out o] held] eqn:Hrun. exists out, o, held. split; [reflexivity|].
  exact (@retrieval_delivers_verified ascii_data tag_aead byte_store (PassText (str "pw")) 4 65536 1000 sample_source 1 3 []
    (Some 1%nat) out o held ltac:(lia) sample_fits Hrun).
Defined.

(** A volume of two parts, the second larger than the budget: the first part is
    reserved before the block that returns reservations is entered, and what was
    reserved for it stays taken. *)
Definition oversized_source : RawVolumeRetrievalSource :=
  Eval vm_compute in
  {| rt_volume_id := srv_volume_id sample_volume; rt_object_path := str "o"; rt_revision := None; rt_source_path := str "a";
     rt_file_offset := 0; rt_plaintext_bytes := 196608; rt_file_bytes := 196608; rt_file_sha256 := [];
     rt_age_state_json := @dumps ascii_env true (upload_state_payload
       {| us_header := take 149 sample_ciphertext; us_payload_nonce := example_nonce;
          us_plaintext_size := Some 196608; us_format := upload_state_format |});
     rt_parts :=
       [{| sap_number := 1; sap_plaintext_start := 0; sap_plaintext_bytes := 65536; sap_plaintext_sha256 := [];
           sap_stored_bytes := 65717; sap_stored_sha256 := [] |};
        {| sap_number := 2; sap_plaintext_start := 65536; sap_plaintext_bytes := 131072; sap_plaintext_sha256 := [];
           sap_stored_bytes := 131104; sap_stored_sha256 := [] |}] |}.

Example oversized_part_leaks_budget :
  @new_retrieval_source ascii_data oversized_source = Ok oversized_source ∧
  ∃ e, @iter_volume_range ascii_data tag_aead (λ _ _ _ _ _, ([], Ok tt)) (PassText (str "pw")) 4 65536 140000
         oversized_source 0 196608 [] None = ([], Raised e, 131072).
Proof. split; [vm_compute; reflexivity|]. eexists. vm_compute. reflexivity. Qed.
