(* ===== verification/RetrievalSystem.v ===== *)
(** * Retrieval of what was uploaded

    The units of an upload, as the receipts of a sealed volume record them, read
    back in any range: the stored bytes of a part are the ciphertext range of its
    plaintext, and a store that serves the object makes every part pass its
    checks. *)

From stdpp Require Import gmap.
From S2P Require Import Prelude Text Json WriteSegments Sha256 Paths Domain PackIngress RawVolume Crypto Base64.
From S2P Require Import Age AgeUnits AgeRange StreamingAge ArchiveContracts RawVerification RawCheckpoint.
From S2P Require Import RawUpload MemoryStore UploadLayout UploadStore UploadSafety UploadSystem UploadProgress RawRetrieval.

(** ** Units and ciphertext ranges *)

(** Where a unit starts and ends in the file. *)
Lemma unit_ciphertext n pre per count first number offset us : 0 < per → 0 ≤ first → 1 ≤ number → (first = 0 ↔ number = 1) →
  0 < n → count = chunk_count n → offset = (if first =? 0 then 0 else pre + first * (CHUNK_SIZE + AEAD_TAG_SIZE)) →
  units_from n pre per count first number offset us →
  Forall (λ u, 0 ≤ au_first_chunk u ∧ 1 ≤ au_chunk_count u ∧ au_first_chunk u + au_chunk_count u ≤ count ∧
    au_ciphertext_start u = pre + au_first_chunk u * (CHUNK_SIZE + AEAD_TAG_SIZE) - (if au_unit_number u =? 1 then pre else 0) ∧
    au_plaintext_start u = au_first_chunk u * CHUNK_SIZE ∧
    au_plaintext_end u = Z.min ((au_first_chunk u + au_chunk_count u) * CHUNK_SIZE) n ∧
    au_ciphertext_end u = pre + au_plaintext_end u + (au_first_chunk u + au_chunk_count u) * AEAD_TAG_SIZE) us.
Proof.
  intros Hper Hf Hn Hiff Hpos Hc. pose proof (chunk_last n ltac:(lia)) as Hl. rewrite <- Hc in Hl.
  revert first number offset Hf Hn Hiff. induction us as [|u us IH]; intros first number offset Hf Hn Hiff Ho Hu; [constructor|].
  cbn [units_from] in Hu. destruct Hu as (Hlt & Hu & Hrest).
  assert ((number =? 1) = (first =? 0)) as Heq by (destruct (Z.eqb_spec number 1), (Z.eqb_spec first 0); tauto || lia).
  assert (au_ciphertext_end u = pre + Z.min ((first + Z.min per (count - first)) * CHUNK_SIZE) n + (first + Z.min per (count - first)) * AEAD_TAG_SIZE) as Hend.
  { rewrite Hu, Ho. unfold unit_plan. cbn [au_ciphertext_end]. rewrite (proj2 (Z.eqb_neq n 0)) by lia. unfold CHUNK_SIZE, AEAD_TAG_SIZE.
    destruct (Z.eqb_spec first 0); lia. }
  constructor.
  - rewrite Hend, Hu. unfold unit_plan. cbn [au_first_chunk au_chunk_count au_ciphertext_start au_unit_number au_plaintext_start au_plaintext_end].
    rewrite Heq, (proj2 (Z.eqb_neq n 0)) by lia. split_and!; try done; try lia. rewrite Ho. destruct (Z.eqb_spec first 0); lia.
  - destruct us as [|v us]; [constructor|]. pose proof Hrest as [Hlt' _].
    apply (IH (first + per) (number + 1) (au_ciphertext_end u)); try done; [lia|lia|lia|].
    rewrite (proj2 (Z.eqb_neq (first + per) 0)), Hend by lia. unfold CHUNK_SIZE, AEAD_TAG_SIZE in *. lia.
Qed.

Lemma units_offsets p file n pre per count first number offset us : units_from n pre per count first number offset us →
  part_offsets offset (part_of p file <$> us) = (λ u, (part_of p file u, au_ciphertext_start u)) <$> us.
Proof.
  revert first number offset. induction us as [|u us IH]; intros first number offset Hu; [done|].
  cbn [units_from] in Hu. destruct Hu as (_ & Hu & Hrest). rewrite !fmap_cons. cbn [part_offsets sap_stored_bytes part_of].
  assert (au_ciphertext_start u = offset) as Hs by by rewrite Hu. rewrite <- Hs. f_equal.
  replace (au_ciphertext_start u + ciphertext_len u) with (au_ciphertext_end u) by (unfold ciphertext_len; lia).
  by apply (IH _ _ _ Hrest).
Qed.

Lemma units_parts p file start us : contiguous start us → Forall (λ u, 0 ≤ plaintext_len u) us → parts_from start (part_of p file <$> us).
Proof.
  revert start. induction us as [|u us IH]; intros start Hc Hl; [done|]. rewrite fmap_cons. cbn [parts_from contiguous] in *.
  destruct Hc as [Hs Hc]. apply Forall_cons in Hl as [Hu Hl]. cbn [sap_plaintext_start sap_plaintext_bytes part_of].
  split_and!; [done|done|]. replace (start + plaintext_len u) with (au_plaintext_end u) by (unfold plaintext_len; lia). by apply IH.
Qed.

(** Skipping a prefix. *)
Lemma skip_spec skip chunks out missing : 0 ≤ skip → skip_age_prefix skip chunks = (out, missing) →
  concat out = drop (Z.to_nat skip) (concat chunks) ∧ missing = Z.max 0 (skip - len (concat chunks)).
Proof.
  revert skip out missing. induction chunks as [|data chunks IH]; intros skip out missing Hs Hr; cbn [skip_age_prefix concat] in *.
  - injection Hr as <- <-. rewrite drop_nil. change (len []) with 0. split; [done|lia].
  - rewrite len_app. destruct (Z.leb_spec (len data) skip) as [Hle|Hgt].
    + apply IH in Hr as [-> ->]; [|lia]. unfold len in *. split; [|lia]. rewrite drop_app_ge by lia. f_equal. lia.
    + destruct (skip_age_prefix 0 chunks) as [out' missing'] eqn:Hr'. apply IH in Hr' as [Ho ->]; [|lia]. injection Hr as <- <-.
      cbn [concat]. rewrite Ho, drop_0. unfold len in *. split; [|lia]. by rewrite drop_app_le by lia.
Qed.

(** ** Stored volumes *)

Section stored.
Context `{PyEnv} `{Aead} (passphrase : pystr) (scrypt_log_n target : Z).

(** A source whose state and parts are those that an upload of [p] records, with
    the object it leaves. *)
Record stored_volume (source : RawVolumeRetrievalSource) (p file : pybytes) : Prop := {
  sv_bytes : rt_plaintext_bytes source = len p;
  sv_limit : len p ≤ 2 ^ 53;
  sv_layout : ∃ s us, session_text passphrase scrypt_log_n p (rt_age_state_json source) s ∧ laid p (raw_units p target) s us file ∧
    rt_parts source = part_of p file <$> us;
}.

Lemma laid_units_from p s us file : len p ≤ 2 ^ 53 → laid p (raw_units p target) s us file →
  units_from (len p) (len (age_prefix s)) (unit_chunks target) (chunk_count (len p)) 0 1 0 us.
Proof.
  intros Hp Hl. pose proof (ld_units _ _ _ _ _ Hl) as Hus. pose proof (len_nonneg p).
  unfold raw_units, age_aligned_unit_plans, make_age_aligned_unit_plans in Hus. inv_step Hus. inv_step Hus. inv_step Hus.
  rewrite chunk_count_exact, ok_bind in Hus by lia. apply Ok_eq in Hus as <-.
  apply unit_loop_spec; [unfold unit_chunks; lia|lia].
Qed.

Lemma session_from_text pass text state : from_json_text text = Ok state →
  session_from_state pass (StateText text) None = session_from_state pass (StateValue state) None.
Proof. intros Hr. unfold session_from_state. change (_upload_state (StateText text)) with (from_json_text text). by rewrite Hr. Qed.

Lemma state_is p s state : upload_state_valid state → us_plaintext_size state = Some (len p) →
  us_header state = ss_header s → us_payload_nonce state = ss_payload_nonce s → state = state_of s p.
Proof. intros (_ & _ & _ & Hf & _). destruct state. cbn in *. unfold state_of. by intros -> -> ->; rewrite Hf. Qed.

Lemma session_state p text s : session_text passphrase scrypt_log_n p text s →
  from_json_text text = Ok (state_of s p) ∧ session_from_state (PassText passphrase) (StateValue (state_of s p)) None = Ok s.
Proof.
  intros (_ & _ & _ & state & _ & _ & _ & _ & Hv & Hz & -> & Hh & Hn & Hc).
  assert (state = state_of s p) as <- by by apply state_is.
  destruct (age_text_read _ Hv) as (_ & _ & _ & Hread). split; [done|]. rewrite <- (session_from_text _ _ _ Hread). exact Hc.
Qed.

(** The plan of a unit's plaintext is the unit's place in the file. *)
Lemma unit_plan_place p s us file u : len p ≤ 2 ^ 53 → 0 < len p → laid p (raw_units p target) s us file → u ∈ us →
  0 < plaintext_len u ∧ 0 ≤ au_plaintext_start u ∧ au_plaintext_end u ≤ len p ∧ 0 ≤ au_ciphertext_start u ∧
  let plan := the_range s p (au_plaintext_start u) (plaintext_len u) in
  let prefix := if au_unit_number u =? 1 then len (ss_header s) + len (ss_payload_nonce s) else 0 in
  pr_ciphertext_offset plan - prefix = au_ciphertext_start u ∧ ciphertext_end plan = au_ciphertext_end u ∧
  pr_ciphertext_offset plan ≤ ciphertext_end plan.
Proof.
  intros Hlim Hpos Hl Hu. pose proof (laid_units_from p s us file Hlim Hl) as Hfrom.
  assert (0 < unit_chunks target) as Hper by (unfold unit_chunks; lia).
  pose proof (unit_ciphertext _ _ _ _ _ _ _ _ Hper (Z.le_refl 0) (Z.le_refl 1) ltac:(lia) Hpos eq_refl eq_refl Hfrom) as Hall.
  rewrite Forall_forall in Hall. destruct (Hall u Hu) as (Hf & Hc & Hcount & Hcs & Hps & Hpe & Hce).
  destruct (chunk_last (len p) ltac:(lia)) as [Hlast Hlow]. specialize (Hlow Hpos). unfold age_prefix in *. rewrite len_app in *.
  pose proof (len_nonneg (ss_header s)). pose proof (len_nonneg (ss_payload_nonce s)).
  assert (0 < plaintext_len u) as Hlen by (unfold plaintext_len, CHUNK_SIZE in *; lia).
  assert (au_plaintext_start u + plaintext_len u = au_plaintext_end u) as Hend by (unfold plaintext_len; lia).
  split; [done|]. split; [unfold CHUNK_SIZE in *; lia|]. split; [lia|].
  split; [rewrite Hcs; unfold CHUNK_SIZE, AEAD_TAG_SIZE; destruct (_ =? 1); lia|].
  assert (range_first (au_plaintext_start u) = au_first_chunk u) as Hfirst.
  { unfold range_first. rewrite Hps. by rewrite Z.div_mul. }
  assert (range_final (au_plaintext_start u) (plaintext_len u) = au_first_chunk u + au_chunk_count u - 1) as Hfinal.
  { unfold range_final. rewrite Hend, Hpe. symmetry. apply Z.div_unique with (Z.min ((au_first_chunk u + au_chunk_count u) * CHUNK_SIZE) (len p) - 1
      - CHUNK_SIZE * (au_first_chunk u + au_chunk_count u - 1)); [|lia]. unfold CHUNK_SIZE in *. lia. }
  unfold ciphertext_end, the_range. cbn [pr_ciphertext_offset pr_ciphertext_bytes]. rewrite Hfirst, Hfinal.
  split; [lia|]. rewrite Hce, Hpe. unfold CHUNK_SIZE, AEAD_TAG_SIZE in *. split; lia.
Qed.

Lemma drop_slice (a b k : Z) (l : pybytes) : 0 ≤ a → 0 ≤ k → drop (Z.to_nat k) (slice a b l) = slice (a + k) b l.
Proof. intros. unfold slice. rewrite skipn_firstn_comm, drop_drop. f_equal; [lia|]. f_equal. lia. Qed.

Lemma unit_in_file p s us file u : laid p (raw_units p target) s us file → u ∈ us → 0 ≤ au_ciphertext_start u →
  len (stored file u) = ciphertext_len u ∧ 1 ≤ ciphertext_len u ∧ au_ciphertext_end u ≤ len file.
Proof.
  intros Hl Hu Hz. pose proof (ld_lengths _ _ _ _ _ Hl) as Hall. rewrite Forall_forall in Hall.
  destruct (Hall u Hu) as (Hlen & Hone & _). split_and!; [done|done|].
  unfold stored, slice, len, ciphertext_len in *. rewrite length_take, length_drop in Hlen. lia.
Qed.

(** Every part of a stored volume reads as its range of the plaintext. *)
Lemma read_unit iter_object_range source p s us file u : len p ≤ 2 ^ 53 → 0 < len p → laid p (raw_units p target) s us file →
  rt_plaintext_bytes source = len p → rt_parts source = part_of p file <$> us →
  serves iter_object_range (rt_object_path source) (rt_revision source) file → u ∈ us →
  future iter_object_range source (state_of s p) s (part_of p file u, au_ciphertext_start u) =
    Ok {| rp_number := au_unit_number u; rp_content := plain p u |}.
Proof.
  intros Hlim Hpos Hl Hbytes Hparts Hserves Hu.
  destruct (unit_plan_place p s us file u Hlim Hpos Hl Hu) as (Hlen & Hps & Hpe & Hcs & Hoff & Hend & Hle).
  destruct (unit_in_file p s us file u Hl Hu Hcs) as (Hstored & Hone & Hce).
  destruct (Hserves (au_ciphertext_start u) (ciphertext_len u)) as (chunks & Hread & Hcat); [lia|lia|unfold ciphertext_len; lia|].
  replace (au_ciphertext_start u + ciphertext_len u) with (au_ciphertext_end u) in Hcat by (unfold ciphertext_len; lia). fold (stored file u) in Hcat.
  assert (au_plaintext_start u + plaintext_len u = au_plaintext_end u) as Hspan by (unfold plaintext_len; lia).
  unfold future, _read_part. cbn [fst snd part_of sap_number sap_plaintext_start sap_plaintext_bytes sap_stored_bytes sap_stored_sha256 sap_plaintext_sha256].
  rewrite Hparts, (stored_total _ _ _ _ _ Hl), Hread, Hbytes, plan_is_the_range, ok_bind by lia. cbv zeta. cbn [fst snd].
  change (us_header (state_of s p)) with (ss_header s). change (us_payload_nonce (state_of s p)) with (ss_payload_nonce s).
  cbv zeta in Hoff. set (prefix := if au_unit_number u =? 1 then _ else 0) in *. rewrite Hoff, Z.eqb_refl. cbn [negb].
  assert (0 ≤ prefix) as Hprefix by (unfold prefix; pose proof (len_nonneg (ss_header s)); pose proof (len_nonneg (ss_payload_nonce s)); destruct (_ =? 1); lia).
  destruct (skip_age_prefix prefix chunks) as [payload missing] eqn:Hskip. apply skip_spec in Hskip as [Hpay ->]; [|done].
  rewrite Hcat in *. rewrite Z.max_l, ok_bind, Z.eqb_refl by (rewrite Hstored; unfold ciphertext_len; lia).
  destruct (decode_range p s file (au_plaintext_start u) (plaintext_len u) payload Hlim Hps Hlen ltac:(lia) (ld_file _ _ _ _ _ Hl)) as (out & -> & Hout).
  { rewrite Hpay. unfold stored. rewrite drop_slice by lia. f_equal; lia. }
  rewrite Hspan in Hout. fold (plain p u) in Hout. cbn [source_ends fst snd]. rewrite ok_bind, Hout, Hstored, Z.eqb_refl. cbn [negb].
  rewrite bool_decide_eq_true_2 by done. unfold plain at 1. rewrite len_slice by lia. unfold plaintext_len at 1. rewrite Z.eqb_refl. cbn [negb].
  by rewrite bool_decide_eq_true_2.
Qed.
End stored.

(** ** Ranges of volumes and of files *)

Section retrieved.
Context `{PyEnv} `{Aead} (passphrase : pystr) (scrypt_log_n target : Z).
Context (iter_object_range : pystr → option pystr → Z → Z → Z → stream).
Context (request_concurrency : nat) (read_working_bytes capacity : Z) (Hworking : 1 ≤ read_working_bytes).

Notation iter_volume_range := (iter_volume_range iter_object_range (PassText passphrase) request_concurrency read_working_bytes capacity).
Notation file_loop := (file_loop iter_object_range (PassText passphrase) request_concurrency read_working_bytes capacity).
Notation iter_file_range := (iter_file_range iter_object_range (PassText passphrase) request_concurrency read_working_bytes capacity).

(** A stored volume that the store serves and whose parts fit the budget. *)
Definition available (source : RawVolumeRetrievalSource) (p : pybytes) : Prop :=
  ∃ file, stored_volume passphrase scrypt_log_n target source p file ∧
    serves iter_object_range (rt_object_path source) (rt_revision source) file ∧
    ∀ part, part ∈ rt_parts source → reserve_bytes read_working_bytes part ≤ capacity.

Lemma volume_retrieved source p offset size answers : available source p → 0 ≤ offset → 0 ≤ size → offset + size ≤ len p →
  ∃ out, iter_volume_range source offset size answers None = (out, Returned, 0) ∧ concat out = slice offset (offset + size) p.
Proof.
  intros (file & [Hbytes Hlim (s & us & Hs & Hl & Hparts)] & Hserves & Hfits) Ho Hz He. rewrite volume_in_order by done. cbn [closed_at].
  destruct (session_state passphrase scrypt_log_n p _ s Hs) as [Hstate Hsession].
  assert (Forall (λ u, 0 ≤ plaintext_len u) us) as Hnn.
  { eapply Forall_impl; [exact (ld_lengths _ _ _ _ _ Hl)|]. intros u (_ & _ & <- & _). apply len_nonneg. }
  destruct (read_genuine iter_object_range (PassText passphrase) read_working_bytes Hworking source p (state_of s p) s offset size)
    as (out & -> & Hout); try done; [| | |by exists out].
  - rewrite Hparts. apply units_parts; [apply Hl|done].
  - transitivity (len (concat (plain p <$> us))); [|by rewrite (ld_plain _ _ _ _ _ Hl)].
    rewrite <- (plain_sum p _ s us file Hl us), Hparts by done.
    clear. induction us as [|u us IH]; [done|]. by rewrite fmap_cons, !sumZ_cons, IH.
  - intros Hsize entry. rewrite Hparts, (units_offsets _ _ _ _ _ _ _ _ _ _ (laid_units_from target p s us file Hlim Hl)).
    intros (u & -> & Hu)%list_elem_of_fmap. eexists. split; [by apply (read_unit target iter_object_range source p s us file u); [|lia|..]|].
    split; [done|]. cbn [rp_content fst part_of sap_plaintext_start sap_plaintext_bytes]. unfold plain, plaintext_len. f_equal. lia.
Qed.

(** Volumes one after the other from [start], each with its range of the file. *)
Fixpoint volumes_from (path : pystr) (f : pybytes) (start : Z) (volumes : list RawVolumeRetrievalSource) : Prop :=
  match volumes with
  | [] => start = len f
  | volume :: volumes =>
      rt_file_offset volume = start ∧ rt_source_path volume = path ∧ rt_file_bytes volume = len f ∧ rt_file_sha256 volume = sha256_hex f ∧
      start + rt_plaintext_bytes volume ≤ len f ∧ 0 ≤ rt_plaintext_bytes volume ∧
      available volume (slice start (start + rt_plaintext_bytes volume) f) ∧
      volumes_from path f (start + rt_plaintext_bytes volume) volumes
  end.

Lemma file_loop_reads path f offset requested_end answers index start volumes : 0 ≤ start → 0 ≤ offset → offset ≤ requested_end →
  requested_end ≤ len f → volumes_from path f start volumes →
  ∃ out, file_loop offset requested_end answers index volumes None = (out, Returned, 0) ∧
    concat out = slice (Z.max offset start) requested_end f.
Proof.
  intros Hs Ho Hr He. revert index start Hs. induction volumes as [|volume volumes IH]; intros index start Hs Hv; cbn [RawRetrieval.file_loop volumes_from] in *.
  { exists []. split; [done|]. by rewrite slice_none by lia. }
  destruct Hv as (Hoff & _ & _ & _ & Hend & Hnn & Hav & Hv). set (n := rt_plaintext_bytes volume) in *.
  destruct (IH (S index) (start + n) ltac:(lia) Hv) as (out & Hrun & Hout). cbv zeta. rewrite Hoff.
  pose proof (slice_clips offset requested_end start (start + n) (len f) f Hs ltac:(lia) Hend) as Hjoin.
  rewrite (Z.min_l requested_end (len f)), <- Hout in Hjoin by lia. rewrite <- Hjoin.
  destruct ((start + n <=? offset) || (requested_end <=? start)) eqn:Hskip.
  { exists out. split; [done|]. apply orb_prop in Hskip as [?%Z.leb_le|?%Z.leb_le]; by rewrite slice_none by lia. }
  apply orb_false_elim in Hskip as [Hlo%Z.leb_gt Hhi%Z.leb_gt].
  destruct (volume_retrieved volume _ (Z.max offset start - start) (Z.min requested_end (start + n) - start - (Z.max offset start - start))
    (answers index) Hav) as (chunks & -> & Hc); [lia|lia|rewrite len_slice; lia|].
  rewrite slice_slice in Hc by lia. rewrite sum_len_concat.
  assert (concat chunks = slice (Z.max offset start) (Z.min requested_end (start + n)) f) as Hcc by (rewrite Hc; f_equal; lia).
  rewrite Hcc, len_slice, (proj2 (Z.eqb_eq _ _)) by lia. cbn [negb]. cbn [fmap option_fmap option_map]. rewrite Hrun.
  exists (chunks ++ out). split; [done|]. by rewrite concat_app, Hcc.
Qed.

Lemma file_checked path f first start volumes : rt_source_path first = path → rt_file_bytes first = len f →
  rt_file_sha256 first = sha256_hex f → volumes_from path f start volumes → foldM (file_volume_step first) start volumes = Ok (len f).
Proof.
  intros Hp Hb Hh. revert start. induction volumes as [|volume volumes IH]; intros start Hv; cbn [foldM volumes_from] in *; [by rewrite Hv|].
  destruct Hv as (Hoff & Hpath & Hbytes & Hsha & _ & _ & _ & Hv).
  assert (file_volume_step first start volume = Ok (start + rt_plaintext_bytes volume)) as ->; [|rewrite ok_bind; by apply IH].
  unfold file_volume_step. by rewrite Hpath, Hp, Hbytes, Hb, Hsha, Hh, Hoff, !bool_decide_eq_true_2, !Z.eqb_refl by done.
Qed.

Lemma file_retrieved path f volumes ordered offset size answers : volumes ≡ₚ ordered → ordered ≠ [] →
  increasing rt_file_offset ordered → volumes_from path f 0 ordered →
  0 ≤ offset → 0 ≤ default (len f - offset) size → offset + default (len f - offset) size ≤ len f →
  ∃ out, iter_file_range volumes offset size answers None = (out, Returned, 0) ∧
    concat out = slice offset (offset + default (len f - offset) size) f.
Proof.
  intros Hperm Hne Hinc Hv Ho Hz He. set (resolved := default (len f - offset) size) in *.
  assert (sorted_byZ rt_file_offset volumes = ordered) as Hsort.
  { apply (increasing_unique rt_file_offset); [|done|by rewrite sorted_byZ_perm]. apply sorted_byZ_increasing. rewrite Hperm.
    by apply increasing_nodup. }
  destruct ordered as [|first rest]; [done|]. pose proof Hv as (_ & Hpath & Hbytes & Hsha & _).
  assert (file_request volumes offset size = Ok (first :: rest, first, resolved)) as Hreq.
  { unfold file_request. rewrite Hsort, (file_checked path f first 0 (first :: rest)), ok_bind, Hbytes, Z.eqb_refl by done. cbn [negb].
    change (match size with Some n => n | None => len f - offset end) with resolved.
    by rewrite (proj2 (Z.ltb_ge offset 0)), (proj2 (Z.ltb_ge resolved 0)), (proj2 (Z.ltb_ge (len f) _)) by lia. }
  unfold RawRetrieval.iter_file_range. rewrite bool_decide_eq_false_2, Hreq by done.
  destruct (file_loop_reads path f offset (offset + resolved) answers 0 0 (first :: rest)) as (out & -> & Hout); try done; [lia|].
  rewrite Z.max_l in Hout by lia. exists out. split; [|done].
  rewrite sum_len_concat, Hout, len_slice, (proj2 (Z.eqb_eq _ _)) by lia. cbn [negb].
  destruct (Z.eqb_spec offset 0) as [->|]; [|done]. destruct (Z.eqb_spec resolved (rt_file_bytes first)) as [Hall|]; [|done].
  rewrite Z.add_0_l, Hall, Hbytes, slice_full, Hsha, bool_decide_eq_true_2; done.
Qed.
End retrieved.

(** ** Sealed uploads *)

(** The source that the catalog gives for a sealed volume. *)
Definition retrieval_source (object_path : pystr) (v : SealedRawVolume) : RawVolumeRetrievalSource :=
  {| rt_volume_id := srv_volume_id v; rt_object_path := object_path; rt_revision := srv_revision v; rt_source_path := srv_source_path v;
     rt_file_offset := srv_file_offset v; rt_plaintext_bytes := srv_plaintext_bytes v; rt_file_bytes := srv_file_bytes v;
     rt_file_sha256 := srv_file_sha256 v; rt_age_state_json := srv_age_state_json v; rt_parts := srv_parts v |}.

(** The layout of the parts of all units passes the check of a source. *)
Lemma source_parts_ok p file number start us : au_unit_number <$> us = rangeZ number (number + len us) → contiguous start us →
  Forall (λ u, 0 ≤ plaintext_len u ∧ 1 ≤ ciphertext_len u) us →
  foldM source_part_step (number, start) (part_of p file <$> us) = Ok (number + len us, start + sumZ plaintext_len us).
Proof.
  revert number start. induction us as [|u us IH]; intros number start Hn Hc Hall.
  - cbn [fmap list_fmap foldM]. change (sumZ plaintext_len []) with 0. by rewrite len_nil, !Z.add_0_r.
  - rewrite fmap_cons in Hn. rewrite fmap_cons. pose proof (len_nonneg us) as Hus. rewrite len_cons, rangeZ_cons in Hn by lia. injection Hn as Hnum Hn.
    cbn [contiguous] in Hc. destruct Hc as [Hs Hc]. apply Forall_cons in Hall as [[Hu1 Hu2] Hall]. cbn [foldM].
    assert (source_part_step (number, start) (part_of p file u) = Ok (number + 1, start + plaintext_len u)) as ->.
    { unfold source_part_step, part_of. cbn [sap_number sap_plaintext_start sap_plaintext_bytes sap_stored_bytes].
      by rewrite Hnum, Hs, !Z.eqb_refl, (proj2 (Z.ltb_ge _ 0)), (proj2 (Z.leb_gt _ 0)) by lia. }
    rewrite ok_bind. replace (start + plaintext_len u) with (au_plaintext_end u) by (unfold plaintext_len; lia).
    rewrite IH; [|rewrite Hn; f_equal; lia|done|done]. rewrite len_cons, sumZ_cons. f_equal. f_equal; unfold plaintext_len; lia.
Qed.

Section sealed.
Context `{PyEnv} `{Aead} `{StoreContract} (passphrase : pystr) (scrypt_log_n : Z).
Context (source_read_chunk_bytes max_inflight_bytes : Z) (q : Request) (p : pybytes).

Lemma sealed_source_ok (Hq : request_ok q p) c s us file k : session_text passphrase scrypt_log_n p (rk_age_state_json c) s →
  laid p (raw_units p (rq_target q)) s us file →
  let source := retrieval_source (rq_object_path q) (sealed_volume q p c us file k) in
  new_retrieval_source source = Ok source ∧ stored_volume passphrase scrypt_log_n (rq_target q) source p file.
Proof.
  intros Hs Hl source. pose proof (len_nonneg p) as Hn. split.
  2: { split; [done|by apply Hq|]. by exists s, us. }
  assert (Forall (λ u, 0 ≤ plaintext_len u ∧ 1 ≤ ciphertext_len u) us) as Hall.
  { eapply Forall_impl; [exact (ld_lengths _ _ _ _ _ Hl)|]. intros u (_ & Hone & <- & _). split; [apply len_nonneg|done]. }
  assert (sumZ plaintext_len us = len p) as Hsum.
  { rewrite (plain_sum p _ s us file Hl us) by done. by rewrite (ld_plain _ _ _ _ _ Hl). }
  destruct (ro_source _ _ Hq) as [Hsrc _], (ro_object _ _ Hq) as [Hobj _], (ro_range _ _ Hq) as [Hoff Hend].
  rewrite (ro_bytes _ _ Hq) in Hend.
  assert (startswith (str "segment-") (rv_volume_id (rq_plan q)) = true) as Hid.
  { pose proof (ro_sequence _ _ Hq) as Hseq. unfold segment_sequence in Hseq. inv_step Hseq. unfold segment_id_fullmatch in *. bool_prop. done. }
  unfold new_retrieval_source, source, retrieval_source, sealed_volume.
  cbn [rt_volume_id rt_object_path rt_source_path rt_file_offset rt_plaintext_bytes rt_file_bytes rt_age_state_json rt_parts
       srv_volume_id srv_source_path srv_file_offset srv_plaintext_bytes srv_file_bytes srv_age_state_json srv_parts].
  rewrite Hid, (bool_decide_eq_false_2 (rq_object_path q = [])), Hsrc, ok_bind, bool_decide_eq_true_2 by done. cbn [negb orb].
  rewrite (proj2 (Z.ltb_ge _ 0)), (proj2 (Z.ltb_ge (len p) 0)), (proj2 (Z.ltb_ge (rv_file_bytes (rq_plan q)) 0)),
    (proj2 (Z.ltb_ge (rv_file_bytes (rq_plan q)) _)) by lia. cbn [orb].
  destruct (session_state passphrase scrypt_log_n p _ s Hs) as [-> _]. rewrite ok_bind, bool_decide_eq_true_2 by done. cbn [negb].
  rewrite (source_parts_ok p file 1 0 us (ld_numbers _ _ _ _ _ Hl) (ld_contiguous _ _ _ _ _ Hl) Hall), ok_bind, Hsum, Z.eqb_refl. done.
Qed.

(** What a completed checkpoint promises to a reader. *)
Definition retrievable (st : ost) (c : RawUploadCheckpoint) : Prop :=
  ∃ v o, sealed_receipt passphrase c = Ok v ∧ objects st !! rq_object_path q = Some o ∧
    let source := retrieval_source (rq_object_path q) v in
    new_retrieval_source source = Ok source ∧
    ∀ iter_object_range request_concurrency read_working_bytes capacity answers offset size,
      serves iter_object_range (rq_object_path q) (srv_revision v) (ov_content o) → 1 ≤ read_working_bytes →
      (∀ part, part ∈ srv_parts v → reserve_bytes read_working_bytes part ≤ capacity) →
      0 ≤ offset → 0 ≤ size → offset + size ≤ len p →
      ∃ out, iter_volume_range iter_object_range (PassText passphrase) request_concurrency read_working_bytes capacity source
               offset size answers None = (out, Returned, 0) ∧
        concat out = slice offset (offset + size) p.

(** C7. What was uploaded can be read back: in every reachable state of the
    uploads of a volume, a completed checkpoint gives a receipt whose retrieval
    source passes the checks of its constructor, and reading any range of it from
    a store that serves the object at the path, in whatever chunks, with a byte
    budget that admits each part, yields exactly that range of the plaintext,
    returns, and leaves the byte budget as it was. *)
Theorem sealed_upload_retrievable w cs c k : request_ok q p →
  reachable passphrase scrypt_log_n source_read_chunk_bytes max_inflight_bytes q p (w, cs) → c ∈ cs →
  rk_completed c = Some k → retrievable (w_store w) c.
Proof.
  intros Hq Hr Hin Hk. apply (system_reachable_inv _ _ _ _ _ _ Hq) in Hr as (tokens & Hi & Hcs). cbn [fst snd] in *.
  rewrite Forall_forall in Hcs. destruct (Hcs c Hin) as [Hc Ht Hd].
  destruct (Hd ltac:(cbn; by rewrite Hk)) as (o & Ho & s & us & Hs & Hl). exists (sealed_volume q p c us (ov_content o) k), o.
  destruct (sealed_source_ok Hq c s us (ov_content o) k Hs Hl) as [Hnew Hstored]. cbv zeta. split_and!; try done.
  - by apply (sealed_receipt_ok passphrase scrypt_log_n q p Hq c s us _ Hc Hs Hl).
  - intros iter_object_range rc rwb cap answers offset size Hserves Hw Hfits. apply (volume_retrieved passphrase scrypt_log_n (rq_target q)); [done|].
    by exists (ov_content o).
Qed.
End sealed.

Section files.
Context `{PyEnv} `{Aead} (passphrase : pystr) (scrypt_log_n target : Z).
Context (iter_object_range : pystr → option pystr → Z → Z → Z → stream).
Context (request_concurrency : nat) (read_working_bytes capacity : Z).

(** C24. A stored file can be read back: for volumes that tile a file, each stored
    the way an upload stores it, served by the store and with parts that the byte
    budget admits, given in any order, the file reader yields exactly the
    requested range of the file in whatever way the budget admits its prefetches,
    passes its digest check on the whole file, returns, and leaves the byte budget
    as it was. *)
Theorem stored_file_retrieved path f volumes ordered offset size answers : 1 ≤ read_working_bytes →
  volumes ≡ₚ ordered → ordered ≠ [] → increasing rt_file_offset ordered →
  volumes_from passphrase scrypt_log_n target iter_object_range read_working_bytes capacity path f 0 ordered →
  0 ≤ offset → 0 ≤ default (len f - offset) size → offset + default (len f - offset) size ≤ len f →
  ∃ out, iter_file_range iter_object_range (PassText passphrase) request_concurrency read_working_bytes capacity volumes offset size
           answers None = (out, Returned, 0) ∧
    concat out = slice offset (offset + default (len f - offset) size) f.
Proof. intros Hw. by apply file_retrieved. Qed.
End files.

(** ** An upload read back *)

Section in_memory.
#[local] Existing Instance ascii_env.
#[local] Existing Instance tag_aead.
#[local] Existing Instance sample_store.
#[local] Existing Instance sample_view.
#[local] Existing Instance sample_contract.
#[local] Existing Instance sample_serves.

Lemma sealed_upload_retrievable_witness : ∃ w cs c k,
  reachable (str "pw") 1 65536 1000000 sample_request (str "hello") (w, cs) ∧ c ∈ cs ∧ rk_completed c = Some k ∧
  retrievable (str "pw") sample_request (str "hello") (w_store w) c.
Proof.
  destruct sample_ready as (Hcheck & Hinit & Hs & Hus & Hplans & Hbudget & Hstream).
  destruct (send_returns (str "pw") 1 65536 1000000 sample_request (str "hello") sample_request_ok empty_world empty_row
    sample_session sample_units sample_plans sample_stream example_key example_salt example_nonce Hcheck Hinit eq_refl eq_refl
    sample_fresh Hs Hus Hplans (Z.le_refl _) Hbudget Hstream) as (c & k & w' & cs & _ & Hk & Hr & Hin).
  exists w', cs, c, k. split; [exact Hr|]. split; [exact Hin|]. split; [exact Hk|].
  exact (sealed_upload_retrievable (str "pw") 1 65536 1000000 sample_request (str "hello") w' cs c k sample_request_ok Hr Hin Hk).
Defined.

(** The stored volume of the retrieval example is one that an upload stores. *)
Lemma sample_session_text : session_text (str "pw") 1 (str "hello") (rt_age_state_json sample_source) sample_session.
Proof.
  destruct sample_ready as (_ & _ & Hs & _). destruct sample_fresh as (Hk & Hsalt & Hn & _).
  assert (∃ state content, Age.export_state sample_session (Some (len (str "hello"))) = Ok state ∧ to_json_bytes state = Ok content ∧
    utf8_decode content = Ok (rt_age_state_json sample_source)) as (state & content & Hexp & Hto & Hdec).
  { exists (state_of sample_session (str "hello")), (rt_age_state_json sample_source). split_and!; vm_compute; reflexivity. }
  by apply (created_text (str "pw") 1 (str "hello") example_key example_salt example_nonce sample_session state content).
Qed.

Lemma sample_stored : stored_volume (str "pw") 1 65536 sample_source (str "hello") sample_ciphertext.
Proof.
  split; [done|done|]. destruct (session_units (str "pw") 1 (str "hello") 65536 ltac:(done) ltac:(done) _ _ sample_session_text) as (us & file & Hl).
  assert (file = sample_ciphertext) as ->.
  { pose proof (ld_file _ _ _ _ _ Hl) as Hf. vm_compute in Hf. by injection Hf as <-. }
  exists sample_session, us. split_and!; [apply sample_session_text|done|].
  pose proof (ld_units _ _ _ _ _ Hl) as Hu. vm_compute in Hu. apply Ok_eq in Hu as <-. vm_compute. reflexivity.
Qed.

Lemma stored_file_retrieved_witness : ∃ out,
  iter_file_range byte_store (PassText (str "pw")) 4 65536 1000 [sample_source] 1 (Some 3) (λ _, []) None = (out, Returned, 0) ∧
  concat out = str "ell".
Proof.
  destruct (stored_file_retrieved (str "pw") 1 65536 byte_store 4 65536 1000 (str "a") (str "hello") [sample_source] [sample_source] 1 (Some 3) (λ _, []))
    as (out & Hrun & Hout); [lia|done|done| | |lia|cbn; lia|vm_compute; discriminate|].
  - apply increasing_cons. split; [constructor|constructor].
  - cbn [volumes_from]. split_and!; [done|done|done|vm_compute; reflexivity|vm_compute; discriminate|vm_compute; discriminate| |done].
    exists sample_ciphertext. split_and!; [apply sample_stored| |apply sample_fits].
    intros offset size _ _ _. eexists. split; [reflexivity|]. cbn [fst]. induction (slice _ _ _) as [|b l IH]; [done|]. cbn. by rewrite IH.
  - exists out. split; [exact Hrun|]. rewrite Hout. reflexivity.
Defined.
End in_memory.
