(* ===== verification/PackRetrieval.v ===== *)
(** * Reading members of a pack back

    [pack_retrieval.py]: the ciphertext ranges of selected members of a pack,
    coalesced into bounded requests; the batch reader, which fetches the requests
    in parallel and cuts the members out of the decrypted chunks; and the reader
    of one member or of a range of it.

    A request's result depends on the store alone, so the pool is the order in
    which the requests complete.  The byte budget is a context manager and always
    returned; what it refuses is modelled.  Timings, the request gate and the
    settings of the environment are left out. *)

From stdpp Require Import gmap.
From S2P Require Import Prelude Text Json Sha256 Paths Domain PackIngress Tar PackVolume PackRender RawVolume Crypto Base64 Age AgeUnits AgeRange.
From S2P Require Import StreamingAge RawVerification RawRetrieval.

Definition BILLING_MODE_RETURNED_BYTES : pystr := str "returned_bytes".
Definition BILLING_MODE_WHOLE_OBJECT : pystr := str "whole_object".

Record PackVolumeRetrievalSource := {
  ps_volume_id : pystr;
  ps_object_path : pystr;
  ps_revision : option pystr;
  ps_plaintext_bytes : Z;
  ps_stored_bytes : Z;
  ps_age_state_json : pystr;
}.

Definition new_pack_source `{PyEnv} (s : PackVolumeRetrievalSource) : result PackVolumeRetrievalSource :=
  when negb (pack_volume_id_fullmatch (ps_volume_id s)) raise ValueError "pack retrieval volume id is invalid";
  when bool_decide (ps_object_path s = []) || startswith (str "/") (ps_object_path s)
    raise ValueError "pack retrieval object path is invalid";
  when (ps_plaintext_bytes s <=? 0) || (ps_stored_bytes s <=? 0)
    raise ValueError "pack retrieval volume sizes must be positive";
  state ← from_json_text (ps_age_state_json s);
  when negb (bool_decide (us_plaintext_size state = Some (ps_plaintext_bytes s)))
    raise ValueError "pack retrieval age state plaintext size mismatch";
  content ← to_json_bytes state;
  text ← utf8_decode content;
  when negb (bool_decide (text = ps_age_state_json s)) raise ValueError "pack retrieval age state JSON is not canonical";
  Ok s.

Record PackMemberRetrievalSource := {
  mb_path : pystr;
  mb_bytes : Z;
  mb_sha256 : pystr;
  mb_data_offset : Z;
}.

Definition new_member `{UnicodeData} (m : PackMemberRetrievalSource) : result PackMemberRetrievalSource :=
  normalized ← normalize_relpath (mb_path m);
  when negb (bool_decide (normalized = mb_path m)) || startswith RESERVED_ARCHIVE_PREFIX normalized
    raise ValueError "pack retrieval member path is invalid";
  when (mb_bytes m <? 0) || (mb_data_offset m <? 0) raise ValueError "pack retrieval member range is invalid";
  when negb (sha256_fullmatch (mb_sha256 m)) raise ValueError "pack retrieval member sha256 is invalid";
  Ok m.

Record PackMemberRange := {
  mr_path : pystr;
  mr_bytes : Z;
  mr_sha256 : pystr;
  mr_data_offset : Z;
  mr_ciphertext_offset : Z;
  mr_ciphertext_bytes : Z;
  mr_first_chunk : Z;
  mr_chunk_count : Z;
}.

Definition mr_ciphertext_end (m : PackMemberRange) : Z := mr_ciphertext_offset m + mr_ciphertext_bytes m.

Record PackCiphertextRequest := {
  cq_number : Z;
  cq_ciphertext_offset : Z;
  cq_ciphertext_bytes : Z;
  cq_first_chunk : Z;
  cq_last_chunk : Z;
  cq_member_paths : list pystr;
}.

Record PackRangeRetrievalPolicy := {
  po_merge_gap_ciphertext_bytes : Z;
  po_max_request_ciphertext_bytes : Z;
  po_billing_mode : pystr;
}.

Definition new_policy (p : PackRangeRetrievalPolicy) : result PackRangeRetrievalPolicy :=
  when po_merge_gap_ciphertext_bytes p <? 0 raise ValueError "pack range merge gap must be non-negative";
  when po_max_request_ciphertext_bytes p <? CHUNK_SIZE + AEAD_TAG_SIZE
    raise ValueError "pack range request limit is below one age chunk";
  when negb (bool_decide (po_billing_mode p = BILLING_MODE_RETURNED_BYTES))
       && negb (bool_decide (po_billing_mode p = BILLING_MODE_WHOLE_OBJECT))
    raise ValueError "pack range billing mode is invalid";
  Ok p.

Record PackRangeRetrievalPlan := {
  gp_source : PackVolumeRetrievalSource;
  gp_policy : PackRangeRetrievalPolicy;
  gp_members : list PackMemberRange;
  gp_requests : list PackCiphertextRequest;
  gp_logical_bytes : Z;
  gp_remote_bytes : Z;
  gp_accounted_remote_bytes : Z;
}.

#[export] Instance pack_source_eq_dec : EqDecision PackVolumeRetrievalSource.
Proof. solve_decision. Defined.
#[export] Instance pack_member_range_eq_dec : EqDecision PackMemberRange.
Proof. solve_decision. Defined.
#[export] Instance pack_request_eq_dec : EqDecision PackCiphertextRequest.
Proof. solve_decision. Defined.
#[export] Instance pack_policy_eq_dec : EqDecision PackRangeRetrievalPolicy.
Proof. solve_decision. Defined.
#[export] Instance pack_range_plan_eq_dec : EqDecision PackRangeRetrievalPlan.
Proof. solve_decision. Defined.

(** ** Planning *)

(** [sorted(members, key=lambda current: (current.data_offset, current.path))]; the
    pair orders as the list of the offset and the code points of the path. *)
Definition member_key (m : PackMemberRetrievalSource) : pystr := mb_data_offset m :: mb_path m.
Definition sorted_members (l : list PackMemberRetrievalSource) : list PackMemberRetrievalSource := sorted_by member_key l.

Definition _required_last_chunk (m : PackMemberRange) : result Z :=
  when mr_chunk_count m <=? 0 raise ValueError "empty pack member has no required age chunk";
  Ok (mr_first_chunk m + mr_chunk_count m - 1).

(** The request under construction in [_coalesced_requests]. *)
Record open_request := {
  oq_start : Z;
  oq_end : Z;
  oq_first_chunk : Z;
  oq_last_chunk : Z;
  oq_paths : list pystr;
}.

Definition begin_request (m : PackMemberRange) : result open_request :=
  last_chunk ← _required_last_chunk m;
  Ok {| oq_start := mr_ciphertext_offset m; oq_end := mr_ciphertext_end m; oq_first_chunk := mr_first_chunk m;
        oq_last_chunk := last_chunk; oq_paths := [mr_path m] |}.

Definition close_request (number : Z) (o : open_request) : PackCiphertextRequest :=
  {| cq_number := number; cq_ciphertext_offset := oq_start o; cq_ciphertext_bytes := oq_end o - oq_start o;
     cq_first_chunk := oq_first_chunk o; cq_last_chunk := oq_last_chunk o; cq_member_paths := oq_paths o |}.

Definition coalesce_step (policy : PackRangeRetrievalPolicy) (st : list PackCiphertextRequest * open_request)
    (current : PackMemberRange) : result (list PackCiphertextRequest * open_request) :=
  let '(requests, o) := st in
  let gap := Z.max 0 (mr_ciphertext_offset current - oq_end o) in
  let merged_end := Z.max (oq_end o) (mr_ciphertext_end current) in
  let merged_bytes := merged_end - oq_start o in
  let overlaps := mr_ciphertext_offset current <=? oq_end o in
  if (overlaps || (gap <=? po_merge_gap_ciphertext_bytes policy)) && (merged_bytes <=? po_max_request_ciphertext_bytes policy)
  then
    last_chunk ← _required_last_chunk current;
    Ok (requests, {| oq_start := oq_start o; oq_end := merged_end; oq_first_chunk := oq_first_chunk o;
                     oq_last_chunk := Z.max (oq_last_chunk o) last_chunk; oq_paths := oq_paths o ++ [mr_path current] |})
  else
    o' ← begin_request current;
    Ok (requests ++ [close_request (len requests + 1) o], o').

Definition _coalesced_requests (members : list PackMemberRange) (policy : PackRangeRetrievalPolicy) :
    result (list PackCiphertextRequest) :=
  match filter (λ m, 0 < mr_chunk_count m) members with
  | [] => Ok []
  | (first :: rest) as nonempty =>
      let oversized := filter (λ m, po_max_request_ciphertext_bytes policy < mr_ciphertext_bytes m) nonempty in
      when negb (bool_decide (oversized = [])) raise ValueError "pack member range exceeds the configured request bound";
      o ← begin_request first;
      '(requests, o) ← foldM (coalesce_step policy) ([], o) rest;
      Ok (requests ++ [close_request (len requests + 1) o])
  end.

Definition path_error (message : pystr) (path : pystr) : exn := Exn ValueError (message ++ path).

Definition plan_member_step `{UnicodeData} (source : PackVolumeRetrievalSource) (st : list pystr * list PackMemberRange)
    (member : PackMemberRetrievalSource) : result (list pystr * list PackMemberRange) :=
  let '(seen, planned) := st in
  if bool_decide (mb_path member ∈ seen) then Err (path_error (str "pack range retrieval repeats member path: ") (mb_path member))
  else if ps_plaintext_bytes source <? mb_data_offset member + mb_bytes member
  then Err (path_error (str "pack member range exceeds its volume: ") (mb_path member))
  else
    range_plan ← plan_age_plaintext_range (StateText (ps_age_state_json source)) (ps_plaintext_bytes source)
                   (mb_data_offset member) (mb_bytes member);
    Ok (mb_path member :: seen,
        planned ++ [{| mr_path := mb_path member; mr_bytes := mb_bytes member; mr_sha256 := mb_sha256 member;
                       mr_data_offset := mb_data_offset member; mr_ciphertext_offset := pr_ciphertext_offset range_plan;
                       mr_ciphertext_bytes := pr_ciphertext_bytes range_plan; mr_first_chunk := pr_first_chunk range_plan;
                       mr_chunk_count := pr_chunk_count range_plan |}]).

Definition plan_pack_range_retrieval `{UnicodeData} (source : PackVolumeRetrievalSource) (members : list PackMemberRetrievalSource)
    (policy : PackRangeRetrievalPolicy) : result PackRangeRetrievalPlan :=
  '(_, planned_members) ← foldM (plan_member_step source) ([], []) (sorted_members members);
  requests ← _coalesced_requests planned_members policy;
  let remote_bytes := sumZ cq_ciphertext_bytes requests in
  Ok {| gp_source := source; gp_policy := policy; gp_members := planned_members; gp_requests := requests;
        gp_logical_bytes := sumZ mr_bytes planned_members; gp_remote_bytes := remote_bytes;
        gp_accounted_remote_bytes :=
          if negb (bool_decide (requests = [])) && bool_decide (po_billing_mode policy = BILLING_MODE_WHOLE_OBJECT)
          then ps_stored_bytes source else remote_bytes |}.

(** ** Reading *)

Section reading.
Context `{UnicodeData} `{Aead}.
Context (iter_object_range : pystr → option pystr → Z → Z → Z → stream).
Context (pass : passphrase) (read_working_bytes capacity : Z).

(** [WeightedByteSemaphore.reserve], but for the waiting. *)
Definition reserve (amount : Z) : result unit :=
  if capacity <? amount then Err (over_capacity capacity amount) else Ok tt.

Definition _require_verified_member (m : PackMemberRange) (content : pybytes) : result unit :=
  if negb (len content =? mr_bytes m) || negb (bool_decide (sha256_hex content = mr_sha256 m))
  then Err (path_error (str "pack member range verification failed: ") (mr_path m)) else Ok tt.

(** The loop of [iter_member_range] over the decrypted chunks. *)
Fixpoint emit_member (path : pystr) (bytes emitted : Z) (chunks : list pybytes) (rest : stream) : stream :=
  match chunks with
  | [] => rest
  | chunk :: chunks =>
      if bytes <? emitted + len chunk then stop (path_error (str "pack member range is longer than declared: ") path)
      else yield chunk (emit_member path bytes (emitted + len chunk) chunks rest)
  end.

Definition iter_member_range (source : PackVolumeRetrievalSource) (member : PackMemberRetrievalSource)
    (policy : PackRangeRetrievalPolicy) (offset size : Z) : stream :=
  if (offset <? 0) || (size <? 0) || (mb_bytes member <? offset + size)
  then stop (Exn ValueError (str "pack member requested range is invalid"))
  else
    match (requested ← new_member {| mb_path := mb_path member; mb_bytes := size; mb_sha256 := mb_sha256 member;
                                     mb_data_offset := mb_data_offset member + offset |};
           plan_pack_range_retrieval source [requested] policy) with
    | Err e => stop e
    | Ok plan =>
        match gp_members plan with
        | [] => ([], Ok tt)
        | current :: _ =>
            if mr_bytes current =? 0 then ([], _require_verified_member current [])
            else
              match (age_plan ← plan_age_plaintext_range (StateText (ps_age_state_json source)) (ps_plaintext_bytes source)
                                  (mr_data_offset current) (mr_bytes current);
                     _ ← reserve (Z.max 1 (Z.min (pr_ciphertext_bytes age_plan) read_working_bytes + CHUNK_SIZE));
                     session ← session_from_state pass (StateText (ps_age_state_json source)) None;
                     Ok (age_plan, session)) with
              | Err e => stop e
              | Ok (age_plan, session) =>
                  let raw := iter_object_range (ps_object_path source) (ps_revision source) (ps_stored_bytes source)
                               (pr_ciphertext_offset age_plan) (pr_ciphertext_bytes age_plan) in
                  let decrypted := source_ends raw.2 (iter_decrypt_age_plaintext_range (StateText (ps_age_state_json source)) age_plan
                                     raw.1 None (Some session)) in
                  emit_member (mr_path current) (mr_bytes current) 0 decrypted.1
                    match decrypted.2 with
                    | Err e => stop e
                    | Ok _ =>
                        if negb (len (concat decrypted.1) =? mr_bytes current)
                        then stop (path_error (str "pack member range byte count mismatch: ") (mr_path current))
                        else if (offset =? 0) && (size =? mb_bytes member)
                                && negb (bool_decide (sha256_hex (concat decrypted.1) = mb_sha256 member))
                        then stop (path_error (str "pack member verification failed: ") (mr_path current))
                        else ([], Ok tt)
                    end
              end
        end
    end.

Definition iter_member (source : PackVolumeRetrievalSource) (member : PackMemberRetrievalSource)
    (policy : PackRangeRetrievalPolicy) : stream :=
  iter_member_range source member policy 0 (mb_bytes member).

(** [{current.path: current for current in plan.members}] *)
Definition members_by_path (members : list PackMemberRange) : gmap pystr PackMemberRange :=
  foldl (λ d m, <[mr_path m := m]> d) ∅ members.

(** One turn of the loop over the paths of a request. *)
Definition select_step (by_path : gmap pystr PackMemberRange) (plaintext_start : Z) (plaintext : pybytes)
    (selected : gmap pystr pybytes) (path : pystr) : result (gmap pystr pybytes) :=
  match by_path !! path with
  | None => Err (Exn KeyError path)
  | Some member =>
      let relative_start := mr_data_offset member - plaintext_start in
      let relative_end := relative_start + mr_bytes member in
      when (relative_start <? 0) || (len plaintext <? relative_end)
        raise RuntimeError "pack member is outside its coalesced plaintext range";
      let content := slice relative_start relative_end plaintext in
      _ ← _require_verified_member member content;
      Ok (<[path := content]> selected)
  end.

Definition _read_request (plan : PackRangeRetrievalPlan) (request : PackCiphertextRequest) (by_path : gmap pystr PackMemberRange)
    (state : UploadState) (session : ResumableAgeScryptSession) (prefix_bytes : Z) : result (gmap pystr pybytes) :=
  let source := gp_source plan in
  let plaintext_start := cq_first_chunk request * CHUNK_SIZE in
  let plaintext_end := Z.min ((cq_last_chunk request + 1) * CHUNK_SIZE) (ps_plaintext_bytes source) in
  let plaintext_bytes := plaintext_end - plaintext_start in
  _ ← reserve (Z.max 1 (plaintext_bytes + Z.min (cq_ciphertext_bytes request) read_working_bytes));
  broad_plan ← plan_age_plaintext_range (StateValue state) (ps_plaintext_bytes source) plaintext_start plaintext_bytes;
  when negb (pr_ciphertext_offset broad_plan =? cq_ciphertext_offset request)
       || negb (pr_ciphertext_bytes broad_plan =? cq_ciphertext_bytes request)
       || negb (pr_ciphertext_offset broad_plan =? prefix_bytes + cq_first_chunk request * (CHUNK_SIZE + AEAD_TAG_SIZE))
    raise ValueError "pack coalesced request is not age-chunk aligned";
  let raw := iter_object_range (ps_object_path source) (ps_revision source) (ps_stored_bytes source)
               (cq_ciphertext_offset request) (cq_ciphertext_bytes request) in
  let decoded := source_ends raw.2 (iter_decrypt_age_plaintext_range (StateValue state) broad_plan raw.1 None (Some session)) in
  _ ← decoded.2;
  when negb (len (concat raw.1) =? cq_ciphertext_bytes request) raise ValueError "pack range response byte count mismatch";
  foldM (select_step by_path plaintext_start (concat decoded.1)) ∅ (cq_member_paths request).

(** One turn of the loop over the completed requests. *)
Definition collect_step (plan : PackRangeRetrievalPlan) (by_path : gmap pystr PackMemberRange) (state : UploadState)
    (session : ResumableAgeScryptSession) (prefix_bytes : Z) (out : gmap pystr pybytes) (request : PackCiphertextRequest) :
    result (gmap pystr pybytes) :=
  selected ← _read_request plan request by_path state session prefix_bytes;
  when negb (bool_decide (dom out ∩ dom selected = (∅ : gset pystr)))
    raise RuntimeError "pack range retrieval returned duplicate members";
  Ok (selected ∪ out).

(** The members without bytes. *)
Definition empty_step (out : gmap pystr pybytes) (m : PackMemberRange) : result (gmap pystr pybytes) :=
  if mr_bytes m =? 0 then _ ← _require_verified_member m []; Ok (<[mr_path m := []]> out) else Ok out.

Definition member_source (m : PackMemberRange) : PackMemberRetrievalSource :=
  {| mb_path := mr_path m; mb_bytes := mr_bytes m; mb_sha256 := mr_sha256 m; mb_data_offset := mr_data_offset m |}.

(** [completed] is the order in which the requests complete. *)
Definition read_members (plan : PackRangeRetrievalPlan) (completed : list PackCiphertextRequest) : result (gmap pystr pybytes) :=
  members ← mapM_result (λ m, new_member (member_source m)) (gp_members plan);
  expected ← plan_pack_range_retrieval (gp_source plan) members (gp_policy plan);
  when negb (bool_decide (expected = plan)) raise ValueError "pack range retrieval plan is inconsistent";
  if bool_decide (gp_members plan = []) then Ok ∅
  else
    let by_path := members_by_path (gp_members plan) in
    state ← from_json_text (ps_age_state_json (gp_source plan));
    session ← session_from_state pass (StateValue state) None;
    let prefix_bytes := len (us_header state) + len (us_payload_nonce state) in
    out ← foldM empty_step ∅ (gp_members plan);
    out ← foldM (collect_step plan by_path state session prefix_bytes) out completed;
    when negb (bool_decide (dom out = (dom by_path : gset pystr)))
      raise RuntimeError "pack range retrieval did not return every requested member";
    Ok out.
End reading.

(** ** Chunk spans *)

(** Where the stored bytes of chunk [last] end in the file of an [n]-byte plaintext. *)
Definition chunk_end (pre n last : Z) : Z :=
  pre + last * (CHUNK_SIZE + AEAD_TAG_SIZE) + Z.min CHUNK_SIZE (n - last * CHUNK_SIZE) + AEAD_TAG_SIZE.

Lemma chunk_end_max pre n a b : a * CHUNK_SIZE < n → b * CHUNK_SIZE < n →
  chunk_end pre n (Z.max a b) = Z.max (chunk_end pre n a) (chunk_end pre n b).
Proof. unfold chunk_end, CHUNK_SIZE, AEAD_TAG_SIZE. intros. lia. Qed.

Definition mr_last_chunk (m : PackMemberRange) : Z := mr_first_chunk m + mr_chunk_count m - 1.

(** A member with bytes, at its chunks in the file of an [n]-byte plaintext. *)
Record located (pre n : Z) (m : PackMemberRange) : Prop := {
  lc_offset : 0 ≤ mr_data_offset m;
  lc_bytes : 0 < mr_bytes m;
  lc_inside : mr_data_offset m + mr_bytes m ≤ n;
  lc_first : mr_first_chunk m = mr_data_offset m / CHUNK_SIZE;
  lc_last : mr_last_chunk m = (mr_data_offset m + mr_bytes m - 1) / CHUNK_SIZE;
  lc_start : mr_ciphertext_offset m = pre + mr_first_chunk m * (CHUNK_SIZE + AEAD_TAG_SIZE);
  lc_end : mr_ciphertext_end m = chunk_end pre n (mr_last_chunk m);
}.

Lemma located_chunks pre n m : located pre n m →
  0 ≤ mr_first_chunk m ≤ mr_last_chunk m ∧ mr_last_chunk m * CHUNK_SIZE < n ∧ 0 < mr_chunk_count m ∧
  mr_first_chunk m * CHUNK_SIZE ≤ mr_data_offset m ∧ mr_data_offset m + mr_bytes m ≤ (mr_last_chunk m + 1) * CHUNK_SIZE.
Proof.
  intros [Ho Hb Hi Hf Hl _ _].
  pose proof (Z.div_mod (mr_data_offset m) CHUNK_SIZE ltac:(done)) as Hd1. rewrite <- Hf in Hd1.
  pose proof (Z.mod_pos_bound (mr_data_offset m) CHUNK_SIZE ltac:(done)) as Hm1.
  pose proof (Z.div_mod (mr_data_offset m + mr_bytes m - 1) CHUNK_SIZE ltac:(done)) as Hd2. rewrite <- Hl in Hd2.
  pose proof (Z.mod_pos_bound (mr_data_offset m + mr_bytes m - 1) CHUNK_SIZE ltac:(done)) as Hm2.
  assert (0 < mr_chunk_count m ↔ mr_first_chunk m ≤ mr_last_chunk m) as Hc by (unfold mr_last_chunk; lia). clear Hf Hl.
  generalize dependent (mr_data_offset m mod CHUNK_SIZE). generalize dependent ((mr_data_offset m + mr_bytes m - 1) mod CHUNK_SIZE).
  unfold CHUNK_SIZE. intros. lia.
Qed.

(** Earlier data starts in an earlier chunk. *)
Lemma located_first pre n a b : located pre n a → located pre n b → mr_data_offset a ≤ mr_data_offset b →
  mr_first_chunk a ≤ mr_first_chunk b.
Proof. intros Ha Hb Hab. rewrite (lc_first _ _ _ Ha), (lc_first _ _ _ Hb). by apply Z.div_le_mono. Qed.

Lemma filter_sorted {A} (R : relation A) (P : A → Prop) `{∀ x, Decision (P x)} l : StronglySorted R l → StronglySorted R (filter P l).
Proof.
  induction 1 as [|x l Hs IH Hx]; [constructor|]. destruct (decide (P x)); [rewrite filter_cons_True by done|by rewrite filter_cons_False by done].
  constructor; [done|]. apply Forall_forall. intros y [_ Hy]%list_elem_of_filter. rewrite Forall_forall in Hx. by apply Hx.
Qed.

(** ** Coalescing *)

(** The chunks [first] to [last] from [start] to [stop] in the file hold the members
    of [group], within the bound of a request, and no chunk before the first
    member or after the last byte. *)
Record covers (pre n limit start stop first last : Z) (group : list PackMemberRange) : Prop := {
  cv_start : start = pre + first * (CHUNK_SIZE + AEAD_TAG_SIZE);
  cv_stop : stop = chunk_end pre n last;
  cv_chunks : 0 ≤ first ≤ last ∧ last * CHUNK_SIZE < n;
  cv_limit : stop - start ≤ limit;
  cv_group : Forall (λ m, located pre n m ∧ first ≤ mr_first_chunk m ∧ mr_last_chunk m ≤ last) group;
  cv_ends : (∃ m, m ∈ group ∧ mr_first_chunk m = first) ∧ (∃ m, m ∈ group ∧ mr_last_chunk m = last);
}.

Definition request_covers (pre n limit : Z) (r : PackCiphertextRequest) (group : list PackMemberRange) : Prop :=
  covers pre n limit (cq_ciphertext_offset r) (cq_ciphertext_offset r + cq_ciphertext_bytes r) (cq_first_chunk r) (cq_last_chunk r) group ∧
  cq_member_paths r = mr_path <$> group.

Definition open_covers (pre n limit : Z) (o : open_request) (group : list PackMemberRange) : Prop :=
  covers pre n limit (oq_start o) (oq_end o) (oq_first_chunk o) (oq_last_chunk o) group ∧ oq_paths o = mr_path <$> group.

Section coalescing.
Context (policy : PackRangeRetrievalPolicy) (pre n : Z).
Notation limit := (po_max_request_ciphertext_bytes policy).

Lemma close_covers number o group : open_covers pre n limit o group → request_covers pre n limit (close_request number o) group.
Proof.
  intros [Hc Hp]. split; [|done]. unfold close_request. cbn [cq_ciphertext_offset cq_ciphertext_bytes cq_first_chunk cq_last_chunk].
  replace (oq_start o + (oq_end o - oq_start o)) with (oq_end o) by lia. done.
Qed.

Lemma begin_covers m : located pre n m → mr_ciphertext_bytes m ≤ limit →
  ∃ o, begin_request m = Ok o ∧ open_covers pre n limit o [m] ∧ oq_first_chunk o = mr_first_chunk m.
Proof.
  intros Hm Hlimit. destruct (located_chunks pre n m Hm) as (Hf & Hl & Hc & _). unfold begin_request, _required_last_chunk.
  rewrite (proj2 (Z.leb_gt (mr_chunk_count m) 0)) by lia. rewrite ok_bind. eexists. split; [done|]. split; [|done]. split; [|done].
  split; cbn [oq_start oq_end oq_first_chunk oq_last_chunk].
  - apply (lc_start _ _ _ Hm).
  - apply (lc_end _ _ _ Hm).
  - done.
  - unfold mr_ciphertext_end. lia.
  - constructor; [|constructor]. split_and!; [done|lia|unfold mr_last_chunk; lia].
  - split; exists m; split; [by left|done|by left|unfold mr_last_chunk; lia].
Qed.

Lemma merge_covers o group m last : open_covers pre n limit o group → located pre n m → oq_first_chunk o ≤ mr_first_chunk m →
  last = Z.max (oq_last_chunk o) (mr_last_chunk m) → Z.max (oq_end o) (mr_ciphertext_end m) - oq_start o ≤ limit →
  open_covers pre n limit {| oq_start := oq_start o; oq_end := Z.max (oq_end o) (mr_ciphertext_end m); oq_first_chunk := oq_first_chunk o;
                             oq_last_chunk := last; oq_paths := oq_paths o ++ [mr_path m] |} (group ++ [m]).
Proof.
  intros [[Hs He Hc Hlim Hg [[a [Ha Hfa]] [b [Hb Hlb]]]] Hp] Hm Hf -> Hbound. destruct (located_chunks pre n m Hm) as (_ & Hl & _).
  split; [|by rewrite fmap_app, <- Hp]. split; cbn [oq_start oq_end oq_first_chunk oq_last_chunk].
  - done.
  - rewrite chunk_end_max by lia. by rewrite He, (lc_end _ _ _ Hm).
  - split; [lia|]. destruct (Z.max_spec (oq_last_chunk o) (mr_last_chunk m)) as [[_ ->]|[_ ->]]; lia.
  - done.
  - apply Forall_app. split; [|constructor; [split_and!; [done|done|lia]|constructor]].
    eapply Forall_impl; [exact Hg|]. intros x (? & ? & ?). split_and!; [done|done|lia].
  - split; [exists a; split; [set_solver|done]|].
    destruct (Z.max_spec (oq_last_chunk o) (mr_last_chunk m)) as [[_ ->]|[_ ->]]; [exists m|exists b]; split; (done || set_solver).
Qed.

Lemma step_covers requests groups o group m : Forall2 (request_covers pre n limit) requests groups → open_covers pre n limit o group →
  located pre n m → mr_ciphertext_bytes m ≤ limit → oq_first_chunk o ≤ mr_first_chunk m →
  ∃ requests' o' groups' group', coalesce_step policy (requests, o) m = Ok (requests', o') ∧
    Forall2 (request_covers pre n limit) requests' groups' ∧ open_covers pre n limit o' group' ∧
    concat groups' ++ group' = concat groups ++ group ++ [m] ∧ oq_first_chunk o' ≤ mr_first_chunk m.
Proof.
  intros Hr Ho Hm Hlim Hf. destruct (located_chunks pre n m Hm) as (_ & _ & Hcount & _). unfold coalesce_step. cbv zeta.
  destruct (_ && _) eqn:Hmerge.
  - apply andb_prop in Hmerge as [_ Hb%Z.leb_le]. unfold _required_last_chunk.
    rewrite (proj2 (Z.leb_gt (mr_chunk_count m) 0)), !ok_bind by lia. fold (mr_last_chunk m).
    eexists requests, _, groups, (group ++ [m]). split_and!; [reflexivity|done|by apply merge_covers|done|done].
  - destruct (begin_covers m Hm Hlim) as (o' & -> & Ho' & Hfirst). rewrite ok_bind.
    exists (requests ++ [close_request (len requests + 1) o]), o', (groups ++ [group]), [m]. split_and!; [done| |done| |lia].
    + apply Forall2_app; [done|]. constructor; [by apply close_covers|constructor].
    + rewrite concat_app. cbn [concat]. by rewrite app_nil_r, <- app_assoc.
Qed.

Lemma coalesce_covers rest requests groups o group : Forall2 (request_covers pre n limit) requests groups → open_covers pre n limit o group →
  Forall (λ m, located pre n m ∧ mr_ciphertext_bytes m ≤ limit ∧ oq_first_chunk o ≤ mr_first_chunk m) rest →
  StronglySorted (λ a b, mr_first_chunk a ≤ mr_first_chunk b) rest →
  ∃ requests' o' groups' group', foldM (coalesce_step policy) (requests, o) rest = Ok (requests', o') ∧
    Forall2 (request_covers pre n limit) requests' groups' ∧ open_covers pre n limit o' group' ∧
    concat groups' ++ group' = concat groups ++ group ++ rest.
Proof.
  revert requests groups o group. induction rest as [|m rest IH]; intros requests groups o group Hr Ho Hall Hsort.
  { exists requests, o, groups, group. by rewrite app_nil_r. }
  apply Forall_cons in Hall as [(Hm & Hlim & Hf) Hall]. apply StronglySorted_inv in Hsort as [Hsort Hnext]. cbn [foldM].
  destruct (step_covers requests groups o group m Hr Ho Hm Hlim Hf) as (requests1 & o1 & groups1 & group1 & -> & Hr1 & Ho1 & Hcat1 & Hf1).
  rewrite ok_bind. destruct (IH requests1 groups1 o1 group1 Hr1 Ho1) as (requests' & o' & groups' & group' & Hrun & Hr' & Ho' & Hcat); [|done|].
  - apply Forall_forall. intros x Hx. rewrite Forall_forall in Hall, Hnext. destruct (Hall x Hx) as (? & ? & _). specialize (Hnext x Hx).
    split_and!; [done|done|lia].
  - exists requests', o', groups', group'. split_and!; [done|done|done|]. rewrite Hcat, app_assoc, Hcat1. by rewrite <- !app_assoc.
Qed.

(** The requests hold every member with bytes, each in one request and in order. *)
Lemma requests_cover members : Forall (λ m, 0 < mr_chunk_count m → located pre n m ∧ mr_ciphertext_bytes m ≤ limit) members →
  StronglySorted (λ a b, mr_data_offset a ≤ mr_data_offset b) members →
  ∃ requests groups, _coalesced_requests members policy = Ok requests ∧ Forall2 (request_covers pre n limit) requests groups ∧
    concat groups = filter (λ m, 0 < mr_chunk_count m) members.
Proof.
  intros Hall Hsort. unfold _coalesced_requests.
  assert (Forall (λ m, located pre n m ∧ mr_ciphertext_bytes m ≤ limit) (filter (λ m, 0 < mr_chunk_count m) members)) as Hloc.
  { apply Forall_forall. intros m [Hm Hin]%list_elem_of_filter. rewrite Forall_forall in Hall. by apply Hall. }
  assert (StronglySorted (λ a b, mr_data_offset a ≤ mr_data_offset b) (filter (λ m, 0 < mr_chunk_count m) members)) as Hs.
  { by apply filter_sorted. }
  destruct (filter _ members) as [|first rest]; [by exists [], []|]. apply Forall_cons in Hloc as [[Hfirst Hlim] Hloc].
  apply StronglySorted_inv in Hs as [Hs Hnext].
  rewrite (bool_decide_eq_true_2 (filter _ (first :: rest) = [])). 2: { apply filter_none. constructor; [lia|]. eapply Forall_impl; [exact Hloc|]. cbn. lia. }
  destruct (begin_covers first Hfirst Hlim) as (o & -> & Ho & Hf). cbn [negb]. rewrite ok_bind.
  destruct (coalesce_covers rest [] [] o [first]) as (requests & o' & groups & group & -> & Hr & Ho' & Hcat); [constructor|done| | |].
  - rewrite Hf. apply Forall_forall. intros x Hx. rewrite Forall_forall in Hloc, Hnext. destruct (Hloc x Hx) as [Hx1 Hx2].
    split_and!; [done|done|]. by apply (located_first pre n first x Hfirst Hx1), Hnext.
  - clear -Hs Hloc. induction Hs as [|x rest Hs IH Hx]; constructor; apply Forall_cons in Hloc as [[Hx1 _] Hloc]; [by apply IH|].
    rewrite Forall_forall in *. intros y Hy. apply (located_first pre n x y Hx1); [by apply Hloc|by apply Hx].
  - rewrite ok_bind. exists (requests ++ [close_request (len requests + 1) o']), (groups ++ [group]). split_and!; [done| |].
    + apply Forall2_app; [done|]. constructor; [by apply close_covers|constructor].
    + rewrite concat_app. cbn [concat]. by rewrite app_nil_r, Hcat.
Qed.
End coalescing.

(** ** Plans *)

Definition member_range (m : PackMemberRetrievalSource) (r : AgePlaintextRange) : PackMemberRange :=
  {| mr_path := mb_path m; mr_bytes := mb_bytes m; mr_sha256 := mb_sha256 m; mr_data_offset := mb_data_offset m;
     mr_ciphertext_offset := pr_ciphertext_offset r; mr_ciphertext_bytes := pr_ciphertext_bytes r;
     mr_first_chunk := pr_first_chunk r; mr_chunk_count := pr_chunk_count r |}.

Section planning.
Context `{UnicodeData} (source : PackVolumeRetrievalSource).

Definition ranged (m : PackMemberRetrievalSource) (r : PackMemberRange) : Prop :=
  mb_data_offset m + mb_bytes m ≤ ps_plaintext_bytes source ∧
  ∃ age_plan, plan_age_plaintext_range (StateText (ps_age_state_json source)) (ps_plaintext_bytes source) (mb_data_offset m) (mb_bytes m) = Ok age_plan ∧
    r = member_range m age_plan.

Lemma members_planned ms seen planned seen' planned' : foldM (plan_member_step source) (seen, planned) ms = Ok (seen', planned') ↔
  NoDup (mb_path <$> ms) ∧ (∀ m, m ∈ ms → mb_path m ∉ seen) ∧ seen' = reverse (mb_path <$> ms) ++ seen ∧
  ∃ ranges, planned' = planned ++ ranges ∧ Forall2 ranged ms ranges.
Proof.
  revert seen planned. induction ms as [|m ms IH]; intros seen planned; cbn [foldM].
  { split.
    - intros [= <- <-]. split_and!; [constructor|set_solver|done|]. exists []. by rewrite app_nil_r.
    - intros (_ & _ & -> & ranges & -> & Hr). apply Forall2_nil_inv_l in Hr as ->. by rewrite app_nil_r. }
  rewrite fmap_cons, NoDup_cons, reverse_cons, <- app_assoc. split.
  - intros ([seen1 planned1] & Hstep & Hrest)%bind_Ok. unfold plan_member_step in Hstep. destruct (bool_decide_reflect (mb_path m ∈ seen)) as [|Hseen]; [done|].
    destruct (Z.ltb_spec (ps_plaintext_bytes source) (mb_data_offset m + mb_bytes m)) as [|Hin]; [done|]. apply bind_Ok in Hstep as (age_plan & Hplan & Hstep). injection Hstep as <- <-.
    apply IH in Hrest as (Hnd & Hdis & -> & ranges & -> & Hr). split_and!; [|done| |done|].
    + intros (x & Hx & Hxin)%list_elem_of_fmap. apply (Hdis x Hxin). rewrite <- Hx. by left.
    + intros x [->|Hx]%elem_of_cons; [done|]. specialize (Hdis x Hx). set_solver.
    + exists (member_range m age_plan :: ranges). rewrite <- app_assoc. split; [done|]. constructor; [|done]. split; [done|]. by exists age_plan.
  - intros ((Hm & Hnd) & Hdis & -> & ranges & -> & Hr). apply Forall2_cons_inv_l in Hr as (r & rs & (Hin & age_plan & Hplan & ->) & Hr & ->).
    apply bind_Ok. exists (mb_path m :: seen, planned ++ [member_range m age_plan]). split.
    + unfold plan_member_step. rewrite bool_decide_eq_false_2 by (apply Hdis; by left). rewrite (proj2 (Z.ltb_ge _ _)), Hplan by done. done.
    + apply IH. split_and!; [done| |done|]; [|exists rs; by rewrite <- app_assoc].
      intros x Hx. rewrite not_elem_of_cons. split; [|apply Hdis; by right]. intros He. apply Hm. rewrite <- He. by apply list_elem_of_fmap_2.
Qed.

Lemma ranged_source m r : ranged m r → member_source r = m.
Proof. intros (_ & age_plan & _ & ->). by destruct m. Qed.

Lemma ranged_located state m r : from_json_text (ps_age_state_json source) = Ok state → ranged m r →
  let pre := len (us_header state) + len (us_payload_nonce state) in
  (mb_bytes m = 0 ∧ mr_chunk_count r = 0) ∨ (0 < mr_chunk_count r ∧ located pre (ps_plaintext_bytes source) r).
Proof.
  intros Hstate (Hin & age_plan & Hplan & ->) pre. unfold plan_age_plaintext_range in Hplan. cbn [_upload_state] in Hplan.
  rewrite Hstate, ok_bind in Hplan. do 4 inv_step Hplan. bool_prop.
  destruct (Z.eqb_spec (mb_bytes m) 0) as [Hz|Hz]; [left; injection Hplan as <-; done|]. right. cbv zeta in Hplan.
  apply bind_Ok in Hplan as (v & Hv & Hplan). unfold _chunk_plaintext_bytes in Hv. inv_step Hv. apply bind_Ok in Hv as (count & _ & Hv). inv_step Hv.
  rewrite (proj2 (Z.eqb_neq (ps_plaintext_bytes source) 0)) in Hv by lia. injection Hv as <-. injection Hplan as <-.
  match goal with |- _ ∧ ?L => assert L as Hl; [|split; [apply (located_chunks _ _ _ Hl)|exact Hl]] end.
  split; unfold member_range, mr_last_chunk, mr_ciphertext_end, chunk_end;
    cbn [mr_data_offset mr_bytes mr_first_chunk mr_chunk_count mr_ciphertext_offset mr_ciphertext_bytes pr_first_chunk pr_chunk_count pr_ciphertext_offset pr_ciphertext_bytes];
    try lia; try done.
Qed.

Lemma plan_inv members policy plan : plan_pack_range_retrieval source members policy = Ok plan ↔
  NoDup (mb_path <$> members) ∧ Forall2 ranged (sorted_members members) (gp_members plan) ∧
  _coalesced_requests (gp_members plan) policy = Ok (gp_requests plan) ∧
  gp_source plan = source ∧ gp_policy plan = policy ∧ gp_logical_bytes plan = sumZ mr_bytes (gp_members plan) ∧
  gp_remote_bytes plan = sumZ cq_ciphertext_bytes (gp_requests plan) ∧
  gp_accounted_remote_bytes plan =
    (if negb (bool_decide (gp_requests plan = [])) && bool_decide (po_billing_mode policy = BILLING_MODE_WHOLE_OBJECT)
     then ps_stored_bytes source else gp_remote_bytes plan).
Proof.
  unfold plan_pack_range_retrieval. split.
  - intros ([seen planned] & Hf & Hrest)%bind_Ok. apply bind_Ok in Hrest as (requests & Hreq & Hrest). injection Hrest as <-.
    apply members_planned in Hf as (Hnd & _ & _ & ranges & -> & Hr). unfold sorted_members in *. rewrite sorted_by_perm in Hnd. done.
  - intros (Hnd & Hr & Hreq & Hs & Hp & Hl & Hb & Ha).
    assert (foldM (plan_member_step source) ([], []) (sorted_members members) =
      Ok (reverse (mb_path <$> sorted_members members) ++ [], gp_members plan)) as ->.
    { apply members_planned. split_and!; [|set_solver|done|by exists (gp_members plan)]. unfold sorted_members. by rewrite sorted_by_perm. }
    rewrite ok_bind, Hreq, ok_bind, <- Hl, <- Hb, <- Ha, <- Hs, <- Hp. by destruct plan.
Qed.
End planning.

Lemma coalesced_bounded members policy requests : _coalesced_requests members policy = Ok requests →
  Forall (λ m, 0 < mr_chunk_count m → mr_ciphertext_bytes m ≤ po_max_request_ciphertext_bytes policy) members.
Proof.
  intros Hr. apply Forall_forall. intros m Hin Hc. unfold _coalesced_requests in Hr.
  assert (m ∈ filter (λ m, 0 < mr_chunk_count m) members) as Hm by by apply list_elem_of_filter.
  destruct (filter _ members) as [|first rest]; [by apply elem_of_nil in Hm|]. inv_step Hr. bool_prop.
  destruct (decide (mr_ciphertext_bytes m ≤ po_max_request_ciphertext_bytes policy)) as [|Hlt]; [done|].
  assert (m ∈ filter (λ m, po_max_request_ciphertext_bytes policy < mr_ciphertext_bytes m) (first :: rest)) as Hbad by (apply list_elem_of_filter; split; [lia|done]).
  rewrite E in Hbad. by apply elem_of_nil in Hbad.
Qed.

(** The ranges of sorted members are in the order of their offsets. *)
Lemma ranged_sorted `{UnicodeData} source members ranges : Forall2 (ranged source) (sorted_members members) ranges →
  StronglySorted (λ a b, mr_data_offset a ≤ mr_data_offset b) ranges.
Proof.
  intros Hr. pose proof (sorted_by_sorted member_key members) as Hs. fold (sorted_members members) in Hs.
  induction Hr as [|m r ms rs Hm Hr IH]; [constructor|]. apply StronglySorted_inv in Hs as [Hs Hall]. constructor; [by apply IH|].
  apply Forall_forall. intros x [i Hi]%list_elem_of_lookup. destruct (Forall2_lookup_r _ _ _ _ _ Hr Hi) as (y & Hy & Hxy).
  rewrite Forall_forall in Hall. specialize (Hall y (list_elem_of_lookup_2 _ _ _ Hy)). rewrite <- (ranged_source _ _ _ Hm), <- (ranged_source _ _ _ Hxy) in Hall.
  unfold key_le, member_key, member_source in Hall. cbn in Hall. destruct (Z.ltb_spec (mr_data_offset r) (mr_data_offset x)); [lia|].
  destruct (Z.ltb_spec (mr_data_offset x) (mr_data_offset r)); [done|lia].
Qed.

Section plans.
Context `{UnicodeData} (source : PackVolumeRetrievalSource) (members : list PackMemberRetrievalSource).
Context (policy : PackRangeRetrievalPolicy) (plan : PackRangeRetrievalPlan).
Context (Hplan : plan_pack_range_retrieval source members policy = Ok plan).

Lemma plan_sources : member_source <$> gp_members plan = sorted_members members.
Proof.
  apply plan_inv in Hplan as (_ & Hr & _). induction Hr as [|m r ms rs Hm _ IH]; [done|].
  by rewrite fmap_cons, IH, (ranged_source _ _ _ Hm).
Qed.

Lemma plan_paths : NoDup (mr_path <$> gp_members plan).
Proof.
  assert (mr_path <$> gp_members plan = mb_path <$> sorted_members members) as ->.
  { rewrite <- plan_sources, <- list_fmap_compose. done. }
  apply plan_inv in Hplan as (Hnd & _). unfold sorted_members. by rewrite sorted_by_perm.
Qed.

Lemma plan_sorted : StronglySorted (λ a b, mr_data_offset a ≤ mr_data_offset b) (gp_members plan).
Proof. apply plan_inv in Hplan as (_ & Hr & _). by eapply ranged_sorted. Qed.

(** Planning the members of a plan again gives the plan. *)
Lemma plan_again : plan_pack_range_retrieval source (member_source <$> gp_members plan) policy = Ok plan.
Proof.
  pose proof plan_paths as Hnd. rewrite plan_sources. apply plan_inv in Hplan as (Hp & Hr & Hrest). apply plan_inv. split_and!; try apply Hrest.
  - unfold sorted_members. by rewrite sorted_by_perm.
  - unfold sorted_members in *. by rewrite (sorted_by_id _ (sorted_by member_key members)) by apply sorted_by_sorted.
Qed.

Lemma plan_members_located state : from_json_text (ps_age_state_json source) = Ok state →
  let pre := len (us_header state) + len (us_payload_nonce state) in
  Forall (λ m, (mr_bytes m = 0 ∧ mr_chunk_count m = 0) ∨ (0 < mr_chunk_count m ∧ located pre (ps_plaintext_bytes source) m)) (gp_members plan).
Proof.
  intros Hstate pre. apply plan_inv in Hplan as (_ & Hr & _). induction Hr as [|m r ms rs Hm _ IH]; constructor; [|done].
  destruct (ranged_located source state m r Hstate Hm) as [[Hb Hc]|Hl]; [left; split; [|done]|by right]. by rewrite <- (ranged_source _ _ _ Hm) in Hb.
Qed.

Lemma plan_covers state : from_json_text (ps_age_state_json source) = Ok state →
  let pre := len (us_header state) + len (us_payload_nonce state) in
  ∃ groups, Forall2 (request_covers pre (ps_plaintext_bytes source) (po_max_request_ciphertext_bytes policy)) (gp_requests plan) groups ∧
    concat groups = filter (λ m, 0 < mr_chunk_count m) (gp_members plan).
Proof.
  intros Hstate pre. pose proof (plan_members_located state Hstate) as Hloc. pose proof plan_sorted as Hs.
  apply plan_inv in Hplan as (_ & _ & Hreq & _). pose proof (coalesced_bounded _ _ _ Hreq) as Hb.
  destruct (requests_cover policy pre (ps_plaintext_bytes source) (gp_members plan)) as (requests & groups & Hreq' & Hcov & Hcat); [|done|].
  - rewrite Forall_forall in *. intros m Hm Hc. split; [|by apply Hb]. destruct (Hloc m Hm) as [[_ Hz]|[_ Hl]]; [lia|done].
  - rewrite Hreq in Hreq'. injection Hreq' as <-. by exists groups.
Qed.
End plans.

(** ** Maps of members *)

Lemma by_path_snoc ms m : members_by_path (ms ++ [m]) = <[mr_path m := m]> (members_by_path ms).
Proof. unfold members_by_path. by rewrite foldl_app. Qed.

Lemma by_path_elem ms k m : members_by_path ms !! k = Some m → m ∈ ms ∧ mr_path m = k.
Proof.
  induction ms as [|x ms IH] using rev_ind; [done|]. rewrite by_path_snoc, lookup_insert_Some.
  intros [[<- <-]|[_ Hm]]; [set_solver|]. apply IH in Hm. set_solver.
Qed.

Lemma by_path_lookup ms m : NoDup (mr_path <$> ms) → m ∈ ms → members_by_path ms !! mr_path m = Some m.
Proof.
  induction ms as [|x ms IH] using rev_ind; intros Hnd Hin; [by apply elem_of_nil in Hin|]. rewrite fmap_app in Hnd.
  apply NoDup_app in Hnd as (Hnd & Hx & _). rewrite by_path_snoc. apply elem_of_app in Hin as [Hin|Hin].
  - rewrite lookup_insert_ne by (intros He; apply (Hx (mr_path m)); [by apply list_elem_of_fmap_2|rewrite <- He; by left]). by apply IH.
  - apply list_elem_of_singleton in Hin as ->. apply lookup_insert_eq.
Qed.

Lemma by_path_dom ms : dom (members_by_path ms) = (list_to_set (mr_path <$> ms) : gset pystr).
Proof.
  induction ms as [|x ms IH] using rev_ind; [done|]. rewrite by_path_snoc, dom_insert_L, IH, fmap_app, list_to_set_app_L. cbn. set_solver.
Qed.

(** ** Verified members *)

Definition verified_member (m : PackMemberRange) (content : pybytes) : Prop :=
  len content = mr_bytes m ∧ sha256_hex content = mr_sha256 m.

Lemma require_verified m content : _require_verified_member m content = Ok tt ↔ verified_member m content.
Proof.
  unfold _require_verified_member, verified_member. destruct (Z.eqb_spec (len content) (mr_bytes m)), (bool_decide_reflect (sha256_hex content = mr_sha256 m));
    cbn; split; try done; by intros [].
Qed.

(** Every entry is the verified content of the member of its path. *)
Definition all_verified (by_path : gmap pystr PackMemberRange) (out : gmap pystr pybytes) : Prop :=
  ∀ path content, out !! path = Some content → ∃ m, by_path !! path = Some m ∧ verified_member m content.

Section verified.
Context `{UnicodeData} `{Aead} (iter_object_range : pystr → option pystr → Z → Z → Z → stream).
Context (pass : passphrase) (read_working_bytes capacity : Z).

Lemma select_verified by_path start plaintext paths out out' :
  foldM (select_step by_path start plaintext) out paths = Ok out' → all_verified by_path out → all_verified by_path out'.
Proof.
  intros Hf Hout. eapply foldM_inv; [exact Hf|exact Hout|]. clear. intros out path out' _ Hout Hstep path' content. unfold select_step in Hstep.
  destruct (by_path !! path) as [m|] eqn:Hm; [|done]. inv_step Hstep. apply bind_Ok in Hstep as ([] & Hv%require_verified & Hstep). injection Hstep as <-.
  rewrite lookup_insert_Some. intros [[<- <-]|[_ Hc]]; [by exists m|by apply Hout].
Qed.

Lemma collect_verified plan by_path state session prefix_bytes completed out out' :
  foldM (collect_step iter_object_range read_working_bytes capacity plan by_path state session prefix_bytes) out completed = Ok out' →
  all_verified by_path out → all_verified by_path out'.
Proof.
  intros Hf Hout. eapply foldM_inv; [exact Hf|exact Hout|]. clear. intros out request out' _ Hout Hstep. unfold collect_step in Hstep.
  apply bind_Ok in Hstep as (selected & Hread & Hstep). inv_step Hstep. injection Hstep as <-.
  assert (all_verified by_path selected) as Hsel.
  { unfold _read_request in Hread. cbv zeta in Hread. do 2 (apply bind_Ok in Hread as (? & _ & Hread)). inv_step Hread.
    apply bind_Ok in Hread as ([] & _ & Hread). inv_step Hread. by eapply select_verified. }
  intros path content. rewrite lookup_union_Some_raw. intros [Hc|[_ Hc]]; [by apply Hsel|by apply Hout].
Qed.

Lemma empty_verified by_path members out out' : (∀ m, m ∈ members → by_path !! mr_path m = Some m) →
  foldM empty_step out members = Ok out' → all_verified by_path out → all_verified by_path out'.
Proof.
  intros Hall Hf Hout. eapply foldM_inv; [exact Hf|exact Hout|]. clear -Hall. intros out m out' Hm Hout Hstep path content. unfold empty_step in Hstep.
  destruct (mr_bytes m =? 0); [|injection Hstep as <-; by apply Hout]. apply bind_Ok in Hstep as ([] & Hv%require_verified & Hstep). injection Hstep as <-.
  rewrite lookup_insert_Some. intros [[<- <-]|[_ Hc]]; [|by apply Hout]. exists m. split; [by apply Hall|done].
Qed.

Lemma members_verified plan completed out :
  read_members iter_object_range pass read_working_bytes capacity plan completed = Ok out →
  dom out = (list_to_set (mr_path <$> gp_members plan) : gset pystr) ∧
  ∀ m, m ∈ gp_members plan → ∃ content, out !! mr_path m = Some content ∧ verified_member m content.
Proof.
  unfold read_members. intros (sources & Hsources & Hr)%bind_Ok. apply bind_Ok in Hr as (expected & Hplan & Hr). inv_step Hr. bool_prop. subst expected.
  assert (NoDup (mr_path <$> gp_members plan)) as Hnd by by eapply plan_paths.
  destruct (bool_decide_reflect (gp_members plan = [])) as [Hnil|_]; [injection Hr as <-; rewrite Hnil; split; [done|set_solver]|].
  cbv zeta in Hr. apply bind_Ok in Hr as (state & _ & Hr). apply bind_Ok in Hr as (session & _ & Hr). apply bind_Ok in Hr as (out0 & Hempty & Hr).
  apply bind_Ok in Hr as (out1 & Hcollect & Hr). inv_step Hr. injection Hr as <-. bool_prop. rename select (dom _ = _) into Hdom. rewrite Hdom, by_path_dom. split; [done|].
  assert (all_verified (members_by_path (gp_members plan)) out1) as Hv.
  { eapply collect_verified; [exact Hcollect|]. eapply empty_verified; [|exact Hempty|done]. intros m Hm. by apply by_path_lookup. }
  intros m Hm. assert (mr_path m ∈ dom out1) as [content Hc]%elem_of_dom.
  { rewrite Hdom, by_path_dom. apply elem_of_list_to_set. by apply list_elem_of_fmap_2. }
  exists content. split; [done|]. destruct (Hv _ _ Hc) as (m' & Hm' & Hver). rewrite by_path_lookup in Hm' by done. by injection Hm' as <-.
Qed.
End verified.

(** ** Stored packs *)

Section stored.
Context `{UnicodeData} `{Aead} (iter_object_range : pystr → option pystr → Z → Z → Z → stream).
Context (pass : passphrase) (read_working_bytes capacity : Z).

(** A source whose object is the encryption of [p] under the session of its state. *)
Record stored_pack (source : PackVolumeRetrievalSource) (p file : pybytes) (s : ResumableAgeScryptSession) : Prop := {
  sk_limit : len p ≤ 2 ^ 53;
  sk_bytes : ps_plaintext_bytes source = len p;
  sk_stored : ps_stored_bytes source = len file;
  sk_state : from_json_text (ps_age_state_json source) = Ok (state_of s p);
  sk_session : session_from_state pass (StateValue (state_of s p)) None = Ok s;
  sk_file : encrypt_plaintext s p = Ok file;
  sk_serves : serves iter_object_range (ps_object_path source) (ps_revision source) file;
}.

(** The bytes of a member. *)
Definition member_bytes (p : pybytes) (m : PackMemberRange) : pybytes := slice (mr_data_offset m) (mr_data_offset m + mr_bytes m) p.

Definition entry_of (p : pybytes) (m : PackMemberRange) : pystr * pybytes := (mr_path m, member_bytes p m).

(** A range read from the store. *)
Lemma range_served source p file s offset size : stored_pack source p file s → 0 ≤ offset → 0 < size → offset + size ≤ len p →
  let plan := the_range s p offset size in
  ∃ chunks out, iter_object_range (ps_object_path source) (ps_revision source) (ps_stored_bytes source)
      (pr_ciphertext_offset plan) (pr_ciphertext_bytes plan) = (chunks, Ok tt) ∧ len (concat chunks) = pr_ciphertext_bytes plan ∧
    iter_decrypt_age_plaintext_range (StateValue (state_of s p)) plan chunks None (Some s) = (out, Ok tt) ∧
    concat out = slice offset (offset + size) p.
Proof.
  intros [Hlim Hb Hst _ _ Hf Hserves] Ho Hs He plan. pose proof (range_chunks p offset size Ho Hs He) as (Hfl & Hl & Hof & Hen).
  assert (0 ≤ pr_ciphertext_offset plan ∧ 0 ≤ pr_ciphertext_bytes plan ∧ ciphertext_end plan ≤ len file) as (H1 & H2 & H3).
  { rewrite encrypt_plaintext_spec in Hf by done. injection Hf as <-. unfold age_prefix. rewrite !len_app, (len_payload_chunks s p) by lia.
    pose proof (len_nonneg (ss_header s)). pose proof (len_nonneg (ss_payload_nonce s)). pose proof (chunk_last (len p) ltac:(lia)) as [Hlast _].
    unfold plan, ciphertext_end, the_range. cbn [pr_ciphertext_offset pr_ciphertext_bytes].
    generalize dependent (chunk_count (len p)). generalize dependent (range_first offset). generalize dependent (range_final offset size).
    unfold CHUNK_SIZE, AEAD_TAG_SIZE. intros. lia. }
  destruct (Hserves (pr_ciphertext_offset plan) (pr_ciphertext_bytes plan) H1 H2 H3) as (chunks & Hread & Hcat). fold (ciphertext_end plan) in Hcat.
  destruct (decode_range p s file offset size chunks Hlim Ho Hs He Hf Hcat) as (out & Hdec & Hout). exists chunks, out.
  rewrite Hst. split_and!; [done| |done|done]. rewrite Hcat, len_slice by (unfold ciphertext_end in *; lia). unfold ciphertext_end. lia.
Qed.

Definition entries (p : pybytes) (ms : list PackMemberRange) : gmap pystr pybytes := list_to_map (entry_of p <$> ms).

(** A member that is found by its path and has the recorded digest. *)
Definition genuine (p : pybytes) (by_path : gmap pystr PackMemberRange) (m : PackMemberRange) : Prop :=
  by_path !! mr_path m = Some m ∧ verified_member m (member_bytes p m).

Lemma select_all by_path p start stop group acc : 0 ≤ start → stop ≤ len p →
  Forall (λ m, genuine p by_path m ∧ start ≤ mr_data_offset m ∧ 0 ≤ mr_bytes m ∧ mr_data_offset m + mr_bytes m ≤ stop) group →
  foldM (select_step by_path start (slice start stop p)) (entries p acc) (mr_path <$> group) = Ok (entries p (reverse group ++ acc)).
Proof.
  intros Hs He Hall. revert acc. induction Hall as [|m group ((Hm & Hv) & Ho & Hb & Hend) _ IH]; intros acc; [done|].
  rewrite fmap_cons, reverse_cons, <- app_assoc. cbn [foldM].
  assert (select_step by_path start (slice start stop p) (entries p acc) (mr_path m) = Ok (entries p ([m] ++ acc))) as ->; [|rewrite ok_bind; apply IH].
  unfold select_step. rewrite Hm. cbv zeta. rewrite (proj2 (Z.ltb_ge _ 0)), (proj2 (Z.ltb_ge (len _) _)) by (rewrite ?len_slice; lia). cbn [orb].
  rewrite slice_slice by lia. replace (start + (mr_data_offset m - start)) with (mr_data_offset m) by lia.
  replace (start + (mr_data_offset m - start + mr_bytes m)) with (mr_data_offset m + mr_bytes m) by lia. fold (member_bytes p m).
  by rewrite (proj2 (require_verified m (member_bytes p m)) Hv), ok_bind.
Qed.

Lemma request_read plan p file s limit r group by_path : stored_pack (gp_source plan) p file s →
  let pre := len (ss_header s) + len (ss_payload_nonce s) in
  request_covers pre (len p) limit r group → Forall (genuine p by_path) group → 2 * limit ≤ capacity →
  _read_request iter_object_range read_working_bytes capacity plan r by_path (state_of s p) s pre = Ok (entries p (reverse group)).
Proof.
  intros Hst pre [[Hstart Hstop (Hchunks & Hn) Hlimit Hgroup] Hpaths] Hgen Hcap. unfold _read_request. rewrite (sk_bytes _ _ _ _ Hst). cbv zeta.
  set (start := cq_first_chunk r * CHUNK_SIZE). set (stop := Z.min ((cq_last_chunk r + 1) * CHUNK_SIZE) (len p)).
  assert (0 ≤ start ∧ start < stop ∧ stop ≤ len p) as (Hs0 & Hss & Hsp) by (unfold start, stop, CHUNK_SIZE in *; lia).
  assert (range_first start = cq_first_chunk r) as Hfirst by (unfold range_first, start; by rewrite Z.div_mul).
  assert (range_final start (stop - start) = cq_last_chunk r) as Hfinal.
  { unfold range_final. symmetry. apply Z.div_unique with (stop - 1 - CHUNK_SIZE * cq_last_chunk r); unfold start, stop, CHUNK_SIZE in *; lia. }
  assert (pr_ciphertext_offset (the_range s p start (stop - start)) = cq_ciphertext_offset r) as Hoff.
  { unfold the_range. cbn [pr_ciphertext_offset]. by rewrite Hfirst, Hstart. }
  assert (pr_ciphertext_bytes (the_range s p start (stop - start)) = cq_ciphertext_bytes r) as Hbytes.
  { unfold the_range. cbn [pr_ciphertext_bytes]. rewrite Hfirst, Hfinal. unfold chunk_end in Hstop. lia. }
  assert (reserve capacity (Z.max 1 (stop - start + Z.min (cq_ciphertext_bytes r) read_working_bytes)) = Ok tt) as ->.
  { unfold reserve. rewrite (proj2 (Z.ltb_ge _ _)); [done|]. unfold chunk_end, start, stop, CHUNK_SIZE, AEAD_TAG_SIZE in *. lia. }
  rewrite ok_bind, plan_is_the_range, ok_bind, Hoff, Hbytes, Hstart, !Z.eqb_refl by (try lia; apply Hst). cbn [negb orb].
  destruct (range_served (gp_source plan) p file s start (stop - start) Hst Hs0 ltac:(lia) ltac:(lia)) as (chunks & out & Hread & Hlen & Hdec & Hout).
  rewrite Hoff, Hbytes, Hstart in Hread. rewrite Hread. cbn [fst snd]. rewrite Hdec. cbn [source_ends fst snd]. rewrite ok_bind, Hlen, Hbytes, Z.eqb_refl, Hout. cbn [negb].
  replace (start + (stop - start)) with stop by lia. rewrite Hpaths, <- (app_nil_r (reverse group)). apply (select_all by_path p start stop group []); [done|done|].
  rewrite Forall_forall in *. intros m Hm. destruct (Hgroup m Hm) as (Hl & Hf & Hla). destruct (located_chunks _ _ _ Hl) as (_ & _ & _ & Hlo & Hhi).
  pose proof (lc_bytes _ _ _ Hl). pose proof (lc_inside _ _ _ Hl). split_and!; [by apply Hgen|..]; unfold start, stop, CHUNK_SIZE in *; lia.
Qed.
End stored.

(** ** Reading all members *)

Lemma entries_dom p ms : dom (entries p ms) = (list_to_set (mr_path <$> ms) : gset pystr).
Proof. unfold entries. rewrite dom_list_to_map_L, <- list_fmap_compose. done. Qed.

Lemma entries_app p ms ms' : entries p (ms ++ ms') = entries p ms ∪ entries p ms'.
Proof. unfold entries. by rewrite fmap_app, list_to_map_app. Qed.

Lemma entries_perm p ms ms' : NoDup (mr_path <$> ms) → ms ≡ₚ ms' → entries p ms = entries p ms'.
Proof. intros Hnd Hp. unfold entries. apply list_to_map_proper; [|by rewrite Hp]. rewrite <- list_fmap_compose. exact Hnd. Qed.

Lemma entries_disjoint p ms ms' : NoDup (mr_path <$> ms ++ ms') → dom (entries p ms') ∩ dom (entries p ms) = (∅ : gset pystr).
Proof.
  rewrite fmap_app. intros (_ & Hd & _)%NoDup_app. rewrite !entries_dom. apply set_eq. intros k.
  rewrite elem_of_intersection, !elem_of_list_to_set. split; [|set_solver]. intros [H1 H2]. by destruct (Hd k).
Qed.

Lemma empty_all p by_path members acc : Forall (genuine p by_path) members →
  foldM empty_step (entries p acc) members = Ok (entries p (reverse (filter (λ m, mr_bytes m = 0) members) ++ acc)).
Proof.
  intros Hall. revert acc. induction Hall as [|m members [_ Hv] _ IH]; intros acc; [done|]. cbn [foldM].
  destruct (decide (mr_bytes m = 0)) as [Hz|Hz].
  - assert (member_bytes p m = []) as Hnil by (unfold member_bytes; by rewrite Hz, Z.add_0_r, slice_empty). rewrite Hnil in Hv.
    assert (empty_step (entries p acc) m = Ok (entries p ([m] ++ acc))) as ->.
    { unfold empty_step. rewrite (proj2 (Z.eqb_eq _ _) Hz), (proj2 (require_verified m []) Hv), ok_bind.
      rewrite <- Hnil. reflexivity. }
    rewrite filter_cons_True, reverse_cons, <- app_assoc, ok_bind by done. apply IH.
  - assert (empty_step (entries p acc) m = Ok (entries p acc)) as -> by (unfold empty_step; by rewrite (proj2 (Z.eqb_neq _ _) Hz)).
    rewrite filter_cons_False, ok_bind by done. apply IH.
Qed.

Lemma new_member_bounds `{UnicodeData} m : new_member m = Ok m → 0 ≤ mb_bytes m ∧ 0 ≤ mb_data_offset m.
Proof. unfold new_member. intros (path & _ & Hm)%bind_Ok. inv_step Hm. inv_step Hm. bool_prop. lia. Qed.

Lemma planned_verified `{UnicodeData} source p members policy plan m : plan_pack_range_retrieval source members policy = Ok plan → ps_plaintext_bytes source = len p →
  Forall (λ m, new_member m = Ok m ∧ sha256_hex (slice (mb_data_offset m) (mb_data_offset m + mb_bytes m) p) = mb_sha256 m) members →
  m ∈ gp_members plan → verified_member m (member_bytes p m).
Proof.
  intros Hplan Hb Hall [i Hi]%list_elem_of_lookup. apply plan_inv in Hplan as (_ & Hr & _).
  destruct (Forall2_lookup_r _ _ _ _ _ Hr Hi) as (src & Hsrc & Hin & age_plan & _ & ->). rewrite Hb in Hin.
  apply list_elem_of_lookup_2 in Hsrc. unfold sorted_members in Hsrc. rewrite sorted_by_perm in Hsrc. rewrite Forall_forall in Hall.
  destruct (Hall src Hsrc) as [Hnew Hsha]. apply new_member_bounds in Hnew as [H1 H2]. split; [|exact Hsha].
  unfold member_bytes, member_range. cbn [mr_data_offset mr_bytes]. rewrite len_slice; lia.
Qed.

Section reading_all.
Context `{UnicodeData} `{Aead} (iter_object_range : pystr → option pystr → Z → Z → Z → stream).
Context (pass : passphrase) (read_working_bytes capacity : Z).

Lemma collect_all plan p file s limit by_path completed groups acc : stored_pack iter_object_range pass (gp_source plan) p file s →
  let pre := len (ss_header s) + len (ss_payload_nonce s) in
  Forall2 (request_covers pre (len p) limit) completed groups → Forall (genuine p by_path) (concat groups) → 2 * limit ≤ capacity →
  NoDup (mr_path <$> concat groups ++ acc) →
  ∃ out, foldM (collect_step iter_object_range read_working_bytes capacity plan by_path (state_of s p) s pre) (entries p acc) completed = Ok (entries p out) ∧
    out ≡ₚ concat groups ++ acc.
Proof.
  intros Hst pre Hcov Hgen Hcap. revert acc. induction Hcov as [|r group completed groups Hr _ IH]; intros acc Hnd; cbn [foldM]; [by exists acc|].
  cbn [concat] in Hnd, Hgen |- *. apply Forall_app in Hgen as [Hg Hgen].
  assert (NoDup (mr_path <$> reverse group ++ acc)) as Hnd1.
  { rewrite <- app_assoc, fmap_app in Hnd. apply NoDup_app in Hnd as (H1 & H2 & H3). rewrite fmap_app in H3. apply NoDup_app in H3 as (_ & _ & H3).
    rewrite fmap_app, fmap_reverse, reverse_Permutation. apply NoDup_app. split_and!; [done| |done]. intros k Hk Hacc. apply (H2 k Hk).
    rewrite fmap_app. set_solver. }
  assert (concat groups ++ reverse group ++ acc ≡ₚ (group ++ concat groups) ++ acc) as Hperm.
  { rewrite app_assoc. f_equiv. rewrite reverse_Permutation. apply Permutation_app_comm. }
  destruct (IH Hgen (reverse group ++ acc)) as (out & Hrun & Hout); [by rewrite Hperm|]. exists out. split; [|by rewrite Hout, Hperm].
  assert (collect_step iter_object_range read_working_bytes capacity plan by_path (state_of s p) s pre (entries p acc) r = Ok (entries p (reverse group ++ acc)))
    as ->; [|by rewrite ok_bind].
  pose proof (request_read iter_object_range pass read_working_bytes capacity plan p file s limit r group by_path Hst Hr Hg Hcap) as Hread.
  unfold collect_step, pre. rewrite Hread, ok_bind.
  rewrite bool_decide_eq_true_2 by by apply entries_disjoint. by rewrite entries_app.
Qed.

Lemma nonempty_rest source p file s members policy plan : stored_pack iter_object_range pass source p file s →
  plan_pack_range_retrieval source members policy = Ok plan →
  filter (λ m, 0 < mr_chunk_count m) (gp_members plan) ++ reverse (filter (λ m, mr_bytes m = 0) (gp_members plan)) ≡ₚ gp_members plan.
Proof.
  intros Hst Hplan. pose proof (plan_members_located source members policy plan Hplan (state_of s p) (sk_state _ _ _ _ _ _ Hst)) as Hall.
  rewrite reverse_Permutation. induction Hall as [|m ms Hm _ IH]; [done|]. destruct Hm as [[Hb Hc]|[Hc Hl]].
  - rewrite filter_cons_False, filter_cons_True by (done || lia). rewrite <- Permutation_middle. by constructor.
  - pose proof (lc_bytes _ _ _ Hl). rewrite filter_cons_True, filter_cons_False by (done || lia). cbn [app]. by constructor.
Qed.

Lemma members_read p file s members policy plan completed : stored_pack iter_object_range pass (gp_source plan) p file s →
  plan_pack_range_retrieval (gp_source plan) members policy = Ok plan →
  Forall (λ m, new_member m = Ok m ∧ sha256_hex (slice (mb_data_offset m) (mb_data_offset m + mb_bytes m) p) = mb_sha256 m) members →
  2 * po_max_request_ciphertext_bytes policy ≤ capacity → completed ≡ₚ gp_requests plan →
  read_members iter_object_range pass read_working_bytes capacity plan completed = Ok (entries p (gp_members plan)).
Proof.
  intros Hst Hplan Hall Hcap Hperm. pose proof (plan_paths _ _ _ _ Hplan) as Hnd. pose proof (plan_sources _ _ _ _ Hplan) as Hsrc.
  pose proof (sk_state _ _ _ _ _ _ Hst) as Hstate. pose proof (plan_again _ _ _ _ Hplan) as Hagain. pose proof Hplan as (_ & _ & _ & _ & Hpol & _)%plan_inv.
  unfold read_members.
  assert (mapM_result (λ m, new_member (member_source m)) (gp_members plan) = Ok (member_source <$> gp_members plan)) as ->.
  { apply mapM_result_Ok. intros m Hm. rewrite Forall_forall in Hall. apply Hall. rewrite <- (sorted_by_perm member_key members).
    fold (sorted_members members). rewrite <- Hsrc. by apply list_elem_of_fmap_2. }
  rewrite ok_bind, Hpol, Hagain, ok_bind, bool_decide_eq_true_2 by done. cbn [negb].
  destruct (bool_decide_reflect (gp_members plan = [])) as [->|_]; [done|]. rewrite Hstate, ok_bind, (sk_session _ _ _ _ _ _ Hst), ok_bind. cbv zeta.
  set (by_path := members_by_path (gp_members plan)).
  assert (Forall (genuine p by_path) (gp_members plan)) as Hgen.
  { apply Forall_forall. intros m Hm. split; [by apply by_path_lookup|]. apply (planned_verified (gp_source plan) p members policy plan); [done|apply Hst|done|done]. }
  pose proof (empty_all p by_path (gp_members plan) [] Hgen) as Hempty. change (entries p []) with (∅ : gmap pystr pybytes) in Hempty. rewrite Hempty, ok_bind, app_nil_r.
  destruct (plan_covers _ _ _ _ Hplan _ Hstate) as (groups & Hcov & Hcat). rewrite (sk_bytes _ _ _ _ _ _ Hst) in Hcov.
  destruct (Permutation_Forall2 (symmetry Hperm) Hcov) as (groups' & Hgroups & Hcov').
  pose proof (nonempty_rest _ p file s members policy plan Hst Hplan) as Hrest. rewrite <- Hcat, Hgroups in Hrest.
  destruct (collect_all plan p file s _ by_path completed groups' (reverse (filter (λ m, mr_bytes m = 0) (gp_members plan))) Hst Hcov') as (out & Hrun & Hout).
  - rewrite <- Hgroups, Hcat. apply Forall_forall. intros m [_ Hm]%list_elem_of_filter. rewrite Forall_forall in Hgen. by apply Hgen.
  - done.
  - by rewrite Hrest.
  - assert (out ≡ₚ gp_members plan) as Hfull by by rewrite Hout, Hrest.
    change (us_header (state_of s p)) with (ss_header s). change (us_payload_nonce (state_of s p)) with (ss_payload_nonce s). rewrite Hrun, ok_bind.
    rewrite bool_decide_eq_true_2 by (rewrite entries_dom; unfold by_path; rewrite by_path_dom; apply list_to_set_perm_L; by rewrite Hfull).
    cbn [negb]. f_equal. apply entries_perm; [by rewrite Hfull|done].
Qed.
End reading_all.

(** ** Plans exist *)

(** The stored bytes of the chunks of a member. *)
Definition span_bytes (n : Z) (m : PackMemberRetrievalSource) : Z :=
  if mb_bytes m =? 0 then 0
  else chunk_end 0 n ((mb_data_offset m + mb_bytes m - 1) / CHUNK_SIZE) - mb_data_offset m / CHUNK_SIZE * (CHUNK_SIZE + AEAD_TAG_SIZE).

Section existence.
Context `{UnicodeData} (source : PackVolumeRetrievalSource) (state : UploadState).
Context (Hstate : from_json_text (ps_age_state_json source) = Ok state).
Context (Hsize : us_plaintext_size state = Some (ps_plaintext_bytes source)) (Hlimit : ps_plaintext_bytes source ≤ 2 ^ 53).

Lemma text_plan total offset bytes :
  plan_age_plaintext_range (StateText (ps_age_state_json source)) total offset bytes = plan_age_plaintext_range (StateValue state) total offset bytes.
Proof. unfold plan_age_plaintext_range. cbn [_upload_state]. by rewrite Hstate. Qed.

Lemma member_ranged m : 0 ≤ mb_bytes m → 0 ≤ mb_data_offset m → mb_data_offset m + mb_bytes m ≤ ps_plaintext_bytes source →
  ∃ r, ranged source m r ∧ (0 < mr_chunk_count r → mr_ciphertext_bytes r = span_bytes (ps_plaintext_bytes source) m).
Proof.
  intros Hb Ho He. set (n := ps_plaintext_bytes source) in *.
  assert (∃ age_plan, plan_age_plaintext_range (StateText (ps_age_state_json source)) n (mb_data_offset m) (mb_bytes m) = Ok age_plan) as [age_plan Hplan].
  { rewrite text_plan. unfold plan_age_plaintext_range. cbn [_upload_state]. rewrite ok_bind, (proj2 (Z.ltb_ge n 0)), bool_decide_eq_true_2 by (done || lia).
    cbn [negb]. rewrite (proj2 (Z.ltb_ge (mb_data_offset m) 0)), (proj2 (Z.ltb_ge (mb_bytes m) 0)), (proj2 (Z.ltb_ge n _)) by lia. cbn [orb].
    destruct (Z.eqb_spec (mb_bytes m) 0); [by eexists|]. cbv zeta. set (last := (mb_data_offset m + mb_bytes m - 1) / CHUNK_SIZE).
    assert (0 ≤ last ∧ last * CHUNK_SIZE < n) as [Hl1 Hl2].
    { pose proof (Z.div_mod (mb_data_offset m + mb_bytes m - 1) CHUNK_SIZE ltac:(done)) as Hd. fold last in Hd.
      pose proof (Z.mod_pos_bound (mb_data_offset m + mb_bytes m - 1) CHUNK_SIZE ltac:(done)). unfold CHUNK_SIZE in *. lia. }
    pose proof (chunk_last n ltac:(lia)) as [Hc _]. unfold _chunk_plaintext_bytes.
    rewrite (proj2 (Z.ltb_ge last 0)), chunk_count_exact, ok_bind, (proj2 (Z.leb_gt _ last)) by (unfold CHUNK_SIZE in *; lia).
    destruct (n =? 0); rewrite ok_bind; by eexists. }
  exists (member_range m age_plan). assert (ranged source m (member_range m age_plan)) as Hr by (split; [done|by exists age_plan]). split; [done|]. intros Hc.
  destruct (ranged_located source state m _ Hstate Hr) as [[_ Hz]|[_ Hl]]; [lia|]. unfold span_bytes.
  pose proof (lc_bytes _ _ _ Hl) as Hpos. change (mr_bytes (member_range m age_plan)) with (mb_bytes m) in Hpos.
  rewrite (proj2 (Z.eqb_neq (mb_bytes m) 0)) by lia. pose proof (lc_end _ _ _ Hl) as Hend. pose proof (lc_start _ _ _ Hl) as Hstart.
  rewrite (lc_last _ _ _ Hl) in Hend. rewrite (lc_first _ _ _ Hl) in Hstart. unfold mr_ciphertext_end in Hend. unfold chunk_end in *.
  change (mr_data_offset (member_range m age_plan)) with (mb_data_offset m) in *. change (mr_bytes (member_range m age_plan)) with (mb_bytes m) in *. fold n in Hend. lia.
Qed.

Lemma plan_exists members policy : Forall (λ m, new_member m = Ok m ∧ mb_data_offset m + mb_bytes m ≤ ps_plaintext_bytes source ∧
    span_bytes (ps_plaintext_bytes source) m ≤ po_max_request_ciphertext_bytes policy) members → NoDup (mb_path <$> members) →
  ∃ plan, plan_pack_range_retrieval source members policy = Ok plan.
Proof.
  intros Hall Hnd.
  assert (∃ ranges, Forall2 (λ m r, ranged source m r ∧ (0 < mr_chunk_count r → mr_ciphertext_bytes r ≤ po_max_request_ciphertext_bytes policy))
    (sorted_members members) ranges) as [ranges Hr].
  { assert (Forall (λ m, new_member m = Ok m ∧ mb_data_offset m + mb_bytes m ≤ ps_plaintext_bytes source ∧
      span_bytes (ps_plaintext_bytes source) m ≤ po_max_request_ciphertext_bytes policy) (sorted_members members)) as Hs
      by (unfold sorted_members; by rewrite sorted_by_perm).
    induction Hs as [|m ms (Hnew & He & Hsp) _ [ranges IH]]; [by exists []|]. apply new_member_bounds in Hnew as [Hb Ho].
    destruct (member_ranged m Hb Ho He) as (r & Hr & Hc). exists (r :: ranges). constructor; [|done]. split; [done|]. intros H1. rewrite Hc by exact H1. exact Hsp. }
  assert (Forall2 (ranged source) (sorted_members members) ranges) as Hranged by (eapply Forall2_impl; [exact Hr|]; by intros m r []).
  assert (∃ requests, _coalesced_requests ranges policy = Ok requests) as [requests Hreq].
  { destruct (requests_cover policy (len (us_header state) + len (us_payload_nonce state)) (ps_plaintext_bytes source) ranges) as (requests & groups & -> & _); [| |by eexists].
    - apply Forall_forall. intros r [i Hi]%list_elem_of_lookup Hc. destruct (Forall2_lookup_r _ _ _ _ _ Hr Hi) as (m & _ & Hm & Hb).
      split; [|by apply Hb]. destruct (ranged_located source state m r Hstate Hm) as [[_ Hz]|[_ Hl]]; [lia|done].
    - by apply (ranged_sorted source members). }
  eexists {| gp_source := source; gp_policy := policy; gp_members := ranges; gp_requests := requests |}.
  apply plan_inv. cbn [gp_members gp_requests gp_source gp_policy gp_logical_bytes gp_remote_bytes gp_accounted_remote_bytes].
  split_and!; try done; try reflexivity.
Qed.
End existence.

(** ** One member *)

Lemma emit_all path bytes emitted chunks rest : emitted + len (concat chunks) ≤ bytes →
  emit_member path bytes emitted chunks rest = (chunks ++ rest.1, rest.2).
Proof.
  revert emitted. induction chunks as [|chunk chunks IH]; intros emitted Hb; cbn [emit_member concat] in *; [by destruct rest|].
  rewrite len_app in Hb. pose proof (len_nonneg (concat chunks)). rewrite (proj2 (Z.ltb_ge _ _)), IH by lia. done.
Qed.

(** A range of a member is a member. *)
Lemma new_part `{UnicodeData} m offset size : new_member m = Ok m → 0 ≤ offset → 0 ≤ size →
  let part := {| mb_path := mb_path m; mb_bytes := size; mb_sha256 := mb_sha256 m; mb_data_offset := mb_data_offset m + offset |} in
  new_member part = Ok part.
Proof.
  intros Hnew Ho Hs part. pose proof (new_member_bounds m Hnew) as [_ Hd]. unfold new_member in Hnew |- *.
  cbn [mb_path mb_bytes mb_data_offset mb_sha256 part]. apply bind_Ok in Hnew as (path & -> & Hnew). rewrite ok_bind. do 3 inv_step Hnew.
  by rewrite (proj2 (Z.ltb_ge size 0)), (proj2 (Z.ltb_ge (mb_data_offset m + offset) 0)) by lia.
Qed.

Section one_member.
Context `{UnicodeData} `{Aead} (iter_object_range : pystr → option pystr → Z → Z → Z → stream).
Context (pass : passphrase) (read_working_bytes capacity : Z).

(** The plan of a single member. *)
Lemma single_plan source p file s m policy : stored_pack iter_object_range pass source p file s → new_member m = Ok m →
  mb_data_offset m + mb_bytes m ≤ len p → span_bytes (len p) m ≤ po_max_request_ciphertext_bytes policy →
  ∃ plan r, plan_pack_range_retrieval source [m] policy = Ok plan ∧ gp_members plan = [r] ∧ member_source r = m.
Proof.
  intros Hst Hnew He Hspan. destruct (plan_exists source (state_of s p) (sk_state _ _ _ _ _ _ Hst) ltac:(by rewrite (sk_bytes _ _ _ _ _ _ Hst))
    ltac:(rewrite (sk_bytes _ _ _ _ _ _ Hst); apply Hst) [m] policy) as [plan Hplan].
  - constructor; [|constructor]. by rewrite (sk_bytes _ _ _ _ _ _ Hst).
  - repeat constructor. set_solver.
  - pose proof (plan_sources _ _ _ _ Hplan) as Hsrc. unfold sorted_members in Hsrc. cbn in Hsrc.
    destruct (gp_members plan) as [|r [|]] eqn:Hm; try done. injection Hsrc as Hr. exists plan, r. split_and!; [done|done|]. by destruct m; unfold member_source.
Qed.

Lemma member_retrieved source p file s m policy offset size : stored_pack iter_object_range pass source p file s → new_member m = Ok m →
  mb_data_offset m + mb_bytes m ≤ len p → sha256_hex (slice (mb_data_offset m) (mb_data_offset m + mb_bytes m) p) = mb_sha256 m →
  0 ≤ offset → 0 < size → offset + size ≤ mb_bytes m → read_working_bytes + CHUNK_SIZE ≤ capacity → 1 ≤ capacity →
  span_bytes (len p) {| mb_path := mb_path m; mb_bytes := size; mb_sha256 := mb_sha256 m; mb_data_offset := mb_data_offset m + offset |}
    ≤ po_max_request_ciphertext_bytes policy →
  ∃ out, iter_member_range iter_object_range pass read_working_bytes capacity source m policy offset size = (out, Ok tt) ∧
    concat out = slice (mb_data_offset m + offset) (mb_data_offset m + offset + size) p.
Proof.
  intros Hst Hnew He Hsha Ho Hz Hend Hcap Hone Hspan. pose proof (new_member_bounds m Hnew) as [Hb Hd]. unfold iter_member_range.
  rewrite (proj2 (Z.ltb_ge offset 0)), (proj2 (Z.ltb_ge size 0)), (proj2 (Z.ltb_ge (mb_bytes m) _)) by lia. cbn [orb].
  set (part := {| mb_path := mb_path m |}) in *.
  assert (new_member part = Ok part) as Hpart by (apply new_part; [done|lia|lia]).
  destruct (single_plan source p file s part policy Hst Hpart) as (plan & r & Hplan & Hm & Hr); [cbn; lia|done|].
  rewrite Hpart, ok_bind, Hplan, Hm. assert (mr_bytes r = size ∧ mr_data_offset r = mb_data_offset m + offset) as [-> ->]
    by (split; [exact (f_equal mb_bytes Hr)|exact (f_equal mb_data_offset Hr)]).
  rewrite (proj2 (Z.eqb_neq size 0)) by lia. pose proof (sk_state _ _ _ _ _ _ Hst) as Hstate.
  rewrite (text_plan source _ Hstate), (sk_bytes _ _ _ _ _ _ Hst), plan_is_the_range, ok_bind by (try lia; apply Hst).
  assert (reserve capacity (Z.max 1 (Z.min (pr_ciphertext_bytes (the_range s p (mb_data_offset m + offset) size)) read_working_bytes + CHUNK_SIZE)) = Ok tt) as ->
    by (unfold reserve; by rewrite (proj2 (Z.ltb_ge _ _)) by lia).
  assert (session_from_state pass (StateText (ps_age_state_json source)) None = Ok s) as Hsession.
  { rewrite <- (sk_session _ _ _ _ _ _ Hst). unfold session_from_state. change (_upload_state (StateText (ps_age_state_json source))) with (from_json_text (ps_age_state_json source)).
    by rewrite Hstate. }
  rewrite ok_bind, Hsession, ok_bind. cbv zeta.
  destruct (range_served iter_object_range pass source p file s (mb_data_offset m + offset) size Hst ltac:(lia) Hz ltac:(lia)) as (chunks & out & Hread & Hlen & Hdec & Hout).
  rewrite Hread. cbn [fst snd].
  assert (iter_decrypt_age_plaintext_range (StateText (ps_age_state_json source)) (the_range s p (mb_data_offset m + offset) size) chunks None (Some s) = (out, Ok tt)) as ->.
  { rewrite <- Hdec. unfold iter_decrypt_age_plaintext_range. cbn [_upload_state]. by rewrite Hstate. }
  cbn [source_ends fst snd]. assert (len (concat out) = size) as Hsize by (rewrite Hout, len_slice; lia). rewrite emit_all by lia. rewrite Hsize, Z.eqb_refl. cbn [negb].
  exists out. split; [|done]. destruct (Z.eqb_spec offset 0) as [->|]; cbn [andb]; [|by rewrite app_nil_r]. destruct (Z.eqb_spec size (mb_bytes m)) as [Hall|]; cbn [andb]; [|by rewrite app_nil_r].
  rewrite Hout, Z.add_0_r, Hall, Hsha, bool_decide_eq_true_2 by done. cbn. by rewrite app_nil_r.
Qed.

(** An empty range of a member with bytes is refused: its digest is compared with
    that of no bytes. *)
Lemma empty_range_refused source p file s m policy offset : stored_pack iter_object_range pass source p file s → new_member m = Ok m →
  mb_data_offset m + mb_bytes m ≤ len p → 0 ≤ offset ≤ mb_bytes m → 0 ≤ po_max_request_ciphertext_bytes policy → sha256_hex [] ≠ mb_sha256 m →
  iter_member_range iter_object_range pass read_working_bytes capacity source m policy offset 0 =
  ([], Err (path_error (str "pack member range verification failed: ") (mb_path m))).
Proof.
  intros Hst Hnew He Ho Hmax Hsha. pose proof (new_member_bounds m Hnew) as [Hb Hd]. unfold iter_member_range.
  rewrite (proj2 (Z.ltb_ge offset 0)), (proj2 (Z.ltb_ge (mb_bytes m) _)) by lia. cbn [orb Z.ltb].
  set (part := {| mb_path := mb_path m |}) in *. change (0 <? 0) with false. cbn [orb].
  assert (new_member part = Ok part) as Hpart by (apply new_part; [done|lia|lia]).
  destruct (single_plan source p file s part policy Hst Hpart) as (plan & r & Hplan & Hm & Hr); [cbn; lia|done|].
  rewrite Hpart, ok_bind, Hplan, Hm. assert (mr_bytes r = 0 ∧ mr_path r = mb_path m ∧ mr_sha256 r = mb_sha256 m) as (-> & Hpath & Hs)
    by (split_and!; [exact (f_equal mb_bytes Hr)|exact (f_equal mb_path Hr)|exact (f_equal mb_sha256 Hr)]).
  change (0 =? 0) with true. cbn iota. unfold _require_verified_member. rewrite Hs, (bool_decide_eq_false_2 _ Hsha), orb_true_r, Hpath. done.
Qed.
End one_member.

(** ** Members in the bytes of a pack *)

(** A member of a pack, with its file at its place in the bytes [p]. *)
Definition placed (p : pybytes) (m : PackMemberPlan) (q : pybytes) : Prop :=
  slice (pm_data_offset m) (pm_data_offset m + pm_bytes m) p = q ∧ file_payload (member_file m) q ∧
  0 ≤ pm_data_offset m ∧ pm_data_offset m + pm_bytes m ≤ len p.

Lemma len_entry f q : file_payload f q → len (entry_bytes (af_path f) q) = entry_len f.
Proof. intros [Hl _]. rewrite len_entry_bytes, Hl. done. Qed.

Lemma len_sources fs ps : Forall2 file_payload fs ps → len (sources_bytes fs ps) = sumZ entry_len fs.
Proof.
  induction 1 as [|f q fs ps Hf _ IH]; [done|]. unfold sources_bytes in *. cbn [zip_with concat]. by rewrite len_app, sumZ_cons, IH, (len_entry f q Hf).
Qed.

Lemma header_len_nonneg path size : 0 ≤ header_len path size.
Proof. rewrite <- len_header_bytes. apply len_nonneg. Qed.

Lemma entry_placed f q before after : file_payload f q →
  let o := len before + header_len (af_path f) (af_bytes f) in
  slice o (o + af_bytes f) (before ++ entry_bytes (af_path f) q ++ after) = q ∧ o + af_bytes f ≤ len (before ++ entry_bytes (af_path f) q ++ after).
Proof.
  intros [Hl Hs] o. pose proof (header_len_nonneg (af_path f) (af_bytes f)). pose proof (len_nonneg q). unfold entry_bytes. rewrite Hl. split.
  - rewrite slice_app_r by lia. rewrite <- !app_assoc, slice_app_r by (rewrite len_header_bytes; lia). rewrite len_header_bytes.
    rewrite slice_app_l by lia. unfold o. rewrite <- (slice_full q) at 2. f_equal; lia.
  - rewrite !len_app, len_header_bytes, len_zeros_padding. pose proof (tar_padding_bounds (af_bytes f)). pose proof (len_nonneg after). lia.
Qed.

Lemma sources_placed unit fs ps before after : Forall2 file_payload fs ps →
  Forall2 (placed (before ++ sources_bytes fs ps ++ after)) (members_from unit (len before) fs) ps.
Proof.
  intros Hall. revert before. induction Hall as [|f q fs ps Hf _ IH]; intros before; cbn [members_from]; [constructor|].
  unfold sources_bytes. cbn [zip_with concat]. fold (sources_bytes fs ps). rewrite <- app_assoc. constructor.
  - destruct (entry_placed f q before (sources_bytes fs ps ++ after) Hf) as [Hsl Hle]. unfold placed. cbn [pm_data_offset pm_bytes].
    pose proof (header_len_nonneg (af_path f) (af_bytes f)). pose proof (len_nonneg before). split_and!; [done| |lia|done]. by destruct f.
  - rewrite app_assoc. replace (len before + entry_len f) with (len (before ++ entry_bytes (af_path f) q)) by (rewrite len_app, (len_entry f q Hf); lia). apply IH.
Qed.

Lemma len_tail plan u : planned_unit plan u → len (padding_bytes u ++ index_entry plan u ++ end_markers u) = pu_plaintext_end u - body_end u.
Proof.
  unfold index_entry, end_markers, padding_bytes. intros [(Ha & -> & -> & _)|[(-> & -> & -> & _ & ->) _]].
  - rewrite !app_nil_r. unfold _alignment_padding in Ha. destruct (Z.eqb_spec (body_end u mod CHUNK_SIZE) 0) as [|Hrem]; [injection Ha as <- <-; by rewrite Z.sub_diag|].
    cbv zeta in Ha. inv_step Ha. apply bind_Ok in Ha as (header & Hh & Ha). inv_step Ha. injection Ha as <- <-. bool_prop. cbn [pp_path pp_payload_bytes].
    set (n := CHUNK_SIZE - body_end u mod CHUNK_SIZE - _TAR_BLOCK_SIZE) in *. rewrite len_entry_bytes. assert (len (zeros n) = n) as -> by (apply len_repeatZ; unfold n; lia).
    unfold header_len. rewrite Hh. lia.
  - cbn [app]. rewrite len_app, len_entry_bytes. change (len (zeros 1024)) with 1024. lia.
Qed.

Lemma len_unit plan u ps : planned_unit plan u → Forall2 file_payload (pu_sources u) ps →
  len (PackRender.unit_bytes plan u ps) = pu_plaintext_end u - pu_plaintext_start u.
Proof. intros Hu Hp. unfold PackRender.unit_bytes. rewrite len_app, (len_sources _ _ Hp), (len_tail plan u Hu). unfold body_end. lia. Qed.

Lemma units_placed plan i start units i' stop payloads before : chained i start units i' stop → Forall (planned_unit plan) units →
  Forall2 (λ u ps, Forall2 file_payload (pu_sources u) ps) units payloads → len before = start →
  Forall2 (placed (before ++ concat (zip_with (PackRender.unit_bytes plan) units payloads))) (concat (unit_members <$> units)) (concat payloads).
Proof.
  intros Hc Hu Hp. revert i start before Hc. induction Hp as [|u ps units payloads Hps _ IH]; intros i start before Hc Hb; [constructor|].
  apply Forall_cons in Hu as [Hu Hus]. cbn [chained] in Hc. destruct Hc as (_ & Hs & Hc). rewrite fmap_cons. cbn [concat zip_with]. apply Forall2_app.
  - unfold unit_members, PackRender.unit_bytes. rewrite Hs, <- Hb, <- !app_assoc. by apply sources_placed.
  - rewrite app_assoc. apply (IH Hus (i + 1) (pu_plaintext_end u)); [done|]. rewrite len_app, (len_unit plan u ps Hu Hps). lia.
Qed.

Lemma packed_placed `{PyEnv} plan payloads : plan_valid plan →
  Forall2 (λ u ps, Forall2 file_payload (pu_sources u) ps) (pv_units plan) payloads →
  Forall2 (placed (pack_bytes plan payloads)) (pv_members plan) (concat payloads).
Proof.
  intros Hv Hp. destruct (plan_facts plan Hv) as (closed & final & Hl & _ & _ & Hu & _). rewrite (pl_members _ _ _ _ Hl).
  by apply (units_placed plan 0 0 (pv_units plan) (len (pv_units plan)) (pv_plaintext_bytes plan) payloads []); [apply Hl|..].
Qed.

(** ** The claims *)

(** The request for a member of a pack. *)
Definition member_request (m : PackMemberPlan) : PackMemberRetrievalSource :=
  {| mb_path := pm_path m; mb_bytes := pm_bytes m; mb_sha256 := pm_sha256 m; mb_data_offset := pm_data_offset m |}.

Lemma member_request_ok `{PyEnv} pack p m q : plan_valid pack → m ∈ pv_members pack → placed p m q →
  new_member (member_request m) = Ok (member_request m) ∧
  sha256_hex (slice (mb_data_offset (member_request m)) (mb_data_offset (member_request m) + mb_bytes (member_request m)) p) = mb_sha256 (member_request m).
Proof.
  intros Hv Hm (Hsl & [Hlen Hsha] & Ho & _). destruct (plan_facts pack Hv) as (closed & final & _ & Hff & _). rewrite Forall_forall in Hff.
  destruct (Hff (member_file m) (list_elem_of_fmap_2 _ _ _ Hm)) as (_ & [_ Hpath] & Hres & Hb & Hd). cbn in *. split; [|by rewrite Hsl].
  unfold new_member. cbn [mb_path mb_bytes mb_data_offset mb_sha256 member_request]. rewrite Hpath, ok_bind, bool_decide_eq_true_2, Hres by done. cbn [negb orb].
  by rewrite (proj2 (Z.ltb_ge (pm_bytes m) 0)), (proj2 (Z.ltb_ge (pm_data_offset m) 0)), Hd by lia.
Qed.

(** Distinct members of a pack have distinct paths. *)
Lemma members_nodup `{PyEnv} pack members : plan_valid pack → NoDup members → members ⊆ pv_members pack → NoDup (pm_path <$> members).
Proof.
  intros Hv. destruct (plan_facts pack Hv) as (closed & final & _ & _ & Hnd & _). induction 1 as [|m members Hm _ IH]; intros Hsub; [constructor|].
  rewrite fmap_cons. constructor; [|apply IH; set_solver]. intros (x & Hx & Hin)%list_elem_of_fmap.
  assert (x ∈ pv_members pack) as [i Hi]%list_elem_of_lookup by set_solver. assert (m ∈ pv_members pack) as [j Hj]%list_elem_of_lookup by set_solver.
  assert (i = j) as ->; [|congruence]. eapply NoDup_lookup; [exact Hnd| |]; rewrite list_lookup_fmap; [rewrite Hi; cbn; by rewrite <- Hx|by rewrite Hj].
Qed.

Lemma entries_lookup `{UnicodeData} p plan source members policy : plan_pack_range_retrieval source members policy = Ok plan →
  ∀ m, m ∈ members → entries p (gp_members plan) !! mb_path m = Some (slice (mb_data_offset m) (mb_data_offset m + mb_bytes m) p).
Proof.
  intros Hplan m Hm. pose proof (plan_paths _ _ _ _ Hplan) as Hnd. rewrite <- (sorted_by_perm member_key members) in Hm. fold (sorted_members members) in Hm.
  rewrite <- (plan_sources _ _ _ _ Hplan) in Hm. apply list_elem_of_fmap in Hm as (r & -> & Hr). apply elem_of_list_to_map_1.
  - rewrite <- list_fmap_compose. exact Hnd.
  - change (mb_path (member_source r), _) with (entry_of p r). by apply list_elem_of_fmap_2.
Qed.

Section retrieved.
Context `{PyEnv} `{Aead} (iter_object_range : pystr → option pystr → Z → Z → Z → stream).
Context (pass : passphrase) (read_working_bytes capacity : Z).
Notation read_members := (read_members iter_object_range pass read_working_bytes capacity).

Lemma packed_read pack payloads source file s members policy : plan_valid pack →
  Forall2 (λ u ps, Forall2 file_payload (pu_sources u) ps) (pv_units pack) payloads →
  stored_pack iter_object_range pass source (pack_bytes pack payloads) file s →
  NoDup members → members ⊆ pv_members pack →
  Forall (λ m, span_bytes (ps_plaintext_bytes source) (member_request m) ≤ po_max_request_ciphertext_bytes policy) members →
  2 * po_max_request_ciphertext_bytes policy ≤ capacity →
  ∃ plan, plan_pack_range_retrieval source (member_request <$> members) policy = Ok plan ∧
    ∀ completed, completed ≡ₚ gp_requests plan → ∃ out, read_members plan completed = Ok out ∧
      dom out = (list_to_set (pm_path <$> members) : gset pystr) ∧
      ∀ m q, (m, q) ∈ zip (pv_members pack) (concat payloads) → m ∈ members → out !! pm_path m = Some q.
Proof.
  intros Hv Hp Hst Hnd Hsub Hspan Hcap. pose proof (packed_placed pack payloads Hv Hp) as Hplaced. set (p := pack_bytes pack payloads) in *.
  assert (Forall (λ m, ∃ q, placed p m q) members) as Hq.
  { apply Forall_forall. intros m Hm. apply Hsub, list_elem_of_lookup in Hm as [i Hi]. destruct (Forall2_lookup_l _ _ _ _ _ Hplaced Hi) as (q & _ & Hpl). by exists q. }
  assert (Forall (λ m, new_member m = Ok m ∧ sha256_hex (slice (mb_data_offset m) (mb_data_offset m + mb_bytes m) p) = mb_sha256 m) (member_request <$> members)) as Hok.
  { apply Forall_fmap. rewrite Forall_forall in Hq |- *. intros m Hm. destruct (Hq m Hm) as [q Hpl]. apply (member_request_ok pack p m q Hv); [by apply Hsub|done]. }
  destruct (plan_exists source (state_of s p) (sk_state _ _ _ _ _ _ Hst) ltac:(by rewrite (sk_bytes _ _ _ _ _ _ Hst))
    ltac:(rewrite (sk_bytes _ _ _ _ _ _ Hst); apply Hst) (member_request <$> members) policy) as [plan Hplan].
  - apply Forall_fmap. rewrite Forall_fmap in Hok. rewrite Forall_forall in *. intros m Hm. destruct (Hq m Hm) as (q & _ & _ & _ & He).
    split_and!; [by apply Hok|by rewrite (sk_bytes _ _ _ _ _ _ Hst)|by apply Hspan].
  - rewrite <- list_fmap_compose. change (mb_path ∘ member_request) with pm_path. by apply (members_nodup pack).
  - exists plan. split; [done|]. intros completed Hperm. exists (entries p (gp_members plan)).
    pose proof Hplan as (_ & _ & _ & Hsrc & _)%plan_inv. pose proof (plan_sources _ _ _ _ Hplan) as Hsources. split_and!.
    + rewrite <- Hsrc in Hst, Hplan. by apply (members_read iter_object_range pass read_working_bytes capacity p file s (member_request <$> members) policy).
    + rewrite entries_dom. change mr_path with (mb_path ∘ member_source) at 1. rewrite list_fmap_compose, Hsources. apply list_to_set_perm_L.
      unfold sorted_members. rewrite sorted_by_perm, <- list_fmap_compose. done.
    + intros m q Hmq Hm. apply list_elem_of_lookup in Hmq as [i Hi]. apply lookup_zip_with_Some in Hi as (m' & q' & [= <- <-] & Hi & Hj).
      pose proof (Forall2_lookup_lr _ _ _ _ _ _ Hplaced Hi Hj) as (Hsl & _). rewrite <- Hsl. apply (entries_lookup p plan source (member_request <$> members) policy Hplan (member_request m)).
      by apply list_elem_of_fmap_2.
Qed.

(** Packed files can be read back: for a planned pack whose units carry the
    bytes of its files, stored as the age file of those bytes and served by the
    store in whatever chunks, the batch reader plans requests for any selection of
    its members that respect the bound, and, in whatever order the requests
    complete, returns for each selected path exactly the bytes of its file. *)
Theorem packed_files_retrieved pack payloads source file s members policy : plan_valid pack →
  Forall2 (λ u ps, Forall2 file_payload (pu_sources u) ps) (pv_units pack) payloads →
  stored_pack iter_object_range pass source (pack_bytes pack payloads) file s →
  NoDup members → members ⊆ pv_members pack →
  Forall (λ m, span_bytes (ps_plaintext_bytes source) (member_request m) ≤ po_max_request_ciphertext_bytes policy) members →
  2 * po_max_request_ciphertext_bytes policy ≤ capacity →
  ∃ plan, plan_pack_range_retrieval source (member_request <$> members) policy = Ok plan ∧
    ∀ completed, completed ≡ₚ gp_requests plan → ∃ out, read_members plan completed = Ok out ∧
      dom out = (list_to_set (pm_path <$> members) : gset pystr) ∧
      ∀ m q, (m, q) ∈ zip (pv_members pack) (concat payloads) → m ∈ members → out !! pm_path m = Some q.
Proof. apply packed_read. Qed.

(** C27. Nothing unverified is returned: whatever the store serves and whatever plan
    it is given, a batch reader that returns has an entry for exactly the members
    of the plan, and each has the declared size and digest. *)
Theorem pack_members_verified plan completed out : read_members plan completed = Ok out →
  dom out = (list_to_set (mr_path <$> gp_members plan) : gset pystr) ∧
  ∀ m, m ∈ gp_members plan → ∃ content, out !! mr_path m = Some content ∧ len content = mr_bytes m ∧ sha256_hex content = mr_sha256 m.
Proof. apply members_verified. Qed.

(** A request, said of chunk numbers and member ranges alone: the stored chunks
    [first] to [last] of an [n]-byte plaintext, each 65536 bytes and a 16-byte tag
    but the last of the file, after the [pre] bytes of header and nonce; within
    the bound; every byte of every member of [group] in these chunks; and the
    first and the last chunk needed, each by some member of [group]. *)
Definition request_holds (pre n limit : Z) (r : PackCiphertextRequest) (group : list PackMemberRetrievalSource) : Prop :=
  0 ≤ cq_first_chunk r ≤ cq_last_chunk r ∧ cq_last_chunk r * 65536 < n ∧
  cq_ciphertext_offset r = pre + cq_first_chunk r * 65552 ∧
  cq_ciphertext_offset r + cq_ciphertext_bytes r =
    pre + cq_last_chunk r * 65552 + Z.min 65536 (n - cq_last_chunk r * 65536) + 16 ∧
  cq_ciphertext_bytes r ≤ limit ∧ cq_member_paths r = mb_path <$> group ∧
  Forall (λ m, cq_first_chunk r * 65536 ≤ mb_data_offset m ∧
               mb_data_offset m + mb_bytes m ≤ (cq_last_chunk r + 1) * 65536) group ∧
  (∃ m, m ∈ group ∧ mb_data_offset m < (cq_first_chunk r + 1) * 65536) ∧
  (∃ m, m ∈ group ∧ cq_last_chunk r * 65536 < mb_data_offset m + mb_bytes m).

Lemma request_covers_holds pre n limit r group :
  request_covers pre n limit r group → request_holds pre n limit r (member_source <$> group).
Proof.
  intros [[Hs He Hc Hl Hg [[a [Ha Hfa]] [b [Hb Hlb]]]] Hp]. unfold chunk_end, CHUNK_SIZE, AEAD_TAG_SIZE in *. unfold request_holds.
  split_and!; try lia.
  - rewrite Hp, <- list_fmap_compose. done.
  - rewrite Forall_fmap. eapply Forall_impl; [exact Hg|]. intros m (Hm & Hf & Hlast).
    destruct (located_chunks _ _ _ Hm) as (_ & _ & _ & Ho & Hm'). unfold CHUNK_SIZE in *.
    cbn [compose member_source mb_data_offset mb_bytes]. lia.
  - exists (member_source a). split; [by apply list_elem_of_fmap_2|]. rewrite Forall_forall in Hg. destruct (Hg a Ha) as [Hm _].
    pose proof (lc_first _ _ _ Hm) as Hfirst. unfold CHUNK_SIZE in *. cbn [member_source mb_data_offset]. lia.
  - exists (member_source b). split; [by apply list_elem_of_fmap_2|]. rewrite Forall_forall in Hg. destruct (Hg b Hb) as [Hm _].
    pose proof (lc_last _ _ _ Hm) as Hend. unfold CHUNK_SIZE in *. cbn [member_source mb_data_offset mb_bytes]. lia.
Qed.

Lemma members_with_bytes source members policy plan state :
  plan_pack_range_retrieval source members policy = Ok plan → from_json_text (ps_age_state_json source) = Ok state →
  member_source <$> filter (λ m, 0 < mr_chunk_count m) (gp_members plan) =
  filter (λ m, 0 < mb_bytes m) (sorted_members members).
Proof.
  intros Hplan Hstate. pose proof (plan_members_located _ _ _ _ Hplan state Hstate) as Hloc. cbv zeta in Hloc.
  rewrite <- (plan_sources _ _ _ _ Hplan). induction (gp_members plan) as [|m ms IH]; [done|].
  apply Forall_cons in Hloc as [Hm Hms]. rewrite fmap_cons, !filter_cons. cbn [member_source mb_bytes].
  destruct Hm as [[Hb Hc]|[Hc Hl]].
  - rewrite !decide_False by lia. by apply IH.
  - rewrite !decide_True by (done || apply Hl). rewrite fmap_cons. f_equal. by apply IH.
Qed.

Lemma sorted_members_offsets members :
  StronglySorted (λ a b, mb_data_offset a ≤ mb_data_offset b) (sorted_members members).
Proof.
  pose proof (sorted_by_sorted member_key members) as Hs. fold (sorted_members members) in Hs.
  induction Hs as [|m ms Hs IH Hm]; constructor; [done|]. eapply Forall_impl; [exact Hm|]. intros x Hx.
  unfold key_le, member_key in Hx. cbn in Hx. destruct (Z.ltb_spec (mb_data_offset m) (mb_data_offset x)); [lia|].
  destruct (Z.ltb_spec (mb_data_offset x) (mb_data_offset m)); [done|lia].
Qed.

(** C26. The requests of a plan are bounded and sufficient: planning distinct members
    inside a volume, none of whose chunks exceed the bound, succeeds; each request
    is at most the bound and is the exact stored range of a run of age chunks;
    and the members of at least one byte, in the order of their offsets, are
    divided among the requests, each into exactly one request, whose chunks
    contain all its bytes and whose first and last chunk some member of it needs. *)
Theorem pack_requests_cover source state members policy : from_json_text (ps_age_state_json source) = Ok state →
  us_plaintext_size state = Some (ps_plaintext_bytes source) → ps_plaintext_bytes source ≤ 2 ^ 53 →
  NoDup (mb_path <$> members) →
  Forall (λ m, new_member m = Ok m ∧ mb_data_offset m + mb_bytes m ≤ ps_plaintext_bytes source ∧
               span_bytes (ps_plaintext_bytes source) m ≤ po_max_request_ciphertext_bytes policy) members →
  ∃ plan sorted groups, plan_pack_range_retrieval source members policy = Ok plan ∧
    sorted ≡ₚ members ∧ StronglySorted (λ a b, mb_data_offset a ≤ mb_data_offset b) sorted ∧
    member_source <$> gp_members plan = sorted ∧
    concat groups = filter (λ m, 0 < mb_bytes m) sorted ∧
    Forall2 (request_holds (len (us_header state) + len (us_payload_nonce state)) (ps_plaintext_bytes source)
               (po_max_request_ciphertext_bytes policy)) (gp_requests plan) groups ∧
    gp_remote_bytes plan = sumZ cq_ciphertext_bytes (gp_requests plan).
Proof.
  intros Hstate Hsize Hlimit Hnd Hall. destruct (plan_exists source state Hstate Hsize Hlimit members policy Hall Hnd) as [plan Hplan].
  destruct (plan_covers _ _ _ _ Hplan state Hstate) as (groups & Hcov & Hcat).
  exists plan, (sorted_members members), ((λ g : list PackMemberRange, member_source <$> g) <$> groups). split_and!; [done| | | | | |].
  - apply sorted_by_perm.
  - apply sorted_members_offsets.
  - apply (plan_sources _ _ _ _ Hplan).
  - rewrite <- (members_with_bytes _ _ _ _ _ Hplan Hstate), <- Hcat. clear. induction groups as [|g gs IH]; [done|]. rewrite fmap_cons. cbn [concat]. by rewrite fmap_app, IH.
  - apply Forall2_fmap_r. eapply Forall2_impl; [exact Hcov|]. intros r g. apply request_covers_holds.
  - by apply plan_inv in Hplan as (_ & _ & _ & _ & _ & _ & Hr & _).
Qed.

(** C30. A range of a packed file reads back exactly: a non-empty range of a member
    whose chunks respect the request bound, with a byte budget that admits the
    reader's working bytes, is yielded byte for byte from a store that serves the
    object in whatever chunks, and reading the whole member passes its digest
    check. *)
Theorem pack_member_range_exact source p file s m policy offset size : stored_pack iter_object_range pass source p file s → new_member m = Ok m →
  mb_data_offset m + mb_bytes m ≤ len p → sha256_hex (slice (mb_data_offset m) (mb_data_offset m + mb_bytes m) p) = mb_sha256 m →
  0 ≤ offset → 0 < size → offset + size ≤ mb_bytes m → read_working_bytes + CHUNK_SIZE ≤ capacity → 1 ≤ capacity →
  span_bytes (len p) {| mb_path := mb_path m; mb_bytes := size; mb_sha256 := mb_sha256 m; mb_data_offset := mb_data_offset m + offset |}
    ≤ po_max_request_ciphertext_bytes policy →
  ∃ out, iter_member_range iter_object_range pass read_working_bytes capacity source m policy offset size = (out, Ok tt) ∧
    concat out = slice (mb_data_offset m + offset) (mb_data_offset m + offset + size) p.
Proof. apply member_retrieved. Qed.
End retrieved.

(** ** A stored pack *)

Section example.
#[local] Existing Instance ascii_env.
#[local] Existing Instance tag_aead.

Definition pack_session : ResumableAgeScryptSession :=
  Eval vm_compute in match create (PassText (str "pw")) 1 example_key example_salt example_nonce None with
                     | Ok s => s
                     | Err _ => example_session
                     end.

Definition pack_source (p file : pybytes) : PackVolumeRetrievalSource :=
  {| ps_volume_id := pack_volume_id 7; ps_object_path := str "o"; ps_revision := None; ps_plaintext_bytes := len p; ps_stored_bytes := len file;
     ps_age_state_json := dumps true (upload_state_payload (state_of pack_session p)) |}.

(** A store that answers a range with one chunk. *)
Definition pack_store (file : pybytes) (_ : pystr) (_ : option pystr) (_ offset size : Z) : stream := ([slice offset (offset + size) file], Ok tt).

Definition pack_policy : PackRangeRetrievalPolicy :=
  {| po_merge_gap_ciphertext_bytes := 0; po_max_request_ciphertext_bytes := 70000; po_billing_mode := BILLING_MODE_RETURNED_BYTES |}.

Lemma pack_state_read p file : from_json_text (ps_age_state_json (pack_source p file)) = Ok (state_of pack_session p).
Proof.
  assert (upload_state_valid (state_of pack_session p)) as Hv; [|].
  2: { unfold from_json_text, pack_source. cbn [ps_age_state_json]. rewrite loads_dumps, ok_bind by by apply upload_payload_wf. by apply rebuild_upload_payload. }
  split_and!.
  - apply (bool_decide_unpack _). vm_compute. exact I.
  - apply (bool_decide_unpack _). vm_compute. exact I.
  - reflexivity.
  - reflexivity.
  - apply len_nonneg.
Qed.

Lemma pack_stored p : len p ≤ 2 ^ 53 → ∃ file, stored_pack (pack_store file) (PassText (str "pw")) (pack_source p file) p file pack_session.
Proof.
  intros Hp. eexists. split; [done|done|done|apply pack_state_read| |by apply encrypt_plaintext_spec|].
  - vm_compute. reflexivity.
  - intros offset size _ _ _. eexists. split; [done|]. apply app_nil_r.
Qed.

Lemma packed_files_retrieved_witness : ∃ pack file plan out, sample_plan = Ok pack ∧
  plan_pack_range_retrieval (pack_source (pack_bytes pack [[[4; 5]; [1; 2; 3]]]) file) (member_request <$> pv_members pack) pack_policy = Ok plan ∧
  read_members (pack_store file) (PassText (str "pw")) 65536 140000 plan (reverse (gp_requests plan)) = Ok out ∧ out !! str "a.txt" = Some [4; 5].
Proof.
  destruct sample_plan as [pack|e] eqn:E; [|vm_compute in E; discriminate E]. pose proof (sample_plan_valid pack E) as Hv.
  assert (Forall2 (λ u ps, Forall2 file_payload (pu_sources u) ps) (pv_units pack) [[[4; 5]; [1; 2; 3]]]) as Hp.
  { pose proof (λ u, sample_payloads pack u E) as Hu. vm_compute in E. injection E as <-. cbn [pv_units]. constructor; [|constructor]. by apply Hu. }
  assert (len (pack_bytes pack [[[4; 5]; [1; 2; 3]]]) = 4608 ∧ ∃ a b, pv_members pack = [a; b] ∧ pm_path a = str "a.txt" ∧
    Forall (λ m, span_bytes 4608 (member_request m) ≤ 70000) [a; b]) as (Hlen & a & b & Hab & Ha & Hspan).
  { vm_compute in E. injection E as <-. split; [vm_compute; reflexivity|]. eexists _, _. split; [reflexivity|]. split; [reflexivity|].
    repeat constructor; vm_compute; discriminate. }
  destruct (pack_stored (pack_bytes pack [[[4; 5]; [1; 2; 3]]]) ltac:(rewrite Hlen; discriminate)) as [file Hst].
  destruct (packed_files_retrieved (pack_store file) (PassText (str "pw")) 65536 140000 pack [[[4; 5]; [1; 2; 3]]] _ file pack_session (pv_members pack) pack_policy
    Hv Hp Hst) as (plan & Hplan & Hread).
  - eapply NoDup_fmap_1. destruct (plan_facts pack Hv) as (closed & final & _ & _ & Hnd & _). exact Hnd.
  - done.
  - cbn [ps_plaintext_bytes pack_source]. rewrite Hlen, Hab. exact Hspan.
  - discriminate.
  - destruct (Hread (reverse (gp_requests plan)) (reverse_Permutation _)) as (out & Hrun & _ & Hout). exists pack, file, plan, out.
    split; [reflexivity|]. split; [exact Hplan|]. split; [exact Hrun|]. rewrite <- Ha. apply Hout; rewrite Hab; [|by left]. left.
Defined.

(** Two files of five bytes. *)
Definition pack_member (path : pystr) (offset : Z) (content : pybytes) : PackMemberRetrievalSource :=
  {| mb_path := path; mb_bytes := len content; mb_sha256 := sha256_hex content; mb_data_offset := offset |}.

Definition example_members : list PackMemberRetrievalSource := [pack_member (str "b") 5 (str "world"); pack_member (str "a") 0 (str "hello")].

Lemma example_members_ok : Forall (λ m, new_member m = Ok m ∧ mb_data_offset m + mb_bytes m ≤ 10 ∧ span_bytes 10 m ≤ 70000) example_members.
Proof. repeat constructor; vm_compute; (reflexivity || discriminate). Qed.

Lemma example_paths : NoDup (mb_path <$> example_members).
Proof. apply (bool_decide_unpack _). vm_compute. exact I. Qed.

Lemma pack_members_verified_witness : ∃ file plan out,
  read_members (pack_store file) (PassText (str "pw")) 65536 140000 plan (gp_requests plan) = Ok out ∧
  dom out = (list_to_set (mr_path <$> gp_members plan) : gset pystr) ∧
  ∀ m, m ∈ gp_members plan → ∃ content, out !! mr_path m = Some content ∧ len content = mr_bytes m ∧ sha256_hex content = mr_sha256 m.
Proof.
  destruct (pack_stored (str "helloworld") ltac:(discriminate)) as [file Hst].
  destruct (plan_exists (pack_source (str "helloworld") file) (state_of pack_session (str "helloworld")) (sk_state _ _ _ _ _ _ Hst) eq_refl ltac:(discriminate)
    example_members pack_policy example_members_ok example_paths) as [plan Hplan].
  pose proof Hplan as (_ & _ & _ & Hsrc & _)%plan_inv.
  assert (read_members (pack_store file) (PassText (str "pw")) 65536 140000 plan (gp_requests plan) = Ok (entries (str "helloworld") (gp_members plan))) as Hread.
  { rewrite <- Hsrc in Hst, Hplan. apply (members_read _ _ _ _ (str "helloworld") file pack_session example_members pack_policy); [exact Hst|exact Hplan| |discriminate|done].
    repeat constructor; vm_compute; reflexivity. }
  exists file, plan, (entries (str "helloworld") (gp_members plan)). split; [exact Hread|].
  exact (pack_members_verified (pack_store file) (PassText (str "pw")) 65536 140000 plan (gp_requests plan) _ Hread).
Defined.

Lemma pack_requests_cover_witness : ∃ plan sorted groups,
  plan_pack_range_retrieval (pack_source (str "helloworld") []) example_members pack_policy = Ok plan ∧
  sorted ≡ₚ example_members ∧ StronglySorted (λ a b, mb_data_offset a ≤ mb_data_offset b) sorted ∧
  member_source <$> gp_members plan = sorted ∧ concat groups = filter (λ m, 0 < mb_bytes m) sorted ∧
  Forall2 (request_holds 165 10 70000) (gp_requests plan) groups ∧
  gp_remote_bytes plan = sumZ cq_ciphertext_bytes (gp_requests plan).
Proof.
  exact (pack_requests_cover (pack_source (str "helloworld") []) (state_of pack_session (str "helloworld")) example_members pack_policy
    (pack_state_read _ _) eq_refl ltac:(discriminate) example_paths example_members_ok).
Defined.

Lemma pack_member_range_exact_witness : ∃ file out,
  iter_member_range (pack_store file) (PassText (str "pw")) 65536 140000 (pack_source (str "helloworld") file) (pack_member (str "b") 5 (str "world")) pack_policy 1 3 =
    (out, Ok tt) ∧ concat out = str "orl".
Proof.
  destruct (pack_stored (str "helloworld") ltac:(discriminate)) as [file Hst].
  destruct (pack_member_range_exact (pack_store file) (PassText (str "pw")) 65536 140000 (pack_source (str "helloworld") file) (str "helloworld") file pack_session
    (pack_member (str "b") 5 (str "world")) pack_policy 1 3 Hst) as (out & Hrun & Hout);
    [vm_compute; (reflexivity || discriminate)..|]. exists file, out. split; [exact Hrun|]. rewrite Hout. reflexivity.
Defined.
End example.
