(* ===== verification/PackCheckpoint.v ===== *)
(** * Checkpoints of pack uploads

    The persistent state of [riverhog_core/pack_upload.py]: the checkpoint of one
    resumable pack-volume write, its JSON form, the merge of concurrent
    acknowledgements, and the row of
    [stores/sqlalchemy_archive_upload_checkpoints.py] that keeps it.  The progress
    of a pack checkpoint is that of a raw one: [as_raw] embeds it, and merging
    commutes with the embedding, so that what [RawCheckpoint] proves of merging
    holds here.  [CompletedPackObject] has the fields of [CompletedRawObject]. *)

From stdpp Require Import gmap.
From S2P Require Import Prelude Text Json Sha256 Paths Domain PackIngress Base64 Age ArchiveContracts RawVerification.
From S2P Require Import RawCheckpoint.

Definition PACK_UPLOAD_CHECKPOINT_SCHEMA : pystr := str "pack-upload-checkpoint/v1".

Record PackUploadCheckpoint := {
  pk_collection_id : Z;
  pk_volume_id : pystr;
  pk_object_path : pystr;
  pk_relative_path : pystr;
  pk_plan_sha256 : pystr;
  pk_plaintext_bytes : Z;
  pk_write_token : pystr;
  pk_age_state_json : pystr;
  pk_next_unit : Z;
  pk_archive_parts : list StoredArchivePart;
  pk_write_segments : list WriteSegmentReceipt;
  pk_completed : option CompletedRawObject;
}.

(** [replace(checkpoint, next_unit=..., archive_parts=..., write_segments=..., completed=...)] *)
Definition with_progress (c : PackUploadCheckpoint) (next_unit : Z) (parts : list StoredArchivePart)
    (segments : list WriteSegmentReceipt) (completed : option CompletedRawObject) : PackUploadCheckpoint :=
  {| pk_collection_id := pk_collection_id c; pk_volume_id := pk_volume_id c; pk_object_path := pk_object_path c;
     pk_relative_path := pk_relative_path c; pk_plan_sha256 := pk_plan_sha256 c;
     pk_plaintext_bytes := pk_plaintext_bytes c; pk_write_token := pk_write_token c;
     pk_age_state_json := pk_age_state_json c; pk_next_unit := next_unit; pk_archive_parts := parts;
     pk_write_segments := segments; pk_completed := completed |}.

Definition _archive_part_payload (current : StoredArchivePart) : json :=
  JObj [(str "number", JInt (sap_number current)); (str "plaintext_start", JInt (sap_plaintext_start current));
        (str "plaintext_bytes", JInt (sap_plaintext_bytes current));
        (str "plaintext_sha256", JStr (sap_plaintext_sha256 current));
        (str "stored_bytes", JInt (sap_stored_bytes current)); (str "stored_sha256", JStr (sap_stored_sha256 current))].

Definition _write_segment_payload (current : WriteSegmentReceipt) : json :=
  JObj [(str "number", JInt (wr_number current)); (str "segment_token", JStr (wr_segment_token current));
        (str "stored_bytes", JInt (wr_bytes current)); (str "stored_sha256", opt_str (wr_sha256 current))].

Definition completed_payload (completed : option CompletedRawObject) : json :=
  match completed with
  | None => JNull
  | Some c =>
      JObj [(str "revision", opt_str (cr_revision c)); (str "entity_token", opt_str (cr_entity_token c));
            (str "bytes", JInt (cr_bytes c)); (str "completed_at", JStr (cr_completed_at c));
            (str "retrieval_cache", retrieval_cache_receipt_payload (cr_retrieval_cache c))]
  end.

(** [while current in numbers: current += 1]: at most one turn per part. *)
Definition _first_missing_unit (parts : list StoredArchivePart) : Z :=
  missing_loop (length parts) (sap_number <$> parts) 1 - 1.

Definition _part_by_number (parts : list StoredArchivePart) (number : Z) : option StoredArchivePart :=
  head (filter (λ p, sap_number p = number) parts).

Definition coverage_part_step (st : Z * Z) (part : StoredArchivePart) : result (Z * Z) :=
  let '(expected_number, expected_start) := st in
  when negb (sap_number part =? expected_number) || negb (sap_plaintext_start part =? expected_start)
    raise ValueError "completed pack upload parts are not contiguous";
  Ok (expected_number + 1, expected_start + sap_plaintext_bytes part).

Definition _require_complete_plaintext_coverage (parts : list StoredArchivePart) (plaintext_bytes : Z) : result unit :=
  '(_, expected_start) ← foldM coverage_part_step (1, 0) parts;
  when negb (expected_start =? plaintext_bytes) raise ValueError "completed pack upload does not cover its plaintext";
  Ok tt.

(** ** Merging *)

Definition segment_conflict : exn :=
  Exn RuntimeError (str "pack upload checkpoint contains conflicting write segments").
Definition part_conflict : exn :=
  Exn RuntimeError (str "pack upload checkpoint contains conflicting part receipts").

Definition _merge_write_segments : list WriteSegmentReceipt → list WriteSegmentReceipt → result (list WriteSegmentReceipt) :=
  merge_by wr_number segment_conflict.

(** The static fields of a checkpoint. *)
Definition static_fields (c : PackUploadCheckpoint) : Z * pystr * pystr * pystr * pystr * Z * pystr * pystr :=
  (pk_collection_id c, pk_volume_id c, pk_object_path c, pk_relative_path c, pk_plan_sha256 c, pk_plaintext_bytes c,
   pk_write_token c, pk_age_state_json c).

Definition merge_pack_upload_checkpoints (current candidate : PackUploadCheckpoint) : result PackUploadCheckpoint :=
  when negb (bool_decide (static_fields current = static_fields candidate))
    raise ValueError "pack upload checkpoints do not describe the same resumable write";
  ordered ← merge_by sap_number part_conflict (pk_archive_parts current) (pk_archive_parts candidate);
  segments ← _merge_write_segments (pk_write_segments current) (pk_write_segments candidate);
  let completed := match pk_completed current with Some c => Some c | None => pk_completed candidate end in
  when match pk_completed current, pk_completed candidate with
       | Some c, Some d => negb (bool_decide (c = d))
       | _, _ => false
       end
    raise RuntimeError "pack upload checkpoint completion receipt changed";
  let merged := with_progress current (_first_missing_unit ordered) ordered segments completed in
  match completed with
  | None => Ok merged
  | Some c =>
      _ ← _require_complete_plaintext_coverage ordered (pk_plaintext_bytes merged);
      when negb (cr_bytes c =? sumZ sap_stored_bytes ordered)
        raise RuntimeError "completed pack checkpoint does not match its merged parts";
      Ok merged
  end.

(** ** JSON *)

Section json_form.
Context `{PyEnv}.

(** [str(value or "")] and the test are those of [raw_upload._sha]. *)
Definition _required_sha256 (value : json) (label : string) : result pystr := _sha value label.

Definition _canonical_nonnegative_int (value : json) (label : string) : result Z :=
  canonical_nonnegative_int value (str label).

Definition _canonical_positive_int (value : json) (label : string) : result Z :=
  parsed ← _canonical_nonnegative_int value label;
  when parsed <? 1 raises Exn ValueError (str label ++ str " must be positive");
  Ok parsed.

Definition checkpoint_payload (c : PackUploadCheckpoint) (age_state : json) : json :=
  let ordered_parts := sorted_byZ sap_number (pk_archive_parts c) in
  let ordered_segments := sorted_byZ wr_number (pk_write_segments c) in
  JObj [(str "schema", JStr PACK_UPLOAD_CHECKPOINT_SCHEMA); (str "collection_id", JInt (pk_collection_id c));
        (str "volume_id", JStr (pk_volume_id c)); (str "object_path", JStr (pk_object_path c));
        (str "relative_path", JStr (pk_relative_path c)); (str "plan_sha256", JStr (pk_plan_sha256 c));
        (str "plaintext_bytes", JInt (pk_plaintext_bytes c)); (str "write_token", JStr (pk_write_token c));
        (str "age_state", age_state); (str "next_unit", JInt (pk_next_unit c));
        (str "archive_parts", JList (_archive_part_payload <$> ordered_parts));
        (str "write_segments", JList (_write_segment_payload <$> ordered_segments));
        (str "completed", completed_payload (pk_completed c))].

Definition to_json (c : PackUploadCheckpoint) : result pystr :=
  age_state ← loads (pk_age_state_json c);
  content ← canonical_json_bytes (checkpoint_payload c age_state);
  utf8_decode content.

Definition checkpoint_fields : list string :=
  ["schema"; "collection_id"; "volume_id"; "object_path"; "relative_path"; "plan_sha256"; "plaintext_bytes";
   "write_token"; "age_state"; "next_unit"; "archive_parts"; "write_segments"; "completed"].

(** One turn of the loop of [_parts_from_payload]. *)
Definition part_payload_step (st : list StoredArchivePart * Z * Z) (raw : json) : result (list StoredArchivePart * Z * Z) :=
  let '(parts, previous_number, previous_end) := st in
  match raw with
  | JObj o =>
      number ← _canonical_nonnegative_int (get_or_null "number" o) "part number";
      plaintext_start ← _canonical_nonnegative_int (get_or_null "plaintext_start" o) "part plaintext start";
      plaintext_bytes ← _canonical_nonnegative_int (get_or_null "plaintext_bytes" o) "part plaintext bytes";
      plaintext_sha256 ← _required_sha256 (get_or_null "plaintext_sha256" o) "part";
      stored_bytes ← _canonical_nonnegative_int (get_or_null "stored_bytes" o) "part stored bytes";
      stored_sha256 ← _required_sha256 (get_or_null "stored_sha256" o) "stored part";
      when (number <=? previous_number) || (plaintext_start <? previous_end) || (plaintext_bytes <=? 0) || (stored_bytes <=? 0)
        raise ValueError "pack upload checkpoint part order is invalid";
      Ok (parts ++ [{| sap_number := number; sap_plaintext_start := plaintext_start;
                       sap_plaintext_bytes := plaintext_bytes; sap_plaintext_sha256 := plaintext_sha256;
                       sap_stored_bytes := stored_bytes; sap_stored_sha256 := stored_sha256 |}],
          number, plaintext_start + plaintext_bytes)
  | _ => Err (Exn ValueError (str "pack upload checkpoint part must be a mapping"))
  end.

Definition _parts_from_payload (raw_parts : list json) : result (list StoredArchivePart) :=
  '(parts, _, _) ← foldM part_payload_step ([], 0, 0) raw_parts; Ok parts.

Definition segment_from_payload (raw : json) : result WriteSegmentReceipt :=
  match raw with
  | JObj o =>
      number ← _canonical_positive_int (get_or_null "number" o) "segment number";
      let segment_token := get_text "segment_token" o in
      bytes ← _canonical_positive_int (get_or_null "stored_bytes" o) "segment bytes";
      sha256 ← match get_or_null "stored_sha256" o with
               | JNull => Ok None
               | v => s ← _required_sha256 v "segment"; Ok (Some s)
               end;
      when bool_decide (segment_token = []) raise ValueError "pack upload checkpoint write-segment token is invalid";
      Ok {| wr_number := number; wr_segment_token := segment_token; wr_bytes := bytes; wr_sha256 := sha256 |}
  | _ => Err (Exn ValueError (str "pack upload checkpoint write segment must be a mapping"))
  end.

Definition _segments_from_payload (raw_segments : list json) : result (list WriteSegmentReceipt) :=
  segments ← mapM_result segment_from_payload raw_segments;
  let ordered := sorted_byZ wr_number segments in
  when negb (bool_decide (NoDup (wr_number <$> ordered)))
    raise ValueError "pack upload checkpoint write segment numbers are duplicated";
  Ok ordered.

Definition _completed_from_payload (value : json) : result (option CompletedRawObject) :=
  match value with
  | JNull => Ok None
  | JObj o =>
      byte_count ← _canonical_nonnegative_int (get_or_null "bytes" o) "completed bytes";
      let completed_at := get_text "completed_at" o in
      when (byte_count <=? 0) || bool_decide (completed_at = [])
        raise ValueError "pack upload checkpoint completion receipt is invalid";
      retrieval_cache ← parse_retrieval_cache_receipt (get_or_null "retrieval_cache" o);
      Ok (Some {| cr_revision := text_or_none (get_or_null "revision" o);
                  cr_entity_token := text_or_none (get_or_null "entity_token" o); cr_bytes := byte_count;
                  cr_completed_at := completed_at; cr_retrieval_cache := retrieval_cache |})
  | _ => Err (Exn ValueError (str "pack upload checkpoint completion is invalid"))
  end.

Definition check_completed (completed : option CompletedRawObject) (parts : list StoredArchivePart)
    (segments : list WriteSegmentReceipt) (plaintext_bytes : Z) : result unit :=
  match completed with
  | None => Ok tt
  | Some c =>
      _ ← _require_complete_plaintext_coverage parts plaintext_bytes;
      when negb (cr_bytes c =? sumZ sap_stored_bytes parts)
        raise ValueError "completed pack upload checkpoint stored byte count mismatch";
      when negb (cr_bytes c =? sumZ wr_bytes segments)
        raise ValueError "completed pack write-segment byte count mismatch";
      Ok tt
  end.

(** [from_json] after [json.loads]. *)
Definition checkpoint_of_payload (payload : json) : result PackUploadCheckpoint :=
  match payload with
  | JObj o =>
      when negb (is_str (get_or_null "schema" o) PACK_UPLOAD_CHECKPOINT_SCHEMA)
        raise ValueError "pack upload checkpoint schema mismatch";
      when negb (keys_are o checkpoint_fields) raise ValueError "pack upload checkpoint fields are invalid";
      match get_or_null "age_state" o, get_or_null "archive_parts" o, get_or_null "write_segments" o with
      | JObj age_state, JList raw_parts, JList raw_segments =>
          content ← canonical_json_bytes (JObj age_state);
          age_state_json ← utf8_decode content;
          age_upload_state ← from_json_text age_state_json;
          parts ← _parts_from_payload raw_parts;
          segments ← _segments_from_payload raw_segments;
          next_unit ← _canonical_nonnegative_int (get_or_null "next_unit" o) "next unit";
          when negb (next_unit =? _first_missing_unit parts)
            raise ValueError "pack upload checkpoint next unit does not match its parts";
          plaintext_bytes ← _canonical_nonnegative_int (get_or_null "plaintext_bytes" o) "plaintext bytes";
          completed ← _completed_from_payload (get_or_null "completed" o);
          _ ← check_completed completed parts segments plaintext_bytes;
          when negb (bool_decide (us_plaintext_size age_upload_state = Some plaintext_bytes))
            raise ValueError "pack upload age state plaintext size mismatch";
          let volume_id := get_text "volume_id" o in
          let object_path := get_text "object_path" o in
          let write_token := get_text "write_token" o in
          when negb (pack_volume_id_fullmatch volume_id) raise ValueError "pack upload checkpoint volume id is invalid";
          when bool_decide (object_path = []) || bool_decide (write_token = [])
            raise ValueError "pack upload checkpoint storage identity is invalid";
          collection_id ← _canonical_positive_int (get_or_null "collection_id" o) "collection id";
          relative_path ← normalize_relpath (get_text "relative_path" o);
          plan_sha256 ← _required_sha256 (get_or_null "plan_sha256" o) "plan";
          Ok {| pk_collection_id := collection_id; pk_volume_id := volume_id; pk_object_path := object_path;
                pk_relative_path := relative_path; pk_plan_sha256 := plan_sha256;
                pk_plaintext_bytes := plaintext_bytes; pk_write_token := write_token;
                pk_age_state_json := age_state_json; pk_next_unit := next_unit; pk_archive_parts := parts;
                pk_write_segments := segments; pk_completed := completed |}
      | _, _, _ => Err (Exn ValueError (str "pack upload checkpoint structure is invalid"))
      end
  | _ => Err (Exn ValueError (str "pack upload checkpoint schema mismatch"))
  end.

Definition from_json (content : pystr) : result PackUploadCheckpoint :=
  payload ← try_except (loads content) (λ k, bool_decide (k = JSONDecodeError))
              (λ _, Err (Exn ValueError (str "pack upload checkpoint is not valid JSON")));
  checkpoint_of_payload payload.
End json_form.

(** ** The row that keeps a checkpoint *)

Section store.
Context `{PyEnv}.

Definition load_pack_upload_checkpoint (row : option UploadRow) : option pystr :=
  match row with
  | Some r => if bool_decide (ur_kind r = str "pack") then ur_checkpoint_json r else None
  | None => None
  end.

(** [parse(record.checkpoint_json) if record.checkpoint_json else None] *)
Definition row_checkpoint (r : UploadRow) : result (option PackUploadCheckpoint) :=
  match ur_checkpoint_json r with
  | Some ((_ :: _) as text) => c ← from_json text; Ok (Some c)
  | _ => Ok None
  end.

(** The plaintext bytes in the parts of a checkpoint. *)
Definition payload_bytes (c : PackUploadCheckpoint) : Z := sumZ sap_plaintext_bytes (pk_archive_parts c).

(** [_merge] in one transaction: a raised exception rolls it back. *)
Definition merge_pack_upload_checkpoint (row : option UploadRow) (volume_id checkpoint_json : pystr) :
    result (pystr * UploadRow) :=
  incoming ← from_json checkpoint_json;
  let not_found := Exn LookupError (str "archive upload volume not found: " ++ volume_id) in
  match row with
  | Some r =>
      when negb (bool_decide (ur_kind r = str "pack")) raises not_found;
      previous ← row_checkpoint r;
      merged ← merge_pack_upload_checkpoints (default incoming previous) incoming;
      let previous_payload_bytes := from_option payload_bytes 0 previous in
      let merged_payload_bytes := payload_bytes merged in
      encoded ← to_json merged;
      Ok (encoded,
          {| ur_kind := ur_kind r; ur_checkpoint_json := Some encoded;
             ur_uploaded_bytes := sumZ sap_stored_bytes (pk_archive_parts merged);
             ur_uploaded_units := len (pk_archive_parts merged);
             ur_state := if pk_completed merged then str "sealed" else str "uploading";
             ur_payload_bytes := (λ n, n + (merged_payload_bytes - previous_payload_bytes)) <$> ur_payload_bytes r |})
  | None => Err not_found
  end.

Definition delete_pack_upload_checkpoint (row : option UploadRow) : option UploadRow :=
  match row with
  | Some r =>
      if bool_decide (ur_kind r = str "pack")
      then Some {| ur_kind := ur_kind r; ur_checkpoint_json := None; ur_uploaded_bytes := 0; ur_uploaded_units := 0;
                   ur_state := str "planned"; ur_payload_bytes := ur_payload_bytes r |}
      else Some r
  | None => None
  end.
End store.

(** ** Progress as in raw checkpoints *)

(** Results that agree on what is returned, not on the text of errors. *)
Definition agree {A} (r r' : result A) : Prop := ∀ a, r = Ok a ↔ r' = Ok a.

Lemma foldM_agree {A S} (f g : S → A → result S) l s : (∀ s x, agree (f s x) (g s x)) → agree (foldM f s l) (foldM g s l).
Proof.
  intros Hfg. revert s. induction l as [|x l IH]; intros s r; [done|]. cbn [foldM]. pose proof (Hfg s x) as Hx.
  destruct (f s x) as [s1|e] eqn:Hf.
  - rewrite (proj1 (Hx s1) eq_refl), !ok_bind. apply IH.
  - destruct (g s x) as [s1|e']; [by specialize (proj2 (Hx s1) eq_refl)|done].
Qed.

Lemma merge_by_agree {A} `{EqDecision A} (key : A → Z) x y c d : agree (merge_by key x c d) (merge_by key y c d).
Proof.
  intros r. unfold merge_by. assert (agree (foldM (merge_step key x) (by_number key c) d) (foldM (merge_step key y) (by_number key c) d)) as Hm.
  { apply foldM_agree. intros m z e. unfold merge_step. by destruct (match m !! key z with Some _ => _ | None => _ end). }
  destruct (foldM (merge_step key x) _ d) as [m|e] eqn:Hf.
  - by rewrite (proj1 (Hm m) eq_refl).
  - destruct (foldM (merge_step key y) _ d) as [m|]; [by specialize (proj2 (Hm m) eq_refl)|done].
Qed.

Lemma coverage_agree parts n : agree (_require_complete_plaintext_coverage parts n) (_require_complete_coverage parts n).
Proof.
  intros r. unfold _require_complete_plaintext_coverage, _require_complete_coverage.
  assert (agree (foldM coverage_part_step (1, 0) parts) (foldM RawCheckpoint.coverage_part_step (1, 0) parts)) as Hc.
  { apply foldM_agree. intros [a b] part e. unfold coverage_part_step, RawCheckpoint.coverage_part_step. by destruct (_ || _). }
  destruct (foldM coverage_part_step _ parts) as [[a b]|e] eqn:Hf.
  - rewrite (proj1 (Hc (a, b)) eq_refl), !ok_bind. by destruct (negb _).
  - destruct (foldM RawCheckpoint.coverage_part_step _ parts) as [m|]; [by specialize (proj2 (Hc m) eq_refl)|done].
Qed.

(** The raw checkpoint with the same progress and identity. *)
Definition as_raw (c : PackUploadCheckpoint) : RawUploadCheckpoint :=
  {| rk_collection_id := pk_collection_id c; rk_volume_id := pk_volume_id c; rk_object_path := pk_object_path c;
     rk_relative_path := pk_relative_path c; rk_source_path := []; rk_file_offset := 0;
     rk_plaintext_bytes := pk_plaintext_bytes c; rk_file_bytes := pk_plaintext_bytes c;
     rk_file_sha256 := pk_plan_sha256 c; rk_target_part_plaintext_bytes := 0; rk_expected_part_sha256s := [];
     rk_write_token := pk_write_token c; rk_age_state_json := pk_age_state_json c; rk_next_part := pk_next_unit c;
     rk_archive_parts := pk_archive_parts c; rk_write_segments := pk_write_segments c; rk_completed := pk_completed c |}.

#[export] Instance as_raw_inj : Inj (=) (=) as_raw.
Proof. intros [] [] [= ]. by subst. Qed.

Lemma static_as_raw c d : RawCheckpoint.static_fields (as_raw c) = RawCheckpoint.static_fields (as_raw d) ↔ static_fields c = static_fields d.
Proof. destruct c, d. unfold as_raw, RawCheckpoint.static_fields, static_fields. cbn. split; intros [= ]; by subst. Qed.

(** Merging commutes with the embedding. *)
Lemma merge_as_raw c d e : merge_pack_upload_checkpoints c d = Ok e ↔ merge_raw_upload_checkpoints (as_raw c) (as_raw d) = Ok (as_raw e).
Proof.
  unfold merge_pack_upload_checkpoints, merge_raw_upload_checkpoints. rewrite (bool_decide_ext _ _ (static_as_raw c d)).
  destruct (negb (bool_decide (static_fields c = static_fields d))); [done|]. cbn [as_raw rk_archive_parts rk_write_segments rk_completed].
  pose proof (merge_by_agree sap_number part_conflict RawCheckpoint.part_conflict (pk_archive_parts c) (pk_archive_parts d)) as Hp.
  destruct (merge_by sap_number part_conflict _ _) as [ordered|x] eqn:Ho.
  2: { destruct (merge_by sap_number RawCheckpoint.part_conflict _ _) as [o|]; [by specialize (proj2 (Hp o) eq_refl)|done]. }
  rewrite (proj1 (Hp ordered) eq_refl), !ok_bind. unfold _merge_write_segments, RawCheckpoint._merge_write_segments.
  pose proof (merge_by_agree wr_number segment_conflict RawCheckpoint.segment_conflict (pk_write_segments c) (pk_write_segments d)) as Hs.
  destruct (merge_by wr_number segment_conflict _ _) as [segments|x] eqn:Hsg.
  2: { destruct (merge_by wr_number RawCheckpoint.segment_conflict _ _) as [o|]; [by specialize (proj2 (Hs o) eq_refl)|done]. }
  rewrite (proj1 (Hs segments) eq_refl), !ok_bind. cbv zeta.
  destruct (match pk_completed c with Some _ => match pk_completed d with Some _ => _ | None => _ end | None => _ end); [done|].
  set (k := match pk_completed c with Some _ => _ | None => _ end).
  assert (∀ x, Ok (with_progress c (_first_missing_unit ordered) ordered segments x) = Ok e ↔
    Ok (RawCheckpoint.with_progress (as_raw c) (_first_missing_part ordered) ordered segments x) = Ok (as_raw e)) as Hw.
  { intros x. change (RawCheckpoint.with_progress _ _ _ _ _) with (as_raw (with_progress c (_first_missing_unit ordered) ordered segments x)).
    split; [by intros [= ->]|]. intros He. f_equal. apply (inj as_raw). congruence. }
  destruct k as [k|]; [|apply Hw]. pose proof (coverage_agree ordered (pk_plaintext_bytes c) tt) as Hc.
  cbn [pk_plaintext_bytes with_progress rk_plaintext_bytes RawCheckpoint.with_progress as_raw].
  destruct (_require_complete_plaintext_coverage _ _) as [[]|x].
  - rewrite (proj1 Hc eq_refl), !ok_bind. destruct (negb _); [done|]. apply Hw.
  - destruct (_require_complete_coverage _ _) as [[]|]; [by specialize (proj2 Hc eq_refl)|done].
Qed.

(** What a merge of raw checkpoints returns is a pack checkpoint again. *)
Lemma merged_as_raw c d x : merge_raw_upload_checkpoints (as_raw c) (as_raw d) = Ok x → ∃ e, x = as_raw e.
Proof.
  unfold merge_raw_upload_checkpoints. intros Hm. inv_step Hm. apply bind_Ok in Hm as (ordered & _ & Hm).
  apply bind_Ok in Hm as (segments & _ & Hm). cbv zeta in Hm. inv_step Hm.
  exists (with_progress c (_first_missing_part ordered) ordered segments (or_else (pk_completed c) (pk_completed d))).
  fold (or_else (rk_completed (as_raw c)) (rk_completed (as_raw d))) in Hm. cbn [as_raw rk_completed] in Hm.
  destruct (or_else (pk_completed c) (pk_completed d)) as [k|]; [|by injection Hm as <-].
  apply bind_Ok in Hm as ([] & _ & Hm). inv_step Hm. by injection Hm as <-.
Qed.

(** ** Acknowledgements in any order *)

Lemma merges_as_raw c cs r : foldM merge_pack_upload_checkpoints c cs = Ok r ↔
  foldM merge_raw_upload_checkpoints (as_raw c) (as_raw <$> cs) = Ok (as_raw r).
Proof.
  revert c. induction cs as [|d cs IH]; intros c.
  - cbn. split; [by intros [= ->]|]. intros He. f_equal. apply (inj as_raw). congruence.
  - rewrite fmap_cons. cbn [foldM]. split; intros Hm; apply bind_Ok in Hm as (e & He & Hm).
    + rewrite (proj1 (merge_as_raw c d e) He), ok_bind. by apply IH.
    + destruct (merged_as_raw _ _ _ He) as (e' & ->). rewrite (proj2 (merge_as_raw c d e') He), ok_bind. by apply IH.
Qed.

(** The order in which acknowledgements of pack units are merged does not matter:
    if one order is accepted then every order is, with the same result, which
    knows everything that was acknowledged. *)
Theorem pack_acknowledgements_converge c cs r : progress_valid (as_raw c) → Forall (λ d, progress_valid (as_raw d)) cs →
  foldM merge_pack_upload_checkpoints c cs = Ok r →
  progress_valid (as_raw r) ∧ Forall (λ d, below (as_raw d) (as_raw r)) (c :: cs) ∧
  ∀ cs', cs ≡ₚ cs' → foldM merge_pack_upload_checkpoints c cs' = Ok r.
Proof.
  intros Hc Hcs Hf%merges_as_raw. assert (Forall progress_valid (as_raw <$> cs)) as Hcs' by by apply Forall_fmap.
  split_and!; [by eapply merges_fold_valid| |].
  - pose proof (merge_fold_below _ _ _ Hc Hcs' Hf) as Hb. by rewrite <- fmap_cons, Forall_fmap in Hb.
  - intros cs' Hp. apply merges_as_raw. by apply (merge_fold_perm (as_raw c) (as_raw <$> cs)); [rewrite Hp|..].
Qed.

(** ** The JSON form is read back *)

Section pack_roundtrip.
Context `{PyEnv}.

(** What the uploader writes. *)
Record pack_valid (c : PackUploadCheckpoint) : Prop := {
  qv_progress : progress_valid (as_raw c);
  qv_collection : 1 ≤ pk_collection_id c;
  qv_volume : pack_volume_id_fullmatch (pk_volume_id c) = true;
  qv_object : pk_object_path c ≠ [] ∧ text_ok (pk_object_path c);
  qv_relative : normalize_relpath (pk_relative_path c) = Ok (pk_relative_path c) ∧ text_ok (pk_relative_path c);
  qv_plan : sha256_fullmatch (pk_plan_sha256 c) = true;
  qv_bytes : 0 ≤ pk_plaintext_bytes c;
  qv_token : pk_write_token c ≠ [] ∧ text_ok (pk_write_token c);
  qv_age : ∃ state, upload_state_valid state ∧ us_plaintext_size state = Some (pk_plaintext_bytes c) ∧
           pk_age_state_json c = dumps false (upload_state_payload state);
  qv_parts : parts_in_order 0 0 (pk_archive_parts c);
  qv_nonempty : Forall (λ p, 1 ≤ sap_plaintext_bytes p) (pk_archive_parts c);
  qv_segments : Forall segment_valid (pk_write_segments c);
  qv_completed : from_option (λ k, completed_valid k ∧ cr_bytes k = sumZ wr_bytes (pk_write_segments c)) True
                   (pk_completed c);
}.

Lemma nonnegative_ok z label : 0 ≤ z → _canonical_nonnegative_int (JInt z) label = Ok z.
Proof. apply canonical_int_ok. Qed.

Lemma positive_int_ok z label : 1 ≤ z → _canonical_positive_int (JInt z) label = Ok z.
Proof.
  intros Hz. unfold _canonical_positive_int. rewrite nonnegative_ok, ok_bind by lia. by rewrite (proj2 (Z.ltb_ge z 1)).
Qed.

Lemma required_sha_ok s label : sha256_fullmatch s = true → _required_sha256 (JStr s) label = Ok s.
Proof. apply sha_ok. Qed.

(** Run the readers of fields of known shape. *)
Ltac read_pack :=
  repeat first [ rewrite nonnegative_ok by lia | rewrite positive_int_ok by lia | rewrite required_sha_ok by assumption | rewrite ok_bind ].

Lemma pack_parts_read parts acc n e : 0 ≤ n → 0 ≤ e → parts_in_order n e parts → Forall (λ p, 1 ≤ sap_plaintext_bytes p) parts →
  ∃ n' e', foldM part_payload_step (acc, n, e) (map canon (_archive_part_payload <$> parts)) = Ok (acc ++ parts, n', e').
Proof.
  revert acc n e. induction parts as [|p parts IH]; intros acc n e Hn He Hp Hpos; [exists n, e; by rewrite app_nil_r|].
  destruct Hp as (Hnum & Hstart & Hbytes & Hstored & Hs1 & Hs2 & Hp). apply Forall_cons in Hpos as [Hone Hpos].
  rewrite fmap_cons. cbn [map foldM].
  destruct (IH (acc ++ [p]) (sap_number p) (sap_plaintext_start p + sap_plaintext_bytes p)) as (n' & e' & Hf); [lia|lia|done|done|].
  exists n', e'. change (_archive_part_payload p) with (_part_identity p). rewrite part_identity_canon.
  assert (∀ o, part_payload_step (acc, n, e) o = Ok (acc ++ [p], sap_number p, sap_plaintext_start p + sap_plaintext_bytes p) →
    (st ← part_payload_step (acc, n, e) o; foldM part_payload_step st (map canon (_archive_part_payload <$> parts))) =
    Ok (acc ++ p :: parts, n', e')) as Hgo by (intros o ->; by rewrite ok_bind, Hf, <- app_assoc).
  apply Hgo. unfold part_payload_step, get_or_null. dict_simpl. cbn [from_option id]. read_pack.
  rewrite (proj2 (Z.leb_gt (sap_number p) n)), (proj2 (Z.ltb_ge (sap_plaintext_start p) e)),
    (proj2 (Z.leb_gt (sap_plaintext_bytes p) 0)), (proj2 (Z.leb_gt (sap_stored_bytes p) 0)) by lia. cbn [orb]. by destruct p.
Qed.

Lemma pack_segments_read segments : increasing wr_number segments → Forall segment_valid segments →
  _segments_from_payload (map canon (_write_segment_payload <$> segments)) = Ok segments.
Proof.
  intros Hi Hv. unfold _segments_from_payload. rewrite map_canon_fix by apply segment_payload_canon.
  assert (mapM_result segment_from_payload (_write_segment_payload <$> segments) = Ok segments) as ->.
  { clear Hi. induction Hv as [|s segments (Hn & Hb & Ht & _ & Hs) Hv IH]; [done|]. rewrite fmap_cons. cbn [mapM_result].
    assert (segment_from_payload (_write_segment_payload s) = Ok s) as ->; [|by rewrite ok_bind, IH].
    unfold segment_from_payload, _write_segment_payload, get_or_null, get_text. dict_simpl. cbn [from_option id py_str]. read_pack.
    assert (match opt_str (wr_sha256 s) with JNull => Ok None | v => h ← _required_sha256 v "segment"; Ok (Some h) end =
      Ok (wr_sha256 s)) as -> by (destruct (wr_sha256 s) as [h|]; cbn [opt_str from_option]; [by rewrite required_sha_ok|done]).
    rewrite ok_bind, bool_decide_false by done. by destruct s. }
  rewrite ok_bind. cbv zeta. rewrite (sorted_byZ_id _ _ Hi), bool_decide_true by by apply increasing_nodup. done.
Qed.

Lemma pack_completed_read o : from_option completed_valid True o → _completed_from_payload (canon (completed_payload o)) = Ok o.
Proof.
  destruct o as [k|]; [|done]. intros (_ & _ & Hb & (Ha & _) & Hc). change (completed_payload (Some k)) with (RawCheckpoint.completed_payload (Some k)).
  rewrite completed_payload_canon. unfold _completed_from_payload, get_text, get_or_null. dict_simpl. cbn [from_option id py_str].
  rewrite nonnegative_ok, ok_bind by lia. cbv zeta. rewrite (proj2 (Z.leb_gt _ _)), bool_decide_false by (done || lia). cbn [orb].
  rewrite cache_payload_read, ok_bind, !opt_str_read by done. by destruct k.
Qed.

Lemma pack_id_text s : pack_volume_id_fullmatch s = true → text_ok s.
Proof.
  intros [Hst Hm]%andb_true_iff. rewrite <- (take_drop 5 s). apply Forall_app. split; [|by apply sha256_fullmatch_text].
  assert (take 5 s = str "pack-") as ->; [|apply str_text]. by apply startswith_take in Hst.
Qed.

Lemma pack_checkpoint_payload_wf c state : pack_valid c → upload_state_valid state →
  json_wf (checkpoint_payload c (upload_state_payload state)).
Proof.
  intros [Hg _ Hvol Hobj Hrel Hplan _ Htok _ Hparts _ Hsegs Hcomp] Hs. unfold checkpoint_payload. cbv zeta.
  pose proof (pg_parts _ Hg) as Hip. pose proof (pg_segments _ Hg) as Hisg. cbn [as_raw rk_archive_parts rk_write_segments] in Hip, Hisg.
  rewrite (sorted_byZ_id _ _ Hip), (sorted_byZ_id _ _ Hisg).
  pose proof (pack_id_text _ Hvol) as Ht.
  wf_obj; try done; try (by apply Hobj); try (by apply Hrel); try (by apply Htok).
  - by apply sha256_fullmatch_text.
  - by apply upload_payload_wf.
  - apply json_wf_list, Forall_fmap. by eapply parts_order_digests.
  - apply json_wf_list, Forall_fmap. eapply Forall_impl; [exact Hsegs|]. apply segment_payload_wf.
  - apply completed_payload_wf. destruct (pk_completed c); [apply Hcomp|done].
Qed.

Lemma pack_completed_ok c : pack_valid c →
  check_completed (pk_completed c) (pk_archive_parts c) (pk_write_segments c) (pk_plaintext_bytes c) = Ok tt.
Proof.
  intros Hc. pose proof (pg_completed _ (qv_progress _ Hc)) as Hdone. pose proof (qv_completed _ Hc) as Hk.
  unfold check_completed, completed_ok in *. cbn [as_raw rk_completed rk_archive_parts rk_plaintext_bytes] in Hdone.
  destruct (pk_completed c) as [k|]; [|done]. destruct Hdone as [Hcov Hb], Hk as [_ Hs].
  rewrite (proj2 (coverage_agree _ _ tt) Hcov), ok_bind, <- Hb, <- Hs, !Z.eqb_refl. done.
Qed.

Lemma pack_checkpoint_law c state : pack_valid c → upload_state_valid state →
  us_plaintext_size state = Some (pk_plaintext_bytes c) → pk_age_state_json c = dumps false (upload_state_payload state) →
  checkpoint_of_payload (canon (checkpoint_payload c (upload_state_payload state))) = Ok c.
Proof.
  intros Hc Hs Hsize Hage. destruct (age_text_read state Hs) as (content & Hcontent & Hdec & Hread).
  pose proof (pack_completed_ok c Hc) as Hcheck.
  destruct Hc as [Hg Hcol Hvol [Hobj _] [Hrel _] Hplan Hpl [Htok _] _ Hparts Hpos Hsegs Hcomp].
  pose proof (pg_next _ Hg) as Hnext. pose proof (first_missing_spec _ _ (eq_sym Hnext)) as [Hn0 _].
  pose proof (pg_parts _ Hg) as Hip. pose proof (pg_segments _ Hg) as Hisg.
  cbn [as_raw rk_archive_parts rk_write_segments rk_next_part] in Hnext, Hn0, Hip, Hisg.
  unfold checkpoint_payload. cbv zeta. rewrite (sorted_byZ_id _ _ Hip), (sorted_byZ_id _ _ Hisg).
  rewrite canon_obj. unfold checkpoint_of_payload, get_or_null, get_text.
  rewrite (keys_are_perm _ _ _ (keys_canon _)), keys_are_intro by done. cbn [negb].
  rewrite !dict_get_canon by solve_keys. dict_simpl. cbn [fmap option_fmap option_map from_option id].
  rewrite upload_payload_canon, pack_completed_read by (destruct (pk_completed c); [apply Hcomp|done]).
  cbn [canon py_str]. unfold is_str. rewrite bool_decide_true by done. cbn [negb].
  assert (∃ age, upload_state_payload state = JObj age) as [age Hj] by by eexists.
  rewrite Hj in *. rewrite Hcontent, ok_bind, Hdec, ok_bind, Hread, ok_bind. unfold _parts_from_payload.
  destruct (pack_parts_read (pk_archive_parts c) [] 0 0 ltac:(lia) ltac:(lia) Hparts Hpos) as (n' & e' & Hread').
  rewrite Hread', ok_bind. cbn [app]. rewrite ok_bind, pack_segments_read by done. read_pack.
  change (_first_missing_unit (pk_archive_parts c)) with (_first_missing_part (pk_archive_parts c)).
  rewrite <- Hnext, Z.eqb_refl. cbn [negb]. read_pack. rewrite Hcheck. read_pack.
  rewrite Hsize, bool_decide_true, Hvol by done. cbn [negb]. rewrite !bool_decide_false by done. cbn [orb]. read_pack.
  rewrite Hrel. read_pack. rewrite <- Hage. by destruct c.
Qed.

Lemma pack_checkpoint_text c : pack_valid c → ∃ text, to_json c = Ok text ∧ from_json text = Ok c.
Proof.
  intros Hc. destruct (qv_age _ Hc) as (state & Hs & Hsize & Hage).
  pose proof (pack_checkpoint_payload_wf c state Hc Hs) as Hwf. pose proof (dumps_text false _ Hwf) as Ht.
  destruct (utf8_encode_ok _ Ht) as [content Henc]. unfold to_json. rewrite Hage, loads_dumps, ok_bind, upload_payload_canon by by apply upload_payload_wf.
  unfold canonical_json_bytes. rewrite Henc, ok_bind, (utf8_roundtrip _ _ (Forall_impl _ _ _ Ht (λ c Hc, proj1 Hc)) Henc).
  eexists. split; [done|]. unfold from_json. rewrite loads_dumps by done. cbn [try_except]. rewrite ok_bind.
  by apply pack_checkpoint_law.
Qed.

(** A merge into the row. *)
Lemma pack_merge_row r volume_id text encoded r' : merge_pack_upload_checkpoint (Some r) volume_id text = Ok (encoded, r') →
  ∃ previous incoming merged,
    row_checkpoint r = Ok previous ∧ from_json text = Ok incoming ∧
    merge_pack_upload_checkpoints (default incoming previous) incoming = Ok merged ∧
    to_json merged = Ok encoded ∧ ur_checkpoint_json r' = Some encoded.
Proof.
  unfold merge_pack_upload_checkpoint. intros Hm. apply bind_Ok in Hm as (incoming & Hi & Hm). cbv zeta in Hm. inv_step Hm.
  apply bind_Ok in Hm as (previous & Hp & Hm). apply bind_Ok in Hm as (merged & Hmerge & Hm). cbv zeta in Hm.
  apply bind_Ok in Hm as (text' & Ht & Hm). injection Hm as <- <-. by exists previous, incoming, merged.
Qed.
End pack_roundtrip.
