(* ===== verification/PackUpload.v ===== *)
(** * Uploading a pack volume

    [PackVolumeUploader] of [riverhog_core/pack_upload.py]: opening or resuming a
    write, rendering and uploading units in any order and from any number of
    callers, sealing, aborting.  The object store, the world and the effects are
    those of [RawUpload]; gates, budget, timings and session cache are treated as
    there.  The operations keep their names, so that a file that uses both
    uploaders qualifies them. *)

From stdpp Require Import gmap.
From S2P Require Import Prelude Text Json WriteSegments Sha256 Paths Domain PackIngress Tar PackVolume PackRender Crypto Base64.
From S2P Require Import Age AgeUnits AgeRange StreamingAge ArchiveContracts RawVerification RawCheckpoint.
From S2P Require Import RawUpload PackCheckpoint.

Definition PACK_VOLUME_CONTENT_TYPE : pystr := str "application/vnd.riverhog.pack+age".
Definition PACK_VOLUME_STORAGE_FORMAT : pystr := str "riverhog-pack-volume/v1".

(** ** The checkpoint store *)

Section rows.
Context `{PyEnv} `{ObjectStore}.

Definition load_checkpoint : effect (option pystr) := λ w, (Ok (load_pack_upload_checkpoint (w_row w)), w).

Definition merge_checkpoint (volume_id checkpoint_json : pystr) : effect pystr := λ w,
  match merge_pack_upload_checkpoint (w_row w) volume_id checkpoint_json with
  | Ok (encoded, row) => (Ok encoded, {| w_store := w_store w; w_row := Some row |})
  | Err e => (Err e, w)
  end.

Definition delete_checkpoint : effect unit := λ w,
  (Ok tt, {| w_store := w_store w; w_row := delete_pack_upload_checkpoint (w_row w) |}).
End rows.

(** ** The uploader *)

Section uploader.
Context `{PyEnv} `{Aead} `{ObjectStore}.
Context (passphrase : pystr) (scrypt_log_n source_read_chunk_bytes max_inflight_bytes : Z).

Definition _object_metadata (plan : PackVolumePlan) (age_state_json : option pystr) : result metadata :=
  let base := [(str "riverhog-format", PACK_VOLUME_STORAGE_FORMAT);
               (str "riverhog-plan-sha256", pv_plan_sha256 plan);
               (str "riverhog-plaintext-bytes", str_of_Z (pv_plaintext_bytes plan));
               (str "riverhog-index-sha256", pv_index_sha256 plan)] in
  match age_state_json with
  | None => Ok base
  | Some text =>
      state ← from_json_text text;
      content ← to_json_bytes state;
      Ok (base ++ [(str "riverhog-age-state-sha256", sha256_hex content)])
  end.

Definition _stored_archive_part (unit : PackUploadUnitPlan) (prepared : PreparedAgePart) : StoredArchivePart :=
  {| sap_number := pp_unit_number prepared; sap_plaintext_start := pu_plaintext_start unit;
     sap_plaintext_bytes := pp_plaintext_bytes prepared; sap_plaintext_sha256 := pp_plaintext_sha256 prepared;
     sap_stored_bytes := stored_bytes prepared; sap_stored_sha256 := pp_stored_sha256 prepared |}.

Definition _stored_bytes_for_state (value : pystr) : result Z :=
  state ← from_json_text value;
  match us_plaintext_size state with
  | None => Err (Exn ValueError (str "pack upload plaintext size is missing"))
  | Some n => age_ciphertext_len_for_plaintext_len n (len (us_header state) + len (us_payload_nonce state))
  end.

(** [WriteSession(object_path, write_token, _stored_bytes_for_state(age_state_json))] *)
Definition write_session (c : PackUploadCheckpoint) : result WriteSession :=
  expected ← _stored_bytes_for_state (pk_age_state_json c);
  Ok {| wn_object_path := pk_object_path c; wn_write_token := pk_write_token c; wn_expected_bytes := expected |}.

Definition _age_part_plan (session : ResumableAgeScryptSession) (total_plaintext_bytes : Z) (unit : PackUploadUnitPlan) :
    result AgeAlignedUnitPlan :=
  let start := pu_plaintext_start unit in
  let stop := pu_plaintext_end unit in
  when (start <? 0) || (stop <=? start) || (total_plaintext_bytes <? stop)
    raise ValueError "pack unit plaintext range is invalid";
  let final := stop =? total_plaintext_bytes in
  when negb (start mod CHUNK_SIZE =? 0) || (negb final && negb (stop mod CHUNK_SIZE =? 0))
    raise ValueError "non-final pack unit boundaries must align to age chunks";
  let first_chunk := start / CHUNK_SIZE in
  let chunk_count := (stop - start + CHUNK_SIZE - 1) / CHUNK_SIZE in
  let includes_prefix := first_chunk =? 0 in
  let prefix_bytes := len (age_prefix session) in
  let ciphertext_start := if includes_prefix then 0 else prefix_bytes + first_chunk * (CHUNK_SIZE + AEAD_TAG_SIZE) in
  let ciphertext_bytes := (if includes_prefix then prefix_bytes else 0) + (stop - start) + chunk_count * AEAD_TAG_SIZE in
  Ok {| au_unit_number := pu_unit unit + 1; au_first_chunk := first_chunk; au_chunk_count := chunk_count;
        au_includes_age_prefix := includes_prefix; au_plaintext_start := start; au_plaintext_end := stop;
        au_ciphertext_start := ciphertext_start; au_ciphertext_end := ciphertext_start + ciphertext_bytes |}.

Definition _write_segment_plans (plan : PackVolumePlan) (session : ResumableAgeScryptSession) : result (list WriteSegmentPlan) :=
  archive_parts ← mapM_result (_age_part_plan session (pv_plaintext_bytes plan)) (pv_units plan);
  plan_write_segments (ciphertext_len <$> archive_parts) write_constraints.

(** One turn of the loop of [_validate_checkpoint]; [units] is the dictionary of
    the units by part number. *)
Definition validate_part (units : gmap Z PackUploadUnitPlan) (_ : unit) (part : StoredArchivePart) : result unit :=
  when match units !! sap_number part with
       | None => true
       | Some unit =>
           negb (sap_plaintext_start part =? pu_plaintext_start unit)
           || negb (sap_plaintext_bytes part =? pu_plaintext_bytes unit)
       end
    raise ValueError "pack upload checkpoint parts do not match the plan";
  Ok tt.

Definition _validate_checkpoint (collection_id : Z) (plan : PackVolumePlan) (c : PackUploadCheckpoint)
    (object_path relative_path : pystr) : result unit :=
  let mismatch := Exn ValueError (str "pack upload checkpoint does not match the requested plan") in
  when negb (pk_collection_id c =? collection_id) || negb (bool_decide (pk_volume_id c = pv_volume_id plan))
       || negb (bool_decide (pk_plan_sha256 c = pv_plan_sha256 plan))
       || negb (pk_plaintext_bytes c =? pv_plaintext_bytes plan) || negb (bool_decide (pk_object_path c = object_path))
    raises mismatch;
  normalized ← normalize_relpath relative_path;
  when negb (bool_decide (pk_relative_path c = normalized)) raises mismatch;
  state ← from_json_text (pk_age_state_json c);
  when negb (bool_decide (us_plaintext_size state = Some (pv_plaintext_bytes plan)))
    raise ValueError "pack upload checkpoint age state does not match the plan";
  _ ← foldM (validate_part (by_number (λ u, pu_unit u + 1) (pv_units plan))) tt (pk_archive_parts c);
  session ← cached_session passphrase (pk_age_state_json c);
  segment_plans ← _write_segment_plans plan session;
  let expected_segments :=
    filter (λ p, ws_archive_part_number p ∈ sap_number <$> pk_archive_parts c) segment_plans in
  when negb (bool_decide ((λ s, (wr_number s, wr_bytes s)) <$> pk_write_segments c =
                          (λ p, (ws_number p, ws_stored_bytes p)) <$> expected_segments))
    raise ValueError "pack upload checkpoint write segments do not match its archive parts";
  when negb (pk_next_unit c =? _first_missing_unit (pk_archive_parts c))
    raise ValueError "pack upload checkpoint next unit is invalid";
  when match pk_completed c with Some _ => negb (len (pk_archive_parts c) =? len (pv_units plan)) | None => false end
    raise ValueError "completed pack upload checkpoint has pending units";
  Ok tt.

(** The check of a checkpoint against the identity that it carries itself. *)
Definition validate_own (plan : PackVolumePlan) (c : PackUploadCheckpoint) : result unit :=
  _validate_checkpoint (pk_collection_id c) plan c (pk_object_path c) (pk_relative_path c).

Definition _reconcile_recorded_parts (c : PackUploadCheckpoint) : effect unit :=
  session ← lift (write_session c);
  listed ← ask (list_segments session);
  lift (foldM (reconcile_step (by_number wr_number listed)) tt (pk_write_segments c)).

Definition _save (c : PackUploadCheckpoint) : effect PackUploadCheckpoint :=
  checkpoint_json ← lift (to_json c);
  persisted ← merge_checkpoint (pk_volume_id c) checkpoint_json;
  lift (from_json persisted).

Definition _mark_completed (c : PackUploadCheckpoint) (completed : CompletedObjectReceipt) : effect PackUploadCheckpoint :=
  _ ← lift (when negb (bool_decide (co_object_path completed = pk_object_path c))
                 || negb (co_bytes completed =? sumZ sap_stored_bytes (pk_archive_parts c))
              raise RuntimeError "completed pack object does not match its checkpoint"; Ok tt);
  _save (with_progress c (pk_next_unit c) (sorted_byZ sap_number (pk_archive_parts c))
           (sorted_byZ wr_number (pk_write_segments c))
           (Some {| cr_revision := co_revision completed; cr_entity_token := co_entity_token completed;
                    cr_bytes := co_bytes completed; cr_completed_at := co_completed_at completed;
                    cr_retrieval_cache := co_retrieval_cache completed |})).

Definition _complete (plan : PackVolumePlan) (c : PackUploadCheckpoint) : effect PackUploadCheckpoint :=
  match pk_completed c with
  | Some _ => mret c
  | None =>
      let expected_numbers := rangeZ 1 (len (pv_units plan) + 1) in
      let parts := sorted_byZ sap_number (pk_archive_parts c) in
      _ ← lift (when negb (bool_decide (sap_number <$> parts = expected_numbers))
                  raise RuntimeError "cannot complete a pack with pending upload units"; Ok tt);
      session ← lift (write_session c);
      m ← lift (_object_metadata plan (Some (pk_age_state_json c)));
      completed ← ask (complete_write session (sorted_byZ wr_number (pk_write_segments c)) (sumZ sap_stored_bytes parts)
                         PACK_VOLUME_CONTENT_TYPE m);
      _mark_completed c completed
  end.

Definition _record_part (c : PackUploadCheckpoint) (part : StoredArchivePart) (write_segments : list WriteSegmentReceipt) :
    effect PackUploadCheckpoint :=
  let existing := _part_by_number (pk_archive_parts c) (sap_number part) in
  _ ← lift (when match existing with Some e => negb (bool_decide (e = part)) | None => false end
              raise RuntimeError "pack upload part receipt changed for an immutable part number"; Ok tt);
  let parts := match existing with Some _ => pk_archive_parts c | None => pk_archive_parts c ++ [part] end in
  let ordered := sorted_byZ sap_number parts in
  segments ← lift (_merge_write_segments (pk_write_segments c) write_segments);
  _save (with_progress c (_first_missing_unit ordered) ordered segments (pk_completed c)).

(** The loop over the segments of a unit. *)
Fixpoint write_segments (c : PackUploadCheckpoint) (ciphertext : pybytes) (plans : list WriteSegmentPlan) :
    effect (list WriteSegmentReceipt) :=
  match plans with
  | [] => mret []
  | p :: plans =>
      let content := slice (ws_archive_part_offset p) (ws_archive_part_offset p + ws_stored_bytes p) ciphertext in
      session ← lift (write_session c);
      remote ← ask (write_segment session (ws_number p) content);
      _ ← lift (when negb (wr_number remote =? ws_number p) || negb (wr_bytes remote =? ws_stored_bytes p)
                  raise RuntimeError "resumable store returned an inconsistent write-segment receipt"; Ok tt);
      rest ← write_segments c ciphertext plans;
      mret ({| wr_number := wr_number remote; wr_segment_token := wr_segment_token remote; wr_bytes := wr_bytes remote;
               wr_sha256 := Some (sha256_hex content) |} :: rest)
  end.

(** Whether [prepare_age_part] had pulled its whole stream when it raised. *)
Definition pulled_all (e : exn) : bool :=
  bool_decide (e = part_ended)
  || bool_decide (e = Exn RuntimeError (str "prepared age part plaintext byte count mismatch"))
  || bool_decide (e = Exn RuntimeError (str "prepared age part ciphertext byte count mismatch")).

(** [prepare_age_part] on a stream that may raise after its chunks. *)
Definition prepare_stream (session : ResumableAgeScryptSession) (plan : AgeAlignedUnitPlan) (total_plaintext_bytes : Z)
    (stream : list pybytes * result unit) : result PreparedAgePart :=
  let '(chunks, ending) := stream in
  match ending with
  | Ok _ => prepare_age_part session plan total_plaintext_bytes chunks
  | Err e =>
      match prepare_age_part session plan total_plaintext_bytes chunks with
      | Ok _ => Err e
      | Err e' => if pulled_all e' then Err e else Err e'
      end
  end.

Definition _prepare_and_upload_unit (plan : PackVolumePlan) (c : PackUploadCheckpoint) (unit_number : Z)
    (payload_chunks : list pybytes) : effect (StoredArchivePart * list WriteSegmentReceipt) :=
  unit ← lift (py_index (pv_units plan) unit_number);
  session ← lift (cached_session passphrase (pk_age_state_json c));
  age_plan ← lift (_age_part_plan session (pv_plaintext_bytes plan) unit);
  let working_bytes :=
    ciphertext_len age_plan + Z.min source_read_chunk_bytes (Z.max 1 (plaintext_len age_plan)) + CHUNK_SIZE in
  _ ← lift (acquire_bytes max_inflight_bytes working_bytes);
  chunks ← lift (iter_rechunk payload_chunks source_read_chunk_bytes);
  prepared ← lift (prepare_stream session age_plan (pv_plaintext_bytes plan)
                     (iter_render_pack_upload_unit_payload plan unit_number chunks));
  segment_plans ← lift (_write_segment_plans plan session);
  receipts ← write_segments c (pp_ciphertext prepared)
               (filter (λ p, ws_archive_part_number p = unit_number + 1) segment_plans);
  mret (_stored_archive_part unit prepared, receipts).

Definition upload_unit (plan : PackVolumePlan) (c : PackUploadCheckpoint) (unit_number : Z) (payload_chunks : list pybytes) :
    effect PackUploadCheckpoint :=
  _ ← lift (validate_own plan c);
  match pk_completed c with
  | Some _ => mret c
  | None =>
      _ ← lift (when (unit_number <? 0) || (len (pv_units plan) <=? unit_number)
                  raise ValueError "pack upload unit number is outside the plan"; Ok tt);
      match _part_by_number (pk_archive_parts c) (unit_number + 1) with
      | Some _ => mret c
      | None =>
          '(receipt, receipts) ← _prepare_and_upload_unit plan c unit_number payload_chunks;
          c ← _record_part c receipt receipts;
          if len (pk_archive_parts c) =? len (pv_units plan) then _complete plan c else mret c
      end
  end.

Definition upload_next_unit (plan : PackVolumePlan) (c : PackUploadCheckpoint) (payload_chunks : list pybytes) :
    effect PackUploadCheckpoint :=
  match pk_completed c with
  | Some _ => mret c
  | None => if len (pv_units plan) <=? pk_next_unit c then _complete plan c
            else upload_unit plan c (pk_next_unit c) payload_chunks
  end.

Definition sealed_receipt (plan : PackVolumePlan) (c : PackUploadCheckpoint) : result SealedPackVolume :=
  _ ← validate_own plan c;
  match pk_completed c with
  | None => Err (Exn RuntimeError (str "pack volume is not sealed"))
  | Some completed =>
      Ok {| spv_volume_id := pv_volume_id plan; spv_sequence := pv_sequence plan; spv_relative_path := pk_relative_path c;
            spv_files := len (pv_members plan); spv_source_bytes := sumZ pm_bytes (pv_members plan);
            spv_plaintext_bytes := pv_plaintext_bytes plan; spv_age_state_json := pk_age_state_json c;
            spv_index_sha256 := pv_index_sha256 plan; spv_plan_sha256 := pv_plan_sha256 plan;
            spv_parts := sorted_byZ sap_number (pk_archive_parts c); spv_revision := cr_revision completed;
            spv_completed_at := cr_completed_at completed; spv_retrieval_cache := cr_retrieval_cache completed |}
  end.

Definition abort (c : PackUploadCheckpoint) : effect unit :=
  match pk_completed c with
  | Some _ => lift (Err (Exn ValueError (str "cannot abort a completed pack object")))
  | None =>
      session ← lift (write_session c);
      _ ← ask (abort_write session);
      delete_checkpoint
  end.

(** The checks that [open] makes of its arguments. *)
Definition check_request (collection_id : Z) (plan : PackVolumePlan) (object_path relative_path : pystr) : result pystr :=
  when collection_id <? 1 raise ValueError "collection id must be positive";
  normalized_relative_path ← normalize_relpath relative_path;
  when negb (bool_decide (normalized_relative_path = str "volumes/" ++ pv_volume_id plan ++ str ".tar.age"))
    raise ValueError "pack volume relative path is not canonical";
  when negb (endswith (str "/" ++ normalized_relative_path) object_path)
    raise ValueError "pack volume object path does not contain its relative path";
  Ok normalized_relative_path.

(** [open] when there is a checkpoint. *)
Definition resume (collection_id : Z) (plan : PackVolumePlan) (object_path relative_path existing : pystr) :
    effect PackUploadCheckpoint :=
  c ← lift (from_json existing);
  _ ← lift (_validate_checkpoint collection_id plan c object_path relative_path);
  match pk_completed c with
  | Some _ => mret c
  | None =>
      expected ← lift (_stored_bytes_for_state (pk_age_state_json c));
      m ← lift (_object_metadata plan (Some (pk_age_state_json c)));
      completed ← ask (find_completed_write object_path expected PACK_VOLUME_CONTENT_TYPE m);
      match completed with
      | Some completed => _mark_completed c completed
      | None => _ ← _reconcile_recorded_parts c; mret c
      end
  end.

(** [open] when there is none; [create] draws the last three arguments. *)
Definition start (collection_id : Z) (plan : PackVolumePlan) (object_path relative_path : pystr)
    (file_key scrypt_salt payload_nonce : pybytes) : effect PackUploadCheckpoint :=
  session ← lift (create (PassText passphrase) scrypt_log_n file_key scrypt_salt payload_nonce None);
  state ← lift (export_state session (Some (pv_plaintext_bytes plan)));
  content ← lift (to_json_bytes state);
  age_state_json ← lift (utf8_decode content);
  expected_stored_bytes ← lift (age_ciphertext_len_for_plaintext_len (pv_plaintext_bytes plan) (len (age_prefix session)));
  m ← lift (_object_metadata plan None);
  completed ← ask (find_completed_write object_path expected_stored_bytes PACK_VOLUME_CONTENT_TYPE m);
  _ ← lift (when bool_decide (is_Some completed)
              raise RuntimeError "completed pack object exists without a checkpoint; retain the upload receipt transaction before discarding checkpoint state";
            Ok tt);
  m ← lift (_object_metadata plan (Some age_state_json));
  write ← ask (begin_write object_path expected_stored_bytes PACK_VOLUME_CONTENT_TYPE m);
  _save {| pk_collection_id := collection_id; pk_volume_id := pv_volume_id plan; pk_object_path := object_path;
           pk_relative_path := relative_path; pk_plan_sha256 := pv_plan_sha256 plan;
           pk_plaintext_bytes := pv_plaintext_bytes plan; pk_write_token := wn_write_token write;
           pk_age_state_json := age_state_json; pk_next_unit := 0; pk_archive_parts := []; pk_write_segments := [];
           pk_completed := None |}.

Definition open (collection_id : Z) (plan : PackVolumePlan) (object_path relative_path : pystr)
    (file_key scrypt_salt payload_nonce : pybytes) : effect PackUploadCheckpoint :=
  relative_path ← lift (check_request collection_id plan object_path relative_path);
  existing ← load_checkpoint;
  match existing with
  | Some text => resume collection_id plan object_path relative_path text
  | None => start collection_id plan object_path relative_path file_key scrypt_salt payload_nonce
  end.
End uploader.
