(* ===== verification/PackLayout.v ===== *)
(** * The units of a pack volume as units of an age file

    The upload units of a planned pack, encrypted one by one as
    [pack_upload._age_part_plan] cuts them, are consecutive ranges of the age file
    of the pack ([pack_laid]); the payload of a unit renders to its range of the
    pack ([rendered_unit]). *)

From stdpp Require Import gmap.
From S2P Require Import Prelude Text Json WriteSegments Sha256 Paths Domain PackIngress Tar PackVolume PackRender Crypto Base64.
From S2P Require Import Age AgeUnits AgeRange StreamingAge ArchiveContracts RawVerification RawCheckpoint.
From S2P Require Import RawUpload UploadLayout PackRetrieval PackCheckpoint PackUpload.

(** ** Chains of ranges *)

Section chains.
Context {U A : Type} (f g : U → Z).

(** Each range starts where the one before it ends. *)
Fixpoint chain (a : Z) (us : list U) (b : Z) : Prop :=
  match us with
  | [] => a = b
  | u :: us => f u = a ∧ a ≤ g u ∧ chain (g u) us b
  end.

Lemma chain_le a us b : chain a us b → a ≤ b.
Proof. revert a. induction us as [|u us IH]; intros a Hc; cbn in Hc; [lia|]. destruct Hc as (_ & Hle & Hc). apply IH in Hc. lia. Qed.

Lemma chain_concat (l : list A) a us b : 0 ≤ a → chain a us b → concat ((λ u, slice (f u) (g u) l) <$> us) = slice a b l.
Proof.
  revert a. induction us as [|u us IH]; intros a Ha Hc; cbn [chain] in Hc.
  - subst b. by rewrite slice_empty.
  - destruct Hc as (Hf & Hle & Hc). rewrite fmap_cons. cbn [concat]. rewrite (IH (g u)) by (done || lia).
    rewrite Hf. apply slice_app; [done|done|by eapply chain_le].
Qed.

Lemma chain_bounds a us b : chain a us b → Forall (λ u, a ≤ f u ≤ g u ∧ g u ≤ b) us.
Proof.
  revert a. induction us as [|u us IH]; intros a Hc; [constructor|]. cbn [chain] in Hc. destruct Hc as (Hf & Hle & Hc).
  pose proof (chain_le _ _ _ Hc). constructor; [lia|]. eapply Forall_impl; [by eapply IH|]. cbn. lia.
Qed.

Lemma chain_ordered a us b i j u v : chain a us b → us !! i = Some u → us !! j = Some v → (i < j)%nat → g u ≤ f v.
Proof.
  revert a i j. induction us as [|x us IH]; intros a i j Hc Hi Hj Hlt; [done|]. cbn [chain] in Hc. destruct Hc as (_ & _ & Hc).
  destruct j as [|j]; [lia|]. cbn in Hj. destruct i as [|i]; [|by apply (IH _ i j Hc); [| |lia]].
  injection Hi as ->. pose proof (chain_bounds _ _ _ Hc) as Hb. rewrite Forall_forall in Hb.
  destruct (Hb v (list_elem_of_lookup_2 _ _ _ Hj)). lia.
Qed.
End chains.

(** ** Units of a plan *)

(** The units tile the plaintext, on chunk boundaries but for its end. *)
Fixpoint aligned (n start : Z) (units : list PackUploadUnitPlan) : Prop :=
  match units with
  | [] => start = n
  | u :: units =>
      pu_plaintext_start u = start ∧ start < pu_plaintext_end u ∧ pu_plaintext_end u ≤ n ∧ start mod CHUNK_SIZE = 0 ∧
      (pu_plaintext_end u = n ∨ pu_plaintext_end u mod CHUNK_SIZE = 0) ∧ aligned n (pu_plaintext_end u) units
  end.

Lemma aligned_le n start units : aligned n start units → start ≤ n.
Proof. destruct units; cbn; lia. Qed.

Lemma aligned_chained volume_id i start closed final i' n :
  chained i start (closed ++ [final]) i' n → Forall (closed_unit volume_id) closed → start mod CHUNK_SIZE = 0 →
  Forall (λ u, pu_plaintext_start u < pu_plaintext_end u) (closed ++ [final]) → aligned n start (closed ++ [final]).
Proof.
  intros Hc Hcl. revert i start Hc. induction Hcl as [|u closed (_ & _ & _ & _ & _ & Hmod) _ IH]; intros i start Hc Hs Hlt;
    cbn [app chained aligned] in *; apply Forall_cons in Hlt as [Hu Hlt]; cbn beta in Hu; destruct Hc as (_ & Hst & Hc).
  - destruct Hc as [_ Hn]. split_and!; try done; [lia|lia|by left].
  - pose proof (IH _ _ Hc Hmod Hlt) as Ha. split_and!; try done; [lia|by eapply aligned_le|by right].
Qed.

Section pack_plan.
Context `{PyEnv} (plan : PackVolumePlan) (Hvalid : plan_valid plan).

Lemma plan_unit_nonempty u : u ∈ pv_units plan → pu_plaintext_start u < pu_plaintext_end u.
Proof.
  intros [k Hk]%list_elem_of_lookup. destruct (plan_unit_facts plan Hvalid k u Hk) as (Hu & _ & _ & _ & Hf & _).
  assert (0 < len (pu_sources u) → pu_plaintext_start u < body_end u) as Hb.
  { unfold body_end. destruct (pu_sources u) as [|f fs]; intros Hne; [discriminate|]. rewrite sumZ_cons.
    apply Forall_cons in Hf as [(Ho & _ & _ & Hz & _) Hf]. destruct (entry_len_blocks f Ho Hz).
    assert (0 ≤ sumZ entry_len fs); [|lia]. apply sumZ_nonneg. eapply Forall_impl; [exact Hf|]. intros g (Hg & _ & _ & Hgz & _).
    destruct (entry_len_blocks g Hg Hgz). lia. }
  destruct Hu as [(_ & _ & _ & Hne & Hle & _)|[(_ & _ & _ & Hne & ->) _]]; [lia|].
  rewrite <- len_header_bytes. pose proof (tar_padding_bounds (len (pv_index_bytes plan))). len_lia.
Qed.

Lemma plan_aligned : aligned (pv_plaintext_bytes plan) 0 (pv_units plan).
Proof.
  destruct (plan_facts plan Hvalid) as (closed & final & Hl & _). pose proof plan_unit_nonempty as Hne.
  pose proof (pl_chain _ _ _ _ Hl) as Hc. rewrite (pl_units _ _ _ _ Hl) in *.
  apply (aligned_chained (pv_volume_id plan) 0 0 closed final _ _ Hc); [apply Hl|done|by apply Forall_forall].
Qed.
End pack_plan.

(** ** Units of the age file *)

Section age_units.
Context `{Aead} (s : ResumableAgeScryptSession) (p : pybytes) (Hlimit : len p ≤ 2 ^ 53) (Hpos : 0 < len p).
Notation pre := (len (age_prefix s)).

Definition chunks_in (n : Z) : Z := (n + CHUNK_SIZE - 1) / CHUNK_SIZE.

(** Where the ciphertext of the plaintext position [x] starts: a chunk boundary
    or the end of the plaintext. *)
Definition stored_at (x : Z) : Z := if x =? 0 then 0 else pre + x + chunks_in x * AEAD_TAG_SIZE.

(** A unit of the plan: a range on chunk boundaries but for the end. *)
Definition unit_range (a b : Z) : Prop :=
  0 ≤ a < b ∧ b ≤ len p ∧ a mod CHUNK_SIZE = 0 ∧ (b = len p ∨ b mod CHUNK_SIZE = 0).

Definition pack_unit (u : PackUploadUnitPlan) : AgeAlignedUnitPlan :=
  planned s p (chunks_in (pu_plaintext_end u - pu_plaintext_start u)) (pu_plaintext_start u / CHUNK_SIZE) (pu_unit u + 1)
    (stored_at (pu_plaintext_start u)).

Lemma chunks_aligned a : a mod CHUNK_SIZE = 0 → chunks_in a = a / CHUNK_SIZE ∧ a = a / CHUNK_SIZE * CHUNK_SIZE.
Proof. unfold chunks_in, CHUNK_SIZE. intros Ha. split; lia. Qed.

(** The chunks of a range. *)
Lemma range_units a b : unit_range a b →
  let first := a / CHUNK_SIZE in let per := chunks_in (b - a) in
  a = first * CHUNK_SIZE ∧ 0 ≤ first ∧ 0 < per ∧ first + per = chunks_in b ∧ chunks_in b ≤ chunk_count (len p) ∧
  Z.min ((first + per) * CHUNK_SIZE) (len p) = b ∧ (b = len p → chunks_in b = chunk_count (len p)).
Proof.
  intros ((Ha & Hab) & Hb & Hmod & Hend). cbv zeta. destruct (chunks_aligned a Hmod) as [_ Heq].
  set (first := a / CHUNK_SIZE) in *. assert (0 ≤ first) as Hf by (unfold CHUNK_SIZE in *; lia).
  assert (chunks_in (b - a) = chunks_in b - first) as Hper.
  { unfold chunks_in. rewrite Heq. replace (b - first * CHUNK_SIZE + CHUNK_SIZE - 1) with (b + CHUNK_SIZE - 1 + (- first) * CHUNK_SIZE) by lia.
    rewrite Z.div_add by done. lia. }
  pose proof (ceil_div_bounds b CHUNK_SIZE ltac:(done)) as Hcb. fold (chunks_in b) in Hcb.
  assert (chunk_count (len p) = chunks_in (len p)) as Hcc by (unfold chunk_count; by rewrite (proj2 (Z.eqb_neq (len p) 0)) by lia).
  assert (chunks_in b ≤ chunks_in (len p)) as Hmono by (unfold chunks_in; apply Z.div_le_mono; [done|lia]).
  rewrite Hper, Hcc. unfold CHUNK_SIZE in *. split_and!; try lia. by intros ->.
Qed.

(** [_age_part_plan] cuts such a range. *)
Lemma age_part_plan_unit u : unit_range (pu_plaintext_start u) (pu_plaintext_end u) → _age_part_plan s (len p) u = Ok (pack_unit u).
Proof.
  intros Hr. destruct (range_units _ _ Hr) as (Ha & Hf & Hper & Hsum & Hle & Hmin & _). destruct Hr as ((H0 & Hab) & Hb & Hmod & Hend).
  unfold _age_part_plan. rewrite (proj2 (Z.ltb_ge (pu_plaintext_start u) 0)), (proj2 (Z.leb_gt (pu_plaintext_end u) _)),
    (proj2 (Z.ltb_ge (len p) _)), Hmod by lia. cbn [orb]. rewrite Z.eqb_refl. cbn [negb orb].
  assert (negb (pu_plaintext_end u =? len p) && negb (pu_plaintext_end u mod CHUNK_SIZE =? 0) = false) as ->.
  { destruct Hend as [-> | ->]; rewrite Z.eqb_refl; [done|apply andb_false_r]. }
  fold (chunks_in (pu_plaintext_end u - pu_plaintext_start u)). f_equal. unfold pack_unit, planned, unit_plan.
  set (first := pu_plaintext_start u / CHUNK_SIZE) in *. set (per := chunks_in (pu_plaintext_end u - pu_plaintext_start u)) in *.
  cbv zeta. rewrite (Z.min_l per) by lia. rewrite Hmin, (proj2 (Z.eqb_neq (len p) 0)), <- Ha by lia.
  assert (stored_at (pu_plaintext_start u) = if first =? 0 then 0 else pre + first * (CHUNK_SIZE + AEAD_TAG_SIZE)) as ->; [|done].
  unfold stored_at. destruct (chunks_aligned _ Hmod) as [-> _]. fold first. unfold CHUNK_SIZE in *.
  destruct (Z.eqb_spec (pu_plaintext_start u) 0), (Z.eqb_spec first 0); lia.
Qed.

Lemma pack_unit_facts u : unit_range (pu_plaintext_start u) (pu_plaintext_end u) →
  au_unit_number (pack_unit u) = pu_unit u + 1 ∧ au_plaintext_start (pack_unit u) = pu_plaintext_start u ∧
  au_plaintext_end (pack_unit u) = pu_plaintext_end u ∧
  au_ciphertext_start (pack_unit u) = stored_at (pu_plaintext_start u) ∧
  au_ciphertext_end (pack_unit u) = stored_at (pu_plaintext_end u).
Proof.
  intros Hr. destruct (range_units _ _ Hr) as (Ha & Hf & Hper & Hsum & Hle & Hmin & _). destruct Hr as ((H0 & Hab) & Hb & Hmod & Hend).
  unfold pack_unit, planned, unit_plan. set (first := pu_plaintext_start u / CHUNK_SIZE) in *.
  set (per := chunks_in (pu_plaintext_end u - pu_plaintext_start u)) in *.
  cbn [au_unit_number au_plaintext_start au_plaintext_end au_ciphertext_start au_ciphertext_end].
  rewrite (Z.min_l per) by lia. rewrite Hmin, (proj2 (Z.eqb_neq (len p) 0)), <- Ha by lia. split_and!; try done.
  unfold stored_at. destruct (chunks_aligned _ Hmod) as [-> _]. fold first. rewrite (proj2 (Z.eqb_neq (pu_plaintext_end u) 0)) by lia.
  rewrite <- Hsum. unfold CHUNK_SIZE, AEAD_TAG_SIZE in *. destruct (Z.eqb_spec (pu_plaintext_start u) 0), (Z.eqb_spec first 0); lia.
Qed.

Lemma chunks_split key a b c : a ≤ b → b ≤ c → payload_chunks key p a c = payload_chunks key p a b ++ payload_chunks key p b c.
Proof. intros Hab Hbc. unfold payload_chunks. by rewrite <- concat_app, <- fmap_app, <- rangeZ_app. Qed.

(** Its bytes are a range of the file. *)
Lemma pack_unit_stored u file : unit_range (pu_plaintext_start u) (pu_plaintext_end u) → encrypt_plaintext s p = Ok file →
  AgeUnits.unit_bytes s p (pack_unit u) = stored file (pack_unit u) ∧
  len (stored file (pack_unit u)) = ciphertext_len (pack_unit u).
Proof.
  intros Hr Hfile. destruct (range_units _ _ Hr) as (Ha & Hf & Hper & Hsum & Hle & Hmin & _).
  destruct (pack_unit_facts u Hr) as (_ & _ & _ & Hcs & _). destruct Hr as ((H0 & Hab) & Hb & Hmod & Hend).
  set (first := pu_plaintext_start u / CHUNK_SIZE) in *. set (per := chunks_in (pu_plaintext_end u - pu_plaintext_start u)) in *.
  assert (len (AgeUnits.unit_bytes s p (pack_unit u)) = ciphertext_len (pack_unit u)) as Hlen
    by exact (planned_len s p per first (pu_unit u + 1) (stored_at (pu_plaintext_start u)) Hper ltac:(lia)).
  assert (AgeUnits.unit_bytes s p (pack_unit u) = stored file (pack_unit u)) as Heq; [|by rewrite <- Heq].
  unfold stored. rewrite encrypt_plaintext_spec in Hfile by done. injection Hfile as <-.
  assert (au_ciphertext_end (pack_unit u) = au_ciphertext_start (pack_unit u) + len (AgeUnits.unit_bytes s p (pack_unit u))) as ->
    by (unfold ciphertext_len in Hlen; lia).
  assert (au_includes_age_prefix (pack_unit u) = (first =? 0) ∧ au_first_chunk (pack_unit u) = first ∧ au_chunk_count (pack_unit u) = per)
    as (Hi & Hfc & Hcc) by (unfold pack_unit, planned, unit_plan; cbn; fold first per; split_and!; [done|done|lia]).
  clear Hlen. unfold AgeUnits.unit_bytes. rewrite Hi, Hfc, Hcc, Hcs. set (key := ss_payload_key s).
  rewrite (chunks_split key 0 first (chunk_count (len p))), (chunks_split key first (first + per) (chunk_count (len p))) by lia.
  unfold stored_at. destruct (chunks_aligned _ Hmod) as [-> _]. fold first.
  destruct (Z.eqb_spec first 0) as [He|He].
  - rewrite (proj2 (Z.eqb_eq (pu_plaintext_start u) 0)) by (unfold CHUNK_SIZE in *; lia). rewrite He.
    assert (payload_chunks key p 0 0 = []) as -> by (unfold payload_chunks; by rewrite rangeZ_empty). cbn [app].
    rewrite app_assoc, slice_app_l by lia. rewrite !Z.add_0_l, slice_full. done.
  - rewrite (proj2 (Z.eqb_neq (pu_plaintext_start u) 0)) by (unfold CHUNK_SIZE in *; lia). cbn [app].
    assert (len (payload_chunks key p 0 first) = first * CHUNK_SIZE + first * AEAD_TAG_SIZE) as Hl0.
    { unfold key. rewrite len_payload_chunks by lia. unfold CHUNK_SIZE, AEAD_TAG_SIZE in *. lia. }
    rewrite Ha, slice_app_r by (pose proof (len_nonneg (age_prefix s)); unfold CHUNK_SIZE, AEAD_TAG_SIZE; lia).
    rewrite slice_app_r by (rewrite Hl0; unfold CHUNK_SIZE, AEAD_TAG_SIZE; lia). rewrite slice_app_l by (rewrite Hl0; lia).
    replace (pre + first * CHUNK_SIZE + first * AEAD_TAG_SIZE - pre - len (payload_chunks key p 0 first)) with 0 by lia.
    match goal with |- _ = slice 0 ?b _ => replace b with (len (payload_chunks key p first (first + per))) by lia end.
    by rewrite slice_full.
Qed.
End age_units.

(** ** The layout of a pack *)

Section laid_pack.
Context `{PyEnv} `{Aead} (plan : PackVolumePlan) (payloads : list (list pybytes)) (Hvalid : plan_valid plan).
Context (Hpay : Forall2 (λ u ps, Forall2 file_payload (pu_sources u) ps) (pv_units plan) payloads).
Notation p := (pack_bytes plan payloads).

(** The units that [pack_upload] gives a session. *)
Definition pack_units (s : ResumableAgeScryptSession) : result (list AgeAlignedUnitPlan) :=
  mapM_result (_age_part_plan s (pv_plaintext_bytes plan)) (pv_units plan).

Lemma unit_slices units i start i' stop ps before after : chained i start units i' stop → Forall (planned_unit plan) units →
  Forall2 (λ u ps, Forall2 file_payload (pu_sources u) ps) units ps → len before = start →
  Forall2 (λ u x, slice (pu_plaintext_start u) (pu_plaintext_end u)
      (before ++ concat (zip_with (PackRender.unit_bytes plan) units ps) ++ after) = PackRender.unit_bytes plan u x) units ps ∧
  start + len (concat (zip_with (PackRender.unit_bytes plan) units ps)) = stop.
Proof.
  intros Hc Hu Hp. revert i start before Hc. induction Hp as [|u x units ps Hx _ IH]; intros i start before Hc Hb.
  - destruct Hc as [_ <-]. split; [constructor|]. cbn [zip_with concat]. change (len []) with 0. lia.
  - apply Forall_cons in Hu as [Hu Hus]. destruct Hc as (_ & Hs & Hc). cbn [zip_with concat]. pose proof (len_unit plan u x Hu Hx) as Hl.
    pose proof (len_nonneg (PackRender.unit_bytes plan u x)) as Hnn.
    destruct (IH Hus (i + 1) (pu_plaintext_end u) (before ++ PackRender.unit_bytes plan u x) Hc ltac:(rewrite len_app; lia)) as [Hall Hsum].
    split; [|rewrite len_app; lia]. constructor; [|by rewrite <- !app_assoc in Hall |- *].
    rewrite <- !app_assoc, slice_app_r, slice_app_l by lia. replace (pu_plaintext_start u - len before) with 0 by lia.
    replace (pu_plaintext_end u - len before) with (len (PackRender.unit_bytes plan u x)) by lia. by rewrite slice_full.
Qed.

Lemma pack_slices : Forall2 (λ u ps, slice (pu_plaintext_start u) (pu_plaintext_end u) p = PackRender.unit_bytes plan u ps)
    (pv_units plan) payloads ∧ len p = pv_plaintext_bytes plan.
Proof.
  destruct (plan_facts plan Hvalid) as (closed & final & Hl & _ & _ & Hu & _).
  destruct (unit_slices (pv_units plan) 0 0 _ _ payloads [] [] (pl_chain _ _ _ _ Hl) Hu Hpay eq_refl) as [Hall Hsum].
  cbn [app] in Hall. rewrite app_nil_r in Hall. split; [done|]. unfold pack_bytes. lia.
Qed.

Lemma pack_positive : 0 < len p.
Proof.
  destruct pack_slices as [_ ->]. destruct (plan_valid_facts plan Hvalid) as (_ & _ & _ & _ & _ & Hone & _). lia.
Qed.

Lemma aligned_ranges start units : 0 ≤ start → aligned (len p) start units →
  Forall (λ u, unit_range p (pu_plaintext_start u) (pu_plaintext_end u)) units.
Proof.
  revert start. induction units as [|u units IH]; intros start Hs Ha; [constructor|]. cbn [aligned] in Ha.
  destruct Ha as (Hst & Hlt & Hle & Hmod & Hend & Ha). constructor; [|apply (IH (pu_plaintext_end u)); [lia|done]].
  rewrite Hst. unfold unit_range. split_and!; try done; lia.
Qed.

Lemma pack_ranges : Forall (λ u, unit_range p (pu_plaintext_start u) (pu_plaintext_end u)) (pv_units plan).
Proof. apply (aligned_ranges 0); [done|]. destruct pack_slices as [_ ->]. by apply plan_aligned. Qed.

Context (Hlimit : len p ≤ 2 ^ 53) (s : ResumableAgeScryptSession).

Lemma pack_units_ok : pack_units s = Ok (pack_unit s p <$> pv_units plan).
Proof.
  unfold pack_units. destruct pack_slices as [_ <-]. pose proof pack_positive as Hpos.
  assert (∀ units, Forall (λ u, unit_range p (pu_plaintext_start u) (pu_plaintext_end u)) units →
    mapM_result (_age_part_plan s (len p)) units = Ok (pack_unit s p <$> units)) as Hall; [|by apply Hall, pack_ranges].
  intros units Hr. induction Hr as [|u units Hu _ IH]; [done|].
  rewrite fmap_cons. cbn [mapM_result]. by rewrite (age_part_plan_unit s p Hpos u Hu), ok_bind, IH.
Qed.

Lemma stored_mono a b : unit_range p a b → stored_at s a < stored_at s b.
Proof.
  intros ((Ha & Hab) & _). unfold stored_at. rewrite (proj2 (Z.eqb_neq b 0)) by lia. pose proof (len_nonneg (age_prefix s)).
  assert (chunks_in a ≤ chunks_in b) by (unfold chunks_in; apply Z.div_le_mono; [done|lia]).
  assert (0 ≤ chunks_in b) by (unfold chunks_in; apply Z.div_pos; [unfold CHUNK_SIZE; lia|done]).
  destruct (a =? 0); unfold AEAD_TAG_SIZE; lia.
Qed.

(** The plaintext and the stored ranges of the units follow each other. *)
Lemma pack_chains start units : 0 ≤ start → aligned (len p) start units →
  chain au_plaintext_start au_plaintext_end start (pack_unit s p <$> units) (len p) ∧
  chain au_ciphertext_start au_ciphertext_end (stored_at s start) (pack_unit s p <$> units) (stored_at s (len p)).
Proof.
  revert start. induction units as [|u units IH]; intros start Hs Ha; pose proof (aligned_ranges _ _ Hs Ha) as Hr; cbn [aligned] in Ha;
    [by rewrite Ha|]. destruct Ha as (Hst & Hlt & Hle & Hmod & Hend & Ha). apply Forall_cons in Hr as [Hr _].
  destruct (IH (pu_plaintext_end u) ltac:(lia) Ha) as [Hp Hc]. destruct (pack_unit_facts s p pack_positive u Hr) as (_ & Hps & Hpe & Hcs & Hce).
  pose proof (stored_mono _ _ Hr). rewrite fmap_cons. cbn [chain]. rewrite Hps, Hpe, Hcs, Hce, Hst in *. split_and!; try done; lia.
Qed.

Lemma stored_end file : encrypt_plaintext s p = Ok file → len file = stored_at s (len p).
Proof.
  rewrite encrypt_plaintext_spec by done. intros [= <-]. pose proof pack_positive as Hpos. pose proof (len_nonneg p).
  pose proof (chunk_count_bounds (len p) ltac:(lia)) as Hcb. pose proof (chunk_last (len p) ltac:(lia)) as [Hlast _].
  rewrite len_app, (len_payload_chunks s p) by lia. unfold stored_at. rewrite (proj2 (Z.eqb_neq (len p) 0)) by lia.
  assert (chunk_count (len p) = chunks_in (len p)) as Hcc by (unfold chunk_count; by rewrite (proj2 (Z.eqb_neq (len p) 0)) by lia).
  rewrite Hcc in *. unfold CHUNK_SIZE, AEAD_TAG_SIZE in *. lia.
Qed.

Lemma contiguous_chain start us n : chain au_plaintext_start au_plaintext_end start us n → contiguous start us.
Proof. revert start. induction us as [|u us IH]; intros start Hc; [done|]. destruct Hc as (Hs & _ & Hc). split; [done|by apply IH]. Qed.

Lemma pack_numbers i start units i' stop : chained i start units i' stop →
  (λ u, pu_unit u + 1) <$> units = rangeZ (i + 1) (i + 1 + len units).
Proof.
  revert i start. induction units as [|u units IH]; intros i start Hc; [by rewrite Z.add_0_r, rangeZ_empty|].
  destruct Hc as (Hi & _ & Hc). rewrite fmap_cons, len_cons, rangeZ_cons by (pose proof (len_nonneg units); lia).
  rewrite (IH _ _ Hc), Hi. do 2 f_equal. lia.
Qed.

Lemma pack_laid : ∃ file, laid p pack_units s (pack_unit s p <$> pv_units plan) file.
Proof.
  pose proof pack_slices as [_ Hlen]. pose proof (plan_aligned plan Hvalid) as Ha. rewrite <- Hlen in Ha. pose proof pack_ranges as Hr.
  destruct (pack_chains 0 (pv_units plan) ltac:(lia) Ha) as [Hcp Hcs]. change (stored_at s 0) with 0 in Hcs.
  destruct (encrypt_plaintext s p) as [file|e] eqn:Hfile; [|by rewrite encrypt_plaintext_spec in Hfile].
  exists file. rewrite <- (stored_end file Hfile) in Hcs.
  assert (Forall (λ v, len (stored file v) = ciphertext_len v ∧ 1 ≤ ciphertext_len v ∧ len (plain p v) = plaintext_len v ∧
    0 ≤ au_plaintext_start v ∧ 1 ≤ plaintext_len v) (pack_unit s p <$> pv_units plan)) as Hlens.
  { apply Forall_fmap. eapply Forall_impl; [exact Hr|]. intros u Hu. unfold compose.
    destruct (pack_unit_facts s p pack_positive u Hu) as (_ & Hps & Hpe & Hcs' & Hce). pose proof (stored_mono _ _ Hu).
    destruct (pack_unit_stored s p Hlimit pack_positive u file Hu Hfile) as [_ Hl]. destruct Hu as ((Hz & Hab) & Hb & _).
    unfold ciphertext_len, plaintext_len, plain in *. rewrite Hl, Hps, Hpe, Hcs', Hce, len_slice by lia. split_and!; try done; lia. }
  split.
  - apply pack_units_ok.
  - done.
  - destruct (plan_facts plan Hvalid) as (closed & final & Hl & _). rewrite len_fmap, <- list_fmap_compose.
    change (rangeZ 1 (1 + len (pv_units plan))) with (rangeZ (0 + 1) (0 + 1 + len (pv_units plan))).
    rewrite <- (pack_numbers 0 0 _ _ _ (pl_chain _ _ _ _ Hl)). apply list_fmap_ext. intros i u Hi. cbn.
    rewrite Forall_forall in Hr. by apply (pack_unit_facts s p pack_positive u), Hr, (list_elem_of_lookup_2 _ i).
  - unfold plain. rewrite (chain_concat au_plaintext_start au_plaintext_end p 0 _ (len p)) by done. apply slice_full.
  - unfold stored. rewrite (chain_concat au_ciphertext_start au_ciphertext_end file 0 _ (len file)) by done. apply slice_full.
  - eapply Forall_impl; [exact Hlens|]. cbn. tauto.
  - intros i j u v Hi Hj Hlt. by apply (chain_ordered _ _ _ _ _ i j u v Hcp).
  - intros i u Hi _. rewrite Forall_forall in Hlens. by destruct (Hlens u (list_elem_of_lookup_2 _ _ _ Hi)) as (_ & _ & _ & _ & ?).
  - by apply (contiguous_chain 0 _ (len p)).
  - destruct (plan_facts plan Hvalid) as (closed & final & Hl & _). rewrite (pl_units _ _ _ _ Hl). by destruct closed.
Qed.

(** A rendered unit is its range of the pack. *)
Lemma rendered_unit k u ps chunks out : pv_units plan !! k = Some u → payloads !! k = Some ps →
  (∀ ps', concat chunks = concat ps' → Forall2 file_payload (pu_sources u) ps' → ps' = ps) →
  iter_render_pack_upload_unit_payload plan (Z.of_nat k) chunks = (out, Ok tt) → concat out = plain p (pack_unit s p u).
Proof.
  intros Hk Hps Hsame Hrun. destruct (proj1 (render_payload_exact plan Hvalid k u chunks (concat out) Hk)) as (ps' & Hc & Hf & Hout);
    [by exists out|]. rewrite Hout, (Hsame ps' Hc Hf). destruct pack_slices as [Hall _].
  pose proof pack_ranges as Hr. rewrite Forall_forall in Hr. unfold plain.
  destruct (pack_unit_facts s p pack_positive u (Hr u (list_elem_of_lookup_2 _ _ _ Hk))) as (_ & -> & -> & _).
  rewrite Forall2_lookup in Hall. specialize (Hall k). rewrite Hk, Hps in Hall. by inversion Hall.
Qed.
End laid_pack.
