(* ===== verification/PackSafety.v ===== *)
(** * Pack uploads seal the pack they were planned for

    Safety of [PackUpload]: in every state that callers, the object store and
    other users of the store can reach from an empty path, a completed pack
    checkpoint stands for an object that is the age file of the planned pack.  The
    store side of the argument is in [UploadStore], the layout in [PackLayout]. *)

From stdpp Require Import gmap.
From S2P Require Import Prelude Text Json WriteSegments Sha256 Paths Domain PackIngress Tar PackVolume PackRender Crypto Base64.
From S2P Require Import Age AgeUnits AgeRange StreamingAge ArchiveContracts RawVerification RawCheckpoint.
From S2P Require Import RawUpload UploadLayout UploadStore UploadSafety PackRetrieval PackCheckpoint PackUpload PackLayout.

(** The arguments of [open]. *)
Record PackRequest := {
  pq_collection_id : Z;
  pq_plan : PackVolumePlan;
  pq_object_path : pystr;
  pq_relative_path : pystr;
}.

(** A planned pack with the contents of its files, unit by unit. *)
Record pack_request_ok `{PyEnv} (q : PackRequest) (payloads : list (list pybytes)) : Prop := {
  po_collection : 1 ≤ pq_collection_id q;
  po_object : pq_object_path q ≠ [] ∧ text_ok (pq_object_path q);
  po_relative : normalize_relpath (pq_relative_path q) = Ok (pq_relative_path q) ∧ text_ok (pq_relative_path q);
  po_valid : plan_valid (pq_plan q);
  po_payloads : Forall2 (λ u ps, Forall2 file_payload (pu_sources u) ps) (pv_units (pq_plan q)) payloads;
  po_limit : pv_plaintext_bytes (pq_plan q) ≤ 2 ^ 53;
}.

Section pack_safety.
Context `{PyEnv} `{Aead} `{StoreContract} (passphrase : pystr) (scrypt_log_n : Z) (q : PackRequest) (payloads : list (list pybytes)).
Context (Hq : pack_request_ok q payloads).

Notation plan := (pq_plan q).
Notation p := (pack_bytes plan payloads).
Notation laid := (laid p (pack_units plan)).
Notation session_text := (session_text passphrase scrypt_log_n p).
Notation object_path := (pq_object_path q).

Lemma pack_bytes_len : len p = pv_plaintext_bytes plan.
Proof. apply (pack_slices plan payloads (po_valid _ _ Hq) (po_payloads _ _ Hq)). Qed.

Lemma pack_limit : len p ≤ 2 ^ 53.
Proof. rewrite pack_bytes_len. apply Hq. Qed.

Lemma laid_pack s us file : laid s us file → us = pack_unit s p <$> pv_units plan.
Proof.
  intros Hl. pose proof (ld_units _ _ _ _ _ Hl) as Hu.
  rewrite (pack_units_ok plan payloads (po_valid _ _ Hq) (po_payloads _ _ Hq)) in Hu. by injection Hu.
Qed.

Lemma laid_positive s us file : laid s us file → Forall (λ u, 1 ≤ plaintext_len u) us.
Proof.
  intros ->%laid_pack. apply Forall_fmap. eapply Forall_impl; [exact (pack_ranges plan payloads (po_valid _ _ Hq) (po_payloads _ _ Hq))|].
  intros u Hu. unfold compose, plaintext_len.
  destruct (pack_unit_facts s p (pack_positive plan payloads (po_valid _ _ Hq) (po_payloads _ _ Hq)) u Hu) as (_ & -> & -> & _).
  destruct Hu as ((_ & Hlt) & _). lia.
Qed.

(** ** Good checkpoints *)

Definition pack_static (c : PackUploadCheckpoint) : Prop :=
  pk_collection_id c = pq_collection_id q ∧ pk_volume_id c = pv_volume_id plan ∧ pk_object_path c = object_path ∧
  pk_relative_path c = pq_relative_path q ∧ pk_plan_sha256 c = pv_plan_sha256 plan ∧
  pk_plaintext_bytes c = pv_plaintext_bytes plan.

Record pack_good (c : PackUploadCheckpoint) : Prop := {
  pgd_valid : pack_valid c;
  pgd_static : pack_static c;
  pgd_layout : ∃ s us file, session_text (pk_age_state_json c) s ∧ laid s us file ∧ lays p us file (as_raw c);
}.

Lemma pack_static_eq c e : static_fields e = static_fields c → pack_static c → pack_static e.
Proof. destruct c, e. unfold static_fields, pack_static. cbn. intros [= ]. by subst. Qed.

Lemma pack_static_text c e : static_fields e = static_fields c →
  pk_age_state_json e = pk_age_state_json c ∧ pk_write_token e = pk_write_token c.
Proof. destruct c, e. unfold static_fields. cbn. intros [= ]. by subst. Qed.

(** The parts of a valid checkpoint other than its progress are static. *)
Lemma pack_valid_intro c e s us file : pack_valid c → static_fields e = static_fields c → laid s us file →
  lays p us file (as_raw e) → pack_valid e.
Proof.
  intros Hc Hst Hl He. pose proof (lays_order p _ s us file Hl _ He) as Hord.
  assert (Forall (λ x, 1 ≤ sap_plaintext_bytes x) (pk_archive_parts e)) as Hpos.
  { pose proof (laid_positive _ _ _ Hl) as Hu. rewrite Forall_forall in Hu. eapply Forall_impl; [exact (ly_parts _ _ _ _ He)|].
    intros x (u & Hin & ->). by apply Hu. }
  assert (from_option (λ k, completed_valid k ∧ cr_bytes k = sumZ wr_bytes (pk_write_segments e)) True (pk_completed e)) as Hk.
  { destruct (pk_completed e) as [k|] eqn:Hk; [|done]. cbn. split; [by apply (ly_completed _ _ _ _ He)|].
    by apply (lays_sums p _ s us file Hl (as_raw e)). }
  pose proof (ly_progress _ _ _ _ He) as Hg. pose proof (ly_receipts _ _ _ _ He) as Hv. destruct Hc. destruct c, e.
  unfold static_fields in Hst. cbn in *. injection Hst as -> -> -> -> -> -> -> ->. by split.
Qed.

Lemma pack_good_intro c e s us file : pack_good c → static_fields e = static_fields c → session_text (pk_age_state_json c) s →
  laid s us file → lays p us file (as_raw e) → pack_good e.
Proof.
  intros [Hv Hst _] Hse Hs Hl He. split; [by eapply pack_valid_intro|by eapply pack_static_eq|].
  exists s, us, file. by rewrite (proj1 (pack_static_text _ _ Hse)).
Qed.

(** The upload of a pack volume. *)
Definition pack_upload : upload PackUploadCheckpoint :=
  {| up_passphrase := passphrase; up_log_n := scrypt_log_n; up_plain := p; up_units := pack_units plan;
     up_path := object_path; up_content_type := PACK_VOLUME_CONTENT_TYPE;
     up_meta := λ text, _object_metadata plan (Some text); up_good := pack_good;
     up_token := pk_write_token; up_text := pk_age_state_json; up_done := λ c, is_Some (pk_completed c);
     up_row := λ r c, row_checkpoint r = Ok (Some c) |}.

Notation held := (held pack_upload).
Notation inv := (inv pack_upload).
Notation triple := (triple pack_upload).
Notation grows := (grows pack_upload).
Notation sealed := (sealed pack_upload).

Lemma pack_meta_perm : meta_determined pack_upload.
Proof.
  intros text text' m m'. cbn [up_meta pack_upload]. unfold _object_metadata. cbv zeta. intros Hm Hm' Hp.
  apply bind_Ok in Hm as (st & _ & Hm). apply bind_Ok in Hm as (x & _ & Hm).
  apply bind_Ok in Hm' as (st' & _ & Hm'). apply bind_Ok in Hm' as (x' & _ & Hm').
  apply Ok_eq in Hm as <-. apply Ok_eq in Hm' as <-. apply Permutation_app_inv_l, Permutation_singleton_r in Hp. by rewrite Hp.
Qed.

(** ** Saving *)

(** Merging keeps what is known of two checkpoints of one write. *)
Lemma pack_merge_good c d e : pack_good c → pack_good d → merge_pack_upload_checkpoints c d = Ok e →
  pack_good e ∧ merges (as_raw c) (as_raw d) (as_raw e) ∧ static_fields e = static_fields d ∧ static_fields e = static_fields c.
Proof.
  intros Hc Hd Hm%merge_as_raw. apply merge_iff in Hm; [|apply (qv_progress _ (pgd_valid _ Hc))|apply (qv_progress _ (pgd_valid _ Hd))].
  destruct (pgd_layout _ Hc) as (s & us & file & Hs & Hl & Hlc). destruct (pgd_layout _ Hd) as (s' & us' & file' & Hs' & Hl' & Hld).
  pose proof (proj1 (static_as_raw _ _) (mg_same _ _ _ Hm)) as Hsame. pose proof (proj1 (static_as_raw _ _) (mg_static _ _ _ Hm)) as Hst.
  rewrite <- (proj1 (pack_static_text _ _ Hsame)) in Hs'. pose proof (session_unique _ _ _ _ _ _ Hs Hs') as <-.
  destruct (laid_unique _ _ _ _ _ _ _ Hl Hl') as [<- <-]. split_and!; [|done|by rewrite Hst|done].
  apply (pack_good_intro c e s us file); [done|done|done|done|]. by apply (lays_merge p _ s us file Hl (as_raw c) (as_raw d)).
Qed.

Lemma pack_merge_known c : pack_good c → merge_pack_upload_checkpoints c c = Ok c.
Proof. intros Hc. pose proof (qv_progress _ (pgd_valid _ Hc)) as Hv. apply merge_as_raw. by apply merge_known. Qed.

(** The merge into the row gives back a checkpoint of this upload. *)
Lemma pack_merged_held tokens c text w encoded row : pack_good c → tokens !! pk_write_token c = Some (pk_age_state_json c) →
  from_json text = Ok c → inv tokens w → (is_Some (pk_completed c) → sealed (w_store w) (pk_age_state_json c)) →
  merge_pack_upload_checkpoint (w_row w) (pk_volume_id c) text = Ok (encoded, row) →
  ∃ e, from_json encoded = Ok e ∧ held tokens (w_store w) e ∧ static_fields e = static_fields c ∧
    ∀ c', row_checkpoint row = Ok (Some c') → c' = e.
Proof.
  intros Hc Ht Hfrom Hi Hsealed Hmerge.
  destruct (w_row w) as [old|] eqn:Hrow; [|unfold merge_pack_upload_checkpoint in Hmerge; rewrite Hfrom in Hmerge; done].
  apply pack_merge_row in Hmerge as (previous & incoming & merged & Hp & Hi' & Hm & Hto & He).
  assert (incoming = c) as -> by congruence.
  assert (held tokens (w_store w) merged ∧ static_fields merged = static_fields c) as [Hh Hst].
  { destruct previous as [d|]; cbn in Hm; [|rewrite (pack_merge_known c Hc) in Hm; by injection Hm as <-].
    pose proof (iv_row _ _ _ Hi old d Hrow Hp) as [Hgd Htd Hsd].
    destruct (pack_merge_good d c merged Hgd Hc Hm) as (Hg & Hmg & Hst & Hst'). split; [|done].
    destruct (pack_static_text _ _ Hst) as [Htext Htok]. split; cbn; [done|by rewrite Htext, Htok|].
    intros Hk. pose proof (mg_completed _ _ _ Hmg) as Hco. cbn in Hco. rewrite Hco in Hk.
    destruct (pk_completed d) as [k|] eqn:Hkd; [|rewrite Htext; exact (Hsealed Hk)].
    rewrite (proj1 (pack_static_text _ _ Hst')). apply Hsd. cbn. by rewrite Hkd. }
  destruct (pack_checkpoint_text merged (pgd_valid _ (hd_good _ _ _ _ Hh))) as (text' & Hto' & Hfrom').
  assert (from_json encoded = Ok merged) as Henc by congruence. exists merged. split_and!; [done|done|done|].
  intros c' Hc'. unfold row_checkpoint in Hc'. rewrite He in Hc'. destruct encoded as [|x encoded]; [done|].
  rewrite Henc, ok_bind in Hc'. by injection Hc' as <-.
Qed.

Lemma pack_save_triple tokens c : pack_good c → tokens !! pk_write_token c = Some (pk_age_state_json c) →
  triple tokens (λ st, is_Some (pk_completed c) → sealed st (pk_age_state_json c)) (_save c)
    (λ e st, held tokens st e ∧ static_fields e = static_fields c).
Proof.
  intros Hc Ht. unfold _save. destruct (pack_checkpoint_text c (pgd_valid _ Hc)) as (text & Hto & Hfrom). apply triple_pure.
  intros x Hx. assert (x = text) as -> by congruence.
  apply (triple_merge pack_upload tokens _ (λ row, merge_pack_upload_checkpoint row (pk_volume_id c) text) from_json).
  intros w encoded row Hi Hsealed. by apply pack_merged_held.
Qed.

(** ** The steps of an upload *)

Context (source_read_chunk_bytes max_inflight_bytes : Z).

(** What the callers stream for a unit: if it reads as payloads of the unit's
    files with their sizes and digests, it is their contents.  That leaves out
    only collisions of SHA-256; every other stream is refused. *)
Definition stream_ok (number : Z) (chunks : list pybytes) : Prop :=
  ∀ k u, number = Z.of_nat k → pv_units plan !! k = Some u → ∃ ps, payloads !! k = Some ps ∧
    ∀ ps', concat chunks = concat ps' → Forall2 file_payload (pu_sources u) ps' → ps' = ps.

Section laid_out.
Context (tokens : gmap pystr pystr) (c : PackUploadCheckpoint) (s : ResumableAgeScryptSession).
Context (us : list AgeAlignedUnitPlan) (file : pybytes).
Context (Hc : pack_good c) (Ht : tokens !! pk_write_token c = Some (pk_age_state_json c)).
Context (Hs : session_text (pk_age_state_json c) s) (Hl : laid s us file).

Lemma pack_layout_of_good : lays p us file (as_raw c).
Proof.
  destruct (pgd_layout _ Hc) as (s' & us' & file' & Hs' & Hl' & Hy).
  pose proof (session_unique _ _ _ _ _ _ Hs Hs') as <-. by destruct (laid_unique _ _ _ _ _ _ _ Hl Hl') as [<- <-].
Qed.

Lemma pack_good_layout e : static_fields e = static_fields c → lays p us file (as_raw e) → pack_good e.
Proof. intros Hst. by apply (pack_good_intro c e s us file). Qed.

Lemma pack_mark_triple receipt : completion_ok receipt → co_bytes receipt = len file →
  triple tokens (λ st, sealed st (pk_age_state_json c)) (_mark_completed c receipt) (λ e st, held tokens st e).
Proof.
  intros Hok Hbytes. unfold _mark_completed. apply triple_pure. intros [] Hx. inv_step Hx. bool_prop.
  pose proof (ly_progress _ _ _ _ pack_layout_of_good) as Hg. pose proof (pg_parts _ Hg) as Hp. pose proof (pg_segments _ Hg) as Hsg.
  cbn [as_raw rk_archive_parts rk_write_segments] in Hp, Hsg. rewrite (sorted_byZ_id _ _ Hp), (sorted_byZ_id _ _ Hsg).
  pose proof (lays_mark p _ s us file Hl (as_raw c) receipt pack_layout_of_good Hok Hbytes ltac:(unfold as_raw; cbn [rk_archive_parts]; lia)) as Hy.
  match goal with |- context [_save ?e] => change (sealed_with (as_raw c) receipt) with (as_raw e) in Hy; set (e0 := e) in * end.
  apply pack_good_layout in Hy as Hge; [|done].
  eapply triple_post; [|eapply triple_pre; [|apply (pack_save_triple tokens _ Hge Ht)]].
  - by intros e' st [He' _].
  - by intros st Hseal _.
Qed.

Lemma pack_session_cached : cached_session passphrase (pk_age_state_json c) = Ok s.
Proof. destruct Hs as (? & ? & ? & ? & _ & _ & _ & _ & _ & _ & _ & _ & _ & Hcs). done. Qed.

Lemma pack_segment_plans : _write_segment_plans plan s = segment_plans us.
Proof. unfold _write_segment_plans. fold (pack_units plan s). by rewrite (ld_units _ _ _ _ _ Hl), ok_bind. Qed.

Lemma pack_write_session write : write_session c = Ok write →
  wn_object_path write = object_path ∧ wn_write_token write = pk_write_token c.
Proof.
  unfold write_session. intros Hw. apply bind_Ok in Hw as (n & _ & Hw). apply Ok_eq in Hw as <-.
  by destruct (pgd_static _ Hc) as (_ & _ & -> & _).
Qed.

Lemma pack_units_len : len us = len (pv_units plan).
Proof. by rewrite (laid_pack _ _ _ Hl), len_fmap. Qed.

Lemma pack_pending_triple : pk_completed c = None →
  triple tokens (λ _, True) (_complete plan c) (λ e st, held tokens st e).
Proof.
  intros Hnone. unfold _complete. rewrite Hnone. pose proof pack_layout_of_good as Hy. pose proof (ly_progress _ _ _ _ Hy) as Hg.
  pose proof (pg_parts _ Hg) as Hp. pose proof (pg_segments _ Hg) as Hsg. cbn [as_raw rk_archive_parts rk_write_segments] in Hp, Hsg.
  rewrite (sorted_byZ_id _ _ Hp), (sorted_byZ_id _ _ Hsg). cbv zeta.
  apply triple_pure. intros [] Hnum. inv_step Hnum. bool_prop.
  assert (sap_number <$> rk_archive_parts (as_raw c) = au_unit_number <$> us) as Hnums.
  { cbn [as_raw rk_archive_parts]. rewrite E, (ld_numbers _ _ _ _ _ Hl), pack_units_len. f_equal. lia. }
  pose proof (lays_numbers p _ s us file Hl (as_raw c) Hy Hnums) as Hall.
  destruct (lays_plans p _ s us file Hl (as_raw c) Hy Hall) as (plans & Hplans & Hr).
  apply triple_pure. intros write Hw. apply pack_write_session in Hw as [Hpath Htok]. apply triple_pure. intros m Hm.
  eapply triple_bind.
  - apply (complete_triple pack_upload pack_meta_perm tokens _ _ s us file Ht Hs Hl write (pk_write_segments c) plans); try done.
    by apply (recorded_all p _ s us file Hl).
  - intros receipt w r w' Hi (Hok & Hseal & Hb). by apply pack_mark_triple.
Qed.

Lemma pack_record_triple u receipts plans : pk_completed c = None → u ∈ us → au_unit_number u ∉ sap_number <$> pk_archive_parts c →
  segment_plans us = Ok plans → recorded plans [part_of p file u] receipts → Forall segment_valid receipts →
  triple tokens (λ _, True) (_record_part c (part_of p file u) receipts)
    (λ e st, held tokens st e ∧ static_fields e = static_fields c).
Proof.
  intros Hnone Hu Hnew Hp Hr Hvalid. unfold _record_part. rewrite (no_part p (as_raw c) file u Hnew : _part_by_number (pk_archive_parts c) _ = None).
  apply triple_pure. intros [] _. cbv zeta.
  apply triple_pure. intros segments Hm. apply (merge_by_agree _ _ RawCheckpoint.segment_conflict) in Hm.
  pose proof (lays_record p _ s us file Hl (as_raw c) u receipts segments plans pack_layout_of_good Hnone Hu Hnew Hp Hr Hvalid Hm) as Hy.
  match goal with |- context [_save ?e] => set (e0 := e) in * end. assert (extended p file (as_raw c) u segments = as_raw e0) as He.
  { unfold e0, extended. cbv zeta. rewrite <- (sorted_byZ_perm sap_number (rk_archive_parts (as_raw c) ++ _)) at 1. done. }
  rewrite He in Hy. apply pack_good_layout in Hy as Hge; [|done].
  eapply triple_pre; [|apply (pack_save_triple tokens _ Hge Ht)].
  intros st _ [k Hk]. cbn in Hk. congruence.
Qed.
Lemma pack_segments_triple plans u l : segment_plans us = Ok plans → u ∈ us →
  (∀ pl, pl ∈ l → pl ∈ plans ∧ ws_archive_part_number pl = au_unit_number u) →
  triple tokens (λ _, True) (write_segments c (stored file u) l)
    (λ receipts _, seg_pair <$> receipts = plan_pair <$> l ∧ Forall segment_valid receipts).
Proof.
  intros Hp Hu. induction l as [|pl l IH]; intros Hl'; cbn [write_segments]; [by apply triple_ret|].
  destruct (Hl' pl) as [Hin Hn]; [by left|].
  destruct (plan_unit p _ s us file Hl plans pl Hp Hin) as (u' & Hu' & Hn' & Hbytes & Hlen & Hone).
  assert (u' = u) as -> by (apply (unit_of_number p _ s us file Hl); congruence).
  rewrite <- Hbytes. set (content := segment_bytes (stored file <$> us) pl) in *. cbv zeta.
  apply triple_pure. intros write Hw. apply pack_write_session in Hw as [_ Htok].
  eapply (triple_seq _ _ _ _ _ (λ receipt, token_ok (wr_segment_token receipt))).
  - apply (write_triple pack_upload tokens _ _ s us file Ht Hs Hl write plans pl Htok Hp Hin).
  - intros receipt Htoken. apply triple_pure. intros [] Hx. inv_step Hx. bool_prop. eapply triple_seq; [apply IH; intros pl' Hpl; apply Hl'; by right|].
    intros rest [Hpairs Hvalid]. apply triple_ret. intros st _. rewrite !fmap_cons. split.
    + f_equal; [|done]. unfold seg_pair, plan_pair. cbn. f_equal; lia.
    + constructor; [|done]. pose proof (plan_number p _ s us file Hl plans pl Hp Hin). destruct Htoken as [Hne Htext].
      split_and!; cbn; try done; [lia|lia|apply sha256_hex_fullmatch].
Qed.

(** A rendered stream that is accepted is the unit's range of the pack. *)
Lemma pack_prepared k u chunks cut prepared : pv_units plan !! k = Some u → stream_ok (Z.of_nat k) chunks → concat cut = concat chunks →
  prepare_stream s (pack_unit s p u) (len p) (iter_render_pack_upload_unit_payload plan (Z.of_nat k) cut) = Ok prepared →
  pp_ciphertext prepared = stored file (pack_unit s p u) ∧
  _stored_archive_part u prepared = part_of p file (pack_unit s p u).
Proof.
  intros Hk Hstream Hcut Hprep. destruct (iter_render_pack_upload_unit_payload plan (Z.of_nat k) cut) as [out [[]|e]] eqn:Hrun;
    cbn [prepare_stream] in Hprep; [|by destruct (prepare_age_part _ _ _ _) as [|e']; [|destruct (pulled_all e')]].
  pose proof (Hstream k u eq_refl Hk) as (ps & Hps & Hsame). rewrite <- Hcut in Hsame.
  pose proof (rendered_unit plan payloads (po_valid _ _ Hq) (po_payloads _ _ Hq) s k u ps cut out Hk Hps Hsame Hrun) as Hplain.
  pose proof (pack_ranges plan payloads (po_valid _ _ Hq) (po_payloads _ _ Hq)) as Hr. rewrite Forall_forall in Hr.
  pose proof (Hr u (list_elem_of_lookup_2 _ _ _ Hk)) as Hrange.
  pose proof (pack_positive plan payloads (po_valid _ _ Hq) (po_payloads _ _ Hq)) as Hpos.
  destruct (range_units p Hpos _ _ Hrange) as (_ & Hf & Hper & Hsum & Hle & _).
  destruct (prepare_planned s p pack_limit (chunks_in (pu_plaintext_end u - pu_plaintext_start u)) (pu_plaintext_start u / CHUNK_SIZE)
    (pu_unit u + 1) (stored_at s (pu_plaintext_start u)) out Hper ltac:(lia)) as [Hgood _].
  fold (pack_unit s p u) in Hgood. rewrite (Hgood Hplain) in Hprep. apply Ok_eq in Hprep as <-. cbn [pp_ciphertext].
  destruct (pack_unit_stored s p pack_limit Hpos u file Hrange (ld_file _ _ _ _ _ Hl)) as [Hst Hlen].
  split; [done|]. destruct (pack_unit_facts s p Hpos u Hrange) as (Hn & Hps' & _). unfold _stored_archive_part, part_of, stored_bytes, plain.
  cbn [pp_unit_number pp_plaintext_bytes pp_plaintext_sha256 pp_ciphertext pp_stored_sha256]. rewrite Hst, Hlen, Hps'. reflexivity.
Qed.

Lemma py_index_nat {A} (items : list A) k x : items !! k = Some x → py_index items (Z.of_nat k) = Ok x.
Proof. intros Hk. unfold py_index. cbv zeta. by rewrite (proj2 (Z.ltb_ge (Z.of_nat k) 0)), (proj2 (Z.ltb_ge (Z.of_nat k) 0)), Nat2Z.id, Hk by lia. Qed.

Lemma pack_prepare_triple k u chunks : pv_units plan !! k = Some u → stream_ok (Z.of_nat k) chunks →
  triple tokens (λ _, True)
    (_prepare_and_upload_unit passphrase source_read_chunk_bytes max_inflight_bytes plan c (Z.of_nat k) chunks)
    (λ out _, out.1 = part_of p file (pack_unit s p u) ∧ ∃ plans, segment_plans us = Ok plans ∧
       recorded plans [part_of p file (pack_unit s p u)] out.2 ∧ Forall segment_valid out.2).
Proof.
  intros Hk Hstream. pose proof (laid_pack _ _ _ Hl) as Hus. unfold _prepare_and_upload_unit.
  apply triple_pure. intros u' Hu'. rewrite (py_index_nat _ k u Hk) in Hu'. apply Ok_eq in Hu' as <-.
  apply triple_pure. rewrite pack_session_cached. intros session Hx. apply Ok_eq in Hx as <-.
  pose proof (pack_ranges plan payloads (po_valid _ _ Hq) (po_payloads _ _ Hq)) as Hr. rewrite Forall_forall in Hr.
  pose proof (Hr u (list_elem_of_lookup_2 _ _ _ Hk)) as Hrange.
  pose proof (pack_positive plan payloads (po_valid _ _ Hq) (po_payloads _ _ Hq)) as Hpos.
  rewrite <- pack_bytes_len, (age_part_plan_unit s p Hpos u Hrange). apply triple_pure. intros age_plan Hx. apply Ok_eq in Hx as <-. cbv zeta.
  apply triple_pure. intros [] _. apply triple_pure. intros cut Hcut. apply rechunk_canonical in Hcut as (_ & Hcat & _).
  apply triple_pure. intros prepared Hprep. destruct (pack_prepared k u chunks cut prepared Hk Hstream Hcat Hprep) as [Hct Hpart].
  apply triple_pure. rewrite pack_segment_plans. intros plans Hp. rewrite Hct, Hpart.
  assert (pack_unit s p u ∈ us) as Hu by (rewrite Hus; by eapply list_elem_of_fmap_2, list_elem_of_lookup_2).
  assert (au_unit_number (pack_unit s p u) = Z.of_nat k + 1) as Hnum.
  { rewrite (unit_at p _ s us file Hl k (pack_unit s p u)); [lia|]. by rewrite Hus, list_lookup_fmap, Hk. }
  eapply triple_seq.
  - apply (pack_segments_triple plans _ _ Hp Hu). intros pl [Hn Hin]%list_elem_of_filter. by rewrite Hnum.
  - intros receipts [Hpairs Hvalid]. apply triple_ret. intros st _. cbn [fst snd]. split; [done|].
    exists plans. split_and!; [done| |done]. unfold recorded. rewrite Hpairs. f_equal. apply list_filter_iff. intros pl. cbn [part_of sap_number fmap list_fmap].
    by rewrite list_elem_of_singleton, Hnum.
Qed.
End laid_out.

(** ** The operations *)

Lemma pack_complete_held tokens c : triple tokens (λ st, held tokens st c) (_complete plan c) (λ e st, held tokens st e).
Proof.
  destruct (pk_completed c) as [k|] eqn:Hk; [unfold _complete; rewrite Hk; by apply triple_ret|].
  apply (triple_fact _ _ _ (pack_good c ∧ tokens !! pk_write_token c = Some (pk_age_state_json c))); [by intros st []|].
  intros [Hc Ht]. destruct (pgd_layout _ Hc) as (s & us & file & Hs & Hl & _).
  eapply triple_pre; [|by apply (pack_pending_triple tokens c s us file)]. done.
Qed.

(** Every unit of the plan, whatever the caller knows of the others. *)
Lemma pack_unit_triple tokens c number chunks : stream_ok number chunks →
  triple tokens (λ st, held tokens st c)
    (upload_unit passphrase source_read_chunk_bytes max_inflight_bytes plan c number chunks) (λ e st, held tokens st e).
Proof.
  intros Hstream. unfold upload_unit. apply triple_pure. intros [] _.
  destruct (pk_completed c) as [k|] eqn:Hk; [by apply triple_ret|].
  apply (triple_fact _ _ _ (pack_good c ∧ tokens !! pk_write_token c = Some (pk_age_state_json c))); [by intros st []|].
  intros [Hc Ht]. destruct (pgd_layout _ Hc) as (s & us & file & Hs & Hl & _). pose proof (laid_pack _ _ _ Hl) as Hus.
  apply triple_pure. intros [] Hx. inv_step Hx. bool_prop.
  destruct (_part_by_number (pk_archive_parts c) (number + 1)) as [part|] eqn:Hpart; [by apply triple_ret|].
  destruct (lookup_lt_is_Some_2 (pv_units plan) (Z.to_nat number)) as [u Hu]; [unfold len in *; lia|].
  assert (us !! Z.to_nat number = Some (pack_unit s p u)) as Hat by by rewrite Hus, list_lookup_fmap, Hu.
  pose proof (unit_at p _ s us file Hl _ _ Hat) as Hnum. rewrite <- (Z2Nat.id number) in Hstream |- * by lia.
  eapply triple_seq.
  - eapply triple_pre; [|by apply (pack_prepare_triple tokens c s us file Hc Ht Hs Hl _ u chunks Hu Hstream)]. done.
  - intros [part receipts] [Heq (plans & Hp & Hr & Hv)]. cbn [fst snd] in *. subst part.
    eapply (triple_bind _ _ _ _ _ (λ e st, held tokens st e)).
    + apply (triple_post _ _ _ _ _ (λ e st, held tokens st e ∧ static_fields e = static_fields c)); [by intros e st [He _]|].
      apply (pack_record_triple tokens c s us file Hc Ht Hs Hl _ receipts plans Hk); try done; [by eapply list_elem_of_lookup_2|].
      apply not_recorded. rewrite Hnum, Z2Nat.id, Z.add_comm by lia. exact Hpart.
    + intros e. destruct (len (pk_archive_parts e) =? len (pv_units plan)); [apply pack_complete_held|by apply triple_ret].
Qed.

Lemma pack_next_triple tokens c chunks : stream_ok (pk_next_unit c) chunks →
  triple tokens (λ st, held tokens st c)
    (upload_next_unit passphrase source_read_chunk_bytes max_inflight_bytes plan c chunks) (λ e st, held tokens st e).
Proof.
  intros Hstream. unfold upload_next_unit. destruct (pk_completed c) as [k|] eqn:Hk; [by apply triple_ret|].
  destruct (len (pv_units plan) <=? pk_next_unit c); [apply pack_complete_held|]. by apply pack_unit_triple.
Qed.

Lemma pack_abort_triple tokens c : triple tokens (λ st, held tokens st c) (abort c) (λ _ _, True).
Proof.
  unfold abort. destruct (pk_completed c) as [k|] eqn:Hk; [by apply triple_lift|].
  apply triple_pure. intros session _. eapply (triple_bind _ _ _ _ _ (λ _ _, True)); [apply discard_triple|].
  intros []. apply (delete_triple pack_upload). intros [r|] r'; [|done]. cbn. case_bool_decide; intros [= <-]; [left|by right].
  by intros e.
Qed.

(** [open] on a volume with a checkpoint. *)
Lemma pack_resume_triple tokens collection_id relative_path existing :
  triple tokens (λ st, ∀ c, from_json existing = Ok c → held tokens st c)
    (resume passphrase collection_id plan object_path relative_path existing) (λ e st, held tokens st e).
Proof.
  unfold resume. apply triple_pure. intros c Hx. apply (triple_pre _ _ _ (λ st, held tokens st c)); [auto|].
  apply triple_pure. intros [] _. destruct (pk_completed c) as [k|] eqn:Hk; [by apply triple_ret|].
  apply (triple_fact _ _ _ (pack_good c ∧ tokens !! pk_write_token c = Some (pk_age_state_json c))); [by intros st []|].
  intros [Hc Ht]. destruct (pgd_layout _ Hc) as (s & us & file & Hs & Hl & _).
  apply triple_pure. intros expected _. apply triple_pure. intros m Hm.
  eapply triple_bind; [by apply (find_triple pack_upload pack_meta_perm tokens _ _ s us file Ht Hs Hl)|]. intros [receipt|].
  - intros w r w' Hi (_ & Hok & Hse & Hb). by apply (pack_mark_triple tokens c s us file Hc Ht Hs Hl receipt Hok Hb).
  - unfold _reconcile_recorded_parts. eapply (triple_bind _ _ _ _ _ (λ _ st, held tokens st c)); [|by intros []; apply triple_ret].
    eapply triple_pre; [by intros st [Hh _]; exact Hh|]. apply triple_pure. intros session _.
    eapply triple_bind; [apply list_triple|]. intros listed. by apply triple_lift.
Qed.

(** The checkpoint of a write that has just begun. *)
Definition pack_first (token text : pystr) : PackUploadCheckpoint :=
  {| pk_collection_id := pq_collection_id q; pk_volume_id := pv_volume_id plan; pk_object_path := object_path;
     pk_relative_path := pq_relative_path q; pk_plan_sha256 := pv_plan_sha256 plan;
     pk_plaintext_bytes := pv_plaintext_bytes plan; pk_write_token := token; pk_age_state_json := text;
     pk_next_unit := 0; pk_archive_parts := []; pk_write_segments := []; pk_completed := None |}.

Lemma pack_first_good token text s : token_ok token → session_text text s → pack_good (pack_first token text).
Proof.
  intros Htok Hs. destruct (pack_laid plan payloads (po_valid _ _ Hq) (po_payloads _ _ Hq) pack_limit s) as (file & Hl).
  assert (progress_valid (as_raw (pack_first token text))) as Hpv by (split; cbn; [constructor|constructor|constructor|done|done]).
  split; [|by repeat split|exists s, (pack_unit s p <$> pv_units plan), file; split_and!; [done|done|]].
  2: { split; cbn; [done|by rewrite pack_bytes_len|constructor|by left|constructor|done]. }
  destruct (plan_valid_facts plan (po_valid _ _ Hq)) as (_ & Hid & Hseq & _ & _ & Hone & _).
  destruct (plan_facts plan (po_valid _ _ Hq)) as (closed & final & Hpl).
  split; try done; try (by apply Hq); cbn.
  - rewrite Hid. by apply pack_volume_id_match.
  - apply Hpl.
  - lia.
  - destruct Hs as (_ & _ & _ & state & _ & _ & _ & _ & Hv & Hz & -> & _). exists state. by rewrite <- pack_bytes_len.
Qed.

(** ** Opening *)

(** The metadata of the write that [start] begins with these random bytes. *)
Definition pack_drawn (file_key scrypt_salt payload_nonce : pybytes) : result metadata :=
  session ← create (PassText passphrase) scrypt_log_n file_key scrypt_salt payload_nonce None;
  state ← Age.export_state session (Some (pv_plaintext_bytes plan));
  content ← to_json_bytes state;
  text ← utf8_decode content;
  _object_metadata plan (Some text).

(** Random bytes whose session no write of the store was begun with. *)
Definition pack_fresh (file_key scrypt_salt payload_nonce : pybytes) (st : ost) : Prop :=
  bytes_ok file_key ∧ bytes_ok scrypt_salt ∧ bytes_ok payload_nonce ∧
  ∀ m, pack_drawn file_key scrypt_salt payload_nonce = Ok m → unused m st.

Lemma pack_start_grows tokens file_key salt nonce :
  grows tokens (pack_fresh file_key salt nonce)
    (start passphrase scrypt_log_n (pq_collection_id q) plan object_path (pq_relative_path q) file_key salt nonce)
    (λ tokens' e st, held tokens' st e).
Proof.
  unfold start. apply grows_pure. intros s Hs. apply grows_pure. intros state Hstate.
  apply grows_pure. intros content Hcontent. apply grows_pure. intros text Htext.
  apply grows_pure. intros expected _. apply grows_pure. intros base _.
  eapply (grows_bind _ _ _ _ _ (λ _, pack_fresh file_key salt nonce)).
  - apply triple_ask. intros st r st' Hi Hf Hrun. apply find_law in Hrun as [Hu _]. split; [by eapply unchanged_inv|].
    split; [by apply unchanged_stays|]. destruct r; [|done]. destruct Hu as [Hw _]. destruct Hf as (? & ? & ? & Hf).
    unfold pack_fresh, unused. by rewrite Hw.
  - intros found. apply grows_pure. intros [] _. apply grows_pure. intros m Hm.
    assert (pack_drawn file_key salt nonce = Ok m) as Hd.
    { unfold pack_drawn. by rewrite Hs, ok_bind, Hstate, ok_bind, Hcontent, ok_bind, Htext, ok_bind. }
    intros w r w' Hi (Hk & Hsalt & Hn & Hfresh) Hrun. rewrite <- pack_bytes_len in Hstate.
    pose proof (created_text passphrase scrypt_log_n p _ _ _ _ _ _ _ Hs Hk Hsalt Hn Hstate Hcontent Htext) as Hst.
    refine (begin_grows pack_upload tokens expected text s m
      (λ write, _save (pack_first (wn_write_token write) text)) Hst Hm _ w r w' Hi (Hfresh m Hd) Hrun).
    intros tokens' write Htok Hlook. eapply triple_post; [|eapply triple_pre; [|exact (pack_save_triple tokens' _ (pack_first_good _ _ _ Htok Hst) Hlook)]].
    + by intros e st'' [He _].
    + by intros st'' _ [].
Qed.

(** The call with the arguments of the request. *)
Definition pack_open (file_key salt nonce : pybytes) : effect PackUploadCheckpoint :=
  open passphrase scrypt_log_n (pq_collection_id q) plan object_path (pq_relative_path q) file_key salt nonce.

Lemma pack_checked relative : check_request (pq_collection_id q) plan object_path (pq_relative_path q) = Ok relative →
  relative = pq_relative_path q.
Proof.
  unfold check_request. intros Hc. inv_step Hc. rewrite (proj1 (po_relative _ _ Hq)), ok_bind in Hc. do 2 inv_step Hc. by injection Hc as <-.
Qed.

Lemma pack_loaded (row : option UploadRow) text c : load_pack_upload_checkpoint row = Some text → from_json text = Ok c →
  ∃ r, row = Some r ∧ row_checkpoint r = Ok (Some c).
Proof.
  unfold load_pack_upload_checkpoint. destruct row as [r|]; [|done]. case_bool_decide; [|done]. intros Ht Hc. exists r.
  split; [done|]. unfold row_checkpoint. rewrite Ht. destruct text as [|x text]; [done|]. by rewrite Hc.
Qed.

Lemma pack_open_grows tokens file_key salt nonce :
  grows tokens (pack_fresh file_key salt nonce) (pack_open file_key salt nonce) (λ tokens' e st, held tokens' st e).
Proof.
  unfold pack_open, open. apply grows_pure. intros relative ->%pack_checked.
  intros w r w' Hi Hf Hrun. unfold mbind at 1, effect_bind at 1, load_checkpoint in Hrun.
  destruct (load_pack_upload_checkpoint (w_row w)) as [text|] eqn:Hload; [|by apply (pack_start_grows tokens file_key salt nonce w r w')].
  refine (grows_triple pack_upload tokens _ _ (λ tokens' e st, held tokens' st e) (pack_resume_triple tokens _ _ text) w r w' Hi _ Hrun).
  intros c Hc. destruct (pack_loaded _ _ _ Hload Hc) as (row & Hrow & Hr). by eapply iv_row.
Qed.

End pack_safety.
