(* ===== verification/PackSystem.v ===== *)
(** * The upload of a pack as a system

    The states that callers, the object store and other users of the store can
    reach from an empty path while a pack volume is uploaded, the invariant of
    these states, the receipt that a completed checkpoint gives, and what reading
    the uploaded pack returns. *)

From stdpp Require Import gmap.
From S2P Require Import Prelude Text Json WriteSegments Sha256 Paths Domain PackIngress Tar PackVolume PackRender Crypto Base64.
From S2P Require Import Age AgeUnits AgeRange StreamingAge ArchiveContracts RawVerification RawCheckpoint.
From S2P Require Import RawUpload UploadLayout UploadStore UploadSafety UploadSystem RawRetrieval RetrievalSystem PackRetrieval PackCheckpoint PackUpload PackLayout PackSafety.

Section pack_system.
Context `{PyEnv} `{Aead} `{StoreContract} (passphrase : pystr) (scrypt_log_n : Z).
Context (source_read_chunk_bytes max_inflight_bytes : Z) (q : PackRequest) (payloads : list (list pybytes)).

Notation plan := (pq_plan q).
Notation p := (pack_bytes plan payloads).
Notation laid := (laid p (pack_units plan)).
Notation session_text := (session_text passphrase scrypt_log_n p).
Notation object_path := (pq_object_path q).
Notation pack_good := (pack_good passphrase scrypt_log_n q payloads).
Notation pack_upload := (pack_upload passphrase scrypt_log_n q payloads).
Notation held := (held pack_upload).

(** ** Sealed checkpoints *)

Section sealed.
Context (Hq : pack_request_ok q payloads) (c : PackUploadCheckpoint) (s : ResumableAgeScryptSession).
Context (us : list AgeAlignedUnitPlan) (file : pybytes).
Context (Hc : pack_good c) (Hs : session_text (pk_age_state_json c) s) (Hl : laid s us file).

Lemma pack_state_text : from_json_text (pk_age_state_json c) = Ok (state_of s p) ∧
  session_from_state (PassText passphrase) (StateValue (state_of s p)) None = Ok s.
Proof. by apply (session_state passphrase scrypt_log_n p). Qed.

(** The number of a unit is its place. *)
Lemma pack_unit_numbers : (λ u, pu_unit u + 1) <$> pv_units plan = au_unit_number <$> us.
Proof.
  rewrite (laid_pack q payloads Hq s us file Hl), <- list_fmap_compose. apply list_fmap_ext. intros i u Hi. cbn.
  pose proof (pack_ranges plan payloads (po_valid _ _ Hq) (po_payloads _ _ Hq)) as Hr. rewrite Forall_forall in Hr. symmetry.
  by apply (pack_unit_facts s p (pack_positive plan payloads (po_valid _ _ Hq) (po_payloads _ _ Hq)) u), Hr, (list_elem_of_lookup_2 _ i).
Qed.

(** A recorded part passes the checks of [_validate_checkpoint]. *)
Lemma pack_part_validates part : part ∈ pk_archive_parts c →
  validate_part (by_number (λ u, pu_unit u + 1) (pv_units plan)) tt part = Ok tt.
Proof.
  intros Hin. pose proof (ly_parts _ _ _ _ (pack_layout_of_good passphrase scrypt_log_n q payloads c s us file Hc Hs Hl)) as Hparts.
  unfold parts_of_units in Hparts. rewrite Forall_forall in Hparts. destruct (Hparts part Hin) as (v & Hv & ->).
  rewrite (laid_pack q payloads Hq s us file Hl) in Hv. apply list_elem_of_fmap in Hv as (u & -> & Hu).
  pose proof (pack_ranges plan payloads (po_valid _ _ Hq) (po_payloads _ _ Hq)) as Hr. rewrite Forall_forall in Hr.
  pose proof (pack_positive plan payloads (po_valid _ _ Hq) (po_payloads _ _ Hq)) as Hpos.
  destruct (pack_unit_facts s p Hpos u (Hr u Hu)) as (Hn & Hps & Hpe & _).
  assert (NoDup ((λ u, pu_unit u + 1) <$> pv_units plan)) as Hnd.
  { rewrite pack_unit_numbers, (ld_numbers _ _ _ _ _ Hl). apply NoDup_seqZ. }
  destruct (by_number_spec (λ u, pu_unit u + 1) (pv_units plan) Hnd) as [_ Hby]. apply Hby in Hu.
  unfold validate_part, part_of. cbn [sap_number sap_plaintext_start sap_plaintext_bytes]. rewrite Hn, Hu, Hps, Z.eqb_refl.
  unfold plaintext_len, pu_plaintext_bytes. by rewrite Hps, Hpe, Z.eqb_refl.
Qed.

Lemma pack_validates plans : segment_plans us = Ok plans →
  (is_Some (pk_completed c) → len (pk_archive_parts c) = len us) → validate_own passphrase plan c = Ok tt.
Proof.
  intros Hp Hdone. pose proof (ly_segments _ _ _ _ (pack_layout_of_good passphrase scrypt_log_n q payloads c s us file Hc Hs Hl)) as Hsegs.
  destruct (pgd_static _ _ _ _ _ Hc) as (_ & Hv & _ & Hrel & Hsha & Hpb).
  unfold validate_own, _validate_checkpoint. rewrite Hv, Hsha, Hpb, !Z.eqb_refl, !(bool_decide_eq_true_2 (_ = _)) by done. cbn [negb orb].
  rewrite Hrel, (proj1 (po_relative _ _ Hq)), ok_bind, bool_decide_eq_true_2 by done. cbn [negb].
  destruct pack_state_text as [-> _]. rewrite ok_bind, <- (pack_bytes_len q payloads Hq), bool_decide_eq_true_2 by done. cbn [negb].
  assert (foldM (validate_part (by_number (λ u, pu_unit u + 1) (pv_units plan))) tt (pk_archive_parts c) = Ok tt) as ->.
  { pose proof pack_part_validates as Hall. revert Hall. generalize (pk_archive_parts c). intros parts.
    induction parts as [|part parts IH]; intros Hall; [done|]. cbn [foldM].
    rewrite Hall by by left. rewrite ok_bind. apply IH. intros x Hx. apply Hall. by right. }
  rewrite ok_bind, (pack_session_cached passphrase scrypt_log_n q payloads c s Hs), ok_bind, (pack_segment_plans q payloads s us file Hl), Hp, ok_bind. cbv zeta.
  rewrite (bool_decide_eq_true_2 (seg_pair <$> _ = _)) by exact (segments_recorded _ _ _ _ Hsegs Hp). cbn [negb].
  pose proof (pg_next _ (qv_progress _ (pgd_valid _ _ _ _ _ Hc)) : pk_next_unit c = _first_missing_unit (pk_archive_parts c)) as Hnext.
  rewrite <- Hnext, Z.eqb_refl. cbn [negb]. destruct (pk_completed c) as [k|]; [|done].
  by rewrite (Hdone ltac:(done)), (pack_units_len q payloads Hq s us file Hl), Z.eqb_refl.
Qed.

Lemma pack_sealed_units k : pk_completed c = Some k →
  pk_archive_parts c = part_of p file <$> us ∧ cr_bytes k = len file ∧ ∃ plans, segment_plans us = Ok plans.
Proof.
  intros Hk. pose proof (pack_layout_of_good passphrase scrypt_log_n q payloads c s us file Hc Hs Hl) as Hy.
  destruct (lays_units p _ s us file Hl (as_raw c) k Hy Hk) as [Hall Hb]. split_and!; [done|done|].
  destruct (lays_plans p _ s us file Hl (as_raw c) Hy Hall) as (plans & Hp & _). by exists plans.
Qed.

(** The receipt of a sealed checkpoint. *)
Definition sealed_pack (k : CompletedRawObject) : SealedPackVolume :=
  {| spv_volume_id := pv_volume_id plan; spv_sequence := pv_sequence plan; spv_relative_path := pq_relative_path q;
     spv_files := len (pv_members plan); spv_source_bytes := sumZ pm_bytes (pv_members plan);
     spv_plaintext_bytes := len p; spv_age_state_json := pk_age_state_json c;
     spv_index_sha256 := pv_index_sha256 plan; spv_plan_sha256 := pv_plan_sha256 plan;
     spv_parts := part_of p file <$> us; spv_revision := cr_revision k;
     spv_completed_at := cr_completed_at k; spv_retrieval_cache := cr_retrieval_cache k |}.

Lemma sealed_pack_ok k : pk_completed c = Some k → sealed_receipt passphrase plan c = Ok (sealed_pack k).
Proof.
  intros Hk. destruct (pack_sealed_units k Hk) as (Hall & _ & plans & Hp). unfold sealed_receipt.
  rewrite (pack_validates plans), ok_bind by (try done; intros _; by rewrite Hall, len_fmap).
  pose proof (pg_parts _ (qv_progress _ (pgd_valid _ _ _ _ _ Hc)) : increasing sap_number (pk_archive_parts c)) as Hinc.
  rewrite Hk, (sorted_byZ_id _ _ Hinc), Hall. destruct (pgd_static _ _ _ _ _ Hc) as (_ & _ & _ & -> & _).
  by rewrite <- (pack_bytes_len q payloads Hq).
Qed.
End sealed.

(** ** The system *)

(** The world and the checkpoints that callers hold. *)
Definition pack_system : Type := world * list PackUploadCheckpoint.

(** A call that raises leaves what the store and the row did until then.
    Callers may go on with any checkpoint they were ever given. *)
Inductive pstep : pack_system → pack_system → Prop :=
  | pstep_open w r w' cs file_key salt nonce :
      pack_fresh passphrase scrypt_log_n q file_key salt nonce (w_store w) →
      pack_open passphrase scrypt_log_n q file_key salt nonce w = (r, w') →
      pstep (w, cs) (w', kept r cs)
  | pstep_load w cs text c : load_pack_upload_checkpoint (w_row w) = Some text → from_json text = Ok c →
      pstep (w, cs) (w, c :: cs)
  | pstep_unit w r w' cs c number chunks : c ∈ cs → stream_ok q payloads number chunks →
      upload_unit passphrase source_read_chunk_bytes max_inflight_bytes plan c number chunks w = (r, w') →
      pstep (w, cs) (w', kept r cs)
  | pstep_next w r w' cs c chunks : c ∈ cs → stream_ok q payloads (pk_next_unit c) chunks →
      upload_next_unit passphrase source_read_chunk_bytes max_inflight_bytes plan c chunks w = (r, w') →
      pstep (w, cs) (w', kept r cs)
  | pstep_abort w r w' cs c : c ∈ cs → abort c w = (r, w') → pstep (w, cs) (w', cs)
  | pstep_other w st' cs : elsewhere pack_upload (w_store w) st' →
      pstep (w, cs) ({| w_store := st'; w_row := w_row w |}, cs).

(** Nothing at the path yet, and no checkpoint in the row. *)
Definition pack_initial (w : world) : Prop :=
  objects (w_store w) !! object_path = None ∧ ∀ r, w_row w = Some r → ur_checkpoint_json r = None.

Definition pack_reachable (σ : pack_system) : Prop := ∃ w, pack_initial w ∧ rtc pstep (w, []) σ.

(** ** The invariant of the system *)

Lemma pack_initial_inv w : pack_initial w → system_inv pack_upload (w, []).
Proof.
  intros (Ho & Hr). exists ∅. split; [|constructor].
  split; [|by intros r c Hrow; cbn; unfold row_checkpoint; rewrite (Hr r Hrow)].
  split; cbn [up_path pack_upload fst]; try (intros *; by rewrite lookup_empty). by rewrite Ho.
Qed.

Lemma pack_step_inv (Hq : pack_request_ok q payloads) σ σ' : pstep σ σ' → system_inv pack_upload σ → system_inv pack_upload σ'.
Proof.
  intros Hstep (tokens & Hi & Hcs). destruct Hstep; cbn [fst snd] in *.
  - destruct (pack_open_grows passphrase scrypt_log_n q payloads Hq tokens file_key salt nonce w r w') as (tokens' & Ht & Hi' & Hs & Hr); try done.
    eapply grown_inv; try done. intros c [Hc| ->]%kept_cases; auto.
  - exists tokens. split; [done|]. constructor; [|done].
    destruct (pack_loaded _ _ _ ltac:(eassumption) ltac:(eassumption)) as (row & Hrow & Hr). by eapply iv_row.
  - eapply (call_inv pack_upload tokens w r w' cs c); [done| |done|done|eassumption]. by apply pack_unit_triple.
  - eapply (call_inv pack_upload tokens w r w' cs c); [done| |done|done|eassumption]. by apply pack_next_triple.
  - destruct (pack_abort_triple passphrase scrypt_log_n q payloads tokens c w r w') as (Hi' & Hs & _); try done;
      [by rewrite Forall_forall in Hcs; apply Hcs|]. eapply grown_inv; try done. auto.
  - destruct (other_inv pack_upload tokens _ _ ltac:(eassumption) (iv_store _ _ _ Hi)) as [Hst Hs].
    apply (grown_inv pack_upload w _ cs cs tokens tokens); auto. by eapply inv_store.
Qed.

Lemma pack_reachable_inv (Hq : pack_request_ok q payloads) σ : pack_reachable σ → system_inv pack_upload σ.
Proof.
  intros (w & Hw & Hrun). apply pack_initial_inv in Hw. revert Hw. induction Hrun as [|a b c Hab _ IH]; [done|]. intros Ha.
  by apply IH, (pack_step_inv Hq a).
Qed.

(** A completed checkpoint in a caller's hands, with its object. *)
Lemma pack_sealed_object (Hq : pack_request_ok q payloads) w cs c k : pack_reachable (w, cs) → c ∈ cs → pk_completed c = Some k →
  ∃ o s us, objects (w_store w) !! object_path = Some o ∧ pack_good c ∧ session_text (pk_age_state_json c) s ∧ laid s us (ov_content o).
Proof.
  intros Hr Hin Hk. apply (pack_reachable_inv Hq) in Hr as (tokens & Hi & Hcs). cbn [fst snd] in *.
  rewrite Forall_forall in Hcs. destruct (Hcs c Hin) as [Hc Ht Hd].
  destruct (Hd ltac:(cbn; by rewrite Hk)) as (o & Ho & s & us & Hs & Hl). by exists o, s, us.
Qed.

(** What a completed checkpoint promises of the store: the object at the path is
    an age file of the recorded size that decrypts to the pack, and the checkpoint
    gives a receipt, whose parts have the sizes and digests of consecutive ranges
    of the object and of the pack. *)
Definition stands_for_pack (st : ost) (c : PackUploadCheckpoint) (k : CompletedRawObject) : Prop :=
  ∃ o v, objects st !! object_path = Some o ∧ len (ov_content o) = cr_bytes k ∧
    decrypt_age_scrypt (ov_content o) (PassText passphrase) None = Ok p ∧
    sealed_receipt passphrase plan c = Ok v ∧ spv_stored_bytes v = len (ov_content o) ∧ spv_plaintext_bytes v = len p ∧
    stored_as (spv_parts v) (ov_content o) ∧ plaintext_as (spv_parts v) p.

Lemma pack_stands (Hq : pack_request_ok q payloads) w cs c k : pack_reachable (w, cs) → c ∈ cs → pk_completed c = Some k →
  stands_for_pack (w_store w) c k.
Proof.
  intros Hr Hin Hk. destruct (pack_sealed_object Hq w cs c k Hr Hin Hk) as (o & s & us & Ho & Hc & Hs & Hl).
  exists o, (sealed_pack c us (ov_content o) k). destruct (pack_sealed_units c s us _ Hc Hs Hl k Hk) as (_ & Hb & _). split_and!; try done.
  - by apply (session_decrypts passphrase scrypt_log_n p (pack_limit q payloads Hq) (pack_units plan) (pk_age_state_json c) s us).
  - by apply (sealed_pack_ok Hq c s us _ Hc Hs Hl).
  - by apply (stored_total _ _ _ _ _ Hl).
  - by apply (stored_as_file p _ s us _ Hl).
  - by apply (plaintext_as_file p _ s us _ Hl).
Qed.

(** ** Reading the pack *)

(** The source that the catalog gives for a sealed pack. *)
Definition pack_retrieval_source (v : SealedPackVolume) : PackVolumeRetrievalSource :=
  {| ps_volume_id := spv_volume_id v; ps_object_path := object_path; ps_revision := spv_revision v;
     ps_plaintext_bytes := spv_plaintext_bytes v; ps_stored_bytes := spv_stored_bytes v;
     ps_age_state_json := spv_age_state_json v |}.

Lemma pack_source_ok (Hq : pack_request_ok q payloads) c s us file k : startswith (str "/") object_path = false →
  session_text (pk_age_state_json c) s → laid s us file →
  new_pack_source (pack_retrieval_source (sealed_pack c us file k)) = Ok (pack_retrieval_source (sealed_pack c us file k)).
Proof.
  intros Hrel Hs Hl. unfold new_pack_source, pack_retrieval_source, sealed_pack, spv_stored_bytes.
  cbn [ps_volume_id ps_object_path ps_plaintext_bytes ps_stored_bytes ps_age_state_json spv_volume_id spv_plaintext_bytes spv_parts spv_age_state_json].
  destruct (plan_valid_facts plan (po_valid _ _ Hq)) as (_ & Hid & Hseq & _). rewrite Hid, pack_volume_id_match by done. cbn [negb].
  destruct (po_object _ _ Hq) as [Hne _]. rewrite bool_decide_eq_false_2, Hrel by done. cbn [orb].
  pose proof (pack_positive plan payloads (po_valid _ _ Hq) (po_payloads _ _ Hq)) as Hpos. pose proof (file_nonempty p _ s us file Hl).
  rewrite (stored_total _ _ _ _ _ Hl), (proj2 (Z.leb_gt (len p) 0)), (proj2 (Z.leb_gt (len file) 0)) by lia. cbn [orb].
  destruct (session_state passphrase scrypt_log_n p _ s Hs) as [Hread _]. rewrite Hread, ok_bind, bool_decide_eq_true_2 by done. cbn [negb].
  destruct Hs as (_ & _ & _ & state & _ & _ & _ & _ & Hv & Hz & He & Hh & Hn & _). assert (state = state_of s p) as -> by by apply state_is.
  destruct (age_text_read _ Hv) as (content & Hto & Hdec & _). unfold canonical_json_bytes in Hto. rewrite <- (state_text_forms _ Hv) in Hto, Hdec, He.
  unfold to_json_bytes. rewrite Hto, ok_bind, Hdec, ok_bind, He, bool_decide_eq_true_2; done.
Qed.

Lemma pack_source_stored (Hq : pack_request_ok q payloads) c s us file k iter_object_range : session_text (pk_age_state_json c) s →
  laid s us file → serves iter_object_range object_path (cr_revision k) file →
  stored_pack iter_object_range (PassText passphrase) (pack_retrieval_source (sealed_pack c us file k)) p file s.
Proof.
  intros Hs Hl Hserves. destruct (session_state passphrase scrypt_log_n p _ s Hs) as [Hread Hsession]. split; try done.
  - by apply pack_limit.
  - by apply (stored_total _ _ _ _ _ Hl).
  - apply Hl.
Qed.

(** What a completed checkpoint promises to a reader: for any selection of the
    members whose chunks respect the bound, whatever chunks the store serves and
    in whatever order the requests complete, the bytes of the files. *)
Definition retrievable_pack (st : ost) (c : PackUploadCheckpoint) : Prop :=
  ∃ v o, sealed_receipt passphrase plan c = Ok v ∧ objects st !! object_path = Some o ∧
    let source := pack_retrieval_source v in
    new_pack_source source = Ok source ∧
    ∀ iter_object_range read_working_bytes capacity policy members,
      serves iter_object_range object_path (spv_revision v) (ov_content o) → NoDup members → members ⊆ pv_members plan →
      Forall (λ m, span_bytes (ps_plaintext_bytes source) (member_request m) ≤ po_max_request_ciphertext_bytes policy) members →
      2 * po_max_request_ciphertext_bytes policy ≤ capacity →
      ∃ requests, plan_pack_range_retrieval source (member_request <$> members) policy = Ok requests ∧
        ∀ completed, completed ≡ₚ gp_requests requests →
          ∃ out, read_members iter_object_range (PassText passphrase) read_working_bytes capacity requests completed = Ok out ∧
            dom out = (list_to_set (pm_path <$> members) : gset pystr) ∧
            ∀ m content, (m, content) ∈ zip (pv_members plan) (concat payloads) → m ∈ members → out !! pm_path m = Some content.

Lemma pack_retrieves (Hq : pack_request_ok q payloads) w cs c k : startswith (str "/") object_path = false →
  pack_reachable (w, cs) → c ∈ cs → pk_completed c = Some k → retrievable_pack (w_store w) c.
Proof.
  intros Hrel Hr Hin Hk. destruct (pack_sealed_object Hq w cs c k Hr Hin Hk) as (o & s & us & Ho & Hc & Hs & Hl).
  exists (sealed_pack c us (ov_content o) k), o. split; [by apply (sealed_pack_ok Hq c s us _ Hc Hs Hl)|]. split; [done|]. cbv zeta.
  split; [by apply (pack_source_ok Hq c s us)|]. intros iter rwb cap policy members Hserves Hnd Hsub Hspan Hcap.
  apply (packed_read iter (PassText passphrase) rwb cap plan payloads _ (ov_content o) s); try done; try apply Hq.
  by apply pack_source_stored.
Qed.

(** ** Wrong bytes *)

(** A body that is not the payloads of its unit is refused before the store is
    asked for anything. *)
Lemma wrong_payload_refused (Hq : pack_request_ok q payloads) c w k u chunks : pack_good c → pk_completed c = None →
  pv_units plan !! k = Some u → _part_by_number (pk_archive_parts c) (Z.of_nat k + 1) = None →
  (∀ ps, concat chunks = concat ps → Forall2 file_payload (pu_sources u) ps → False) →
  ∃ e, upload_unit passphrase source_read_chunk_bytes max_inflight_bytes plan c (Z.of_nat k) chunks w = (Err e, w).
Proof.
  intros Hc Hopen Hk Hpart Hwrong. unfold upload_unit. apply lift_stops. intros [] _. rewrite Hopen.
  apply lift_stops. intros [] _. rewrite Hpart.
  assert (∃ e, _prepare_and_upload_unit passphrase source_read_chunk_bytes max_inflight_bytes plan c (Z.of_nat k) chunks w = (Err e, w)) as [e He];
    [|exists e; unfold mbind, effect_bind; by rewrite He].
  unfold _prepare_and_upload_unit. apply lift_stops. intros u' _. apply lift_stops. intros s _.
  apply lift_stops. intros age_plan _. cbv zeta. apply lift_stops. intros [] _.
  apply lift_stops. intros cut Hcut. apply rechunk_canonical in Hcut as (_ & Hcat & _).
  apply lift_stops. intros prepared Hprep. exfalso.
  destruct (iter_render_pack_upload_unit_payload plan (Z.of_nat k) cut) as [out [[]|e]] eqn:Hrun; cbn [prepare_stream] in Hprep;
    [|by destruct (prepare_age_part _ _ _ _) as [|e']; [|destruct (pulled_all e')]].
  destruct (proj1 (render_payload_exact plan (po_valid _ _ Hq) k u cut (concat out) Hk)) as (ps & Hps & Hf & _); [by exists out|].
  apply (Hwrong ps); [congruence|done].
Qed.
End pack_system.
