(* ===== verification/PackProgress.v ===== *)
(** * Pack uploads finish

    With a store that serves every call ([UploadProgress.StoreServes]), opening the
    upload of a pack and sending the contents of its units one after the other ends
    in a sealed checkpoint; with the invariant of [PackSystem] this gives what a
    sealed pack stands for. *)

From stdpp Require Import gmap.
From S2P Require Import Prelude Text Json WriteSegments Sha256 Paths Domain PackIngress Tar PackVolume PackRender Crypto Base64.
From S2P Require Import Age AgeUnits AgeRange StreamingAge ArchiveContracts RawVerification RawCheckpoint.
From S2P Require Import RawUpload MemoryStore UploadLayout UploadStore UploadSafety UploadSystem UploadProgress RawRetrieval RetrievalSystem.
From S2P Require Import PackRetrieval PackCheckpoint PackUpload PackLayout PackSafety PackSystem.

(** Payloads of given sizes are determined by their concatenation. *)
Lemma payloads_unique fs ps ps' : Forall2 file_payload fs ps → Forall2 file_payload fs ps' → concat ps = concat ps' → ps' = ps.
Proof.
  intros Hps. revert ps'. induction Hps as [|f x fs ps [Hx _] _ IH]; intros ps' Hps' Hc; [by inversion Hps'|].
  inversion Hps' as [|? y ? ps0 [Hy _] Hrest]; subst. cbn [concat] in Hc. unfold len in *.
  apply app_inj_1 in Hc as [<- Hc]; [|lia]. f_equal. by apply IH.
Qed.

Section pack_progress.
Context `{PyEnv} `{Aead} `{StoreServes} (passphrase : pystr) (scrypt_log_n : Z).
Context (source_read_chunk_bytes max_inflight_bytes : Z) (q : PackRequest) (payloads : list (list pybytes)).
Context (Hq : pack_request_ok q payloads).

Notation plan := (pq_plan q).
Notation p := (pack_bytes plan payloads).
Notation laid := (laid p (pack_units plan)).
Notation session_text := (session_text passphrase scrypt_log_n p).
Notation object_path := (pq_object_path q).
Notation pack_good := (pack_good passphrase scrypt_log_n q payloads).
Notation pack_upload := (pack_upload passphrase scrypt_log_n q payloads).
Notation held := (held pack_upload).
Notation inv := (inv pack_upload).

(** The calls of a client that sends one unit after the other. *)
Fixpoint upload_pack_units (c : PackUploadCheckpoint) (streams : list (list pybytes)) : effect PackUploadCheckpoint :=
  match streams with
  | [] => mret c
  | chunks :: streams =>
      c ← upload_next_unit passphrase source_read_chunk_bytes max_inflight_bytes plan c chunks;
      upload_pack_units c streams
  end.

Definition send_pack (file_key salt nonce : pybytes) (streams : list (list pybytes)) : effect PackUploadCheckpoint :=
  c ← pack_open passphrase scrypt_log_n q file_key salt nonce; upload_pack_units c streams.

Notation pstep := (pstep passphrase scrypt_log_n source_read_chunk_bytes max_inflight_bytes q payloads).

(** ** Saving *)

(** What the row must be for a checkpoint to be saved as it is. *)
Definition pack_row_below (w : world) (c : PackUploadCheckpoint) : Prop :=
  ∃ r previous, w_row w = Some r ∧ ur_kind r = str "pack" ∧ row_checkpoint r = Ok previous ∧
    ∀ d, previous = Some d → pack_good d ∧ below (as_raw d) (as_raw c).

Definition pack_row_is (w : world) (c : PackUploadCheckpoint) : Prop :=
  ∃ r, w_row w = Some r ∧ ur_kind r = str "pack" ∧ row_checkpoint r = Ok (Some c).

Lemma pack_save_returns w c : pack_good c → pack_row_below w c →
  ∃ w', _save c w = (Ok c, w') ∧ w_store w' = w_store w ∧ pack_row_is w' c.
Proof.
  intros Hc (r & previous & Hr & Hkind & Hprev & Hbelow). destruct (pack_checkpoint_text c (pgd_valid _ _ _ _ _ Hc)) as (text & Hto & Hfrom).
  pose proof (qv_progress _ (pgd_valid _ _ _ _ _ Hc)) as Hv.
  assert (merge_pack_upload_checkpoints (default c previous) c = Ok c) as Hmerge.
  { apply merge_as_raw. destruct previous as [d|]; cbn [default]; [|by apply merge_known]. destruct (Hbelow d eq_refl) as [Hd Hb].
    apply merge_below; [apply (qv_progress _ (pgd_valid _ _ _ _ _ Hd))|done|done]. }
  unfold _save. setoid_rewrite (run_lift _ _ _ w Hto). unfold mbind, effect_bind, merge_checkpoint, merge_pack_upload_checkpoint.
  rewrite Hr, Hfrom, ok_bind. cbv zeta. rewrite Hkind. rewrite (bool_decide_eq_true_2 (str "pack" = str "pack")) by done. cbn [negb].
  rewrite Hprev, ok_bind, Hmerge, ok_bind, Hto, ok_bind. unfold lift. rewrite Hfrom. eexists. split; [done|]. split; [done|].
  eexists. split; [done|]. split; [done|]. unfold row_checkpoint. cbn [ur_checkpoint_json].
  destruct text as [|x text]; [done|]. by rewrite Hfrom.
Qed.

Lemma pack_save_keeps tokens w c : pack_good c → pack_row_below w c → tokens !! pk_write_token c = Some (pk_age_state_json c) →
  inv tokens w → (is_Some (pk_completed c) → sealed pack_upload (w_store w) (pk_age_state_json c)) →
  ∃ w', _save c w = (Ok c, w') ∧ w_store w' = w_store w ∧ pack_row_is w' c ∧ inv tokens w' ∧ held tokens (w_store w') c.
Proof.
  intros Hc Hrow Ht Hi Hseal. destruct (pack_save_returns w c Hc Hrow) as (w' & Hrun & Hst & Hrow').
  destruct (pack_save_triple passphrase scrypt_log_n q payloads Hq tokens c Hc Ht w (Ok c) w' Hi Hseal Hrun) as (Hi' & _ & Hh & _).
  exists w'. done.
Qed.

(** The loop over the segments is that of a raw upload. *)
Lemma pack_writes c session content l w : write_session c = Ok session →
  Forall (λ pl, len (slice (ws_archive_part_offset pl) (ws_archive_part_offset pl + ws_stored_bytes pl) content) = ws_stored_bytes pl) l →
  write_segments c content l w = RawUpload.write_segments session content l w.
Proof.
  intros Hs Hl. revert w. induction Hl as [|pl l Hpl _ IH]; intros w; [done|]. cbn [write_segments RawUpload.write_segments]. cbv zeta.
  rewrite (run_lift _ _ _ _ Hs), Hpl. unfold mbind, effect_bind, ask, lift. destruct (write_segment _ _ _ _) as [[receipt|e] st]; [|done].
  cbn. destruct (negb _ || negb _); [done|]. by rewrite IH.
Qed.

Section laid_out.
Context (tokens : gmap pystr pystr) (s : ResumableAgeScryptSession) (us : list AgeAlignedUnitPlan) (file : pybytes).
Context (plans : list WriteSegmentPlan) (Hl : laid s us file) (Hplans : segment_plans us = Ok plans).
Context (Hread : 64 * 1024 ≤ source_read_chunk_bytes).

(** The budget admits the buffers of every unit. *)
Context (Hbudget : ∀ u, u ∈ us → ciphertext_len u + source_read_chunk_bytes + CHUNK_SIZE ≤ max_inflight_bytes).

(** A checkpoint with the first [i] units, in the row, of a write that goes on. *)
Record pack_live (w : world) (c : PackUploadCheckpoint) (i : nat) : Prop := {
  plv_inv : inv tokens w;
  plv_held : held tokens (w_store w) c;
  plv_session : session_text (pk_age_state_json c) s;
  plv_open : pk_completed c = None;
  plv_row : pack_row_is w c;
  plv_parts : pk_archive_parts c = part_of p file <$> take i us;
  plv_current : ∀ session, write_session c = Ok session → Forall (current (w_store w) session) (pk_write_segments c);
  plv_object : objects (w_store w) !! object_path = None;
  plv_write : ∃ v, writes (w_store w) !! pk_write_token c = Some v ∧ wv_content_type v = PACK_VOLUME_CONTENT_TYPE;
}.

Lemma pack_live_good w c i : pack_live w c i → pack_good c.
Proof. intros Hw. apply (plv_held _ _ _ Hw). Qed.

Lemma pack_live_token w c i : pack_live w c i → tokens !! pk_write_token c = Some (pk_age_state_json c).
Proof. intros Hw. exact (hd_token _ _ _ _ (plv_held _ _ _ Hw)). Qed.

Lemma pack_session_ok c : session_text (pk_age_state_json c) s → ∃ session, write_session c = Ok session.
Proof.
  intros (_ & _ & _ & state & _ & _ & _ & _ & Hv & Hz & He & _). unfold write_session, _stored_bytes_for_state.
  destruct (age_text_read state Hv) as (_ & _ & _ & Hread'). rewrite He, Hread', ok_bind, Hz.
  destruct (expected_bytes_ok p _ s us file Hl (len (us_header state) + len (us_payload_nonce state))) as [n ->]. rewrite ok_bind. by eexists.
Qed.

(** ** One unit *)

Lemma pack_unit_at k u : pv_units plan !! k = Some u → us !! k = Some (pack_unit s p u).
Proof. intros Hk. by rewrite (laid_pack q payloads Hq s us file Hl), list_lookup_fmap, Hk. Qed.

Lemma pack_stream k u ps chunks : pv_units plan !! k = Some u → payloads !! k = Some ps → concat chunks = concat ps →
  Forall2 file_payload (pu_sources u) ps ∧ stream_ok q payloads (Z.of_nat k) chunks.
Proof.
  intros Hk Hps Hc. pose proof (po_payloads _ _ Hq) as Hall. pose proof (Forall2_lookup_lr _ _ _ _ _ _ Hall Hk Hps) as Hf. split; [done|].
  intros k' u' Hk' Hu'. assert (k' = k) as -> by lia. assert (u' = u) as -> by congruence. exists ps. split; [done|]. intros ps' Hc' Hf'.
  apply (payloads_unique (pu_sources u)); [done|done|congruence].
Qed.

(** Rendering and encrypting a unit with the contents of its files succeed. *)
Lemma pack_renders k u ps cut : pv_units plan !! k = Some u → payloads !! k = Some ps → concat cut = concat ps →
  ∃ prepared, prepare_stream s (pack_unit s p u) (len p) (iter_render_pack_upload_unit_payload plan (Z.of_nat k) cut) = Ok prepared.
Proof.
  intros Hk Hps Hc. destruct (pack_stream k u ps cut Hk Hps Hc) as [Hf _].
  destruct (proj2 (render_payload_exact plan (po_valid _ _ Hq) k u cut (PackRender.unit_bytes plan u ps) Hk)) as (out & Hrun & Hout); [by exists ps|].
  rewrite Hrun. cbn [prepare_stream]. pose proof (pack_positive plan payloads (po_valid _ _ Hq) (po_payloads _ _ Hq)) as Hpos.
  pose proof (pack_ranges plan payloads (po_valid _ _ Hq) (po_payloads _ _ Hq)) as Hr. rewrite Forall_forall in Hr.
  pose proof (Hr u (list_elem_of_lookup_2 _ _ _ Hk)) as Hrange. destruct (range_units p Hpos _ _ Hrange) as (_ & Hf' & Hper & Hsum & Hle & _).
  destruct (prepare_planned s p (pack_limit q payloads Hq) (chunks_in (pu_plaintext_end u - pu_plaintext_start u)) (pu_plaintext_start u / CHUNK_SIZE)
    (pu_unit u + 1) (stored_at s (pu_plaintext_start u)) out Hper ltac:(lia)) as [Hgood _].
  fold (pack_unit s p u) in Hgood. eexists. apply Hgood. destruct (pack_slices plan payloads (po_valid _ _ Hq) (po_payloads _ _ Hq)) as [Hall _].
  destruct (pack_unit_facts s p Hpos u Hrange) as (_ & -> & -> & _). rewrite Hout. symmetry.
  exact (Forall2_lookup_lr _ _ _ _ _ _ Hall Hk Hps).
Qed.

(** Up to the writes nothing can fail. *)
Lemma pack_prepare_runs w c k u ps chunks : session_text (pk_age_state_json c) s → pv_units plan !! k = Some u →
  payloads !! k = Some ps → concat chunks = concat ps →
  _prepare_and_upload_unit passphrase source_read_chunk_bytes max_inflight_bytes plan c (Z.of_nat k) chunks w =
  (receipts ← write_segments c (stored file (pack_unit s p u)) (filter (λ pl, ws_archive_part_number pl = Z.of_nat k + 1) plans);
   mret (part_of p file (pack_unit s p u), receipts)) w.
Proof.
  intros Hs Hk Hps Hchunks. pose proof (list_elem_of_lookup_2 _ _ _ (pack_unit_at k u Hk)) as Hu.
  pose proof (ld_lengths _ _ _ _ _ Hl) as Hlens. rewrite Forall_forall in Hlens. destruct (Hlens _ Hu) as (Hlen & Hone & Hpl & _).
  pose proof (len_nonneg (plain p (pack_unit s p u))) as Hnn. specialize (Hbudget _ Hu). unfold _prepare_and_upload_unit.
  pose proof (pack_positive plan payloads (po_valid _ _ Hq) (po_payloads _ _ Hq)) as Hpos.
  pose proof (pack_ranges plan payloads (po_valid _ _ Hq) (po_payloads _ _ Hq)) as Hr. rewrite Forall_forall in Hr.
  rewrite (run_lift _ u) by by apply py_index_nat.
  rewrite (run_lift _ s) by exact (pack_session_cached passphrase scrypt_log_n q payloads c s Hs).
  rewrite <- (pack_bytes_len q payloads Hq).
  rewrite (run_lift _ (pack_unit s p u)) by (apply (age_part_plan_unit s p Hpos), Hr; by eapply list_elem_of_lookup_2). cbv zeta.
  rewrite (run_lift _ tt) by (unfold acquire_bytes, CHUNK_SIZE in *; rewrite (proj2 (Z.leb_gt _ _)), (proj2 (Z.ltb_ge _ _)) by lia; done).
  assert (∃ cut, iter_rechunk chunks source_read_chunk_bytes = Ok cut) as [cut Hcut].
  { unfold iter_rechunk. rewrite (proj2 (Z.ltb_ge _ _)) by lia. by eexists. }
  rewrite (run_lift _ cut) by done. pose proof (rechunk_canonical _ _ _ Hcut) as (_ & Hcat & _).
  destruct (pack_renders k u ps cut Hk Hps ltac:(congruence)) as [prepared Hprep]. rewrite (run_lift _ _ _ _ Hprep).
  destruct (pack_stream k u ps chunks Hk Hps Hchunks) as [_ Hstream].
  destruct (pack_prepared q payloads Hq s us file Hl k u chunks cut prepared Hk Hstream Hcat Hprep) as [-> ->].
  by rewrite (run_lift _ plans) by by rewrite (pack_segment_plans q payloads s us file Hl).
Qed.

Lemma pack_prepare_returns w c k u ps chunks : pack_live w c k → pv_units plan !! k = Some u → payloads !! k = Some ps →
  concat chunks = concat ps →
  ∃ receipts w' v, _prepare_and_upload_unit passphrase source_read_chunk_bytes max_inflight_bytes plan c (Z.of_nat k) chunks w =
      (Ok (part_of p file (pack_unit s p u), receipts), w') ∧
    w_row w' = w_row w ∧ objects (w_store w') = objects (w_store w) ∧
    writes (w_store w') !! pk_write_token c = Some v ∧ wv_content_type v = PACK_VOLUME_CONTENT_TYPE ∧
    recorded plans [part_of p file (pack_unit s p u)] receipts ∧ Forall segment_valid receipts ∧ inv tokens w' ∧
    ∀ session, write_session c = Ok session → Forall (current (w_store w') session) receipts ∧
      ∀ r, wr_number r ∉ wr_number <$> receipts → current (w_store w) session r → current (w_store w') session r.
Proof.
  intros Hw Hk Hps Hchunks. pose proof (pack_live_good _ _ _ Hw) as Hc. pose proof (plv_session _ _ _ Hw) as Hs.
  pose proof (pack_unit_at k u Hk) as Hi. pose proof (list_elem_of_lookup_2 _ _ _ Hi) as Hu. pose proof (unit_at p _ s us file Hl k _ Hi) as Hnum.
  destruct (pack_stream k u ps chunks Hk Hps Hchunks) as [_ Hstream].
  pose proof (pack_prepare_triple passphrase scrypt_log_n q payloads Hq source_read_chunk_bytes max_inflight_bytes tokens c s us file Hc
    (pack_live_token _ _ _ Hw) Hs Hl k u chunks Hk Hstream) as Htriple.
  destruct (pack_session_ok c Hs) as (session & Hsession). destruct (plv_write _ _ _ Hw) as (v & Hv & Hct).
  pose proof (pack_write_session _ _ _ _ c Hc session Hsession) as [_ Htok]. rewrite <- Htok in Hv.
  set (l := filter (λ pl, ws_archive_part_number pl = Z.of_nat k + 1) plans).
  assert (increasing ws_number l) as Hinc by (eapply increasing_sublist; [apply sublist_filter|by eapply plans_increasing]).
  destruct (write_returns session (stored file (pack_unit s p u)) l w v Hinc Hv) as (receipts & w' & v' & Hrun & Hrow & Ho & Hv' & Hct' & Hall & Hkept).
  pose proof (pack_prepare_runs w c k u ps chunks Hs Hk Hps Hchunks) as Hexec. fold l in Hexec.
  rewrite <- (pack_writes c session) in Hrun.
  2: done.
  2: { apply Forall_forall. intros pl [Hn Hin]%list_elem_of_filter.
       destruct (plan_unit p _ s us file Hl plans pl Hplans Hin) as (u' & Hu' & Hn' & Hb & Hlen & _).
       assert (u' = pack_unit s p u) as -> by (apply (unit_of_number p _ s us file Hl); [done|done|lia]). by rewrite <- Hb. }
  rewrite (run_bind _ _ _ _ _ Hrun) in Hexec.
  destruct (Htriple w _ w' (plv_inv _ _ _ Hw) I Hexec) as (Hinv & _ & _ & plans' & Hp' & Hrec & Hvalid). cbn [snd] in *.
  assert (plans' = plans) as -> by congruence.
  exists receipts, w', v'. split; [exact Hexec|]. split_and!; try done; [by rewrite <- Htok|congruence|].
  intros session' Hsession'. assert (session' = session) as -> by congruence. split; [done|]. intros r Hr. apply Hkept.
  intros (pl & Hn & Hin)%list_elem_of_fmap. apply Hr. rewrite Hn. unfold recorded in Hrec.
  assert (plan_pair pl ∈ seg_pair <$> receipts) as (r' & He & Hr')%list_elem_of_fmap.
  { rewrite Hrec. apply list_elem_of_fmap_2. unfold l in Hin. rewrite list_elem_of_filter in Hin |- *. destruct Hin as [Hn' Hin]. split; [|done].
    rewrite Hn'. cbn [fmap list_fmap part_of sap_number]. apply list_elem_of_singleton. lia. }
  injection He as He _. rewrite He. by apply list_elem_of_fmap_2.
Qed.

(** A new part with its segments. *)
Definition pack_extended (c : PackUploadCheckpoint) (u : AgeAlignedUnitPlan) (segments : list WriteSegmentReceipt) : PackUploadCheckpoint :=
  let ordered := sorted_byZ sap_number (pk_archive_parts c ++ [part_of p file u]) in
  with_progress c (_first_missing_unit ordered) ordered segments (pk_completed c).

Lemma extended_as_raw c u segments : as_raw (pack_extended c u segments) = extended p file (as_raw c) u segments.
Proof.
  unfold pack_extended, extended. cbv zeta. rewrite <- (sorted_byZ_perm sap_number (rk_archive_parts (as_raw c) ++ _)) at 1. done.
Qed.

Lemma pack_record_returns w w1 v c i u receipts : pack_live w c i → us !! i = Some u → w_row w1 = w_row w →
  objects (w_store w1) = objects (w_store w) → writes (w_store w1) !! pk_write_token c = Some v →
  wv_content_type v = PACK_VOLUME_CONTENT_TYPE → recorded plans [part_of p file u] receipts → Forall segment_valid receipts →
  inv tokens w1 →
  (∀ session, write_session c = Ok session → Forall (current (w_store w1) session) receipts ∧
      ∀ r, wr_number r ∉ wr_number <$> receipts → current (w_store w) session r → current (w_store w1) session r) →
  ∃ e w', _record_part c (part_of p file u) receipts w1 = (Ok e, w') ∧ pack_live w' e (S i).
Proof.
  intros Hw Hi Hrow Ho Hv Hct Hrec Hvalid Hinv Hcur. pose proof (pack_live_good _ _ _ Hw) as Hc.
  pose proof (plv_session _ _ _ Hw) as Hs. pose proof (plv_open _ _ _ Hw) as Hopen. pose proof (plv_parts _ _ _ Hw) as Hparts.
  pose proof (list_elem_of_lookup_2 _ _ _ Hi) as Hu. pose proof (pack_live_token _ _ _ Hw) as Ht.
  assert (au_unit_number u ∉ sap_number <$> pk_archive_parts c) as Hnew by (rewrite Hparts; by apply (unit_new p _ s us file Hl)).
  pose proof (pack_layout_of_good _ _ _ _ c s us file Hc Hs Hl) as Hy.
  pose proof (new_segments p _ s us file Hl plans (as_raw c) i u receipts Hplans Hy Hi Hparts Hrec) as Hdisj.
  pose proof (pg_segments _ (ly_progress _ _ _ _ Hy)) as Hsi. cbn [as_raw rk_write_segments] in Hdisj, Hsi.
  assert (increasing wr_number receipts) as Hinc by (eapply recorded_increasing; [eapply plans_increasing|]; eassumption).
  destruct (merge_by_ok wr_number segment_conflict (pk_write_segments c) receipts Hsi Hinc) as (segments & Hm).
  { intros x y Hx Hy' He. exfalso. apply (Hdisj x Hx). rewrite He. by apply list_elem_of_fmap_2. }
  pose proof (proj1 (merge_by_iff _ _ _ _ _ Hsi Hinc) Hm) as [_ [_ Hz]].
  pose proof (proj1 (merge_by_agree _ _ RawCheckpoint.segment_conflict _ _ _) Hm) as Hm'.
  pose proof (lays_record p _ s us file Hl (as_raw c) u receipts segments plans Hy Hopen Hu Hnew Hplans Hrec Hvalid Hm') as Hy'.
  rewrite <- extended_as_raw in Hy'. apply (pack_good_layout _ _ _ _ Hq c s us file Hc Hs Hl) in Hy' as Hge; [|done].
  destruct (pack_save_keeps tokens w1 (pack_extended c u segments) Hge) as (w' & Hrun & Hst & Hrow' & Hinv' & Hheld);
    [|done|done|cbn; rewrite Hopen; by intros []|].
  { destruct (plv_row _ _ _ Hw) as (r & Hr & Hkind & Hrc). exists r, (Some c). rewrite Hrow. split_and!; try done.
    intros d [= <-]. split; [done|]. split; try done; cbn.
    - intros z Hin. rewrite (sorted_byZ_perm sap_number). apply elem_of_app. by left.
    - intros z Hin. apply Hz. by left. }
  exists (pack_extended c u segments), w'. split.
  - unfold _record_part. rewrite (no_part p (as_raw c) file u Hnew : _part_by_number (pk_archive_parts c) _ = None). cbv zeta.
    by rewrite (run_lift _ tt), (run_lift _ segments) by done.
  - split; try done; [|intros session Hsession|by rewrite Hst, Ho; apply (plv_object _ _ _ Hw)|exists v; by rewrite Hst].
    + pose proof (extended_parts p _ s us file Hl (as_raw c) i u segments Hi Hparts) as He. by rewrite <- extended_as_raw in He.
    + rewrite Hst. destruct (Hcur session Hsession) as [Hnew' Hkept].
      pose proof (plv_current _ _ _ Hw session Hsession) as Hold. rewrite Forall_forall in *. intros r [Hin|Hin]%Hz; [|auto].
      apply Hkept; [by apply Hdisj|auto].
Qed.

(** ** Sealing *)

Lemma pack_complete_served w c i session v m : pack_live w c i → take i us = us → write_session c = Ok session →
  writes (w_store w) !! pk_write_token c = Some v → _object_metadata plan (Some (pk_age_state_json c)) = Ok m → wv_metadata v = m →
  wv_path v = object_path → wv_content_type v = PACK_VOLUME_CONTENT_TYPE →
  ∃ r st', complete_write session (pk_write_segments c) (sumZ sap_stored_bytes (pk_archive_parts c)) PACK_VOLUME_CONTENT_TYPE m
      (w_store w) = (Ok r, st') ∧ co_object_path r = object_path.
Proof.
  intros Hw Htake Hsession Hv Hm Hmeta Hpath Hct. pose proof (pack_live_good _ _ _ Hw) as Hc. pose proof (plv_session _ _ _ Hw) as Hs.
  destruct (pack_write_session _ _ _ _ c Hc session Hsession) as [Hspath Htok]. rewrite <- Hspath. rewrite <- Htok in Hv.
  pose proof (plv_parts _ _ _ Hw) as Hparts. rewrite Htake in Hparts.
  pose proof (ly_segments _ _ _ _ (pack_layout_of_good _ _ _ _ c s us file Hc Hs Hl)) as Hsegs. cbn [as_raw rk_archive_parts rk_write_segments] in Hsegs.
  pose proof (segments_recorded _ _ _ _ Hsegs Hplans) as Hrec.
  rewrite Hparts in Hrec. apply (serve_complete session _ _ _ m _ v); try done.
  - by rewrite Hspath.
  - by apply (plv_current _ _ _ Hw).
  - rewrite Hparts. by apply (sealed_sums p _ s us file Hl plans).
  - rewrite Hspath. apply (plv_object _ _ _ Hw).
Qed.

(** The checkpoint that [_mark_completed] saves. *)
Definition pack_sealed_with (c : PackUploadCheckpoint) (receipt : CompletedObjectReceipt) : PackUploadCheckpoint :=
  with_progress c (pk_next_unit c) (pk_archive_parts c) (pk_write_segments c)
    (Some {| cr_revision := co_revision receipt; cr_entity_token := co_entity_token receipt; cr_bytes := co_bytes receipt;
             cr_completed_at := co_completed_at receipt; cr_retrieval_cache := co_retrieval_cache receipt |}).

Lemma pack_complete_returns w c i : pack_live w c i → take i us = us →
  ∃ e w', _complete plan c w = (Ok e, w') ∧ is_Some (pk_completed e).
Proof.
  intros Hw Htake. pose proof (pack_live_good _ _ _ Hw) as Hc. pose proof (plv_session _ _ _ Hw) as Hs.
  pose proof (plv_parts _ _ _ Hw) as Hparts. rewrite Htake in Hparts.
  pose proof (pack_live_token _ _ _ Hw) as Ht. pose proof (iv_store _ _ _ (plv_inv _ _ _ Hw)) as Hi.
  destruct (pack_session_ok c Hs) as (session & Hsession). destruct (plv_write _ _ _ Hw) as (v & Hv & Hct).
  destruct (iv_tokens _ _ _ Hi _ _ Ht) as (_ & v' & Hv' & Hpath & Hm & _). assert (v' = v) as -> by congruence. cbn [up_meta pack_upload up_path] in Hm, Hpath.
  destruct (pack_complete_served w c i session v _ Hw Htake Hsession Hv Hm eq_refl Hpath Hct) as (receipt & st' & Hrun & Hrp).
  set (w1 := {| w_store := st'; w_row := w_row w |}). pose proof (pack_layout_of_good _ _ _ _ c s us file Hc Hs Hl) as Hy.
  pose proof (pg_parts _ (ly_progress _ _ _ _ Hy)) as Hpi. pose proof (pg_segments _ (ly_progress _ _ _ _ Hy)) as Hsi.
  destruct (pack_write_session _ _ _ _ c Hc session Hsession) as [Hsp Hst].
  pose proof (segments_recorded _ _ _ _ (ly_segments _ _ _ _ Hy) Hplans) as Hrec. cbn [as_raw rk_archive_parts rk_write_segments] in Hrec, Hpi, Hsi. rewrite Hparts in Hrec.
  destruct (complete_triple pack_upload (pack_meta_perm _ _ _ _) tokens _ _ s us file Ht Hs Hl session (pk_write_segments c) plans _ (sumZ sap_stored_bytes (pk_archive_parts c)) Hsp Hst Hplans
    (recorded_all p _ s us file Hl plans _ Hplans Hrec) Hm w (Ok receipt) w1 (plv_inv _ _ _ Hw) I) as (Hinv & _ & Hok & Hseal & Hb).
  { unfold ask. cbn [up_content_type pack_upload]. by rewrite Hrun. }
  assert (sumZ sap_stored_bytes (pk_archive_parts c) = len file) as Hsum by (rewrite Hparts; by apply (stored_total _ _ _ _ _ Hl)).
  pose proof (lays_mark p _ s us file Hl (as_raw c) receipt Hy Hok Hb Hsum) as Hy'. change (sealed_with (as_raw c) receipt) with (as_raw (pack_sealed_with c receipt)) in Hy'.
  apply (pack_good_layout _ _ _ _ Hq c s us file Hc Hs Hl) in Hy' as Hge; [|done].
  destruct (pack_save_keeps tokens w1 (pack_sealed_with c receipt) Hge) as (w' & Hsave & _); [|done|done|done|].
  { destruct (plv_row _ _ _ Hw) as (r & Hr & Hkind & Hrc). exists r, (Some c). split_and!; try done. intros d [= <-].
    split; [done|]. split; try done. intros k. cbn [as_raw rk_completed]. by rewrite (plv_open _ _ _ Hw). }
  exists (pack_sealed_with c receipt), w'. split; [|done]. unfold _complete. rewrite (plv_open _ _ _ Hw). cbv zeta.
  rewrite (sorted_byZ_id _ _ Hpi), (sorted_byZ_id _ _ Hsi).
  rewrite (run_lift _ tt).
  2: { rewrite bool_decide_eq_true_2; [done|]. rewrite Hparts, <- list_fmap_compose. change (sap_number ∘ part_of p file) with au_unit_number.
       rewrite (ld_numbers _ _ _ _ _ Hl), (pack_units_len q payloads Hq s us file Hl). f_equal. lia. }
  rewrite (run_lift _ session) by done. rewrite (run_lift _ _ _ _ Hm), (run_ask _ _ _ _ _ Hrun). unfold _mark_completed.
  rewrite (sorted_byZ_id _ _ Hpi), (sorted_byZ_id _ _ Hsi). fold w1 (pack_sealed_with c receipt).
  rewrite (run_lift _ tt); [exact Hsave|]. destruct (pgd_static _ _ _ _ _ Hc) as (_ & _ & -> & _).
  rewrite Hb, Hparts, <- (stored_total _ _ _ _ _ Hl), Hrp, Z.eqb_refl. by rewrite bool_decide_eq_true_2.
Qed.

(** ** All units *)

Lemma pack_live_next w c k u : pack_live w c k → pv_units plan !! k = Some u → pk_next_unit c = Z.of_nat k.
Proof.
  intros Hw Hk. pose proof (pack_layout_of_good _ _ _ _ c s us file (pack_live_good _ _ _ Hw) (plv_session _ _ _ Hw) Hl) as Hy.
  pose proof (pg_next _ (ly_progress _ _ _ _ Hy)) as Hn. cbn [as_raw rk_next_part rk_archive_parts] in Hn.
  rewrite Hn, (plv_parts _ _ _ Hw). by eapply (next_after p _ s us file Hl), pack_unit_at.
Qed.

Lemma pack_unit_returns w c k u ps chunks : pack_live w c k → pv_units plan !! k = Some u → payloads !! k = Some ps →
  concat chunks = concat ps →
  ∃ e w', upload_unit passphrase source_read_chunk_bytes max_inflight_bytes plan c (Z.of_nat k) chunks w = (Ok e, w') ∧
    if (S k =? length us)%nat then is_Some (pk_completed e) else pack_live w' e (S k).
Proof.
  intros Hw Hk Hps Hchunks. pose proof (pack_live_good _ _ _ Hw) as Hc. pose proof (plv_session _ _ _ Hw) as Hs. pose proof (pack_unit_at k u Hk) as Hi.
  destruct (pack_prepare_returns w c k u ps chunks Hw Hk Hps Hchunks) as (receipts & w1 & v & Hprep & Hrow & Ho & Hv & Hct & Hrec & Hvalid & Hi1 & Hcur).
  destruct (pack_record_returns w w1 v c k _ receipts Hw Hi Hrow Ho Hv Hct Hrec Hvalid Hi1 Hcur) as (e & w2 & Hrun & Hlive).
  pose proof (pack_units_len q payloads Hq s us file Hl) as Hlens. pose proof (lookup_lt_Some _ _ _ Hk) as Hlt.
  assert (len (pk_archive_parts e) = Z.of_nat (S k)) as Hlen.
  { rewrite (plv_parts _ _ _ Hlive), len_fmap. unfold len. apply lookup_lt_Some in Hi. rewrite length_take. lia. }
  assert (upload_unit passphrase source_read_chunk_bytes max_inflight_bytes plan c (Z.of_nat k) chunks w =
    (if len (pk_archive_parts e) =? len (pv_units plan) then _complete plan e else mret e) w2) as ->.
  { unfold upload_unit. rewrite (run_lift _ tt) by (apply (pack_validates passphrase scrypt_log_n q payloads Hq c s us file Hc Hs Hl plans Hplans);
      rewrite (plv_open _ _ _ Hw); by intros []). rewrite (plv_open _ _ _ Hw).
    rewrite (run_lift _ tt) by (rewrite (proj2 (Z.ltb_ge _ _)), (proj2 (Z.leb_gt _ _)) by (unfold len; lia); done).
    pose proof (no_part p (as_raw c) file (pack_unit s p u)) as Hnone. cbn [sap_number part_of] in Hnone.
    rewrite (unit_at p _ s us file Hl k _ Hi) in Hnone. rewrite Z.add_comm.
    rewrite (Hnone ltac:(cbn [as_raw rk_archive_parts]; rewrite (plv_parts _ _ _ Hw), <- (unit_at p _ s us file Hl k _ Hi); by apply (unit_new p _ s us file Hl)) :
      _part_by_number (pk_archive_parts c) (1 + Z.of_nat k) = None).
    by rewrite (run_bind _ _ _ _ _ Hprep), (run_bind _ _ _ _ _ Hrun). }
  rewrite Hlen, <- Hlens. unfold len. destruct (Nat.eqb_spec (S k) (length us)) as [He|He].
  - rewrite (proj2 (Z.eqb_eq _ _)) by lia. apply (pack_complete_returns w2 e (S k) Hlive). by apply take_ge; lia.
  - rewrite (proj2 (Z.eqb_neq _ _)) by lia. by exists e, w2.
Qed.

Lemma pack_next_returns w c k u ps chunks : pack_live w c k → pv_units plan !! k = Some u → payloads !! k = Some ps →
  concat chunks = concat ps →
  ∃ e w', upload_next_unit passphrase source_read_chunk_bytes max_inflight_bytes plan c chunks w = (Ok e, w') ∧
    if (S k =? length us)%nat then is_Some (pk_completed e) else pack_live w' e (S k).
Proof.
  intros Hw Hk Hps Hchunks. pose proof (pack_live_next w c k u Hw Hk) as Hn.
  destruct (pack_unit_returns w c k u ps chunks Hw Hk Hps Hchunks) as (e & w' & Hrun & Hpost). exists e, w'. split; [|done].
  unfold upload_next_unit. rewrite (plv_open _ _ _ Hw), Hn.
  apply lookup_lt_Some in Hk. by rewrite (proj2 (Z.leb_gt _ _)) by (unfold len; lia).
Qed.

Lemma pack_units_return streams w cs c k : pack_live w c k → c ∈ cs → (k < length us)%nat →
  Forall2 (λ ps chunks, concat chunks = concat ps) (drop k payloads) streams →
  ∃ e w' cs', upload_pack_units c streams w = (Ok e, w') ∧ is_Some (pk_completed e) ∧ rtc pstep (w, cs) (w', cs') ∧ e ∈ cs'.
Proof.
  pose proof (Forall2_length _ _ _ (po_payloads _ _ Hq)) as Hlp. pose proof (pack_units_len q payloads Hq s us file Hl) as Hlens. unfold len in Hlens.
  revert w cs c k. induction streams as [|chunks streams IH]; intros w cs c k Hw Hc Hlt Hall.
  { apply Forall2_nil_inv_r in Hall. apply (f_equal length) in Hall. rewrite length_drop in Hall. cbn in Hall. lia. }
  destruct (lookup_lt_is_Some_2 (pv_units plan) k ltac:(lia)) as [u Hk]. destruct (lookup_lt_is_Some_2 payloads k ltac:(lia)) as [ps Hps].
  rewrite (drop_S _ _ _ Hps) in Hall. apply Forall2_cons in Hall as [Hchunks Hall].
  destruct (pack_next_returns w c k u ps chunks Hw Hk Hps Hchunks) as (e & w1 & Hrun & Hpost).
  assert (pstep (w, cs) (w1, e :: cs)) as Hstep.
  { apply (pstep_next _ _ _ _ _ _ w (Ok e) w1 cs c chunks Hc); [|done]. rewrite (pack_live_next w c k u Hw Hk).
    by apply (pack_stream k u ps). }
  cbn [upload_pack_units]. rewrite (run_bind _ _ _ _ _ Hrun). destruct (Nat.eqb_spec (S k) (length us)) as [He|Hne].
  - rewrite drop_ge in Hall by lia. apply Forall2_nil_inv_l in Hall as ->. exists e, w1, (e :: cs). split; [done|].
    split; [done|]. split; [by apply rtc_once|by left].
  - destruct (IH w1 (e :: cs) e (S k) Hpost ltac:(by left) ltac:(lia) Hall) as (e' & w' & cs' & Hrest & Hdone & Hrtc & Hin).
    exists e', w', cs'. split_and!; try done. by eapply rtc_l.
Qed.
End laid_out.

(** ** Opening *)

Lemma pack_metadata_ok text s : session_text text s → ∃ base m, _object_metadata plan None = Ok base ∧ _object_metadata plan (Some text) = Ok m.
Proof.
  intros (_ & _ & _ & state & _ & _ & _ & _ & Hv & _ & -> & _). unfold _object_metadata. cbv zeta.
  destruct (age_text_read state Hv) as (_ & _ & _ & ->). rewrite ok_bind.
  destruct (utf8_encode_ok (dumps true (upload_state_payload state))) as [content Hc]; [by apply dumps_text, upload_payload_wf|].
  unfold to_json_bytes. rewrite Hc, ok_bind. by eexists _, _.
Qed.

(** Nothing fails before the store is asked to begin. *)
Lemma pack_start_runs w s us file file_key salt nonce : create (PassText passphrase) scrypt_log_n file_key salt nonce None = Ok s →
  laid s us file → objects (w_store w) !! object_path = None → bytes_ok file_key → bytes_ok salt → bytes_ok nonce →
  ∃ text m n st, session_text text s ∧ _object_metadata plan (Some text) = Ok m ∧ pack_drawn passphrase scrypt_log_n q file_key salt nonce = Ok m ∧
    unchanged (w_store w) st ∧
    start passphrase scrypt_log_n (pq_collection_id q) plan object_path (pq_relative_path q) file_key salt nonce w =
    (write ← ask (begin_write object_path n PACK_VOLUME_CONTENT_TYPE m);
     _save (pack_first q (wn_write_token write) text)) {| w_store := st; w_row := w_row w |}.
Proof.
  intros Hs Hl Hnone Hk Hsalt Hn. pose proof (len_nonneg p) as Hp.
  destruct (resume_created _ _ _ _ _ _ s (Some (len p)) Hs Hk Hsalt Hn Hp) as (state & content & Hexp & Hto & Hfrom & _).
  unfold from_json_bytes in Hfrom. apply bind_Ok in Hfrom as (text & Hdec & _).
  pose proof (created_text passphrase scrypt_log_n p _ _ _ _ _ _ _ Hs Hk Hsalt Hn Hexp Hto Hdec) as Ht.
  destruct (pack_metadata_ok text s Ht) as (base & m & Hbase & Hm). destruct (expected_bytes_ok p _ s us file Hl (len (age_prefix s))) as [n Hlen].
  destruct (serve_find object_path n PACK_VOLUME_CONTENT_TYPE base (w_store w)) as (found & st & Hfind).
  pose proof (find_law _ _ _ _ _ _ _ Hfind) as [Hu Hr].
  assert (found = None) as ->.
  { destruct found as [receipt|]; [|done]. destruct Hr as [_ (o & Ho & _)]. congruence. }
  rewrite (pack_bytes_len q payloads Hq) in Hexp, Hlen. exists text, m, n, st. split_and!; try done.
  { unfold pack_drawn. by rewrite Hs, ok_bind, Hexp, ok_bind, Hto, ok_bind, Hdec, ok_bind. }
  unfold start. rewrite (run_lift _ _ _ _ Hs), (run_lift _ _ _ _ Hexp), (run_lift _ _ _ _ Hto), (run_lift _ _ _ _ Hdec), (run_lift _ _ _ _ Hlen).
  rewrite (run_lift _ _ _ _ Hbase), (run_ask _ _ _ _ _ Hfind), (run_lift _ tt) by done. by rewrite (run_lift _ _ _ _ Hm).
Qed.

Lemma pack_start_returns w r s us file file_key salt nonce : pack_initial q w → w_row w = Some r → ur_kind r = str "pack" →
  pack_fresh passphrase scrypt_log_n q file_key salt nonce (w_store w) →
  create (PassText passphrase) scrypt_log_n file_key salt nonce None = Ok s → laid s us file →
  ∃ tokens c w', start passphrase scrypt_log_n (pq_collection_id q) plan object_path (pq_relative_path q) file_key salt nonce w = (Ok c, w') ∧
    pack_live tokens s us file w' c 0.
Proof.
  intros [Hobj Hempty] Hr Hkind (Hk & Hsalt & Hn & Hfresh) Hs Hl.
  destruct (pack_start_runs w s us file file_key salt nonce Hs Hl Hobj Hk Hsalt Hn) as (text & m & n & st & Ht & Hm & Hd & Hu & Hrun).
  destruct (serve_begin object_path n PACK_VOLUME_CONTENT_TYPE m st) as (write & st' & Hb).
  pose proof (begin_law _ _ _ _ _ _ _ Hb) as [Htok Hcase]. specialize (Hfresh m Hd). destruct Hu as [Hwr Hob]. unfold unused in Hfresh. rewrite <- Hwr in Hfresh.
  destruct Hcase as [Hbegun|[_ (v & Hv & Hsame)]]; [|by destruct (Hfresh _ _ Hv)].
  destruct (pack_initial_inv passphrase scrypt_log_n q payloads w (conj Hobj Hempty)) as (tokens & Hinv & _). cbn [fst] in Hinv.
  pose proof (unchanged_inv _ tokens _ _ (conj Hwr Hob) (iv_store _ _ _ Hinv)) as Hst.
  destruct (begun_inv pack_upload tokens _ _ _ text s _ _ Hst Hbegun Ht Hm Hfresh) as (Hsub & Hst' & Hstays).
  pose proof (unchanged_stays pack_upload _ _ (conj Hwr Hob)) as Hstays0.
  pose proof (inv_store pack_upload _ _ w st' Hinv Hsub Hst' ltac:(by etrans)) as Hinv'.
  destruct Hbegun as (Hnew & Ho & Hw). set (c := pack_first q (wn_write_token write) text).
  destruct (pack_save_keeps (<[wn_write_token write := text]> tokens) {| w_store := st'; w_row := w_row w |} c) as
    (w' & Hsave & Hsame & Hrow & Hi' & Hheld); [by eapply pack_first_good| |apply lookup_insert_eq|done|by intros []|].
  { exists r, None. split_and!; try done. unfold row_checkpoint. by rewrite (Hempty r Hr). }
  exists (<[wn_write_token write := text]> tokens), c, w'. split.
  { rewrite Hrun. by rewrite (run_ask _ write st' _ {| w_store := st; w_row := w_row w |} Hb). }
  split; try done; rewrite Hsame; cbn [w_store].
  - by rewrite Ho, Hob.
  - rewrite Hw. cbn [c pack_first pk_write_token]. rewrite lookup_insert_eq. by eexists.
Qed.

Lemma pack_open_returns w r s file_key salt nonce :
  check_request (pq_collection_id q) plan object_path (pq_relative_path q) = Ok (pq_relative_path q) →
  pack_initial q w → w_row w = Some r → ur_kind r = str "pack" →
  pack_fresh passphrase scrypt_log_n q file_key salt nonce (w_store w) →
  create (PassText passphrase) scrypt_log_n file_key salt nonce None = Ok s →
  ∃ tokens us file c w', laid s us file ∧ pack_open passphrase scrypt_log_n q file_key salt nonce w = (Ok c, w') ∧
    pack_live tokens s us file w' c 0.
Proof.
  intros Hcheck Hinit Hr Hkind Hfresh Hs.
  destruct (pack_laid plan payloads (po_valid _ _ Hq) (po_payloads _ _ Hq) (pack_limit q payloads Hq) s) as (file & Hl).
  destruct (pack_start_returns w r s _ file file_key salt nonce Hinit Hr Hkind Hfresh Hs Hl) as (tokens & c & w1 & Hstart & Hlive).
  exists tokens, (pack_unit s p <$> pv_units plan), file, c, w1. split_and!; try done. unfold pack_open, open. rewrite (run_lift _ _ _ _ Hcheck).
  unfold mbind at 1, effect_bind at 1, load_checkpoint. rewrite Hr. unfold load_pack_upload_checkpoint.
  rewrite (proj2 Hinit r Hr). by destruct (bool_decide _).
Qed.

Notation pack_reachable := (pack_reachable passphrase scrypt_log_n source_read_chunk_bytes max_inflight_bytes q payloads).

Lemma pack_send_returns w r s us plans streams file_key salt nonce :
  check_request (pq_collection_id q) plan object_path (pq_relative_path q) = Ok (pq_relative_path q) →
  pack_initial q w → w_row w = Some r → ur_kind r = str "pack" →
  pack_fresh passphrase scrypt_log_n q file_key salt nonce (w_store w) →
  create (PassText passphrase) scrypt_log_n file_key salt nonce None = Ok s →
  mapM_result (_age_part_plan s (pv_plaintext_bytes plan)) (pv_units plan) = Ok us →
  plan_write_segments (ciphertext_len <$> us) write_constraints = Ok plans →
  64 * 1024 ≤ source_read_chunk_bytes →
  (∀ u, u ∈ us → ciphertext_len u + source_read_chunk_bytes + CHUNK_SIZE ≤ max_inflight_bytes) →
  Forall2 (λ ps chunks, concat chunks = concat ps) payloads streams →
  ∃ c k w' cs, send_pack file_key salt nonce streams w = (Ok c, w') ∧ pk_completed c = Some k ∧ pack_reachable (w', cs) ∧ c ∈ cs.
Proof.
  intros Hcheck Hinit Hr Hkind Hfresh Hs Hus Hplans Hread Hbudget Hstreams.
  destruct (pack_open_returns w r s file_key salt nonce Hcheck Hinit Hr Hkind Hfresh Hs) as (tokens & us' & file & c & w1 & Hl & Hopen & Hlive).
  pose proof (ld_units _ _ _ _ _ Hl) as Hus'. unfold pack_units in Hus'. rewrite Hus in Hus'. apply Ok_eq in Hus' as <-.
  assert (0 < length us)%nat as Hpos by (pose proof (ld_nonempty _ _ _ _ _ Hl); destruct us; [done|cbn; lia]).
  destruct (pack_units_return tokens s us file plans Hl Hplans Hread Hbudget streams w1 [c] c 0 Hlive) as
    (e & w' & cs & Hrun & [k Hdone] & Hrtc & Hin); [by left|done|by rewrite drop_0|].
  exists e, k, w', cs. split_and!; [|done| |done].
  - unfold send_pack. by rewrite (run_bind _ _ _ _ _ Hopen).
  - exists w. split; [done|]. eapply rtc_l; [|exact Hrtc].
    exact (pstep_open _ _ _ _ _ _ w (Ok c) w1 [] file_key salt nonce Hfresh Hopen).
Qed.
End pack_progress.

(** ** Properties *)

Section pack_properties.
Context `{PyEnv} `{Aead} (passphrase : pystr) (scrypt_log_n : Z).
Context (source_read_chunk_bytes max_inflight_bytes : Z) (q : PackRequest) (payloads : list (list pybytes)).

(** C2. What a sealed pack stands for: in every reachable state of the system (any
    number of openings, stale or current checkpoints, units in any order, repeated
    or aborted, a store that may raise at any call with or without its effect,
    other users of the store), a completed pack checkpoint in any caller's hands
    means that the object at the path is an age file of exactly the recorded size
    that decrypts under the passphrase to the tar archive of the planned files,
    that [sealed_receipt] accepts the checkpoint, and that the parts of the receipt
    have the sizes and digests of consecutive ranges of the object and of the
    archive. *)
Theorem sealed_pack_is_the_archive `{StoreContract} w cs c k : pack_request_ok q payloads →
  pack_reachable passphrase scrypt_log_n source_read_chunk_bytes max_inflight_bytes q payloads (w, cs) → c ∈ cs →
  pk_completed c = Some k → stands_for_pack passphrase q payloads (w_store w) c k.
Proof. intros Hq. by apply pack_stands. Qed.

(** C3. Files that were uploaded in a pack can be read back: in every reachable
    state, a completed checkpoint gives a receipt whose retrieval source passes the
    checks of its constructor, and for any selection of distinct members whose
    chunks respect the bound the batch reader plans its requests and, from a store
    that serves the object in whatever chunks and completes the requests in
    whatever order, with a byte budget of at least twice the bound, returns for
    each selected path exactly the bytes of its file. *)
Theorem sealed_pack_retrievable `{StoreContract} w cs c k : pack_request_ok q payloads →
  startswith (str "/") (pq_object_path q) = false →
  pack_reachable passphrase scrypt_log_n source_read_chunk_bytes max_inflight_bytes q payloads (w, cs) → c ∈ cs →
  pk_completed c = Some k → retrievable_pack passphrase q payloads (w_store w) c.
Proof. intros Hq. by apply pack_retrieves. Qed.

(** C6. Pack uploads finish: with a store that serves its calls, opening a pack
    whose row and path are empty and sending the contents of the files unit by
    unit, each in chunks of any sizes, returns a completed checkpoint, and the
    object it stands for is there.  The hypotheses are those under which the code
    raises nothing: an acceptable request, a session that can be created, a
    segment plan that the adapter's constraints allow, a budget that admits the
    buffers of a unit. *)
Theorem pack_upload_completes `{StoreServes} w r s us plans streams file_key salt nonce : pack_request_ok q payloads →
  check_request (pq_collection_id q) (pq_plan q) (pq_object_path q) (pq_relative_path q) = Ok (pq_relative_path q) →
  pack_initial q w → w_row w = Some r → ur_kind r = str "pack" →
  pack_fresh passphrase scrypt_log_n q file_key salt nonce (w_store w) →
  create (PassText passphrase) scrypt_log_n file_key salt nonce None = Ok s →
  mapM_result (_age_part_plan s (pv_plaintext_bytes (pq_plan q))) (pv_units (pq_plan q)) = Ok us →
  plan_write_segments (ciphertext_len <$> us) write_constraints = Ok plans →
  64 * 1024 ≤ source_read_chunk_bytes →
  (∀ u, u ∈ us → ciphertext_len u + source_read_chunk_bytes + CHUNK_SIZE ≤ max_inflight_bytes) →
  Forall2 (λ ps chunks, concat chunks = concat ps) payloads streams →
  ∃ c k w', send_pack passphrase scrypt_log_n source_read_chunk_bytes max_inflight_bytes q file_key salt nonce streams w = (Ok c, w') ∧
    pk_completed c = Some k ∧ stands_for_pack passphrase q payloads (w_store w') c k.
Proof.
  intros Hq Hcheck Hinit Hr Hkind Hfresh Hs Hus Hplans Hread Hbudget Hstreams.
  destruct (pack_send_returns passphrase scrypt_log_n source_read_chunk_bytes max_inflight_bytes q payloads Hq w r s us plans streams
    file_key salt nonce) as (c & k & w' & cs & Hrun & Hk & Hreach & Hin); try done.
  exists c, k, w'. split; [done|]. split; [done|]. by eapply pack_stands.
Qed.

(** C36. A body that is not the payload of its unit changes nothing: for an open
    pack checkpoint in the hands of any caller of a reachable system, and a unit
    that it has not recorded yet, a stream that cannot be cut into payloads with
    the sizes and digests of the unit's files makes [upload_unit] raise, and
    neither the store nor the row is touched, whatever the state of the store. *)
Theorem wrong_payload_changes_nothing `{StoreContract} w cs c i u chunks : pack_request_ok q payloads →
  pack_reachable passphrase scrypt_log_n source_read_chunk_bytes max_inflight_bytes q payloads (w, cs) → c ∈ cs → pk_completed c = None →
  pv_units (pq_plan q) !! i = Some u → _part_by_number (pk_archive_parts c) (Z.of_nat i + 1) = None →
  (∀ ps, concat chunks = concat ps → Forall2 file_payload (pu_sources u) ps → False) →
  ∃ e, upload_unit passphrase source_read_chunk_bytes max_inflight_bytes (pq_plan q) c (Z.of_nat i) chunks w = (Err e, w).
Proof.
  intros Hq Hr Hin. destruct (pack_reachable_inv _ _ _ _ _ _ Hq _ Hr) as (tokens & _ & Hcs). cbn [snd] in Hcs.
  rewrite Forall_forall in Hcs. apply (wrong_payload_refused passphrase scrypt_log_n _ _ q payloads); [done|]. apply (Hcs c Hin).
Qed.
End pack_properties.

(** ** A pack uploaded in memory *)

Definition pack_request (pack : PackVolumePlan) : PackRequest :=
  let relative_path := str "volumes/" ++ pv_volume_id pack ++ str ".tar.age" in
  {| pq_collection_id := 1; pq_plan := pack; pq_object_path := str "c/" ++ relative_path; pq_relative_path := relative_path |}.

Definition pack_row : UploadRow :=
  {| ur_kind := str "pack"; ur_checkpoint_json := None; ur_uploaded_bytes := 0; ur_uploaded_units := 0;
     ur_state := str "planned"; ur_payload_bytes := Some 0 |}.

Definition pack_contents : list (list pybytes) := [[[4; 5]; [1; 2; 3]]].

Section in_memory.
#[local] Existing Instance ascii_env.
#[local] Existing Instance tag_aead.
#[local] Existing Instance sample_store.
#[local] Existing Instance sample_view.
#[local] Existing Instance sample_contract.
#[local] Existing Instance sample_serves.

Definition pack_world : world := {| w_store := {| mem_writes := ∅; mem_objects := ∅ |} : ost; w_row := Some pack_row |}.

(** What evaluation of the plan shows. *)
Lemma sample_pack_facts pack : sample_plan = Ok pack → ∃ u us plans,
  pv_units pack = [u] ∧ pv_plaintext_bytes pack = 4608 ∧
  normalize_relpath (pq_relative_path (pack_request pack)) = Ok (pq_relative_path (pack_request pack)) ∧
  check_request 1 pack (pq_object_path (pack_request pack)) (pq_relative_path (pack_request pack)) = Ok (pq_relative_path (pack_request pack)) ∧
  mapM_result (_age_part_plan sample_session (pv_plaintext_bytes pack)) (pv_units pack) = Ok us ∧
  plan_write_segments (ciphertext_len <$> us) sample_constraints = Ok plans ∧
  ∀ v, v ∈ us → ciphertext_len v + 65536 + CHUNK_SIZE ≤ 1000000.
Proof.
  intros E. vm_compute in E. injection E as <-. eexists _, _, _. split; [reflexivity|]. split; [reflexivity|].
  do 4 (split; [vm_compute; reflexivity|]).
  intros v Hv. apply list_elem_of_singleton in Hv as ->. vm_compute. discriminate.
Qed.

Lemma sample_pack_ok pack : sample_plan = Ok pack → pack_request_ok (pack_request pack) pack_contents.
Proof.
  intros E. destruct (sample_pack_facts pack E) as (u & _ & _ & Hu & Hb & Hn & _). pose proof (sample_plan_valid pack E) as Hv.
  assert (text_ok (pq_relative_path (pack_request pack))) as Ht.
  { apply Forall_app. split; [apply str_text|]. apply Forall_app. split; [|apply str_text].
    destruct (plan_valid_facts pack Hv) as (_ & -> & Hseq & _). by apply pack_id_text, pack_volume_id_match. }
  split; [done| |by split|done| |cbn [pq_plan pack_request]; by rewrite Hb].
  - split; [done|]. apply Forall_app. split; [apply str_text|done].
  - cbn [pq_plan pack_request]. rewrite Hu. repeat constructor. apply (sample_payloads pack u E). by rewrite Hu.
Qed.

Lemma sample_pack_fresh pack : pack_fresh (str "pw") 1 (pack_request pack) example_key example_salt example_nonce (w_store pack_world).
Proof. destruct sample_fresh as (Hk & Hs & Hn & _). split_and!; try done. all: by intros m _ t v. Qed.

Lemma sample_pack_initial pack : pack_initial (pack_request pack) pack_world.
Proof. split; [apply lookup_empty|]. by intros r [= <-]. Qed.

Definition pack_streams : list (list pybytes) := [[[4]; [5; 1; 2]; []; [3]]].

Lemma pack_streams_ok : Forall2 (λ ps chunks, concat chunks = concat ps) pack_contents pack_streams.
Proof. constructor; [reflexivity|constructor]. Qed.

Lemma sample_pack_sent pack : sample_plan = Ok pack → ∃ c k w cs,
  send_pack (str "pw") 1 65536 1000000 (pack_request pack) example_key example_salt example_nonce pack_streams pack_world = (Ok c, w) ∧
  pk_completed c = Some k ∧ pack_reachable (str "pw") 1 65536 1000000 (pack_request pack) pack_contents (w, cs) ∧ c ∈ cs.
Proof.
  intros E. destruct (sample_pack_facts pack E) as (u & us & plans & _ & _ & _ & Hcheck & Hus & Hplans & Hbudget).
  destruct sample_ready as (_ & _ & Hs & _).
  exact (pack_send_returns (str "pw") 1 65536 1000000 (pack_request pack) pack_contents (sample_pack_ok pack E) pack_world pack_row sample_session us plans
    pack_streams example_key example_salt example_nonce Hcheck (sample_pack_initial pack) eq_refl eq_refl (sample_pack_fresh pack) Hs Hus Hplans
    (Z.le_refl _) Hbudget pack_streams_ok).
Qed.

Lemma sealed_pack_is_the_archive_witness : ∃ pack w cs c k, sample_plan = Ok pack ∧
  pack_reachable (str "pw") 1 65536 1000000 (pack_request pack) pack_contents (w, cs) ∧ c ∈ cs ∧ pk_completed c = Some k ∧
  stands_for_pack (str "pw") (pack_request pack) pack_contents (w_store w) c k.
Proof.
  destruct sample_plan as [pack|e] eqn:E; [|vm_compute in E; discriminate E].
  destruct (sample_pack_sent pack E) as (c & k & w & cs & _ & Hk & Hr & Hin).
  exists pack, w, cs, c, k. split; [reflexivity|]. split; [exact Hr|]. split; [exact Hin|]. split; [exact Hk|].
  exact (sealed_pack_is_the_archive (str "pw") 1 65536 1000000 (pack_request pack) pack_contents w cs c k (sample_pack_ok pack E) Hr Hin Hk).
Defined.

Lemma sealed_pack_retrievable_witness : ∃ pack w cs c k, sample_plan = Ok pack ∧
  pack_reachable (str "pw") 1 65536 1000000 (pack_request pack) pack_contents (w, cs) ∧ c ∈ cs ∧ pk_completed c = Some k ∧
  retrievable_pack (str "pw") (pack_request pack) pack_contents (w_store w) c.
Proof.
  destruct sample_plan as [pack|e] eqn:E; [|vm_compute in E; discriminate E].
  destruct (sample_pack_sent pack E) as (c & k & w & cs & _ & Hk & Hr & Hin).
  exists pack, w, cs, c, k. split; [reflexivity|]. split; [exact Hr|]. split; [exact Hin|]. split; [exact Hk|].
  exact (sealed_pack_retrievable (str "pw") 1 65536 1000000 (pack_request pack) pack_contents w cs c k (sample_pack_ok pack E) eq_refl Hr Hin Hk).
Defined.

Lemma pack_upload_completes_witness : ∃ pack c k w, sample_plan = Ok pack ∧
  send_pack (str "pw") 1 65536 1000000 (pack_request pack) example_key example_salt example_nonce pack_streams pack_world = (Ok c, w) ∧
  pk_completed c = Some k ∧ stands_for_pack (str "pw") (pack_request pack) pack_contents (w_store w) c k.
Proof.
  destruct sample_plan as [pack|e] eqn:E; [|vm_compute in E; discriminate E].
  destruct (sample_pack_facts pack E) as (u & us & plans & _ & _ & _ & Hcheck & Hus & Hplans & Hbudget).
  destruct sample_ready as (_ & _ & Hs & _).
  destruct (pack_upload_completes (str "pw") 1 65536 1000000 (pack_request pack) pack_contents pack_world pack_row sample_session us plans
    pack_streams example_key example_salt example_nonce (sample_pack_ok pack E) Hcheck (sample_pack_initial pack) eq_refl eq_refl (sample_pack_fresh pack)
    Hs Hus Hplans (Z.le_refl _) Hbudget pack_streams_ok) as (c & k & w & Hrun & Hk & Hst).
  exists pack, c, k, w. split; [reflexivity|]. split; [exact Hrun|]. split; [exact Hk|exact Hst].
Defined.

(** A byte of the first file is wrong. *)
Lemma wrong_sample pack u : sample_plan = Ok pack → pv_units pack !! 0%nat = Some u →
  ∀ ps, concat [[4; 6; 1; 2; 3]] = concat ps → Forall2 file_payload (pu_sources u) ps → False.
Proof.
  intros E Hu ps Hc Hf. pose proof (sample_payloads pack u E Hu) as Hgood.
  inversion Hgood as [|f x fs xs [Hl Hsha] Hrest Hsrc]; subst. rewrite <- Hsrc in Hf.
  inversion Hf as [|? y ? ys [Hl' Hsha'] _]; subst. rewrite <- Hl in Hl'. cbn [concat app] in Hc.
  destruct y as [|a [|b [|d y]]]; [discriminate Hl'|discriminate Hl'| |unfold len in Hl'; cbn in Hl'; lia]. injection Hc as <- <- _. rewrite <- Hsha in Hsha'. vm_compute in Hsha'. discriminate Hsha'.
Qed.

Lemma wrong_payload_changes_nothing_witness : ∃ pack c w e, sample_plan = Ok pack ∧
  pack_open (str "pw") 1 (pack_request pack) example_key example_salt example_nonce pack_world = (Ok c, w) ∧
  upload_unit (str "pw") 65536 1000000 pack c 0 [[4; 6; 1; 2; 3]] w = (Err e, w).
Proof.
  destruct sample_plan as [pack|e] eqn:E; [|vm_compute in E; discriminate E].
  destruct (sample_pack_facts pack E) as (u & us & plans & Hu & _ & _ & Hcheck & _). destruct sample_ready as (_ & _ & Hs & _).
  destruct (pack_open_returns (str "pw") 1 (pack_request pack) pack_contents (sample_pack_ok pack E) pack_world pack_row sample_session
    example_key example_salt example_nonce Hcheck (sample_pack_initial pack) eq_refl eq_refl (sample_pack_fresh pack) Hs)
    as (tokens & us' & file & c & w & Hl & Hrun & Hlive).
  destruct (wrong_payload_changes_nothing (str "pw") 1 65536 1000000 (pack_request pack) pack_contents w [c] c 0 u [[4; 6; 1; 2; 3]]
    (sample_pack_ok pack E)) as [e He].
  - exists pack_world. split; [exact (sample_pack_initial pack)|]. apply rtc_once.
    exact (pstep_open _ _ _ _ _ _ pack_world (Ok c) w [] example_key example_salt example_nonce (sample_pack_fresh pack) Hrun).
  - by left.
  - apply (plv_open _ _ _ _ _ _ _ _ _ _ _ Hlive).
  - cbn [pq_plan pack_request]. by rewrite Hu.
  - rewrite (plv_parts _ _ _ _ _ _ _ _ _ _ _ Hlive). reflexivity.
  - apply (wrong_sample pack); [exact E|]. by rewrite Hu.
  - exists pack, c, w, e. split; [reflexivity|]. split; [exact Hrun|exact He].
Defined.
End in_memory.
